(* ===== verification/_CoqProject ===== *)
-Q . S2P
Prelude.v
Errf.v
Tlv.v
Sshbuf.v
Algs.v
Sss.v
SssLanes.v
SssField.v
SssShare.v
PivBox.v
EboxList.v
EboxTpl.v
Ebox.v
EboxWire.v
EboxRecover.v
EboxKey.v
PivToken.v
Apdu.v
ApduChain.v
PivPin.v
PivFiles.v
PivParse.v
PivStore.v
PivObjects.v
Words.v
Poly1305.v
ChaCha.v
Cipher.v
Hmac.v
EboxStream.v
StreamCmd.v
EboxChal.v
PivCert.v
PivKeys.v
PivKeyCard.v
PivKeySafe.v
PivEnum.v
Base64.v
Agent.v
AgentSafe.v
AgentReply.v
SshKey.v
SshSig.v
SshBlob.v
SshPub.v
SshBlobOk.v
SshCert.v
SshText.v
SshPriv.v
