(* ===== verification/Prelude.v ===== *)
(** * Pivy: a verification development

    Pivy is a set of C tools around PIV smart cards. Its library code seals data to the
    keys of cards (piv.c), protects a key for groups of cards with
    thresholds (ebox.c, with Shamir sharing in sss/hazmat.c), and speaks to cards in APDUs that carry BER-TLV
    data (piv.c, tlv.c). All of it reads and writes byte buffers (libssh/sshbuf.c) and reports
    errors as chained values (errf.c). The agent (pivy-agent.c) offers the keys of a card to other programs as an SSH agent does,
    with the keys and signatures of libssh/sshkey.c. The command-line tools are front ends over these parts.

    ** How the code is modelled

    A C function is a function of the monad [M E S A] of [Prelude]: it maps a state to a result and a new
    state. A result is [Ok], an error value [Er], [Panic] for a failed [VERIFY] or
    assertion (the process stops), or [Fault] for a memory access outside an object.
    [let! x := m in k] and [m ;! k] sequence calls; [guard] is an early error return,
    [verify] a [VERIFY]. Machine integers are [Z] with [wrap]; bytes are [Z]
    in the range [is_byte]. Structs are records with the names of their C fields. Allocations succeed, and zeroing and
    freeing of memory is left out except where a pointer is used afterwards.

    ** Files

    - [Prelude]: results, the monad and its weakest preconditions, integers, lists indexed by [Z], big-endian numbers.
    - [Errf] (errf.c): error frames and their cause chains.
    - [Tlv] (tlv.c, tlv.h): the BER-TLV reader and writer with their stack of open tags.
    - [Sshbuf] (libssh/sshbuf.c): buffers on memory blocks; they refine a bounded queue of bytes. The
      predicates [puts] and [gets] compose writers and readers of messages and are used by all wire formats.
    - [Algs] (libssh/cipher.c, digest-openssl.c, sshkey.c): the tables of ciphers, digests and curves.
    - [Sss] (sss/hazmat.c): bitsliced Shamir sharing, and the class [SharingLaws], what it promises to
      ebox.c. [SssLanes] takes the words apart into 32 lanes, [SssField] shows that a lane computes
      in the field GF(2^8), [SssShare] proves recovery and secrecy and discharges [SharingLaws].
    - [PivBox] (piv.c, the box functions): sealing, opening and both wire formats. [Crypto] stands for OpenSSL
      and the ciphers' primitives; [CryptoLaws] is what the boxes rely on.
    - [EboxList] (ebox.c): the doubly linked lists of a template, on an explicit store.
    - [EboxTpl] (ebox.c): templates and their wire format; [KeyBlobs] stands for the key serialisation of sshkey.c.
    - [Ebox] (ebox.c): eboxes, [ebox_create], [ebox_unlock], [ebox_recover].
    - [EboxWire] (ebox.c): the wire format of eboxes in all versions.
    - [EboxRecover]: creation, writing, reading and opening put together, against [SharingLaws];
      [EboxKey] concludes for the code as a whole.
    - [EboxChal] (ebox.c): recovery challenges and their responses.
    - [PivToken] (piv.c): the handle of a token, its accessors and the list of its slots.
    - [Apdu] (piv.c): APDUs, single exchanges and transactions; [ApduChain]: chained commands and answers in
      parts, on any transport that follows ISO 7816-4. PC/SC is the parameter of these files.
    - [PivPin] (piv.c): PINs and card management, on a card that keeps its PIN as SP 800-73-4 says.
    - [PivFiles] (piv.c): the readers and writers of data objects; [PivParse] is their safety against any card,
      [PivStore] and [PivObjects] their behaviour on a card with a store of objects.
    - [PivCert] (piv.c): certificates and the slots they fill; [Certs] stands for X.509, gzip and the keys in certificates.
    - [PivKeys] (piv.c): the admin key, generation, import, signatures, ECDH and boxes opened with a token; [KeyOps] and [EcOct] stand for
      signature formats and points. [PivKeyCard] is their behaviour on a card that keeps keys, whose signatures are the parameter [CardSigns];
      [PivKeySafe] is the safety of both files against any card.
    - [PivEnum] (piv.c): the tokens in all readers, the search for a GUID or for the key of a box, and release; [Pcsc] stands for
      connecting to readers and [SameKey] for the comparison of keys.
    - [Words]: 32-bit and 64-bit words in little-endian bytes. [Poly1305] (chapoly/poly1305.c) and [ChaCha] (chapoly/chacha.c): the primitives, against the
      arithmetic definitions. [Cipher] (libssh/cipher.c): the AEAD made of them and the cipher contexts; [Evp] stands for OpenSSL's ciphers.
    - [Hmac] (libssh/hmac.c, digest-openssl.c): digest contexts and HMAC; [DigestBlocks] stands for the digest functions.
    - [EboxStream] (ebox.c): streams and their chunks. [StreamCmd] (pivy-box.c): the commands that encrypt and decrypt a
      stream, with reading and writing of files as oracles.
    - [Base64] (libssh/base64.c, sshbuf.c, ebox-cmd.c, pivy-box.c): the codec and the text the tools print and read.
    - [Agent] (pivy-agent.c): the state of the agent, its requests, its sockets and its main loop, one [Definition] per function;
      [AgentKeys] stands for the signatures and keys it sends, the clock and the peers of its sockets are inputs. [AgentSafe] is
      the invariant of the state, [AgentReply] the replies and the policy for signing.
    - [SshKey] (libssh/sshkey.c): the tables of key types, keys, copies, certificates and their check. [SshSig] (ssh-rsa.c, ssh-ecdsa.c,
      ssh-ed25519.c): signatures; [SigPrims] stands for the primitives, and [asserts] says whether assertions are compiled in. [SshBlob]
      (sshkey.c): blobs, certificates and certification, texts and fingerprints. [SshPriv] (sshkey.c, rsa.c): private keys in key files.
    - [SshPub]: what a public key holds and the combinators [writes] and [reads] for messages on queues. [SshBlobOk]: blobs, and the class
      [KeyBlobs] of [EboxTpl] discharged by them. [SshCert]: signatures and certificates. [SshText]: lines of text.

    ** What the theorems show

    - The key comes back: [ebox_create_recover], [ebox_create_unlock], over [piv_box_seal_open] and [sss_recover]. Fewer shares
      than the threshold say nothing about the key: [sss_secrecy].
    - Hostile input: [tlv_reader_safe], [piv_box_from_binary_safe], [piv_box_open_safe] (for the current format), [ebox_tpl_read_safe], [ebox_read_safe]. On any bytes
      the readers end, stay inside the input, and return a well-formed value or an error of a known kind.
    - Formats: [tlv_tree_roundtrip], [tlv_u8to32_roundtrip], [sshbuf_message_roundtrip], [ebox_tpl_roundtrip], [ebox_wire_roundtrip].
    - Data structures: [sshbuf_refines_queue], [ebox_tpl_lists_are_sequences], [gf256_inv_correct], [errf_caused_by_wrap].
    - At a distance: [challenge_exchange] takes a share from a token elsewhere; [ebox_create_recover] accepts shares from there.
    - Cards: [apdu_session_refines] (every command arrives once and whole), [card_session_safe] (of all answers of a card only a list of more than 32 algorithms leads out of bounds),
      [piv_verify_pin_refines], [pin_txn_leaves_locked], [file_session_refines], [keyhist_roundtrip], [piv_read_chuid_guid].
    - Keys of a card: [admin_auth_refines], [generated_key_opens] (a box sealed for a key made on a card is opened with that card),
      [piv_sign_refines] (with [sign_spec], which digest and identifier are chosen), [cert_roundtrip], and [key_session_safe], which keeps the handle well formed
      whatever a card answers, as long as its certificates hold keys that OpenSSL and libssh accept.
    - Readers: [piv_enumerate_release] and [piv_find_exact] (the right tokens, and no connection left behind where transactions begin), [box_token_sound].
    - Ciphers and streams: the equivalence of Poly1305, ChaCha20 and HMAC with their definitions, the AEAD that refuses any other tag
      ([chachapoly_authentic]), the laws the boxes assume ([cipher_crypto_laws]), streams that come back and chunks that are refused
      ([stream_chunk_authentic], [stream_commands_roundtrip]).
    - Text: [b64_pton_exact] (exactly the encodings of RFC 4648 are accepted), [armour_roundtrip], [key_text_roundtrip].
    - The agent: [agent_invariant] at every turn of the main loop, [sign_policy] (the right key, the right digest, and the key management key
      only when allowed), [process_message_one_reply], [lock_forgets_pin].
    - Keys of libssh: [key_blob_roundtrip], [sshkey_from_blob_sound] (a certificate is returned only with a signature over its fields),
      [sign_verify], [certify_accepted], [libssh_blob_laws], [private_key_roundtrip], [private_deserialize_sound].
    - Sections headed "Behaviours that differ from what the code means to do" hold small closed facts about
      defects; the instances they use are in modules named [Toy].

    ** Where the theorems stop

    Where the code and its documentation, or the code and its evident purpose, part, the theorem leaves the case out, says so in its comment, and a lemma shows what the
    code does there: [documented] and [verify_pin_min_equal] for PINs, [resets_fit] and [sshbuf_reset_small_max] for buffers, [ew_documented] and
    [ebox_short_nonce_accepted] for eboxes, [sign_spec] and [unlisted_alg_used] for signatures, [visits] and [enumerate_leaks_connection] for
    readers, [tpl_ok] and [ebox_tpl_removed_part_unreadable] for templates.

    ** Fuel

    Loops over counted elements recurse on the count. The tag loops of ebox.c read at least
    one byte per turn and get one unit of fuel per byte left and one more ([get_part_tags]); the safety theorems
    show that it is never exhausted. [chal_tags] and [resp_tags] are of the same kind. The block loops of Poly1305 and ChaCha20
    consume a byte at least per turn and get the length of the message. The loops of [StreamCmd] get the number of bytes of the
    file and two, and for output twice the number of bytes and one. The exchange with a card is the one loop that need not end: its
    fuel is a parameter, and the theorems say for which cards it is enough.

    The agent's main loop is a step; each turn is one call of poll. The options of a certificate get one unit of fuel for each byte,
    its principals 256, the limit of the code, and a blob two levels, since the key of an authority is not a certificate.

    ** Not modelled

    The interactive parts of the command-line tools and the PAM module (pivy-tool.c, pivy-zfs.c, pivy-luks.c, pam_pivy.c, and the dialogues of
    pivy-box.c and ebox-cmd.c), which print, prompt and start processes; logging (bunyan.c, debug.c); the freeing of memory; the client of the
    agent (authfd.c, atomicio.c); the generation of keys and random numbers, whose values are inputs; the primitives of OpenSSL, ed25519/ and
    Blowfish, which are parameters; the encrypted file around a private key, PEM files and the protocol of SSH 1. *)
From stdpp Require Import base list strings numbers.
From Stdlib Require Import ZArith Lia.

Local Open Scope Z_scope.

Declare Scope c_scope.
Delimit Scope c_scope with C.

(** ** Outcomes of a C function

    [Ok a]   the function returned normally with result [a];
    [Er e]   it returned the error [e] (an [int] code or an [errf_t *]);
    [Panic]  a [VERIFY] failed, or the process aborted on purpose;
    [Fault]  the C program would have left defined behaviour (an access outside
             the object it indexes). *)
Inductive res (E A : Type) : Type :=
| Ok (a : A)
| Er (e : E)
| Panic
| Fault.
Arguments Ok {E A} a.
Arguments Er {E A} e.
Arguments Panic {E A}.
Arguments Fault {E A}.

(** A stateful operation: the state is threaded through error returns as well,
    because callers go on using an object after an operation on it failed. *)
Definition M (E S A : Type) : Type := S -> res E A * S.

Section Monad.
Context {E S : Type}.

Definition cret {A} (a : A) : M E S A := fun s => (Ok a, s).
Definition cbind {A B} (m : M E S A) (f : A -> M E S B) : M E S B :=
  fun s => match m s with
           | (Ok a, s') => f a s'
           | (Er e, s') => (Er e, s')
           | (Panic, s') => (Panic, s')
           | (Fault, s') => (Fault, s')
           end.
Definition craise {A} (e : E) : M E S A := fun s => (Er e, s).
Definition cpanic {A} : M E S A := fun s => (Panic, s).
Definition cfault {A} : M E S A := fun s => (Fault, s).
Definition cget : M E S S := fun s => (Ok s, s).
Definition cput (s : S) : M E S unit := fun _ => (Ok tt, s).
Definition cgets {A} (f : S -> A) : M E S A := fun s => (Ok (f s), s).
Definition cmodify (f : S -> S) : M E S unit := fun s => (Ok tt, f s).

(** [VERIFY(b)] of debug.h. *)
Definition verify (b : bool) : M E S unit := if b then cret tt else cpanic.
(** [if (b) return (e);] *)
Definition guard (b : bool) (e : E) : M E S unit := if b then cret tt else craise e.

(** [m] runs from [s] to normal completion with [a] in [s']. *)
Definition runs {A} (m : M E S A) (s : S) (a : A) (s' : S) : Prop := m s = (Ok a, s').
End Monad.

(** Rewriting the error of an operation: [err = wrap(err); goto out;]. *)
Definition cmaperr {E E' S A} (f : E -> E') (m : M E S A) : M E' S A :=
  fun s => match m s with
           | (Ok a, s') => (Ok a, s')
           | (Er e, s') => (Er (f e), s')
           | (Panic, s') => (Panic, s')
           | (Fault, s') => (Fault, s')
           end.

Notation "'let!' x ':=' m 'in' k" := (cbind m (fun x => k))
  (at level 10, x pattern, m at level 100, k at level 200) : c_scope.
Notation "m ';!' k" := (cbind m (fun _ => k))
  (at level 199, right associativity) : c_scope.

(** Results without a state. *)
Definition rbind {E A B} (r : res E A) (f : A -> res E B) : res E B :=
  match r with Ok a => f a | Er e => Er e | Panic => Panic | Fault => Fault end.
Notation "'let?' x ':=' m 'in' k" := (rbind m (fun x => k))
  (at level 10, x pattern, m at level 100, k at level 200) : c_scope.

Section MonadLemmas.
Context {E S : Type}.

Lemma cbind_ok {A B} (m : M E S A) (f : A -> M E S B) s a s' :
  m s = (Ok a, s') -> cbind m f s = f a s'.
Proof. unfold cbind. now intros ->. Qed.

Lemma cbind_er {A B} (m : M E S A) (f : A -> M E S B) s e s' :
  m s = (Er e, s') -> cbind m f s = (Er e, s').
Proof. unfold cbind. now intros ->. Qed.

Lemma cbind_inv {A B} (m : M E S A) (f : A -> M E S B) s b s' :
  cbind m f s = (Ok b, s') -> exists a s1, m s = (Ok a, s1) /\ f a s1 = (Ok b, s').
Proof. unfold cbind. destruct (m s) as [[] ?]; naive_solver. Qed.

Lemma cbind_assoc {A B C} (m : M E S A) (f : A -> M E S B) (g : B -> M E S C) s :
  cbind (cbind m f) g s = cbind m (fun a => cbind (f a) g) s.
Proof. unfold cbind. now destruct (m s) as [[] ?]. Qed.

Lemma cbind_ret_l {A B} (a : A) (f : A -> M E S B) s : cbind (cret a) f s = f a s.
Proof. reflexivity. Qed.

Lemma cbind_ret_r {A} (m : M E S A) s : cbind m cret s = m s.
Proof. unfold cbind. now destruct (m s) as [[] ?]. Qed.

Lemma verify_true : verify (E:=E) (S:=S) true = cret tt.
Proof. reflexivity. Qed.
End MonadLemmas.

(** ** Weakest preconditions

    [wp m s Q R]: from [s], [m] neither panics nor faults; a normal return
    satisfies [Q] and an error return satisfies [R]. *)
Definition wp {E S A} (m : M E S A) (s : S) (Q : A -> S -> Prop) (R : E -> S -> Prop) : Prop :=
  match m s with
  | (Ok a, s') => Q a s'
  | (Er e, s') => R e s'
  | _ => False
  end.

Section WP.
Context {E S : Type}.
Implicit Type s : S.

Lemma wp_bind {A B} (m : M E S A) (f : A -> M E S B) s Q R :
  wp m s (fun a s' => wp (f a) s' Q R) R -> wp (cbind m f) s Q R.
Proof. unfold wp, cbind. now destruct (m s) as [[] ?]. Qed.
Lemma wp_ret {A} (a : A) s Q (R : E -> S -> Prop) : Q a s -> wp (cret a) s Q R.
Proof. done. Qed.
Lemma wp_get s Q (R : E -> S -> Prop) : Q s s -> wp cget s Q R.
Proof. done. Qed.
Lemma wp_gets {A} (f : S -> A) s Q (R : E -> S -> Prop) : Q (f s) s -> wp (cgets f) s Q R.
Proof. done. Qed.
Lemma wp_put s s' Q (R : E -> S -> Prop) : Q tt s' -> wp (cput s') s Q R.
Proof. done. Qed.
Lemma wp_modify f s Q (R : E -> S -> Prop) : Q tt (f s) -> wp (cmodify f) s Q R.
Proof. done. Qed.
Lemma wp_guard b (e : E) s Q R :
  (b = true -> Q tt s) -> (b = false -> R e s) -> wp (guard b e) s Q R.
Proof. unfold wp, guard. destruct b; cbn; auto. Qed.
Lemma wp_verify b s Q (R : E -> S -> Prop) : b = true -> Q tt s -> wp (verify b) s Q R.
Proof. unfold wp, verify. now intros ->. Qed.
Lemma wp_mono {A} (m : M E S A) s (Q Q' : A -> S -> Prop) (R R' : E -> S -> Prop) :
  wp m s Q R -> (forall a s', Q a s' -> Q' a s') -> (forall e s', R e s' -> R' e s') ->
  wp m s Q' R'.
Proof. unfold wp. destruct (m s) as [[] ?]; auto. Qed.
Lemma wp_runs {A} (m : M E S A) s Q R a s' : m s = (Ok a, s') -> Q a s' -> wp m s Q R.
Proof. unfold wp. now intros ->. Qed.
End WP.

(** One structural step of a [wp] goal. *)
Ltac wp_step :=
  lazymatch goal with
  | |- wp (cbind _ _) _ _ _ => apply wp_bind
  | |- wp (cret _) _ _ _ => apply wp_ret
  | |- wp cget _ _ _ => apply wp_get
  | |- wp (cgets _) _ _ _ => apply wp_gets
  | |- wp (cput _) _ _ _ => apply wp_put
  | |- wp (cmodify _) _ _ _ => apply wp_modify
  | |- wp (guard _ _) _ _ _ => apply wp_guard; intro
  | |- wp (if ?b then _ else _) _ _ _ => destruct b eqn:?
  end.
Ltac wp_steps := repeat wp_step.

(** ** Machine integers *)

(** The value a [w]-bit unsigned object holds after [x] is stored in it. *)
Definition wrap (w x : Z) : Z := x mod 2 ^ w.
Abbreviation u8 := (wrap 8).
Abbreviation u16 := (wrap 16).
Abbreviation u32 := (wrap 32).
Abbreviation u64 := (wrap 64).
(** [size_t] on the 64-bit targets the Makefile builds for. *)
Abbreviation usize := (wrap 64).
Definition SIZE_MAX : Z := 2 ^ 64 - 1.

Definition is_byte (z : Z) : Prop := 0 <= z < 256.
Abbreviation bytes := (Forall is_byte).

Definition zlen {A} (l : list A) : Z := Z.of_nat (length l).

#[global] Instance is_byte_dec z : Decision (is_byte z).
Proof. unfold is_byte. apply _. Defined.

Lemma wrap_small w x : 0 <= x < 2 ^ w -> wrap w x = x.
Proof. apply Z.mod_small. Qed.

Lemma wrap_range w x : 0 <= w -> 0 <= wrap w x < 2 ^ w.
Proof. intros. apply Z.mod_pos_bound. lia. Qed.

Lemma u8_byte x : is_byte (u8 x).
Proof. apply (wrap_range 8). lia. Qed.

(** [bytes] by computation. *)
Definition bytesb (s : list Z) : bool := forallb (fun b => (0 <=? b) && (b <? 256)) s.
Lemma bytesb_spec s : bytesb s = true -> bytes s.
Proof.
  unfold bytesb. rewrite forallb_forall, List.Forall_forall. intros H x Hx%H.
  unfold is_byte. lia.
Qed.

(** ** Lists indexed by [Z], as C objects are *)

(** [p[i]]; [None] outside the object. *)
Definition zget {A} (l : list A) (i : Z) : option A :=
  if 0 <=? i then l !! Z.to_nat i else None.
(** The [n] elements from [i] on. *)
Definition zslice {A} (l : list A) (i n : Z) : list A :=
  take (Z.to_nat n) (drop (Z.to_nat i) l).
(** [memcpy(p + i, bs, |bs|)] inside the object. *)
Definition zsplice {A} (l : list A) (i : Z) (bs : list A) : list A :=
  take (Z.to_nat i) l ++ bs ++ drop (Z.to_nat i + length bs) l.
Definition zrepeat {A} (n : Z) (x : A) : list A := replicate (Z.to_nat n) x.

Section ZLists.
Context {A : Type}.
Implicit Types l bs : list A.

Lemma zlen_nonneg l : 0 <= zlen l.
Proof. unfold zlen. lia. Qed.
Lemma zlen_nil : zlen (@nil A) = 0.
Proof. reflexivity. Qed.
Lemma zlen_cons (x : A) l : zlen (x :: l) = 1 + zlen l.
Proof. unfold zlen. cbn [length]. lia. Qed.
Lemma zlen_app l bs : zlen (l ++ bs) = zlen l + zlen bs.
Proof. unfold zlen. rewrite length_app. lia. Qed.
Lemma zlen_replicate n (x : A) : zlen (replicate n x) = Z.of_nat n.
Proof. unfold zlen. now rewrite length_replicate. Qed.
Lemma zlen_zrepeat n (x : A) : 0 <= n -> zlen (zrepeat n x) = n.
Proof. intros. unfold zrepeat. rewrite zlen_replicate. lia. Qed.

Lemma zlen_zslice l i n : 0 <= i -> 0 <= n -> i + n <= zlen l -> zlen (zslice l i n) = n.
Proof. unfold zlen, zslice. intros. rewrite length_take, length_drop. lia. Qed.

Lemma zslice_all l : zslice l 0 (zlen l) = l.
Proof. unfold zslice, zlen. rewrite drop_0, Nat2Z.id. by apply take_ge. Qed.

Lemma zlen_zsplice l i bs :
  0 <= i -> i + zlen bs <= zlen l -> zlen (zsplice l i bs) = zlen l.
Proof.
  unfold zlen, zsplice. intros. rewrite !length_app, length_take, length_drop. lia.
Qed.

Lemma zget_Some l i x : zget l i = Some x -> 0 <= i < zlen l.
Proof.
  unfold zget, zlen. destruct (Z.leb_spec 0 i); [|done].
  intros ?%lookup_lt_Some. lia.
Qed.

Lemma zget_is_Some l i : 0 <= i < zlen l -> exists x, zget l i = Some x.
Proof.
  unfold zget, zlen. intros. rewrite (proj2 (Z.leb_le 0 i)) by lia.
  apply lookup_lt_is_Some_2. lia.
Qed.

Lemma zget_app_r l bs x : zget (l ++ x :: bs) (zlen l) = Some x.
Proof.
  unfold zget, zlen. rewrite (proj2 (Z.leb_le _ _)) by lia.
  rewrite Nat2Z.id. now apply list_lookup_middle.
Qed.

Lemma zsplice_take_before l i bs :
  0 <= i <= zlen l -> take (Z.to_nat i) (zsplice l i bs) = take (Z.to_nat i) l.
Proof.
  unfold zlen, zsplice. intros. rewrite take_app_le by (rewrite length_take; lia).
  rewrite take_take. f_equal. lia.
Qed.

Lemma zsplice_app l i bs r :
  0 <= i -> i + zlen bs <= zlen l -> zsplice (l ++ r) i bs = zsplice l i bs ++ r.
Proof.
  unfold zlen, zsplice. intros.
  rewrite take_app_le, drop_app_le by lia. by rewrite <- !app_assoc.
Qed.

Lemma zsplice_mid l x y r : zsplice (l ++ x :: r) (zlen l) [y] = l ++ y :: r.
Proof.
  unfold zsplice, zlen. rewrite Nat2Z.id, take_app_length, drop_app_ge by lia.
  by replace (_ - _)%nat with 1%nat by (cbn; lia).
Qed.

Lemma zsplice_zsplice l i a c :
  0 <= i -> i + zlen a + zlen c <= zlen l ->
  zsplice (zsplice l i a) (i + zlen a) c = zsplice l i (a ++ c).
Proof.
  unfold zlen, zsplice. intros.
  rewrite (app_assoc (take _ l) a), take_app_length' by (rewrite length_app, length_take; lia).
  rewrite drop_app_ge by (rewrite length_app, length_take; lia).
  rewrite drop_drop, <- !app_assoc. do 4 f_equal. rewrite !length_app, length_take. lia.
Qed.

Lemma zslice_0 l n : zslice l 0 n = take (Z.to_nat n) l.
Proof. unfold zslice. by rewrite drop_0. Qed.

Lemma zslice_zslice l i n j k :
  0 <= i -> 0 <= j -> 0 <= k -> j + k <= n -> zslice (zslice l i n) j k = zslice l (i + j) k.
Proof.
  intros. unfold zslice. rewrite skipn_firstn_comm, drop_drop, take_take.
  f_equal; [lia|f_equal; lia].
Qed.

Lemma zslice_app l i n k :
  0 <= i -> 0 <= n -> 0 <= k -> zslice l i (n + k) = zslice l i n ++ zslice l (i + n) k.
Proof.
  intros. unfold zslice. rewrite !Z2Nat.inj_add by lia.
  rewrite <- (take_take_drop (drop (Z.to_nat i) l)), drop_drop. done.
Qed.

Lemma zslice_zsplice_before l i n p bs :
  0 <= i -> 0 <= n -> i + n <= p -> p + zlen bs <= zlen l ->
  zslice (zsplice l p bs) i n = zslice l i n.
Proof.
  unfold zlen, zslice, zsplice. intros.
  rewrite drop_app_le by (rewrite length_take; lia). rewrite skipn_firstn_comm.
  rewrite take_app_le by (rewrite length_take, length_drop; lia).
  rewrite take_take. f_equal. lia.
Qed.

Lemma zslice_zsplice_at l p bs :
  0 <= p -> p + zlen bs <= zlen l -> zslice (zsplice l p bs) p (zlen bs) = bs.
Proof.
  unfold zlen, zslice, zsplice. intros.
  rewrite drop_app_length' by (rewrite length_take; lia). rewrite Nat2Z.id. apply take_app_length.
Qed.

Lemma take_zsplice l i n bs :
  0 <= i -> i + zlen bs <= n <= zlen l ->
  take (Z.to_nat n) (zsplice l i bs) = zsplice (take (Z.to_nat n) l) i bs.
Proof.
  intros ? ?. rewrite <- (take_drop (Z.to_nat n) l) at 1.
  assert (zlen (take (Z.to_nat n) l) = n) as Hn by (unfold zlen in *; rewrite length_take; lia).
  rewrite zsplice_app by lia. apply take_app_length'.
  pose proof (zlen_zsplice (take (Z.to_nat n) l) i bs). unfold zlen in *. lia.
Qed.

(** After a splice at [i], the prefix that ends with it is the old prefix and [bs]. *)
Lemma zsplice_take l i bs :
  0 <= i -> i + zlen bs <= zlen l ->
  take (Z.to_nat (i + zlen bs)) (zsplice l i bs) = take (Z.to_nat i) l ++ bs.
Proof.
  unfold zlen, zsplice. intros.
  rewrite app_assoc, take_app_le by (rewrite length_app, length_take; lia).
  apply take_ge. rewrite length_app, length_take. lia.
Qed.
End ZLists.

(** ** Big-endian numbers *)

Fixpoint be_bytes (n : nat) (v : Z) : list Z :=
  match n with
  | O => []
  | S n' => be_bytes n' (v / 256) ++ [v mod 256]
  end.

Definition be_val (bs : list Z) : Z := fold_left (fun acc b => acc * 256 + b) bs 0.

Lemma be_val_snoc bs b : be_val (bs ++ [b]) = be_val bs * 256 + b.
Proof. unfold be_val. now rewrite fold_left_app. Qed.

Lemma length_be_bytes n v : length (be_bytes n v) = n.
Proof. revert v. induction n; intros; cbn; [done|]. rewrite length_app, IHn. cbn. lia. Qed.

Lemma zlen_be_bytes n v : zlen (be_bytes n v) = Z.of_nat n.
Proof. unfold zlen. now rewrite length_be_bytes. Qed.

Lemma be_bytes_bytes n v : bytes (be_bytes n v).
Proof.
  revert v. induction n; intros; cbn; [constructor|].
  apply Forall_app; split; [apply IHn|]. repeat constructor; apply Z.mod_pos_bound; lia.
Qed.

Lemma be_bytes_cons n v : be_bytes (S n) v = v / 256 ^ Z.of_nat n mod 256 :: be_bytes n v.
Proof.
  revert v. induction n as [|n IH]; intros v; [cbn; by rewrite Z.div_1_r|].
  change (be_bytes (S (S n)) v) with (be_bytes (S n) (v / 256) ++ [v mod 256]).
  rewrite IH, Z.div_div by lia. cbn. do 3 f_equal.
  rewrite <- (Z.pow_succ_r 256 (Z.of_nat n)) by lia. f_equal. lia.
Qed.

Lemma be_val_be_bytes n v : 0 <= v -> be_val (be_bytes n v) = v mod 256 ^ Z.of_nat n.
Proof.
  revert v. induction n; intros v Hv; cbn [be_bytes].
  - change (256 ^ Z.of_nat 0) with 1. now rewrite Z.mod_1_r.
  - rewrite be_val_snoc, IHn by (apply Z.div_pos; lia).
    replace (256 ^ Z.of_nat (S n)) with (256 * 256 ^ Z.of_nat n)
      by (rewrite Nat2Z.inj_succ, Z.pow_succ_r by lia; lia).
    rewrite (Z.rem_mul_r v 256) by lia. lia.
Qed.

Lemma be_val_range bs : bytes bs -> 0 <= be_val bs < 256 ^ zlen bs.
Proof.
  induction bs as [|b bs IH] using rev_ind; intros Hb; [now cbn|].
  apply Forall_app in Hb as [Hbs Hb]. rewrite Forall_singleton in Hb.
  rewrite be_val_snoc, zlen_app. change (zlen [b]) with 1. fold (Z.succ (zlen bs)).
  rewrite Z.pow_succ_r by apply zlen_nonneg. specialize (IH Hbs). unfold is_byte in Hb. lia.
Qed.

Lemma be_bytes_be_val bs : bytes bs -> be_bytes (length bs) (be_val bs) = bs.
Proof.
  induction bs as [|b bs IH] using rev_ind; intros Hb; [done|].
  apply Forall_app in Hb as [Hbs Hb]. rewrite Forall_singleton in Hb. unfold is_byte in Hb.
  rewrite length_app, Nat.add_comm. cbn [length Nat.add be_bytes]. rewrite be_val_snoc.
  f_equal.
  - rewrite Z.div_add_l, Z.div_small, Z.add_0_r by lia. now apply IH.
  - f_equal. rewrite Z.add_comm, Z.mod_add, Z.mod_small; lia.
Qed.

(** ** Bits: a disjoint [|] is a sum *)

Lemma land_shiftl_small a b n :
  0 <= n -> 0 <= b < 2 ^ n -> Z.land (Z.shiftl a n) b = 0.
Proof.
  intros Hn Hb. apply Z.bits_inj'. intros i Hi.
  rewrite Z.land_spec, Z.bits_0, Z.shiftl_spec by lia.
  destruct (Z.ltb_spec i n).
  - now rewrite (Z.testbit_neg_r a) by lia.
  - replace b with (b mod 2 ^ n) by (apply Z.mod_small; lia).
    rewrite Z.mod_pow2_bits_high by lia. apply andb_false_r.
Qed.

Lemma lor_shiftl_add a b n :
  0 <= n -> 0 <= b < 2 ^ n -> Z.lor (Z.shiftl a n) b = a * 2 ^ n + b.
Proof.
  intros Hn Hb. pose proof (land_shiftl_small a b n Hn Hb) as H0.
  now rewrite <- Z.lxor_lor, <- Z.add_nocarry_lxor, Z.shiftl_mul_pow2 by assumption.
Qed.

(** ** Automation *)

Create HintDb pivy discriminated.
#[export] Hint Resolve zlen_nonneg u8_byte be_bytes_bytes : pivy.
Create Rewrite HintDb zlen.
#[export] Hint Rewrite @zlen_nil @zlen_cons @zlen_app @zlen_replicate zlen_be_bytes : zlen.

(** Normalise lengths, then arithmetic. *)
Ltac zlen_lia :=
  repeat match goal with
  | H : context [zlen] |- _ => progress autorewrite with zlen in H
  end;
  autorewrite with zlen;
  repeat match goal with
  | |- context [zlen ?l] => lazymatch goal with
      | _ : 0 <= zlen l |- _ => fail | _ => pose proof (zlen_nonneg l) end
  | H : context [zlen ?l] |- _ => lazymatch goal with
      | _ : 0 <= zlen l |- _ => fail | _ => pose proof (zlen_nonneg l) end
  end; lia.
