(* ===== verification/Errf.v ===== *)
(** * Chained error objects (errf.c, errf.h)

    A [struct errf] is a frame with a name, a message, the place it was made
    and an optional cause; an [errf_t *] result is [None] for [ERRF_OK]. Callers
    decide what to do with an error by searching its cause chain for a name
    ([errf_caused_by]). Memory management of the frames ([errf_free]) and the
    printing functions are not modelled. *)
From stdpp Require Import base list strings.
From Stdlib Require Import ZArith Lia.
From S2P Require Import Prelude.

Local Open Scope string_scope.
Local Open Scope Z_scope.

(** [strlcpy(dst, src, n)]: at most [n - 1] characters survive. *)
Definition strlcpy (n : nat) (src : string) : string := String.substring 0 (n - 1) src.

Inductive errf_t : Type := Errf {
  errf_cause : option errf_t;
  errf_errno : Z;
  errf_name : string;       (* char[128] *)
  errf_message : string;    (* char[256] *)
  errf_function : string;   (* char[64] *)
  errf_file : string;       (* char[64] *)
  errf_line : Z
}.

(** The [errno] macros the switch knows, with their Linux values. *)
Definition errno_to_macro (eno : Z) : option string :=
  match eno with
  | 1 => Some "EPERM" | 2 => Some "ENOENT" | 3 => Some "ESRCH" | 4 => Some "EINTR"
  | 5 => Some "EIO" | 6 => Some "ENXIO" | 7 => Some "E2BIG" | 8 => Some "ENOEXEC"
  | 9 => Some "EBADF" | 10 => Some "ECHILD" | 11 => Some "EAGAIN" | 12 => Some "ENOMEM"
  | 13 => Some "EACCES" | 14 => Some "EFAULT" | 15 => Some "ENOTBLK" | 16 => Some "EBUSY"
  | 17 => Some "EEXIST" | 18 => Some "EXDEV" | 19 => Some "ENODEV" | 20 => Some "ENOTDIR"
  | 21 => Some "EISDIR" | 22 => Some "EINVAL" | 23 => Some "ENFILE" | 24 => Some "EMFILE"
  | 25 => Some "ENOTTY" | 26 => Some "ETXTBSY" | 27 => Some "EFBIG" | 28 => Some "ENOSPC"
  | 29 => Some "ESPIPE" | 30 => Some "EROFS" | 31 => Some "EMLINK" | 32 => Some "EPIPE"
  | 33 => Some "EDOM" | 34 => Some "ERANGE"
  | _ => None
  end.

(** [_errf()]. [fmt] is what [vsnprintf] would produce with an unbounded buffer
    ([None] when it returns a negative number) and [fallback] the same for the
    second [snprintf], which reports that failure. *)
Definition _errf (name : string) (cause : option errf_t) (func file : string) (line : Z)
    (fmt fallback : option string) : errf_t :=
  Errf cause 0 (strlcpy 128 name)
    (match fmt with
     | Some m => strlcpy 256 m
     | None => match fallback with
               | Some m => strlcpy 256 m
               | None => strlcpy 256 "<vsnprintf failed>"
               end
     end)
    (strlcpy 64 func) (strlcpy 64 file) line.

(** [_errfno()]: the frame's name is the macro of [eno]. [prefix] is the text of
    the "returned errno" prefix ([None] when [snprintf] fails; the [int] result -1
    then compares as larger than the buffer and the function returns) and [fmt]
    that of the optional caller message. *)
Definition _errfno (eno : Z) (func file : string) (line : Z) (prefix fmt : option string)
    : errf_t :=
  Errf None eno
    (strlcpy 128 (match errno_to_macro eno with Some m => m | None => "SystemError" end))
    (strlcpy 256 (match prefix, fmt with
                  | None, _ => "<vsnprintf failed>"
                  | Some p, Some m => p +:+ m
                  | Some p, None => p
                  end))
    (strlcpy 64 func) (strlcpy 64 file) line.

(** [ERRF_NOMEM]. *)
Definition errf_nomem : errf_t :=
  Errf None 12 "OutOfMemoryError" "Process failed to allocate new memory" "" "erf.c" 88.

(** [errf_caused_by()]. *)
Fixpoint errf_caused_by_chain (e : errf_t) (name : string) : bool :=
  if String.eqb name (errf_name e) then true
  else match errf_cause e with
       | None => false
       | Some c => errf_caused_by_chain c name
       end.
Definition errf_caused_by (e : option errf_t) (name : string) : bool :=
  match e with None => false | Some e => errf_caused_by_chain e name end.

(** The frames of an error, outermost first. *)
Fixpoint errf_chain (e : errf_t) : list errf_t :=
  e :: match errf_cause e with None => [] | Some c => errf_chain c end.

(** The [errf()] macro as the rest of the development uses it: the source
    location and the formatted text never influence control flow. *)
Definition errf (name : string) (cause : option errf_t) : errf_t :=
  _errf name cause "" "" 0 (Some "") None.

(** [argerrf()] *)
Definition argerrf : errf_t := errf "ArgumentError" None.

Section Induction.
Variable P : errf_t -> Prop.
Hypothesis Hleaf : forall no n m f fi l, P (Errf None no n m f fi l).
Hypothesis Hwrap : forall c no n m f fi l, P c -> P (Errf (Some c) no n m f fi l).

Fixpoint errf_ind' (e : errf_t) : P e :=
  match e with
  | Errf None no n m f fi l => Hleaf no n m f fi l
  | Errf (Some c) no n m f fi l => Hwrap c no n m f fi l (errf_ind' c)
  end.
End Induction.

Lemma strlcpy_short n s : (String.length s < n)%nat -> strlcpy n s = s.
Proof.
  unfold strlcpy. intros Hn. assert (String.length s <= n - 1)%nat by lia. clear Hn.
  generalize dependent (n - 1)%nat. induction s as [|c s IH]; intros [|k] Hk; cbn in *;
    try reflexivity; try lia.
  f_equal. apply IH. lia.
Qed.

Lemma errf_caused_by_chain_spec e name :
  errf_caused_by_chain e name = true <-> Exists (fun f => errf_name f = name) (errf_chain e).
Proof.
  induction e as [no n m f fi l|c no n m f fi l IH] using errf_ind'; cbn;
    destruct (String.eqb_spec name n) as [->|Hne].
  - split; [intros _; now left|done].
  - split; [done|]. inversion 1 as [? ? Hx|? ? Hx]; subst; cbn in *; [congruence|inversion Hx].
  - split; [intros _; now left|done].
  - rewrite IH. split; [now right|]. inversion 1; subst; cbn in *; [congruence|assumption].
Qed.

(** Searching an error for a name succeeds exactly when the name is the new
    frame's own (up to the 127 characters that fit in [errf_name]) or is found in
    the cause it was wrapped around, so wrapping never hides the cause. *)
Theorem errf_caused_by_wrap name cause func file line fmt fallback n :
  errf_caused_by (Some (_errf name cause func file line fmt fallback)) n = true <->
  strlcpy 128 name = n \/
  Exists (fun f => errf_name f = n) (match cause with None => [] | Some c => errf_chain c end).
Proof.
  cbn [errf_caused_by]. rewrite errf_caused_by_chain_spec. cbn. rewrite Exists_cons. cbn.
  now destruct cause.
Qed.
