(* ===== verification/Tlv.v ===== *)
(** * ISO7816 BER-TLV parser and generator (tlv.c, tlv.h)

    [tlv_state] keeps a buffer, a position and a stack of contexts (byte ranges
    of the buffer). [ts_root] is the bottom of the stack; [ts_stack] holds the
    contexts pushed above it, innermost first, so that [ts_now] is its head or
    the root. Allocations succeed; debug printing and [tlv_free] are left out. *)
From stdpp Require Import base list strings relations.
From Stdlib Require Import ZArith Lia.
From S2P Require Import Prelude Errf.

Local Open Scope string_scope.
Local Open Scope list_scope.
Local Open Scope Z_scope.
Local Open Scope c_scope.

Definition MAX_APDU_SIZE : Z := 16384.

Record tlv_context := Ctx {
  tc_begin : Z;
  tc_end : Z;
  tc_lenptr : Z;
  tc_depth : Z
}.

Record tlv_state := Tlv {
  ts_root : tlv_context;
  ts_stack : list tlv_context;
  ts_buf : list Z;
  ts_pos : Z;
  ts_freebuf : bool;
  ts_debug : bool
}.

Definition ts_now (ts : tlv_state) : tlv_context :=
  match ts_stack ts with [] => ts_root ts | tc :: _ => tc end.

Definition with_pos (ts : tlv_state) (p : Z) : tlv_state :=
  Tlv (ts_root ts) (ts_stack ts) (ts_buf ts) p (ts_freebuf ts) (ts_debug ts).
Definition with_buf (ts : tlv_state) (b : list Z) : tlv_state :=
  Tlv (ts_root ts) (ts_stack ts) b (ts_pos ts) (ts_freebuf ts) (ts_debug ts).
Definition with_stack (ts : tlv_state) (st : list tlv_context) : tlv_state :=
  Tlv (ts_root ts) st (ts_buf ts) (ts_pos ts) (ts_freebuf ts) (ts_debug ts).

Abbreviation T := (M errf_t tlv_state).

Definition TLV_TYPE_MASK : Z := 224.   (* 1 << 7 | 1 << 6 | 1 << 5 *)
Definition TLV_TAG_MASK : Z := Z.lnot TLV_TYPE_MASK.
Definition TLV_TAG_CONT : Z := Z.land 255 TLV_TAG_MASK.
Definition TLV_CONT : Z := 128.

(** ** Initialisation *)

Definition tlv_init (buf : list Z) (offset len : Z) : tlv_state :=
  Tlv (Ctx offset (usize (offset + len)) 0 0) [] buf offset false false.

Definition tlv_init_write : tlv_state :=
  Tlv (Ctx 0 MAX_APDU_SIZE 0 0) [] (zrepeat MAX_APDU_SIZE 0) 0 true false.

Definition tlv_enable_debug : T unit :=
  cmodify (fun ts => Tlv (ts_root ts) (ts_stack ts) (ts_buf ts) (ts_pos ts) (ts_freebuf ts) true).

(** ** Inline helpers of tlv.h *)

Definition tlv_at_root_end (ts : tlv_state) : bool := tc_end (ts_root ts) <=? ts_pos ts.
Definition tlv_at_end (ts : tlv_state) : bool :=
  tlv_at_root_end ts || (tc_end (ts_now ts) <=? ts_pos ts).
Definition tlv_root_rem (ts : tlv_state) : Z := usize (tc_end (ts_root ts) - ts_pos ts).
Definition tlv_rem (ts : tlv_state) : Z := usize (tc_end (ts_now ts) - ts_pos ts).
Definition tlv_len (ts : tlv_state) : Z := ts_pos ts.
(** The bytes a caller takes from [tlv_buf]/[tlv_len]. *)
Definition tlv_written (ts : tlv_state) : list Z := take (Z.to_nat (ts_pos ts)) (ts_buf ts).

(** [buf[ts->ts_pos++]] as an rvalue and as an lvalue. *)
Definition getc : T Z :=
  fun ts => match zget (ts_buf ts) (ts_pos ts) with
            | Some b => (Ok b, with_pos ts (ts_pos ts + 1))
            | None => (Fault, ts)
            end.
Definition putc (v : Z) : T unit :=
  fun ts => if (0 <=? ts_pos ts) && (ts_pos ts <? zlen (ts_buf ts))
            then (Ok tt, with_pos (with_buf ts (zsplice (ts_buf ts) (ts_pos ts) [u8 v]))
                           (ts_pos ts + 1))
            else (Fault, ts).
(** [buf[i]] read and [buf[i] = v]. *)
Definition peekat (i : Z) : T Z :=
  fun ts => match zget (ts_buf ts) i with Some b => (Ok b, ts) | None => (Fault, ts) end.
Definition pokeat (i v : Z) : T unit :=
  fun ts => if (0 <=? i) && (i <? zlen (ts_buf ts))
            then (Ok tt, with_buf ts (zsplice (ts_buf ts) i [u8 v]))
            else (Fault, ts).
Definition skipc (n : Z) : T unit := cmodify (fun ts => with_pos ts (ts_pos ts + n)).

(** ** Contexts *)

Definition tlv_ctx_push (tc : tlv_context) : T unit :=
  cmodify (fun ts =>
    with_stack ts (Ctx (tc_begin tc) (tc_end tc) (tc_lenptr tc) (tc_depth (ts_now ts) + 1)
                   :: ts_stack ts)).

Definition tlv_ctx_pop : T tlv_context :=
  fun ts => match ts_stack ts with
            | [] => (Panic, ts)
            | tc :: st => (Ok tc, with_stack ts st)
            end.

(** ** Writing *)

Definition tlv_write (src : list Z) : T unit :=
  let! ts := cget in
  verify (zlen src <=? tlv_root_rem ts) ;!
  if (0 <=? ts_pos ts) && (ts_pos ts + zlen src <=? zlen (ts_buf ts))
  then cput (with_pos (with_buf ts (zsplice (ts_buf ts) (ts_pos ts) src)) (ts_pos ts + zlen src))
  else cfault.

Definition tlv_write_byte (val : Z) : T unit :=
  let! ts := cget in
  verify (negb (tlv_at_root_end ts)) ;! putc val.

(** The two [while (shift >= 0)] loops of [tlv_write_u8to32]; [n] counts the
    octets that are left, [shift = 8 * (n - 1)] and [mask = 0xFF << shift]. *)
Definition part (val : Z) (n : nat) : Z :=
  let shift := 8 * (Z.of_nat n - 1) in
  Z.shiftr (Z.land val (Z.shiftl 255 shift)) shift.

Fixpoint write_rest (val : Z) (n : nat) : T unit :=
  match n with
  | O => cret tt
  | S n' => let! ts := cget in
            verify (negb (tlv_at_root_end ts)) ;!
            putc (part val n) ;! write_rest val n'
  end.
Fixpoint write_skip (val : Z) (n : nat) : T unit :=
  match n with
  | O => cret tt
  | S n' => if part val n =? 0 then write_skip val n' else write_rest val n
  end.
Definition tlv_write_u8to32 (val : Z) : T unit := write_skip (u32 val) 4.

Definition tlv_pushl (tag maxlen : Z) : T unit :=
  tlv_write_u8to32 tag ;!
  let! lenptr := cgets ts_pos in
  (if maxlen <? 2 ^ 7 then putc 0
   else if maxlen <? 2 ^ 8 then putc 129 ;! skipc 1
   else if maxlen <? 2 ^ 16 then putc 130 ;! skipc 2
   else if maxlen <? 2 ^ 24 then putc 131 ;! skipc 3
   else cpanic) ;!
  let! begin := cgets ts_pos in
  tlv_ctx_push (Ctx begin 0 lenptr 0).

Definition tlv_push (tag : Z) : T unit := tlv_pushl tag 127.
Definition tlv_push256 (tag : Z) : T unit := tlv_pushl tag 255.
Definition tlv_push64k (tag : Z) : T unit := tlv_pushl tag 65535.

Definition tlv_pop : T unit :=
  let! tc := tlv_ctx_pop in
  let! pos := cgets ts_pos in
  let len := usize (pos - tc_begin tc) in
  let p := tc_lenptr tc in
  let! b := peekat p in
  if b =? 0 then verify (len <? 2 ^ 7) ;! pokeat p len
  else if b =? 129 then verify (len <? 2 ^ 8) ;! pokeat (p + 1) len
  else if b =? 130 then
    verify (len <? 2 ^ 16) ;!
    pokeat (p + 1) (Z.shiftr (Z.land len 65280) 8) ;!
    pokeat (p + 2) (Z.land len 255)
  else if b =? 131 then
    verify (len <? 2 ^ 24) ;!
    pokeat (p + 1) (Z.shiftr (Z.land len 16711680) 16) ;!
    pokeat (p + 2) (Z.shiftr (Z.land len 65280) 8) ;!
    pokeat (p + 3) (Z.land len 255)
  else cret tt.

(** ** Reading *)

Definition LengthError : errf_t := errf "LengthError" None.
Definition StringError : errf_t := errf "StringError" None.

(** The [do ... while ((d & TLV_CONT) == TLV_CONT)] loop of a multi-octet tag.
    Every iteration consumes one byte of the buffer, so [length (ts_buf ts)]
    iterations always suffice ([tag_cont_enough] below). *)
Fixpoint tag_cont (fuel : nat) (tag : Z) : T Z :=
  match fuel with
  | O => cfault
  | S n =>
      let! ts := cget in
      guard (negb (tlv_at_end ts)) LengthError ;!
      let! d := getc in
      let tag := Z.lor (u32 (Z.shiftl tag 8)) d in
      if Z.land d TLV_CONT =? TLV_CONT then tag_cont n tag else cret tag
  end.

(** [for (; octs > 0; --octs) { d = buf[ts->ts_pos++]; len <<= 8; len |= d; }] *)
Fixpoint len_octs (octs : nat) (len : Z) : T Z :=
  match octs with
  | O => cret len
  | S n => let! d := getc in len_octs n (Z.lor (usize (Z.shiftl len 8)) d)
  end.

(** The length field: [tc_lenptr] points at its first byte. *)
Definition read_len : T Z :=
  let! ts := cget in
  guard (negb (tlv_at_end ts)) LengthError ;!
  let! d := getc in
  if Z.land d TLV_CONT =? TLV_CONT then
    let octs := Z.land d (Z.lnot TLV_CONT) in
    guard (negb ((octs <? 1) || (4 <? octs))) LengthError ;!
    let! ts := cget in
    guard (negb (tlv_rem ts <? octs)) LengthError ;!
    len_octs (Z.to_nat octs) 0
  else cret d.

Definition tlv_read_tag : T Z :=
  let! ts := cget in
  guard (negb (tlv_at_end ts)) LengthError ;!
  let! d := getc in
  let! tag := (if Z.land d TLV_TAG_MASK =? TLV_TAG_CONT
               then tag_cont (length (ts_buf ts)) d else cret d) in
  let! lenptr := cgets ts_pos in
  let! len := read_len in
  let! ts := cget in
  guard (negb (tlv_root_rem ts <? len)) LengthError ;!
  guard (negb (tlv_rem ts <? len)) LengthError ;!
  tlv_ctx_push (Ctx (ts_pos ts) (usize (ts_pos ts + len)) lenptr 0) ;!
  cret tag.

Definition tlv_end : T unit :=
  let! tc := tlv_ctx_pop in
  let! pos := cgets ts_pos in
  verify (tc_begin tc <=? pos) ;!
  guard (pos =? tc_end tc) LengthError.

Definition tlv_skip : T unit :=
  let! tc := tlv_ctx_pop in
  let! pos := cgets ts_pos in
  verify (tc_begin tc <=? pos) ;!
  verify (pos <=? tc_end tc) ;!
  cmodify (fun ts => with_pos ts (tc_end tc)).

(** [tlv_abort]: the loop checks the position against the context below the one
    it frees, down to the root. *)
Fixpoint abort_loop (pos : Z) (st : list tlv_context) (root : tlv_context) : bool :=
  match st with
  | [] => true
  | _ :: st' =>
      let below := match st' with [] => root | tc :: _ => tc end in
      (tc_begin below <=? pos) && (pos <=? tc_end below) && abort_loop pos st' root
  end.
Definition tlv_abort : T unit :=
  let! ts := cget in
  verify (abort_loop (ts_pos ts) (ts_stack ts) (ts_root ts)) ;!
  cput (with_pos (with_stack ts []) (tc_end (ts_root ts))).

Definition tlv_read_u8 : T Z :=
  let! ts := cget in
  guard (negb (tlv_at_end ts)) LengthError ;! getc.

Definition tlv_read_u16 : T Z :=
  let! ts := cget in
  guard (negb (tlv_rem ts <? 2)) LengthError ;!
  let! h := getc in
  let! l := getc in
  cret (Z.lor (u16 (Z.shiftl h 8)) l).

(** [while (!tlv_at_end(ts)) { *out <<= 8; *out |= buf[ts->ts_pos++]; }]; at most
    four bytes are left when the loop starts. *)
Fixpoint u8to32_loop (fuel : nat) (out : Z) : T Z :=
  match fuel with
  | O => cret out
  | S n => let! ts := cget in
           if tlv_at_end ts then cret out
           else let! b := getc in u8to32_loop n (Z.lor (u32 (Z.shiftl out 8)) b)
  end.
Definition tlv_read_u8to32 : T Z :=
  let! ts := cget in
  guard (negb (tlv_rem ts <? 1)) LengthError ;!
  guard (negb (4 <? tlv_rem ts)) LengthError ;!
  u8to32_loop 5 0.

(** [bcopy(&ts->ts_buf[ts->ts_pos], dest, len); ts->ts_pos += len;] *)
Definition getn (n : Z) : T (list Z) :=
  fun ts => if (0 <=? ts_pos ts) && (0 <=? n) && (ts_pos ts + n <=? zlen (ts_buf ts))
            then (Ok (zslice (ts_buf ts) (ts_pos ts) n), with_pos ts (ts_pos ts + n))
            else (Fault, ts).

Definition tlv_read_upto (maxLen : Z) : T (list Z) :=
  let! ts := cget in
  let len := if tlv_rem ts <? maxLen then tlv_rem ts else maxLen in
  guard (negb (len =? 0)) LengthError ;! getn len.

Fixpoint string_loop (len : nat) (acc : list Z) : T (list Z) :=
  match len with
  | O => cret acc
  | S n => let! pos := cgets ts_pos in
           let! b := peekat pos in
           guard (negb (b =? 0)) StringError ;!
           let! b := getc in string_loop n (acc ++ [b])
  end.
Definition tlv_read_string : T (list Z) :=
  let! ts := cget in string_loop (Z.to_nat (tlv_rem ts)) [].

Definition tlv_read_alloc : T (list Z) := let! ts := cget in getn (tlv_rem ts).

Definition tlv_read (len : Z) : T (list Z) :=
  let! ts := cget in
  guard (tlv_rem ts =? len) LengthError ;! getn len.

Definition tlv_free : T unit :=
  let! ts := cget in
  verify (match ts_stack ts with [] => true | _ => false end) ;!
  if ts_freebuf ts
  then let b := tc_begin (ts_root ts) in
       let n := tc_end (ts_root ts) - b in
       cput (with_buf ts (zsplice (ts_buf ts) b (zrepeat n 0)))
  else cret tt.

(** * Reader: invariant and safety *)

(** The contexts on the stack are nested ranges of the root. *)
Fixpoint nested (st : list tlv_context) (root : tlv_context) : Prop :=
  match st with
  | [] => True
  | tc :: st' =>
      let below := match st' with [] => root | b :: _ => b end in
      tc_begin below <= tc_begin tc <= tc_end tc /\ tc_end tc <= tc_end below /\ nested st' root
  end.

Record reader_ok (ts : tlv_state) : Prop := {
  ro_root : 0 <= tc_begin (ts_root ts) <= tc_end (ts_root ts);
  ro_buf : tc_end (ts_root ts) <= zlen (ts_buf ts);
  ro_size : zlen (ts_buf ts) < 2 ^ 63;
  ro_bytes : bytes (ts_buf ts);
  ro_nested : nested (ts_stack ts) (ts_root ts);
  ro_pos : tc_begin (ts_now ts) <= ts_pos ts <= tc_end (ts_now ts)
}.

(** [ts'] is a reader over the same buffer as [ts], with stack [st]. *)
Definition reads_to (ts : tlv_state) (st : list tlv_context) (ts' : tlv_state) : Prop :=
  reader_ok ts' /\ ts_buf ts' = ts_buf ts /\ ts_root ts' = ts_root ts /\ ts_stack ts' = st.

Lemma nested_now st root :
  0 <= tc_begin root <= tc_end root -> nested st root ->
  let now := match st with [] => root | tc :: _ => tc end in
  0 <= tc_begin now <= tc_end now /\ tc_end now <= tc_end root.
Proof.
  intros Hr. induction st as [|tc st IH]; cbn; [lia|].
  intros (H1 & H2 & H3). specialize (IH H3). cbn in IH. destruct st; lia.
Qed.

Lemma reader_now ts :
  reader_ok ts ->
  0 <= tc_begin (ts_now ts) <= tc_end (ts_now ts) /\ tc_end (ts_now ts) <= tc_end (ts_root ts).
Proof. intros []. now apply nested_now. Qed.

Ltac reader_facts H :=
  let H1 := fresh "Hnow" in pose proof (reader_now _ H) as H1; destruct H.

Lemma tlv_rem_reader ts : reader_ok ts -> tlv_rem ts = tc_end (ts_now ts) - ts_pos ts.
Proof. intros H. reader_facts H. apply wrap_small. lia. Qed.
Lemma tlv_root_rem_reader ts : reader_ok ts -> tlv_root_rem ts = tc_end (ts_root ts) - ts_pos ts.
Proof. intros H. reader_facts H. apply wrap_small. lia. Qed.
Lemma tlv_at_end_reader ts : reader_ok ts -> tlv_at_end ts = (tc_end (ts_now ts) <=? ts_pos ts).
Proof. intros H. reader_facts H. unfold tlv_at_end, tlv_at_root_end. lia. Qed.

Lemma reader_with_pos ts p :
  reader_ok ts -> tc_begin (ts_now ts) <= p <= tc_end (ts_now ts) ->
  reads_to ts (ts_stack ts) (with_pos ts p).
Proof. intros [] Hp. split; [constructor|]; cbn; auto. Qed.

Lemma reads_to_refl ts : reader_ok ts -> reads_to ts (ts_stack ts) ts.
Proof. intros H. unfold reads_to. by split_and!. Qed.

Lemma reads_to_trans ts st1 ts1 st2 ts2 :
  reads_to ts st1 ts1 -> reads_to ts1 st2 ts2 -> reads_to ts st2 ts2.
Proof. unfold reads_to. intros (?&?&?&?) (?&?&?&?). split_and!; congruence. Qed.

(** ** Primitive steps *)

Definition ErrKeeps (ts : tlv_state) : errf_t -> tlv_state -> Prop :=
  fun _ ts' => reads_to ts (ts_stack ts) ts'.

Lemma wp_getc ts (Q : Z -> tlv_state -> Prop) (R : errf_t -> tlv_state -> Prop) :
  reader_ok ts -> ts_pos ts < tc_end (ts_now ts) ->
  (forall b, is_byte b -> zget (ts_buf ts) (ts_pos ts) = Some b ->
     Q b (with_pos ts (ts_pos ts + 1))) ->
  wp getc ts Q R.
Proof.
  intros H Hp HQ. pose proof H as H0. reader_facts H0.
  destruct (zget_is_Some (ts_buf ts) (ts_pos ts)) as [b Hb]; [lia|].
  unfold wp, getc. rewrite Hb. apply HQ; [|done].
  unfold zget in Hb. destruct (0 <=? ts_pos ts); [|done].
  eapply Forall_lookup_1 in Hb; eauto.
Qed.

Lemma wp_getn ts n (Q : list Z -> tlv_state -> Prop) (R : errf_t -> tlv_state -> Prop) :
  reader_ok ts -> 0 <= n <= tc_end (ts_now ts) - ts_pos ts ->
  Q (zslice (ts_buf ts) (ts_pos ts) n) (with_pos ts (ts_pos ts + n)) ->
  wp (getn n) ts Q R.
Proof.
  intros H Hn HQ. reader_facts H. unfold wp, getn.
  replace (_ && _ && _) with true by lia. exact HQ.
Qed.

Lemma reader_step ts :
  reader_ok ts -> ts_pos ts < tc_end (ts_now ts) ->
  reads_to ts (ts_stack ts) (with_pos ts (ts_pos ts + 1)).
Proof. intros H Hp. pose proof H as H0. destruct H0. apply reader_with_pos; [done|lia]. Qed.

(** Chain a [wp] fact about the next step onto what is known about the state
    reached so far. *)
Lemma wp_chain {A} (P : A -> Prop) (m : T A) ts ts1 :
  reads_to ts (ts_stack ts) ts1 ->
  wp m ts1 (fun v ts' => reads_to ts1 (ts_stack ts1) ts' /\ P v) (ErrKeeps ts1) ->
  wp m ts1 (fun v ts' => reads_to ts (ts_stack ts) ts' /\ P v) (ErrKeeps ts).
Proof.
  intros Hs Hw. assert (Hst : ts_stack ts1 = ts_stack ts) by apply Hs.
  eapply wp_mono; [exact Hw|..]; unfold ErrKeeps; rewrite Hst; intros ? ?.
  - intros [H ?]. split; [|done]. now apply (reads_to_trans _ _ _ _ _ Hs).
  - apply (reads_to_trans _ _ _ _ _ Hs).
Qed.

(** A value read from the buffer is not negative; what a reading operation keeps. *)
Definition Reads (ts : tlv_state) : Z -> tlv_state -> Prop :=
  fun v ts' => reads_to ts (ts_stack ts) ts' /\ 0 <= v.

Lemma lor_wrap_nonneg w a b : 0 <= w -> 0 <= b -> 0 <= Z.lor (wrap w a) b.
Proof. intros. apply Z.lor_nonneg. split; [|done]. now apply wrap_range. Qed.
#[local] Hint Resolve lor_wrap_nonneg : core.

(** Loops and small operations keep the reader inside its context. *)
Lemma safe_tag_cont fuel : forall tag ts,
  reader_ok ts -> tc_end (ts_now ts) - ts_pos ts < Z.of_nat fuel ->
  wp (tag_cont fuel tag) ts (Reads ts) (ErrKeeps ts).
Proof.
  induction fuel as [|n IH]; intros tag ts H Hf; [destruct H; lia|]. cbn [tag_cont].
  wp_steps; [|now apply reads_to_refl]. rewrite tlv_at_end_reader in * by done.
  apply wp_getc; [done|lia|]. intros b [Hb _] _.
  pose proof (reader_step ts H ltac:(lia)) as Hs. wp_step.
  2:{ apply wp_ret. split; [exact Hs|apply lor_wrap_nonneg; lia]. }
  apply (wp_chain _ _ _ _ Hs), IH; [apply Hs|].
  cbn. change (ts_now (with_pos _ _)) with (ts_now ts). lia.
Qed.

Lemma safe_len_octs n : forall len ts,
  reader_ok ts -> 0 <= len -> Z.of_nat n <= tc_end (ts_now ts) - ts_pos ts ->
  wp (len_octs n len) ts (Reads ts) (ErrKeeps ts).
Proof.
  induction n as [|n IH]; intros len ts H Hl Hn; cbn [len_octs].
  { wp_steps. split; [now apply reads_to_refl|done]. }
  wp_step. apply wp_getc; [done|lia|]. intros b [Hb _] _.
  pose proof (reader_step ts H ltac:(lia)) as Hs.
  apply (wp_chain _ _ _ _ Hs), IH; [apply Hs|apply lor_wrap_nonneg; lia|].
  cbn. change (ts_now (with_pos _ _)) with (ts_now ts). lia.
Qed.

Lemma safe_read_len ts :
  reader_ok ts ->
  wp read_len ts (Reads ts) (ErrKeeps ts).
Proof.
  intros H. unfold read_len. wp_steps; [|now apply reads_to_refl].
  rewrite tlv_at_end_reader in * by done. apply wp_getc; [done|lia|]. intros b [Hb _] _.
  pose proof (reader_step ts H ltac:(lia)) as Hs. pose proof Hs as (Hr & _).
  wp_step; [|apply wp_ret; by split]. wp_steps; try exact Hs.
  rewrite tlv_rem_reader in * by exact Hr.
  apply (wp_chain _ _ _ _ Hs). apply safe_len_octs; [exact Hr|lia..].
Qed.

Lemma nested_push ts len lp :
  reader_ok ts -> 0 <= len <= tc_end (ts_now ts) - ts_pos ts ->
  let tc := Ctx (ts_pos ts) (usize (ts_pos ts + len)) lp (tc_depth (ts_now ts) + 1) in
  reads_to ts (tc :: ts_stack ts) (with_stack ts (tc :: ts_stack ts)).
Proof.
  intros H Hl. reader_facts H. cbn.
  rewrite wrap_small by lia. split; [constructor|]; cbn; auto; try lia.
  change (match ts_stack ts with [] => ts_root ts | b :: _ => b end) with (ts_now ts).
  repeat (split; [lia|]). done.
Qed.

Lemma safe_tlv_read_tag ts :
  reader_ok ts ->
  wp tlv_read_tag ts (fun _ ts' => exists tc, reads_to ts (tc :: ts_stack ts) ts') (ErrKeeps ts).
Proof.
  intros H. unfold tlv_read_tag. wp_steps; [|now apply reads_to_refl].
  rewrite tlv_at_end_reader in * by done. apply wp_getc; [done|lia|]. intros b [Hb _] _.
  pose proof (reader_step ts H ltac:(lia)) as Hs. pose proof Hs as (Hr & _).
  wp_step. apply (wp_mono _ _ (Reads ts) _ (ErrKeeps ts) _); [|clear Hs Hr|done].
  { wp_step; [|apply wp_ret; by split]. apply (wp_chain _ _ _ _ Hs). apply safe_tag_cont; [exact Hr|].
    cbn. change (ts_now (with_pos _ _)) with (ts_now ts). reader_facts H. unfold zlen in *. lia. }
  intros tag ts1 [Hs _]. wp_steps. pose proof Hs as (Hr & _).
  eapply wp_mono;
    [apply (wp_chain (fun v : Z => 0 <= v) _ _ _ Hs), safe_read_len, Hr
    |intros len ts2 [Hs3 Hlen]|done].
  pose proof Hs3 as (Hr3 & _ & _ & Hst).
  wp_steps; try exact Hs3.
  rewrite tlv_rem_reader, tlv_root_rem_reader in * by done.
  eexists. eapply reads_to_trans; [exact Hs3|]. rewrite <- Hst. apply nested_push; [done|].
  lia.
Qed.

(** ** Operations that leave the context stack alone *)

(** [m] never faults or panics on a reader and stays in its current context. *)
Definition safe_read {A} (m : T A) : Prop :=
  forall ts, reader_ok ts ->
    wp m ts (fun _ ts' => reads_to ts (ts_stack ts) ts') (ErrKeeps ts).

Lemma reader_advance ts n :
  reader_ok ts -> 0 <= n <= tc_end (ts_now ts) - ts_pos ts ->
  reads_to ts (ts_stack ts) (with_pos ts (ts_pos ts + n)).
Proof. intros H Hn. apply reader_with_pos; [done|]. destruct H. lia. Qed.

Lemma safe_getn n ts :
  reader_ok ts -> 0 <= n <= tc_end (ts_now ts) - ts_pos ts ->
  wp (getn n) ts (fun _ ts' => reads_to ts (ts_stack ts) ts') (ErrKeeps ts).
Proof. intros. apply wp_getn; [done..|]. now apply reader_advance. Qed.

Lemma safe_chain {A} (m : T A) ts ts1 :
  reads_to ts (ts_stack ts) ts1 ->
  wp m ts1 (fun _ ts' => reads_to ts1 (ts_stack ts1) ts') (ErrKeeps ts1) ->
  wp m ts1 (fun _ ts' => reads_to ts (ts_stack ts) ts') (ErrKeeps ts).
Proof.
  intros Hs Hw. eapply wp_mono; [apply (wp_chain (fun _ => True) _ _ _ Hs)|by intros ? ? []|done].
  eapply wp_mono; [exact Hw|by split|done].
Qed.

Lemma safe_read_u8 : safe_read tlv_read_u8.
Proof.
  intros ts H. unfold tlv_read_u8. wp_steps; [|now apply reads_to_refl].
  rewrite tlv_at_end_reader in * by done. apply wp_getc; [done|lia|]. intros b _ _.
  apply reader_step; [done|lia].
Qed.

Lemma safe_read_u16 : safe_read tlv_read_u16.
Proof.
  intros ts H. unfold tlv_read_u16. wp_steps; [|now apply reads_to_refl].
  rewrite tlv_rem_reader in * by done. apply wp_getc; [done|lia|]. intros b _ _.
  pose proof (reader_step ts H ltac:(lia)) as Hs. apply wp_bind.
  assert (ts_now (with_pos ts (ts_pos ts + 1)) = ts_now ts) as Hnow by done.
  apply wp_getc; [apply Hs|rewrite Hnow; cbn; lia|]. intros b' _ _. wp_steps.
  eapply reads_to_trans; [exact Hs|]. apply (reader_step (with_pos _ _)); [apply Hs|].
  rewrite Hnow. cbn. lia.
Qed.

Lemma safe_u8to32_loop n out : safe_read (u8to32_loop n out).
Proof.
  revert out. induction n as [|n IH]; intros out ts H; cbn [u8to32_loop]; wp_steps;
    try now apply reads_to_refl.
  rewrite tlv_at_end_reader in * by done. apply wp_getc; [done|lia|]. intros b _ _.
  pose proof (reader_step ts H ltac:(lia)) as Hs. apply safe_chain; [done|]. apply IH, Hs.
Qed.

Lemma safe_read_u8to32 : safe_read tlv_read_u8to32.
Proof.
  intros ts H. unfold tlv_read_u8to32. wp_steps; try now apply reads_to_refl.
  now apply safe_u8to32_loop.
Qed.

Lemma safe_read_upto n : 0 <= n -> safe_read (tlv_read_upto n).
Proof.
  intros Hn ts H. unfold tlv_read_upto. wp_steps; try now apply reads_to_refl.
  apply safe_getn; [done|]. rewrite tlv_rem_reader by done. destruct H.
  destruct (Z.ltb_spec (tc_end (ts_now ts) - ts_pos ts) n); lia.
Qed.

Lemma safe_string_loop n : forall acc ts,
  reader_ok ts -> Z.of_nat n <= tc_end (ts_now ts) - ts_pos ts ->
  wp (string_loop n acc) ts (fun _ ts' => reads_to ts (ts_stack ts) ts') (ErrKeeps ts).
Proof.
  induction n as [|n IH]; intros acc ts H Hn; cbn [string_loop]; wp_steps.
  { now apply reads_to_refl. }
  destruct (zget_is_Some (ts_buf ts) (ts_pos ts)) as [c Hc]; [reader_facts H; lia|].
  apply (wp_runs _ _ _ _ c ts); [unfold peekat; now rewrite Hc|].
  wp_steps; [|now apply reads_to_refl].
  apply wp_getc; [done|lia|]. intros b _ _.
  pose proof (reader_step ts H ltac:(lia)) as Hs. apply safe_chain; [done|].
  apply IH; [apply Hs|]. change (ts_now (with_pos _ _)) with (ts_now ts). cbn. lia.
Qed.

Lemma safe_read_string : safe_read tlv_read_string.
Proof.
  intros ts H. unfold tlv_read_string. wp_steps. apply safe_string_loop; [done|].
  rewrite tlv_rem_reader by done. destruct H. lia.
Qed.

Lemma safe_read_alloc : safe_read tlv_read_alloc.
Proof.
  intros ts H. unfold tlv_read_alloc. wp_steps. apply safe_getn; [done|].
  rewrite tlv_rem_reader by done. destruct H. lia.
Qed.

Lemma safe_tlv_read n : safe_read (tlv_read n).
Proof.
  intros ts H. unfold tlv_read. wp_steps; [|now apply reads_to_refl].
  rewrite tlv_rem_reader in * by done. apply safe_getn; [done|]. destruct H. lia.
Qed.

(** ** Operations that pop *)

Lemma nested_pop ts tc st p :
  reader_ok ts -> ts_stack ts = tc :: st -> tc_begin tc <= p <= tc_end tc ->
  reads_to ts st (with_pos (with_stack ts st) p).
Proof.
  intros [] Hst Hp. rewrite Hst in *. cbn in ro_nested0. destruct ro_nested0 as (? & ? & ?).
  split; [constructor|]; cbn; auto. unfold ts_now. cbn. destruct st; lia.
Qed.

Lemma with_pos_stack ts st : with_pos (with_stack ts st) (ts_pos ts) = with_stack ts st.
Proof. reflexivity. Qed.

Lemma reader_top ts tc st :
  reader_ok ts -> ts_stack ts = tc :: st -> tc_begin tc <= ts_pos ts <= tc_end tc.
Proof. intros [] Hst. unfold ts_now in ro_pos0. now rewrite Hst in ro_pos0. Qed.

Lemma safe_tlv_end ts tc st :
  reader_ok ts -> ts_stack ts = tc :: st ->
  wp tlv_end ts (fun _ ts' => reads_to ts st ts') (fun _ ts' => reads_to ts st ts').
Proof.
  intros H Hst. pose proof (reader_top ts tc st H Hst) as Ht. unfold tlv_end. wp_step.
  apply (wp_runs _ _ _ _ tc (with_stack ts st)); [unfold tlv_ctx_pop; now rewrite Hst|].
  assert (reads_to ts st (with_stack ts st)) by (rewrite <- with_pos_stack; eauto using nested_pop).
  do 3 wp_step. apply wp_verify; [cbn; lia|]. now wp_steps.
Qed.

Lemma safe_tlv_skip ts tc st :
  reader_ok ts -> ts_stack ts = tc :: st ->
  wp tlv_skip ts (fun _ ts' => reads_to ts st ts') (fun _ ts' => reads_to ts st ts').
Proof.
  intros H Hst. pose proof (reader_top ts tc st H Hst) as Ht. unfold tlv_skip. wp_step.
  apply (wp_runs _ _ _ _ tc (with_stack ts st)); [unfold tlv_ctx_pop; now rewrite Hst|].
  do 3 wp_step. apply wp_verify; [cbn; lia|]. wp_step. apply wp_verify; [cbn; lia|].
  wp_steps. apply (nested_pop ts tc); [done..|lia].
Qed.

Lemma abort_loop_nested pos st root :
  nested st root ->
  (let now := match st with [] => root | tc :: _ => tc end in tc_begin now <= pos <= tc_end now) ->
  abort_loop pos st root = true.
Proof.
  induction st as [|tc st IH]; cbn; [done|]. intros (H1 & H2 & H3) Hp.
  rewrite IH; [|done|destruct st; cbn; lia].
  destruct st; cbn; lia.
Qed.

Lemma safe_tlv_abort ts :
  reader_ok ts ->
  wp tlv_abort ts (fun _ ts' => reads_to ts [] ts') (fun _ _ => False).
Proof.
  intros H. unfold tlv_abort. do 2 wp_step. wp_step.
  apply wp_verify; [apply abort_loop_nested; [apply H|apply (ro_pos _ H)]|].
  wp_steps. destruct H. split; [constructor|]; cbn; auto. lia.
Qed.

(** * Every client of the reader *)

(** The reading operations of the interface, with the arguments a caller picks. *)
Inductive rop :=
| RTag | REnd | RSkip | RAbort | RU8 | RU16 | RU8to32 | RUpto (n : Z) | RString | RAlloc
| RRead (n : Z).

Definition run_rop (op : rop) : T unit :=
  match op with
  | RTag => tlv_read_tag ;! cret tt
  | REnd => tlv_end
  | RSkip => tlv_skip
  | RAbort => tlv_abort
  | RU8 => tlv_read_u8 ;! cret tt
  | RU16 => tlv_read_u16 ;! cret tt
  | RU8to32 => tlv_read_u8to32 ;! cret tt
  | RUpto n => tlv_read_upto (usize n) ;! cret tt
  | RString => tlv_read_string ;! cret tt
  | RAlloc => tlv_read_alloc ;! cret tt
  | RRead n => tlv_read (usize n) ;! cret tt
  end.

Definition pops (op : rop) : bool := match op with REnd | RSkip => true | _ => false end.

(** One call; a caller may go on after an error return. *)
Inductive rstep : tlv_state -> tlv_state -> Prop :=
| rstep_ok op ts ts' : run_rop op ts = (Ok tt, ts') -> rstep ts ts'
| rstep_er op ts ts' e : run_rop op ts = (Er e, ts') -> rstep ts ts'.

Lemma safe_seq_ret {A} (m : T A) ts (P : tlv_state -> Prop) :
  wp m ts (fun _ => P) (fun _ => P) -> wp (m ;! cret tt) ts (fun _ => P) (fun _ => P).
Proof. intros H. wp_step. eapply wp_mono; [exact H|auto..]. Qed.

(** What every call keeps, whether it returns normally or with an error. *)
Definition Keeps (ts ts' : tlv_state) : Prop :=
  reader_ok ts' /\ ts_buf ts' = ts_buf ts /\ ts_root ts' = ts_root ts.

Lemma reads_to_keeps ts st ts' : reads_to ts st ts' -> Keeps ts ts'.
Proof. unfold Keeps. by intros (? & ? & ? & _). Qed.

Lemma safe_rop op ts :
  reader_ok ts -> (pops op = true -> ts_stack ts <> []) ->
  wp (run_rop op) ts (fun _ => Keeps ts) (fun _ => Keeps ts).
Proof.
  intros H Hpop.
  assert (keep : forall A (m : T A), safe_read m ->
            wp (m ;! cret tt) ts (fun _ => Keeps ts) (fun _ => Keeps ts)).
  { intros A m Hm. apply safe_seq_ret. eapply wp_mono; [now apply Hm|..]; intros ? ?; apply reads_to_keeps. }
  destruct op; cbn [run_rop]; try (apply keep;
    eauto using safe_read_u8, safe_read_u16, safe_read_u8to32, safe_read_string,
      safe_read_alloc, safe_tlv_read; fail).
  - apply safe_seq_ret. eapply wp_mono; [now apply safe_tlv_read_tag|..].
    + intros ? ? (? & ?%reads_to_keeps). done.
    + intros ? ? ?%reads_to_keeps. done.
  - destruct (ts_stack ts) eqn:Hst; [by specialize (Hpop eq_refl)|].
    eapply wp_mono; [eapply safe_tlv_end; eauto|..]; intros ? ?; apply reads_to_keeps.
  - destruct (ts_stack ts) eqn:Hst; [by specialize (Hpop eq_refl)|].
    eapply wp_mono; [eapply safe_tlv_skip; eauto|..]; intros ? ?; apply reads_to_keeps.
  - eapply wp_mono; [now apply safe_tlv_abort|intros ? ?; apply reads_to_keeps|done].
  - apply keep, safe_read_upto, wrap_range. lia.
Qed.

Lemma pop_empty op ts :
  pops op = true -> ts_stack ts = [] -> run_rop op ts = (Panic, ts).
Proof.
  intros Hp Hst. destruct op; try done; cbn [run_rop]; unfold tlv_end, tlv_skip, cbind, tlv_ctx_pop;
    now rewrite Hst.
Qed.

Lemma rop_outcome op ts :
  reader_ok ts ->
  match run_rop op ts with
  | (Ok _, ts') | (Er _, ts') => Keeps ts ts'
  | (Panic, _) => pops op = true /\ ts_stack ts = []
  | (Fault, _) => False
  end.
Proof.
  intros H. destruct (decide (pops op = true /\ ts_stack ts = [])) as [[Hp Hst]|Hn].
  { now rewrite (pop_empty op ts Hp Hst). }
  assert (wp (run_rop op) ts (fun _ => Keeps ts) (fun _ => Keeps ts)) as Hw.
  { apply safe_rop; [done|]. intros Hp Hst. by apply Hn. }
  unfold wp in Hw. by destruct (run_rop op ts) as [[] ?].
Qed.

Lemma rstep_keeps ts ts' : rtc rstep ts ts' -> reader_ok ts -> Keeps ts ts'.
Proof.
  induction 1 as [ts|ts ts1 ts' Hs _ IH]; intros H; [done|].
  assert (Keeps ts ts1) as (H1 & H2 & H3).
  { destruct Hs as [op ts ts1 He|op ts ts1 e He]; pose proof (rop_outcome op ts H) as Ho;
      now rewrite He in Ho. }
  destruct (IH H1) as (? & ? & ?). unfold Keeps. split_and!; congruence.
Qed.

Lemma tlv_init_reader buf off len :
  bytes buf -> zlen buf < 2 ^ 63 -> 0 <= off -> 0 <= len -> off + len <= zlen buf ->
  reader_ok (tlv_init buf off len).
Proof.
  intros. unfold tlv_init. rewrite wrap_small by lia. constructor; cbn; auto; lia.
Qed.

(** C14: memory safety of the TLV reader. Take any buffer of bytes, a reader made by
    [tlv_init] over a range of it, and any sequence of reading calls (in any order,
    going on after error returns). The next call never reads outside the buffer,
    leaves the reader within its nested contexts, and fails a [VERIFY] only when
    it is [tlv_end]/[tlv_skip] with no tag open. *)
Theorem tlv_reader_safe buf off len ts op :
  bytes buf -> zlen buf < 2 ^ 63 -> 0 <= off -> 0 <= len -> off + len <= zlen buf ->
  rtc rstep (tlv_init buf off len) ts ->
  match run_rop op ts with
  | (Ok _, ts') | (Er _, ts') =>
      reader_ok ts' /\ ts_buf ts' = buf /\ ts_root ts' = Ctx off (off + len) 0 0
  | (Panic, _) => pops op = true /\ ts_stack ts = []
  | (Fault, _) => False
  end.
Proof.
  intros Hb Hs Ho Hl Hr Hsteps. pose proof (tlv_init_reader buf off len Hb Hs Ho Hl Hr) as Hi.
  destruct (rstep_keeps _ _ Hsteps Hi) as (H1 & H2 & H3). pose proof (rop_outcome op ts H1) as Hop.
  cbn in H2, H3. rewrite wrap_small in H3 by lia.
  destruct (run_rop op ts) as [[] ts']; try done; destruct Hop as (? & ? & ?);
    split_and!; congruence.
Qed.

Lemma tlv_reader_safe_witness :
  match run_rop RU8 (tlv_init [83; 1; 7] 0 3) with
  | (Ok _, ts') | (Er _, ts') =>
      reader_ok ts' /\ ts_buf ts' = [83; 1; 7] /\ ts_root ts' = Ctx 0 (0 + 3) 0 0
  | (Panic, _) => pops RU8 = true /\ ts_stack (tlv_init [83; 1; 7] 0 3) = []
  | (Fault, _) => False
  end.
Proof.
  apply (tlv_reader_safe [83; 1; 7] 0 3 _ RU8); try (vm_compute; congruence).
  - apply Forall_fold_right. vm_compute. repeat split; congruence.
  - apply rtc_refl.
Defined.

(** * Writer: what each operation appends *)

(** A state of a [tlv_init_write] buffer. *)
Record writer_ok (ts : tlv_state) : Prop := {
  wo_root : ts_root ts = Ctx 0 MAX_APDU_SIZE 0 0;
  wo_buf : zlen (ts_buf ts) = MAX_APDU_SIZE;
  wo_pos : 0 <= ts_pos ts <= MAX_APDU_SIZE
}.

Definition writes_to (ts : tlv_state) (bs : list Z) (ts' : tlv_state) : Prop :=
  writer_ok ts' /\ tlv_written ts' = tlv_written ts ++ bs /\ ts_stack ts' = ts_stack ts.

(** [m] appends exactly [bs] whenever [bs] fits. *)
Definition emits (m : T unit) (bs : list Z) : Prop :=
  forall ts, writer_ok ts -> ts_pos ts + zlen bs <= MAX_APDU_SIZE ->
    exists ts', m ts = (Ok tt, ts') /\ writes_to ts bs ts'.

Lemma zlen_written ts : writer_ok ts -> zlen (tlv_written ts) = ts_pos ts.
Proof. intros []. unfold tlv_written, zlen in *. rewrite length_take. lia. Qed.

Lemma writes_to_pos ts bs ts' :
  writer_ok ts -> writes_to ts bs ts' -> ts_pos ts' = ts_pos ts + zlen bs.
Proof.
  intros H (H' & Hw & _). rewrite <- (zlen_written ts' H'), <- (zlen_written ts H), Hw. zlen_lia.
Qed.

Lemma writes_to_trans ts a ts1 b ts2 :
  writes_to ts a ts1 -> writes_to ts1 b ts2 -> writes_to ts (a ++ b) ts2.
Proof.
  intros (? & Ha & ?) (? & Hb & ?). split_and!; [done| |congruence].
  now rewrite Hb, Ha, app_assoc.
Qed.

Lemma emits_seq m1 m2 a b : emits m1 a -> emits m2 b -> emits (m1 ;! m2) (a ++ b).
Proof.
  intros H1 H2 ts H Hf. rewrite zlen_app in Hf. pose proof (zlen_nonneg b).
  destruct (H1 ts H) as (ts1 & E1 & W1); [lia|]. pose proof (writes_to_pos _ _ _ H W1) as Hp.
  destruct (H2 ts1) as (ts2 & E2 & W2); [apply W1|lia|]. exists ts2.
  split; [now rewrite (cbind_ok _ _ _ _ _ E1)|eapply writes_to_trans; eauto].
Qed.

Lemma emits_ret : emits (cret tt) [].
Proof.
  intros ts H _. exists ts. split; [done|]. unfold writes_to. by rewrite app_nil_r.
Qed.

Lemma written_append ts bs :
  writer_ok ts -> ts_pos ts + zlen bs <= MAX_APDU_SIZE ->
  writes_to ts bs (with_pos (with_buf ts (zsplice (ts_buf ts) (ts_pos ts) bs)) (ts_pos ts + zlen bs)).
Proof.
  intros [Hr Hb Hp] Hf. pose proof (zlen_nonneg bs). split_and!; [constructor|..]; cbn; auto.
  - rewrite zlen_zsplice; lia.
  - lia.
  - unfold tlv_written. cbn. apply zsplice_take; lia.
Qed.

Lemma putc_writes v ts :
  writer_ok ts -> ts_pos ts + 1 <= MAX_APDU_SIZE ->
  exists ts', putc v ts = (Ok tt, ts') /\ writes_to ts [u8 v] ts'.
Proof.
  intros H Hf. eexists. split; [|exact (written_append ts [u8 v] H Hf)].
  unfold putc. destruct H. by replace (_ && _) with true by lia.
Qed.
Lemma emits_putc v : emits (putc v) [u8 v].
Proof. intros ts. apply putc_writes. Qed.

Lemma root_end_writer ts : writer_ok ts -> tlv_at_root_end ts = (MAX_APDU_SIZE <=? ts_pos ts).
Proof. intros []. unfold tlv_at_root_end. by rewrite wo_root0. Qed.

Lemma emits_verify_putc v :
  emits (let! ts := cget in verify (negb (tlv_at_root_end ts)) ;! putc v) [u8 v].
Proof.
  intros ts H Hf. unfold cbind at 1, cget. rewrite root_end_writer by done.
  change (zlen [u8 v]) with 1 in Hf.
  replace (negb _) with true by lia. now apply putc_writes.
Qed.

Lemma emits_write_byte v : emits (tlv_write_byte v) [u8 v].
Proof. apply emits_verify_putc. Qed.

Lemma emits_write src : emits (tlv_write src) src.
Proof.
  intros ts H Hf. eexists. split; [|exact (written_append ts src H Hf)].
  unfold tlv_write, tlv_root_rem. destruct H. unfold cbind at 1, cget. cbn.
  pose proof (zlen_nonneg src).
  assert (MAX_APDU_SIZE < 2 ^ 64) by reflexivity.
  rewrite wo_root0. cbn. rewrite wrap_small by lia.
  replace (_ <=? _) with true by lia. cbn.
  by replace (_ && _) with true by lia.
Qed.

(** ** Shortest big-endian form *)

Lemma part_spec val n : 0 <= val -> part val (S n) = val / 256 ^ Z.of_nat n mod 256.
Proof.
  intros Hv. unfold part. replace (8 * (Z.of_nat (S n) - 1)) with (8 * Z.of_nat n) by lia.
  rewrite Z.shiftr_land, Z.shiftr_shiftl_l, Z.sub_diag by lia.
  change (Z.land (Z.shiftr val (8 * Z.of_nat n)) (Z.shiftl 255 0))
    with (Z.land (Z.shiftr val (8 * Z.of_nat n)) (Z.ones 8)).
  rewrite Z.land_ones, Z.shiftr_div_pow2, Z.pow_mul_r by lia. done.
Qed.

(** The octets of [val] without leading zeros: none at all for [0]. *)
Fixpoint drop_zeros (bs : list Z) : list Z :=
  match bs with
  | b :: r => if b =? 0 then drop_zeros r else bs
  | [] => []
  end.
Definition short_be (val : Z) : list Z := drop_zeros (be_bytes 4 val).

Lemma part_byte val n : 0 <= val -> u8 (part val (S n)) = part val (S n).
Proof. intros. apply wrap_small. rewrite part_spec by done. apply Z.mod_pos_bound. lia. Qed.

Lemma emits_write_rest val n : 0 <= val -> emits (write_rest val n) (be_bytes n val).
Proof.
  intros Hv. induction n as [|n IH]; [apply emits_ret|].
  rewrite be_bytes_cons, <- part_spec, <- part_byte by done. cbn [write_rest].
  intros ts H Hf. destruct (emits_seq _ _ _ _ (emits_verify_putc (part val (S n))) IH ts H Hf)
    as (ts' & E & W). exists ts'. split; [|done]. rewrite <- E. unfold cbind, cget.
  by destruct (verify _ ts) as [[] ?].
Qed.

Lemma emits_write_skip val n :
  0 <= val -> emits (write_skip val n) (drop_zeros (be_bytes n val)).
Proof.
  intros Hv. induction n as [|n IH]; [apply emits_ret|].
  rewrite be_bytes_cons, <- part_spec by done. cbn [write_skip drop_zeros].
  destruct (part val (S n) =? 0); [done|].
  rewrite part_spec, <- be_bytes_cons by done. by apply emits_write_rest.
Qed.

Lemma emits_write_u8to32 val :
  0 <= val < 2 ^ 32 -> emits (tlv_write_u8to32 val) (short_be val).
Proof. intros Hv. unfold tlv_write_u8to32. rewrite wrap_small by lia. apply emits_write_skip; lia. Qed.

Lemma be_val_drop_zeros bs : be_val (drop_zeros bs) = be_val bs.
Proof.
  induction bs as [|b r IH]; cbn [drop_zeros]; [done|].
  destruct (Z.eqb_spec b 0) as [->|]; [exact IH|done].
Qed.

Lemma be_val_short_be val : 0 <= val < 2 ^ 32 -> be_val (short_be val) = val.
Proof.
  intros. unfold short_be. rewrite be_val_drop_zeros, be_val_be_bytes by lia.
  by apply Z.mod_small.
Qed.

Lemma drop_zeros_length bs : (length (drop_zeros bs) <= length bs)%nat.
Proof. induction bs as [|b r IH]; cbn; [done|]. destruct (b =? 0); cbn; lia. Qed.

Lemma drop_zeros_bytes bs : bytes bs -> bytes (drop_zeros bs).
Proof. induction 1 as [|b r]; cbn; [done|]. destruct (b =? 0); [done|]. by constructor. Qed.

Lemma zlen_short_be val : zlen (short_be val) <= 4.
Proof.
  unfold short_be, zlen. pose proof (drop_zeros_length (be_bytes 4 val)).
  rewrite length_be_bytes in *. lia.
Qed.

Lemma short_be_bytes val : bytes (short_be val).
Proof. apply drop_zeros_bytes, be_bytes_bytes. Qed.

(** ** A pushed tag, its contents and the pop *)

(** The length field that [tlv_pushl] reserves and [tlv_pop] fills in. *)
Definition len_field (maxlen n : Z) : list Z :=
  if maxlen <? 2 ^ 7 then [n]
  else if maxlen <? 2 ^ 8 then [129; n]
  else if maxlen <? 2 ^ 16 then 130 :: be_bytes 2 n
  else 131 :: be_bytes 3 n.

(** The greatest length that the field of [tlv_pushl tag maxlen] holds. *)
Definition len_limit (maxlen : Z) : Z :=
  if maxlen <? 2 ^ 7 then 2 ^ 7
  else if maxlen <? 2 ^ 8 then 2 ^ 8
  else if maxlen <? 2 ^ 16 then 2 ^ 16 else 2 ^ 24.

Definition tlv_object (tag maxlen : Z) (body : list Z) : list Z :=
  short_be tag ++ len_field maxlen (zlen body) ++ body.

Lemma skipc_writes n ts :
  writer_ok ts -> 0 <= n -> ts_pos ts + n <= MAX_APDU_SIZE ->
  exists ts' bs, skipc n ts = (Ok tt, ts') /\ zlen bs = n /\ writes_to ts bs ts'.
Proof.
  intros [] Hn Hf. eexists _, (zslice (ts_buf ts) (ts_pos ts) n). split; [done|].
  split; [apply zlen_zslice; lia|].
  split_and!; [constructor; cbn; auto; lia| |done]. unfold tlv_written, zslice. cbn.
  rewrite Z2Nat.inj_add by lia. symmetry. apply take_take_drop.
Qed.

(** Writing a byte of the part already written. *)
Lemma pokeat_writes v ts pre x post :
  writer_ok ts -> tlv_written ts = pre ++ x :: post ->
  exists ts', pokeat (zlen pre) v ts = (Ok tt, ts') /\ writer_ok ts' /\
    ts_pos ts' = ts_pos ts /\ ts_stack ts' = ts_stack ts /\
    tlv_written ts' = pre ++ u8 v :: post.
Proof.
  intros H Hw. pose proof (zlen_written ts H) as Hl. rewrite Hw in Hl. destruct H.
  assert (zlen pre + 1 <= ts_pos ts) as Hp by zlen_lia. pose proof (zlen_nonneg pre).
  eexists. split; [unfold pokeat; by replace (_ && _) with true by lia|].
  split_and!; [constructor|..]; cbn; auto.
  - rewrite zlen_zsplice; [done|done|change (zlen [_]) with 1; lia].
  - unfold tlv_written in *. cbn. rewrite take_zsplice, Hw by (change (zlen [_]) with 1; lia).
    apply zsplice_mid.
Qed.

Lemma peekat_writes ts pre x post :
  writer_ok ts -> tlv_written ts = pre ++ x :: post -> peekat (zlen pre) ts = (Ok x, ts).
Proof.
  intros H Hw. pose proof (zget_app_r pre post x) as Hg. rewrite <- Hw in Hg.
  pose proof (zget_Some _ _ _ Hg) as Hr. unfold zget, tlv_written in *.
  destruct (0 <=? zlen pre); [|done].
  rewrite lookup_take_Some in Hg. unfold peekat, zget. cbn.
  replace (0 <=? zlen pre) with true by lia. by destruct Hg as [-> _].
Qed.

Definition len_marker (maxlen : Z) : Z :=
  if maxlen <? 2 ^ 7 then 0 else if maxlen <? 2 ^ 8 then 129
  else if maxlen <? 2 ^ 16 then 130 else 131.
Definition len_extra (maxlen : Z) : Z :=
  if maxlen <? 2 ^ 7 then 0 else if maxlen <? 2 ^ 8 then 1
  else if maxlen <? 2 ^ 16 then 2 else 3.

Lemma zlen_len_field maxlen n : zlen (len_field maxlen n) = 1 + len_extra maxlen.
Proof.
  unfold len_field, len_extra.
  destruct (maxlen <? 2 ^ 7), (maxlen <? 2 ^ 8), (maxlen <? 2 ^ 16); zlen_lia.
Qed.

Definition reserve_len (maxlen : Z) : T unit :=
  putc (len_marker maxlen) ;! skipc (len_extra maxlen).

Lemma reserve_len_writes maxlen ts :
  writer_ok ts -> ts_pos ts + 1 + len_extra maxlen <= MAX_APDU_SIZE ->
  exists ts' tl, reserve_len maxlen ts = (Ok tt, ts') /\ zlen tl = len_extra maxlen /\
    writes_to ts (len_marker maxlen :: tl) ts'.
Proof.
  intros H Hf. assert (0 <= len_extra maxlen) by (unfold len_extra; repeat case_match; lia).
  destruct (putc_writes (len_marker maxlen) ts H) as (ts1 & E1 & W1); [lia|].
  pose proof (writes_to_pos _ _ _ H W1) as Hp. change (zlen [_]) with 1 in Hp.
  destruct (skipc_writes (len_extra maxlen) ts1) as (ts2 & tl & E2 & Hl & W2);
    [apply W1|done|lia|].
  exists ts2, tl. unfold reserve_len. rewrite (cbind_ok _ _ _ _ _ E1). split_and!; [done|done|].
  replace (len_marker maxlen) with (u8 (len_marker maxlen))
    by (unfold len_marker; repeat case_match; reflexivity).
  exact (writes_to_trans _ _ _ _ _ W1 W2).
Qed.

Lemma with_pos_0 ts : with_pos ts (ts_pos ts + 0) = ts.
Proof. destruct ts. unfold with_pos. cbn. by rewrite Z.add_0_r. Qed.

(** The [if]/[else] chain of [tlv_pushl] is [reserve_len]. *)
Lemma pushl_unfold tag maxlen ts :
  maxlen < 2 ^ 24 ->
  tlv_pushl tag maxlen ts =
  (tlv_write_u8to32 tag ;!
   let! lenptr := cgets ts_pos in
   reserve_len maxlen ;!
   let! begin := cgets ts_pos in
   tlv_ctx_push (Ctx begin 0 lenptr 0)) ts.
Proof.
  intros Hm. unfold tlv_pushl, reserve_len, len_marker, len_extra, cbind, cgets.
  destruct (tlv_write_u8to32 tag ts) as [[] ts1]; try done.
  destruct (maxlen <? 2 ^ 7); [|by destruct (maxlen <? 2 ^ 8), (maxlen <? 2 ^ 16);
    try done; replace (maxlen <? 2 ^ 24) with true by lia].
  unfold skipc, cmodify. destruct (putc 0 ts1) as [[] ts2]; try done. by rewrite with_pos_0.
Qed.

Lemma pushl_writes tag maxlen ts :
  writer_ok ts -> 0 <= tag < 2 ^ 32 -> maxlen < 2 ^ 24 ->
  ts_pos ts + zlen (short_be tag) + 1 + len_extra maxlen <= MAX_APDU_SIZE ->
  exists ts' tl d, tlv_pushl tag maxlen ts = (Ok tt, ts') /\ writer_ok ts' /\
    zlen tl = len_extra maxlen /\
    tlv_written ts' = tlv_written ts ++ short_be tag ++ len_marker maxlen :: tl /\
    ts_stack ts' = Ctx (ts_pos ts') 0 (ts_pos ts + zlen (short_be tag)) d :: ts_stack ts.
Proof.
  intros H Ht Hm Hf. assert (0 <= len_extra maxlen) by (unfold len_extra; repeat case_match; lia).
  rewrite pushl_unfold by done.
  destruct (emits_write_u8to32 tag Ht ts H) as (ts1 & E1 & W1); [lia|].
  pose proof (writes_to_pos _ _ _ H W1) as Hp1.
  destruct (reserve_len_writes maxlen ts1) as (ts2 & tl & E2 & Hl & W2); [apply W1|lia|].
  rewrite (cbind_ok _ _ _ _ _ E1). unfold cgets at 1, cbind at 1. rewrite (cbind_ok _ _ _ _ _ E2).
  destruct (writes_to_trans _ _ _ _ _ W1 W2) as (H2 & Hw & Hst).
  eexists _, tl, _. split; [reflexivity|]. destruct H2.
  split_and!; [by constructor|done|exact Hw|]. cbn. by rewrite Hp1, Hst.
Qed.

Lemma shiftr_land_div len k : 0 <= len -> 0 <= k ->
  Z.shiftr (Z.land len (Z.shiftl 255 k)) k = len / 2 ^ k mod 256.
Proof.
  intros. rewrite Z.shiftr_land, Z.shiftr_shiftl_l, Z.sub_diag by lia.
  change (Z.shiftl 255 0) with (Z.ones 8). by rewrite Z.land_ones, Z.shiftr_div_pow2 by lia.
Qed.

(** [buf[p + |fs|..] = vs]: filling in the reserved bytes one after the other. *)
Fixpoint pokes (p : Z) (vs : list Z) : T unit :=
  match vs with
  | [] => cret tt
  | v :: r => pokeat p v ;! pokes (p + 1) r
  end.

Lemma pokes_writes vs : forall pre tl post ts,
  writer_ok ts -> bytes vs -> length tl = length vs ->
  tlv_written ts = pre ++ tl ++ post ->
  exists ts', pokes (zlen pre) vs ts = (Ok tt, ts') /\ writer_ok ts' /\
    ts_stack ts' = ts_stack ts /\ tlv_written ts' = pre ++ vs ++ post.
Proof.
  induction vs as [|v r IH]; intros pre [|x tl] post ts H Hb Hl Hw; try done.
  { by exists ts. }
  apply Forall_cons in Hb as [Hv Hr]. cbn in Hl.
  destruct (pokeat_writes v ts pre x (tl ++ post) H Hw) as (ts1 & E1 & H1 & _ & Hs1 & Hw1).
  rewrite (wrap_small 8 v) in Hw1 by apply Hv.
  destruct (IH (pre ++ [v]) tl post ts1) as (ts2 & E2 & H2 & Hs2 & Hw2); [done|done|lia| |].
  { by rewrite Hw1, <- app_assoc. }
  exists ts2. cbn [pokes]. rewrite (cbind_ok _ _ _ _ _ E1).
  replace (zlen pre + 1) with (zlen (pre ++ [v])) by zlen_lia.
  split_and!; [done|done|congruence|]. by rewrite Hw2, <- app_assoc.
Qed.

(** The bytes of the length field that [tlv_pop] pokes, and where. *)
Definition pop_bytes (maxlen n : Z) : list Z :=
  if maxlen <? 2 ^ 7 then [n] else be_bytes (Z.to_nat (len_extra maxlen)) n.

Lemma pop_unfold maxlen ts b lp d st n :
  writer_ok ts -> ts_stack ts = Ctx b 0 lp d :: st -> ts_pos ts = b + n ->
  0 <= b -> 0 <= n < len_limit maxlen ->
  peekat lp (with_stack ts st) = (Ok (len_marker maxlen), with_stack ts st) ->
  tlv_pop ts = pokes (if maxlen <? 2 ^ 7 then lp else lp + 1) (pop_bytes maxlen n) (with_stack ts st).
Proof.
  intros [Hr Hb Hpos] Hst Hp Hb0 Hn Hk. assert (MAX_APDU_SIZE < 2 ^ 64) by reflexivity.
  unfold tlv_pop, cbind at 1, tlv_ctx_pop. rewrite Hst. unfold cgets at 1, cbind at 1. cbn.
  rewrite (wrap_small 64 (ts_pos ts - b)) by lia. replace (ts_pos ts - b) with n by lia.
  rewrite (cbind_ok _ _ _ _ _ Hk). unfold len_marker, len_limit, pop_bytes, len_extra in *.
  change 65280 with (Z.shiftl 255 8). change 16711680 with (Z.shiftl 255 16).
  change (Z.land n 255) with (Z.land n (Z.ones 8)).
  rewrite !shiftr_land_div, Z.land_ones by lia.
  destruct (maxlen <? 2 ^ 7), (maxlen <? 2 ^ 8), (maxlen <? 2 ^ 16); cbn [Z.eqb Pos.eqb];
    change (Z.to_nat 1) with 1%nat; change (Z.to_nat 2) with 2%nat; change (Z.to_nat 3) with 3%nat;
    unfold verify; rewrite (proj2 (Z.ltb_lt _ _)) by lia; cbn -[Z.div Z.modulo Z.pow];
    rewrite ?Z.div_div by lia; unfold cbind, cret; rewrite <- ?Z.add_assoc;
    try (rewrite (Z.mod_small n) by lia);
    repeat (destruct (pokeat _ _ _) as [[[]| | |] ?]; try done).
Qed.

Lemma pop_writes maxlen ts b lp d st pre tl body :
  writer_ok ts -> ts_stack ts = Ctx b 0 lp d :: st ->
  tlv_written ts = pre ++ (len_marker maxlen :: tl) ++ body ->
  zlen tl = len_extra maxlen -> lp = zlen pre -> b = zlen pre + 1 + zlen tl ->
  zlen body < len_limit maxlen ->
  exists ts', tlv_pop ts = (Ok tt, ts') /\ writer_ok ts' /\ ts_stack ts' = st /\
    tlv_written ts' = pre ++ len_field maxlen (zlen body) ++ body.
Proof.
  intros H Hst Hw Htl Hlp Hb Hlim.
  assert (ts_pos ts = b + zlen body) as Hp by (rewrite <- (zlen_written ts H), Hw; zlen_lia).
  assert (writer_ok (with_stack ts st)) as H' by by destruct H.
  pose proof (zlen_nonneg body). pose proof (zlen_nonneg pre). pose proof (zlen_nonneg tl).
  erewrite (pop_unfold maxlen) by (eauto using peekat_writes; lia || subst lp; by eapply peekat_writes).
  unfold len_marker, len_limit, pop_bytes, len_field, len_extra in *.
  destruct (Z.ltb_spec maxlen (2 ^ 7)).
  { destruct tl; [|zlen_lia]. rewrite Hlp.
    destruct (pokes_writes [zlen body] pre [0] body (with_stack ts st)) as (ts' & E & ? & ? & ?);
      [done| |done|done|by exists ts'].
    constructor; [unfold is_byte; lia|done]. }
  set (m := if maxlen <? 2 ^ 8 then _ else _) in Hw.
  destruct (pokes_writes (be_bytes (Z.to_nat (zlen tl)) (zlen body)) (pre ++ [m]) tl body
              (with_stack ts st)) as (ts' & E & ? & ? & Hw');
    [done|apply be_bytes_bytes|unfold zlen; rewrite length_be_bytes; lia|by rewrite <- app_assoc|].
  exists ts'. rewrite Htl, zlen_app, <- Hlp in E. split_and!; [exact E|done|done|].
  rewrite Hw', <- app_assoc, Htl. subst m.
  destruct (Z.ltb_spec maxlen (2 ^ 8)), (Z.ltb_spec maxlen (2 ^ 16)); try lia; try done.
  change (Z.to_nat 1) with 1%nat. cbn. by rewrite Z.mod_small by lia.
Qed.

(** A tag pushed, its body written and the context popped append the object. *)
Lemma emits_object tag maxlen m body :
  0 <= tag < 2 ^ 32 -> maxlen < 2 ^ 24 -> zlen body < len_limit maxlen ->
  emits m body ->
  emits (tlv_pushl tag maxlen ;! m ;! tlv_pop) (tlv_object tag maxlen body).
Proof.
  intros Ht Hm Hlim He ts H Hf. unfold tlv_object in Hf. rewrite !zlen_app, zlen_len_field in Hf.
  pose proof (zlen_nonneg body) as Hz. pose proof (zlen_nonneg (short_be tag)) as Hz'.
  destruct (pushl_writes tag maxlen ts H Ht Hm) as (ts1 & tl & d & E1 & H1 & Htl & Hw1 & Hs1); [lia|].
  pose proof (zlen_written ts H) as Hp. pose proof (zlen_written ts1 H1) as Hp1.
  rewrite Hw1, !zlen_app, zlen_cons in Hp1.
  destruct (He ts1 H1) as (ts2 & E2 & H2 & Hw2 & Hs2); [lia|].
  rewrite (cbind_ok _ _ _ _ _ E1), (cbind_ok _ _ _ _ _ E2).
  destruct (pop_writes maxlen ts2 (ts_pos ts1) (ts_pos ts + zlen (short_be tag)) d (ts_stack ts)
              (tlv_written ts ++ short_be tag) tl body H2)
    as (ts3 & E3 & H3 & Hs3 & Hw3); [by rewrite Hs2, Hs1| |done|zlen_lia|zlen_lia|done|].
  { by rewrite Hw2, Hw1, <- !app_assoc. }
  exists ts3. split; [done|]. split_and!; [done| |done]. by rewrite Hw3, <- app_assoc.
Qed.

(** * Reader: what each operation decodes *)

(** The bytes between the position and the end of the current context. *)
Definition tlv_rest (ts : tlv_state) : list Z :=
  zslice (ts_buf ts) (ts_pos ts) (tc_end (ts_now ts) - ts_pos ts).

Definition advance (ts : tlv_state) (n : Z) : tlv_state := with_pos ts (ts_pos ts + n).

(** [m] consumes [bs] from the front of the context ([decodes]) or as all that
    is left of it ([decodes_all]) and returns [v]. *)
Definition decodes {A} (m : T A) (bs : list Z) (v : A) : Prop :=
  forall ts rest, reader_ok ts -> tlv_rest ts = bs ++ rest ->
    m ts = (Ok v, advance ts (zlen bs)).
Definition decodes_all {A} (m : T A) (bs : list Z) (v : A) : Prop :=
  forall ts, reader_ok ts -> tlv_rest ts = bs -> m ts = (Ok v, advance ts (zlen bs)).

Lemma decodes_decodes_all {A} (m : T A) bs v : decodes m bs v -> decodes_all m bs v.
Proof. intros H ts Hr Hs. apply (H ts []); [done|]. by rewrite app_nil_r. Qed.

Lemma zlen_rest ts : reader_ok ts -> zlen (tlv_rest ts) = tc_end (ts_now ts) - ts_pos ts.
Proof. intros H. reader_facts H. unfold tlv_rest. apply zlen_zslice; lia. Qed.

Lemma rest_advance ts a b :
  reader_ok ts -> tlv_rest ts = a ++ b ->
  reader_ok (advance ts (zlen a)) /\ tlv_rest (advance ts (zlen a)) = b.
Proof.
  intros H Hr. pose proof (zlen_rest ts H) as Hl. rewrite Hr, zlen_app in Hl.
  pose proof (zlen_nonneg a). pose proof (zlen_nonneg b).
  split; [apply reader_advance; [done|lia]|].
  assert (b = drop (length a) (tlv_rest ts)) as -> by by rewrite Hr, drop_app_length.
  unfold tlv_rest, zslice, advance. change (ts_now (with_pos _ _)) with (ts_now ts). cbn.
  rewrite skipn_firstn_comm, drop_drop. reader_facts H. unfold zlen in *. f_equal; [lia|f_equal; lia].
Qed.

Lemma rest_zlen_le ts a b : reader_ok ts -> tlv_rest ts = a ++ b ->
  zlen a <= tc_end (ts_now ts) - ts_pos ts.
Proof. intros H Hr. rewrite <- zlen_rest, Hr by done. zlen_lia. Qed.

Lemma advance_advance ts a b : advance (advance ts a) b = advance ts (a + b).
Proof. unfold advance, with_pos. cbn. by rewrite Z.add_assoc. Qed.
Lemma advance_0 ts : advance ts 0 = ts.
Proof. apply with_pos_0. Qed.
Lemma advance_now ts n : ts_now (advance ts n) = ts_now ts.
Proof. done. Qed.

Lemma decodes_bind {A B} (m : T A) (f : A -> T B) a b v w :
  decodes m a v -> decodes (f v) b w -> decodes (let! x := m in f x) (a ++ b) w.
Proof.
  intros Hm Hf ts rest H Hr. rewrite <- app_assoc in Hr.
  rewrite (cbind_ok _ _ _ _ _ (Hm ts _ H Hr)). destruct (rest_advance ts a _ H Hr) as [H1 Hr1].
  rewrite (Hf _ _ H1 Hr1), advance_advance. by rewrite zlen_app.
Qed.
Lemma decodes_all_bind {A B} (m : T A) (f : A -> T B) a b v w :
  decodes m a v -> decodes_all (f v) b w -> decodes_all (let! x := m in f x) (a ++ b) w.
Proof.
  intros Hm Hf ts H Hr.
  rewrite (cbind_ok _ _ _ _ _ (Hm ts _ H Hr)). destruct (rest_advance ts a _ H Hr) as [H1 Hr1].
  rewrite (Hf _ H1 Hr1), advance_advance. by rewrite zlen_app.
Qed.
Lemma decodes_ret {A} (v : A) : decodes (cret v) [] v.
Proof. intros ts rest _ _. by rewrite advance_0. Qed.

Lemma decodes_getc b : decodes getc [b] b.
Proof.
  intros ts rest H Hr. pose proof (rest_zlen_le ts [b] rest H Hr) as Hl.
  unfold getc, zget. reader_facts H. change (zlen [b]) with 1 in Hl.
  replace (0 <=? ts_pos ts) with true by lia.
  assert (ts_buf ts !! Z.to_nat (ts_pos ts) = Some b) as ->; [|done].
  assert (tlv_rest ts !! 0%nat = Some b) as H0 by by rewrite Hr.
  unfold tlv_rest, zslice in H0. rewrite lookup_take_Some, lookup_drop in H0.
  rewrite Nat.add_0_r in H0. apply H0.
Qed.

Lemma not_at_end ts b r : reader_ok ts -> tlv_rest ts = b :: r -> tlv_at_end ts = false.
Proof.
  intros H Hr. rewrite tlv_at_end_reader by done.
  pose proof (rest_zlen_le ts [b] r H Hr) as Hl. change (zlen [b]) with 1 in Hl. lia.
Qed.

(** [if (tlv_at_end(ts)) return (LengthError);] before a read. *)
Lemma decodes_not_at_end {A} (m : T A) b bs v :
  decodes m (b :: bs) v ->
  decodes (let! ts := cget in guard (negb (tlv_at_end ts)) LengthError ;! m) (b :: bs) v.
Proof.
  intros Hm ts rest H Hr. unfold cbind at 1, cget.
  rewrite (not_at_end ts b (bs ++ rest) H Hr). exact (Hm ts rest H Hr).
Qed.

Lemma decodes_read_u8 b : decodes tlv_read_u8 [b] b.
Proof. apply decodes_not_at_end, decodes_getc. Qed.

(** ** Tags *)

Lemma u_step w acc b :
  8 <= w -> 0 <= acc < 2 ^ (w - 8) -> is_byte b ->
  Z.lor (wrap w (Z.shiftl acc 8)) b = acc * 256 + b.
Proof.
  intros Hw Ha Hb. rewrite wrap_small, lor_shiftl_add; [done|lia|exact Hb|].
  rewrite Z.shiftl_mul_pow2 by lia. replace (2 ^ w) with (2 ^ (w - 8) * 2 ^ 8)
    by (rewrite <- Z.pow_add_r by lia; f_equal; lia). lia.
Qed.

Definition be_more (acc : Z) (bs : list Z) : Z := fold_left (fun a b => a * 256 + b) bs acc.

Lemma be_more_val acc bs : be_more acc bs = be_val (acc :: bs).
Proof. done. Qed.

(** The octets after the first of a multi-octet tag: all but the last have bit 8 set. *)
Fixpoint tag_tail (bs : list Z) : bool :=
  match bs with
  | [] => false
  | [b] => b <? 128
  | b :: r => (128 <=? b) && tag_tail r
  end.
(** An encoded tag as ISO7816 defines it, of at most four octets. *)
Definition tag_wf (bs : list Z) : bool :=
  (zlen bs <=? 4) &&
  match bs with
  | [] => false
  | [b] => negb (b mod 32 =? 31)
  | b :: r => (b mod 32 =? 31) && tag_tail r
  end.

Lemma cont_bit b : is_byte b -> (Z.land b TLV_CONT =? TLV_CONT) = (128 <=? b).
Proof.
  intros Hb. unfold is_byte in Hb.
  assert (forallb (fun n => Bool.eqb (Z.land (Z.of_nat n) TLV_CONT =? TLV_CONT) (128 <=? Z.of_nat n))
            (seq 0 256) = true) as H by by vm_compute.
  rewrite forallb_forall in H. specialize (H (Z.to_nat b)).
  rewrite Z2Nat.id in H by lia. apply eqb_prop, H, in_seq. lia.
Qed.

Lemma tag_low b : is_byte b -> Z.land b TLV_TAG_MASK = b mod 32.
Proof.
  intros Hb. unfold is_byte in Hb.
  assert (forallb (fun n => Z.land (Z.of_nat n) TLV_TAG_MASK =? Z.of_nat n mod 32)
            (seq 0 256) = true) as H by by vm_compute.
  rewrite forallb_forall in H. specialize (H (Z.to_nat b)).
  rewrite Z2Nat.id in H by lia. apply Z.eqb_eq, H, in_seq. lia.
Qed.

Lemma decodes_tag_cont bs : forall fuel acc,
  bytes bs -> tag_tail bs = true -> (length bs <= fuel)%nat -> (length bs <= 3)%nat ->
  0 <= acc < 256 ^ (4 - zlen bs) ->
  decodes (tag_cont fuel acc) bs (be_more acc bs).
Proof.
  induction bs as [|b r IH]; intros [|fuel] acc Hb Ht Hf H3 Ha; try done; [cbn in Hf; lia|].
  apply Forall_cons in Hb as [Hb Hbr]. cbn [tag_cont]. apply decodes_not_at_end.
  assert (0 <= acc < 2 ^ (32 - 8)) as Ha'.
  { change (2 ^ (32 - 8)) with (256 ^ 3). split; [lia|]. eapply Z.lt_le_trans; [apply Ha|].
    apply Z.pow_le_mono_r; zlen_lia. }
  apply (decodes_bind _ _ [b] r b); [apply decodes_getc|].
  rewrite u_step, cont_bit by (done || lia).
  destruct r as [|b' r].
  { cbn in Ht. replace (128 <=? b) with false by lia. apply decodes_ret. }
  change (tag_tail (b :: b' :: r)) with ((128 <=? b) && tag_tail (b' :: r)) in Ht.
  apply andb_prop in Ht as [-> Ht].
  apply (IH fuel (acc * 256 + b)); try done; try (cbn in *; lia).
  unfold is_byte in Hb. split; [lia|]. rewrite !zlen_cons in Ha.
  replace (256 ^ (4 - zlen (b' :: r))) with (256 * 256 ^ (4 - (1 + (1 + zlen r)))).
  2:{ rewrite <- Z.pow_succ_r by (unfold zlen in *; cbn in *; lia). f_equal. zlen_lia. }
  lia.
Qed.

(** ** Lengths *)

Lemma decodes_len_octs bs : forall acc,
  bytes bs -> zlen bs <= 7 -> 0 <= acc < 256 ^ (7 - zlen bs) ->
  decodes (len_octs (length bs) acc) bs (be_more acc bs).
Proof.
  induction bs as [|b r IH]; intros acc Hb Hl Ha; [apply decodes_ret|].
  apply Forall_cons in Hb as [Hb Hbr]. cbn [len_octs length].
  rewrite zlen_cons in *. pose proof (zlen_nonneg r).
  assert (0 <= acc < 2 ^ (64 - 8)) as Ha'.
  { change (2 ^ (64 - 8)) with (256 ^ 7). split; [lia|]. eapply Z.lt_le_trans; [apply Ha|].
    apply Z.pow_le_mono_r; lia. }
  apply (decodes_bind _ _ [b] r b); [apply decodes_getc|].
  rewrite u_step by (done || lia). apply (IH (acc * 256 + b)); [done|lia|].
  unfold is_byte in Hb. split; [lia|].
  replace (256 ^ (7 - zlen r)) with (256 * 256 ^ (7 - (1 + zlen r)))
    by (rewrite <- Z.pow_succ_r by lia; f_equal; lia).
  lia.
Qed.

(** [tlv_read_tag]'s length field with [k] octets after the first. *)
Lemma decodes_long_len m bs :
  bytes bs -> 1 <= zlen bs <= 4 -> m = 128 + zlen bs ->
  decodes read_len (m :: bs) (be_val bs).
Proof.
  intros Hb Hl ->. unfold read_len. apply decodes_not_at_end.
  apply (decodes_bind _ _ [_] bs (128 + zlen bs)); [apply decodes_getc|].
  rewrite cont_bit by (unfold is_byte; lia). replace (128 <=? 128 + zlen bs) with true by lia.
  assert (Z.land (128 + zlen bs) (Z.lnot TLV_CONT) = zlen bs) as ->.
  { assert (zlen bs = 1 \/ zlen bs = 2 \/ zlen bs = 3 \/ zlen bs = 4) as Hc by lia.
    by destruct Hc as [->|[->|[->| ->]]]. }
  replace (negb _) with true by lia.
  intros ts rest H Hr. pose proof (rest_zlen_le ts bs rest H Hr) as Hle.
  unfold guard, cbind at 1, cret, cbind at 1, cget. rewrite tlv_rem_reader by done.
  replace (negb _) with true by lia. unfold cbind at 1.
  replace (Z.to_nat (zlen bs)) with (length bs) by (unfold zlen; lia).
  apply (decodes_len_octs bs 0 Hb) with rest; [lia| |done|done].
  split; [lia|]. apply Z.pow_pos_nonneg; lia.
Qed.

Lemma decodes_len_field maxlen n :
  0 <= n < len_limit maxlen -> decodes read_len (len_field maxlen n) n.
Proof.
  intros Hn. unfold len_field, len_limit in *.
  assert (forall k, 0 <= n < 256 ^ Z.of_nat k -> be_val (be_bytes k n) = n) as Hbe.
  { intros k Hk. rewrite be_val_be_bytes by lia. by apply Z.mod_small. }
  destruct (maxlen <? 2 ^ 7); [|destruct (maxlen <? 2 ^ 8); [|destruct (maxlen <? 2 ^ 16)]].
  - unfold read_len. apply decodes_not_at_end. apply (decodes_bind _ _ [n] [] n); [apply decodes_getc|].
    rewrite cont_bit by (unfold is_byte; lia). replace (128 <=? n) with false by lia. apply decodes_ret.
  - change [129; n] with (129 :: [n]). rewrite <- (Z.mod_small n 256) at 1 by lia.
    rewrite <- (Hbe 1%nat) at 2 by (change (256 ^ Z.of_nat 1) with 256; lia).
    by apply (decodes_long_len 129 (be_bytes 1 n)); [apply be_bytes_bytes|..].
  - rewrite <- (Hbe 2%nat) at 2 by (change (256 ^ Z.of_nat 2) with (2 ^ 16); lia).
    by apply decodes_long_len; [apply be_bytes_bytes|..].
  - rewrite <- (Hbe 3%nat) at 2 by (change (256 ^ Z.of_nat 3) with (2 ^ 24); lia).
    by apply decodes_long_len; [apply be_bytes_bytes|..].
Qed.

(** ** Whole objects *)

Lemma decodes_tag_bytes ts bs rest :
  reader_ok ts -> bytes bs -> tag_wf bs = true -> tlv_rest ts = bs ++ rest ->
  (let! d := getc in
   if Z.land d TLV_TAG_MASK =? TLV_TAG_CONT then tag_cont (length (ts_buf ts)) d else cret d) ts
  = (Ok (be_val bs), advance ts (zlen bs)).
Proof.
  intros H Hb Hwf Hr. unfold tag_wf in Hwf. apply andb_prop in Hwf as [H4 Hwf].
  assert (length bs <= length (ts_buf ts))%nat as Hf.
  { pose proof (rest_zlen_le ts bs rest H Hr). reader_facts H. unfold zlen in *. lia. }
  destruct bs as [|b r]; [done|]. apply Forall_cons in Hb as [Hb Hbr].
  refine (decodes_bind getc _ [b] r b _ (decodes_getc b) _ ts rest H Hr).
  rewrite tag_low by done. change TLV_TAG_CONT with 31. rewrite zlen_cons in H4.
  destruct r as [|b' r].
  - replace (b mod 32 =? 31) with false by (destruct (b mod 32 =? 31); done). apply decodes_ret.
  - apply andb_prop in Hwf as [-> Ht]. apply Z.leb_le in H4. unfold zlen in *. cbn [length] in *.
    apply (decodes_tag_cont (b' :: r) (length (ts_buf ts)) b); try done; cbn [length]; try lia.
    unfold is_byte in Hb. split; [lia|]. apply Z.lt_le_trans with (256 ^ 1); [lia|].
    apply Z.pow_le_mono_r; [lia|]. unfold zlen. cbn [length]. lia.
Qed.

(** Enter a context over [body], followed in the buffer by [rest]. *)
Definition enters (ts ts' : tlv_state) (body rest : list Z) : Prop :=
  reader_ok ts' /\ tlv_rest ts' = body /\
  exists tc, ts_stack ts' = tc :: ts_stack ts /\ tc_end tc = ts_pos ts' + zlen body /\
    tc_begin tc = ts_pos ts' /\ ts_buf ts' = ts_buf ts /\ ts_root ts' = ts_root ts /\
    ts_freebuf ts' = ts_freebuf ts /\ ts_debug ts' = ts_debug ts.

Lemma read_tag_enters ts tag maxlen body rest :
  reader_ok ts -> 0 <= tag < 2 ^ 32 -> tag_wf (short_be tag) = true ->
  zlen body < len_limit maxlen -> tlv_rest ts = tlv_object tag maxlen body ++ rest ->
  exists ts', tlv_read_tag ts = (Ok tag, ts') /\ enters ts ts' body rest /\
    ts_pos ts' + zlen body = ts_pos ts + zlen (tlv_object tag maxlen body).
Proof.
  intros H Ht Hwf Hl Hr. pose proof (zlen_nonneg body) as Hz. unfold tlv_object in *.
  rewrite <- !app_assoc in Hr. set (tb := short_be tag) in *. set (lf := len_field _ _) in *.
  assert (tlv_at_end ts = false) as He.
  { destruct tb as [|b tb']; [done|]. by apply (not_at_end ts b (tb' ++ lf ++ body ++ rest)). }
  unfold tlv_read_tag, cbind at 1, cget. rewrite He. unfold guard, cbind at 1, cret at 1, negb.
  pose proof (decodes_tag_bytes ts tb _ H (short_be_bytes tag) Hwf Hr) as E1.
  destruct (rest_advance ts tb _ H Hr) as [H1 Hr1].
  assert (decodes read_len lf (zlen body)) as Hlf by (apply decodes_len_field; lia).
  pose proof (Hlf _ _ H1 Hr1) as E2. destruct (rest_advance _ _ _ H1 Hr1) as [H2 Hr2].
  rewrite <- cbind_assoc.
  rewrite (cbind_ok _ _ _ _ _ E1). unfold cbind at 1, cgets. rewrite (cbind_ok _ _ _ _ _ E2).
  set (ts2 := advance (advance ts _) _) in *. pose proof (rest_zlen_le ts2 body rest H2 Hr2) as Hle.
  unfold cbind at 1, cget. rewrite tlv_rem_reader, tlv_root_rem_reader by done.
  pose proof (reader_now ts2 H2) as Hnow.
  replace (_ <? zlen body) with false by lia. replace (_ <? zlen body) with false by lia.
  replace (be_val tb) with tag by (symmetry; by apply be_val_short_be).
  eexists. split; [reflexivity|]. 
  destruct (nested_push ts2 (zlen body) (ts_pos (advance ts (zlen tb))) H2 ltac:(lia))
    as (H3 & _ & _ & _).
  assert (ts_pos ts2 + zlen body < 2 ^ 64) by (destruct H2; lia).
  rewrite wrap_small in * by (destruct H2; lia).
  split; [split_and!; [done| |eexists; split_and!; try reflexivity]|].
  - unfold tlv_rest, ts_now. cbn. rewrite Z.add_simpl_l.
    assert (body = take (Z.to_nat (zlen body)) (tlv_rest ts2)) as Hb.
    { rewrite Hr2. unfold zlen. by rewrite Nat2Z.id, take_app_length. }
    etrans; [|symmetry; exact Hb]. unfold tlv_rest, zslice. rewrite take_take. f_equal. lia.
  - cbn. rewrite !zlen_app. lia.
Qed.

(** [tlv_end] after the whole body was read restores the state before the tag,
    moved past the object. *)
Lemma end_leaves ts ts' body rest n :
  enters ts ts' body rest -> ts_pos ts' + zlen body = ts_pos ts + n ->
  tlv_end (advance ts' (zlen body)) = (Ok tt, advance ts n).
Proof.
  intros (H & _ & tc & Hst & He & Hb & Hbuf & Hroot & Hf & Hd) Hp. unfold tlv_end.
  assert (tlv_ctx_pop (advance ts' (zlen body)) = (Ok tc, advance ts n)) as E.
  { unfold tlv_ctx_pop, advance. cbn. rewrite Hst. unfold with_stack, with_pos. cbn.
    by rewrite Hroot, Hbuf, Hf, Hd, Hp. }
  rewrite (cbind_ok _ _ _ _ _ E). unfold cbind at 1, cgets. cbn. pose proof (zlen_nonneg body).
  replace (tc_begin tc <=? _) with true by lia. cbn.
  by replace (_ =? tc_end tc) with true by lia.
Qed.

(** Read one tagged object with [body] as the reader of its contents. *)
Definition read_object {A} (body : T A) : T (Z * A) :=
  let! tag := tlv_read_tag in
  let! v := body in
  tlv_end ;! cret (tag, v).

Lemma decodes_object {A} tag maxlen (body : T A) bs v :
  0 <= tag < 2 ^ 32 -> tag_wf (short_be tag) = true -> zlen bs < len_limit maxlen ->
  decodes_all body bs v ->
  decodes (read_object body) (tlv_object tag maxlen bs) (tag, v).
Proof.
  intros Ht Hwf Hl Hb ts rest H Hr.
  destruct (read_tag_enters ts tag maxlen bs rest H Ht Hwf Hl Hr) as (ts1 & E1 & En & Hp).
  unfold read_object. rewrite (cbind_ok _ _ _ _ _ E1).
  destruct (En) as (H1 & Hr1 & _). rewrite (cbind_ok _ _ _ _ _ (Hb ts1 H1 Hr1)).
  by rewrite (cbind_ok _ _ _ _ _ (end_leaves _ _ _ _ _ En Hp)).
Qed.

Lemma decodes_getn bs : decodes (getn (zlen bs)) bs bs.
Proof.
  intros ts rest H Hr. pose proof (rest_zlen_le ts bs rest H Hr) as Hle. pose proof (zlen_nonneg bs).
  assert (bs = take (Z.to_nat (zlen bs)) (tlv_rest ts)) as Hb.
  { rewrite Hr. unfold zlen. by rewrite Nat2Z.id, take_app_length. }
  unfold getn. reader_facts H. replace (_ && _ && _) with true by lia. do 2 f_equal.
  etrans; [|symmetry; exact Hb]. unfold tlv_rest, zslice. rewrite take_take. f_equal. lia.
Qed.

Lemma decodes_read_alloc bs : decodes_all tlv_read_alloc bs bs.
Proof.
  intros ts H Hr. unfold tlv_read_alloc, cbind at 1, cget.
  rewrite tlv_rem_reader, <- zlen_rest, Hr by done. apply (decodes_getn bs ts []); [done|].
  by rewrite app_nil_r.
Qed.

Lemma decodes_tlv_read bs : decodes_all (tlv_read (zlen bs)) bs bs.
Proof.
  intros ts H Hr. unfold tlv_read, cbind at 1, cget.
  rewrite tlv_rem_reader, <- zlen_rest, Hr, Z.eqb_refl by done.
  apply (decodes_getn bs ts []); [done|]. by rewrite app_nil_r.
Qed.

Lemma decodes_u8to32_loop bs : forall fuel acc,
  bytes bs -> (length bs < fuel)%nat -> zlen bs <= 4 -> 0 <= acc < 256 ^ (4 - zlen bs) ->
  decodes_all (u8to32_loop fuel acc) bs (be_more acc bs).
Proof.
  induction bs as [|b r IH]; intros [|fuel] acc Hb Hf Hl Ha ts H Hr; try (cbn in Hf; lia);
    cbn [u8to32_loop]; unfold cbind at 1, cget.
  { rewrite tlv_at_end_reader by done. pose proof (zlen_rest ts H) as Hz. rewrite Hr in Hz.
    change (zlen []) with 0 in Hz. replace (_ <=? _) with true by lia. by rewrite advance_0. }
  rewrite (not_at_end ts b r H Hr). apply Forall_cons in Hb as [Hb Hbr].
  rewrite zlen_cons in *. pose proof (zlen_nonneg r). cbn in Hf.
  assert (0 <= acc < 2 ^ (32 - 8)) as Ha'.
  { change (2 ^ (32 - 8)) with (256 ^ 3). split; [lia|]. eapply Z.lt_le_trans; [apply Ha|].
    apply Z.pow_le_mono_r; lia. }
  rewrite <- (zlen_cons b r).
  apply (decodes_all_bind getc _ [b] r b); [apply decodes_getc| |done|exact Hr].
  rewrite u_step by (done || lia). apply (IH fuel (acc * 256 + b)); [done|lia|lia|].
  unfold is_byte in Hb. split; [lia|].
  replace (256 ^ (4 - zlen r)) with (256 * 256 ^ (4 - (1 + zlen r)))
    by (rewrite <- Z.pow_succ_r by lia; f_equal; lia).
  lia.
Qed.

Lemma decodes_u8to32 v :
  0 < v < 2 ^ 32 -> decodes_all tlv_read_u8to32 (short_be v) v.
Proof.
  intros Hv ts H Hr. unfold tlv_read_u8to32, cbind at 1, cget.
  rewrite !tlv_rem_reader, <- !zlen_rest, Hr by done. pose proof (zlen_short_be v).
  assert (be_val (short_be v) = v) as Hval by (apply be_val_short_be; lia).
  assert (1 <= zlen (short_be v)).
  { pose proof (zlen_nonneg (short_be v)). destruct (short_be v); [cbn in Hval; lia|]. zlen_lia. }
  replace (negb _) with true by lia. replace (negb _) with true by lia.
  enough (decodes_all (u8to32_loop 5 0) (short_be v) (be_val (short_be v))) as Hd.
  { rewrite Hval in Hd. by apply Hd. }
  apply (decodes_u8to32_loop (short_be v) 5 0); [apply short_be_bytes| |done|].
  - unfold zlen in *. lia.
  - split; [lia|]. apply Z.pow_pos_nonneg; lia.
Qed.

(** * Nested objects: writing, the encoding and reading *)

(** A TLV tree and, at each object, the [maxlen] its writer passes to [tlv_pushl]. *)
Inductive tlv_tree :=
| Prim (tag maxlen : Z) (bs : list Z)
| Cons (tag maxlen : Z) (kids : list tlv_tree).

Section TreeInd.
Variable P : tlv_tree -> Prop.
Hypothesis HP : forall tag ml bs, P (Prim tag ml bs).
Hypothesis HC : forall tag ml kids, Forall P kids -> P (Cons tag ml kids).
Fixpoint tlv_tree_ind' (t : tlv_tree) : P t :=
  match t with
  | Prim tag ml bs => HP tag ml bs
  | Cons tag ml kids =>
      HC tag ml kids ((fix go ks : Forall P ks :=
        match ks with
        | [] => Forall_nil_2 P
        | k :: ks => Forall_cons_2 P k ks (tlv_tree_ind' k) (go ks)
        end) kids)
  end.
End TreeInd.

(** The bytes of a tree. *)
Fixpoint enc_tree (t : tlv_tree) : list Z :=
  match t with
  | Prim tag ml bs => tlv_object tag ml bs
  | Cons tag ml kids => tlv_object tag ml (concat (map enc_tree kids))
  end.

Definition tag_ok (tag maxlen : Z) : bool :=
  (0 <=? tag) && (tag <? 2 ^ 32) && tag_wf (short_be tag) && (maxlen <? 2 ^ 24).

(** Every tag is a well-formed ISO7816 tag and every body fits its length field. *)
Fixpoint tree_ok (t : tlv_tree) : bool :=
  match t with
  | Prim tag ml bs =>
      tag_ok tag ml && (zlen bs <? len_limit ml)
      && forallb (fun b => (0 <=? b) && (b <? 256)) bs
  | Cons tag ml kids =>
      tag_ok tag ml && (zlen (concat (map enc_tree kids)) <? len_limit ml) && forallb tree_ok kids
  end.

(** Writing with [tlv_pushl]/[tlv_write]/[tlv_pop]. *)
Fixpoint write_tree (t : tlv_tree) : T unit :=
  match t with
  | Prim tag ml bs => tlv_pushl tag ml ;! tlv_write bs ;! tlv_pop
  | Cons tag ml kids =>
      tlv_pushl tag ml ;!
      fold_right (fun k m => write_tree k ;! m) (cret tt) kids ;!
      tlv_pop
  end.

(** Reading with [tlv_read_tag]/[tlv_read_alloc]/[tlv_end], given only which
    objects are primitive and how many children each other one has. *)
Fixpoint read_tree (shape : tlv_tree) : T tlv_tree :=
  match shape with
  | Prim _ ml _ =>
      let! x := read_object tlv_read_alloc in cret (Prim (fst x) ml (snd x))
  | Cons _ ml kids =>
      let! x := read_object
        (fold_right (fun k m => let! x := read_tree k in let! xs := m in cret (x :: xs))
           (cret []) kids) in
      cret (Cons (fst x) ml (snd x))
  end.

Lemma tag_ok_spec tag ml : tag_ok tag ml = true ->
  0 <= tag < 2 ^ 32 /\ tag_wf (short_be tag) = true /\ ml < 2 ^ 24.
Proof. unfold tag_ok. rewrite !andb_true_iff, Z.leb_le, !Z.ltb_lt. tauto. Qed.

Lemma emits_tree t : tree_ok t = true -> emits (write_tree t) (enc_tree t).
Proof.
  induction t as [tag ml bs|tag ml kids IH] using tlv_tree_ind'; cbn [tree_ok write_tree enc_tree].
  - rewrite !andb_true_iff, Z.ltb_lt. intros [[(? & _ & ?)%tag_ok_spec ?] _].
    apply emits_object; try done. apply emits_write.
  - rewrite !andb_true_iff, Z.ltb_lt, forallb_forall. intros [[(? & _ & ?)%tag_ok_spec ?] Hk].
    apply emits_object; try done. clear -IH Hk. induction IH as [|k ks Hk' _ IHks]; [apply emits_ret|].
    cbn. apply emits_seq; [apply Hk', Hk; by left|apply IHks; intros; apply Hk; by right].
Qed.

Lemma decodes_map {A B} (m : T A) (f : A -> B) bs v :
  decodes m bs v -> decodes (let! x := m in cret (f x)) bs (f v).
Proof.
  intros H. rewrite <- (app_nil_r bs). apply (decodes_bind _ _ bs [] v); [done|apply decodes_ret].
Qed.

Lemma decodes_tree t : tree_ok t = true -> decodes (read_tree t) (enc_tree t) t.
Proof.
  induction t as [tag ml bs|tag ml kids IH] using tlv_tree_ind'; cbn [tree_ok read_tree enc_tree].
  - rewrite !andb_true_iff, Z.ltb_lt. intros [[(? & ? & ?)%tag_ok_spec ?] _].
    apply (decodes_map _ (fun x => Prim (fst x) ml (snd x)) _ (tag, bs)), decodes_object; try done.
    apply decodes_read_alloc.
  - rewrite !andb_true_iff, Z.ltb_lt, forallb_forall. intros [[(? & ? & ?)%tag_ok_spec ?] Hk].
    apply (decodes_map _ (fun x => Cons (fst x) ml (snd x)) _ (tag, kids)), decodes_object; try done.
    apply decodes_decodes_all. clear -IH Hk.
    induction IH as [|k ks Hk' _ IHks]; [apply decodes_ret|]. cbn.
    apply (decodes_bind _ _ _ _ k); [apply Hk', Hk; by left|].
    apply (decodes_map _ (cons k)), IHks. intros; apply Hk; by right.
Qed.

Lemma writer_init : writer_ok tlv_init_write.
Proof. constructor; [done|by vm_compute|]. cbn. unfold MAX_APDU_SIZE. lia. Qed.

Lemma written_init : tlv_written tlv_init_write = [].
Proof. done. Qed.

(** A program that [emits bs] from a fresh writer leaves exactly [bs] in it. *)
Lemma emits_init m bs :
  emits m bs -> zlen bs <= MAX_APDU_SIZE ->
  exists ts, m tlv_init_write = (Ok tt, ts) /\ tlv_written ts = bs /\ ts_stack ts = [].
Proof.
  intros Hm Hl. destruct (Hm tlv_init_write writer_init) as (ts & E & _ & Hw & Hs); [cbn; lia|].
  exists ts. split_and!; [done| |done]. by rewrite Hw, written_init.
Qed.

Lemma rest_init bs : zlen bs < 2 ^ 63 -> tlv_rest (tlv_init bs 0 (zlen bs)) = bs.
Proof.
  intros. pose proof (zlen_nonneg bs). unfold tlv_rest, ts_now, tlv_init.
  cbn [ts_buf ts_pos ts_stack ts_root tc_end]. rewrite wrap_small, Z.sub_0_r by lia. apply zslice_all.
Qed.

(** A program that [decodes bs] run on a reader over exactly [bs]. *)
Lemma decodes_all_init {A} (m : T A) bs v :
  decodes_all m bs v -> bytes bs -> zlen bs < 2 ^ 63 ->
  m (tlv_init bs 0 (zlen bs)) = (Ok v, advance (tlv_init bs 0 (zlen bs)) (zlen bs)).
Proof.
  intros Hm Hb Hl. pose proof (zlen_nonneg bs).
  apply Hm; [apply tlv_init_reader; done || lia|by apply rest_init].
Qed.

Lemma len_field_bytes ml n : 0 <= n < len_limit ml -> bytes (len_field ml n).
Proof.
  unfold len_limit, len_field. intros Hn.
  destruct (ml <? 2 ^ 7), (ml <? 2 ^ 8), (ml <? 2 ^ 16);
    (apply Forall_cons_2; [unfold is_byte; lia|]); try apply be_bytes_bytes; try apply Forall_nil_2;
    (apply Forall_cons_2; [unfold is_byte; lia|apply Forall_nil_2]).
Qed.

Lemma object_bytes tag ml bs : zlen bs < len_limit ml -> bytes bs -> bytes (tlv_object tag ml bs).
Proof.
  intros Hl Hb. unfold tlv_object. rewrite !Forall_app. split_and!; [apply short_be_bytes| |done].
  apply len_field_bytes. pose proof (zlen_nonneg bs). lia.
Qed.

Lemma enc_tree_bytes t : tree_ok t = true -> bytes (enc_tree t).
Proof.
  induction t as [tag ml bs|tag ml kids IH] using tlv_tree_ind'; cbn [tree_ok enc_tree];
    rewrite !andb_true_iff, Z.ltb_lt, forallb_forall; intros [[_ Hl] Hk];
    apply object_bytes; try done.
  - apply Forall_forall. intros b Hb%list_elem_of_In%Hk. unfold is_byte. lia.
  - clear Hl. induction IH as [|k ks Hk' _ IHks]; [constructor|]. cbn. apply Forall_app.
    split; [apply Hk', Hk; by left|apply IHks; intros; apply Hk; by right].
Qed.

(** C15: TLV round trip. A tree of nested objects (each tag a well-formed
    ISO7816 tag of up to four octets, each body within the length field its
    [tlv_pushl] reserves, the whole within the 16 KiB buffer) is written by
    [tlv_pushl]/[tlv_write]/[tlv_pop] without failing, the buffer holds exactly its
    BER encoding, and reading that encoding back with
    [tlv_read_tag]/[tlv_read_alloc]/[tlv_end] returns the same tree and
    consumes all of it. *)
Theorem tlv_tree_roundtrip t :
  tree_ok t = true -> zlen (enc_tree t) <= MAX_APDU_SIZE ->
  exists ts, write_tree t tlv_init_write = (Ok tt, ts) /\
    tlv_written ts = enc_tree t /\ ts_stack ts = [] /\
    let rd := tlv_init (tlv_written ts) 0 (tlv_len ts) in
    exists rd', read_tree t rd = (Ok t, rd') /\ tlv_at_end rd' = true.
Proof.
  intros Hok Hl. destruct (emits_init _ _ (emits_tree t Hok) Hl) as (ts & E & Hw & Hs).
  exists ts. split_and!; [done..|]. 
  assert (writer_ok ts) as Hwo.
  { destruct (emits_tree t Hok _ writer_init) as (ts1 & E1 & W1 & _); [cbn; lia|]. congruence. }
  unfold tlv_len. rewrite <- (zlen_written ts Hwo), Hw.
  assert (MAX_APDU_SIZE < 2 ^ 63) by reflexivity.
  eexists. split; [apply decodes_all_init;
    [by apply decodes_decodes_all, decodes_tree|by apply enc_tree_bytes|lia]|].
  unfold tlv_at_end, tlv_at_root_end. cbn. pose proof (zlen_nonneg (enc_tree t)).
  rewrite wrap_small by lia. by rewrite Z.leb_refl.
Qed.

Definition sample_tree : tlv_tree :=
  Cons 0x7F49 255 [Prim 0x86 127 [4; 1; 2]; Prim 0x5FC102 70000 [9; 0; 255]].

Lemma tlv_tree_roundtrip_witness :
  enc_tree sample_tree = [127; 73; 129; 15; 134; 3; 4; 1; 2; 95; 193; 2; 131; 0; 0; 3; 9; 0; 255] /\
  exists ts, write_tree sample_tree tlv_init_write = (Ok tt, ts) /\
    tlv_written ts = enc_tree sample_tree /\ ts_stack ts = [] /\
    let rd := tlv_init (tlv_written ts) 0 (tlv_len ts) in
    exists rd', read_tree sample_tree rd = (Ok sample_tree, rd') /\ tlv_at_end rd' = true.
Proof.
  split; [vm_compute; reflexivity|].
  refine (tlv_tree_roundtrip sample_tree _ _); vm_compute; [reflexivity|discriminate].
Defined.

(** [tlv_write_u8to32] and [tlv_read_u8to32] inside one object. Every value
    from 1 to 2^32 - 1 is read back as written; for 0 the writer emits no
    octet at all and the reader rejects the empty body with [LengthError]. *)
Theorem tlv_u8to32_roundtrip tag v :
  tag_ok tag 127 = true -> 0 <= v < 2 ^ 32 ->
  emits (tlv_push tag ;! tlv_write_u8to32 v ;! tlv_pop) (tlv_object tag 127 (short_be v)) /\
  let bs := tlv_object tag 127 (short_be v) in
  fst (read_object tlv_read_u8to32 (tlv_init bs 0 (zlen bs))) =
    if v =? 0 then Er LengthError else Ok (tag, v).
Proof.
  intros (Ht & Hwf & _)%tag_ok_spec Hv. pose proof (zlen_short_be v) as Hl.
  assert (zlen (short_be v) < len_limit 127) by (change (len_limit 127) with 128; lia).
  split; [apply (emits_object tag 127); [done|lia|done|by apply emits_write_u8to32]|]. cbn zeta.
  set (bs := tlv_object _ _ _).
  assert (bytes bs) by (apply object_bytes; [done|apply short_be_bytes]).
  assert (zlen bs < 2 ^ 63).
  { unfold bs, tlv_object. rewrite !zlen_app, zlen_len_field. change (len_extra 127) with 0.
    pose proof (zlen_short_be tag). lia. }
  destruct (Z.eqb_spec v 0) as [->|Hv0].
  - assert (reader_ok (tlv_init bs 0 (zlen bs))) as Hr
      by (apply tlv_init_reader; done || apply zlen_nonneg || lia).
    destruct (read_tag_enters (tlv_init bs 0 (zlen bs)) tag 127 [] [])
      as (ts1 & E1 & (Hok1 & Hr1 & _) & _); [done..| |].
    { by rewrite rest_init, app_nil_r. }
    unfold read_object. rewrite (cbind_ok _ _ _ _ _ E1).
    unfold tlv_read_u8to32, cbind, cget. rewrite tlv_rem_reader, <- zlen_rest, Hr1 by done. done.
  - rewrite (decodes_all_init _ _ (tag, v)); [done| |done|done].
    apply decodes_decodes_all, decodes_object; try done. apply decodes_u8to32. lia.
Qed.

Lemma tlv_u8to32_roundtrip_witness :
  emits (tlv_push 0xC1 ;! tlv_write_u8to32 0 ;! tlv_pop) (tlv_object 0xC1 127 (short_be 0)) /\
  let bs := tlv_object 0xC1 127 (short_be 0) in
  fst (read_object tlv_read_u8to32 (tlv_init bs 0 (zlen bs))) =
    if 0 =? 0 then Er LengthError else Ok (0xC1, 0).
Proof. apply (tlv_u8to32_roundtrip 0xC1 0); [vm_compute; reflexivity|lia]. Defined.
