(* ===== verification/Sshbuf.v ===== *)
(** * Growable buffers (libssh/sshbuf.c, libssh/sshbuf.h)

    [sshbuf] is the C structure: [sb_data] is the allocation behind [d]/[cd], of
    [sb_alloc] bytes; the readable bytes are those from [sb_off] to [sb_size]. A
    pointer into the buffer is an offset into [sb_data]. Errors are the SSH_ERR
    codes. [calloc]/[realloc] succeed; the bytes [realloc] adds are
    indeterminate in C, the model puts zeros there and no operation reads them. *)
From stdpp Require Import base list strings relations.
From Stdlib Require Import ZArith Lia.
From S2P Require Import Prelude.

Local Open Scope Z_scope.
Local Open Scope c_scope.

Definition SSHBUF_SIZE_MAX : Z := 0x8000000.
Definition SSHBUF_REFS_MAX : Z := 0x100000.
Definition SSHBUF_MAX_BIGNUM : Z := 16384 / 8.
Definition SSHBUF_MAX_ECPOINT : Z := 528 * 2 / 8 + 1.
Definition SSHBUF_SIZE_INIT : Z := 256.
Definition SSHBUF_SIZE_INC : Z := 256.
Definition SSHBUF_PACK_MIN : Z := 8192.

Definition SSH_ERR_INTERNAL_ERROR : Z := -1.
Definition SSH_ERR_ALLOC_FAIL : Z := -2.
Definition SSH_ERR_MESSAGE_INCOMPLETE : Z := -3.
Definition SSH_ERR_INVALID_FORMAT : Z := -4.
Definition SSH_ERR_BIGNUM_IS_NEGATIVE : Z := -5.
Definition SSH_ERR_STRING_TOO_LARGE : Z := -6.
Definition SSH_ERR_BIGNUM_TOO_LARGE : Z := -7.
Definition SSH_ERR_ECPOINT_TOO_LARGE : Z := -8.
Definition SSH_ERR_NO_BUFFER_SPACE : Z := -9.
Definition SSH_ERR_INVALID_ARGUMENT : Z := -10.
Definition SSH_ERR_BUFFER_READ_ONLY : Z := -49.

Record sshbuf := Sshbuf {
  sb_data : list Z;
  sb_off : Z;
  sb_size : Z;
  sb_max_size : Z;
  sb_alloc : Z;
  sb_readonly : bool;
  sb_dont_free : bool;
  sb_refcount : Z;
  sb_parent : bool
}.

Definition with_range (b : sshbuf) (data : list Z) (off size alloc : Z) : sshbuf :=
  Sshbuf data off size (sb_max_size b) alloc (sb_readonly b) (sb_dont_free b) (sb_refcount b)
    (sb_parent b).
Definition with_max (b : sshbuf) (max : Z) : sshbuf :=
  Sshbuf (sb_data b) (sb_off b) (sb_size b) max (sb_alloc b) (sb_readonly b) (sb_dont_free b)
    (sb_refcount b) (sb_parent b).

Abbreviation B := (M Z sshbuf).

Definition ROUNDUP (x y : Z) : Z := (x + (y - 1)) / y * y.

(** [sshbuf_check_sanity]; a failure raises [SIGSEGV]. *)
Definition sane (b : sshbuf) : bool :=
  negb ((sb_refcount b <? 1) || (SSHBUF_REFS_MAX <? sb_refcount b)
        || (sb_dont_free b && (sb_readonly b || sb_parent b))
        || (SSHBUF_SIZE_MAX <? sb_max_size b) || (sb_max_size b <? sb_alloc b)
        || (sb_alloc b <? sb_size b) || (sb_size b <? sb_off b)).
Definition sshbuf_check_sanity : B unit := let! b := cget in verify (sane b).

Definition shared (b : sshbuf) : bool := sb_readonly b || (1 <? sb_refcount b).

Definition sshbuf_maybe_pack (force : bool) : B unit :=
  cmodify (fun b =>
    if (sb_off b =? 0) || shared b then b
    else if force || ((SSHBUF_PACK_MIN <=? sb_off b) && (sb_size b / 2 <=? sb_off b))
    then with_range b
           (zsplice (sb_data b) 0 (zslice (sb_data b) (sb_off b) (sb_size b - sb_off b)))
           0 (sb_size b - sb_off b) (sb_alloc b)
    else b).

(** ** Creation *)

Definition sshbuf_new : sshbuf :=
  Sshbuf (zrepeat SSHBUF_SIZE_INIT 0) 0 0 SSHBUF_SIZE_MAX SSHBUF_SIZE_INIT false false 1 false.
Definition sshbuf_init : sshbuf :=
  Sshbuf (zrepeat SSHBUF_SIZE_INIT 0) 0 0 SSHBUF_SIZE_MAX SSHBUF_SIZE_INIT false true 1 false.
Definition sshbuf_from (blob : list Z) : option sshbuf :=
  if SSHBUF_SIZE_MAX <? zlen blob then None
  else Some (Sshbuf blob 0 (zlen blob) (zlen blob) (zlen blob) true false 1 false).

Definition realloc (d : list Z) (n : Z) : list Z := take (Z.to_nat n) (d ++ zrepeat n 0).

Definition sshbuf_reset : B unit :=
  let! b := cget in
  if shared b then cput (with_range b (sb_data b) (sb_size b) (sb_size b) (sb_alloc b))
  else
    sshbuf_check_sanity ;!
    let d := zrepeat (sb_alloc b) 0 in
    if negb (sb_alloc b =? SSHBUF_SIZE_INIT)
    then cput (with_range b (realloc d SSHBUF_SIZE_INIT) 0 0 SSHBUF_SIZE_INIT)
    else cput (with_range b d 0 0 (sb_alloc b)).

Definition sshbuf_set_max_size (max_size : Z) : B unit :=
  sshbuf_check_sanity ;!
  let! b := cget in
  if max_size =? sb_max_size b then cret tt
  else
    guard (negb (shared b)) SSH_ERR_BUFFER_READ_ONLY ;!
    guard (negb (SSHBUF_SIZE_MAX <? max_size)) SSH_ERR_NO_BUFFER_SPACE ;!
    sshbuf_maybe_pack (max_size <? sb_size b) ;!
    let! b := cget in
    (if (max_size <? sb_alloc b) && (sb_size b <? max_size) then
       let rlen := if sb_size b <? SSHBUF_SIZE_INIT then SSHBUF_SIZE_INIT
                   else ROUNDUP (sb_size b) SSHBUF_SIZE_INC in
       let rlen := if max_size <? rlen then max_size else rlen in
       let d := zsplice (sb_data b) (sb_size b) (zrepeat (sb_alloc b - sb_size b) 0) in
       cput (with_range b (realloc d rlen) (sb_off b) (sb_size b) rlen)
     else cret tt) ;!
    let! b := cget in
    guard (negb (max_size <? sb_alloc b)) SSH_ERR_NO_BUFFER_SPACE ;!
    cput (with_max b max_size).

(** ** Size, space and position *)

Definition sshbuf_len : B Z :=
  sshbuf_check_sanity ;! cgets (fun b => sb_size b - sb_off b).
Definition sshbuf_avail : B Z :=
  sshbuf_check_sanity ;!
  cgets (fun b => if shared b then 0 else sb_max_size b - (sb_size b - sb_off b)).
Definition sshbuf_ptr : B Z := sshbuf_check_sanity ;! cgets sb_off.

Definition sshbuf_check_reserve (len : Z) : B unit :=
  sshbuf_check_sanity ;!
  let! b := cget in
  guard (negb (shared b)) SSH_ERR_BUFFER_READ_ONLY ;!
  guard (negb ((sb_max_size b <? len) || (sb_max_size b - len <? sb_size b - sb_off b)))
    SSH_ERR_NO_BUFFER_SPACE.

Definition sshbuf_allocate (len : Z) : B unit :=
  sshbuf_check_reserve len ;!
  let! b := cget in
  sshbuf_maybe_pack (sb_max_size b <? usize (sb_size b + len)) ;!
  let! b := cget in
  if usize (len + sb_size b) <=? sb_alloc b then cret tt
  else
    let need := usize (len + sb_size b - sb_alloc b) in
    let rlen := ROUNDUP (sb_alloc b + need) SSHBUF_SIZE_INC in
    let rlen := if sb_max_size b <? rlen then sb_alloc b + need else rlen in
    cput (with_range b (realloc (sb_data b) rlen) (sb_off b) (sb_size b) rlen) ;!
    sshbuf_check_reserve len.

(** Returns [*dpp]: where the reserved bytes start. *)
Definition sshbuf_reserve (len : Z) : B Z :=
  sshbuf_allocate len ;!
  let! b := cget in
  cput (with_range b (sb_data b) (sb_off b) (usize (sb_size b + len)) (sb_alloc b)) ;!
  cret (sb_size b).

Definition sshbuf_consume (len : Z) : B unit :=
  sshbuf_check_sanity ;!
  if len =? 0 then cret tt
  else
    let! n := sshbuf_len in
    guard (negb (n <? len)) SSH_ERR_MESSAGE_INCOMPLETE ;!
    cmodify (fun b => with_range b (sb_data b) (sb_off b + len) (sb_size b) (sb_alloc b)).

Definition sshbuf_consume_end (len : Z) : B unit :=
  sshbuf_check_sanity ;!
  if len =? 0 then cret tt
  else
    let! n := sshbuf_len in
    guard (negb (n <? len)) SSH_ERR_MESSAGE_INCOMPLETE ;!
    cmodify (fun b => with_range b (sb_data b) (sb_off b) (sb_size b - len) (sb_alloc b)).

(** [memcpy(v, p, len)] from the allocation and [memcpy(p, v, len)] into it. *)
Definition peek (p len : Z) : B (list Z) :=
  fun b => if (0 <=? p) && (0 <=? len) && (p + len <=? zlen (sb_data b))
           then (Ok (zslice (sb_data b) p len), b) else (Fault, b).
Definition poke (p : Z) (v : list Z) : B unit :=
  fun b => if (0 <=? p) && (p + zlen v <=? zlen (sb_data b))
           then (Ok tt, with_range b (zsplice (sb_data b) p v) (sb_off b) (sb_size b) (sb_alloc b))
           else (Fault, b).

(** PEEK_U16/U32/U64: the bytes shifted into place and ored. *)
Definition PEEK_U (w : Z) (bs : list Z) : Z :=
  fold_left (fun acc b => Z.lor (wrap w (Z.shiftl acc 8)) b) bs 0.
(** POKE_U16/U32/U64: [n] bytes, the most significant first. *)
Fixpoint POKE_U (n : nat) (v : Z) : list Z :=
  match n with
  | O => []
  | S n' => Z.land (Z.shiftr v (8 * Z.of_nat n')) 255 :: POKE_U n' v
  end.

(** ** Reading *)

Definition sshbuf_get (len : Z) : B (list Z) :=
  let! p := sshbuf_ptr in
  sshbuf_consume len ;! peek p len.

Definition sshbuf_get_u64 : B Z :=
  let! p := sshbuf_ptr in
  sshbuf_consume 8 ;! let! d := peek p 8 in cret (PEEK_U 64 d).
Definition sshbuf_get_u32 : B Z :=
  let! p := sshbuf_ptr in
  sshbuf_consume 4 ;! let! d := peek p 4 in cret (PEEK_U 32 d).
Definition sshbuf_get_u16 : B Z :=
  let! p := sshbuf_ptr in
  sshbuf_consume 2 ;! let! d := peek p 2 in cret (PEEK_U 16 d).
Definition sshbuf_get_u8 : B Z :=
  let! p := sshbuf_ptr in
  sshbuf_consume 1 ;! let! d := peek p 1 in cret (PEEK_U 8 d).

(** The pointer and the length of the string at the front. *)
Definition sshbuf_peek_string_direct : B (Z * Z) :=
  let! p := sshbuf_ptr in
  let! n := sshbuf_len in
  guard (negb (n <? 4)) SSH_ERR_MESSAGE_INCOMPLETE ;!
  let! d := peek p 4 in
  let len := PEEK_U 32 d in
  guard (negb (SSHBUF_SIZE_MAX - 4 <? len)) SSH_ERR_STRING_TOO_LARGE ;!
  guard (negb (n - 4 <? len)) SSH_ERR_MESSAGE_INCOMPLETE ;!
  cret (p + 4, len).

Definition sshbuf_peek_string8_direct : B (Z * Z) :=
  let! p := sshbuf_ptr in
  let! n := sshbuf_len in
  guard (negb (n <? 1)) SSH_ERR_MESSAGE_INCOMPLETE ;!
  let! d := peek p 1 in
  let len := PEEK_U 8 d in
  guard (negb (SSHBUF_SIZE_MAX - 1 <? len)) SSH_ERR_STRING_TOO_LARGE ;!
  guard (negb (n - 1 <? len)) SSH_ERR_MESSAGE_INCOMPLETE ;!
  cret (p + 1, len).

(** [if (sshbuf_consume(...) != 0) return (SSH_ERR_INTERNAL_ERROR);] *)
Definition consume_internal (len : Z) : B unit :=
  cmaperr (fun _ => SSH_ERR_INTERNAL_ERROR) (sshbuf_consume len).

Definition sshbuf_get_string_direct : B (Z * Z) :=
  let! pl := sshbuf_peek_string_direct in
  consume_internal (usize (snd pl + 4)) ;! cret pl.
Definition sshbuf_get_string8_direct : B (Z * Z) :=
  let! pl := sshbuf_peek_string8_direct in
  consume_internal (usize (snd pl + 1)) ;! cret pl.

Definition sshbuf_get_string : B (list Z) :=
  let! pl := sshbuf_get_string_direct in peek (fst pl) (snd pl).
Definition sshbuf_get_string8 : B (list Z) :=
  let! pl := sshbuf_get_string8_direct in peek (fst pl) (snd pl).
(** The same with [malloc_conceal]. *)
Definition sshbuf_get_string8_conceal : B (list Z) :=
  let! pl := sshbuf_get_string8_direct in peek (fst pl) (snd pl).

(** [len > 0 && (z = memchr(p, '\0', len)) != NULL && z < p + len - 1] *)
Fixpoint memchr0 (s : list Z) : option Z :=
  match s with
  | [] => None
  | c :: r => if c =? 0 then Some 0 else option_map Z.succ (memchr0 r)
  end.
Definition inner_nul (s : list Z) : bool :=
  (0 <? zlen s) && match memchr0 s with Some z => z <? zlen s - 1 | None => false end.
(** The C string in a [char *] that holds [s] and a terminating NUL. *)
Definition c_str (s : list Z) : list Z :=
  match memchr0 s with Some z => take (Z.to_nat z) s | None => s end.

(** [-1] ([SSH_ERR_INTERNAL_ERROR]) when skipping fails. *)
Definition sshbuf_get_cstring : B (list Z) :=
  let! pl := sshbuf_peek_string_direct in
  let! s := peek (fst pl) (snd pl) in
  guard (negb (inner_nul s)) SSH_ERR_INVALID_FORMAT ;!
  cmaperr (fun _ => -1) sshbuf_get_string_direct ;!
  cret s.
Definition sshbuf_get_cstring8 : B (list Z) :=
  let! pl := sshbuf_peek_string8_direct in
  let! s := peek (fst pl) (snd pl) in
  guard (negb (inner_nul s)) SSH_ERR_INVALID_FORMAT ;!
  cmaperr (fun _ => -1) sshbuf_get_string8_direct ;!
  cret s.

(** ** Writing *)

Definition sshbuf_put (v : list Z) : B unit :=
  let! p := sshbuf_reserve (zlen v) in poke p v.

Definition sshbuf_put_u64 (val : Z) : B unit :=
  let! p := sshbuf_reserve 8 in poke p (POKE_U 8 val).
Definition sshbuf_put_u32 (val : Z) : B unit :=
  let! p := sshbuf_reserve 4 in poke p (POKE_U 4 val).
Definition sshbuf_put_u16 (val : Z) : B unit :=
  let! p := sshbuf_reserve 2 in poke p (POKE_U 2 val).
Definition sshbuf_put_u8 (val : Z) : B unit :=
  let! p := sshbuf_reserve 1 in poke p [u8 val].

Definition sshbuf_put_string (v : list Z) : B unit :=
  guard (negb (SSHBUF_SIZE_MAX - 4 <? zlen v)) SSH_ERR_NO_BUFFER_SPACE ;!
  let! d := sshbuf_reserve (usize (zlen v + 4)) in
  poke d (POKE_U 4 (zlen v)) ;! poke (d + 4) v.

Definition sshbuf_put_string8 (v : list Z) : B unit :=
  guard (negb (255 - 1 <? zlen v)) SSH_ERR_NO_BUFFER_SPACE ;!
  let! d := sshbuf_reserve (usize (zlen v + 1)) in
  poke d [u8 (zlen v)] ;! poke (d + 1) v.

(** [None] is the null pointer; a C string ends before its first NUL. *)
Definition sshbuf_put_cstring (v : option (list Z)) : B unit :=
  sshbuf_put_string (match v with None => [] | Some s => c_str s end).
Definition sshbuf_put_cstring8 (v : option (list Z)) : B unit :=
  sshbuf_put_string8 (match v with None => [] | Some s => c_str s end).

(** The bytes a [const struct sshbuf *v] argument contributes. *)
Definition sb_contents (b : sshbuf) : list Z :=
  zslice (sb_data b) (sb_off b) (sb_size b - sb_off b).

Definition sshbuf_putb (v : sshbuf) : B unit :=
  verify (sane v) ;! sshbuf_put (sb_contents v).
Definition sshbuf_put_stringb (v : sshbuf) : B unit :=
  verify (sane v) ;! sshbuf_put_string (sb_contents v).
Definition sshbuf_put_stringb8 (v : sshbuf) : B unit :=
  verify (sane v) ;! sshbuf_put_string8 (sb_contents v).

(** [for (; len > 0 && *s == 0; len--, s++);] *)
Fixpoint skip_zeros (s : list Z) : list Z :=
  match s with
  | b :: r => if b =? 0 then skip_zeros r else s
  | [] => []
  end.
Definition msb_set (s : list Z) : bool :=
  match s with [] => false | b :: _ => negb (Z.land b 128 =? 0) end.

Definition sshbuf_put_bignum2_bytes (v : list Z) : B unit :=
  guard (negb (SSHBUF_SIZE_MAX - 5 <? zlen v)) SSH_ERR_NO_BUFFER_SPACE ;!
  let s := skip_zeros v in
  let prepend := if msb_set s then [0] else [] in
  let! d := sshbuf_reserve (zlen s + 4 + zlen prepend) in
  poke d (POKE_U 4 (zlen s + zlen prepend)) ;!
  poke (d + 4) prepend ;!
  poke (d + 4 + zlen prepend) s.

(** Returns the bytes behind [*valp], [*lenp]. *)
Definition sshbuf_get_bignum2_bytes_direct : B (list Z) :=
  let! pl := sshbuf_peek_string_direct in
  let! d := peek (fst pl) (snd pl) in
  guard (negb (msb_set d)) SSH_ERR_BIGNUM_IS_NEGATIVE ;!
  guard (negb ((SSHBUF_MAX_BIGNUM + 1 <? zlen d)
               || ((zlen d =? SSHBUF_MAX_BIGNUM + 1)
                   && match d with b :: _ => negb (b =? 0) | [] => false end)))
    SSH_ERR_BIGNUM_TOO_LARGE ;!
  consume_internal (usize (snd pl + 4)) ;!
  cret (skip_zeros d).

(** ** Copying a string from one buffer into another *)

Definition on_fst {A} (m : B A) : M Z (sshbuf * sshbuf) A :=
  fun s => let (r, b) := m (fst s) in (r, (b, snd s)).
Definition on_snd {A} (m : B A) : M Z (sshbuf * sshbuf) A :=
  fun s => let (r, b) := m (snd s) in (r, (fst s, b)).

Definition sshbuf_get_stringb : M Z (sshbuf * sshbuf) unit :=
  on_fst sshbuf_peek_string_direct ;!
  let! len := on_fst sshbuf_get_u32 in
  let! p := on_snd (sshbuf_reserve len) in
  let! d := on_fst (sshbuf_get len) in
  on_snd (poke p d).
Definition sshbuf_get_stringb8 : M Z (sshbuf * sshbuf) unit :=
  on_fst sshbuf_peek_string8_direct ;!
  let! len := on_fst sshbuf_get_u8 in
  let! p := on_snd (sshbuf_reserve len) in
  let! d := on_fst (sshbuf_get len) in
  on_snd (poke p d).

(** ** Text forms *)

Definition hexdig (n : Z) : Z := if n <? 10 then 48 + n else 87 + n.
Definition sshbuf_dtob16 : B (list Z) :=
  let! len := sshbuf_len in
  let! p := sshbuf_ptr in
  let! d := peek p len in
  cret (flat_map (fun b => [hexdig (Z.land (Z.shiftr b 4) 15); hexdig (Z.land b 15)]) d).

(** [None] is a null return; the result excludes the terminating NUL. *)
Definition sshbuf_dup_string : B (option (list Z)) :=
  let! p := sshbuf_ptr in
  let! l := sshbuf_len in
  let! s := peek p l in
  cret (match memchr0 s with
        | Some z => if z =? zlen s - 1 then Some (take (Z.to_nat z) s) else None
        | None => Some s
        end).

(** * The invariant *)

Record sb_ok (b : sshbuf) : Prop := {
  bo_sane : sane b = true;
  bo_off : 0 <= sb_off b;
  bo_data : zlen (sb_data b) = sb_alloc b;
  bo_bytes : bytes (sb_data b)
}.

Lemma sane_spec b : sane b = true ->
  1 <= sb_refcount b <= SSHBUF_REFS_MAX /\ sb_max_size b <= SSHBUF_SIZE_MAX /\
  sb_alloc b <= sb_max_size b /\ sb_size b <= sb_alloc b /\ sb_off b <= sb_size b.
Proof. unfold sane. rewrite negb_true_iff, !orb_false_iff, !Z.ltb_ge. tauto. Qed.

Lemma sane_range b data off size alloc :
  sane b = true -> off <= size -> size <= alloc -> alloc <= sb_max_size b ->
  sane (with_range b data off size alloc) = true.
Proof.
  unfold sane. cbn. rewrite !negb_true_iff, !orb_false_iff, !Z.ltb_ge. intuition.
Qed.

Ltac sb_facts H :=
  let H1 := fresh "Hsane" in pose proof (sane_spec _ (bo_sane _ H)) as H1;
  pose proof (bo_off _ H); pose proof (bo_data _ H).

Lemma size_max_eq : SSHBUF_SIZE_MAX = 134217728.
Proof. reflexivity. Qed.

Lemma check_sanity_ok b : sb_ok b -> sshbuf_check_sanity b = (Ok tt, b).
Proof. intros []. unfold sshbuf_check_sanity, cbind, cget, verify. by rewrite bo_sane0. Qed.

Lemma zlen_contents b : sb_ok b -> zlen (sb_contents b) = sb_size b - sb_off b.
Proof. intros H. sb_facts H. apply zlen_zslice; lia. Qed.

Lemma contents_bytes b : sb_ok b -> bytes (sb_contents b).
Proof. intros []. unfold sb_contents, zslice. by apply Forall_take, Forall_drop. Qed.

Lemma ptr_ok b : sb_ok b -> sshbuf_ptr b = (Ok (sb_off b), b).
Proof. intros H. unfold sshbuf_ptr. by rewrite (cbind_ok _ _ _ _ _ (check_sanity_ok b H)). Qed.
Lemma len_ok b : sb_ok b -> sshbuf_len b = (Ok (zlen (sb_contents b)), b).
Proof.
  intros H. unfold sshbuf_len. rewrite (cbind_ok _ _ _ _ _ (check_sanity_ok b H)).
  by rewrite zlen_contents.
Qed.

(** * Abstraction: a bounded byte queue *)

Record queue := Queue { q_bytes : list Z; q_max : Z; q_ro : bool }.

Definition abs (b : sshbuf) : queue := Queue (sb_contents b) (sb_max_size b) (shared b).

(** [m] does on the buffer what [sm] does on the queue it represents, on every
    branch, and keeps the invariant. *)
Definition refines {A} (m : B A) (sm : M Z queue A) : Prop :=
  forall b, sb_ok b -> exists r b', m b = (r, b') /\ sb_ok b' /\ sm (abs b) = (r, abs b').

Lemma refines_bind {A C} (m : B A) (f : A -> B C) sm sf :
  refines m sm -> (forall a, refines (f a) (sf a)) ->
  refines (let! x := m in f x) (let! x := sm in sf x).
Proof.
  intros Hm Hf b H. destruct (Hm b H) as (r & b1 & E1 & H1 & S1). unfold cbind. rewrite E1, S1.
  destruct r as [a|e| |]; [apply Hf, H1|..]; eexists _, b1; by split_and!.
Qed.
Lemma refines_ret {A} (a : A) : refines (cret a) (cret a).
Proof. intros b H. by eexists _, b. Qed.
Lemma refines_guard c e : refines (guard c e) (guard c e).
Proof. intros b H. destruct c; by eexists _, b. Qed.
Lemma refines_maperr {A} g (m : B A) sm : refines m sm -> refines (cmaperr g m) (cmaperr g sm).
Proof.
  intros Hm b H. destruct (Hm b H) as (r & b1 & E1 & H1 & S1). unfold cmaperr. rewrite E1, S1.
  destruct r; eexists _, b1; by split_and!.
Qed.
Lemma refines_ext {A} (m m' : B A) sm :
  (forall b, sb_ok b -> m b = m' b) -> refines m' sm -> refines m sm.
Proof. intros He Hm b H. rewrite He by done. by apply Hm. Qed.

(** ** Queue operations *)

Definition q_take (n : Z) : M Z queue (list Z) :=
  let! q := cget in
  guard (negb (zlen (q_bytes q) <? n)) SSH_ERR_MESSAGE_INCOMPLETE ;!
  cput (Queue (drop (Z.to_nat n) (q_bytes q)) (q_max q) (q_ro q)) ;!
  cret (take (Z.to_nat n) (q_bytes q)).

Definition q_drop_end (n : Z) : M Z queue unit :=
  let! q := cget in
  guard (negb (zlen (q_bytes q) <? n)) SSH_ERR_MESSAGE_INCOMPLETE ;!
  cput (Queue (take (Z.to_nat (zlen (q_bytes q) - n)) (q_bytes q)) (q_max q) (q_ro q)).

Definition q_append (v : list Z) : M Z queue unit :=
  let! q := cget in
  guard (negb (q_ro q)) SSH_ERR_BUFFER_READ_ONLY ;!
  guard (zlen (q_bytes q) + zlen v <=? q_max q) SSH_ERR_NO_BUFFER_SPACE ;!
  cput (Queue (q_bytes q ++ v) (q_max q) (q_ro q)).

(** A length-prefixed string at the front, with its length in [k] bytes: *)
Definition q_string (k : nat) : M Z queue (list Z) :=
  let! q := cget in
  guard (negb (zlen (q_bytes q) <? Z.of_nat k)) SSH_ERR_MESSAGE_INCOMPLETE ;!
  let len := be_val (take k (q_bytes q)) in
  guard (negb (SSHBUF_SIZE_MAX - Z.of_nat k <? len)) SSH_ERR_STRING_TOO_LARGE ;!
  guard (negb (zlen (q_bytes q) - Z.of_nat k <? len)) SSH_ERR_MESSAGE_INCOMPLETE ;!
  cret (zslice (q_bytes q) (Z.of_nat k) len).
Definition q_skip_string (k : nat) (s : list Z) : M Z queue unit :=
  q_take (Z.of_nat k + zlen s) ;! cret tt.
Definition q_get_string (k : nat) : M Z queue (list Z) :=
  let! s := q_string k in q_skip_string k s ;! cret s.

(** ** Advancing *)

Definition advance (b : sshbuf) (n : Z) : sshbuf :=
  with_range b (sb_data b) (sb_off b + n) (sb_size b) (sb_alloc b).

Lemma advance_ok b n :
  sb_ok b -> 0 <= n <= zlen (sb_contents b) ->
  sb_ok (advance b n) /\ sb_contents (advance b n) = drop (Z.to_nat n) (sb_contents b).
Proof.
  intros H Hn. rewrite zlen_contents in Hn by done. sb_facts H. destruct H. split.
  - constructor; cbn; try done; [apply sane_range; done || lia|lia].
  - unfold sb_contents, zslice. cbn. rewrite skipn_firstn_comm, drop_drop.
    f_equal; [lia|f_equal; lia].
Qed.

Lemma abs_advance b n :
  sb_ok b -> 0 <= n <= zlen (sb_contents b) ->
  abs (advance b n) = Queue (drop (Z.to_nat n) (sb_contents b)) (sb_max_size b) (shared b).
Proof. intros H Hn. unfold abs. by rewrite (proj2 (advance_ok b n H Hn)). Qed.

Lemma consume_ok b n :
  sb_ok b -> 0 <= n ->
  sshbuf_consume n b =
    if zlen (sb_contents b) <? n then (Er SSH_ERR_MESSAGE_INCOMPLETE, b) else (Ok tt, advance b n).
Proof.
  intros H Hn. unfold sshbuf_consume. rewrite (cbind_ok _ _ _ _ _ (check_sanity_ok b H)).
  pose proof (zlen_nonneg (sb_contents b)). destruct (Z.eqb_spec n 0) as [->|].
  - replace (_ <? 0) with false by lia. unfold advance, cret. rewrite Z.add_0_r. by destruct b.
  - rewrite (cbind_ok _ _ _ _ _ (len_ok b H)). by destruct (zlen (sb_contents b) <? n).
Qed.

(** Reading behind the position the buffer had before it advanced. *)
Lemma peek_contents b b' i n :
  sb_ok b -> sb_data b' = sb_data b -> 0 <= i -> 0 <= n -> i + n <= zlen (sb_contents b) ->
  peek (sb_off b + i) n b' = (Ok (zslice (sb_contents b) i n), b').
Proof.
  intros H Hd Hi Hn Hl. rewrite zlen_contents in Hl by done. sb_facts H. unfold peek. rewrite Hd.
  replace (_ && _ && _) with true by lia. unfold sb_contents.
  by rewrite zslice_zslice by lia.
Qed.

Lemma refines_get n : 0 <= n -> refines (sshbuf_get n) (q_take n).
Proof.
  intros Hn b H. unfold sshbuf_get, q_take. rewrite (cbind_ok _ _ _ _ _ (ptr_ok b H)).
  unfold cbind at 1. rewrite consume_ok by done. unfold cbind at 1, cget. cbn [q_bytes abs].
  destruct (Z.ltb_spec (zlen (sb_contents b)) n) as [Hl|Hl].
  - eexists _, b. by split_and!.
  - replace (sb_off b) with (sb_off b + 0) by lia.
    rewrite peek_contents by (done || lia). rewrite zslice_0. eexists _, (advance b n).
    split_and!; [done|by apply advance_ok|]. by rewrite abs_advance.
Qed.

(** ** Fixed-width numbers *)

Lemma peek_u_step w acc bs :
  0 <= w -> bytes bs -> 0 <= acc -> acc < 2 ^ (w - 8 * zlen bs) -> 8 * zlen bs <= w ->
  fold_left (fun a b => Z.lor (wrap w (Z.shiftl a 8)) b) bs acc =
  fold_left (fun a b => a * 256 + b) bs acc.
Proof.
  intros Hw Hb. revert acc. induction Hb as [|b r Hb Hbr IH]; intros acc Ha Hlt Hl; cbn; [done|].
  rewrite zlen_cons in *. pose proof (zlen_nonneg r).
  assert (acc * 256 < 2 ^ (w - 8 * zlen r)) as Hacc.
  { replace (w - 8 * zlen r) with (w - 8 * (1 + zlen r) + 8) by lia.
    rewrite Z.pow_add_r by lia. lia. }
  assert (2 ^ (w - 8 * zlen r) <= 2 ^ w) by (apply Z.pow_le_mono_r; lia).
  rewrite wrap_small by (rewrite Z.shiftl_mul_pow2 by lia; lia).
  rewrite lor_shiftl_add by (done || lia). unfold is_byte in Hb.
  apply IH; [lia| |lia].
  replace (w - 8 * zlen r) with (w - 8 * (1 + zlen r) + 8) in * by lia.
  rewrite Z.pow_add_r in * by lia. change (2 ^ 8) with 256 in *. lia.
Qed.

Lemma PEEK_U_val w bs : 0 <= w -> bytes bs -> 8 * zlen bs <= w -> PEEK_U w bs = be_val bs.
Proof.
  intros Hw Hb Hl. unfold PEEK_U. apply peek_u_step; try done.
  apply Z.pow_pos_nonneg; lia.
Qed.

Lemma POKE_U_be n v : POKE_U n v = be_bytes n v.
Proof.
  induction n as [|n IH]; [done|]. rewrite be_bytes_cons. cbn [POKE_U]. rewrite IH. f_equal.
  change 255 with (Z.ones 8). rewrite Z.land_ones, Z.shiftr_div_pow2, Z.pow_mul_r by lia. done.
Qed.

Definition q_get_u (k : nat) : M Z queue Z :=
  let! d := q_take (Z.of_nat k) in cret (be_val d).

Lemma refines_get_u k w (m : B Z) :
  8 * Z.of_nat k <= w ->
  m = (let! p := sshbuf_ptr in sshbuf_consume (Z.of_nat k) ;!
       let! d := peek p (Z.of_nat k) in cret (PEEK_U w d)) ->
  refines m (q_get_u k).
Proof.
  intros Hw -> b H. unfold q_get_u.
  destruct (refines_get (Z.of_nat k) ltac:(lia) b H) as (r & b' & E & H' & S).
  unfold sshbuf_get in E. unfold cbind at 1. rewrite (ptr_ok b H). unfold cbind in E at 1.
  rewrite (ptr_ok b H) in E. rewrite <- cbind_assoc. unfold cbind at 1. rewrite E.
  unfold cbind at 1. rewrite S. destruct r as [d|e| |]; eexists _, b'; split_and!; try done.
  assert (bytes d /\ zlen d <= Z.of_nat k) as [Hd Hl].
  { unfold q_take, cbind, cget, guard in S. cbn in S. destruct (negb _); [|done]. cbn in S.
    injection S as <- _. split; [apply Forall_take, contents_bytes, H|].
    unfold zlen. rewrite length_take. lia. }
  cbn. rewrite PEEK_U_val; try done; lia.
Qed.

Lemma refines_get_u8 : refines sshbuf_get_u8 (q_get_u 1).
Proof. by apply (refines_get_u 1 8). Qed.
Lemma refines_get_u16 : refines sshbuf_get_u16 (q_get_u 2).
Proof. by apply (refines_get_u 2 16). Qed.
Lemma refines_get_u32 : refines sshbuf_get_u32 (q_get_u 4).
Proof. by apply (refines_get_u 4 32). Qed.
Lemma refines_get_u64 : refines sshbuf_get_u64 (q_get_u 8).
Proof. by apply (refines_get_u 8 64). Qed.

(** ** Strings *)

(** What a successful [peek_string] says about the buffer. *)
Record string_at (b : sshbuf) (k : Z) (s : list Z) (p len : Z) : Prop := {
  sa_ptr : p = sb_off b + k;
  sa_len : len = zlen s;
  sa_fits : k + zlen s <= zlen (sb_contents b);
  sa_bytes : s = zslice (sb_contents b) k (zlen s)
}.

Definition peek_string_k (k w : Z) : B (Z * Z) :=
  let! p := sshbuf_ptr in
  let! n := sshbuf_len in
  guard (negb (n <? k)) SSH_ERR_MESSAGE_INCOMPLETE ;!
  let! d := peek p k in
  let len := PEEK_U w d in
  guard (negb (SSHBUF_SIZE_MAX - k <? len)) SSH_ERR_STRING_TOO_LARGE ;!
  guard (negb (n - k <? len)) SSH_ERR_MESSAGE_INCOMPLETE ;!
  cret (p + k, len).

Lemma peek_string_ok k b :
  (1 <= k)%nat -> sb_ok b ->
  match fst (q_string k (abs b)) with
  | Ok s => exists p len, peek_string_k (Z.of_nat k) (8 * Z.of_nat k) b = (Ok (p, len), b) /\
              string_at b (Z.of_nat k) s p len
  | Er e => peek_string_k (Z.of_nat k) (8 * Z.of_nat k) b = (Er e, b)
  | _ => False
  end /\ snd (q_string k (abs b)) = abs b.
Proof.
  intros Hk H. unfold peek_string_k, q_string. rewrite (cbind_ok _ _ _ _ _ (ptr_ok b H)).
  rewrite (cbind_ok _ _ _ _ _ (len_ok b H)). unfold cbind, cget, guard. cbn [q_bytes abs].
  destruct (Z.ltb_spec (zlen (sb_contents b)) (Z.of_nat k)) as [Hl|Hl]; cbn; [done|].
  replace (sb_off b) with (sb_off b + 0) by lia. rewrite peek_contents by (done || lia).
  rewrite zslice_0, Nat2Z.id. set (d := take k (sb_contents b)).
  assert (bytes d) as Hd by apply Forall_take, contents_bytes, H.
  assert (zlen d <= Z.of_nat k) as Hdl by (unfold zlen, d; rewrite length_take; lia).
  rewrite PEEK_U_val by (done || lia). pose proof (be_val_range d Hd) as [Hv _].
  destruct (SSHBUF_SIZE_MAX - Z.of_nat k <? be_val d); cbn; [done|].
  destruct (Z.ltb_spec (zlen (sb_contents b) - Z.of_nat k) (be_val d)); cbn; [done|].
  split; [|done]. eexists _, _. split; [done|].
  assert (zlen (zslice (sb_contents b) (Z.of_nat k) (be_val d)) = be_val d) as Hz
    by (apply zlen_zslice; lia).
  constructor; [lia|done|lia|]. by rewrite Hz.
Qed.

Lemma string_read b b' k s p len :
  sb_ok b -> 0 <= k -> string_at b k s p len -> sb_data b' = sb_data b ->
  peek p len b' = (Ok s, b').
Proof.
  intros H Hk [-> -> Hf Hs] Hd. pose proof (zlen_nonneg s).
  rewrite (peek_contents b) by (done || lia). by rewrite <- Hs.
Qed.

Lemma string_consume b k s p len :
  sb_ok b -> 0 <= k -> string_at b k s p len ->
  consume_internal (usize (len + k)) b = (Ok tt, advance b (k + zlen s)) /\
  q_take (k + zlen s) (abs b) =
    (Ok (take (Z.to_nat (k + zlen s)) (sb_contents b)), abs (advance b (k + zlen s))).
Proof.
  intros H Hk [-> -> Hf Hs]. pose proof (zlen_nonneg s). rewrite zlen_contents in Hf by done.
  sb_facts H. rewrite size_max_eq in *. rewrite wrap_small by lia.
  unfold consume_internal, cmaperr. rewrite consume_ok, zlen_contents by (done || lia).
  replace (_ <? _) with false by lia. split; [by rewrite Z.add_comm|].
  rewrite abs_advance by (rewrite ?zlen_contents; done || lia).
  unfold q_take, cbind, cget, guard. cbn [abs q_bytes]. rewrite zlen_contents by done.
  by replace (_ <? _) with false by lia.
Qed.

(** [return (e)] when there is an error to report. *)
Definition check {S} (o : option Z) : M Z S unit :=
  match o with Some e => craise e | None => cret tt end.

(** The shape of every string reader: find the string, look at it with [chk],
    skip it and return [f] of it. *)
Definition q_read_string {A} (k : nat) (chk : list Z -> option Z) (f : list Z -> A) : M Z queue A :=
  let! s := q_string k in check (chk s) ;! q_skip_string k s ;! cret (f s).

Lemma refines_string {A} k (m : B A) (chk : list Z -> option Z) f :
  (1 <= k)%nat ->
  (forall b s p len, sb_ok b -> string_at b (Z.of_nat k) s p len ->
     peek_string_k (Z.of_nat k) (8 * Z.of_nat k) b = (Ok (p, len), b) ->
     m b = (check (chk s) ;! consume_internal (usize (len + Z.of_nat k)) ;! cret (f s)) b) ->
  (forall b e, sb_ok b -> peek_string_k (Z.of_nat k) (8 * Z.of_nat k) b = (Er e, b) -> m b = (Er e, b)) ->
  refines m (q_read_string k chk f).
Proof.
  intros Hk Hm Her b H. destruct (peek_string_ok k b Hk H) as [Hp Hs].
  unfold q_read_string, cbind at 1. destruct (q_string k (abs b)) as [r q]. cbn in Hp, Hs. subst q.
  destruct r as [s|e| |]; try done.
  - destruct Hp as (p & len & E & Hat). rewrite (Hm b s p len H Hat E).
    destruct (chk s) as [e|]; [by eexists _, b|].
    destruct (string_consume b (Z.of_nat k) s p len H ltac:(lia) Hat) as [Ec Sc].
    cbn [check]. rewrite !cbind_ret_l, (cbind_ok _ _ _ _ _ Ec). unfold q_skip_string.
    rewrite cbind_assoc.
    rewrite (cbind_ok _ _ _ _ _ Sc). eexists _, _. split_and!; [done| |done].
    apply advance_ok; [done|]. destruct Hat. pose proof (zlen_nonneg s). lia.
  - rewrite (Her b e H Hp). eexists _, b. by split_and!.
Qed.

(** [sshbuf_get_string*]: skip first, then copy what was found. *)
Lemma refines_direct_copy k (d : B (Z * Z)) (m : B (list Z)) :
  (1 <= k)%nat ->
  d = (let! pl := peek_string_k (Z.of_nat k) (8 * Z.of_nat k) in
       consume_internal (usize (snd pl + Z.of_nat k)) ;! cret pl) ->
  m = (let! pl := d in peek (fst pl) (snd pl)) ->
  refines m (q_read_string k (fun _ => None) (fun s => s)).
Proof.
  intros Hk -> ->. apply refines_string; [done|..].
  - intros b s p len H Hat E. rewrite cbind_assoc, (cbind_ok _ _ _ _ _ E). cbn [fst snd check].
    destruct (string_consume b (Z.of_nat k) s p len H ltac:(lia) Hat) as [Ec _].
    unfold cbind, cret. rewrite Ec. by apply (string_read b _ (Z.of_nat k)); [|lia|..].
  - intros b e H E. by rewrite cbind_assoc, (cbind_er _ _ _ _ _ E).
Qed.

Lemma refines_get_string : refines sshbuf_get_string (q_read_string 4 (fun _ => None) (fun s => s)).
Proof. by apply (refines_direct_copy 4 sshbuf_get_string_direct); [lia|..]. Qed.
Lemma refines_get_string8 : refines sshbuf_get_string8 (q_read_string 1 (fun _ => None) (fun s => s)).
Proof. by apply (refines_direct_copy 1 sshbuf_get_string8_direct); [lia|..]. Qed.
Lemma refines_get_string8_conceal :
  refines sshbuf_get_string8_conceal (q_read_string 1 (fun _ => None) (fun s => s)).
Proof. apply refines_get_string8. Qed.

(** [sshbuf_get_cstring*]: the string must have no NUL but at its end. *)
Definition cstring_check (s : list Z) : option Z :=
  if inner_nul s then Some SSH_ERR_INVALID_FORMAT else None.

Lemma refines_cstring_k k (d : B (Z * Z)) (m : B (list Z)) :
  (1 <= k)%nat ->
  d = (let! pl := peek_string_k (Z.of_nat k) (8 * Z.of_nat k) in
       consume_internal (usize (snd pl + Z.of_nat k)) ;! cret pl) ->
  m = (let! pl := peek_string_k (Z.of_nat k) (8 * Z.of_nat k) in
       let! s := peek (fst pl) (snd pl) in
       guard (negb (inner_nul s)) SSH_ERR_INVALID_FORMAT ;!
       cmaperr (fun _ => -1) d ;! cret s) ->
  refines m (q_read_string k cstring_check (fun s => s)).
Proof.
  intros Hk -> ->. apply refines_string; [done|..].
  - intros b s p len H Hat E. rewrite (cbind_ok _ _ _ _ _ E). cbn [fst snd].
    rewrite (cbind_ok _ _ _ _ _ (string_read b b (Z.of_nat k) s p len H ltac:(lia) Hat eq_refl)).
    destruct (string_consume b (Z.of_nat k) s p len H ltac:(lia) Hat) as [Ec _].
    unfold cstring_check. destruct (inner_nul s); [done|]. unfold cbind, cmaperr, cret. cbn.
    rewrite E. cbn. by rewrite Ec.
  - intros b e H E. by rewrite (cbind_er _ _ _ _ _ E).
Qed.

Lemma refines_get_cstring : refines sshbuf_get_cstring (q_read_string 4 cstring_check (fun s => s)).
Proof. by apply (refines_cstring_k 4 sshbuf_get_string_direct); [lia|..]. Qed.
Lemma refines_get_cstring8 : refines sshbuf_get_cstring8 (q_read_string 1 cstring_check (fun s => s)).
Proof. by apply (refines_cstring_k 1 sshbuf_get_string8_direct); [lia|..]. Qed.

Definition bignum_check (d : list Z) : option Z :=
  if msb_set d then Some SSH_ERR_BIGNUM_IS_NEGATIVE
  else if (SSHBUF_MAX_BIGNUM + 1 <? zlen d)
          || ((zlen d =? SSHBUF_MAX_BIGNUM + 1) && match d with b :: _ => negb (b =? 0) | [] => false end)
  then Some SSH_ERR_BIGNUM_TOO_LARGE else None.

Lemma refines_get_bignum2 :
  refines sshbuf_get_bignum2_bytes_direct (q_read_string 4 bignum_check skip_zeros).
Proof.
  apply refines_string; [lia|..].
  - intros b s p len H Hat E. unfold sshbuf_get_bignum2_bytes_direct.
    rewrite (cbind_ok _ _ _ _ _ E). cbn [fst snd].
    rewrite (cbind_ok _ _ _ _ _ (string_read b b 4 s p len H ltac:(lia) Hat eq_refl)).
    unfold bignum_check. destruct (msb_set s); [done|].
    destruct (_ || _); done.
  - intros b e H E. unfold sshbuf_get_bignum2_bytes_direct. by rewrite (cbind_er _ _ _ _ _ E).
Qed.

(** ** Growing *)

(** [b'] holds the same queue as [b], perhaps packed or moved. *)
Definition same_queue (b b' : sshbuf) : Prop :=
  sb_ok b' /\ sb_contents b' = sb_contents b /\ sb_max_size b' = sb_max_size b /\
  shared b' = shared b.

Lemma same_queue_refl b : sb_ok b -> same_queue b b.
Proof. intros H. unfold same_queue. by split_and!. Qed.
Lemma same_queue_trans b b1 b2 : same_queue b b1 -> same_queue b1 b2 -> same_queue b b2.
Proof. intros (?&?&?&?) (?&?&?&?). unfold same_queue. split_and!; congruence. Qed.
Lemma same_queue_abs b b' : same_queue b b' -> abs b' = abs b.
Proof. intros (_ & H1 & H2 & H3). unfold abs. congruence. Qed.

Lemma maybe_pack_ok b force :
  sb_ok b -> exists b', sshbuf_maybe_pack force b = (Ok tt, b') /\ same_queue b b' /\
    sb_alloc b' = sb_alloc b /\ sb_size b' <= sb_size b /\
    (force = true -> shared b = false -> sb_off b' = 0).
Proof.
  intros H. unfold sshbuf_maybe_pack, cmodify. sb_facts H. eexists. split; [done|].
  destruct (Z.eqb_spec (sb_off b) 0) as [Ho|Ho]; cbn; [by split_and!; try apply same_queue_refl|].
  destruct (shared b) eqn:Hsh; cbn; [by split_and!; try apply same_queue_refl|].
  destruct (force || _) eqn:Hf; [|split_and!; try apply same_queue_refl; try done;
    intros ->; done].
  pose proof (zlen_contents b H) as Hz. fold (sb_contents b). destruct H.
  split; [unfold same_queue; split_and!|cbn; split_and!; done || lia]; cbn; try done.
  - constructor; cbn; try done; [apply sane_range; done || lia|rewrite zlen_zsplice; lia|].
    unfold zsplice. rewrite !Forall_app. split_and!; [by apply Forall_take| |by apply Forall_drop].
    by apply Forall_take, Forall_drop.
  - unfold sb_contents at 1. cbn. rewrite Z.sub_0_r, <- Hz. apply zslice_zsplice_at; lia.
Qed.

Lemma zlen_realloc d n : 0 <= n -> zlen (realloc d n) = n.
Proof.
  intros. unfold realloc, zlen, zrepeat. rewrite length_take, length_app, length_replicate. lia.
Qed.
Lemma realloc_bytes d n : bytes d -> bytes (realloc d n).
Proof.
  intros. unfold realloc. apply Forall_take, Forall_app. split; [done|].
  apply Forall_replicate. unfold is_byte. lia.
Qed.
Lemma realloc_slice d n i k :
  0 <= i -> 0 <= k -> i + k <= zlen d -> i + k <= n -> zslice (realloc d n) i k = zslice d i k.
Proof.
  unfold realloc, zslice, zlen. intros. rewrite skipn_firstn_comm, take_take, drop_app_le by lia.
  rewrite take_app_le by (rewrite length_drop; lia). f_equal. lia.
Qed.

Lemma realloc_same_queue b n :
  sb_ok b -> sb_size b <= n <= sb_max_size b ->
  same_queue b (with_range b (realloc (sb_data b) n) (sb_off b) (sb_size b) n).
Proof.
  intros H Hn. sb_facts H. destruct H. unfold same_queue. split_and!; cbn; try done.
  - constructor; cbn; try done; [apply sane_range; done || lia|apply zlen_realloc; lia|].
    by apply realloc_bytes.
  - unfold sb_contents. cbn. apply realloc_slice; lia.
Qed.

Lemma ROUNDUP_le x y : 0 < y -> x <= ROUNDUP x y < x + y.
Proof.
  intros Hy. unfold ROUNDUP. pose proof (Z.div_mod (x + (y - 1)) y ltac:(lia)).
  pose proof (Z.mod_pos_bound (x + (y - 1)) y Hy). nia.
Qed.

Lemma check_reserve_ok b n :
  sb_ok b -> 0 <= n ->
  sshbuf_check_reserve n b =
    if shared b then (Er SSH_ERR_BUFFER_READ_ONLY, b)
    else if zlen (sb_contents b) + n <=? sb_max_size b then (Ok tt, b)
    else (Er SSH_ERR_NO_BUFFER_SPACE, b).
Proof.
  intros H Hn. unfold sshbuf_check_reserve. rewrite (cbind_ok _ _ _ _ _ (check_sanity_ok b H)).
  unfold cbind, cget, guard. destruct (shared b); cbn; [done|].
  pose proof (zlen_nonneg (sb_contents b)). rewrite zlen_contents in * by done.
  destruct (Z.leb_spec (sb_size b - sb_off b + n) (sb_max_size b)).
  - by replace (_ || _) with false by lia.
  - by replace (_ || _) with true by lia.
Qed.

Lemma allocate_ok b n :
  sb_ok b -> 0 <= n -> shared b = false -> zlen (sb_contents b) + n <= sb_max_size b ->
  exists b', sshbuf_allocate n b = (Ok tt, b') /\ same_queue b b' /\ sb_size b' + n <= sb_alloc b'.
Proof.
  intros H Hn Hs Hf. unfold sshbuf_allocate. unfold cbind at 1.
  rewrite check_reserve_ok, Hs by done. replace (_ <=? _) with true by lia.
  unfold cbind at 1, cget. rewrite zlen_contents in Hf by done.
  destruct (maybe_pack_ok b (sb_max_size b <? usize (sb_size b + n)) H)
    as (b1 & E1 & Hq1 & Ha1 & Hz1 & Hp1).
  rewrite (cbind_ok _ _ _ _ _ E1). unfold cbind at 1, cget. sb_facts H.
  destruct (Hq1) as (Hk1 & Hc1 & Hm1 & Hs1). pose proof (zlen_contents b1 Hk1) as Hlen1. rewrite Hc1, zlen_contents in Hlen1 by done.
  assert (sb_size b1 + n <= sb_max_size b) as Hfit.
  { rewrite size_max_eq in *. rewrite wrap_small in Hp1 by lia.
    destruct (Z.ltb_spec (sb_max_size b) (sb_size b + n)); [|lia].
    rewrite Hp1 in Hlen1 by done. lia. }
  pose proof (bo_off b1 Hk1). pose proof (sane_spec b1 (bo_sane b1 Hk1)) as Hsane1.
  rewrite size_max_eq in *. rewrite (wrap_small 64 (n + sb_size b1)) by lia.
  destruct (Z.leb_spec (n + sb_size b1) (sb_alloc b1)); [exists b1; split; [done|]; split; [done|lia]|].
  rewrite (wrap_small 64 (n + sb_size b1 - sb_alloc b1)) by lia.
  replace (sb_alloc b1 + (n + sb_size b1 - sb_alloc b1)) with (n + sb_size b1) by lia.
  pose proof (ROUNDUP_le (n + sb_size b1) SSHBUF_SIZE_INC ltac:(done)) as Hr.
  set (rlen := if sb_max_size b1 <? _ then _ else _).
  assert (n + sb_size b1 <= rlen <= sb_max_size b1) as Hrl.
  { unfold rlen. destruct (Z.ltb_spec (sb_max_size b1) (ROUNDUP (n + sb_size b1) SSHBUF_SIZE_INC)); lia. }
  pose proof (realloc_same_queue b1 rlen Hk1 ltac:(lia)) as Hq2.
  unfold cbind at 1, cput. destruct (Hq2) as (Hk2 & Hc2 & Hm2 & Hs2).
  rewrite check_reserve_ok, Hs2, Hs1, Hs, Hc2, Hc1, Hm2, Hm1, zlen_contents by done.
  replace (_ <=? _) with true by lia.
  eexists. split_and!; [done|by eapply same_queue_trans|cbn; lia].
Qed.

(** Reserving [|v|] bytes and filling them appends [v]. *)
Lemma reserve_append b v :
  sb_ok b -> bytes v -> shared b = false -> zlen (sb_contents b) + zlen v <= sb_max_size b ->
  exists p b1, sshbuf_reserve (zlen v) b = (Ok p, b1) /\ 0 <= p /\ p + zlen v <= zlen (sb_data b1) /\
    forall b2, poke p v b1 = (Ok tt, b2) ->
      sb_ok b2 /\ abs b2 = Queue (sb_contents b ++ v) (sb_max_size b) (shared b).
Proof.
  intros H Hv Hs Hf. pose proof (zlen_nonneg v) as Hv0.
  destruct (allocate_ok b (zlen v) H Hv0 Hs Hf) as (b1 & E1 & (H1 & Hc1 & Hm1 & Hs1) & Hsz).
  unfold sshbuf_reserve. rewrite (cbind_ok _ _ _ _ _ E1). pose proof H1 as Hcopy. sb_facts Hcopy.
  rewrite size_max_eq in *. eexists _, _. split; [reflexivity|].
  split; [lia|]. split; [cbn; lia|]. intros b2 E2. unfold poke in E2. cbn in E2.
  replace (_ && _) with true in E2 by lia. injection E2 as <-. cbn.
  rewrite wrap_small by lia. destruct H1. split.
  - constructor; cbn; try done.
    + unfold with_range. cbn. apply sane_range; done || lia.
    + rewrite zlen_zsplice; lia.
    + unfold zsplice. rewrite !Forall_app. split_and!; [by apply Forall_take|done|by apply Forall_drop].
  - unfold abs. cbn. rewrite Hm1, <- Hs1, <- Hc1. f_equal. unfold sb_contents. cbn.
    replace (sb_size b1 + zlen v - sb_off b1) with ((sb_size b1 - sb_off b1) + zlen v) by lia.
    rewrite zslice_app by lia. replace (sb_off b1 + _) with (sb_size b1) by lia.
    rewrite zslice_zsplice_before, zslice_zsplice_at by lia. done.
Qed.

Lemma reserve_fails b n e :
  sshbuf_check_reserve n b = (Er e, b) -> sshbuf_reserve n b = (Er e, b).
Proof.
  intros E. unfold sshbuf_reserve, sshbuf_allocate. apply cbind_er. by rewrite (cbind_er _ _ _ _ _ E).
Qed.

Lemma refines_append v (m : B unit) (w : Z -> B unit) :
  bytes v -> (forall b, m b = (let! p := sshbuf_reserve (zlen v) in w p) b) ->
  (forall p b, 0 <= p -> p + zlen v <= zlen (sb_data b) -> w p b = poke p v b) ->
  refines m (q_append v).
Proof.
  intros Hv Hm Hw b H. pose proof (zlen_nonneg v). rewrite Hm. unfold q_append.
  unfold cbind at 2, cget. cbn [abs q_ro q_bytes q_max].
  pose proof (check_reserve_ok b (zlen v) H ltac:(lia)) as Hc.
  destruct (shared b) eqn:Hs.
  { rewrite (cbind_er _ _ _ _ _ (reserve_fails _ _ _ Hc)). by eexists _, b. }
  destruct (Z.leb_spec (zlen (sb_contents b) + zlen v) (sb_max_size b)) as [Hle|Hle].
  2:{ rewrite (cbind_er _ _ _ _ _ (reserve_fails _ _ _ Hc)). eexists _, b. by split_and!. }
  destruct (reserve_append b v H Hv Hs Hle) as (p & b1 & E1 & Hp & Hpl & Hpoke).
  rewrite (cbind_ok _ _ _ _ _ E1), Hw by done.
  destruct (poke p v b1) as [r b2] eqn:E2.
  assert (r = Ok tt) as ->.
  { unfold poke in E2. replace (_ && _) with true in E2 by lia. congruence. }
  destruct (Hpoke b2 eq_refl) as [H2 Ha]. eexists _, b2. split_and!; try done.
  rewrite Ha, Hs. reflexivity.
Qed.

Lemma poke_poke p a c b :
  0 <= p -> p + zlen (a ++ c) <= zlen (sb_data b) ->
  (poke p a ;! poke (p + zlen a) c) b = poke p (a ++ c) b.
Proof.
  intros Hp Hl. rewrite zlen_app in Hl. pose proof (zlen_nonneg a). pose proof (zlen_nonneg c).
  unfold poke, cbind. replace (_ && _) with true by lia. cbn.
  rewrite zlen_zsplice, zlen_app by lia. replace (_ && _) with true by lia.
  replace (_ && _) with true by lia. unfold with_range; cbn.
  by rewrite zsplice_zsplice by lia.
Qed.

Lemma poke_then p a (m1 m2 : B unit) b :
  0 <= p -> p + zlen a <= zlen (sb_data b) ->
  (forall b', zlen (sb_data b') = zlen (sb_data b) -> m1 b' = m2 b') ->
  (poke p a ;! m1) b = (poke p a ;! m2) b.
Proof.
  intros Hp Hl Hm. unfold cbind, poke. replace (_ && _) with true by lia. apply Hm. cbn.
  apply zlen_zsplice; lia.
Qed.

Lemma refines_put v : bytes v -> refines (sshbuf_put v) (q_append v).
Proof. intros Hv. by apply (refines_append v _ (fun p => poke p v)). Qed.

Lemma refines_put_u k v (m : B unit) :
  m = (let! p := sshbuf_reserve (Z.of_nat k) in poke p (POKE_U k v)) ->
  refines m (q_append (be_bytes k v)).
Proof.
  intros ->. apply (refines_append _ _ (fun p => poke p (be_bytes k v))); [apply be_bytes_bytes| |done].
  intros b. by rewrite POKE_U_be, zlen_be_bytes.
Qed.
Lemma refines_put_u64 v : refines (sshbuf_put_u64 v) (q_append (be_bytes 8 v)).
Proof. by apply refines_put_u. Qed.
Lemma refines_put_u32 v : refines (sshbuf_put_u32 v) (q_append (be_bytes 4 v)).
Proof. by apply refines_put_u. Qed.
Lemma refines_put_u16 v : refines (sshbuf_put_u16 v) (q_append (be_bytes 2 v)).
Proof. by apply refines_put_u. Qed.
Lemma refines_put_u8 v : refines (sshbuf_put_u8 v) (q_append (be_bytes 1 v)).
Proof. apply (refines_append _ _ (fun p => poke p (be_bytes 1 v))); done || apply be_bytes_bytes. Qed.

(** A string with its length in [k] bytes, refused when longer than [lim]. *)
Definition q_put_string (k : nat) (lim : Z) (v : list Z) : M Z queue unit :=
  guard (negb (lim <? zlen v)) SSH_ERR_NO_BUFFER_SPACE ;! q_append (be_bytes k (zlen v) ++ v).

Lemma refines_put_string_k k lim v (m : B unit) :
  (k <= 8)%nat -> bytes v -> lim <= SSHBUF_SIZE_MAX ->
  m = (guard (negb (lim <? zlen v)) SSH_ERR_NO_BUFFER_SPACE ;!
       let! d := sshbuf_reserve (usize (zlen v + Z.of_nat k)) in
       poke d (be_bytes k (zlen v)) ;! poke (d + Z.of_nat k) v) ->
  refines m (q_put_string k lim v).
Proof.
  intros Hk Hv Hlim ->. unfold q_put_string. rewrite size_max_eq in Hlim.
  destruct (Z.ltb_spec lim (zlen v)); [by intros b Hb; eexists _, b|].
  apply (refines_append (be_bytes k (zlen v) ++ v) _
           (fun d => poke d (be_bytes k (zlen v)) ;! poke (d + Z.of_nat k) v)).
  - apply Forall_app. split; [apply be_bytes_bytes|done].
  - intros b. cbn [negb guard]. rewrite cbind_ret_l, zlen_app, zlen_be_bytes. pose proof (zlen_nonneg v).
    rewrite wrap_small by lia. by rewrite Z.add_comm.
  - intros p b Hp Hl. rewrite <- (poke_poke p) by done. by rewrite zlen_be_bytes.
Qed.

Lemma refines_put_string v :
  bytes v -> refines (sshbuf_put_string v) (q_put_string 4 (SSHBUF_SIZE_MAX - 4) v).
Proof.
  intros. apply refines_put_string_k; [lia|done|lia|]. unfold sshbuf_put_string. by rewrite POKE_U_be.
Qed.
Lemma refines_put_string8 v : bytes v -> refines (sshbuf_put_string8 v) (q_put_string 1 254 v).
Proof. intros. by apply refines_put_string_k; [lia|done|..]. Qed.

Lemma memchr0_bound s z : memchr0 s = Some z -> 0 <= z < zlen s.
Proof.
  revert z. induction s as [|c r IH]; intros z; cbn; [done|]. rewrite zlen_cons.
  destruct (c =? 0); [intros [= <-]; pose proof (zlen_nonneg r); lia|].
  destruct (memchr0 r) as [y|]; [|done]. cbn. intros [= <-]. specialize (IH y eq_refl). lia.
Qed.

Lemma c_str_bytes s : bytes s -> bytes (c_str s).
Proof. intros. unfold c_str. destruct (memchr0 s); [by apply Forall_take|done]. Qed.

Definition opt_str (v : option (list Z)) : list Z := match v with None => [] | Some s => c_str s end.

Lemma refines_put_cstring v :
  bytes (default [] v) ->
  refines (sshbuf_put_cstring v) (q_put_string 4 (SSHBUF_SIZE_MAX - 4) (opt_str v)).
Proof. intros Hv. apply refines_put_string. destruct v; [by apply c_str_bytes|done]. Qed.
Lemma refines_put_cstring8 v :
  bytes (default [] v) -> refines (sshbuf_put_cstring8 v) (q_put_string 1 254 (opt_str v)).
Proof. intros Hv. apply refines_put_string8. destruct v; [by apply c_str_bytes|done]. Qed.

(** The mpint body: no leading zeros but one before a set top bit. *)
Definition mpint (v : list Z) : list Z :=
  let s := skip_zeros v in (if msb_set s then [0] else []) ++ s.

Definition q_put_bignum2 (v : list Z) : M Z queue unit :=
  guard (negb (SSHBUF_SIZE_MAX - 5 <? zlen v)) SSH_ERR_NO_BUFFER_SPACE ;!
  q_append (be_bytes 4 (zlen (mpint v)) ++ mpint v).

Lemma skip_zeros_bytes v : bytes v -> bytes (skip_zeros v).
Proof. induction 1 as [|b r Hb Hr IH]; cbn; [done|]. destruct (b =? 0); [done|by constructor]. Qed.

Lemma mpint_bytes v : bytes v -> bytes (mpint v).
Proof.
  intros. unfold mpint. apply Forall_app. split; [|by apply skip_zeros_bytes].
  destruct (msb_set _); [|done]. apply Forall_cons_2; [unfold is_byte; lia|done].
Qed.

Lemma refines_put_bignum2 v :
  bytes v -> refines (sshbuf_put_bignum2_bytes v) (q_put_bignum2 v).
Proof.
  intros Hv. unfold sshbuf_put_bignum2_bytes, q_put_bignum2.
  destruct (Z.ltb_spec (SSHBUF_SIZE_MAX - 5) (zlen v)); [by intros b Hb; eexists _, b|].
  set (s := skip_zeros v). set (pre := if msb_set s then [0] else []).
  assert (mpint v = pre ++ s) as Hm by done.
  apply (refines_append (be_bytes 4 (zlen (mpint v)) ++ mpint v) _
           (fun d => poke d (POKE_U 4 (zlen s + zlen pre)) ;!
                     poke (d + 4) pre ;! poke (d + 4 + zlen pre) s)).
  - apply Forall_app. split; [apply be_bytes_bytes|by apply mpint_bytes].
  - intros b. cbn [negb guard]. rewrite cbind_ret_l, zlen_app, zlen_be_bytes, Hm, zlen_app. f_equal. f_equal. lia.
  - intros p b Hp Hl. rewrite Hm in *. rewrite POKE_U_be.
    replace (zlen s + zlen pre) with (zlen (pre ++ s)) by zlen_lia.
    rewrite <- (poke_poke p) by done. rewrite zlen_be_bytes. change (Z.of_nat 4) with 4.
    rewrite !zlen_app, zlen_be_bytes in Hl.
    pose proof (zlen_nonneg pre). pose proof (zlen_nonneg s).
    apply poke_then; [done|rewrite zlen_be_bytes; lia|]. intros b' Hb'.
    apply poke_poke; rewrite ?Hb', ?zlen_app; lia.
Qed.

(** ** Skipping, resetting, resizing *)

Lemma refines_consume n : 0 <= n -> refines (sshbuf_consume n) (q_take n ;! cret tt).
Proof.
  intros Hn b H. unfold q_take. rewrite consume_ok by done.
  unfold cbind, cget, guard. cbn [abs q_bytes].
  destruct (Z.ltb_spec (zlen (sb_contents b)) n) as [Hl|Hl]; [by eexists _, b|].
  eexists _, (advance b n). split_and!; [done|by apply advance_ok|]. by rewrite abs_advance.
Qed.

Lemma q_drop_end_eq n q :
  q_drop_end n q =
    if zlen (q_bytes q) <? n then (Er SSH_ERR_MESSAGE_INCOMPLETE, q)
    else (Ok tt, Queue (take (Z.to_nat (zlen (q_bytes q) - n)) (q_bytes q)) (q_max q) (q_ro q)).
Proof. unfold q_drop_end, cbind, cget, guard. by destruct (_ <? n). Qed.

Lemma refines_consume_end n : 0 <= n -> refines (sshbuf_consume_end n) (q_drop_end n).
Proof.
  intros Hn b H. unfold sshbuf_consume_end. rewrite q_drop_end_eq. cbn [q_bytes q_max q_ro abs].
  rewrite (cbind_ok _ _ _ _ _ (check_sanity_ok b H)). pose proof (zlen_nonneg (sb_contents b)).
  destruct (Z.eqb_spec n 0) as [->|Hn0].
  { rewrite take_ge by (unfold zlen; lia). replace (_ <? 0) with false by lia. by eexists _, b. }
  rewrite (cbind_ok _ _ _ _ _ (len_ok b H)).
  destruct (Z.ltb_spec (zlen (sb_contents b)) n) as [Hl|Hl]; [by eexists _, b|].
  pose proof (zlen_contents b H) as Hz. sb_facts H. destruct H.
  eexists _, _. split; [reflexivity|]. split.
  - constructor; cbn; try done. apply sane_range; done || lia.
  - rewrite Hz. unfold abs, sb_contents, zslice. cbn. rewrite take_take. do 3 f_equal. lia.
Qed.

(** [sshbuf_reset] empties the buffer; one that can be written needs the initial allocation to fit
    under [max_size]. *)
Definition q_reset : M Z queue unit := cmodify (fun q => Queue [] (q_max q) (q_ro q)).

Lemma reset_queue b :
  sb_ok b -> shared b = true \/ SSHBUF_SIZE_INIT <= sb_max_size b ->
  exists b', sshbuf_reset b = (Ok tt, b') /\ sb_ok b' /\ q_reset (abs b) = (Ok tt, abs b').
Proof.
  intros H Hm. unfold sshbuf_reset, q_reset, cmodify. unfold cbind at 1, cget. sb_facts H.
  assert (forall n, bytes (zrepeat n 0)) as Hz.
  { intros n. apply Forall_replicate. unfold is_byte. lia. }
  destruct (shared b) eqn:Hs.
  - eexists. split; [reflexivity|]. destruct H. split.
    + constructor; cbn; try done; [apply sane_range; done || lia|lia].
    + unfold abs, shared, sb_contents, zslice. cbn. by rewrite Z.sub_diag.
  - destruct Hm as [?|Hm]; [done|]. rewrite (cbind_ok _ _ _ _ _ (check_sanity_ok b H)). destruct H.
    destruct (negb _) eqn:Ha; (eexists; split; [reflexivity|]; split;
      [constructor; cbn; try done|done]).
    + apply sane_range; done || unfold SSHBUF_SIZE_INIT in *; lia.
    + by apply zlen_realloc.
    + by apply realloc_bytes.
    + apply sane_range; done || lia.
    + apply zlen_zrepeat. lia.
Qed.

Lemma reset_empties b :
  sb_ok b -> SSHBUF_SIZE_INIT <= sb_max_size b ->
  exists b', sshbuf_reset b = (Ok tt, b') /\ sb_ok b' /\ q_reset (abs b) = (Ok tt, abs b').
Proof. intros. apply reset_queue; auto. Qed.

(** What [sshbuf_set_max_size] may do to a queue. A limit that is not above the present one is sometimes
    refused although the contents are shorter: it must hold what is allocated. *)
Definition set_max_spec (n : Z) (q : queue) (r : res Z unit) (q' : queue) : Prop :=
  if n =? q_max q then r = Ok tt /\ q' = q
  else if q_ro q then r = Er SSH_ERR_BUFFER_READ_ONLY /\ q' = q
  else if SSHBUF_SIZE_MAX <? n then r = Er SSH_ERR_NO_BUFFER_SPACE /\ q' = q
  else (r = Ok tt /\ q' = Queue (q_bytes q) n false /\ zlen (q_bytes q) <= n)
       \/ (r = Er SSH_ERR_NO_BUFFER_SPACE /\ q' = q /\ n < q_max q).

Lemma set_max_size_queue b n : sb_ok b -> 0 <= n ->
  exists r b', sshbuf_set_max_size n b = (r, b') /\ sb_ok b' /\ set_max_spec n (abs b) r (abs b').
Proof.
  intros H Hn. unfold sshbuf_set_max_size. rewrite (cbind_ok _ _ _ _ _ (check_sanity_ok b H)).
  unfold cbind at 1, cget, set_max_spec. cbn [q_max q_ro q_bytes abs]. destruct (Z.eqb_spec n (sb_max_size b)); [by eexists _, b|].
  destruct (shared b) eqn:Hs; [by eexists _, b|]. cbn [negb guard]. rewrite cbind_ret_l.
  destruct (Z.ltb_spec SSHBUF_SIZE_MAX n); [by eexists _, b|]. cbn [negb guard].
  rewrite cbind_ret_l.
  destruct (maybe_pack_ok b (n <? sb_size b) H) as (b1 & E1 & Hq1 & Ha1 & Hz1 & _).
  rewrite (cbind_ok _ _ _ _ _ E1). unfold cbind at 1, cget.
  set (resize := if _ && _ then _ else _).
  assert (exists b2, resize b1 = (Ok tt, b2) /\ same_queue b b2) as (b2 & E2 & Hq2).
  { unfold resize. destruct ((n <? sb_alloc b1) && (sb_size b1 <? n)) eqn:Hc; [|by exists b1].
    eexists. split; [reflexivity|]. eapply same_queue_trans; [exact Hq1|].
    destruct Hq1 as (Hk1 & _). sb_facts Hk1.
    set (rlen := if n <? _ then _ else _).
    assert (sb_size b1 <= rlen <= n) as Hr.
    { pose proof (ROUNDUP_le (sb_size b1) SSHBUF_SIZE_INC ltac:(done)). unfold rlen.
      destruct (Z.ltb_spec (sb_size b1) SSHBUF_SIZE_INIT);
        repeat case_match; lia. }
    assert (same_queue b1 (with_range b1 (zsplice (sb_data b1) (sb_size b1)
              (zrepeat (sb_alloc b1 - sb_size b1) 0)) (sb_off b1) (sb_size b1) (sb_alloc b1))) as Hq.
    { unfold same_queue. destruct Hk1. split_and!; cbn; try done.
      - constructor; cbn; try done.
        + rewrite zlen_zsplice; rewrite ?zlen_zrepeat; lia.
        + unfold zsplice. rewrite !Forall_app. split_and!; [by apply Forall_take| |by apply Forall_drop].
          apply Forall_replicate. unfold is_byte. lia.
      - unfold sb_contents. cbn. apply zslice_zsplice_before; rewrite ?zlen_zrepeat; lia. }
    eapply same_queue_trans; [exact Hq|]. apply (realloc_same_queue (with_range _ _ _ _ _)); [apply Hq|].
    cbn. lia. }
  rewrite (cbind_ok _ _ _ _ _ E2). unfold cbind at 1, cget.
  pose proof (same_queue_abs _ _ Hq2) as Hab. destruct Hq2 as (Hk2 & Hc2 & Hm2 & Hs2). sb_facts Hk2. pose proof (zlen_contents b2 Hk2) as Hz2.
  destruct (Z.ltb_spec n (sb_alloc b2)); cbn [negb guard].
  - eexists _, b2. split_and!; [done..|]. right. split_and!; [done..|lia].
  - rewrite cbind_ret_l. eexists _, (with_max b2 n). split; [done|]. split.
    + destruct Hk2. constructor; cbn; try done. unfold sane in *. cbn. rewrite negb_true_iff, !orb_false_iff, !Z.ltb_ge in *. intuition lia.
    + left. split; [done|]. split; [|rewrite <- Hc2; pose proof (bo_off _ Hk2); lia].
      unfold abs. change (shared (with_max b2 n)) with (shared b2). change (sb_contents (with_max b2 n)) with (sb_contents b2). rewrite Hc2. cbn. congruence.
Qed.

(** * Every client of a buffer *)

(** The calls that read and write. *)
Inductive bop :=
| OGet (n : Z) | OConsume (n : Z) | OConsumeEnd (n : Z)
| OGetU8 | OGetU16 | OGetU32 | OGetU64
| OGetString | OGetString8 | OGetCstring | OGetCstring8 | OGetBignum2
| OPut (v : list Z)
| OPutU8 (v : Z) | OPutU16 (v : Z) | OPutU32 (v : Z) | OPutU64 (v : Z)
| OPutString (v : list Z) | OPutString8 (v : list Z)
| OPutCstring (v : option (list Z)) | OPutCstring8 (v : option (list Z))
| OPutBignum2 (v : list Z).

Inductive bval := VUnit | VNum (n : Z) | VBytes (s : list Z).

Section Ops.
Context {S : Type}.
Definition as_unit (m : M Z S unit) : M Z S bval := m ;! cret VUnit.
Definition as_num (m : M Z S Z) : M Z S bval := let! n := m in cret (VNum n).
Definition as_bytes (m : M Z S (list Z)) : M Z S bval := let! s := m in cret (VBytes s).
End Ops.

Definition run_bop (op : bop) : B bval :=
  match op with
  | OGet n => as_bytes (sshbuf_get (usize n))
  | OConsume n => as_unit (sshbuf_consume (usize n))
  | OConsumeEnd n => as_unit (sshbuf_consume_end (usize n))
  | OGetU8 => as_num sshbuf_get_u8
  | OGetU16 => as_num sshbuf_get_u16
  | OGetU32 => as_num sshbuf_get_u32
  | OGetU64 => as_num sshbuf_get_u64
  | OGetString => as_bytes sshbuf_get_string
  | OGetString8 => as_bytes sshbuf_get_string8
  | OGetCstring => as_bytes sshbuf_get_cstring
  | OGetCstring8 => as_bytes sshbuf_get_cstring8
  | OGetBignum2 => as_bytes sshbuf_get_bignum2_bytes_direct
  | OPut v => as_unit (sshbuf_put v)
  | OPutU8 v => as_unit (sshbuf_put_u8 v)
  | OPutU16 v => as_unit (sshbuf_put_u16 v)
  | OPutU32 v => as_unit (sshbuf_put_u32 v)
  | OPutU64 v => as_unit (sshbuf_put_u64 v)
  | OPutString v => as_unit (sshbuf_put_string v)
  | OPutString8 v => as_unit (sshbuf_put_string8 v)
  | OPutCstring v => as_unit (sshbuf_put_cstring v)
  | OPutCstring8 v => as_unit (sshbuf_put_cstring8 v)
  | OPutBignum2 v => as_unit (sshbuf_put_bignum2_bytes v)
  end.

(** The same operations on a bounded byte queue. *)
Definition spec_bop (op : bop) : M Z queue bval :=
  match op with
  | OGet n => as_bytes (q_take (usize n))
  | OConsume n => as_unit (q_take (usize n) ;! cret tt)
  | OConsumeEnd n => as_unit (q_drop_end (usize n))
  | OGetU8 => as_num (q_get_u 1)
  | OGetU16 => as_num (q_get_u 2)
  | OGetU32 => as_num (q_get_u 4)
  | OGetU64 => as_num (q_get_u 8)
  | OGetString => as_bytes (q_read_string 4 (fun _ => None) (fun s => s))
  | OGetString8 => as_bytes (q_read_string 1 (fun _ => None) (fun s => s))
  | OGetCstring => as_bytes (q_read_string 4 cstring_check (fun s => s))
  | OGetCstring8 => as_bytes (q_read_string 1 cstring_check (fun s => s))
  | OGetBignum2 => as_bytes (q_read_string 4 bignum_check skip_zeros)
  | OPut v => as_unit (q_append v)
  | OPutU8 v => as_unit (q_append (be_bytes 1 v))
  | OPutU16 v => as_unit (q_append (be_bytes 2 v))
  | OPutU32 v => as_unit (q_append (be_bytes 4 v))
  | OPutU64 v => as_unit (q_append (be_bytes 8 v))
  | OPutString v => as_unit (q_put_string 4 (SSHBUF_SIZE_MAX - 4) v)
  | OPutString8 v => as_unit (q_put_string 1 254 v)
  | OPutCstring v => as_unit (q_put_string 4 (SSHBUF_SIZE_MAX - 4) (opt_str v))
  | OPutCstring8 v => as_unit (q_put_string 1 254 (opt_str v))
  | OPutBignum2 v => as_unit (q_put_bignum2 v)
  end.

(** The byte strings among the arguments. *)
Definition bop_arg (op : bop) : list Z :=
  match op with
  | OPut v | OPutString v | OPutString8 v | OPutBignum2 v => v
  | OPutCstring v | OPutCstring8 v => default [] v
  | _ => []
  end.

Lemma refines_as_unit (m : B unit) sm : refines m sm -> refines (as_unit m) (as_unit sm).
Proof. intros. apply refines_bind; [done|]. intros. apply refines_ret. Qed.
Lemma refines_as_num (m : B Z) sm : refines m sm -> refines (as_num m) (as_num sm).
Proof. intros. apply refines_bind; [done|]. intros. apply refines_ret. Qed.
Lemma refines_as_bytes (m : B (list Z)) sm : refines m sm -> refines (as_bytes m) (as_bytes sm).
Proof. intros. apply refines_bind; [done|]. intros. apply refines_ret. Qed.

Create HintDb sshbuf discriminated.
#[export] Hint Resolve refines_as_unit refines_as_num refines_as_bytes
  refines_get refines_consume refines_consume_end
  refines_get_u8 refines_get_u16 refines_get_u32 refines_get_u64
  refines_get_string refines_get_string8 refines_get_cstring refines_get_cstring8 refines_get_bignum2
  refines_put refines_put_u8 refines_put_u16 refines_put_u32 refines_put_u64
  refines_put_string refines_put_string8 refines_put_cstring refines_put_cstring8
  refines_put_bignum2 : sshbuf.

Lemma refines_bop op : bytes (bop_arg op) -> refines (run_bop op) (spec_bop op).
Proof.
  intros Hb. assert (forall n, 0 <= usize n) by (intros; apply wrap_range; lia).
  destruct op; cbn [run_bop spec_bop bop_arg] in *; auto with sshbuf.
Qed.

(** A program: the calls in order, going on after errors; the results. *)
Fixpoint run_all {O S} (run : O -> M Z S bval) (ops : list O) (s : S) : list (res Z bval) * S :=
  match ops with
  | [] => ([], s)
  | op :: r =>
      let (v, s1) := run op s in
      let (vs, s2) := run_all run r s1 in (v :: vs, s2)
  end.

Definition returned {A} (r : res Z A) : bool := match r with Ok _ | Er _ => true | _ => false end.

(** No operation of the queue faults or panics. *)
Section Returns.
Context {S : Type}.
Definition returns {A} (m : M Z S A) : Prop := forall q, returned (fst (m q)) = true.

Lemma returns_bind {A C} (m : M Z S A) (f : A -> M Z S C) :
  returns m -> (forall a, returns (f a)) -> returns (let! x := m in f x).
Proof.
  intros Hm Hf q. specialize (Hm q). unfold cbind. destruct (m q) as [[a|e| |] q1]; try done.
  apply Hf.
Qed.
Lemma returns_ret {A} (a : A) : returns (cret a).
Proof. done. Qed.
Lemma returns_guard c e : returns (guard c e).
Proof. by destruct c. Qed.
Lemma returns_check o : returns (check o).
Proof. by destruct o. Qed.
Lemma returns_get : returns cget.
Proof. done. Qed.
Lemma returns_put s : returns (cput s).
Proof. done. Qed.
End Returns.

Lemma spec_returns op : returns (spec_bop op).
Proof.
  destruct op; cbn [spec_bop]; unfold as_unit, as_num, as_bytes, q_get_u, q_read_string, q_string,
    q_skip_string, q_take, q_drop_end, q_put_string, q_put_bignum2, q_append;
    repeat first [apply returns_bind; [|intros ?] | apply returns_ret | apply returns_guard
      | apply returns_check | apply returns_get | apply returns_put].
Qed.

(** ** All calls, with the two that change a buffer as a whole *)

Inductive bcall := Call (op : bop) | OReset | OSetMax (n : Z).

Definition run_bcall (c : bcall) : B bval :=
  match c with
  | Call op => run_bop op
  | OReset => as_unit sshbuf_reset
  | OSetMax n => as_unit (sshbuf_set_max_size (usize n))
  end.

(** One call, and a sequence of calls, on a queue. *)
Definition call_spec (c : bcall) (q : queue) (r : res Z bval) (q' : queue) : Prop :=
  match c with
  | Call op => spec_bop op q = (r, q')
  | OReset => r = Ok VUnit /\ q' = Queue [] (q_max q) (q_ro q)
  | OSetMax n => exists r0, set_max_spec (usize n) q r0 q' /\ r = match r0 with Ok _ => Ok VUnit | Er e => Er e | Panic => Panic | Fault => Fault end
  end.
Inductive queue_run : list bcall -> queue -> list (res Z bval) -> queue -> Prop :=
| run_none q : queue_run [] q [] q
| run_call c calls q r q1 rs q2 :
    call_spec c q r q1 -> queue_run calls q1 rs q2 -> queue_run (c :: calls) q (r :: rs) q2.

Definition bcall_arg (c : bcall) : list Z := match c with Call op => bop_arg op | _ => [] end.

(** The limits under which a buffer may be reset: a buffer that can be written keeps room for its first allocation. *)
Definition resets_fit (calls : list bcall) (q : queue) : Prop :=
  OReset ∈ calls -> (q_ro q = true \/ SSHBUF_SIZE_INIT <= q_max q) /\ forall n, OSetMax n ∈ calls -> SSHBUF_SIZE_INIT <= usize n.

(** The operations on the queue keep its limit and its flag. *)
Definition limit_kept {A} (m : M Z queue A) : Prop := forall q, q_max (snd (m q)) = q_max q /\ q_ro (snd (m q)) = q_ro q.
Lemma limit_bind {A C} (m : M Z queue A) (f : A -> M Z queue C) :
  limit_kept m -> (forall a, limit_kept (f a)) -> limit_kept (let! x := m in f x).
Proof.
  intros Hm Hf q. unfold cbind. specialize (Hm q). destruct (m q) as [[a|e| |] q1]; try done. cbn in Hm. destruct Hm as [<- <-]. apply Hf.
Qed.
Lemma limit_pure {A} (m : M Z queue A) : (forall q, snd (m q) = q) -> limit_kept m.
Proof. intros H q. by rewrite H. Qed.
Lemma limit_guard c e : limit_kept (guard c e).
Proof. by destruct c. Qed.
Lemma limit_check o : limit_kept (check o).
Proof. by destruct o. Qed.
Lemma limit_edit {A} (c : queue -> bool) e (f : queue -> list Z) (k : queue -> A) :
  limit_kept (let! q := cget in guard (c q) e ;! cput (Queue (f q) (q_max q) (q_ro q)) ;! cret (k q)).
Proof. intros q. unfold cbind, cget, guard, cput. by destruct (c q). Qed.
Lemma limit_take n : limit_kept (q_take n).
Proof. apply limit_edit. Qed.
Lemma limit_drop_end n : limit_kept (q_drop_end n).
Proof. intros q. unfold q_drop_end, cbind, cget, guard, cput. by destruct (negb _). Qed.
Lemma limit_append v : limit_kept (q_append v).
Proof. intros q. unfold q_append, cbind, cget, guard, cput. by destruct (negb _), (_ <=? _). Qed.
Lemma spec_limit op : limit_kept (spec_bop op).
Proof.
  destruct op; cbn [spec_bop]; unfold as_unit, as_num, as_bytes, q_get_u, q_read_string, q_string, q_skip_string, q_put_string, q_put_bignum2;
    repeat first [apply limit_take | apply limit_drop_end | apply limit_append | apply limit_guard | apply limit_check
      | apply limit_bind; [|intros ?] | by apply limit_pure].
Qed.

Lemma bcall_refines c b : sb_ok b -> bytes (bcall_arg c) -> resets_fit [c] (abs b) ->
  exists r b', run_bcall c b = (r, b') /\ sb_ok b' /\ call_spec c (abs b) r (abs b') /\ returned r = true.
Proof.
  intros H Ha Hr. destruct c as [op| |n]; cbn [run_bcall call_spec bcall_arg] in *.
  - destruct (refines_bop op Ha b H) as (r & b' & E & H' & S). exists r, b'. split_and!; [done..|].
    pose proof (spec_returns op (abs b)) as Hret. by rewrite S in Hret.
  - destruct (Hr ltac:(left)) as [Hm _]. destruct (reset_queue b H Hm) as (b' & E & H' & S).
    exists (Ok VUnit), b'. split; [unfold as_unit; by rewrite (cbind_ok _ _ _ _ _ E)|]. split; [done|]. split; [split; [done|unfold q_reset, cmodify in S; congruence]|done].
  - destruct (set_max_size_queue b (usize n) H) as (r0 & b' & E & H' & S); [apply wrap_range; lia|].
    assert (match r0 with Ok _ | Er _ => True | _ => False end) as Hret.
    { unfold set_max_spec in S. repeat case_match; try done; intuition congruence. }
    unfold as_unit, cbind. rewrite E. destruct r0 as [[]|e| |]; [|..|done|done]; eexists _, b'; (split; [reflexivity|]); (split_and!; [done| |done]); by eexists.
Qed.

Lemma resets_fit_head c calls q : resets_fit (c :: calls) q -> resets_fit [c] q.
Proof.
  intros H Hin. assert (OReset = c) as <- by (by apply list_elem_of_singleton in Hin). destruct (H ltac:(left)) as [? Hn].
  split; [done|]. intros n Hn'. by apply list_elem_of_singleton in Hn'.
Qed.

Lemma resets_fit_tail c calls q r q' : resets_fit (c :: calls) q -> call_spec c q r q' -> resets_fit calls q'.
Proof.
  intros H Hs Hin. destruct (H ltac:(by right)) as [Hq Hn]. split; [|intros n ?; apply Hn; by right].
  destruct c as [op| |n]; cbn [call_spec] in Hs.
  - pose proof (spec_limit op q) as Hl. rewrite Hs in Hl. cbn in Hl. destruct Hl as [-> ->]. done.
  - by destruct Hs as [_ ->].
  - destruct Hs as (r0 & Hs & _). specialize (Hn n ltac:(left)). revert Hn Hs. generalize (usize n) as n'. intros n' Hn Hs.
    assert (q' = q \/ q' = Queue (q_bytes q) n' false) as [->| ->]; [|done|by right].
    unfold set_max_spec in Hs. repeat case_match; intuition.
Qed.

(** C16: an [sshbuf] is a bounded byte queue. Any sequence of calls that read, write, reset the buffer or set its limit, with
    any arguments, run on a buffer whose invariant holds, gives call for call the results and error codes of
    a queue of bytes with a size limit and a read-only flag, and leaves a buffer that
    satisfies the invariant and represents the resulting queue: packing,
    reallocation and offsets are not observable, no call faults and no sanity
    check fails. One thing of the representation is observable: a lower limit can be refused although the contents would fit ([set_max_spec]).
    A sequence with resets must keep to limits of at least [SSHBUF_SIZE_INIT] ([resets_fit]); otherwise
    [sshbuf_reset] breaks the invariant ([sshbuf_reset_small_max]). *)
Theorem sshbuf_refines_queue calls b :
  sb_ok b -> Forall (fun c => bytes (bcall_arg c)) calls -> resets_fit calls (abs b) ->
  exists rs b', run_all run_bcall calls b = (rs, b') /\ sb_ok b' /\ queue_run calls (abs b) rs (abs b') /\
    forallb returned rs = true.
Proof.
  intros H Ha. revert b H. induction Ha as [|c calls Hc _ IH]; intros b H Hr; [by exists [], b; split_and!; [..|constructor|]|].
  destruct (bcall_refines c b H Hc (resets_fit_head _ _ _ Hr)) as (r & b1 & E & H1 & S & R).
  destruct (IH b1 H1 (resets_fit_tail _ _ _ _ _ Hr S)) as (rs & b2 & E2 & H2 & S2 & R2).
  exists (r :: rs), b2. cbn [run_all]. rewrite E, E2. split_and!; [done..|by econstructor|]. cbn. by rewrite R, R2.
Qed.

Lemma new_ok : sb_ok sshbuf_new.
Proof. constructor; try done. apply Forall_replicate. unfold is_byte. lia. Qed.

Lemma sshbuf_refines_queue_witness :
  let calls := [OSetMax 4096; Call (OPutString8 [1; 2; 3]); Call OGetU16; Call OGetString; OReset] in
  exists rs b', run_all run_bcall calls sshbuf_new = (rs, b') /\ sb_ok b' /\ queue_run calls (abs sshbuf_new) rs (abs b') /\
    forallb returned rs = true.
Proof.
  apply (sshbuf_refines_queue [OSetMax 4096; Call (OPutString8 [1; 2; 3]); Call OGetU16; Call OGetString; OReset] sshbuf_new new_ok).
  - repeat (apply Forall_cons_2 || apply Forall_nil_2); try (split; discriminate || reflexivity); exact I.
  - intros _. split; [right; cbn; discriminate|]. intros n H. repeat (apply elem_of_cons in H as [H|H]; [try discriminate H; injection H as ->; vm_compute; discriminate|]). by apply elem_of_nil in H.
Defined.

Lemma sshbuf_from_ok blob b : bytes blob -> sshbuf_from blob = Some b ->
  sb_ok b /\ abs b = Queue blob (zlen blob) true.
Proof.
  unfold sshbuf_from. destruct (Z.ltb_spec SSHBUF_SIZE_MAX (zlen blob)); [done|]. intros Hb [= <-].
  pose proof (zlen_nonneg blob). split.
  - constructor; cbn; try done. unfold sane. cbn.
    rewrite negb_true_iff, !orb_false_iff, !Z.ltb_ge. rewrite size_max_eq in *. split_and!; done || lia.
  - unfold abs, sb_contents. cbn. rewrite Z.sub_0_r. by rewrite zslice_all.
Qed.

(** A limit below the initial allocation and a reset make a buffer that fails
    its own sanity check. *)
Lemma sshbuf_reset_small_max :
  exists b, (sshbuf_set_max_size 100 ;! sshbuf_reset) sshbuf_new = (Ok tt, b) /\
    sshbuf_check_sanity b = (Panic, b).
Proof. eexists. split; vm_compute; reflexivity. Qed.

(** * Composing messages

    [puts m bs]: [m] appends exactly [bs] when there is room. [gets m bs v]: on a
    buffer that starts with [bs], [m] consumes exactly [bs] and returns [v]. *)
Section Messages.
Context {E : Type}.

Definition puts (m : M E sshbuf unit) (bs : list Z) : Prop :=
  forall b, sb_ok b -> shared b = false -> zlen (sb_contents b) + zlen bs <= sb_max_size b ->
    exists b', m b = (Ok tt, b') /\ sb_ok b' /\
      abs b' = Queue (sb_contents b ++ bs) (sb_max_size b) false.

Definition gets {A} (m : M E sshbuf A) (bs : list Z) (v : A) : Prop :=
  forall b rest, sb_ok b -> sb_contents b = bs ++ rest ->
    exists b', m b = (Ok v, b') /\ sb_ok b' /\ abs b' = Queue rest (sb_max_size b) (shared b).

Lemma abs_inv b bs max ro :
  abs b = Queue bs max ro -> sb_contents b = bs /\ sb_max_size b = max /\ shared b = ro.
Proof. by intros [= <- <- <-]. Qed.

Lemma puts_seq m1 m2 a c : puts m1 a -> puts m2 c -> puts (m1 ;! m2) (a ++ c).
Proof.
  intros H1 H2 b H Hs Hf. rewrite zlen_app in Hf. pose proof (zlen_nonneg c).
  destruct (H1 b H Hs) as (b1 & E1 & K1 & (Hc1 & Hm1 & Hs1)%abs_inv); [lia|].
  destruct (H2 b1 K1 Hs1) as (b2 & E2 & K2 & A2); [rewrite Hc1, Hm1, zlen_app; lia|].
  exists b2. rewrite (cbind_ok _ _ _ _ _ E1). rewrite Hc1, Hm1 in A2.
  by rewrite app_assoc.
Qed.
Lemma puts_ret : puts (cret tt) [].
Proof.
  intros b H Hs _. exists b. split_and!; try done. unfold abs. by rewrite app_nil_r, Hs.
Qed.

Lemma puts_guard c e m bs : c = true -> puts m bs -> puts (guard c e ;! m) bs.
Proof. by intros ->. Qed.

Lemma gets_bind {A C} (m : M E sshbuf A) (f : A -> M E sshbuf C) a c v w :
  gets m a v -> gets (f v) c w -> gets (let! x := m in f x) (a ++ c) w.
Proof.
  intros H1 H2 b rest H Hr. rewrite <- app_assoc in Hr.
  destruct (H1 b _ H Hr) as (b1 & E1 & K1 & (Hc1 & Hm1 & Hs1)%abs_inv).
  destruct (H2 b1 rest K1 Hc1) as (b2 & E2 & K2 & A2).
  exists b2. rewrite (cbind_ok _ _ _ _ _ E1). by rewrite Hm1, Hs1 in A2.
Qed.
Lemma gets_ret {A} (v : A) : gets (cret v) [] v.
Proof. intros b rest H Hr. exists b. split_and!; try done. unfold abs. by rewrite Hr. Qed.

Lemma gets_last {A C} (m : M E sshbuf A) (f : A -> M E sshbuf C) a v w :
  gets m a v -> gets (f v) [] w -> gets (let! x := m in f x) a w.
Proof. intros H1 H2. rewrite <- (app_nil_r a). by eapply gets_bind. Qed.
Lemma gets_guard {A} c e (m : M E sshbuf A) bs v :
  c = true -> gets m bs v -> gets (guard c e ;! m) bs v.
Proof. by intros ->. Qed.
End Messages.

Lemma puts_maperr {E E'} (g : E -> E') m bs : puts m bs -> puts (cmaperr g m) bs.
Proof.
  intros Hm b H Hs Hf. destruct (Hm b H Hs Hf) as (b' & E1 & K & A). exists b'.
  unfold cmaperr. by rewrite E1.
Qed.
Lemma gets_maperr {E E' A} (g : E -> E') (m : M E sshbuf A) bs v :
  gets m bs v -> gets (cmaperr g m) bs v.
Proof.
  intros Hm b rest H Hr. destruct (Hm b rest H Hr) as (b' & E1 & K & Ab). exists b'.
  unfold cmaperr. by rewrite E1.
Qed.

(** ** Copying a string into another buffer *)

Lemma q_string_inv k q s q' : q_string k q = (Ok s, q') ->
  q' = q /\ s = zslice (q_bytes q) (Z.of_nat k) (be_val (take k (q_bytes q))) /\
  Z.of_nat k <= zlen (q_bytes q) /\ be_val (take k (q_bytes q)) <= zlen (q_bytes q) - Z.of_nat k /\
  be_val (take k (q_bytes q)) <= SSHBUF_SIZE_MAX - Z.of_nat k.
Proof.
  unfold q_string, cbind, cget, guard.
  destruct (Z.ltb_spec (zlen (q_bytes q)) (Z.of_nat k)); cbn; [done|].
  destruct (Z.ltb_spec (SSHBUF_SIZE_MAX - Z.of_nat k) (be_val (take k (q_bytes q)))); cbn; [done|].
  destruct (Z.ltb_spec (zlen (q_bytes q) - Z.of_nat k) (be_val (take k (q_bytes q)))); cbn; [done|].
  by intros [= <- <-].
Qed.

(** The length field, then the body, of a string that was seen to be there. *)
Lemma q_take_prefix n q : 0 <= n <= zlen (q_bytes q) ->
  q_take n q = (Ok (take (Z.to_nat n) (q_bytes q)), Queue (drop (Z.to_nat n) (q_bytes q)) (q_max q) (q_ro q)).
Proof. intros. unfold q_take, cbind, cget, guard. by replace (_ <? _) with false by lia. Qed.

(** [kb] is a private buffer with the usual limit. *)
Definition private (kb : sshbuf) : Prop :=
  sb_ok kb /\ shared kb = false /\ sb_max_size kb = SSHBUF_SIZE_MAX.
Lemma private_new : private sshbuf_new.
Proof. split; [apply new_ok|done]. Qed.

(** What [sshbuf_get_stringb] and [sshbuf_get_stringb8] do on success: the string at the front of the
    first buffer moves to the end of the second. Errors leave both intact as buffers, and
    with a string at the front the only one is a full second buffer. *)
Definition get_stringb_k (k : nat) (get : B Z) : M Z (sshbuf * sshbuf) unit :=
  on_fst (peek_string_k (Z.of_nat k) (8 * Z.of_nat k)) ;!
  let! len := on_fst get in
  let! p := on_snd (sshbuf_reserve len) in
  let! d := on_fst (sshbuf_get len) in
  on_snd (poke p d).
Lemma get_stringb_k_wp k get b kb : (1 <= k)%nat -> refines get (q_get_u k) -> sb_ok b -> private kb ->
  wp (get_stringb_k k get) (b, kb)
    (fun _ s => sb_ok (fst s) /\ private (snd s) /\
       exists str, q_string k (abs b) = (Ok str, abs b) /\ sb_contents (snd s) = sb_contents kb ++ str /\
         abs (fst s) = Queue (drop (Z.to_nat (zlen str)) (drop k (sb_contents b))) (sb_max_size b) (shared b))
    (fun _ s => sb_ok (fst s) /\ private (snd s) /\
       forall str, q_string k (abs b) = (Ok str, abs b) ->
         SSHBUF_SIZE_MAX < zlen (sb_contents kb) + zlen str).
Proof.
  intros Hk1 Hget H (Hk & Hsh & Hmx). unfold get_stringb_k.
  destruct (peek_string_ok k b Hk1 H) as [Hp Hs].
  destruct (q_string k (abs b)) as [r q] eqn:Eq. cbn [fst snd] in Hp, Hs. subst q.
  unfold wp, cbind at 1, on_fst. cbn [fst snd].
  destruct r as [s|e| |]; try done; [|by rewrite Hp]. destruct Hp as (p & len & E & Hat). rewrite E.
  pose proof Eq as Eq0. apply q_string_inv in Eq as (_ & Es & Hl4 & Hlen & _). cbn [abs q_bytes] in Es, Hl4, Hlen.
  set (n := be_val (take k (sb_contents b))) in *.
  assert (Hn : 0 <= n) by apply be_val_range, Forall_take, contents_bytes, H.
  assert (zlen s = n) as Hsn by (rewrite Es; apply zlen_zslice; lia).
  assert (bytes s) as Hbs by (rewrite Es; apply Forall_take, Forall_drop, contents_bytes, H).
  destruct (Hget b H) as (r1 & b1 & E1 & H1 & S1).
  unfold q_get_u, cbind in S1. rewrite q_take_prefix in S1 by (cbn [abs q_bytes]; lia).
  cbn [abs q_bytes q_max q_ro] in S1. apply pair_equal_spec in S1 as [<- S1].
  rewrite Nat2Z.id in *. fold n in E1.
  unfold cbind at 1. cbn [fst snd]. rewrite E1. unfold cbind at 1, on_snd. cbn [fst snd]. rewrite <- Hsn.
  destruct (Z.leb_spec (zlen (sb_contents kb) + zlen s) (sb_max_size kb)) as [Hle|Hgt].
  2:{ rewrite (reserve_fails kb (zlen s) SSH_ERR_NO_BUFFER_SPACE); [|].
      { split; [exact H1|]. split; [by split_and!|]. intros str [= <-]. by rewrite <- Hmx. }
      rewrite check_reserve_ok, Hsh by (done || lia). by replace (_ <=? _) with false by lia. }
  destruct (reserve_append kb s Hk Hbs Hsh Hle) as (pp & kb1 & E2 & Hp0 & Hpl & Hpoke). rewrite E2.
  unfold cbind at 1. cbn [fst snd].
  destruct (refines_get (zlen s) (zlen_nonneg s) b1 H1) as (r3 & b3 & E3 & H3 & S3). rewrite E3.
  rewrite <- S1, q_take_prefix in S3 by (cbn [q_bytes]; unfold zlen in *; rewrite length_drop; lia).
  apply pair_equal_spec in S3 as [<- S3]. cbn [fst snd q_bytes].
  assert (take (Z.to_nat (zlen s)) (drop k (sb_contents b)) = s) as ->.
  { rewrite Hsn, Es. unfold zslice. by rewrite Nat2Z.id. }
  destruct (poke pp s kb1) as [r4 kb2] eqn:E4.
  assert (r4 = Ok tt) as ->. { unfold poke in E4. replace (_ && _) with true in E4 by lia. congruence. }
  destruct (Hpoke kb2 eq_refl) as [H4 (Hc4 & Hm4 & Hs4)%abs_inv].
  split; [exact H3|]. split; [unfold private; cbn [snd]; split_and!; congruence|].
  exists s. split_and!; [done|done|]. exact (eq_sym S3).
Qed.

Lemma get_stringb_wp b kb : sb_ok b -> private kb ->
  wp sshbuf_get_stringb (b, kb)
    (fun _ s => sb_ok (fst s) /\ private (snd s) /\
       exists str, q_string 4 (abs b) = (Ok str, abs b) /\ sb_contents (snd s) = sb_contents kb ++ str /\
         abs (fst s) = Queue (drop (Z.to_nat (zlen str)) (drop 4 (sb_contents b))) (sb_max_size b) (shared b))
    (fun _ s => sb_ok (fst s) /\ private (snd s) /\
       forall str, q_string 4 (abs b) = (Ok str, abs b) ->
         SSHBUF_SIZE_MAX < zlen (sb_contents kb) + zlen str).
Proof. apply (get_stringb_k_wp 4); [lia|apply refines_get_u32]. Qed.

(** From the refinement: *)
Lemma refines_puts (m : B unit) bs : refines m (q_append bs) -> puts m bs.
Proof.
  intros Hr b H Hs Hf. destruct (Hr b H) as (r & b' & E & H' & S).
  unfold q_append, cbind, cget, guard in S. cbn [abs q_ro q_bytes q_max] in S. rewrite Hs in S.
  cbn in S. replace (_ <=? _) with true in S by lia. apply pair_equal_spec in S as [<- S].
  exists b'. by split_and!.
Qed.
Lemma refines_puts_string k lim (m : B unit) v :
  refines m (q_put_string k lim v) -> zlen v <= lim -> puts m (be_bytes k (zlen v) ++ v).
Proof.
  intros Hr Hl. apply refines_puts. unfold q_put_string in Hr.
  by replace (lim <? zlen v) with false in Hr by lia.
Qed.

Lemma refines_gets {A} (m : B A) sm bs v :
  refines m sm ->
  (forall rest max ro, sm (Queue (bs ++ rest) max ro) = (Ok v, Queue rest max ro)) -> gets m bs v.
Proof.
  intros Hr Hsm b rest H Hb. destruct (Hr b H) as (r & b' & E & H' & S).
  unfold abs at 1 in S. rewrite Hb, Hsm in S. apply pair_equal_spec in S as [<- S]. by exists b'.
Qed.

Lemma q_take_app bs rest max ro :
  q_take (zlen bs) (Queue (bs ++ rest) max ro) = (Ok bs, Queue rest max ro).
Proof.
  unfold q_take, cbind, cget, guard. cbn [q_bytes]. rewrite zlen_app. pose proof (zlen_nonneg rest).
  replace (_ <? _) with false by lia. cbn. unfold zlen.
  by rewrite Nat2Z.id, drop_app_length, take_app_length.
Qed.

Lemma q_string_app k s rest max ro :
  0 <= zlen s < 256 ^ Z.of_nat k -> zlen s <= SSHBUF_SIZE_MAX - Z.of_nat k ->
  let q := Queue (be_bytes k (zlen s) ++ s ++ rest) max ro in q_string k q = (Ok s, q).
Proof.
  intros Hs Hm q. unfold q_string, cbind, cget, guard, q. cbn [q_bytes].
  rewrite !zlen_app, zlen_be_bytes. pose proof (zlen_nonneg rest).
  rewrite (take_app_length' (be_bytes k (zlen s))) by by rewrite length_be_bytes.
  rewrite be_val_be_bytes, Z.mod_small by lia.
  replace (Z.of_nat k + _ <? _) with false by lia. cbn [negb cret].
  replace (_ <? zlen s) with false by lia. cbn [negb cret].
  replace (_ <? zlen s) with false by lia. cbn [negb cret]. do 2 f_equal.
  unfold zslice, zlen. rewrite !Nat2Z.id, drop_app_length' by by rewrite length_be_bytes.
  by rewrite take_app_length.
Qed.

Lemma q_read_string_app {A} k chk (f : list Z -> A) s rest max ro :
  0 <= zlen s < 256 ^ Z.of_nat k -> zlen s <= SSHBUF_SIZE_MAX - Z.of_nat k -> chk s = None ->
  q_read_string k chk f (Queue ((be_bytes k (zlen s) ++ s) ++ rest) max ro) =
    (Ok (f s), Queue rest max ro).
Proof.
  intros Hs Hm Hc. unfold q_read_string. rewrite <- app_assoc.
  rewrite (cbind_ok _ _ _ _ _ (q_string_app k s rest max ro Hs Hm)).
  rewrite Hc. cbn [check]. rewrite cbind_ret_l. unfold q_skip_string. rewrite cbind_assoc, app_assoc.
  replace (Z.of_nat k + zlen s) with (zlen (be_bytes k (zlen s) ++ s)) by zlen_lia.
  by rewrite (cbind_ok _ _ _ _ _ (q_take_app _ _ _ _)).
Qed.

Lemma gets_string_k {A} k chk f (m : B A) s :
  refines m (q_read_string k chk f) ->
  zlen s < 256 ^ Z.of_nat k -> zlen s <= SSHBUF_SIZE_MAX - Z.of_nat k -> chk s = None ->
  gets m (be_bytes k (zlen s) ++ s) (f s).
Proof.
  intros Hr H1 H2 H3. apply (refines_gets _ _ _ _ Hr). intros.
  pose proof (zlen_nonneg s). by apply q_read_string_app.
Qed.

Lemma gets_u k (m : B Z) v :
  refines m (q_get_u k) -> 0 <= v < 256 ^ Z.of_nat k -> gets m (be_bytes k v) v.
Proof.
  intros Hr Hv. apply (refines_gets _ _ _ _ Hr). intros. unfold q_get_u, cbind.
  rewrite <- (zlen_be_bytes k v), q_take_app. cbn. by rewrite be_val_be_bytes, Z.mod_small by lia.
Qed.

Lemma gets_bytes s : gets (sshbuf_get (zlen s)) s s.
Proof.
  apply (refines_gets _ _ _ _ (refines_get (zlen s) (zlen_nonneg s))). intros. apply q_take_app.
Qed.

Lemma puts_u8 v : puts (sshbuf_put_u8 v) (be_bytes 1 v).
Proof. apply refines_puts, refines_put_u8. Qed.
Lemma puts_u16 v : puts (sshbuf_put_u16 v) (be_bytes 2 v).
Proof. apply refines_puts, refines_put_u16. Qed.
Lemma puts_u32 v : puts (sshbuf_put_u32 v) (be_bytes 4 v).
Proof. apply refines_puts, refines_put_u32. Qed.
Lemma puts_u64 v : puts (sshbuf_put_u64 v) (be_bytes 8 v).
Proof. apply refines_puts, refines_put_u64. Qed.
Lemma puts_bytes v : bytes v -> puts (sshbuf_put v) v.
Proof. intros. by apply refines_puts, refines_put. Qed.

(** Strings with a four-byte and with a one-byte length. *)
Definition str32 (s : list Z) : list Z := be_bytes 4 (zlen s) ++ s.
Definition str8 (s : list Z) : list Z := be_bytes 1 (zlen s) ++ s.

Lemma puts_string v : bytes v -> zlen v <= SSHBUF_SIZE_MAX - 4 -> puts (sshbuf_put_string v) (str32 v).
Proof. intros Hv Hl. apply (refines_puts_string 4 _ _ v (refines_put_string v Hv) Hl). Qed.
Lemma puts_string8 v : bytes v -> zlen v <= 254 -> puts (sshbuf_put_string8 v) (str8 v).
Proof. intros Hv Hl. apply (refines_puts_string 1 _ _ v (refines_put_string8 v Hv) Hl). Qed.

Lemma size_max_small n : n <= 255 -> n <= SSHBUF_SIZE_MAX - 1.
Proof. rewrite size_max_eq. lia. Qed.

Lemma gets_string s : zlen s <= SSHBUF_SIZE_MAX - 4 -> gets sshbuf_get_string (str32 s) s.
Proof.
  intros Hl. apply (gets_string_k 4 (fun _ => None) (fun s => s)); try done; [apply refines_get_string|].
  change (256 ^ Z.of_nat 4) with 4294967296. rewrite size_max_eq in Hl. lia.
Qed.
Lemma gets_string8 s : zlen s <= 255 -> gets sshbuf_get_string8 (str8 s) s.
Proof.
  intros Hl. apply (gets_string_k 1 (fun _ => None) (fun s => s)); try done; [apply refines_get_string8| |].
  - change (256 ^ Z.of_nat 1) with 256. lia.
  - by apply size_max_small.
Qed.
Lemma gets_cstring8 s : zlen s <= 255 -> inner_nul s = false -> gets sshbuf_get_cstring8 (str8 s) s.
Proof.
  intros Hl Hn. apply (gets_string_k 1 cstring_check (fun s => s)); [apply refines_get_cstring8|..].
  - change (256 ^ Z.of_nat 1) with 256. lia.
  - by apply size_max_small.
  - unfold cstring_check. by rewrite Hn.
Qed.
Lemma gets_cstring s :
  zlen s <= SSHBUF_SIZE_MAX - 4 -> inner_nul s = false -> gets sshbuf_get_cstring (str32 s) s.
Proof.
  intros Hl Hn. apply (gets_string_k 4 cstring_check (fun s => s)); [apply refines_get_cstring|..]; try done.
  - change (256 ^ Z.of_nat 4) with 4294967296. rewrite size_max_eq in Hl. lia.
  - unfold cstring_check. by rewrite Hn.
Qed.
Lemma gets_u8 v : 0 <= v < 256 -> gets sshbuf_get_u8 (be_bytes 1 v) v.
Proof. intros. by apply gets_u; [apply refines_get_u8|]. Qed.
Lemma gets_u16 v : 0 <= v < 65536 -> gets sshbuf_get_u16 (be_bytes 2 v) v.
Proof. intros. by apply gets_u; [apply refines_get_u16|]. Qed.
Lemma gets_u32 v : 0 <= v < 2 ^ 32 -> gets sshbuf_get_u32 (be_bytes 4 v) v.
Proof. intros. by apply gets_u; [apply refines_get_u32|]. Qed.
Lemma gets_u64 v : 0 <= v < 2 ^ 64 -> gets sshbuf_get_u64 (be_bytes 8 v) v.
Proof. intros. by apply gets_u; [apply refines_get_u64|]. Qed.

(** ** Multi-precision integers *)

Lemma skip_zeros_idem v : skip_zeros (skip_zeros v) = skip_zeros v.
Proof.
  induction v as [|b r IH]; cbn; [done|]. destruct (b =? 0) eqn:Hb; [done|]. cbn. by rewrite Hb.
Qed.
Lemma skip_zeros_mpint v : skip_zeros (mpint v) = skip_zeros v.
Proof. unfold mpint. destruct (msb_set _); apply skip_zeros_idem. Qed.
Lemma skip_zeros_length v : zlen (skip_zeros v) <= zlen v.
Proof.
  induction v as [|b r IH]; cbn [skip_zeros]; [done|]. destruct (b =? 0); rewrite ?zlen_cons; lia.
Qed.
Lemma be_val_skip_zeros v : be_val (skip_zeros v) = be_val v.
Proof.
  induction v as [|b r IH]; cbn [skip_zeros]; [done|]. destruct (Z.eqb_spec b 0) as [->|]; [exact IH|done].
Qed.

Lemma zlen_mpint v : zlen (mpint v) = zlen (skip_zeros v) + (if msb_set (skip_zeros v) then 1 else 0).
Proof. unfold mpint. rewrite zlen_app. destruct (msb_set _); zlen_lia. Qed.

Lemma bignum_check_mpint v : zlen (skip_zeros v) <= SSHBUF_MAX_BIGNUM -> bignum_check (mpint v) = None.
Proof.
  intros Hl. pose proof (zlen_mpint v) as Hz. unfold bignum_check, mpint in *.
  destruct (msb_set (skip_zeros v)) eqn:Hm; cbn [app] in *.
  - change (msb_set (0 :: skip_zeros v)) with false. cbn match. change (negb (0 =? 0)) with false.
    rewrite andb_false_r. by replace (_ <? _) with false by lia.
  - rewrite Hm. replace (_ <? _) with false by lia. by replace (_ =? _) with false by lia.
Qed.

Lemma gets_bignum2 v :
  zlen (skip_zeros v) <= SSHBUF_MAX_BIGNUM ->
  gets sshbuf_get_bignum2_bytes_direct (str32 (mpint v)) (skip_zeros v).
Proof.
  intros Hl. rewrite <- (skip_zeros_mpint v). pose proof (zlen_mpint v) as Hz.
  assert (zlen (mpint v) <= 2049) by (change SSHBUF_MAX_BIGNUM with 2048 in Hl; destruct (msb_set _); lia).
  apply (gets_string_k 4 bignum_check skip_zeros); [apply refines_get_bignum2| | |].
  - change (256 ^ Z.of_nat 4) with 4294967296. lia.
  - rewrite size_max_eq. lia.
  - by apply bignum_check_mpint.
Qed.

Lemma puts_bignum2 v :
  bytes v -> zlen v <= SSHBUF_SIZE_MAX - 5 -> puts (sshbuf_put_bignum2_bytes v) (str32 (mpint v)).
Proof.
  intros Hv Hl. apply refines_puts. pose proof (refines_put_bignum2 v Hv) as Hr.
  unfold q_put_bignum2 in Hr. by replace (_ <? zlen v) with false in Hr by lia.
Qed.

(** * Messages of typed fields *)

Inductive field :=
| FU8 (n : Z) | FU16 (n : Z) | FU32 (n : Z) | FU64 (n : Z)
| FStr (s : list Z) | FStr8 (s : list Z) | FCstr (s : list Z) | FCstr8 (s : list Z)
| FMpint (s : list Z).

Definition put_field (f : field) : B unit :=
  match f with
  | FU8 n => sshbuf_put_u8 n
  | FU16 n => sshbuf_put_u16 n
  | FU32 n => sshbuf_put_u32 n
  | FU64 n => sshbuf_put_u64 n
  | FStr s => sshbuf_put_string s
  | FStr8 s => sshbuf_put_string8 s
  | FCstr s => sshbuf_put_cstring (Some s)
  | FCstr8 s => sshbuf_put_cstring8 (Some s)
  | FMpint s => sshbuf_put_bignum2_bytes s
  end.
(** Reads a field of the same kind as [f]. *)
Definition get_field (f : field) : B field :=
  match f with
  | FU8 _ => let! n := sshbuf_get_u8 in cret (FU8 n)
  | FU16 _ => let! n := sshbuf_get_u16 in cret (FU16 n)
  | FU32 _ => let! n := sshbuf_get_u32 in cret (FU32 n)
  | FU64 _ => let! n := sshbuf_get_u64 in cret (FU64 n)
  | FStr _ => let! s := sshbuf_get_string in cret (FStr s)
  | FStr8 _ => let! s := sshbuf_get_string8 in cret (FStr8 s)
  | FCstr _ => let! s := sshbuf_get_cstring in cret (FCstr s)
  | FCstr8 _ => let! s := sshbuf_get_cstring8 in cret (FCstr8 s)
  | FMpint _ => let! s := sshbuf_get_bignum2_bytes_direct in cret (FMpint s)
  end.
Definition enc_field (f : field) : list Z :=
  match f with
  | FU8 n => be_bytes 1 n | FU16 n => be_bytes 2 n | FU32 n => be_bytes 4 n | FU64 n => be_bytes 8 n
  | FStr s | FCstr s => str32 s
  | FStr8 s | FCstr8 s => str8 s
  | FMpint s => str32 (mpint s)
  end.

Definition no_nul (s : list Z) : bool := match memchr0 s with None => true | Some _ => false end.

(** The values each field can carry. *)
Definition field_ok (f : field) : Prop :=
  match f with
  | FU8 n => 0 <= n < 256 | FU16 n => 0 <= n < 65536
  | FU32 n => 0 <= n < 2 ^ 32 | FU64 n => 0 <= n < 2 ^ 64
  | FStr s => bytes s /\ zlen s <= SSHBUF_SIZE_MAX - 4
  | FStr8 s => bytes s /\ zlen s <= 254
  | FCstr s => bytes s /\ zlen s <= SSHBUF_SIZE_MAX - 4 /\ no_nul s = true
  | FCstr8 s => bytes s /\ zlen s <= 254 /\ no_nul s = true
  | FMpint s => bytes s /\ zlen s <= SSHBUF_MAX_BIGNUM /\ skip_zeros s = s
  end.

Lemma no_nul_c_str s : no_nul s = true -> c_str s = s /\ inner_nul s = false.
Proof.
  unfold no_nul, c_str, inner_nul. destruct (memchr0 s); [done|]. by rewrite andb_false_r.
Qed.

Lemma puts_field f : field_ok f -> puts (put_field f) (enc_field f).
Proof.
  destruct f; cbn [field_ok put_field enc_field]; intros H;
    auto using puts_u8, puts_u16, puts_u32, puts_u64.
  - destruct H. by apply puts_string.
  - destruct H. by apply puts_string8.
  - destruct H as (Hb & Hl & [Hn _]%no_nul_c_str). unfold sshbuf_put_cstring. rewrite Hn.
    by apply puts_string.
  - destruct H as (Hb & Hl & [Hn _]%no_nul_c_str). unfold sshbuf_put_cstring8. rewrite Hn.
    by apply puts_string8.
  - destruct H as (Hb & Hl & _). apply puts_bignum2; [done|].
    change SSHBUF_MAX_BIGNUM with 2048 in Hl. rewrite size_max_eq. lia.
Qed.

Lemma gets_field f : field_ok f -> gets (get_field f) (enc_field f) f.
Proof.
  destruct f; cbn [field_ok get_field enc_field]; intros H.
  - eapply gets_last; [by apply gets_u8|apply gets_ret].
  - eapply gets_last; [by apply gets_u16|apply gets_ret].
  - eapply gets_last; [by apply gets_u32|apply gets_ret].
  - eapply gets_last; [by apply gets_u64|apply gets_ret].
  - destruct H. eapply gets_last; [by apply gets_string|apply gets_ret].
  - destruct H. eapply gets_last; [apply gets_string8; lia|apply gets_ret].
  - destruct H as (Hb & Hl & [_ Hn]%no_nul_c_str).
    eapply gets_last; [by apply gets_cstring|apply gets_ret].
  - destruct H as (Hb & Hl & [_ Hn]%no_nul_c_str).
    eapply gets_last; [apply gets_cstring8; [lia|done]|apply gets_ret].
  - destruct H as (Hb & Hl & Hs). eapply gets_last; [apply gets_bignum2; by rewrite Hs|].
    rewrite Hs. apply gets_ret.
Qed.

Definition put_fields (fs : list field) : B unit := fold_right (fun f m => put_field f ;! m) (cret tt) fs.
Definition get_fields (fs : list field) : B (list field) :=
  fold_right (fun f m => let! x := get_field f in let! xs := m in cret (x :: xs)) (cret []) fs.

Lemma puts_fields fs : Forall field_ok fs -> puts (put_fields fs) (flat_map enc_field fs).
Proof.
  induction 1 as [|f fs Hf _ IH]; [apply puts_ret|]. apply puts_seq; [by apply puts_field|done].
Qed.
Lemma gets_fields fs : Forall field_ok fs -> gets (get_fields fs) (flat_map enc_field fs) fs.
Proof.
  induction 1 as [|f fs Hf _ IH]; [apply gets_ret|]. cbn.
  eapply gets_bind; [by apply gets_field|]. eapply gets_last; [exact IH|apply gets_ret].
Qed.

Lemma contents_new : sb_contents sshbuf_new = [].
Proof. done. Qed.

(** What a message writer leaves in a fresh buffer. *)
Lemma puts_new {E} (m : M E sshbuf unit) bs :
  puts m bs -> zlen bs <= SSHBUF_SIZE_MAX ->
  exists b, m sshbuf_new = (Ok tt, b) /\ sb_ok b /\ sb_contents b = bs /\ shared b = false /\
    sb_max_size b = SSHBUF_SIZE_MAX.
Proof.
  intros Hm Hl. destruct (Hm sshbuf_new new_ok eq_refl) as (b & E1 & K & (Hc & Hmx & Hs)%abs_inv); [by cbn|].
  exists b. by split_and!.
Qed.
Lemma gets_whole {E A} (m : M E sshbuf A) bs v b :
  gets m bs v -> sb_ok b -> sb_contents b = bs ->
  exists b', m b = (Ok v, b') /\ sb_ok b' /\ sb_contents b' = [].
Proof.
  intros Hm H Hb. destruct (Hm b [] H) as (b' & E1 & K & (Hc & _)%abs_inv); [by rewrite app_nil_r|].
  by exists b'.
Qed.

(** C18: messages. Any sequence of fields (8- to 64-bit numbers, strings with one-
    and four-byte lengths, C strings, multi-precision integers), each within
    the range its encoding has and the whole within the size limit, is written into a
    fresh buffer without error, and reading fields of the same kinds back returns
    the same values and leaves the buffer empty. *)
Theorem sshbuf_message_roundtrip fs :
  Forall field_ok fs -> zlen (flat_map enc_field fs) <= SSHBUF_SIZE_MAX ->
  exists b b', put_fields fs sshbuf_new = (Ok tt, b) /\
    sb_contents b = flat_map enc_field fs /\
    get_fields fs b = (Ok fs, b') /\ sb_contents b' = [].
Proof.
  intros Hok Hl. destruct (puts_new _ _ (puts_fields fs Hok) Hl) as (b & E1 & K & Hc & _).
  destruct (gets_whole _ _ _ b (gets_fields fs Hok) K Hc) as (b' & E2 & _ & Hc').
  by exists b, b'.
Qed.

Lemma sshbuf_message_roundtrip_witness :
  let fs := [FU8 200; FStr8 [1; 0; 255]; FMpint [128; 0]; FCstr8 [112; 105; 118]; FU32 70000] in
  exists b b', put_fields fs sshbuf_new = (Ok tt, b) /\
    sb_contents b = [200; 3; 1; 0; 255; 0; 0; 0; 3; 0; 128; 0; 3; 112; 105; 118; 0; 1; 17; 112] /\
    get_fields fs b = (Ok fs, b') /\ sb_contents b' = [].
Proof.
  intros fs. refine (sshbuf_message_roundtrip fs _ _); [|vm_compute; discriminate].
  repeat (apply Forall_cons_2 || apply Forall_nil_2); cbn [field_ok]; split_and!;
    first [apply bytesb_spec; reflexivity | reflexivity | discriminate].
Defined.
