(* ===== verification/Algs.v ===== *)
(** * Algorithm tables (libssh/cipher.c, libssh/digest-openssl.c, libssh/sshkey.c)

    The names that boxes carry and what the code derives from them: cipher and
    digest lengths, curve names. C strings are lists of bytes without the
    terminating NUL. Entries of the OpenSSL build of the tables are listed. *)
From stdpp Require Import base list strings.
From Stdlib Require Import ZArith Lia Ascii.
From S2P Require Import Prelude Errf Sshbuf.

Local Open Scope string_scope.
Local Open Scope list_scope.
Local Open Scope Z_scope.

(** The bytes of a string literal. *)
Fixpoint zs (s : string) : list Z :=
  match s with
  | EmptyString => []
  | String c r => Z.of_nat (nat_of_ascii c) :: zs r
  end.

(** [strcmp(a, b) == 0] *)
Definition streq (a b : list Z) : bool := bool_decide (a = b).

Definition tolower (c : Z) : Z := if (65 <=? c) && (c <=? 90) then c + 32 else c.
(** [strcasecmp(a, b) == 0] *)
Definition strcaseeq (a b : list Z) : bool := streq (map tolower a) (map tolower b).

(** ** Ciphers *)

Record sshcipher := Cipher {
  c_name : list Z;
  c_number : Z;
  c_block_size : Z;
  c_key_len : Z;
  c_iv_len : Z;
  c_auth_len : Z;
  c_discard_len : Z;
  c_flags : Z
}.

Definition CFLAG_CBC : Z := 1.
Definition CFLAG_CHACHAPOLY : Z := 2.
Definition SSH_CIPHER_SSH2 : Z := -3.
Definition SSH_CIPHER_NONE : Z := 0.

Definition ciphers : list sshcipher :=
  [Cipher (zs "none") SSH_CIPHER_NONE 8 0 0 0 0 0;
   Cipher (zs "3des-cbc") SSH_CIPHER_SSH2 8 24 0 0 0 1;
   Cipher (zs "blowfish-cbc") SSH_CIPHER_SSH2 8 16 0 0 0 1;
   Cipher (zs "cast128-cbc") SSH_CIPHER_SSH2 8 16 0 0 0 1;
   Cipher (zs "arcfour") SSH_CIPHER_SSH2 8 16 0 0 0 0;
   Cipher (zs "arcfour128") SSH_CIPHER_SSH2 8 16 0 0 1536 0;
   Cipher (zs "arcfour256") SSH_CIPHER_SSH2 8 32 0 0 1536 0;
   Cipher (zs "aes128-cbc") SSH_CIPHER_SSH2 16 16 0 0 0 1;
   Cipher (zs "aes192-cbc") SSH_CIPHER_SSH2 16 24 0 0 0 1;
   Cipher (zs "aes256-cbc") SSH_CIPHER_SSH2 16 32 0 0 0 1;
   Cipher (zs "rijndael-cbc@lysator.liu.se") SSH_CIPHER_SSH2 16 32 0 0 0 1;
   Cipher (zs "aes128-ctr") SSH_CIPHER_SSH2 16 16 0 0 0 0;
   Cipher (zs "aes192-ctr") SSH_CIPHER_SSH2 16 24 0 0 0 0;
   Cipher (zs "aes256-ctr") SSH_CIPHER_SSH2 16 32 0 0 0 0;
   Cipher (zs "aes128-gcm") SSH_CIPHER_SSH2 16 16 12 16 0 0;
   Cipher (zs "aes256-gcm") SSH_CIPHER_SSH2 16 32 12 16 0 0;
   Cipher (zs "chacha20-poly1305") SSH_CIPHER_SSH2 8 64 0 16 0 CFLAG_CHACHAPOLY].

Definition cipher_by_name (name : list Z) : option sshcipher :=
  List.find (fun c => streq (c_name c) name) ciphers.

Definition cipher_blocksize (c : sshcipher) : Z := c_block_size c.
Definition cipher_keylen (c : sshcipher) : Z := c_key_len c.
Definition cipher_authlen (c : sshcipher) : Z := c_auth_len c.
Definition cipher_ivlen (c : sshcipher) : Z :=
  if negb (c_iv_len c =? 0) || negb (Z.land (c_flags c) CFLAG_CHACHAPOLY =? 0)
  then c_iv_len c else c_block_size c.

(** ** Digests: the index is the algorithm number *)

Definition digests : list (list Z * Z) :=
  [(zs "MD5", 16); (zs "RIPEMD160", 20); (zs "SHA1", 20);
   (zs "SHA256", 32); (zs "SHA384", 48); (zs "SHA512", 64)].

Fixpoint digest_from (alg : Z) (ds : list (list Z * Z)) (name : list Z) : Z :=
  match ds with
  | [] => -1
  | (n, _) :: r => if strcaseeq name n then alg else digest_from (alg + 1) r name
  end.
Definition ssh_digest_alg_by_name (name : list Z) : Z := digest_from 0 digests name.
Definition ssh_digest_bytes (alg : Z) : Z :=
  match zget digests alg with Some (_, n) => n | None => 0 end.

(** The algorithms of the table. *)
Definition alg_known (alg : Z) : bool := (0 <=? alg) && (alg <? zlen digests).

(** ** Curves *)

Definition NID_X9_62_prime256v1 : Z := 415.
Definition NID_secp384r1 : Z := 715.
Definition NID_secp521r1 : Z := 716.

Definition sshkey_curve_name_to_nid (name : list Z) : Z :=
  if streq name (zs "nistp256") then NID_X9_62_prime256v1
  else if streq name (zs "nistp384") then NID_secp384r1
  else if streq name (zs "nistp521") then NID_secp521r1
  else -1.

Definition sshkey_curve_nid_to_name (nid : Z) : option (list Z) :=
  if nid =? NID_X9_62_prime256v1 then Some (zs "nistp256")
  else if nid =? NID_secp384r1 then Some (zs "nistp384")
  else if nid =? NID_secp521r1 then Some (zs "nistp521")
  else None.

Definition sshkey_curve_nid_to_bits (nid : Z) : Z :=
  if nid =? NID_X9_62_prime256v1 then 256
  else if nid =? NID_secp384r1 then 384
  else if nid =? NID_secp521r1 then 521
  else 0.

(** [ssherrf(func, code)] *)
Definition ssherrf (code : Z) : errf_t :=
  errf (if code =? SSH_ERR_MESSAGE_INCOMPLETE then "IncompleteMessageError" else "LibSSHError") None.

(** ** Facts *)

Lemma streq_true a b : streq a b = true -> a = b.
Proof. unfold streq. by intros ?%bool_decide_eq_true. Qed.
Lemma streq_refl a : streq a a = true.
Proof. by apply bool_decide_eq_true. Qed.

Lemma curve_name_roundtrip nid name :
  sshkey_curve_nid_to_name nid = Some name -> sshkey_curve_name_to_nid name = nid.
Proof.
  unfold sshkey_curve_nid_to_name. intros H.
  destruct (Z.eqb_spec nid NID_X9_62_prime256v1) as [->|]; [by injection H as <-|].
  destruct (Z.eqb_spec nid NID_secp384r1) as [->|]; [by injection H as <-|].
  destruct (Z.eqb_spec nid NID_secp521r1) as [->|]; [by injection H as <-|done].
Qed.

Lemma alg_by_name_known name : ssh_digest_alg_by_name name <> -1 -> alg_known (ssh_digest_alg_by_name name) = true.
Proof. unfold ssh_digest_alg_by_name. cbn. by repeat destruct (strcaseeq name _). Qed.

Definition is_chachapoly (c : sshcipher) : bool := negb (Z.land (c_flags c) CFLAG_CHACHAPOLY =? 0).

(** What the tables guarantee of any cipher a name selects. *)
Definition cipher_ok (c : sshcipher) : bool :=
  (negb (is_chachapoly c) || ((c_auth_len c =? 16) && (c_key_len c =? 64))) &&
  (1 <=? c_block_size c) && (c_block_size c <=? 16) && (0 <=? c_key_len c) && (c_key_len c <=? 64)
  && (0 <=? cipher_ivlen c) && (cipher_ivlen c <=? 16) && ((c_auth_len c =? 0) || (c_auth_len c =? 16)).

Lemma cipher_by_name_ok name c : cipher_by_name name = Some c -> cipher_ok c = true.
Proof.
  unfold cipher_by_name. intros [Hin _]%find_some.
  assert (forallb cipher_ok ciphers = true) as H by by vm_compute.
  rewrite forallb_forall in H. by apply H.
Qed.

Lemma cipher_lens c : cipher_ok c = true ->
  1 <= cipher_blocksize c <= 16 /\ 0 <= cipher_keylen c <= 64 /\ 0 <= cipher_ivlen c <= 16 /\
  (cipher_authlen c = 0 \/ cipher_authlen c = 16).
Proof. unfold cipher_ok, cipher_blocksize, cipher_keylen, cipher_authlen. lia. Qed.
Lemma chachapoly_lens c : cipher_ok c = true -> is_chachapoly c = true -> cipher_authlen c = 16 /\ cipher_keylen c = 64.
Proof. unfold cipher_ok, cipher_keylen, cipher_authlen. intros H Hc. rewrite Hc in H. cbn [negb orb] in H. lia. Qed.
