(* ===== verification/Sss.v ===== *)
(** * Bitsliced Shamir secret sharing (sss/hazmat.c)

    32 bytes are shared at once: a [slice] is the [uint32_t[8]] of the code, bit
    [i] of word [j] being bit [j] of byte [i]. The arithmetic is written over the
    word operations [^] and [&], so that it can be read both on words and on the
    single bits of one lane. This file holds the executable definitions only and
    uses nothing but the Standard Library. *)
From Stdlib Require Import ZArith List Bool.
Import ListNotations.
Local Open Scope Z_scope.

Record slice (W : Type) := Slice { s0 : W; s1 : W; s2 : W; s3 : W; s4 : W; s5 : W; s6 : W; s7 : W }.
Arguments Slice {W}.
Arguments s0 {W}.
Arguments s1 {W}.
Arguments s2 {W}.
Arguments s3 {W}.
Arguments s4 {W}.
Arguments s5 {W}.
Arguments s6 {W}.
Arguments s7 {W}.

(** ** Arithmetic in GF(2^8), x^8 + x^4 + x^3 + x + 1 *)
Section Gf256.
Context {W : Type} (xor and : W -> W -> W).

Definition gf256_add (r x : slice W) : slice W :=
  Slice (xor (s0 r) (s0 x)) (xor (s1 r) (s1 x)) (xor (s2 r) (s2 x)) (xor (s3 r) (s3 x))
        (xor (s4 r) (s4 x)) (xor (s5 r) (s5 x)) (xor (s6 r) (s6 x)) (xor (s7 r) (s7 x)).

(** Eight rounds of adding and reducing; each [let] is one assignment. *)
Definition gf256_mul (a b : slice W) : slice W :=
  let '(Slice a0 a1 a2 a3 a4 a5 a6 a7) := a in
  let '(Slice b0 b1 b2 b3 b4 b5 b6 b7) := b in
  let r0 := and a0 b0 in let r1 := and a1 b0 in let r2 := and a2 b0 in
  let r3 := and a3 b0 in let r4 := and a4 b0 in let r5 := and a5 b0 in
  let r6 := and a6 b0 in let r7 := and a7 b0 in
  let a0 := xor a0 a7 in let a2 := xor a2 a7 in let a3 := xor a3 a7 in
  let r0 := xor r0 (and a7 b1) in let r1 := xor r1 (and a0 b1) in
  let r2 := xor r2 (and a1 b1) in let r3 := xor r3 (and a2 b1) in
  let r4 := xor r4 (and a3 b1) in let r5 := xor r5 (and a4 b1) in
  let r6 := xor r6 (and a5 b1) in let r7 := xor r7 (and a6 b1) in
  let a7 := xor a7 a6 in let a1 := xor a1 a6 in let a2 := xor a2 a6 in
  let r0 := xor r0 (and a6 b2) in let r1 := xor r1 (and a7 b2) in
  let r2 := xor r2 (and a0 b2) in let r3 := xor r3 (and a1 b2) in
  let r4 := xor r4 (and a2 b2) in let r5 := xor r5 (and a3 b2) in
  let r6 := xor r6 (and a4 b2) in let r7 := xor r7 (and a5 b2) in
  let a6 := xor a6 a5 in let a0 := xor a0 a5 in let a1 := xor a1 a5 in
  let r0 := xor r0 (and a5 b3) in let r1 := xor r1 (and a6 b3) in
  let r2 := xor r2 (and a7 b3) in let r3 := xor r3 (and a0 b3) in
  let r4 := xor r4 (and a1 b3) in let r5 := xor r5 (and a2 b3) in
  let r6 := xor r6 (and a3 b3) in let r7 := xor r7 (and a4 b3) in
  let a5 := xor a5 a4 in let a7 := xor a7 a4 in let a0 := xor a0 a4 in
  let r0 := xor r0 (and a4 b4) in let r1 := xor r1 (and a5 b4) in
  let r2 := xor r2 (and a6 b4) in let r3 := xor r3 (and a7 b4) in
  let r4 := xor r4 (and a0 b4) in let r5 := xor r5 (and a1 b4) in
  let r6 := xor r6 (and a2 b4) in let r7 := xor r7 (and a3 b4) in
  let a4 := xor a4 a3 in let a6 := xor a6 a3 in let a7 := xor a7 a3 in
  let r0 := xor r0 (and a3 b5) in let r1 := xor r1 (and a4 b5) in
  let r2 := xor r2 (and a5 b5) in let r3 := xor r3 (and a6 b5) in
  let r4 := xor r4 (and a7 b5) in let r5 := xor r5 (and a0 b5) in
  let r6 := xor r6 (and a1 b5) in let r7 := xor r7 (and a2 b5) in
  let a3 := xor a3 a2 in let a5 := xor a5 a2 in let a6 := xor a6 a2 in
  let r0 := xor r0 (and a2 b6) in let r1 := xor r1 (and a3 b6) in
  let r2 := xor r2 (and a4 b6) in let r3 := xor r3 (and a5 b6) in
  let r4 := xor r4 (and a6 b6) in let r5 := xor r5 (and a7 b6) in
  let r6 := xor r6 (and a0 b6) in let r7 := xor r7 (and a1 b6) in
  let a2 := xor a2 a1 in let a4 := xor a4 a1 in let a5 := xor a5 a1 in
  let r0 := xor r0 (and a1 b7) in let r1 := xor r1 (and a2 b7) in
  let r2 := xor r2 (and a3 b7) in let r3 := xor r3 (and a4 b7) in
  let r4 := xor r4 (and a5 b7) in let r5 := xor r5 (and a6 b7) in
  let r6 := xor r6 (and a7 b7) in let r7 := xor r7 (and a0 b7) in
  Slice r0 r1 r2 r3 r4 r5 r6 r7.

Definition gf256_square (x : slice W) : slice W :=
  let '(Slice x0 x1 x2 x3 x4 x5 x6 x7) := x in
  let r14 := x7 in let r12 := x6 in let r10 := x5 in let r8 := x4 in let r6 := x3 in
  let r4 := x2 in let r2 := x1 in let r0 := x0 in let r7 := r14 in let r6 := xor r6 r14 in
  let r10 := xor r10 r14 in let r4 := xor r4 r12 in let r5 := r12 in
  let r7 := xor r7 r12 in let r8 := xor r8 r12 in let r2 := xor r2 r10 in let r3 := r10 in
  let r5 := xor r5 r10 in let r6 := xor r6 r10 in let r1 := r14 in let r2 := xor r2 r14 in
  let r4 := xor r4 r14 in let r5 := xor r5 r14 in let r0 := xor r0 r8 in
  let r1 := xor r1 r8 in let r3 := xor r3 r8 in let r4 := xor r4 r8 in
  Slice r0 r1 r2 r3 r4 r5 r6 r7.

(** [x^254] by squarings and multiplications. *)
Definition gf256_inv (x : slice W) : slice W :=
  let y := gf256_square x in
  let y := gf256_square y in
  let r := gf256_square y in
  let z := gf256_mul r x in
  let r := gf256_square r in
  let r := gf256_mul r z in
  let r := gf256_square r in
  let z := gf256_square r in
  let z := gf256_square z in
  let r := gf256_mul r z in
  gf256_mul r y.

(** *** The loops over shares

    [zero] is eight zero words; [one] has [~0] as its first word. *)
Context (zero one : slice W).

(** The loop over [coeff_idx]: [xpow] and [y] are its state. *)
Definition eval_coeffs (x : slice W) (poly : list (slice W)) (y : slice W) : slice W :=
  snd (fold_left (fun st coeff =>
         let '(xpow, y) := st in
         let xpow := gf256_mul xpow x in
         (xpow, gf256_add y (gf256_mul xpow coeff)))
       poly (one, y)).

(** The loop over [idx2]; [num] and [denom] are its state. *)
Definition lagrange_loop (idx1 : nat) (xs : list (slice W)) : slice W * slice W :=
  fold_left (fun st idx2 =>
    let '(num, denom) := st in
    if (idx1 =? idx2)%nat then (num, denom)
    else
      let num := gf256_mul num (nth idx2 xs zero) in
      let tmp := gf256_add (nth idx1 xs zero) (nth idx2 xs zero) in
      (num, gf256_mul denom tmp))
    (seq 0 (length xs)) (one, one).

(** The loop over [idx1]. *)
Definition combine_loop (xs ys : list (slice W)) (k : nat) : slice W :=
  fold_left (fun secret idx1 =>
    let '(num, denom) := lagrange_loop idx1 xs in
    let tmp := gf256_inv denom in
    let num := gf256_mul num tmp in
    let num := gf256_mul num (nth idx1 ys zero) in
    gf256_add secret num)
    (seq 0 k) zero.
End Gf256.

(** ** Bit slicing *)

Definition w32 (x : Z) : Z := x mod 2 ^ 32.
(** A 32-bit pattern as an [int32_t]. *)
Definition s32 (x : Z) : Z := if x <? 2 ^ 31 then x else x - 2 ^ 32.

Definition szero : slice Z := Slice 0 0 0 0 0 0 0 0.
(** [memset(r, 0, ...); r[0] = ~0;] *)
Definition sone : slice Z := Slice (2 ^ 32 - 1) 0 0 0 0 0 0 0.

(** [r |= ((cur & (1 << from)) >> from) << to] *)
Definition or_bit (r cur from to : Z) : Z :=
  Z.lor r (w32 (Z.shiftl (Z.shiftr (Z.land cur (w32 (Z.shiftl 1 from))) from) to)).

(** Array elements with their indices. *)
Definition indexed (x : list Z) : list (Z * Z) := combine (map Z.of_nat (seq 0 (length x))) x.

Definition bitslice (x : list Z) : slice Z :=
  fold_left (fun r ic =>
    let '(arr_idx, cur) := ic in
    Slice (or_bit (s0 r) cur 0 arr_idx) (or_bit (s1 r) cur 1 arr_idx)
          (or_bit (s2 r) cur 2 arr_idx) (or_bit (s3 r) cur 3 arr_idx)
          (or_bit (s4 r) cur 4 arr_idx) (or_bit (s5 r) cur 5 arr_idx)
          (or_bit (s6 r) cur 6 arr_idx) (or_bit (s7 r) cur 7 arr_idx))
    (indexed x) szero.

(** The words in the order the outer loop takes them. *)
Definition words (x : slice Z) : list Z := [s0 x; s1 x; s2 x; s3 x; s4 x; s5 x; s6 x; s7 x].

(** Element [arr_idx] of [r] after the outer loop over [bit_idx]. *)
Definition unbitslice_byte (x : slice Z) (arr_idx : nat) : Z :=
  fold_left (fun r bc => let '(bit_idx, cur) := bc in or_bit r cur (Z.of_nat arr_idx) bit_idx)
    (indexed (words x)) 0.
Definition unbitslice (x : slice Z) : list Z := map (unbitslice_byte x) (seq 0 32).

(** [((int32_t) ((x & (1 << idx)) << (31 - idx))) >> 31] *)
Definition setall_word (x idx : Z) : Z :=
  w32 (Z.shiftr (s32 (w32 (Z.shiftl (Z.land x (Z.shiftl 1 idx)) (31 - idx)))) 31).
Definition bitslice_setall (x : Z) : slice Z :=
  Slice (setall_word x 0) (setall_word x 1) (setall_word x 2) (setall_word x 3)
        (setall_word x 4) (setall_word x 5) (setall_word x 6) (setall_word x 7).

(** ** Creating shares *)

Definition sss_Keyshare : Type := list Z.
Definition sss_KEYSHARE_LEN : nat := 33.

Definition create_keyshare (poly0 : slice Z) (poly : list (slice Z)) (share_idx : nat) : sss_Keyshare :=
  let unbitsliced_x := (Z.of_nat share_idx + 1) mod 256 in
  let x := bitslice_setall unbitsliced_x in
  let y := gf256_add Z.lxor szero poly0 in
  unbitsliced_x :: unbitslice (eval_coeffs Z.lxor Z.land sone x poly y).

(** [poly] is what [randombytes] put in the [k - 1] coefficients; [None] is a
    failed assertion. *)
Definition sss_create_keyshares (key : list Z) (n k : nat) (poly : list (slice Z))
  : option (list sss_Keyshare) :=
  if negb (n =? 0)%nat && negb (k =? 0)%nat && (k <=? n)%nat
  then Some (map (create_keyshare (bitslice key) (firstn (k - 1) poly)) (seq 0 n))
  else None.

(** ** Combining shares *)

Definition sss_combine_keyshares (key_shares : list sss_Keyshare) (k : nat) : list Z :=
  let shares := firstn k key_shares in
  let xs := map (fun s => bitslice_setall (hd 0 s)) shares in
  let ys := map (fun s => bitslice (firstn 32 (tl s))) shares in
  unbitslice (combine_loop Z.lxor Z.land szero sone xs ys k).

(** ** What sharing promises to its callers *)

Class SharingLaws : Prop := {
  (** shares are distinct and of fixed size *)
  shares_made : forall key n k poly shares,
    (n <= 255)%nat -> sss_create_keyshares key n k poly = Some shares ->
    length shares = n /\ NoDup shares /\
    Forall (fun s => length s = sss_KEYSHARE_LEN /\ Forall (fun b => 0 <= b < 256) s) shares;
  (** any [k] of them give the key back *)
  shares_recover : forall key n k poly shares sel,
    length key = 32%nat -> Forall (fun b => 0 <= b < 256) key -> (n <= 255)%nat ->
    sss_create_keyshares key n k poly = Some shares ->
    NoDup sel -> (forall s, In s sel -> In s shares) -> (k <= length sel)%nat ->
    sss_combine_keyshares sel (length sel) = key
}.
