(* ===== verification/SssLanes.v ===== *)
(** * From words to lanes

    [lane i s] is byte [i] of the 32 bytes a slice [s] holds, as eight bits. Slicing,
    unslicing and the word-level loops of hazmat.c act on every lane
    independently, as the same loops read over single bits. *)
From Stdlib Require Import ZArith List Bool Lia.
From S2P Require Import Sss.
Import ListNotations.
Local Open Scope Z_scope.

Definition lane (i : nat) (s : slice Z) : slice bool :=
  let b w := Z.testbit w (Z.of_nat i) in
  Slice (b (s0 s)) (b (s1 s)) (b (s2 s)) (b (s3 s)) (b (s4 s)) (b (s5 s)) (b (s6 s)) (b (s7 s)).

(** The bits of a byte, and the byte of eight bits. *)
Definition bits (v : Z) : slice bool :=
  let b j := Z.testbit v j in Slice (b 0) (b 1) (b 2) (b 3) (b 4) (b 5) (b 6) (b 7).
Definition byte (g : slice bool) : Z :=
  Z.b2z (s0 g) + 2 * Z.b2z (s1 g) + 4 * Z.b2z (s2 g) + 8 * Z.b2z (s3 g)
  + 16 * Z.b2z (s4 g) + 32 * Z.b2z (s5 g) + 64 * Z.b2z (s6 g) + 128 * Z.b2z (s7 g).

Definition byte_range (v : Z) : Prop := 0 <= v < 256.

Lemma bits_byte g : bits (byte g) = g.
Proof. destruct g as [[] [] [] [] [] [] [] []]; reflexivity. Qed.

Lemma byte_bits v : byte_range v -> byte (bits v) = v.
Proof.
  intros Hv. assert (In v (map Z.of_nat (seq 0 256))) as Hin.
  { unfold byte_range in Hv. apply in_map_iff. exists (Z.to_nat v). split; [lia|]. apply in_seq. lia. }
  assert (forallb (fun v => byte (bits v) =? v) (map Z.of_nat (seq 0 256)) = true) as H
    by (vm_compute; reflexivity).
  rewrite forallb_forall in H. now apply Z.eqb_eq, H.
Qed.

Lemma bits_inj u v : byte_range u -> byte_range v -> bits u = bits v -> u = v.
Proof. intros Hu Hv H. now rewrite <- (byte_bits u), <- (byte_bits v), H. Qed.

Lemma bits_inj_nat j j' :
  bits (Z.of_nat (S j)) = bits (Z.of_nat (S j')) -> (j < 255)%nat -> (j' < 255)%nat -> j = j'.
Proof. intros H Hj Hj'. apply bits_inj in H; unfold byte_range; lia. Qed.
Lemma bits_nonzero j :
  (j < 255)%nat -> bits (Z.of_nat (S j)) <> Slice false false false false false false false false.
Proof.
  intros Hj H. change (Slice _ _ _ _ _ _ _ _) with (bits 0) in H.
  apply bits_inj in H; unfold byte_range in *; lia.
Qed.

Lemma byte_is_byte g : byte_range (byte g).
Proof. destruct g as [[] [] [] [] [] [] [] []]; split; vm_compute; congruence. Qed.

(** ** Arithmetic *)

Lemma lane_add i a b : lane i (gf256_add Z.lxor a b) = gf256_add xorb (lane i a) (lane i b).
Proof.
  destruct a as [a0 a1 a2 a3 a4 a5 a6 a7], b as [b0 b1 b2 b3 b4 b5 b6 b7].
  unfold lane, gf256_add. cbn [s0 s1 s2 s3 s4 s5 s6 s7]. now rewrite !Z.lxor_spec.
Qed.

Lemma lane_mul i a b :
  lane i (gf256_mul Z.lxor Z.land a b) = gf256_mul xorb andb (lane i a) (lane i b).
Proof.
  destruct a as [a0 a1 a2 a3 a4 a5 a6 a7], b as [b0 b1 b2 b3 b4 b5 b6 b7].
  unfold lane, gf256_mul. cbn [s0 s1 s2 s3 s4 s5 s6 s7].
  rewrite !Z.lxor_spec, !Z.land_spec, !Z.lxor_spec. reflexivity.
Qed.

Lemma lane_square i a : lane i (gf256_square Z.lxor a) = gf256_square xorb (lane i a).
Proof.
  destruct a as [a0 a1 a2 a3 a4 a5 a6 a7]. unfold lane, gf256_square. cbn [s0 s1 s2 s3 s4 s5 s6 s7]. now rewrite !Z.lxor_spec.
Qed.

Lemma lane_inv i a : lane i (gf256_inv Z.lxor Z.land a) = gf256_inv xorb andb (lane i a).
Proof. unfold gf256_inv. now repeat (rewrite lane_mul || rewrite lane_square). Qed.

Lemma lane_zero i : lane i szero = Slice false false false false false false false false.
Proof. unfold lane, szero. cbn [s0 s1 s2 s3 s4 s5 s6 s7]. now rewrite !Z.bits_0. Qed.
Lemma lane_one i : (i < 32)%nat -> lane i sone = Slice true false false false false false false false.
Proof.
  intros Hi. unfold lane, sone. cbn [s0 s1 s2 s3 s4 s5 s6 s7]. rewrite !Z.bits_0.
  change (2 ^ 32 - 1) with (Z.ones 32). now rewrite Z.ones_spec_low by lia.
Qed.

(** ** Single bits *)

Lemma testbit_w32 v i : 0 <= i < 32 -> Z.testbit (w32 v) i = Z.testbit v i.
Proof. intros. unfold w32. now rewrite Z.mod_pow2_bits_low by lia. Qed.

(** [((cur & (1 << from)) >> from)] is the bit itself. *)
Lemma pick_bit cur from :
  0 <= from < 32 -> Z.shiftr (Z.land cur (w32 (Z.shiftl 1 from))) from = Z.b2z (Z.testbit cur from).
Proof.
  intros Hf. unfold w32. rewrite Z.shiftl_1_l, Z.mod_small by (split; [lia|apply Z.pow_lt_mono_r; lia]).
  apply Z.bits_inj'. intros n Hn. rewrite Z.shiftr_spec, Z.land_spec by lia.
  destruct (Z.eq_dec n 0) as [->|Hn0].
  - rewrite Z.add_0_l, Z.pow2_bits_true, andb_true_r by lia. now destruct (Z.testbit cur from).
  - rewrite Z.pow2_bits_false, andb_false_r by lia. symmetry.
    destruct (Z.testbit cur from); cbn [Z.b2z]; [|apply Z.bits_0].
    destruct n as [|n|n]; [lia| |lia]. now destruct n.
Qed.

Lemma testbit_or_bit r cur from to i :
  0 <= from < 32 -> 0 <= to < 32 -> 0 <= i < 32 ->
  Z.testbit (or_bit r cur from to) i = Z.testbit r i || ((i =? to) && Z.testbit cur from).
Proof.
  intros Hf Ht Hi. unfold or_bit. rewrite pick_bit by lia.
  rewrite Z.lor_spec, testbit_w32, Z.shiftl_spec by lia. f_equal.
  destruct (Z.eqb_spec i to) as [->|Hne].
  - rewrite Z.sub_diag. now destruct (Z.testbit cur from).
  - destruct (Z.testbit cur from); cbn [Z.b2z andb]; [|now rewrite Z.bits_0].
    destruct (Z.ltb_spec i to); [now rewrite Z.testbit_neg_r by lia|].
    change 1 with (2 ^ 0). now rewrite Z.pow2_bits_false by lia.
Qed.

(** ** Slicing *)

(** The slicing loop from element [m] on, at lane [i]. *)
Lemma slice_loop i : forall x m r,
  (i < 32)%nat -> (m + length x <= 32)%nat ->
  lane i (fold_left (fun r ic =>
    let '(arr_idx, cur) := ic in
    Slice (or_bit (s0 r) cur 0 arr_idx) (or_bit (s1 r) cur 1 arr_idx)
          (or_bit (s2 r) cur 2 arr_idx) (or_bit (s3 r) cur 3 arr_idx)
          (or_bit (s4 r) cur 4 arr_idx) (or_bit (s5 r) cur 5 arr_idx)
          (or_bit (s6 r) cur 6 arr_idx) (or_bit (s7 r) cur 7 arr_idx))
    (combine (map Z.of_nat (seq m (length x))) x) r) =
  let c := if (m <=? i)%nat then nth (i - m) x 0 else 0 in
  let b o j := o || Z.testbit c j in
  let l := lane i r in
  Slice (b (s0 l) 0) (b (s1 l) 1) (b (s2 l) 2) (b (s3 l) 3)
        (b (s4 l) 4) (b (s5 l) 5) (b (s6 l) 6) (b (s7 l) 7).
Proof.
  induction x as [|c x IH]; intros m r Hi Hm; cbn [length seq map combine fold_left].
  - assert ((if (m <=? i)%nat then nth (i - m) [] 0 else 0) = 0) as -> by (destruct (m <=? i)%nat, (i - m)%nat; reflexivity).
    cbn. now rewrite !orb_false_r.
  - cbn [length] in Hm. rewrite IH by lia. clear IH. unfold lane. cbn [s0 s1 s2 s3 s4 s5 s6 s7].
    rewrite !testbit_or_bit by lia.
    replace (Z.of_nat i =? Z.of_nat m) with (i =? m)%nat by
      (destruct (Nat.eqb_spec i m), (Z.eqb_spec (Z.of_nat i) (Z.of_nat m)); lia).
    destruct (Nat.eqb_spec i m) as [->|Hne].
    + rewrite (proj2 (Nat.leb_gt (S m) m)), Nat.leb_refl, Nat.sub_diag by lia. cbn [nth andb].
      now rewrite !orb_false_r.
    + rewrite !orb_false_r. destruct (Nat.leb_spec m i) as [Hle|Hlt].
      * rewrite (proj2 (Nat.leb_le (S m) i)) by lia.
        replace (i - m)%nat with (S (i - S m)) by lia. reflexivity.
      * rewrite (proj2 (Nat.leb_gt (S m) i)) by lia. reflexivity.
Qed.

Lemma lane_bitslice i x :
  (i < 32)%nat -> (length x <= 32)%nat -> lane i (bitslice x) = bits (nth i x 0).
Proof.
  intros Hi Hl. unfold bitslice, indexed. rewrite slice_loop by lia. rewrite lane_zero.
  cbn [s0 s1 s2 s3 s4 s5 s6 s7]. rewrite Nat.sub_0_r. reflexivity.
Qed.

(** Words with given lanes. *)
Definition pack (g : nat -> slice bool) : slice Z := bitslice (map (fun i => byte (g i)) (seq 0 32)).

Lemma lane_pack g i : (i < 32)%nat -> lane i (pack g) = g i.
Proof.
  intros Hi. unfold pack. rewrite lane_bitslice by (rewrite ?length_map, ?length_seq; lia).
  rewrite (nth_indep _ 0 (byte (g 0%nat))) by (rewrite length_map, length_seq; lia).
  rewrite (map_nth (fun i => byte (g i))), seq_nth by lia. apply bits_byte.
Qed.

Lemma setall_bit x idx i :
  0 <= idx < 8 -> (i < 32)%nat -> Z.testbit (setall_word x idx) (Z.of_nat i) = Z.testbit x idx.
Proof.
  intros Hx Hi. unfold setall_word. rewrite testbit_w32, Z.shiftr_spec by lia.
  set (v := w32 (Z.shiftl (Z.land x (Z.shiftl 1 idx)) (31 - idx))).
  assert (v = if Z.testbit x idx then 2 ^ 31 else 0) as ->.
  { unfold v. apply Z.bits_inj'. intros n Hn. unfold w32.
    destruct (Z.ltb_spec n 32); [rewrite Z.mod_pow2_bits_low by lia|rewrite Z.mod_pow2_bits_high by lia].
    - rewrite Z.shiftl_spec, Z.land_spec, Z.shiftl_1_l by lia.
      destruct (Z.eq_dec n 31) as [->|Hn31].
      + replace (31 - (31 - idx)) with idx by lia. rewrite Z.pow2_bits_true, andb_true_r by lia.
        destruct (Z.testbit x idx); [now rewrite Z.pow2_bits_true by lia|now rewrite Z.bits_0].
      + rewrite Z.pow2_bits_false, andb_false_r by lia.
        destruct (Z.testbit x idx); [now rewrite Z.pow2_bits_false by lia|now rewrite Z.bits_0].
    - destruct (Z.testbit x idx); [now rewrite Z.pow2_bits_false by lia|now rewrite Z.bits_0]. }
  destruct (Z.testbit x idx); unfold s32; cbn [Z.ltb].
  - change (2 ^ 31 <? 2 ^ 31) with false. cbn [Z.ltb]. change (2 ^ 31 - 2 ^ 32) with (- 2 ^ 31).
    rewrite Z.bits_opp by lia. change (Z.pred (2 ^ 31)) with (Z.ones 31).
    now rewrite Z.ones_spec_high by lia.
  - change (0 <? 2 ^ 31) with true. cbn. apply Z.bits_0.
Qed.

Lemma lane_setall i x : (i < 32)%nat -> lane i (bitslice_setall x) = bits x.
Proof.
  intros Hi. unfold lane, bitslice_setall. cbn [s0 s1 s2 s3 s4 s5 s6 s7].
  now rewrite !setall_bit by lia.
Qed.

(** ** Unslicing *)

Lemma unbitslice_byte_lane x i : (i < 32)%nat -> unbitslice_byte x i = byte (lane i x).
Proof.
  intros Hi. unfold unbitslice_byte, indexed, words, byte, lane.
  cbn [length seq map combine fold_left s0 s1 s2 s3 s4 s5 s6 s7]. unfold or_bit.
  rewrite !pick_bit by lia.
  destruct (Z.testbit (s0 x) _), (Z.testbit (s1 x) _), (Z.testbit (s2 x) _), (Z.testbit (s3 x) _),
    (Z.testbit (s4 x) _), (Z.testbit (s5 x) _), (Z.testbit (s6 x) _), (Z.testbit (s7 x) _); reflexivity.
Qed.

Lemma nth_unbitslice x i : (i < 32)%nat -> nth i (unbitslice x) 0 = byte (lane i x).
Proof.
  intros Hi. unfold unbitslice. rewrite (nth_indep _ 0 (unbitslice_byte x 0)) by (rewrite length_map, length_seq; lia).
  rewrite map_nth, seq_nth by lia. now apply unbitslice_byte_lane.
Qed.
Lemma length_unbitslice x : length (unbitslice x) = 32%nat.
Proof. unfold unbitslice. now rewrite length_map, length_seq. Qed.

(** ** The loops over shares *)

Definition bzero : slice bool := Slice false false false false false false false false.
Definition bone : slice bool := Slice true false false false false false false false.

Lemma fold_left_hom {A A' B B'} (f : A -> B -> A) (g : A' -> B' -> A') (h : A -> A') (k : B -> B') :
  (forall a b, h (f a b) = g (h a) (k b)) ->
  forall l a, h (fold_left f l a) = fold_left g (map k l) (h a).
Proof. intros H. induction l as [|b l IH]; intros a; cbn; [reflexivity|]. now rewrite IH, H. Qed.

Lemma lane_eval i x poly y :
  (i < 32)%nat ->
  lane i (eval_coeffs Z.lxor Z.land sone x poly y) =
  eval_coeffs xorb andb bone (lane i x) (map (lane i) poly) (lane i y).
Proof.
  intros Hi. unfold eval_coeffs.
  pose (h := fun st : slice Z * slice Z => (lane i (fst st), lane i (snd st))).
  match goal with |- lane i (snd ?p) = _ => change (lane i (snd p)) with (snd (h p)) end.
  erewrite (fold_left_hom _ _ h (lane i)).
  - unfold h. cbn [fst snd]. now rewrite lane_one.
  - intros [xpow y'] b. unfold h. cbn [fst snd]. now rewrite lane_add, !lane_mul.
Qed.

Lemma nth_map_lane i j xs : nth j (map (lane i) xs) bzero = lane i (nth j xs szero).
Proof. unfold bzero. rewrite <- (lane_zero i). apply map_nth. Qed.

Lemma lane_lagrange i j xs :
  (i < 32)%nat ->
  let h st := (lane i (fst st), lane i (snd st)) in
  h (lagrange_loop Z.lxor Z.land szero sone j xs) =
  lagrange_loop xorb andb bzero bone j (map (lane i) xs).
Proof.
  intros Hi h. unfold lagrange_loop.
  erewrite (fold_left_hom _ _ h (fun j => j)).
  - rewrite map_id, length_map. unfold h. cbn [fst snd]. now rewrite lane_one.
  - intros [num denom] idx2. cbn beta iota. unfold h. destruct (j =? idx2)%nat; cbn [fst snd]; [reflexivity|].
    now rewrite !lane_mul, lane_add, !nth_map_lane.
Qed.

Lemma lane_combine i xs ys k :
  (i < 32)%nat ->
  lane i (combine_loop Z.lxor Z.land szero sone xs ys k) =
  combine_loop xorb andb bzero bone (map (lane i) xs) (map (lane i) ys) k.
Proof.
  intros Hi. unfold combine_loop.
  erewrite (fold_left_hom _ _ (lane i) (fun j => j)).
  - now rewrite map_id, lane_zero.
  - intros s j. cbn beta. rewrite <- (lane_lagrange i j xs Hi).
    destruct (lagrange_loop Z.lxor Z.land szero sone j xs) as [num denom]. cbn [fst snd].
    now rewrite lane_add, !lane_mul, lane_inv, nth_map_lane.
Qed.

(** ** Shares, lane by lane *)

(** Point and value of a share at lane [i]. *)
Definition share_x (s : sss_Keyshare) : slice bool := bits (hd 0 s).
Definition share_y (i : nat) (s : sss_Keyshare) : slice bool := bits (nth i (tl s) 0).

Lemma share_x_create key poly j :
  (j < 255)%nat -> share_x (create_keyshare key poly j) = bits (Z.of_nat (S j)).
Proof.
  intros Hj. unfold share_x, create_keyshare. cbn [hd]. rewrite Z.mod_small by lia. f_equal. lia.
Qed.

Lemma share_x_inj key poly j j' :
  (j < 255)%nat -> (j' < 255)%nat ->
  share_x (create_keyshare key poly j) = share_x (create_keyshare key poly j') -> j = j'.
Proof.
  intros Hj Hj'. rewrite !share_x_create by assumption. intros H. now apply bits_inj_nat.
Qed.

Lemma share_y_create i key poly j :
  (i < 32)%nat -> (length key = 32)%nat ->
  share_y i (create_keyshare (bitslice key) poly j) =
  eval_coeffs xorb andb bone (share_x (create_keyshare (bitslice key) poly j))
    (map (lane i) poly) (gf256_add xorb bzero (bits (nth i key 0))).
Proof.
  intros Hi Hk. unfold share_y, share_x, create_keyshare. cbn [hd tl].
  rewrite nth_unbitslice, bits_byte, lane_eval, lane_setall, lane_add, lane_zero by lia.
  now rewrite lane_bitslice by lia.
Qed.

Lemma combine_lane i shares k :
  (i < 32)%nat -> (forall s, In s shares -> length s = sss_KEYSHARE_LEN) -> length shares = k ->
  nth i (sss_combine_keyshares shares k) 0 =
  byte (combine_loop xorb andb bzero bone (map share_x shares) (map (share_y i) shares) k).
Proof.
  intros Hi Hl <-. unfold sss_combine_keyshares. rewrite firstn_all, nth_unbitslice, lane_combine by lia.
  rewrite !map_map. f_equal. f_equal.
  - apply map_ext. intros s. now rewrite lane_setall.
  - apply map_ext_in. intros s Hs. unfold share_y. specialize (Hl s Hs). destruct s as [|x s]; [discriminate|].
    cbn [tl]. unfold sss_KEYSHARE_LEN in Hl. injection Hl as Hl.
    rewrite firstn_all2 by lia. rewrite lane_bitslice by lia. reflexivity.
Qed.

(** ** A concrete key, its coefficients and shares *)

Definition sample_key : list Z := map Z.of_nat (seq 100 32).
Definition sample_poly : list (slice Z) :=
  [Slice 1 2 3 4 5 6 7 8; Slice 123456789 987654321 4294967295 5 77 1 0 3].
Definition sample_shares : list sss_Keyshare :=
  match sss_create_keyshares sample_key 5 3 sample_poly with Some s => s | None => [] end.
Definition sample_sel : list sss_Keyshare :=
  [nth 4 sample_shares []; nth 1 sample_shares []; nth 2 sample_shares []].

Lemma sample_bytes : Forall byte_range sample_key.
Proof.
  apply Forall_forall. intros v Hv. unfold sample_key in Hv. apply in_map_iff in Hv as (m & <- & Hm%in_seq).
  unfold byte_range. lia.
Qed.
Lemma sample_sel_nodup : NoDup sample_sel.
Proof.
  apply (NoDup_map_inv (hd 0)). vm_compute. repeat constructor; cbn; intuition discriminate.
Qed.
Lemma sample_sel_in s : In s sample_sel -> In s sample_shares.
Proof.
  unfold sample_sel. assert (length sample_shares = 5%nat) as Hl by (vm_compute; reflexivity).
  cbn [In]. intros [<-|[<-|[<-|[]]]]; apply nth_In; rewrite Hl; lia.
Qed.

Lemma inv_bits a :
  a <> bzero -> gf256_mul xorb andb (gf256_inv xorb andb a) a = bone.
Proof.
  destruct a as [[] [] [] [] [] [] [] []]; intros H; try (vm_compute; reflexivity).
  exfalso. apply H. reflexivity.
Qed.

(** C19: inversion. In every lane, [gf256_inv] of a nonzero byte times that byte is
    1 under [gf256_mul], whatever the other 31 lanes hold. *)
Theorem gf256_inv_correct i (x : slice Z) :
  lane i x <> bzero -> lane i (gf256_mul Z.lxor Z.land (gf256_inv Z.lxor Z.land x) x) = bone.
Proof. intros H. rewrite lane_mul, lane_inv. now apply inv_bits. Qed.

Lemma gf256_inv_correct_witness :
  lane 3 (gf256_mul Z.lxor Z.land (gf256_inv Z.lxor Z.land (bitslice sample_key)) (bitslice sample_key))
  = bone.
Proof. apply (gf256_inv_correct 3 (bitslice sample_key)). vm_compute. discriminate. Defined.
