(* ===== verification/SssField.v ===== *)
(** * One lane of the bitsliced arithmetic is the field GF(2^8)

    Bit [i] of the eight words of a slice is an element of [GF], eight bits. On [GF]
    the operations of hazmat.c, read over [xorb] and [andb], are shown to be
    those of a field; [gf256_inv] is its inverse. *)
From Stdlib Require Import Bool Btauto.
From HB Require Import structures.
From mathcomp Require Import boot nmodule rings_modules_and_algebras divalg poly.
From S2P Require Import Sss SssLanes.
Set Implicit Arguments.
Unset Strict Implicit.
Unset Printing Implicit Defensive.

Definition GF : Type := slice bool.

Definition gf_to_tuple (a : GF) : bool * bool * bool * bool * bool * bool * bool * bool :=
  (s0 a, s1 a, s2 a, s3 a, s4 a, s5 a, s6 a, s7 a).
Definition tuple_to_gf (t : bool * bool * bool * bool * bool * bool * bool * bool) : GF :=
  let: (b0, b1, b2, b3, b4, b5, b6, b7) := t in Slice b0 b1 b2 b3 b4 b5 b6 b7.

Lemma gf_tupleK : cancel gf_to_tuple tuple_to_gf.
Proof. by case. Qed.

HB.instance Definition _ := Finite.copy GF (can_type gf_tupleK).

Definition gadd : GF -> GF -> GF := gf256_add xorb.
Definition gmul : GF -> GF -> GF := gf256_mul xorb andb.
Definition gsquare : GF -> GF := gf256_square xorb.
Definition ginv : GF -> GF := gf256_inv xorb andb.
Definition gzero : GF := bzero.
Definition gone : GF := bone.

(** ** Checking all elements by computation *)

Definition ball (f : bool -> bool) : bool := f false && f true.
Lemma ballP f : ball f -> forall b, f b.
Proof. by case/andP=> ? ? []. Qed.

Definition gf_all (P : GF -> bool) : bool :=
  ball (fun b0 => ball (fun b1 => ball (fun b2 => ball (fun b3 =>
  ball (fun b4 => ball (fun b5 => ball (fun b6 => ball (fun b7 =>
    P (Slice b0 b1 b2 b3 b4 b5 b6 b7))))))))).

Lemma forall_gf (P : GF -> bool) : gf_all P -> forall a, P a.
Proof.
move=> H [b0 b1 b2 b3 b4 b5 b6 b7].
by move/ballP/(_ b0)/ballP/(_ b1)/ballP/(_ b2)/ballP/(_ b3)/ballP/(_ b4)/ballP/(_ b5)
   /ballP/(_ b6)/ballP/(_ b7): H.
Qed.

Definition gf_eqb (a b : GF) : bool :=
  [&& eqb (s0 a) (s0 b), eqb (s1 a) (s1 b), eqb (s2 a) (s2 b), eqb (s3 a) (s3 b) &
      [&& eqb (s4 a) (s4 b), eqb (s5 a) (s5 b), eqb (s6 a) (s6 b) & eqb (s7 a) (s7 b)]].

Lemma gf_eqbP a b : gf_eqb a b -> a = b.
Proof.
case: a b => a0 a1 a2 a3 a4 a5 a6 a7 [b0 b1 b2 b3 b4 b5 b6 b7].
rewrite /gf_eqb /= => /and5P[/eqP-> /eqP-> /eqP-> /eqP->].
by case/and4P=> /eqP-> /eqP-> /eqP-> /eqP->.
Qed.

(** ** The group of nonzero elements is cyclic: 3 generates it *)

(** The powers 0 to 254, computed once. *)
Definition gpowers : list GF :=
  (fix go (n : nat) (a : GF) : list GF :=
     if n is n'.+1 then a :: go n' (gmul (Slice true true false false false false false false) a)
     else [::]) 255 gone.

Lemma gpowers_all : gf_all (fun a => gf_eqb a gzero || has (gf_eqb a) gpowers).
Proof. by vm_compute. Qed.

(** [g^i * g^j = g^((i + j) mod 255)] on the table. *)
Lemma gpowers_mul :
  all (fun i => all (fun j =>
    gf_eqb (gmul (nth gzero gpowers i) (nth gzero gpowers j)) (nth gzero gpowers ((i + j) %% 255)))
    (iota 0 255)) (iota 0 255).
Proof. by vm_compute. Qed.

Lemma gmul0 a : gmul gzero a = gzero.
Proof. by apply: gf_eqbP; move: a; apply: forall_gf; vm_compute. Qed.
Lemma gmulr0 a : gmul a gzero = gzero.
Proof. by apply: gf_eqbP; move: a; apply: forall_gf; vm_compute. Qed.

Lemma gpow_cases a : a = gzero \/ exists2 i, i < 255 & a = nth gzero gpowers i.
Proof.
case/orP: (forall_gf gpowers_all a) => [/gf_eqbP->|]; first by left.
move/(has_nthP gzero)=> [i lti /gf_eqbP ->]; right; exists i => //.
Qed.

Lemma gpow_mul i j : i < 255 -> j < 255 ->
  gmul (nth gzero gpowers i) (nth gzero gpowers j) = nth gzero gpowers ((i + j) %% 255).
Proof.
move=> lti ltj; apply: gf_eqbP; have mem k : k < 255 -> k \in iota 0 255 by rewrite mem_iota.
have /allP/(_ i (mem i lti)) := gpowers_mul; move/allP=> H; exact: H j (mem j ltj).
Qed.

Lemma gmulC : commutative gmul.
Proof.
move=> a b; case: (gpow_cases a) => [->|[i lti ->]]; first by rewrite gmul0 gmulr0.
case: (gpow_cases b) => [->|[j ltj ->]]; first by rewrite gmul0 gmulr0.
by rewrite !gpow_mul // addnC.
Qed.

Lemma gmulA : associative gmul.
Proof.
move=> a b c; case: (gpow_cases a) => [->|[i lti ->]]; first by rewrite !gmul0.
case: (gpow_cases b) => [->|[j ltj ->]]; first by rewrite gmulr0 !gmul0 gmulr0.
case: (gpow_cases c) => [->|[k ltk ->]]; first by rewrite !gmulr0.
by rewrite !gpow_mul ?ltn_mod // modnDmr modnDml addnA.
Qed.

Lemma gmul1 : left_id gone gmul.
Proof. by move=> a; apply: gf_eqbP; move: a; apply: forall_gf; vm_compute. Qed.

(** ** Addition *)

Lemma gaddA : associative gadd.
Proof. by move=> [????????] [????????] [????????]; congr Slice; rewrite /= xorb_assoc. Qed.
Lemma gaddC : commutative gadd.
Proof. by move=> [????????] [????????]; congr Slice; rewrite /= xorb_comm. Qed.
Lemma gadd0 : left_id gzero gadd.
Proof. by move=> [????????]; congr Slice; rewrite /= xorb_false_l. Qed.
Lemma gaddNN : left_inverse gzero id gadd.
Proof. by move=> [????????]; congr Slice; rewrite /= xorb_nilpotent. Qed.

Lemma gmulDr a b c : gmul a (gadd b c) = gadd (gmul a b) (gmul a c).
Proof.
case: a b c => a0 a1 a2 a3 a4 a5 a6 a7 [b0 b1 b2 b3 b4 b5 b6 b7] [c0 c1 c2 c3 c4 c5 c6 c7].
cbv [gmul gadd gf256_mul gf256_add s0 s1 s2 s3 s4 s5 s6 s7].
by congr Slice; btauto.
Qed.
Lemma gmulDl : left_distributive gmul gadd.
Proof. by move=> a b c; rewrite gmulC gmulDr !(gmulC c). Qed.

Lemma gone_neq0 : gone != gzero.
Proof. by apply/eqP. Qed.
Lemma gmulV a : a != gzero -> gmul (ginv a) a = gone.
Proof.
have : gf_eqb a gzero || gf_eqb (gmul (ginv a) a) gone by move: a; apply: forall_gf; vm_compute.
by case/orP=> /gf_eqbP // ->; rewrite eqxx.
Qed.
Lemma ginv0 : ginv gzero = gzero.
Proof. by []. Qed.

HB.instance Definition _ := GRing.isZmodule.Build GF gaddA gaddC gadd0 gaddNN.
HB.instance Definition _ := GRing.Zmodule_isComNzRing.Build GF gmulA gmulC gmul1 gmulDl gone_neq0.
HB.instance Definition _ := GRing.ComNzRing_isField.Build GF gmulV ginv0.

Import GRing.Theory.
Local Open Scope ring_scope.

(** ** Lagrange interpolation over any field *)
Section Lagrange.
Variable F : fieldType.
Variable xs : seq F.
Hypothesis xs_uniq : uniq xs.

Let x (i : 'I_(size xs)) : F := xs`_i.

Definition lagrange_basis (i : 'I_(size xs)) : {poly F} :=
  \prod_(j < size xs | j != i) ('X - (xs`_j)%:P).
Definition lagrange_denom (i : 'I_(size xs)) : F := \prod_(j < size xs | j != i) (xs`_i - xs`_j).
(** The polynomial with value [t i] at point [i]. *)
Definition interpolate (t : 'I_(size xs) -> F) : {poly F} :=
  \sum_i (t i / lagrange_denom i) *: lagrange_basis i.

Lemma x_inj i j : x i = x j -> i = j.
Proof. by move=> /eqP; rewrite nth_uniq // => /eqP/val_inj. Qed.

Lemma lagrange_denom_neq0 i : lagrange_denom i != 0.
Proof.
apply/prodf_neq0 => j nij; rewrite subr_eq0; apply: contra nij.
by move/eqP/x_inj->.
Qed.

Lemma lagrange_basis_eval i m :
  (lagrange_basis i).[x m] = if i == m then lagrange_denom i else 0.
Proof.
rewrite horner_prod; case: eqP => [->|/eqP nim].
  by apply: eq_bigr => j _; rewrite hornerXsubC.
by rewrite (bigD1 m) 1?eq_sym //= hornerXsubC subrr mul0r.
Qed.

Lemma interpolate_eval t m : (interpolate t).[x m] = t m.
Proof.
rewrite horner_sum (bigD1 m) //= hornerZ lagrange_basis_eval eqxx divfK ?lagrange_denom_neq0 //.
rewrite big1 ?addr0 // => i nim; by rewrite hornerZ lagrange_basis_eval (negPf nim) mulr0.
Qed.

Lemma size_lagrange_basis i : (size (lagrange_basis i) <= size xs)%N.
Proof.
rewrite /lagrange_basis -big_filter size_prod_XsubC size_filter -sum1_count sum1_card.
rewrite -[leqRHS]card_ord [leqRHS](cardD1 i) inE add1n ltnS.
by apply: eq_leq; apply: eq_card => j; rewrite !inE andbT.
Qed.

Lemma size_interpolate t : (size (interpolate t) <= size xs)%N.
Proof.
apply: (leq_trans (size_sum _ _ _)); apply/bigmax_leqP => i _.
exact: leq_trans (size_scale_leq _ _) (size_lagrange_basis i).
Qed.

(** A polynomial with fewer coefficients than points is the one through its values. *)
Lemma interpolate_unique (p : {poly F}) :
  (size p <= size xs)%N -> interpolate (fun i => p.[xs`_i]) = p.
Proof.
move=> small; apply/eqP; rewrite -subr_eq0; apply/negPn/negP => nz.
have roots : all (root (interpolate (fun i => p.[xs`_i]) - p)) xs.
  apply/allP => y /(nthP 0) [i lti <-].
  by rewrite /root hornerD hornerN (interpolate_eval _ (Ordinal lti)) subrr.
have := max_poly_roots nz roots xs_uniq; rewrite ltnNge => /negP; apply.
by rewrite (leq_trans (size_polyD _ _)) // geq_max size_polyN small size_interpolate.
Qed.

(** The value at 0 from the values at the points. *)
Lemma lagrange_at0 (p : {poly F}) : (size p <= size xs)%N ->
  p.[0] = \sum_i (\prod_(j < size xs | j != i) (- xs`_j)) / lagrange_denom i * p.[xs`_i].
Proof.
move=> small; rewrite -{1}(interpolate_unique small) horner_sum; apply: eq_bigr => i _.
rewrite hornerZ horner_prod mulrAC [RHS]mulrAC [_ * p.[_]]mulrC; congr (_ * _ / _).
by apply: eq_bigr => j _; rewrite hornerXsubC sub0r.
Qed.
End Lagrange.
