(* ===== verification/SssShare.v ===== *)
(** * Shares: any [k] of them recover the key

    The shares that [sss_create_keyshares] makes are, lane by lane, values of a
    polynomial over GF(2^8) of degree below [k] whose constant term is the
    key; [sss_combine_keyshares] is Lagrange interpolation at 0. *)
From Stdlib Require Import ZArith List Bool Lia.
From HB Require Import structures.
From mathcomp Require Import boot nmodule rings_modules_and_algebras divalg poly.
From S2P Require Import Sss SssLanes SssField.
Set Implicit Arguments.
Unset Strict Implicit.
Unset Printing Implicit Defensive.
Import GRing.Theory.
Local Open Scope ring_scope.

Lemma gf_oppE (a : GF) : - a = a.
Proof. by []. Qed.

Lemma gaddE (a b : GF) : gadd a b = a + b.
Proof. by []. Qed.
Lemma gmulE (a b : GF) : gmul a b = a * b.
Proof. by []. Qed.

(** ** Loops as sums and products *)

Lemma fold_left_ext (A B : Type) (f g : A -> B -> A) l a :
  (forall a b, f a b = g a b) -> fold_left f l a = fold_left g l a.
Proof. by move=> H; elim: l a => //= b l IH a; rewrite H IH. Qed.

Lemma seq_iota m n : List.seq m n = iota m n.
Proof. by elim: n m => //= n IH m; rewrite IH. Qed.

Lemma eqb_eqn (i j : nat) : Nat.eqb i j = (i == j).
Proof. by apply/idP/eqP => [/PeanoNat.Nat.eqb_eq|/PeanoNat.Nat.eqb_eq]. Qed.

Lemma size_length (T : Type) (l : list T) : size l = length l.
Proof. by elim: l => //= x l ->. Qed.

Lemma nth_list (T : Type) (d : T) l i : List.nth i l d = nth d l i.
Proof. by elim: l i => [|x l IH] [|i] //=. Qed.

Lemma fold_sum (F : nat -> GF) l a :
  fold_left (fun (s : GF) j => gadd s (F j)) l a = a + \sum_(j <- l) F j.
Proof.
elim: l a => [|j l IH] a /=; first by rewrite big_nil addr0.
by rewrite IH big_cons addrA.
Qed.

Lemma eval_poly (x : GF) (cs : list GF) (y : GF) :
  eval_coeffs xorb andb bone x cs y = (cons_poly y (Poly cs)).[x].
Proof.
rewrite horner_cons /eval_coeffs.
suff H xpow y' : snd (fold_left (fun (st : GF * GF) (coeff : GF) =>
    let '(xpow, y) := st in let xpow := gmul xpow x in (xpow, gadd y (gmul xpow coeff)))
    cs (xpow, y')) = y' + xpow * (x * (Poly cs).[x]).
  by rewrite H (_ : (bone : GF) = 1) // mul1r addrC mulrC.
elim: cs xpow y' => [|c cs IH] xpow y' /=; first by rewrite horner0 !mulr0 addr0.
rewrite IH horner_cons !gaddE !gmulE -addrA; congr (_ + _).
by rewrite [(Poly cs).[x] * x]mulrC !mulrDr !mulrA addrC.
Qed.

Section Combine.
Variables (xs ys : seq GF).
Local Notation k := (size xs).

Lemma lagrange_prod i l (num denom : GF) :
  fold_left (fun (st : GF * GF) idx2 =>
    let '(num, denom) := st in
    if Nat.eqb i idx2 then (num, denom)
    else let num := gmul num (List.nth idx2 xs bzero) in
         let tmp := gadd (List.nth i xs bzero) (List.nth idx2 xs bzero) in
         (num, gmul denom tmp)) l (num, denom) =
  (num * \prod_(j <- l | j != i) xs`_j, denom * \prod_(j <- l | j != i) (xs`_i - xs`_j)).
Proof.
elim: l num denom => [|j l IH] num denom /=; first by rewrite !big_nil !mulr1.
rewrite !big_cons eqb_eqn [i == j]eq_sym; case: (j == i) => /=; first by rewrite IH.
by rewrite IH !nth_list !gaddE !gmulE !mulrA.
Qed.

Lemma combine_sum : size ys = k ->
  combine_loop xorb andb bzero bone xs ys k =
  \sum_(i < k) (\prod_(j < k | j != i) xs`_j) / (\prod_(j < k | j != i) (xs`_i - xs`_j)) * ys`_i.
Proof.
move=> szy; rewrite /combine_loop seq_iota.
pose F i := (\prod_(j <- iota 0 k | j != i) xs`_j)
  / (\prod_(j <- iota 0 k | j != i) (xs`_i - xs`_j)) * ys`_i.
transitivity (fold_left (fun (s : GF) j => gadd s (F j)) (iota 0 k) 0); last first.
  rewrite fold_sum add0r /F.
  have mk (P : pred nat) (G : nat -> GF) op idx :
    \big[op/idx]_(j <- iota 0 k | P j) G j = \big[op/idx]_(j < k | P j) G j.
    by rewrite -(big_mkord P G) /index_iota subn0.
  by rewrite mk; apply: eq_bigr => i _; rewrite !mk.
apply: fold_left_ext => s i; rewrite /lagrange_loop lagrange_prod !mul1r seq_iota nth_list.
by rewrite -/(gadd _ _).
Qed.
End Combine.

(** ** Shares as points of a polynomial *)

(** The polynomial whose values lane [i] of the shares are. *)
Definition share_poly (i : nat) (key : list Z) (poly : list (slice Z)) : {poly GF} :=
  cons_poly (bits (List.nth i key Z0) : GF) (Poly (List.map (lane i) poly : list GF)).

Lemma share_value i key poly j :
  (i < 32)%N -> length key = 32%N ->
  share_y i (create_keyshare (bitslice key) poly j) =
  (share_poly i key poly).[share_x (create_keyshare (bitslice key) poly j) : GF].
Proof.
move=> /ltP lti szk; rewrite share_y_create // eval_poly /share_poly.
by rewrite -[gf256_add _ _ _]/(gadd _ _) gaddE add0r.
Qed.

Lemma share_poly0 i key poly : (share_poly i key poly).[0] = bits (List.nth i key Z0).
Proof. by rewrite horner_cons mulr0 add0r. Qed.

Lemma size_share_poly i key poly : (size (share_poly i key poly) <= (length poly).+1)%N.
Proof.
rewrite size_cons_poly; case: ifP => // _; rewrite ltnS.
by apply: leq_trans (size_Poly _) _; rewrite size_length length_map.
Qed.

Lemma length_create key poly j : length (create_keyshare key poly j) = sss_KEYSHARE_LEN.
Proof. exact: (f_equal S (length_unbitslice _)). Qed.

(** Any list of distinct shares, at least as many as the threshold, interpolates
    the key's byte [i] at 0. *)
Lemma combine_lanes i key poly n sel :
  (i < 32)%N -> length key = 32%N -> (n <= 255)%N -> (length poly < length sel)%N ->
  List.NoDup sel ->
  (forall s, List.In s sel -> List.In s (List.map (create_keyshare (bitslice key) poly) (List.seq 0 n))) ->
  combine_loop xorb andb bzero bone (List.map share_x sel) (List.map (share_y i) sel) (length sel)
  = bits (List.nth i key Z0).
Proof.
move=> lti szk len lek nd sub.
have idx s : List.In s sel -> exists2 j, (j < 255)%N & s = create_keyshare (bitslice key) poly j.
  move=> /sub /List.in_map_iff [j [<- /List.in_seq [_ /ltP ltj]]]; exists j => //.
  exact: leq_trans ltj len.
have szx : size (List.map share_x sel : list GF) = length sel by rewrite size_length length_map.
pose p := share_poly i key poly.
have ys : List.map (share_y i) sel = [seq p.[x] | x <- (List.map share_x sel : list GF)].
  rewrite -[RHS]/(List.map _ _) List.map_map; apply: List.map_ext_in => s /idx [j _ ->].
  exact: share_value.
have uq : uniq (List.map share_x sel : list GF).
  elim: sel nd idx {sub lek szx ys} => //= s sel IH /List.NoDup_cons_iff [nin nd] idx.
  rewrite (IH nd (fun t tin => idx t (or_intror tin))) andbT.
  apply/negP => /(nthP gzero) [m ltm]; rewrite -nth_list => eqx.
  have ltm' : (m < length sel)%coq_nat by apply/ltP; rewrite -(length_map share_x) -size_length.
  have [j ltj sE] := idx s (or_introl erefl).
  have tin : List.In (List.nth m sel nil) sel by apply: List.nth_In.
  have [j' ltj' tE] := idx _ (or_intror tin).
  have xE : share_x (List.nth m sel nil) = share_x s.
    rewrite -eqx (List.nth_indep _ gzero (share_x nil)) ?List.length_map //.
    by rewrite List.map_nth.
  apply: nin; rewrite sE; move: xE; rewrite sE tE.
  by move/(share_x_inj _ _ _ _ (elimT ltP ltj') (elimT ltP ltj)) <-; rewrite -tE.
rewrite -(share_poly0 i key poly) -{1}szx combine_sum; first by rewrite !size_length !List.length_map.
have small : (size p <= size (List.map share_x sel : list GF))%N.
  by rewrite szx; apply: leq_trans (size_share_poly _ _ _) lek.
rewrite (lagrange_at0 uq small); apply: eq_bigr => m _; rewrite ys (nth_map 0) //.
Qed.

Lemma recover_key key n k poly shares sel :
  length key = 32%N -> List.Forall byte_range key -> (n <= 255)%N ->
  sss_create_keyshares key n k poly = Some shares ->
  List.NoDup sel -> (forall s, List.In s sel -> List.In s shares) -> (k <= length sel)%N ->
  sss_combine_keyshares sel (length sel) = key.
Proof.
move=> szk bk len; rewrite /sss_create_keyshares.
case: ifP => // /andP[/andP[_ k0] _] [<-] nd sub lek.
have kpos : (0 < k)%N by case: (k) k0.
apply: (List.nth_ext _ _ Z0 Z0); first by rewrite length_unbitslice szk.
rewrite length_unbitslice => i /ltP lti; have lens s : List.In s sel -> length s = sss_KEYSHARE_LEN.
  by move=> /sub /List.in_map_iff [j [<- _]]; apply: length_create.
have ltp : (length (List.firstn (k - 1) poly) < length sel)%N.
  apply: leq_ltn_trans (introT leP (List.firstn_le_length _ _)) _.
  by rewrite subn1; case: (k) kpos lek.
rewrite (combine_lane _ _ _ (elimT ltP lti) lens erefl) (combine_lanes lti szk len ltp nd sub).
apply: byte_bits; move/List.Forall_forall: bk; apply; apply: List.nth_In.
by apply/ltP; rewrite szk.
Qed.

Lemma create_made key n k poly shares :
  (n <= 255)%N -> sss_create_keyshares key n k poly = Some shares ->
  length shares = n /\ List.NoDup shares /\
  List.Forall (fun s => length s = sss_KEYSHARE_LEN /\ List.Forall byte_range s) shares.
Proof.
move=> len; rewrite /sss_create_keyshares; case: ifP => // _ [<-].
rewrite List.length_map List.length_seq; split=> //; split.
  apply: List.NoDup_map_NoDup_ForallPairs; last exact: List.seq_NoDup.
  move=> j j' /List.in_seq [_ ltj] /List.in_seq [_ ltj'] E.
  have lt255 m : (m < 0 + n)%coq_nat -> (m < 255)%coq_nat by move/ltP => lt; apply/ltP; apply: leq_trans lt len.
  exact: (share_x_inj _ _ _ _ (lt255 _ ltj) (lt255 _ ltj') (f_equal share_x E)).
apply/List.Forall_forall => s /List.in_map_iff [j [<- _]]; split; first exact: length_create.
apply: List.Forall_cons; first exact: Z.mod_pos_bound.
apply/List.Forall_forall => b /List.in_map_iff [i [<- /List.in_seq [_ lti]]].
by rewrite unbitslice_byte_lane //; apply: byte_is_byte.
Qed.

#[global] Instance sss_laws : SharingLaws.
Proof.
split=> [key n k poly shares /leP len|key n k poly shares sel szk bk /leP len cr nd sub /leP lek].
- exact: create_made.
- exact: (recover_key szk bk len cr nd sub lek).
Qed.

(** C3: Shamir recovery. Take a 32-byte key, thresholds 1 <= k <= n <= 255, and any
    values of the random coefficients. From the [n] shares that
    [sss_create_keyshares] makes, any [k] or more distinct ones, in any
    order, give back exactly the key through [sss_combine_keyshares]: the
    bitsliced code computes Lagrange interpolation over GF(2^8) in all 32
    lanes. *)
Theorem sss_recover key n k poly shares sel :
  length key = 32%N -> List.Forall byte_range key -> (n <= 255)%N ->
  sss_create_keyshares key n k poly = Some shares ->
  List.NoDup sel -> (forall s, List.In s sel -> List.In s shares) -> (k <= length sel)%N ->
  sss_combine_keyshares sel (length sel) = key.
Proof. exact: recover_key. Qed.

Lemma sss_recover_witness :
  sss_create_keyshares sample_key 5 3 sample_poly = Some sample_shares /\
  sss_combine_keyshares sample_sel (length sample_sel) = sample_key.
Proof.
have Hc : sss_create_keyshares sample_key 5 3 sample_poly = Some sample_shares by vm_compute.
split; first exact: Hc.
apply: (@sss_recover sample_key 5 3 sample_poly sample_shares sample_sel).
- by [].
- exact: sample_bytes.
- by [].
- exact: Hc.
- exact: sample_sel_nodup.
- exact: sample_sel_in.
- by [].
Defined.

(** ** Fewer shares say nothing about the key *)

(** Coefficients that keep the values at [xs] when the constant term [a] is
    replaced by [b]. *)
Definition alt_coeffs (xs cs : seq GF) (a b : GF) : seq GF :=
  mkseq (fun m => (interpolate (fun i : 'I_(size xs) => (Poly cs).[xs`_i] + (a - b) / xs`_i))`_m)
    (size cs).

Lemma alt_coeffs_eval xs cs a b x :
  uniq xs -> 0 \notin xs -> (size xs <= size cs)%N -> x \in xs ->
  (cons_poly b (Poly (alt_coeffs xs cs a b))).[x] = (cons_poly a (Poly cs)).[x].
Proof.
move=> uq nz les xin; rewrite /alt_coeffs; set r := interpolate _.
have -> : Poly (mkseq (fun m => r`_m) (size cs)) = r.
  apply/polyP => m; rewrite coef_Poly; case: (ltnP m (size cs)) => ltm; first by rewrite nth_mkseq.
  rewrite nth_default ?size_mkseq // nth_default //; apply: leq_trans ltm.
  exact: leq_trans (size_interpolate _) les.
have /(nthP 0) [m ltm xE] := xin; have x0 : x != 0 by apply: contraNneq nz => <-.
rewrite !horner_cons -xE (interpolate_eval uq _ (Ordinal ltm)) /= xE mulrDl divfK // -addrA.
by rewrite subrK.
Qed.

(** The same for the words of all 32 lanes. *)
Definition alt_lane (js : list nat) (key key' : list Z) (poly : list (slice Z)) (i : nat) : seq GF :=
  alt_coeffs [seq (bits (Z.of_nat j.+1) : GF) | j <- js] (List.map (lane i) poly : list GF)
    (bits (List.nth i key Z0)) (bits (List.nth i key' Z0)).
Definition alt_poly (js : list nat) (key key' : list Z) (poly : list (slice Z)) : list (slice Z) :=
  mkseq (fun m => pack (fun i => nth gzero (alt_lane js key key' poly i) m)) (length poly).

Lemma lane_alt_poly i js key key' poly : (i < 32)%N ->
  (List.map (lane i) (alt_poly js key key' poly) : list GF) = alt_lane js key key' poly i.
Proof.
move=> lti; rewrite -[LHS]/(map _ _) /alt_poly -[RHS](mkseq_nth gzero).
rewrite size_mkseq size_length List.length_map /mkseq -map_comp; apply: eq_map => m.
exact: (lane_pack _ _ (elimT ltP lti)).
Qed.

Lemma bits_uniq (js : seq nat) :
  uniq js -> all (fun j => j < 255)%N js -> uniq [seq (bits (Z.of_nat j.+1) : GF) | j <- js].
Proof.
move=> uq /allP lt; rewrite map_inj_in_uniq // => j j' /lt /ltP ltj /lt /ltP ltj'.
by move=> /bits_inj_nat; apply.
Qed.

Lemma create_alt js key key' poly j :
  length key = 32%N -> length key' = 32%N -> uniq js -> all (fun j => j < 255)%N js ->
  (size js <= length poly)%N -> j \in js ->
  create_keyshare (bitslice key') (alt_poly js key key' poly) j =
  create_keyshare (bitslice key) poly j.
Proof.
move=> szk szk' uq lt255 les jin; have ltj : (j < 255)%N by move/allP: lt255; apply.
set xs : seq GF := [seq (bits (Z.of_nat j.+1) : GF) | j <- js].
have nz : 0 \notin xs.
  apply/mapP => -[m /(allP lt255) /ltP ltm /esym H]; exact: bits_nonzero ltm H.
have lesx i : (size xs <= size (List.map (lane i) poly : list GF))%N.
  by rewrite !size_map [leqRHS]size_length.
have same i : (i < 32)%N ->
  share_y i (create_keyshare (bitslice key') (alt_poly js key key' poly) j) =
  share_y i (create_keyshare (bitslice key) poly j).
  move=> lti; rewrite !share_value // !(share_x_create _ _ _ (elimT ltP ltj)) /share_poly.
  rewrite lane_alt_poly //; apply: alt_coeffs_eval => //; first exact: bits_uniq.
  exact: map_f.
congr cons; apply: (List.nth_ext _ _ Z0 Z0); first by rewrite !length_unbitslice.
rewrite length_unbitslice => i lti; have := same i (introT ltP lti).
rewrite /share_y /create_keyshare [List.tl _]/= [List.tl _ in RHS]/=.
by rewrite !(nth_unbitslice _ _ lti) !bits_byte => ->.
Qed.

(** C5: Shamir secrecy. Fewer than [k] shares are consistent with every key: for
    shares made from [key] and any other 32-byte [key'], and any set of fewer than
    [k] share positions, there are random coefficients for which
    [sss_create_keyshares] on [key'] makes exactly the same shares at those
    positions. *)
Theorem sss_secrecy key key' n k poly shares js :
  length key = 32%N -> length key' = 32%N -> (n <= 255)%N -> length poly = (k - 1)%N ->
  sss_create_keyshares key n k poly = Some shares ->
  uniq js -> all (fun j => j < n)%N js -> (size js < k)%N ->
  exists poly' shares', length poly' = (k - 1)%N /\
    sss_create_keyshares key' n k poly' = Some shares' /\
    forall j, j \in js -> List.nth j shares' nil = List.nth j shares nil.
Proof.
move=> szk szk' len szp; rewrite /sss_create_keyshares; case: ifP => // _ [<-] uq ltn ltk.
have takep (l : list (slice Z)) : length l = (k - 1)%N -> List.firstn (k - 1) l = l.
  by move=> szl; apply: List.firstn_all2; rewrite szl; apply/leP.
have sza : length (alt_poly js key key' poly) = (k - 1)%N by rewrite -size_length size_mkseq.
exists (alt_poly js key key' poly); eexists; split; first exact: sza.
split; first by [].
move=> j jin; have ltj : (j < n)%N by move/allP: ltn; apply.
have nthE f d : List.nth j (List.map f (List.seq 0 n)) d = f j.
  rewrite (List.nth_indep _ d (f 0%N)); first by rewrite List.length_map List.length_seq; apply/ltP.
  by rewrite List.map_nth List.seq_nth //; apply/ltP.
rewrite !nthE !takep //; apply: create_alt => //.
- by apply/allP => m /(allP ltn) ltm; apply: leq_trans ltm len.
- by rewrite szp subn1; case: (k) ltk.
Qed.

Lemma sss_secrecy_witness :
  exists poly' shares', length poly' = 2%N /\
    sss_create_keyshares (List.repeat Z0 32) 5 3 poly' = Some shares' /\
    forall j, j \in [:: 3; 1]%N -> List.nth j shares' nil = List.nth j sample_shares nil.
Proof.
apply: (@sss_secrecy sample_key (List.repeat Z0 32) 5 3 sample_poly sample_shares [:: 3; 1]%N) => //.
Defined.
