(* ===== verification/PivBox.v ===== *)
(** * PIV ECDH boxes (piv.c, piv-internal.h; sshbuf_get_eckey8/put_eckey8 of sshbuf.c)

    A box holds data sealed to an EC public key: an ephemeral key does ECDH with
    it, a digest of the shared secret and a nonce keys an authenticated cipher.
    [Crypto] stands for OpenSSL's curves, the digests, the ciphers' primitives and
    for the point validation; [CryptoLaws] is what the box code relies on.
    Allocations succeed; zeroing of freed memory is left out. *)
From stdpp Require Import base list strings.
From Stdlib Require Import ZArith Lia.
From S2P Require Import Prelude Errf Sshbuf Algs.

Local Open Scope string_scope.
Local Open Scope list_scope.
Local Open Scope Z_scope.
Local Open Scope c_scope.

(** ** Primitives *)

Class Crypto := {
  point : Type;
  scalar : Type;
  (** the public key of a private key on the curve [nid] *)
  ec_pub : Z -> scalar -> point;
  (** [ECDH_compute_key]; [None] when it fails *)
  ec_dh : Z -> scalar -> point -> option (list Z);
  (** [EC_POINT_point2oct] in compressed form and [EC_POINT_oct2point] *)
  ec_point2oct : Z -> point -> list Z;
  ec_oct2point : Z -> list Z -> option point;
  (** [sshkey_ec_validate_public]: 0 or an SSH_ERR code *)
  ec_validate : Z -> point -> Z;
  (** [EC_POINT_cmp(...) == 0] on one curve *)
  ec_point_eqb : Z -> point -> point -> bool;
  (** digest by algorithm number *)
  digest : Z -> list Z -> list Z;
  (** [cipher_init] and [cipher_crypt] with an authentication tag: the cipher, key, IV
      and input; decryption returns an SSH_ERR code when the tag is wrong *)
  aead_enc : sshcipher -> list Z -> list Z -> list Z -> list Z;
  aead_dec : sshcipher -> list Z -> list Z -> list Z -> res Z (list Z)
}.

(** A key as long as the cipher wants it. *)
Definition key_fits (c : sshcipher) (k : list Z) : Prop := bytes k /\ zlen k = cipher_keylen c.
(** What may be encrypted: whole blocks, under a key and an IV that fit. *)
Definition cipher_args (c : sshcipher) (k iv p : list Z) : Prop :=
  key_fits c k /\ zlen iv = cipher_ivlen c /\ bytes p /\ zlen p mod cipher_blocksize c = 0.

Class CryptoLaws `(Crypto) := {
  dh_comm : forall nid a b, ec_dh nid a (ec_pub nid b) = ec_dh nid b (ec_pub nid a);
  oct_round : forall nid p, ec_oct2point nid (ec_point2oct nid p) = Some p;
  oct_bytes : forall nid p, bytes (ec_point2oct nid p);
  oct_len : forall nid p, 1 <= zlen (ec_point2oct nid p) <= SSHBUF_MAX_ECPOINT;
  oct_form : forall nid p, exists b r, ec_point2oct nid p = b :: r /\ (b = 2 \/ b = 3);
  ec_point_eqb_eq : forall nid p q, ec_point_eqb nid p q = true <-> p = q;
  digest_len : forall alg m, alg_known alg = true -> zlen (digest alg m) = ssh_digest_bytes alg;
  digest_bytes : forall alg m, bytes (digest alg m);
  (** the ciphers of the table *)
  aead_round : forall c k iv p, cipher_ok c = true -> cipher_args c k iv p ->
    aead_dec c k iv (aead_enc c k iv p) = Ok p;
  aead_len : forall c k iv p, cipher_ok c = true -> cipher_args c k iv p ->
    zlen (aead_enc c k iv p) = zlen p + cipher_authlen c;
  aead_bytes : forall c k iv p, cipher_ok c = true -> cipher_args c k iv p -> bytes (aead_enc c k iv p);
  (** decryption returns or refuses, and yields as many bytes as there were without the tag *)
  aead_dec_len : forall c k iv e, cipher_ok c = true -> match aead_dec c k iv e with
                 | Ok p => zlen p = zlen e - cipher_authlen c
                 | Er r => r <> 0
                 | _ => False
                 end
}.

Section Box.
Context {C : Crypto}.

(** ** Keys: [struct sshkey], an EC key or a key of another type *)

Inductive sshkey :=
| EcKey (ecdsa_nid : Z) (pub : point) (priv : option scalar)
| OtherKey (type : Z).

Definition sshkey_demote (k : sshkey) : sshkey :=
  match k with EcKey nid p _ => EcKey nid p None | OtherKey t => OtherKey t end.

(** [sshkey_equal_public] of keys on curves; boxes hold no other kind. The other types of keys are in [SshKey]. *)
Definition sshkey_equal_public (a b : option sshkey) : bool :=
  match a, b with
  | Some (EcKey nid p _), Some (EcKey nid' q _) => (nid =? nid') && ec_point_eqb nid p q
  | _, _ => false
  end.

(** ** EC points in buffers *)

Definition get_ec (nid : Z) (d : list Z) : res Z point :=
  if (zlen d =? 0) || (SSHBUF_MAX_ECPOINT <? zlen d) then Er SSH_ERR_ECPOINT_TOO_LARGE
  else
    let b := List.hd 0 d in
    if negb (b =? 4) && negb (Z.land b (Z.lnot 1) =? 2) then Er SSH_ERR_INVALID_FORMAT
    else match ec_oct2point nid d with
         | None => Er SSH_ERR_INVALID_FORMAT
         | Some p => Ok p
         end.

(** A pure result inside an operation. *)
Definition lift {E S A} (r : res E A) : M E S A := fun s => (r, s).

Definition sshbuf_get_eckey8 (nid : Z) : B point :=
  let! pl := sshbuf_peek_string8_direct in
  let! d := peek (fst pl) (snd pl) in
  let! p := lift (get_ec nid d) in
  cmaperr (fun _ => SSH_ERR_INTERNAL_ERROR) sshbuf_get_string8_direct ;!
  cret p.

Definition sshbuf_put_ec8 (nid : Z) (p : point) : B unit :=
  let d := ec_point2oct nid p in
  guard (negb (SSHBUF_MAX_ECPOINT <? zlen d)) SSH_ERR_INVALID_ARGUMENT ;!
  sshbuf_put_string8 d.
Definition sshbuf_put_eckey8 (nid : Z) (p : point) : B unit := sshbuf_put_ec8 nid p.

(** ** Data *)

Record apdubuf := Apdubuf {
  b_data : option (list Z);     (* [None] is the null pointer *)
  b_offset : Z;
  b_size : Z;
  b_len : Z
}.
Definition null_buf : apdubuf := Apdubuf None 0 0 0.
(** A buffer just allocated for [d]. *)
Definition whole_buf (d : list Z) : apdubuf := Apdubuf (Some d) 0 (zlen d) (zlen d).
Definition PIV_BOX_V1 : Z := 1.
Definition PIV_BOX_V2 : Z := 2.
Definition PIV_BOX_VNEXT : Z := 3.

Record piv_ecdh_box := Box {
  pdb_version : Z;
  pdb_guidslot_valid : bool;
  pdb_guid : list Z;
  pdb_slot : Z;
  pdb_ephem_pub : option sshkey;
  pdb_pub : option sshkey;
  pdb_free_str : bool;
  pdb_cipher : option (list Z);
  pdb_kdf : option (list Z);
  pdb_nonce : apdubuf;
  pdb_iv : apdubuf;
  pdb_enc : apdubuf;
  pdb_plain : apdubuf;
  pdb_ephem : option sshkey
}.

Definition box_zero : piv_ecdh_box :=
  Box 0 false (zrepeat 16 0) 0 None None false None None null_buf null_buf null_buf null_buf None.

Definition piv_box_new : piv_ecdh_box :=
  Box (PIV_BOX_VNEXT - 1) false (zrepeat 16 0) 0 None None false None None
    null_buf null_buf null_buf null_buf None.

(** Assignments to fields. *)
Definition set_plain (b : piv_ecdh_box) (v : apdubuf) : piv_ecdh_box :=
  Box (pdb_version b) (pdb_guidslot_valid b) (pdb_guid b) (pdb_slot b) (pdb_ephem_pub b) (pdb_pub b)
    (pdb_free_str b) (pdb_cipher b) (pdb_kdf b) (pdb_nonce b) (pdb_iv b) (pdb_enc b) v (pdb_ephem b).
Definition set_iv (b : piv_ecdh_box) (v : apdubuf) : piv_ecdh_box :=
  Box (pdb_version b) (pdb_guidslot_valid b) (pdb_guid b) (pdb_slot b) (pdb_ephem_pub b) (pdb_pub b)
    (pdb_free_str b) (pdb_cipher b) (pdb_kdf b) (pdb_nonce b) v (pdb_enc b) (pdb_plain b) (pdb_ephem b).
Definition set_nonce (b : piv_ecdh_box) (v : apdubuf) : piv_ecdh_box :=
  Box (pdb_version b) (pdb_guidslot_valid b) (pdb_guid b) (pdb_slot b) (pdb_ephem_pub b) (pdb_pub b)
    (pdb_free_str b) (pdb_cipher b) (pdb_kdf b) v (pdb_iv b) (pdb_enc b) (pdb_plain b) (pdb_ephem b).
Definition set_enc_pub (b : piv_ecdh_box) (enc : apdubuf) (pub : option sshkey) : piv_ecdh_box :=
  Box (pdb_version b) (pdb_guidslot_valid b) (pdb_guid b) (pdb_slot b) (pdb_ephem_pub b) pub
    (pdb_free_str b) (pdb_cipher b) (pdb_kdf b) (pdb_nonce b) (pdb_iv b) enc (pdb_plain b) (pdb_ephem b).
Definition set_algs (b : piv_ecdh_box) (ephem_pub : option sshkey) (cipher kdf : option (list Z))
    : piv_ecdh_box :=
  Box (pdb_version b) (pdb_guidslot_valid b) (pdb_guid b) (pdb_slot b) ephem_pub (pdb_pub b)
    (pdb_free_str b) cipher kdf (pdb_nonce b) (pdb_iv b) (pdb_enc b) (pdb_plain b) (pdb_ephem b).
Definition set_guidslot (b : piv_ecdh_box) (guid : list Z) (slot : Z) : piv_ecdh_box :=
  Box (pdb_version b) true guid slot (pdb_ephem_pub b) (pdb_pub b)
    (pdb_free_str b) (pdb_cipher b) (pdb_kdf b) (pdb_nonce b) (pdb_iv b) (pdb_enc b) (pdb_plain b)
    (pdb_ephem b).

Abbreviation X := (M errf_t piv_ecdh_box).

Definition boxderrf (cause : errf_t) : errf_t := errf "InvalidDataError" (Some cause).
Definition boxverrf (cause : errf_t) : errf_t := errf "NotSupportedError" (Some cause).
Definition boxaerrf (cause : errf_t) : errf_t := errf "ArgumentError" (Some cause).

(** ** Accessors *)

Definition piv_box_guid : X (list Z) :=
  let! b := cget in verify (pdb_guidslot_valid b) ;! cret (pdb_guid b).
Definition piv_box_slot : X Z :=
  let! b := cget in verify (pdb_guidslot_valid b) ;! cret (pdb_slot b).
Definition piv_box_has_guidslot (b : piv_ecdh_box) : bool := pdb_guidslot_valid b.
Definition piv_box_pubkey (b : piv_ecdh_box) : option sshkey := pdb_pub b.
Definition piv_box_ephem_pubkey (b : piv_ecdh_box) : option sshkey := pdb_ephem_pub b.
Definition piv_box_encsize (b : piv_ecdh_box) : Z := b_len (pdb_enc b).
Definition piv_box_nonce_size (b : piv_ecdh_box) : Z := b_len (pdb_nonce b).
Definition piv_box_version (b : piv_ecdh_box) : Z := pdb_version b.
Definition piv_box_sealed (b : piv_ecdh_box) : bool :=
  match b_data (pdb_plain b) with None => true | Some _ => false end.
Definition BOX_DEFAULT_CIPHER : list Z := zs "chacha20-poly1305".
Definition BOX_DEFAULT_KDF : list Z := zs "sha512".
Definition piv_box_cipher (b : piv_ecdh_box) : list Z := default BOX_DEFAULT_CIPHER (pdb_cipher b).
Definition piv_box_kdf (b : piv_ecdh_box) : list Z := default BOX_DEFAULT_KDF (pdb_kdf b).
Definition piv_box_set_guid (guid : list Z) : X unit :=
  verify (zlen guid =? 16) ;!
  cmodify (fun b => set_guidslot b guid (pdb_slot b)).
Definition piv_box_set_slot (slot : Z) : X unit :=
  cmodify (fun b => set_guidslot b (pdb_guid b) slot).

(** Reading [b_len] bytes at [b_data + b_offset]; a null pointer may only be read
    for zero bytes. *)
Definition buf_read {S} (b : apdubuf) : M errf_t S (list Z) :=
  match b_data b with
  | None => if b_len b =? 0 then cret [] else cfault
  | Some d => if (0 <=? b_offset b) && (0 <=? b_len b) && (b_offset b + b_len b <=? zlen d)
              then cret (zslice d (b_offset b) (b_len b)) else cfault
  end.

(** ** Plaintext *)

Definition no_plain (b : piv_ecdh_box) : bool :=
  match b_data (pdb_plain b) with None => true | Some _ => false end.

Definition piv_box_set_data (data : list Z) : X unit :=
  let! b := cget in
  verify (no_plain b) ;!
  cput (set_plain b (whole_buf data)).

(** Operations on a box and a buffer. *)
Definition on_box {A} (m : X A) : M errf_t (piv_ecdh_box * sshbuf) A :=
  fun s => let (r, b) := m (fst s) in (r, (b, snd s)).
Definition on_buf {A} (m : M errf_t sshbuf A) : M errf_t (piv_ecdh_box * sshbuf) A :=
  fun s => let (r, b) := m (snd s) in (r, (fst s, b)).
(** [VERIFY0] of a call. *)
Definition verify0 {S A} (m : M Z S A) : M errf_t S A :=
  fun s => match m s with
           | (Ok a, s') => (Ok a, s')
           | (Er _, s') => (Panic, s')
           | (Panic, s') => (Panic, s')
           | (Fault, s') => (Fault, s')
           end.

Definition piv_box_set_datab : M errf_t (piv_ecdh_box * sshbuf) unit :=
  let! b := on_box cget in
  on_box (verify (no_plain b)) ;!
  let! len := on_buf (verify0 sshbuf_len) in
  let! data := on_buf (verify0 (sshbuf_get len)) in
  on_box (cput (set_plain b (whole_buf data))).

Definition piv_box_take_data : X (list Z) :=
  let! b := cget in
  guard (negb (no_plain b)) (errf "BoxSealed" None) ;!
  let! data := buf_read (pdb_plain b) in
  cput (set_plain b null_buf) ;!
  cret data.

(** The result of [sshbuf_put] is not looked at. *)
Definition piv_box_take_datab : X sshbuf :=
  let! b := cget in
  guard (negb (no_plain b)) (errf "BoxSealed" None) ;!
  let! data := buf_read (pdb_plain b) in
  let! buf := (match sshbuf_put data sshbuf_new with
               | (Ok _, buf) | (Er _, buf) => cret buf
               | (Panic, _) => cpanic
               | (Fault, _) => cfault
               end) in
  cput (set_plain b null_buf) ;!
  cret buf.

(** [VERIFYB] *)
Definition verifyb (b : apdubuf) : X unit :=
  verify (match b_data b with None => false | Some _ => true end) ;!
  verify (b_len b <=? b_size b) ;!
  verify (b_offset b + b_len b <=? b_size b).

(** A freshly allocated copy, or nothing when empty. *)
Definition buf_copy (b : apdubuf) : X apdubuf :=
  if 0 <? b_len b then let! d := buf_read b in cret (whole_buf d) else cret null_buf.

(** [sshkey_demote] of a pointer that must not be null. *)
Definition demote (k : option sshkey) : X sshkey :=
  match k with None => cfault | Some k => cret (sshkey_demote k) end.

Definition piv_box_copy_pubkey : X sshkey :=
  let! b := cget in demote (pdb_pub b).

Definition piv_box_clone : X piv_ecdh_box :=
  let! b := cget in
  let! ephem_pub := demote (pdb_ephem_pub b) in
  let! pub := demote (pdb_pub b) in
  let! nonce := buf_copy (pdb_nonce b) in
  let! iv := buf_copy (pdb_iv b) in
  let! enc := buf_copy (pdb_enc b) in
  let! plain := buf_copy (pdb_plain b) in
  cret (Box (pdb_version b) (pdb_guidslot_valid b)
          (if pdb_guidslot_valid b then pdb_guid b else zrepeat 16 0)
          (if pdb_guidslot_valid b then pdb_slot b else 0)
          (Some ephem_pub) (Some pub) (pdb_free_str b) (pdb_cipher b) (pdb_kdf b)
          nonce iv enc plain None).

(** ** Opening *)

Definition BadAlgorithmError : errf_t := errf "BadAlgorithmError" None.
Definition BoxLengthError : errf_t := errf "LengthError" None.
Definition PaddingError : errf_t := errf "PaddingError" None.

(** Cipher and digest of a box, checked as [piv_box_open*] do. *)
Definition box_algs : X (sshcipher * Z) :=
  let! b := cget in
  match pdb_cipher b, pdb_kdf b with
  | Some cn, Some kn =>
      match cipher_by_name cn with
      | None => craise (boxverrf BadAlgorithmError)
      | Some cipher =>
          verify (0 <? cipher_authlen cipher) ;!
          let dgalg := ssh_digest_alg_by_name kn in
          guard (negb (dgalg =? -1)) (boxverrf BadAlgorithmError) ;!
          guard (negb (ssh_digest_bytes dgalg <? cipher_keylen cipher)) (boxderrf BadAlgorithmError) ;!
          cret (cipher, dgalg)
      end
  | _, _ => cpanic
  end.

(** The first [keylen] bytes of [digest(sec, nonce)]. *)
Definition box_key (cipher : sshcipher) (dgalg : Z) (sec nonce : list Z) : list Z :=
  take (Z.to_nat (cipher_keylen cipher)) (digest dgalg (sec ++ nonce)).

(** Strip the PKCS#7 padding: the length without it. *)
Definition unpad (blocksz : Z) (plain : list Z) : res errf_t Z :=
  let plainlen := zlen plain in
  match zget plain (plainlen - 1) with
  | None => Fault
  | Some padding =>
      if (padding <? 1) || (blocksz <? padding) then Er (boxderrf PaddingError)
      else
        let reallen := usize (plainlen - padding) in
        if forallb (fun b => b =? padding) (drop (Z.to_nat reallen) plain)
        then Ok reallen else Er (boxderrf PaddingError)
  end.

(** The part after the shared secret is known. *)
Definition box_decrypt (cipher : sshcipher) (dgalg : Z) (sec : list Z) : X unit :=
  let! b := cget in
  let! nonce := (if 0 <? b_len (pdb_nonce b) then buf_read (pdb_nonce b) else cret []) in
  let key := box_key cipher dgalg sec nonce in
  verifyb (pdb_iv b) ;!
  guard (b_len (pdb_iv b) =? cipher_ivlen cipher) (boxderrf BoxLengthError) ;!
  let! iv := buf_read (pdb_iv b) in
  verifyb (pdb_enc b) ;!
  guard (negb (b_len (pdb_enc b) <? cipher_authlen cipher + cipher_blocksize cipher))
    (boxderrf BoxLengthError) ;!
  let! enc := buf_read (pdb_enc b) in
  let! plain := lift (match aead_dec cipher key iv enc with
                      | Ok p => Ok p
                      | Er rv => Er (boxderrf (ssherrf rv))
                      | Panic => Panic
                      | Fault => Fault
                      end) in
  let! reallen := lift (unpad (cipher_blocksize cipher) plain) in
  cput (set_plain b (Apdubuf (Some plain) 0 (zlen plain) reallen)).

Definition piv_box_open_offline (privkey : sshkey) : X unit :=
  let! (cipher, dgalg) := box_algs in
  let! b := cget in
  match privkey, pdb_ephem_pub b with
  | EcKey nid _ priv, Some (EcKey _ pt _) =>
      match (match priv with Some s => ec_dh nid s pt | None => None end) with
      | None => craise (boxderrf (errf "OpenSSLError" None))
      | Some sec => box_decrypt cipher dgalg sec
      end
  | _, _ => cfault
  end.

(** [ecdh] is what [piv_ecdh] on the token's slot answers for the ephemeral key. *)
Definition piv_box_open (ecdh : sshkey -> res errf_t (list Z)) : X unit :=
  let! (cipher, dgalg) := box_algs in
  let! b := cget in
  match pdb_ephem_pub b with
  | None => cpanic
  | Some ephem =>
      let! sec := lift (match ecdh ephem with
                        | Er e => Er (errf "BoxKeyError" (Some e))
                        | r => r
                        end) in
      box_decrypt cipher dgalg sec
  end.

(** ** Sealing *)

(** [gen] is the result of [sshkey_generate], [nonce n] and [iv n] the [n] bytes that
    [arc4random_buf] fills in. *)
Definition piv_box_seal_offline (pubk : sshkey) (gen : res Z sshkey) (nonce iv : Z -> list Z)
    : X unit :=
  match pubk with
  | OtherKey _ => craise (errf "ArgumentError" None)
  | EcKey _ pubpt _ =>
      let! b := cget in
      let! pkey := lift (match pdb_ephem b with
                         | Some k => Ok k
                         | None => match gen with
                                   | Ok k => Ok k
                                   | Er rv => Er (boxaerrf (ssherrf rv))
                                   | Panic => Panic
                                   | Fault => Fault
                                   end
                         end) in
      cput (set_algs b (Some (sshkey_demote pkey)) (Some (piv_box_cipher b)) (Some (piv_box_kdf b))) ;!
      match cipher_by_name (piv_box_cipher b) with
      | None => craise (boxaerrf BadAlgorithmError)
      | Some cipher =>
          verify (0 <? cipher_authlen cipher) ;!
          let! b := cget in
          let fresh := (PIV_BOX_V2 <=? pdb_version b)
            && (match b_data (pdb_nonce b) with None => true | Some _ => false end
                || (b_len (pdb_nonce b) =? 0)) in
          cput (if fresh then set_nonce b (whole_buf (nonce 16)) else b) ;!
          let dgalg := ssh_digest_alg_by_name (piv_box_kdf b) in
          guard (negb (dgalg =? -1)) (boxaerrf BadAlgorithmError) ;!
          guard (negb (ssh_digest_bytes dgalg <? cipher_keylen cipher)) (boxaerrf BadAlgorithmError) ;!
          match pkey with
          | EcKey nid _ priv =>
              match (match priv with Some s => ec_dh nid s pubpt | None => None end) with
              | None => craise (boxaerrf (errf "OpenSSLError" None))
              | Some sec =>
                  let! b := cget in
                  let! nonce := (if 0 <? b_len (pdb_nonce b) then buf_read (pdb_nonce b) else cret []) in
                  let key := box_key cipher dgalg sec nonce in
                  let iv := iv (cipher_ivlen cipher) in
                  cput (set_iv b (whole_buf iv)) ;!
                  let! b := cget in
                  verify (0 <? b_len (pdb_plain b)) ;!
                  let blocksz := cipher_blocksize cipher in
                  let padding := blocksz - b_len (pdb_plain b) mod blocksz in
                  verify ((padding <=? blocksz) && (0 <? padding)) ;!
                  let! data := buf_read (pdb_plain b) in
                  let plain := data ++ zrepeat padding padding in
                  cput (set_plain b (Apdubuf None (b_offset (pdb_plain b)) 0 0)) ;!
                  let enc := aead_enc cipher key iv plain in
                  cmodify (fun b => set_enc_pub b (whole_buf enc) (Some (sshkey_demote pubk)))
              end
          | OtherKey _ => cfault
          end
      end
  end.

(** [piv_box_seal]: for the key in [slot] of the token [guid]. *)
Definition piv_box_seal (guid : list Z) (slot : Z) (pubk : sshkey) (gen : res Z sshkey)
    (nonce iv : Z -> list Z) : X unit :=
  piv_box_seal_offline pubk gen nonce iv ;!
  cmodify (fun b => set_guidslot b guid slot).


(** ** Serialization *)

(** The first [b_len] bytes of [b_data], whatever [b_offset] is. *)
Definition raw (b : apdubuf) : option (list Z) :=
  match b_data b with
  | None => if b_len b =? 0 then Some [] else None
  | Some d => if (0 <=? b_len b) && (b_len b <=? zlen d) then Some (zslice d 0 (b_len b)) else None
  end.
Definition buf_raw {S} (b : apdubuf) : M errf_t S (list Z) :=
  match raw b with Some d => cret d | None => cfault end.

(** A buffer operation whose error code is reported as an [errf]. *)
Definition sshput {A} (m : B A) : M errf_t sshbuf A := cmaperr ssherrf m.
Definition sshget {A} (m : B A) : M errf_t sshbuf A := cmaperr (fun rc => boxderrf (ssherrf rc)) m.

Definition ArgumentError : errf_t := errf "ArgumentError" None.
Definition MagicError : errf_t := errf "MagicError" None.
Definition VersionError : errf_t := errf "VersionError" None.
Definition CurveError : errf_t := errf "CurveError" None.

Definition put_guidslot (box : piv_ecdh_box) : M errf_t sshbuf unit :=
  if negb (pdb_guidslot_valid box) then
    sshput (sshbuf_put_u8 0) ;! sshput (sshbuf_put_u8 0) ;! sshput (sshbuf_put_u8 0)
  else
    sshput (sshbuf_put_u8 1) ;!
    sshput (sshbuf_put_string8 (pdb_guid box)) ;!
    sshput (sshbuf_put_u8 (pdb_slot box)).

Definition put_nonce (box : piv_ecdh_box) : M errf_t sshbuf unit :=
  if PIV_BOX_V2 <=? u8 (pdb_version box) then
    let! nonce := buf_raw (pdb_nonce box) in sshput (sshbuf_put_string8 nonce)
  else
    verify (b_len (pdb_nonce box) =? 0) ;!
    verify (match b_data (pdb_nonce box) with None => true | Some _ => false end).

Definition sshbuf_put_piv_box (box : piv_ecdh_box) : M errf_t sshbuf unit :=
  match pdb_pub box, pdb_ephem_pub box with
  | None, _ | _, None => cfault
  | Some (EcKey nid pub _), Some (EcKey enid epub _) =>
      guard (nid =? enid) ArgumentError ;!
      sshput (sshbuf_put_u8 0xB0) ;! sshput (sshbuf_put_u8 0xC5) ;!
      sshput (sshbuf_put_u8 (u8 (pdb_version box))) ;!
      put_guidslot box ;!
      sshput (sshbuf_put_cstring8 (pdb_cipher box)) ;!
      sshput (sshbuf_put_cstring8 (pdb_kdf box)) ;!
      put_nonce box ;!
      match sshkey_curve_nid_to_name nid with
      | None => cpanic
      | Some tname =>
          sshput (sshbuf_put_cstring8 (Some tname)) ;!
          sshput (sshbuf_put_eckey8 nid pub) ;!
          sshput (sshbuf_put_eckey8 enid epub) ;!
          let! iv := buf_raw (pdb_iv box) in
          sshput (sshbuf_put_string8 iv) ;!
          let! enc := buf_raw (pdb_enc box) in
          sshput (sshbuf_put_string enc)
      end
  | Some _, Some _ => craise ArgumentError
  end.

Definition piv_box_to_binary (box : piv_ecdh_box) : res errf_t (list Z) :=
  match sshbuf_put_piv_box box sshbuf_new with
  | (Ok _, buf) => Ok (sb_contents buf)
  | (Er e, _) => Er e
  | (Panic, _) => Panic
  | (Fault, _) => Fault
  end.

(** A public key on [nid], checked. *)
Definition get_pubkey (nid : Z) : M errf_t sshbuf sshkey :=
  let! p := sshget (sshbuf_get_eckey8 nid) in
  guard (ec_validate nid p =? 0) (boxderrf (ssherrf (ec_validate nid p))) ;!
  cret (EcKey nid p None).

Definition get_guidslot : M errf_t sshbuf (bool * list Z * Z) :=
  let! temp := sshget sshbuf_get_u8 in
  let valid := negb (temp =? 0) in
  let! tmpbuf := sshget sshbuf_get_string8 in
  guard (negb (valid && negb (zlen tmpbuf =? 16))) (boxderrf BoxLengthError) ;!
  let! slot := sshget sshbuf_get_u8 in
  cret (valid, if valid then tmpbuf else zrepeat 16 0, if valid then slot else 0).

Definition sshbuf_get_piv_box : M errf_t sshbuf piv_ecdh_box :=
  let! magic0 := sshget sshbuf_get_u8 in
  let! magic1 := sshget sshbuf_get_u8 in
  guard (negb (negb (magic0 =? 0xB0) && negb (magic1 =? 0xC5))) (boxderrf MagicError) ;!
  let! ver := sshget sshbuf_get_u8 in
  guard (negb ((ver <? PIV_BOX_V1) || (PIV_BOX_VNEXT <=? ver))) (boxverrf VersionError) ;!
  let! (valid, guid, slot) := get_guidslot in
  let! cipher := sshget sshbuf_get_cstring8 in
  let! kdf := sshget sshbuf_get_cstring8 in
  let! nonce := (if PIV_BOX_V2 <=? ver
                 then let! d := sshget sshbuf_get_string8 in cret (whole_buf d)
                 else cret null_buf) in
  let! tname := sshget sshbuf_get_cstring8 in
  let nid := sshkey_curve_name_to_nid (c_str tname) in
  guard (negb (nid =? -1)) (boxverrf CurveError) ;!
  let! pub := get_pubkey nid in
  let! ephem := get_pubkey nid in
  let! iv := sshget sshbuf_get_string8 in
  let! enc := sshget sshbuf_get_string in
  cret (Box ver valid guid slot (Some ephem) (Some pub) true (Some (c_str cipher)) (Some (c_str kdf))
          nonce (whole_buf iv) (whole_buf enc) null_buf None).

(** ** The format before the magic number *)

(** [sshkey_fromb] of libssh/sshkey.c on the contents of a buffer. *)
Variable sshkey_fromb : list Z -> res Z sshkey.

Definition EINVAL : Z := 22.
Definition ENOTSUP : Z := 95.

(** Operations on the input buffer and on the buffer of a key blob; the errors are
    [errno] values, whatever the buffer functions said. *)
Definition old_get {A} (m : B A) : M Z (sshbuf * sshbuf) A := cmaperr (fun _ => EINVAL) (on_fst m).
Definition old_key : M Z (sshbuf * sshbuf) sshkey :=
  cmaperr (fun _ => EINVAL) sshbuf_get_stringb ;!
  let! s := cget in
  lift (match sshkey_fromb (sb_contents (snd s)) with Er _ => Er EINVAL | r => r end).

Definition piv_box_read_old_v1 : M Z (sshbuf * sshbuf) piv_ecdh_box :=
  let! ver := old_get sshbuf_get_u8 in
  guard (ver =? 1) ENOTSUP ;!
  let! guid := old_get sshbuf_get_string in
  guard (zlen guid =? 16) EINVAL ;!
  let! slot := old_get sshbuf_get_u8 in
  let! ephem := old_key in
  on_snd sshbuf_reset ;!
  let! pub := old_key in
  let! cipher := old_get sshbuf_get_cstring in
  let! kdf := old_get sshbuf_get_cstring in
  let! iv := old_get sshbuf_get_string in
  let! enc := old_get sshbuf_get_string in
  cret (Box (pdb_version box_zero) (pdb_guidslot_valid box_zero) guid slot (Some ephem) (Some pub) true
          (Some (c_str cipher)) (Some (c_str kdf)) null_buf (whole_buf iv) (whole_buf enc) null_buf None).

Definition piv_box_from_binary (input : list Z) : res errf_t piv_ecdh_box :=
  match sshbuf_from input with
  | None => Panic
  | Some buf =>
      if (1 <? zlen input) && (List.hd 0 input =? 1) then
        match fst (piv_box_read_old_v1 (buf, sshbuf_new)) with
        | Ok box => Ok box
        | Er rv => Er (boxderrf (_errfno rv "" "" 0 (Some "") (Some "")))
        | Panic => Panic
        | Fault => Fault
        end
      else fst (sshbuf_get_piv_box buf)
  end.

(** * Facts *)

(** ** The wire format, as data *)

Record wire := Wire {
  w_version : Z;
  w_guidslot : option (list Z * Z);
  w_cipher : list Z;
  w_kdf : list Z;
  w_nonce : list Z;            (* empty in version 1 *)
  w_curve : list Z;
  w_pub : point;
  w_ephem : point;
  w_iv : list Z;
  w_enc : list Z
}.
Definition w_nid (w : wire) : Z := sshkey_curve_name_to_nid (w_curve w).

Definition wire_bytes (w : wire) : list Z :=
  be_bytes 1 0xB0 ++ be_bytes 1 0xC5 ++ be_bytes 1 (w_version w) ++
  (match w_guidslot w with
   | None => be_bytes 1 0 ++ be_bytes 1 0 ++ be_bytes 1 0
   | Some (guid, slot) => be_bytes 1 1 ++ str8 guid ++ be_bytes 1 slot
   end) ++
  str8 (w_cipher w) ++ str8 (w_kdf w) ++
  (if PIV_BOX_V2 <=? w_version w then str8 (w_nonce w) else []) ++
  str8 (w_curve w) ++
  str8 (ec_point2oct (w_nid w) (w_pub w)) ++ str8 (ec_point2oct (w_nid w) (w_ephem w)) ++
  str8 (w_iv w) ++ str32 (w_enc w).

(** The box in memory that a wire box is read as. *)
Definition box_of_wire (w : wire) : piv_ecdh_box :=
  Box (w_version w) (match w_guidslot w with None => false | Some _ => true end)
    (match w_guidslot w with None => zrepeat 16 0 | Some (g, _) => g end)
    (match w_guidslot w with None => 0 | Some (_, s) => s end)
    (Some (EcKey (w_nid w) (w_ephem w) None)) (Some (EcKey (w_nid w) (w_pub w) None)) true
    (Some (w_cipher w)) (Some (w_kdf w))
    (if PIV_BOX_V2 <=? w_version w then whole_buf (w_nonce w) else null_buf)
    (whole_buf (w_iv w)) (whole_buf (w_enc w)) null_buf None.

(** The wire box that a box in memory is written as, if it can be. *)
Definition wire_of (b : piv_ecdh_box) : option wire :=
  match pdb_pub b, pdb_ephem_pub b, pdb_cipher b, pdb_kdf b with
  | Some (EcKey nid p _), Some (EcKey enid e _), Some cn, Some kn =>
      match raw (pdb_nonce b), raw (pdb_iv b), raw (pdb_enc b), sshkey_curve_nid_to_name nid with
      | Some n, Some iv, Some enc, Some tname =>
          if (nid =? enid) && ((PIV_BOX_V2 <=? pdb_version b)
               || match pdb_nonce b with Apdubuf None _ _ 0 => true | _ => false end)
          then Some (Wire (pdb_version b)
                       (if pdb_guidslot_valid b then Some (pdb_guid b, pdb_slot b) else None)
                       cn kn n tname p e iv enc)
          else None
      | _, _, _, _ => None
      end
  | _, _, _, _ => None
  end.

(** What the reader guarantees. *)
Record wire_read (w : wire) : Prop := {
  wr_version : PIV_BOX_V1 <= w_version w < PIV_BOX_VNEXT;
  wr_guid : forall g s, w_guidslot w = Some (g, s) -> bytes g /\ zlen g = 16 /\ is_byte s;
  wr_curve : w_nid w <> -1;
  wr_valid : ec_validate (w_nid w) (w_pub w) = 0 /\ ec_validate (w_nid w) (w_ephem w) = 0;
  wr_nonce : w_version w < PIV_BOX_V2 -> w_nonce w = [];
  wr_bytes : bytes (w_nonce w) /\ bytes (w_iv w) /\ bytes (w_enc w);
  wr_enc : zlen (w_enc w) <= SSHBUF_SIZE_MAX
}.
(** What the writer needs on top of it: the strings fit their length fields. *)
Record wire_ok (w : wire) : Prop := {
  wo_read : wire_read w;
  wo_cipher : field_ok (FCstr8 (w_cipher w));
  wo_kdf : field_ok (FCstr8 (w_kdf w));
  wo_nonce : zlen (w_nonce w) <= 254;
  wo_iv : zlen (w_iv w) <= 254;
  wo_size : zlen (w_enc w) <= SSHBUF_SIZE_MAX - 2048
}.

(** ** Points in buffers *)

(** The point reader on a byte queue. *)
Definition q_eckey (nid : Z) : M Z queue point :=
  let! s := q_string 1 in
  let! p := lift (get_ec nid s) in
  q_skip_string 1 s ;! cret p.

Lemma get_ec_returns nid d : returned (get_ec nid d) = true.
Proof.
  unfold get_ec. destruct (_ || _); [done|]. destruct (_ && _); [done|]. by destruct (ec_oct2point _ _).
Qed.

Lemma refines_eckey nid : refines (sshbuf_get_eckey8 nid) (q_eckey nid).
Proof.
  intros b H. destruct (peek_string_ok 1 b ltac:(lia) H) as [Hp Hs].
  unfold q_eckey, cbind at 1. destruct (q_string 1 (abs b)) as [r q]. cbn [fst snd] in Hp, Hs. subst q.
  unfold sshbuf_get_eckey8, cbind at 1.
  change sshbuf_peek_string8_direct with (peek_string_k (Z.of_nat 1) (8 * Z.of_nat 1)).
  destruct r as [s|e| |]; try done; [|rewrite Hp; by eexists _, b].
  destruct Hp as (p & len & E & Hat). rewrite E. cbn [fst snd].
  rewrite (cbind_ok _ _ _ _ _ (string_read b b (Z.of_nat 1) s p len H ltac:(lia) Hat eq_refl)).
  pose proof (get_ec_returns nid s) as Hg. unfold cbind at 1 3, lift.
  destruct (get_ec nid s) as [pt|e| |]; try done; [|by eexists _, b].
  destruct (string_consume b (Z.of_nat 1) s p len H ltac:(lia) Hat) as [Ec Sc].
  unfold q_skip_string. rewrite cbind_assoc, (cbind_ok _ _ _ _ _ Sc), cbind_ret_l.
  eexists _, (advance b (Z.of_nat 1 + zlen s)). split_and!.
  - unfold cbind at 1, cmaperr, sshbuf_get_string8_direct, cbind at 1.
    change sshbuf_peek_string8_direct with (peek_string_k (Z.of_nat 1) (8 * Z.of_nat 1)).
    rewrite E. cbn [fst snd]. change 1 with (Z.of_nat 1) at 1. by rewrite (cbind_ok _ _ _ _ _ Ec).
  - apply advance_ok; [done|]. destruct Hat. pose proof (zlen_nonneg s). lia.
  - done.
Qed.

Section Laws.
Context {L : CryptoLaws C}.

Lemma get_ec_point2oct nid p : get_ec nid (ec_point2oct nid p) = Ok p.
Proof.
  unfold get_ec. pose proof (oct_len nid p) as Hl.
  replace (_ || _) with false by lia.
  destruct (oct_form nid p) as (b & r & E & Hb). rewrite E. cbn [hd]. rewrite <- E.
  replace (_ && _) with false by (by destruct Hb as [-> | ->]). by rewrite oct_round.
Qed.

Lemma gets_eckey nid p : gets (sshbuf_get_eckey8 nid) (str8 (ec_point2oct nid p)) p.
Proof.
  apply (refines_gets _ _ _ _ (refines_eckey nid)). intros rest max ro.
  pose proof (oct_len nid p) as Hl. change SSHBUF_MAX_ECPOINT with 133 in Hl.
  unfold q_eckey, str8. rewrite <- app_assoc.
  rewrite (cbind_ok _ _ _ _ _ (q_string_app 1 (ec_point2oct nid p) rest max ro ltac:(change (256 ^ Z.of_nat 1) with 256; lia) ltac:(rewrite size_max_eq; lia))).
  unfold lift, cbind at 1. rewrite get_ec_point2oct. unfold q_skip_string.
  rewrite cbind_assoc, app_assoc.
  replace (Z.of_nat 1 + _) with (zlen (be_bytes 1 (zlen (ec_point2oct nid p)) ++ ec_point2oct nid p))
    by zlen_lia.
  by rewrite (cbind_ok _ _ _ _ _ (q_take_app _ _ _ _)).
Qed.

Lemma puts_eckey nid p : puts (sshbuf_put_eckey8 nid p) (str8 (ec_point2oct nid p)).
Proof.
  unfold sshbuf_put_eckey8, sshbuf_put_ec8. pose proof (oct_len nid p) as Hl.
  replace (_ <? _) with false by lia. cbn [negb guard].
  change SSHBUF_MAX_ECPOINT with 133 in Hl.
  intros b. apply (puts_string8 _ (oct_bytes nid p) ltac:(lia)).
Qed.

(** ** Writing and reading boxes *)

Lemma puts_ssh (m : B unit) bs : puts m bs -> puts (sshput m) bs.
Proof. apply puts_maperr. Qed.
Lemma gets_ssh {A} (m : B A) bs v : gets m bs v -> gets (sshget m) bs v.
Proof. apply gets_maperr. Qed.

Lemma puts_cstring8 s : field_ok (FCstr8 s) -> puts (sshbuf_put_cstring8 (Some s)) (str8 s).
Proof. apply (puts_field (FCstr8 s)). Qed.
Lemma gets_cstring8_ok s : field_ok (FCstr8 s) -> gets sshbuf_get_cstring8 (str8 s) s.
Proof. intros (Hb & Hl & [_ Hn]%no_nul_c_str). apply gets_cstring8; [lia|done]. Qed.
Lemma c_str_ok s : field_ok (FCstr8 s) -> c_str s = s.
Proof. by intros (_ & _ & [Hn _]%no_nul_c_str). Qed.

Lemma curve_field nid name : sshkey_curve_nid_to_name nid = Some name -> field_ok (FCstr8 name).
Proof.
  unfold sshkey_curve_nid_to_name. intros H.
  repeat case_match; simplify_eq; repeat split; try (vm_compute; discriminate);
    apply bytesb_spec; reflexivity.
Qed.
Lemma curve_nid_name name : sshkey_curve_name_to_nid name <> -1 ->
  sshkey_curve_nid_to_name (sshkey_curve_name_to_nid name) = Some name.
Proof.
  unfold sshkey_curve_name_to_nid. intros H.
  destruct (streq name (zs "nistp256")) eqn:E1; [by apply streq_true in E1 as ->|].
  destruct (streq name (zs "nistp384")) eqn:E2; [by apply streq_true in E2 as ->|].
  destruct (streq name (zs "nistp521")) eqn:E3; [by apply streq_true in E3 as ->|done].
Qed.
Lemma wire_curve w : wire_read w -> field_ok (FCstr8 (w_curve w)).
Proof. intros H. eapply curve_field, curve_nid_name, wr_curve, H. Qed.

Lemma puts_guidslot b w :
  w_guidslot w = (if pdb_guidslot_valid b then Some (pdb_guid b, pdb_slot b) else None) ->
  wire_read w ->
  puts (put_guidslot b)
    (match w_guidslot w with
     | None => be_bytes 1 0 ++ be_bytes 1 0 ++ be_bytes 1 0
     | Some (guid, slot) => be_bytes 1 1 ++ str8 guid ++ be_bytes 1 slot
     end).
Proof.
  intros E H. pose proof (wr_guid w H) as Hg. unfold put_guidslot. rewrite E in *.
  destruct (pdb_guidslot_valid b); cbn [negb].
  - destruct (Hg _ _ eq_refl) as (Hb & Hl & _).
    repeat apply puts_seq; apply puts_ssh; try apply puts_u8. by apply puts_string8; [|lia].
  - repeat apply puts_seq; apply puts_ssh, puts_u8.
Qed.

Lemma puts_raw (b : apdubuf) d (f : list Z -> M errf_t sshbuf unit) bs :
  raw b = Some d -> puts (f d) bs -> puts (let! x := buf_raw b in f x) bs.
Proof. unfold buf_raw. by intros ->. Qed.

Lemma puts_piv_box b w : wire_of b = Some w -> wire_ok w -> puts (sshbuf_put_piv_box b) (wire_bytes w).
Proof.
  unfold wire_of, sshbuf_put_piv_box. intros E H.
  destruct (pdb_pub b) as [[nid pub pp|]|]; try done.
  destruct (pdb_ephem_pub b) as [[enid epub ep|]|]; try done.
  destruct (pdb_cipher b) as [cn|]; [|done]. destruct (pdb_kdf b) as [kn|]; [|done].
  destruct (raw (pdb_nonce b)) as [n|] eqn:Hn; [|done]. destruct (raw (pdb_iv b)) as [iv|] eqn:Hiv; [|done].
  destruct (raw (pdb_enc b)) as [enc|] eqn:He; [|done].
  destruct (sshkey_curve_nid_to_name nid) as [tname|] eqn:Ht; [|done].
  destruct (nid =? enid) eqn:Hnid; [|done]. cbn [andb] in E.
  destruct (_ || _) eqn:Hv; [|done]. injection E as <-.
  destruct H as [Hr Hc Hk Hnl Hivl Hel]. pose proof Hr as [Hver _ _ _ _ (Hbn & Hbi & Hbe) _].
  cbn [w_version w_cipher w_kdf w_nonce w_iv w_enc] in *.
  unfold PIV_BOX_V1, PIV_BOX_VNEXT in Hver.
  apply puts_guard; [done|]. apply Z.eqb_eq in Hnid as <-. unfold wire_bytes, w_nid.
  cbn [w_version w_cipher w_kdf w_nonce w_iv w_enc w_curve w_pub w_ephem].
  rewrite (curve_name_roundtrip _ _ Ht). rewrite (wrap_small 8) by lia.
  repeat apply puts_seq; try apply puts_ssh.
  - apply puts_u8.
  - apply puts_u8.
  - apply puts_u8.
  - by apply (puts_guidslot b (Wire _ _ cn kn n tname pub epub iv enc) eq_refl).
  - by apply puts_cstring8.
  - by apply puts_cstring8.
  - unfold put_nonce. rewrite (wrap_small 8) by lia. destruct (PIV_BOX_V2 <=? pdb_version b).
    + eapply puts_raw; [exact Hn|]. by apply puts_ssh, puts_string8.
    + cbn [orb] in Hv. destruct (pdb_nonce b) as [[|] ? ? []]; try done. apply puts_ret.
  - by apply puts_cstring8, (curve_field nid).
  - apply puts_eckey.
  - apply puts_eckey.
  - eapply puts_raw; [exact Hiv|]. apply puts_seq; [by apply puts_ssh, puts_string8|].
    eapply puts_raw; [exact He|]. apply puts_ssh, puts_string; [done|]. lia.
Qed.

Lemma gets_pubkey nid p : ec_validate nid p = 0 ->
  gets (get_pubkey nid) (str8 (ec_point2oct nid p)) (EcKey nid p None).
Proof.
  intros Hv. unfold get_pubkey. eapply gets_last; [apply gets_ssh, gets_eckey|].
  apply gets_guard; [by rewrite Hv|apply gets_ret].
Qed.

Lemma gets_guidslot w : wire_read w ->
  gets get_guidslot
    (match w_guidslot w with
     | None => be_bytes 1 0 ++ be_bytes 1 0 ++ be_bytes 1 0
     | Some (guid, slot) => be_bytes 1 1 ++ str8 guid ++ be_bytes 1 slot
     end)
    (pdb_guidslot_valid (box_of_wire w), pdb_guid (box_of_wire w), pdb_slot (box_of_wire w)).
Proof.
  intros H. pose proof (wr_guid w H) as Hg. unfold get_guidslot, box_of_wire.
  cbn [pdb_guidslot_valid pdb_guid pdb_slot]. destruct (w_guidslot w) as [[g s]|].
  - destruct (Hg _ _ eq_refl) as (Hb & Hl & Hs).
    eapply gets_bind; [apply gets_ssh, gets_u8; lia|]. cbn [negb Z.eqb].
    eapply gets_bind; [apply gets_ssh, gets_string8; lia|].
    apply gets_guard; [by rewrite Hl|]. eapply gets_last; [by apply gets_ssh, gets_u8|apply gets_ret].
  - eapply gets_bind; [apply gets_ssh, gets_u8; lia|]. cbn [negb Z.eqb].
    eapply (gets_bind _ _ (be_bytes 1 0)); [apply gets_ssh, (gets_string8 []); by vm_compute|].
    apply gets_guard; [done|]. eapply gets_last; [by apply gets_ssh, gets_u8|apply gets_ret].
Qed.

Lemma gets_nonce w : wire_ok w ->
  gets (if PIV_BOX_V2 <=? w_version w
        then let! d := sshget sshbuf_get_string8 in cret (whole_buf d)
        else cret null_buf)
    (if PIV_BOX_V2 <=? w_version w then str8 (w_nonce w) else [])
    (if PIV_BOX_V2 <=? w_version w then whole_buf (w_nonce w) else null_buf).
Proof.
  intros H. destruct (PIV_BOX_V2 <=? w_version w); [|apply gets_ret].
  eapply gets_last; [|apply gets_ret]. apply gets_ssh, gets_string8. pose proof (wo_nonce w H). lia.
Qed.

Lemma gets_piv_box w : wire_ok w -> gets sshbuf_get_piv_box (wire_bytes w) (box_of_wire w).
Proof.
  intros H. pose proof (wo_read w H) as Hr. pose proof (wr_version w Hr) as Hv.
  unfold PIV_BOX_V1, PIV_BOX_VNEXT in Hv. destruct (wr_valid w Hr) as [Hp He].
  pose proof (wr_curve w Hr) as Hn. pose proof (wire_curve w Hr) as Hcf.
  unfold sshbuf_get_piv_box, wire_bytes.
  eapply gets_bind; [apply gets_ssh, gets_u8; lia|].
  eapply gets_bind; [apply gets_ssh, gets_u8; lia|].
  apply gets_guard; [done|].
  eapply gets_bind; [apply gets_ssh, gets_u8; lia|].
  apply gets_guard; [unfold PIV_BOX_V1, PIV_BOX_VNEXT; lia|].
  eapply gets_bind; [by apply gets_guidslot|]. cbn match.
  eapply gets_bind; [by apply gets_ssh, gets_cstring8_ok, wo_cipher|].
  eapply gets_bind; [by apply gets_ssh, gets_cstring8_ok, wo_kdf|].
  eapply gets_bind; [by apply gets_nonce|].
  eapply gets_bind; [by apply gets_ssh, gets_cstring8_ok|].
  rewrite (c_str_ok (w_curve w)), (c_str_ok (w_cipher w)), (c_str_ok (w_kdf w))
    by (done || apply H).
  fold (w_nid w). apply gets_guard; [by apply negb_true_iff, Z.eqb_neq|].
  eapply gets_bind; [by apply gets_pubkey|]. eapply gets_bind; [by apply gets_pubkey|].
  eapply gets_bind; [apply gets_ssh, gets_string8; pose proof (wo_iv w H); lia|].
  eapply gets_last; [apply gets_ssh, gets_string; pose proof (wo_size w H); lia|].
  apply gets_ret.
Qed.

Lemma zlen_str8 s : zlen (str8 s) = 1 + zlen s.
Proof. unfold str8. zlen_lia. Qed.
Lemma zlen_str32 s : zlen (str32 s) = 4 + zlen s.
Proof. unfold str32. zlen_lia. Qed.

Lemma wire_bytes_len w : wire_ok w -> zlen (wire_bytes w) <= SSHBUF_SIZE_MAX.
Proof.
  intros [Hr (_ & Hc & _) (_ & Hk & _) Hn Hi He]. pose proof (wr_guid w Hr) as Hg.
  destruct (wire_curve w Hr) as (_ & Ht & _).
  pose proof (oct_len (w_nid w) (w_pub w)). pose proof (oct_len (w_nid w) (w_ephem w)).
  change SSHBUF_MAX_ECPOINT with 133 in *.
  unfold wire_bytes. rewrite !zlen_app, !zlen_str8, zlen_str32, !zlen_be_bytes.
  assert (zlen (match w_guidslot w with
     | None => be_bytes 1 0 ++ be_bytes 1 0 ++ be_bytes 1 0
     | Some (guid, slot) => be_bytes 1 1 ++ str8 guid ++ be_bytes 1 slot
     end) <= 19).
  { destruct (w_guidslot w) as [[g s]|]; [|by vm_compute].
    destruct (Hg _ _ eq_refl) as (_ & Hl & _). rewrite !zlen_app, zlen_str8, !zlen_be_bytes. lia. }
  assert (zlen (if PIV_BOX_V2 <=? w_version w then str8 (w_nonce w) else []) <= 255).
  { destruct (_ <=? _); [rewrite zlen_str8; lia|by vm_compute]. }
  lia.
Qed.

Lemma wire_bytes_head w r : wire_bytes w = r -> List.hd 0 r = 0xB0.
Proof. by intros <-. Qed.

Ltac bytes_app := repeat match goal with |- bytes (_ ++ _) => apply Forall_app; split end.
Lemma str8_bytes s : bytes s -> bytes (str8 s).
Proof. intros. apply Forall_app. split; [apply be_bytes_bytes|done]. Qed.
Lemma str32_bytes s : bytes s -> bytes (str32 s).
Proof. intros. apply Forall_app. split; [apply be_bytes_bytes|done]. Qed.
Lemma wire_bytes_bytes w : wire_ok w -> bytes (wire_bytes w).
Proof.
  intros [Hr (Hc & _) (Hk & _) _ _ _]. pose proof (wr_guid w Hr) as Hg.
  destruct (wire_curve w Hr) as (Ht & _). pose proof (wr_bytes w Hr) as (Hn & Hi & He).
  unfold wire_bytes.
  bytes_app; auto using str8_bytes, str32_bytes, be_bytes_bytes, oct_bytes.
  - destruct (w_guidslot w) as [[g s]|]; [destruct (Hg _ _ eq_refl) as (Hb & _)|];
    bytes_app; first [by apply str8_bytes | apply be_bytes_bytes].
  - destruct (_ <=? _); auto using str8_bytes.
Qed.

(** What is written is read back. *)
Lemma piv_box_binary_roundtrip b w :
  wire_of b = Some w -> wire_ok w ->
  piv_box_to_binary b = Ok (wire_bytes w) /\ piv_box_from_binary (wire_bytes w) = Ok (box_of_wire w).
Proof.
  intros Hw H. pose proof (wire_bytes_len w H) as Hl. split.
  - unfold piv_box_to_binary.
    destruct (puts_new _ _ (puts_piv_box b w Hw H) Hl) as (buf & -> & _ & <- & _). done.
  - unfold piv_box_from_binary. destruct (sshbuf_from (wire_bytes w)) as [buf|] eqn:E.
    + destruct (sshbuf_from_ok _ _ (wire_bytes_bytes w H) E) as (K & (Hc & _)%abs_inv).
      rewrite (wire_bytes_head w _ eq_refl), andb_false_r.
      by destruct (gets_whole _ _ _ buf (gets_piv_box w H) K Hc) as (b' & -> & _).
    + unfold sshbuf_from in E. destruct (Z.ltb_spec SSHBUF_SIZE_MAX (zlen (wire_bytes w))); [lia|done].
Qed.

(** ** Sealing and opening *)

Lemma read_whole {S} d (s : S) : buf_read (whole_buf d) s = (Ok d, s).
Proof.
  unfold buf_read, whole_buf. cbn [b_data b_offset b_len]. pose proof (zlen_nonneg d).
  replace (_ && _) with true by lia. by rewrite zslice_all.
Qed.
Lemma verifyb_whole d b : verifyb (whole_buf d) b = (Ok tt, b).
Proof. unfold verifyb, whole_buf, cbind. cbn. by rewrite !Z.leb_refl. Qed.

(** PKCS#7 padding up to a multiple of [blocksz]. *)
Definition pad_len (blocksz len : Z) : Z := blocksz - len mod blocksz.
Definition padded (blocksz : Z) (data : list Z) : list Z :=
  data ++ zrepeat (pad_len blocksz (zlen data)) (pad_len blocksz (zlen data)).

Lemma pad_len_range blocksz len : 1 <= blocksz -> 1 <= pad_len blocksz len <= blocksz.
Proof. intros. unfold pad_len. pose proof (Z.mod_pos_bound len blocksz). lia. Qed.

Lemma padded_bytes blocksz data : 1 <= blocksz <= 16 -> bytes data -> bytes (padded blocksz data).
Proof.
  intros Hb Hd. apply Forall_app. split; [done|]. apply Forall_replicate. unfold is_byte.
  pose proof (pad_len_range blocksz (zlen data)). lia.
Qed.
Lemma zlen_padded blocksz data :
  1 <= blocksz -> zlen (padded blocksz data) = zlen data + pad_len blocksz (zlen data).
Proof.
  intros. unfold padded. pose proof (pad_len_range blocksz (zlen data)).
  rewrite zlen_app, zlen_zrepeat; lia.
Qed.

Lemma unpad_padded blocksz data :
  1 <= blocksz <= 16 -> zlen data < 2 ^ 63 -> unpad blocksz (padded blocksz data) = Ok (zlen data).
Proof.
  intros Hb Hl. unfold unpad. rewrite zlen_padded by lia. unfold padded.
  pose proof (pad_len_range blocksz (zlen data) ltac:(lia)) as Hp.
  set (p := pad_len blocksz (zlen data)) in *. pose proof (zlen_nonneg data).
  assert (zget (data ++ zrepeat p p) (zlen data + p - 1) = Some p) as ->.
  { unfold zget. replace (0 <=? _) with true by lia. rewrite lookup_app_r by (unfold zlen in *; lia).
    unfold zrepeat. apply lookup_replicate_2. unfold zlen in *. lia. }
  replace ((p <? 1) || (blocksz <? p)) with false by lia.
  replace (zlen data + p - p) with (zlen data) by lia. rewrite wrap_small by lia.
  assert (drop (Z.to_nat (zlen data)) (data ++ zrepeat p p) = zrepeat p p) as ->.
  { unfold zlen. by rewrite Nat2Z.id, drop_app_length. }
  replace (forallb _ _) with true; [done|]. symmetry. apply forallb_forall. intros x Hx.
  apply list_elem_of_In, elem_of_replicate in Hx as [-> _]. lia.
Qed.

(** The nonce field as sealing leaves it and as a parser fills it in. *)
Definition nonce_is (b : apdubuf) (n : list Z) : Prop := b = whole_buf n \/ (b = null_buf /\ n = []).

Lemma nonce_read b n (s : piv_ecdh_box) : nonce_is b n ->
  (if 0 <? b_len b then buf_read b else cret []) s = (Ok n, s).
Proof.
  intros [->|[-> ->]]; [|done]. change (b_len (whole_buf n)) with (zlen n).
  destruct (Z.ltb_spec 0 (zlen n)); [apply read_whole|]. destruct n; [done|]. rewrite zlen_cons in *.
  pose proof (zlen_nonneg n). lia.
Qed.

Lemma box_key_fits c alg sec n : cipher_ok c = true -> alg_known alg = true -> cipher_keylen c <= ssh_digest_bytes alg ->
  key_fits c (box_key c alg sec n).
Proof.
  intros Hok Ha Hl. destruct (cipher_lens c Hok) as (_ & Hk & _). unfold box_key. split; [apply Forall_take, digest_bytes|].
  unfold zlen. rewrite length_take. pose proof (digest_len alg (sec ++ n) Ha) as Hd. unfold zlen in Hd. lia.
Qed.

Lemma padded_blocks c data : cipher_ok c = true -> zlen (padded (cipher_blocksize c) data) mod cipher_blocksize c = 0.
Proof.
  intros Hok. destruct (cipher_lens c Hok) as (Hb & _). rewrite zlen_padded by lia. unfold pad_len.
  replace (zlen data + _) with ((zlen data / cipher_blocksize c + 1) * cipher_blocksize c); [apply Z.mod_mul; lia|].
  pose proof (Z.div_mod (zlen data) (cipher_blocksize c)). lia.
Qed.

Lemma box_args c alg sec n iv data : cipher_ok c = true -> alg_known alg = true -> cipher_keylen c <= ssh_digest_bytes alg ->
  zlen iv = cipher_ivlen c -> bytes data ->
  cipher_args c (box_key c alg sec n) iv (padded (cipher_blocksize c) data).
Proof.
  intros Hok Ha Hl Hi Hb. destruct (cipher_lens c Hok) as (Hblk & _).
  split; [by apply box_key_fits|]. split; [done|]. split; [by apply padded_bytes|by apply padded_blocks].
Qed.

Lemma box_decrypt_ok c alg sec b nonce iv data :
  cipher_ok c = true -> alg_known alg = true -> cipher_keylen c <= ssh_digest_bytes alg -> bytes data -> nonce_is (pdb_nonce b) nonce ->
  pdb_iv b = whole_buf iv -> zlen iv = cipher_ivlen c -> 0 < zlen data < 2 ^ 63 ->
  pdb_enc b = whole_buf (aead_enc c (box_key c alg sec nonce) iv (padded (cipher_blocksize c) data)) ->
  box_decrypt c alg sec b =
    (Ok tt, set_plain b (Apdubuf (Some (padded (cipher_blocksize c) data)) 0
                           (zlen (padded (cipher_blocksize c) data)) (zlen data))).
Proof.
  intros Hok Hak Hkl Hdb Hn Hiv Hivl Hd He. pose proof (box_args c alg sec nonce iv data Hok Hak Hkl Hivl Hdb). destruct (cipher_lens c Hok) as (Hb & _). unfold box_decrypt. unfold cbind at 1, cget.
  rewrite (cbind_ok _ _ _ _ _ (nonce_read _ _ b Hn)). rewrite Hiv, He.
  rewrite (cbind_ok _ _ _ _ _ (verifyb_whole _ _)).
  change (b_len (whole_buf iv)) with (zlen iv). rewrite Hivl, Z.eqb_refl. cbn [guard]. rewrite cbind_ret_l.
  rewrite (cbind_ok _ _ _ _ _ (read_whole _ _)), (cbind_ok _ _ _ _ _ (verifyb_whole _ _)).
  set (p := padded (cipher_blocksize c) data).
  assert (Hp : zlen p = zlen data + pad_len (cipher_blocksize c) (zlen data)) by (apply zlen_padded; lia).
  change (b_len (whole_buf ?e)) with (zlen e). rewrite aead_len by done.
  assert (cipher_blocksize c <= zlen p).
  { rewrite Hp. unfold pad_len. pose proof (Z.mod_le (zlen data) (cipher_blocksize c)). lia. }
  replace (_ <? _) with false by lia. cbn [negb guard]. rewrite cbind_ret_l.
  rewrite (cbind_ok _ _ _ _ _ (read_whole _ _)). unfold lift, cbind at 1.
  rewrite aead_round by done.
  unfold cbind, p. rewrite unpad_padded by lia. done.
Qed.

Lemma take_opened b blk data :
  1 <= blk ->
  piv_box_take_data (set_plain b (Apdubuf (Some (padded blk data)) 0 (zlen (padded blk data)) (zlen data))) =
    (Ok data, set_plain b null_buf).
Proof.
  intros Hb. unfold piv_box_take_data, cbind at 1, cget. cbn [no_plain pdb_plain b_data set_plain negb guard].
  rewrite cbind_ret_l. unfold buf_read. cbn [b_data b_offset b_len].
  pose proof (zlen_nonneg data). pose proof (zlen_padded blk data Hb).
  pose proof (pad_len_range blk (zlen data) Hb).
  replace (_ && _) with true by lia. rewrite cbind_ret_l. cbn. do 2 f_equal.
  rewrite zslice_0. unfold padded, zlen. by rewrite Nat2Z.id, take_app_length.
Qed.

(** A box ready for sealing [data] with the cipher [c] and the digest [alg]. *)
Record sealable (b : piv_ecdh_box) (data : list Z) (c : sshcipher) (alg : Z) : Prop := {
  sl_plain : pdb_plain b = whole_buf data;
  sl_data : 0 < zlen data < 2 ^ 63;
  sl_cipher : cipher_by_name (piv_box_cipher b) = Some c;
  sl_auth : 0 < cipher_authlen c;
  sl_kdf : ssh_digest_alg_by_name (piv_box_kdf b) = alg /\ alg <> -1;
  sl_keylen : cipher_keylen c <= ssh_digest_bytes alg
}.

(** The nonce in use, given what is in the box and fresh random bytes. *)
Definition used_nonce (b : piv_ecdh_box) (fresh : list Z) : apdubuf :=
  if (PIV_BOX_V2 <=? pdb_version b)
     && (match b_data (pdb_nonce b) with None => true | Some _ => false end || (b_len (pdb_nonce b) =? 0))
  then whole_buf fresh else pdb_nonce b.

(** The box that sealing leaves. *)
Definition sealed_box (b : piv_ecdh_box) (nid : Z) (pub epub : point) (nonce : apdubuf) (iv enc : list Z)
    : piv_ecdh_box :=
  Box (pdb_version b) (pdb_guidslot_valid b) (pdb_guid b) (pdb_slot b)
    (Some (EcKey nid epub None)) (Some (EcKey nid pub None)) (pdb_free_str b)
    (Some (piv_box_cipher b)) (Some (piv_box_kdf b)) nonce (whole_buf iv) (whole_buf enc)
    (Apdubuf None 0 0 0) (pdb_ephem b).

Lemma seal_ok b data c alg nid pub pp epub e gen nonce iv n sec :
  sealable b data c alg ->
  match pdb_ephem b with Some k => Ok k | None => gen end = Ok (EcKey nid epub (Some e)) ->
  ec_dh nid e pub = Some sec ->
  nonce_is (used_nonce b (nonce 16)) n ->
  piv_box_seal_offline (EcKey nid pub pp) gen nonce iv b =
    (Ok tt, sealed_box b nid pub epub (used_nonce b (nonce 16)) (iv (cipher_ivlen c))
              (aead_enc c (box_key c alg sec n) (iv (cipher_ivlen c)) (padded (cipher_blocksize c) data))).
Proof.
  intros [Hp Hd Hc Ha [Hk Hk1] Hkl] Hg Hdh Hn. unfold piv_box_seal_offline.
  pose proof (cipher_lens c (cipher_by_name_ok _ _ Hc)) as (Hblk & _).
  unfold cbind at 1, cget. unfold cbind at 1, lift.
  replace (match pdb_ephem b with Some k => Ok k | None => _ end) with
    (@Ok errf_t _ (EcKey nid epub (Some e))) by (by destruct (pdb_ephem b); [injection Hg as ->|rewrite Hg]).
  unfold cbind at 1, cput. rewrite Hc. replace (0 <? cipher_authlen c) with true by lia.
  cbn [verify]. rewrite cbind_ret_l. unfold cbind at 1, cget.
  unfold cbind at 1, cput. cbn [pdb_version set_algs pdb_nonce].
  change (piv_box_kdf (set_algs _ _ _ _)) with (piv_box_kdf b). rewrite Hk.
  replace (alg =? -1) with false by lia. cbn [negb guard]. rewrite cbind_ret_l.
  replace (_ <? _) with false by lia. cbn [negb guard]. rewrite cbind_ret_l, Hdh.
  set (b1 := if _ && _ then _ else _).
  assert (b1 = set_nonce (set_algs b (Some (EcKey nid epub None)) (Some (piv_box_cipher b))
    (Some (piv_box_kdf b))) (used_nonce b (nonce 16))) as ->.
  { unfold b1, used_nonce. by destruct (_ && _). }
  unfold cbind at 1, cget. rewrite (cbind_ok _ _ _ _ _ (nonce_read _ _ _ Hn)).
  unfold cbind at 1, cput. unfold cbind at 1, cget.
  cbn [pdb_plain set_iv set_nonce set_algs]. rewrite Hp. change (b_len (whole_buf data)) with (zlen data).
  replace (0 <? zlen data) with true by lia. cbn [verify]. rewrite cbind_ret_l.
  fold (pad_len (cipher_blocksize c) (zlen data)).
  pose proof (pad_len_range (cipher_blocksize c) (zlen data) ltac:(lia)).
  replace (_ && _) with true by lia. cbn [verify]. rewrite cbind_ret_l.
  rewrite (cbind_ok _ _ _ _ _ (read_whole _ _)). fold (padded (cipher_blocksize c) data). done.
Qed.

(** Opening a box whose contents are those of a sealed one. *)
Lemma open_ok b data c alg nid p priv epub ep n iv sec :
  pdb_cipher b = Some (c_name c) /\ cipher_by_name (c_name c) = Some c -> 0 < cipher_authlen c ->
  (exists kn, pdb_kdf b = Some kn /\ ssh_digest_alg_by_name kn = alg) ->
  alg <> -1 -> cipher_keylen c <= ssh_digest_bytes alg ->
  bytes data -> 0 < zlen data < 2 ^ 63 ->
  pdb_ephem_pub b = Some (EcKey nid epub ep) -> ec_dh nid priv epub = Some sec ->
  nonce_is (pdb_nonce b) n -> pdb_iv b = whole_buf iv -> zlen iv = cipher_ivlen c ->
  pdb_enc b = whole_buf (aead_enc c (box_key c alg sec n) iv (padded (cipher_blocksize c) data)) ->
  piv_box_open_offline (EcKey nid p (Some priv)) b =
    (Ok tt, set_plain b (Apdubuf (Some (padded (cipher_blocksize c) data)) 0
                           (zlen (padded (cipher_blocksize c) data)) (zlen data))) /\
  piv_box_open (fun _ => Ok sec) b =
    (Ok tt, set_plain b (Apdubuf (Some (padded (cipher_blocksize c) data)) 0
                           (zlen (padded (cipher_blocksize c) data)) (zlen data))).
Proof.
  intros [Hcn Hc] Ha (kn & Hkn & Hk) Hk1 Hkl Hdb Hd Hep Hdh Hn Hiv Hivl He.
  assert (box_algs b = (Ok (c, alg), b)) as Halg.
  { unfold box_algs, cbind at 1, cget. rewrite Hcn, Hkn, Hc.
    replace (0 <? cipher_authlen c) with true by lia. cbn [verify]. rewrite cbind_ret_l, Hk.
    replace (alg =? -1) with false by lia. cbn [negb guard]. rewrite cbind_ret_l.
    by replace (_ <? _) with false by lia. }
  assert (alg_known alg = true) as Hak by (subst alg; by apply alg_by_name_known).
  pose proof (box_decrypt_ok c alg sec b n iv data (cipher_by_name_ok _ _ Hc) Hak Hkl Hdb Hn Hiv Hivl Hd He) as Hdec.
  split.
  - unfold piv_box_open_offline. rewrite (cbind_ok _ _ _ _ _ Halg). unfold cbind at 1, cget.
    by rewrite Hep, Hdh.
  - unfold piv_box_open. rewrite (cbind_ok _ _ _ _ _ Halg). unfold cbind at 1, cget.
    by rewrite Hep.
Qed.

Lemma cipher_name_eq name c : cipher_by_name name = Some c -> c_name c = name.
Proof. unfold cipher_by_name. intros [_ H]%find_some. by apply streq_true. Qed.

Lemma cipher_name_field name c : cipher_by_name name = Some c -> field_ok (FCstr8 name).
Proof.
  intros H. rewrite <- (cipher_name_eq _ _ H). unfold cipher_by_name in H. apply find_some in H as [Hin _].
  assert (forallb (fun c => bytesb (c_name c) && (zlen (c_name c) <=? 254) && no_nul (c_name c)) ciphers
    = true) as Hall by by vm_compute.
  rewrite forallb_forall in Hall. apply Hall in Hin. rewrite !andb_true_iff in Hin.
  destruct Hin as [[Hb Hl] Hn]. split_and!; [by apply bytesb_spec|lia|done].
Qed.

(** The token of a box, when it has one. *)
Definition guidslot_of (b : piv_ecdh_box) : option (list Z * Z) :=
  if pdb_guidslot_valid b then Some (pdb_guid b, pdb_slot b) else None.

(** A sealed box for the token [gs], as it goes on the wire. *)
Definition sealed_wire (b : piv_ecdh_box) (gs : option (list Z * Z)) (tname : list Z) (pub epub : point)
    (n iv enc : list Z) : wire :=
  Wire (pdb_version b) gs (piv_box_cipher b) (piv_box_kdf b) n tname pub epub iv enc.

Lemma raw_whole d : raw (whole_buf d) = Some d.
Proof.
  unfold raw, whole_buf. cbn. pose proof (zlen_nonneg d). replace (_ && _) with true by lia.
  by rewrite zslice_all.
Qed.
Lemma raw_nonce b n : nonce_is b n -> raw b = Some n.
Proof. intros [->|[-> ->]]; [apply raw_whole|done]. Qed.

Lemma sealed_wire_of b nid tname pub epub nb n iv enc :
  sshkey_curve_nid_to_name nid = Some tname -> nonce_is nb n ->
  (pdb_version b < PIV_BOX_V2 -> nb = null_buf) ->
  wire_of (sealed_box b nid pub epub nb iv enc) = Some (sealed_wire b (guidslot_of b) tname pub epub n iv enc).
Proof.
  intros Ht Hn Hv. unfold wire_of. cbn [sealed_box pdb_pub pdb_ephem_pub pdb_cipher pdb_kdf
    pdb_nonce pdb_iv pdb_enc pdb_version pdb_guidslot_valid pdb_guid pdb_slot].
  rewrite (raw_nonce _ _ Hn), !raw_whole, Ht, Z.eqb_refl. cbn [andb].
  destruct (Z.leb_spec PIV_BOX_V2 (pdb_version b)) as [|Hlt]; [done|]. by rewrite (Hv Hlt).
Qed.

(** A box made for the key [s] of the token [gs] with the ephemeral key [e]. *)
Record seal_case (b : piv_ecdh_box) (data : list Z) (nid : Z) (s e : scalar) (sec : list Z) (gs : option (list Z * Z))
    (nonce iv : Z -> list Z) : Prop := {
  sc_seal : exists c alg, sealable b data c alg;
  sc_version : PIV_BOX_V1 <= pdb_version b < PIV_BOX_VNEXT;
  sc_fresh : pdb_nonce b = null_buf /\ pdb_ephem b = None;
  sc_kdf : field_ok (FCstr8 (piv_box_kdf b));
  sc_data : bytes data /\ zlen data <= SSHBUF_SIZE_MAX - 4096;
  sc_curve : exists tname, sshkey_curve_nid_to_name nid = Some tname;
  sc_dh : ec_dh nid e (ec_pub nid s) = Some sec;
  sc_valid : ec_validate nid (ec_pub nid s) = 0 /\ ec_validate nid (ec_pub nid e) = 0;
  sc_random : forall n, 0 <= n -> bytes (nonce n) /\ zlen (nonce n) = n /\ bytes (iv n) /\ zlen (iv n) = n;
  sc_token : forall guid slot, gs = Some (guid, slot) -> bytes guid /\ zlen guid = 16 /\ is_byte slot
}.

Lemma nonce_fresh b nonce :
  pdb_nonce b = null_buf ->
  let n := if PIV_BOX_V2 <=? pdb_version b then nonce else [] in
  nonce_is (used_nonce b nonce) n /\ (pdb_version b < PIV_BOX_V2 -> used_nonce b nonce = null_buf) /\
  (if PIV_BOX_V2 <=? pdb_version b then whole_buf n else null_buf) = used_nonce b nonce.
Proof.
  intros H. unfold used_nonce, nonce_is. rewrite H. cbn.
  destruct (Z.leb_spec PIV_BOX_V2 (pdb_version b)); cbn; split_and!; auto; lia.
Qed.

Lemma sealed_wire_ok b data nid s e sec gs nonce iv c alg tname :
  seal_case b data nid s e sec gs nonce iv -> sealable b data c alg ->
  sshkey_curve_nid_to_name nid = Some tname ->
  let n := if PIV_BOX_V2 <=? pdb_version b then nonce 16 else [] in
  wire_ok (sealed_wire b gs tname (ec_pub nid s) (ec_pub nid e) n (iv (cipher_ivlen c))
    (aead_enc c (box_key c alg sec n) (iv (cipher_ivlen c)) (padded (cipher_blocksize c) data))).
Proof.
  intros [_ Hv _ Hk [Hbd Hsz] _ _ [Hvp Hve] Hr Hgs] Hsl Ht n.
  pose proof (cipher_by_name_ok _ _ (sl_cipher _ _ _ _ Hsl)) as Hok.
  destruct (cipher_lens c Hok) as (Hblk & _ & Hivl & Ha).
  destruct (Hr 16 ltac:(lia)) as (Hn16 & Hl16 & _).
  destruct (Hr (cipher_ivlen c) ltac:(lia)) as (_ & _ & Hiv & Hivlen).
  assert (cipher_args c (box_key c alg sec n) (iv (cipher_ivlen c)) (padded (cipher_blocksize c) data)) as Hca.
  { destruct Hsl as [_ _ _ _ [Hk1 Hk2] Hkl]. apply box_args; try done. subst alg. by apply alg_by_name_known. }
  assert (bytes n /\ zlen n <= 16) as [Hnb Hnl] by (unfold n; destruct (_ <=? _); [split; [done|lia]|done]).
  constructor; [constructor|..]; unfold w_nid; cbn [sealed_wire w_version w_guidslot w_curve w_pub w_ephem
    w_nonce w_iv w_enc w_cipher w_kdf].
  - done.
  - exact Hgs.
  - rewrite (curve_name_roundtrip _ _ Ht). intros ->. done.
  - by rewrite (curve_name_roundtrip _ _ Ht).
  - unfold n. destruct (Z.leb_spec PIV_BOX_V2 (pdb_version b)); [lia|done].
  - split_and!; [done|done|]. by apply aead_bytes.
  - rewrite aead_len, zlen_padded by (done || lia).
    pose proof (pad_len_range (cipher_blocksize c) (zlen data)). lia.
  - eapply cipher_name_field, Hsl.
  - done.
  - lia.
  - lia.
  - rewrite aead_len, zlen_padded by (done || lia).
    pose proof (pad_len_range (cipher_blocksize c) (zlen data)). lia.
Qed.

(** What is read back of it opens, with the private key or with the shared secret of the token. *)
Lemma sealed_opens b data nid s e sec gs nonce iv c alg tname p :
  seal_case b data nid s e sec gs nonce iv -> sealable b data c alg -> sshkey_curve_nid_to_name nid = Some tname ->
  let n := if PIV_BOX_V2 <=? pdb_version b then nonce 16 else [] in
  let w := sealed_wire b gs tname (ec_pub nid s) (ec_pub nid e) n (iv (cipher_ivlen c))
    (aead_enc c (box_key c alg sec n) (iv (cipher_ivlen c)) (padded (cipher_blocksize c) data)) in
  let opened := set_plain (box_of_wire w) (Apdubuf (Some (padded (cipher_blocksize c) data)) 0
                  (zlen (padded (cipher_blocksize c) data)) (zlen data)) in
  piv_box_open_offline (EcKey nid p (Some s)) (box_of_wire w) = (Ok tt, opened) /\
  piv_box_open (fun _ => Ok sec) (box_of_wire w) = (Ok tt, opened).
Proof.
  intros Hcase Hsl Ht n w opened. pose proof Hcase as [_ _ [Hn0 _] _ _ _ Hdh _ Hr _].
  pose proof (nonce_fresh b (nonce 16) Hn0) as (Hn & _ & Hn2). fold n in Hn, Hn2.
  destruct (cipher_lens c (cipher_by_name_ok _ _ (sl_cipher _ _ _ _ Hsl))) as (_ & _ & Hivl & _).
  assert (Hnid : w_nid w = nid) by exact (curve_name_roundtrip _ _ Ht).
  apply (open_ok (box_of_wire w) data c alg nid p s (ec_pub nid e) None n (iv (cipher_ivlen c)) sec).
  { destruct Hsl as [_ _ Hc _ _ _]. by rewrite (cipher_name_eq _ _ Hc). }
  { apply Hsl. }
  { eexists. split; [reflexivity|apply Hsl]. }
  { apply Hsl. }
  { apply Hsl. }
  { apply Hcase. }
  { apply Hsl. }
  { cbn. by rewrite Hnid. }
  { by rewrite dh_comm. }
  { cbn [box_of_wire pdb_nonce w w_version sealed_wire w_nonce]. by rewrite Hn2. }
  { reflexivity. }
  { apply Hr. lia. }
  { reflexivity. }
Qed.

(** A box sealed for a token, written out and read back. *)
Lemma sealed_sent b data nid s e sec guid slot nonce iv :
  seal_case b data nid s e sec (Some (guid, slot)) nonce iv ->
  exists sealed bs box blk,
    piv_box_seal guid slot (EcKey nid (ec_pub nid s) None) (Ok (EcKey nid (ec_pub nid e) (Some e)))
      nonce iv b = (Ok tt, sealed) /\
    piv_box_sealed sealed = true /\
    piv_box_to_binary sealed = Ok bs /\
    piv_box_from_binary bs = Ok box /\
    (piv_box_sealed box = true /\ piv_box_guid box = (Ok guid, box) /\ piv_box_slot box = (Ok slot, box)) /\
    pdb_ephem_pub box = Some (EcKey nid (ec_pub nid e) None) /\ 1 <= blk /\
    let opened := set_plain box (Apdubuf (Some (padded blk data)) 0 (zlen (padded blk data)) (zlen data)) in
    piv_box_open_offline (EcKey nid (ec_pub nid s) (Some s)) box = (Ok tt, opened) /\
    piv_box_open (fun _ => Ok sec) box = (Ok tt, opened).
Proof.
  intros Hcase. pose proof Hcase as [(c & alg & Hsl) _ [Hn0 He0] _ _ (tname & Ht) Hdh _ Hr _].
  pose proof (nonce_fresh b (nonce 16) Hn0) as (Hn & Hn1 & Hn2).
  set (n := if _ <=? _ then _ else _) in *.
  set (ct := aead_enc c (box_key c alg sec n) (iv (cipher_ivlen c)) (padded (cipher_blocksize c) data)).
  pose proof (sealed_wire_ok _ _ _ _ _ _ _ _ _ c alg tname Hcase Hsl Ht) as Hwok. fold n ct in Hwok.
  pose proof (sealed_wire_of (set_guidslot b guid slot) nid tname (ec_pub nid s) (ec_pub nid e) _ n (iv (cipher_ivlen c)) ct
    Ht Hn Hn1) as Hwof.
  change (sealed_wire (set_guidslot b guid slot)) with (sealed_wire b) in Hwof.
  change (guidslot_of (set_guidslot b guid slot)) with (Some (guid, slot)) in Hwof.
  destruct (piv_box_binary_roundtrip _ _ Hwof Hwok) as [Hto Hfrom].
  destruct (sealed_opens _ _ _ _ _ _ _ _ _ c alg tname (ec_pub nid s) Hcase Hsl Ht) as [Ho Ht']. fold n ct in Ho, Ht'.
  set (w := sealed_wire _ _ _ _ _ _ _ _) in *.
  destruct (cipher_lens c (cipher_by_name_ok _ _ (sl_cipher _ _ _ _ Hsl))) as (Hblk & _ & Hivl & _).
  eexists _, _, (box_of_wire w), (cipher_blocksize c). split_and!; try exact Hto;
    try exact Hfrom; try reflexivity; try lia.
  - unfold piv_box_seal.
    erewrite cbind_ok by (eapply seal_ok; [exact Hsl|by rewrite He0|exact Hdh|exact Hn]). reflexivity.
  - cbn [box_of_wire pdb_ephem_pub w w_ephem sealed_wire]. by rewrite (curve_name_roundtrip _ _ Ht : w_nid w = nid).
  - by split.
Qed.

(** C4: sealing and opening. For any nonempty data, any of the authenticated ciphers and
    any digest long enough to key it, in box versions 1 and 2: sealing to a token's
    public key leaves no plaintext in the box; the sealed box can be written out,
    and what [piv_box_from_binary] makes of those bytes is a sealed box with
    the token's GUID and slot that opens, with the private key or with the shared
    secret the token computes, to exactly the data; taking the data seals it again. *)
Theorem piv_box_seal_open b data nid s e sec guid slot nonce iv :
  seal_case b data nid s e sec (Some (guid, slot)) nonce iv ->
  exists sealed bs box final,
    piv_box_seal guid slot (EcKey nid (ec_pub nid s) None) (Ok (EcKey nid (ec_pub nid e) (Some e)))
      nonce iv b = (Ok tt, sealed) /\
    piv_box_sealed sealed = true /\
    piv_box_to_binary sealed = Ok bs /\
    piv_box_from_binary bs = Ok box /\
    piv_box_sealed box = true /\ piv_box_guid box = (Ok guid, box) /\ piv_box_slot box = (Ok slot, box) /\
    (piv_box_open_offline (EcKey nid (ec_pub nid s) (Some s)) ;! piv_box_take_data) box = (Ok data, final) /\
    (piv_box_open (fun _ => Ok sec) ;! piv_box_take_data) box = (Ok data, final) /\
    piv_box_sealed final = true.
Proof.
  intros (sealed & bs & box & blk & Hs & Hs1 & Hto & Hfrom & (Hs2 & Hg & Hsl) & _ & Hblk & Ho & Ht)%sealed_sent.
  exists sealed, bs, box, (set_plain box null_buf). split_and!; try done.
  - rewrite (cbind_ok _ _ _ _ _ Ho). by apply take_opened.
  - rewrite (cbind_ok _ _ _ _ _ Ht). by apply take_opened.
Qed.
End Laws.

(** ** Reading arbitrary bytes *)

(** The kinds of error that mean bad input. *)
Definition bad_data (e : errf_t) : Prop :=
  errf_name e = "InvalidDataError" \/ errf_name e = "NotSupportedError".

(** [m] returns on every buffer, with a result in [Q] or with a bad-input error; the buffer
    does not grow. *)
Definition parses {A} (m : M errf_t sshbuf A) (Q : A -> Prop) : Prop :=
  forall b, sb_ok b ->
    wp m b (fun a b' => (sb_ok b' /\ zlen (sb_contents b') <= zlen (sb_contents b)) /\ Q a)
      (fun e b' => sb_ok b' /\ bad_data e).

Lemma parses_bind {A D} (m : M errf_t sshbuf A) (f : A -> M errf_t sshbuf D) P Q :
  parses m P -> (forall a, P a -> parses (f a) Q) -> parses (let! x := m in f x) Q.
Proof.
  intros Hm Hf b H. apply wp_bind. eapply wp_mono; [by apply Hm| |done].
  cbn. intros a b' [[Hb' Hl] Ha]. eapply wp_mono; [by apply Hf| |done].
  cbn. intros d b2 [[? ?] ?]. split; [split; [done|lia]|done].
Qed.
Lemma parses_ret {A} (a : A) (Q : A -> Prop) : Q a -> parses (cret a) Q.
Proof. intros Ha b H. apply wp_ret. split; [split; [done|lia]|done]. Qed.
Lemma parses_guard {A} c e (m : M errf_t sshbuf A) Q :
  bad_data e -> (c = true -> parses m Q) -> parses (guard c e ;! m) Q.
Proof. intros He Hm b H. apply wp_bind, wp_guard; intros Hc; [by apply Hm|done]. Qed.

Lemma bad_boxderrf e : bad_data (boxderrf e).
Proof. by left. Qed.
Lemma bad_boxverrf e : bad_data (boxverrf e).
Proof. by right. Qed.

(** Results of the queue operations on bytes. *)
Definition yields {A} (sm : M Z queue A) (Q : A -> Prop) : Prop :=
  forall q, bytes (q_bytes q) -> match fst (sm q) with Ok a => Q a | Er _ => True | _ => False end.

(** Queue operations that take bytes off the front. *)
Definition drains {A} (sm : M Z queue A) (Q : A -> Prop) (k : Z) : Prop :=
  forall q, bytes (q_bytes q) ->
    match sm q with
    | (Ok a, q') => Q a /\ zlen (q_bytes q') + k <= zlen (q_bytes q)
    | (Er _, _) => True
    | _ => False
    end.
Lemma yields_u k : yields (q_get_u k) (fun v => 0 <= v < 256 ^ Z.of_nat k).
Proof.
  intros q Hq. unfold q_get_u, q_take, cbind, cget, guard.
  destruct (Z.ltb_spec (zlen (q_bytes q)) (Z.of_nat k)); cbn; [done|].
  rewrite Nat2Z.id. pose proof (be_val_range (take k (q_bytes q)) (Forall_take _ _ _ Hq)) as Hv.
  unfold zlen in *. rewrite length_take in Hv. by replace (_ `min` _)%nat with k in Hv by lia.
Qed.

Lemma q_string_returns k q : returned (fst (q_string k q)) = true.
Proof.
  unfold q_string, cbind, cget, guard. do 3 (destruct (_ <? _); cbn; [done|]). done.
Qed.
Lemma q_take_returns n q : returned (fst (q_take n q)) = true.
Proof. unfold q_take, cbind, cget, guard. by destruct (_ <? _). Qed.

(** A string of bytes within the size limit. *)
Definition str_ok (s : list Z) : Prop := bytes s /\ zlen s <= SSHBUF_SIZE_MAX.

Lemma yields_string k chk : yields (q_read_string k chk (fun s => s)) str_ok.
Proof.
  intros q Hq. unfold q_read_string, cbind at 1. pose proof (q_string_returns k q) as Hr.
  destruct (q_string k q) as [[s|e| |] q1] eqn:E; try done.
  apply q_string_inv in E as (-> & -> & _ & _ & Hm). unfold check.
  set (len := be_val _) in *.
  destruct (chk _); [done|]. rewrite cbind_ret_l. unfold q_skip_string. rewrite cbind_assoc.
  pose proof (q_take_returns (Z.of_nat k + zlen (zslice (q_bytes q) (Z.of_nat k) len)) q) as Ht.
  unfold cbind. destruct (q_take _ q) as [[?|?| |] ?]; try done.
  cbn. split; [by apply Forall_take, Forall_drop|].
  assert (0 <= len) by apply be_val_range, Forall_take, Hq.
  unfold zlen, zslice. rewrite length_take. rewrite size_max_eq in *. lia.
Qed.

Lemma drains_u k : drains (q_get_u k) (fun v => 0 <= v < 256 ^ Z.of_nat k) (Z.of_nat k).
Proof.
  intros q Hq. pose proof (yields_u k q Hq) as Hy. revert Hy. unfold q_get_u, q_take, cbind, cget, guard.
  destruct (Z.ltb_spec (zlen (q_bytes q)) (Z.of_nat k)); cbn; [done|]. intros Hy. split; [done|].
  unfold zlen in *. rewrite length_drop. lia.
Qed.
Lemma q_take_drains n q : 0 <= n ->
  match q_take n q with
  | (Ok _, q') => zlen (q_bytes q') + n <= zlen (q_bytes q)
  | (Er _, _) => True
  | _ => False
  end.
Proof.
  intros Hn. unfold q_take, cbind, cget, guard. destruct (Z.ltb_spec (zlen (q_bytes q)) n); cbn; [done|].
  unfold zlen in *. rewrite length_drop. lia.
Qed.
Lemma q_read_string_shrinks {A} k chk (f : list Z -> A) q a q' :
  q_read_string k chk f q = (Ok a, q') -> zlen (q_bytes q') <= zlen (q_bytes q).
Proof.
  intros (s & q1 & E & E1)%cbind_inv. apply q_string_inv in E as (-> & _).
  apply cbind_inv in E1 as ([] & q2 & E2 & E3). unfold check in E2. destruct (chk s); [done|].
  injection E2 as <-. apply cbind_inv in E3 as ([] & q3 & E3 & [= _ <-]).
  apply cbind_inv in E3 as (d & q4 & E3 & [= <-]). pose proof (zlen_nonneg s).
  pose proof (q_take_drains (Z.of_nat k + zlen s) q ltac:(lia)) as Ht. rewrite E3 in Ht. lia.
Qed.
Lemma drains_string k chk : drains (q_read_string k chk (fun s => s)) str_ok 0.
Proof.
  intros q Hq. pose proof (yields_string k chk q Hq) as Hy.
  destruct (q_read_string k chk (fun s => s) q) as [[s|e| |] q'] eqn:E; try done.
  apply q_read_string_shrinks in E. split; [done|lia].
Qed.
Lemma drains_eckey nid : drains (q_eckey nid) (fun _ => True) 0.
Proof.
  intros q Hq. unfold q_eckey, cbind at 1. pose proof (q_string_returns 1 q) as Hr.
  destruct (q_string 1 q) as [[s|e| |] q1] eqn:E; try done. apply q_string_inv in E as (-> & _).
  pose proof (get_ec_returns nid s) as Hg. unfold lift, cbind at 1.
  destruct (get_ec nid s); try done. unfold q_skip_string. rewrite cbind_assoc. unfold cbind.
  pose proof (zlen_nonneg s). pose proof (q_take_drains (Z.of_nat 1 + zlen s) q ltac:(lia)) as Ht.
  destruct (q_take _ q) as [[?|?| |] ?]; try done. cbn. split; [done|lia].
Qed.

Lemma parses_ssh {A} (m : B A) sm (Q : A -> Prop) k :
  refines m sm -> drains sm Q k -> 0 <= k -> parses (sshget m) Q.
Proof.
  intros Hr Hd Hk b H. destruct (Hr b H) as (r & b' & E & H' & S).
  specialize (Hd (abs b) (contents_bytes b H)). rewrite S in Hd.
  unfold wp, sshget, cmaperr. rewrite E. destruct r as [a|e| |]; try done.
  - destruct Hd as [Ha Hl]. cbn [abs q_bytes] in Hl. split; [split; [done|lia]|done].
  - split; [done|apply bad_boxderrf].
Qed.

Lemma parses_u8 : parses (sshget sshbuf_get_u8) is_byte.
Proof. by apply (parses_ssh _ _ _ _ refines_get_u8 (drains_u 1)). Qed.
Lemma parses_string8 : parses (sshget sshbuf_get_string8) str_ok.
Proof. by eapply (parses_ssh _ _ _ _ refines_get_string8); [apply drains_string|]. Qed.
Lemma parses_string : parses (sshget sshbuf_get_string) str_ok.
Proof. by eapply (parses_ssh _ _ _ _ refines_get_string); [apply drains_string|]. Qed.
Lemma parses_cstring8 : parses (sshget sshbuf_get_cstring8) str_ok.
Proof. by eapply (parses_ssh _ _ _ _ refines_get_cstring8); [apply drains_string|]. Qed.
Lemma parses_pubkey nid :
  parses (get_pubkey nid) (fun k => exists p, k = EcKey nid p None /\ ec_validate nid p = 0).
Proof.
  unfold get_pubkey. eapply parses_bind; [by eapply (parses_ssh _ _ _ _ (refines_eckey nid)); [apply drains_eckey|]|].
  intros p _. apply parses_guard; [apply bad_boxderrf|]. intros ?%Z.eqb_eq. apply parses_ret. eauto.
Qed.

Lemma parses_guidslot : parses get_guidslot (fun r => exists gs : option (list Z * Z),
  (forall g s, gs = Some (g, s) -> bytes g /\ zlen g = 16 /\ is_byte s) /\
  r = (match gs with None => false | Some _ => true end,
       match gs with None => zrepeat 16 0 | Some (g, _) => g end,
       match gs with None => 0 | Some (_, s) => s end)).
Proof.
  unfold get_guidslot. eapply parses_bind; [apply parses_u8|]. intros temp _.
  eapply parses_bind; [apply parses_string8|]. intros g [Hg _].
  apply parses_guard; [apply bad_boxderrf|]. intros Hl.
  eapply parses_bind; [apply parses_u8|]. intros s Hs. apply parses_ret.
  destruct (negb (temp =? 0)); [exists (Some (g, s))|by exists None].
  split; [|done]. intros ? ? [= <- <-]. cbn in Hl. split_and!; [done|lia|apply Hs..].
Qed.

(** A box read from a buffer is the image of a wire box. *)
Lemma parses_piv_box : parses sshbuf_get_piv_box (fun b => exists w, wire_read w /\ b = box_of_wire w).
Proof.
  unfold sshbuf_get_piv_box.
  eapply parses_bind; [apply parses_u8|]. intros m0 _.
  eapply parses_bind; [apply parses_u8|]. intros m1 _.
  apply parses_guard; [apply bad_boxderrf|]. intros _.
  eapply parses_bind; [apply parses_u8|]. intros ver _.
  apply parses_guard; [apply bad_boxverrf|]. intros Hver.
  eapply parses_bind; [apply parses_guidslot|]. intros r (gs & Hgs & ->). cbn match.
  eapply parses_bind; [apply parses_cstring8|]. intros cipher _.
  eapply parses_bind; [apply parses_cstring8|]. intros kdf _.
  eapply (parses_bind _ _ (fun nb => exists n, bytes n /\ (ver < PIV_BOX_V2 -> n = []) /\
    nb = if PIV_BOX_V2 <=? ver then whole_buf n else null_buf)).
  { destruct (Z.leb_spec PIV_BOX_V2 ver).
    - eapply parses_bind; [apply parses_string8|]. intros n [Hn _]. apply parses_ret.
      exists n. split_and!; [done|lia|done].
    - apply parses_ret. by exists []. }
  intros nb (n & Hn & Hn1 & ->).
  eapply parses_bind; [apply parses_cstring8|]. intros tname _.
  apply parses_guard; [apply bad_boxverrf|]. intros Hnid%negb_true_iff%Z.eqb_neq.
  eapply parses_bind; [apply parses_pubkey|]. intros ? (p & -> & Hp).
  eapply parses_bind; [apply parses_pubkey|]. intros ? (e & -> & He).
  eapply parses_bind; [apply parses_string8|]. intros iv [Hiv _].
  eapply parses_bind; [apply parses_string|]. intros enc [Henc Hencl]. apply parses_ret.
  exists (Wire ver gs (c_str cipher) (c_str kdf) n (c_str tname) p e iv enc). split; [|done].
  constructor; cbn [w_version w_guidslot w_nid w_curve w_pub w_ephem w_nonce w_iv w_enc]; try done.
  unfold PIV_BOX_V1, PIV_BOX_VNEXT in *. lia.
Qed.

(** ** Boxes in the old format *)

(** [m] on the input and on a private key buffer. *)
Definition parses_old {A} (m : M Z (sshbuf * sshbuf) A) (Q : A -> Prop) : Prop :=
  forall s, sb_ok (fst s) -> private (snd s) ->
    wp m s (fun a s' => (sb_ok (fst s') /\ private (snd s')) /\ Q a) (fun e s' => True).

Lemma parses_old_bind {A D} (m : M Z (sshbuf * sshbuf) A) (f : A -> M Z (sshbuf * sshbuf) D) P Q :
  parses_old m P -> (forall a, P a -> parses_old (f a) Q) -> parses_old (let! x := m in f x) Q.
Proof.
  intros Hm Hf s H1 H2. apply wp_bind. eapply wp_mono; [by apply Hm| |done].
  cbn. intros a s' [[Ha Hb] Hc]. by apply Hf.
Qed.
Lemma parses_old_guard {A} c e (m : M Z (sshbuf * sshbuf) A) Q :
  (c = true -> parses_old m Q) -> parses_old (guard c e ;! m) Q.
Proof. intros Hm s H1 H2. apply wp_bind, wp_guard; intros Hc; [by apply Hm|done]. Qed.

Lemma parses_old_get {A} (m : B A) sm (Q : A -> Prop) :
  refines m sm -> yields sm Q -> parses_old (old_get m) Q.
Proof.
  intros Hr Hy [b kb] H Hk. cbn [fst snd] in *. destruct (Hr b H) as (r & b' & E & H' & S).
  specialize (Hy (abs b) (contents_bytes b H)). rewrite S in Hy. cbn [fst] in Hy.
  unfold wp, old_get, cmaperr, on_fst. cbn [fst snd]. rewrite E. by destruct r.
Qed.

Hypothesis fromb_returns : forall d, bytes d -> returned (sshkey_fromb d) = true.

Lemma parses_old_key : parses_old old_key (fun k => exists d, sshkey_fromb d = Ok k).
Proof.
  intros [b kb] H Hk. cbn [fst snd] in *. unfold old_key. apply wp_bind.
  pose proof (get_stringb_wp b kb H Hk) as Hw. unfold wp, cmaperr in *.
  destruct (sshbuf_get_stringb (b, kb)) as [[u|e| |] s]; try done. destruct Hw as (H1 & H2 & _).
  unfold cbind, cget, lift. pose proof (fromb_returns (sb_contents (snd s)) (contents_bytes _ (proj1 H2))) as Hf.
  destruct (sshkey_fromb (sb_contents (snd s))) as [k|e| |] eqn:E; try done. by eauto.
Qed.

Lemma parses_old_reset : parses_old (on_snd sshbuf_reset) (fun _ => True).
Proof.
  intros [b kb] H (Hk & Hs & Hm). cbn [fst snd] in *.
  destruct (reset_empties kb Hk) as (kb' & E & Hk' & Hq); [by rewrite Hm|].
  unfold wp, on_snd. cbn [fst snd]. rewrite E. split; [|done]. split; [done|]. cbn [snd].
  unfold q_reset, cmodify in Hq. apply pair_equal_spec in Hq as [_ Hq]. symmetry in Hq.
  cbn [abs q_max q_ro] in Hq. apply abs_inv in Hq as (_ & Hm' & Hs'). split_and!; congruence.
Qed.

(** A box of the old format, as it is left in memory. *)
Record old_box (b : piv_ecdh_box) : Prop := {
  ob_version : pdb_version b = 0 /\ pdb_guidslot_valid b = false;
  ob_guid : bytes (pdb_guid b) /\ zlen (pdb_guid b) = 16;
  ob_keys : exists de ke dp kp, sshkey_fromb de = Ok ke /\ pdb_ephem_pub b = Some ke /\
              sshkey_fromb dp = Ok kp /\ pdb_pub b = Some kp;
  ob_algs : exists cn kn, pdb_cipher b = Some cn /\ pdb_kdf b = Some kn;
  ob_nonce : pdb_nonce b = null_buf;
  ob_data : exists iv enc, pdb_iv b = whole_buf iv /\ pdb_enc b = whole_buf enc /\
              zlen enc <= SSHBUF_SIZE_MAX
}.

Lemma parses_old_v1 : parses_old piv_box_read_old_v1 old_box.
Proof.
  unfold piv_box_read_old_v1.
  eapply parses_old_bind; [apply (parses_old_get _ _ _ refines_get_u8), (yields_u 1)|]. intros ver _.
  apply parses_old_guard. intros _.
  eapply parses_old_bind; [apply (parses_old_get _ _ _ refines_get_string), yields_string|]. intros guid [Hg _].
  apply parses_old_guard. intros Hl.
  eapply parses_old_bind; [apply (parses_old_get _ _ _ refines_get_u8), (yields_u 1)|]. intros slot _.
  eapply parses_old_bind; [apply parses_old_key|]. intros ephem (de & Hde).
  eapply parses_old_bind; [apply parses_old_reset|]. intros _ _.
  eapply parses_old_bind; [apply parses_old_key|]. intros pub (dp & Hdp).
  eapply parses_old_bind; [apply (parses_old_get _ _ _ refines_get_cstring), yields_string|]. intros cn _.
  eapply parses_old_bind; [apply (parses_old_get _ _ _ refines_get_cstring), yields_string|]. intros kn _.
  eapply parses_old_bind; [apply (parses_old_get _ _ _ refines_get_string), yields_string|]. intros iv _.
  eapply parses_old_bind; [apply (parses_old_get _ _ _ refines_get_string), yields_string|]. intros enc [_ Hencl].
  intros s H Hk. split; [done|]. constructor; cbn; eauto 10. split; [done|lia].
Qed.

Lemma from_binary_new input :
  bytes input -> zlen input <= SSHBUF_SIZE_MAX -> List.hd 0 input <> 1 ->
  match piv_box_from_binary input with
  | Ok b => exists w, wire_read w /\ b = box_of_wire w
  | Er e => bad_data e
  | Panic | Fault => False
  end.
Proof.
  intros Hb Hl Hd. unfold piv_box_from_binary. destruct (sshbuf_from input) as [buf|] eqn:E.
  2:{ unfold sshbuf_from in E. destruct (Z.ltb_spec SSHBUF_SIZE_MAX (zlen input)); [lia|done]. }
  destruct (sshbuf_from_ok _ _ Hb E) as [K _]. replace (_ && _) with false by lia.
  pose proof (parses_piv_box buf K) as H. unfold wp in H.
  destruct (sshbuf_get_piv_box buf) as [[b|e| |] s]; cbn; try done; apply H.
Qed.

(** C17: reading a box from any bytes, up to the size limit of a buffer, returns:
    there is no access outside the input and no failing [VERIFY], an error is an
    [InvalidDataError] or a [NotSupportedError], and a box that is returned is
    complete (both public keys, validated and on one known curve; algorithm names; IV,
    nonce and ciphertext; a 16-byte GUID when it says it has one) or is a box of
    the format without magic number. *)
Theorem piv_box_from_binary_safe input :
  bytes input -> zlen input <= SSHBUF_SIZE_MAX ->
  match piv_box_from_binary input with
  | Ok b => (exists w, wire_read w /\ b = box_of_wire w) \/ old_box b
  | Er e => bad_data e
  | Panic | Fault => False
  end.
Proof.
  intros Hb Hl. destruct (Z.eq_dec (List.hd 0 input) 1) as [Hd|Hd].
  2:{ pose proof (from_binary_new input Hb Hl Hd). by destruct (piv_box_from_binary input); auto. }
  unfold piv_box_from_binary. destruct (sshbuf_from input) as [buf|] eqn:E.
  2:{ unfold sshbuf_from in E. destruct (Z.ltb_spec SSHBUF_SIZE_MAX (zlen input)); [lia|done]. }
  destruct (sshbuf_from_ok _ _ Hb E) as [K _]. destruct (_ && _).
  - pose proof (parses_old_v1 (buf, sshbuf_new) K private_new) as H. unfold wp in H.
    destruct (piv_box_read_old_v1 _) as [[b|e| |] s]; cbn; try done; [right; apply H|apply bad_boxderrf].
  - pose proof (parses_piv_box buf K) as H. unfold wp in H.
    destruct (sshbuf_get_piv_box buf) as [[b|e| |] s]; cbn; try done; [left; apply H|apply H].
Qed.

(** ** Opening a box of unknown origin *)

Section OpenSafe.
Context {L : CryptoLaws C}.

(** A box that holds everything opening looks at. *)
Record openable (b : piv_ecdh_box) (c : sshcipher) (n : list Z) : Prop := {
  op_cipher : exists cn, pdb_cipher b = Some cn /\ cipher_by_name cn = Some c;
  op_kdf : exists kn, pdb_kdf b = Some kn;
  op_nonce : nonce_is (pdb_nonce b) n;
  op_data : exists iv enc, pdb_iv b = whole_buf iv /\ pdb_enc b = whole_buf enc /\
              zlen enc <= SSHBUF_SIZE_MAX;
  op_key : exists nid p pr, pdb_ephem_pub b = Some (EcKey nid p pr)
}.

(** What opening leaves: the box with a plaintext, or the box as it was. *)
Definition opened (b b' : piv_ecdh_box) : Prop :=
  exists p len, b' = set_plain b (Apdubuf (Some p) 0 (zlen p) len) /\ 0 <= len < zlen p.

Lemma unpad_ok blk plain : 1 <= blk <= 16 -> blk <= zlen plain < 2 ^ 63 ->
  match unpad blk plain with
  | Ok len => 0 <= len < zlen plain
  | Er e => bad_data e
  | _ => False
  end.
Proof.
  intros Hb Hl. unfold unpad. destruct (zget_is_Some plain (zlen plain - 1)) as [p ->]; [lia|].
  destruct (Z.ltb_spec p 1); cbn [orb]; [apply bad_boxderrf|].
  destruct (Z.ltb_spec blk p); [apply bad_boxderrf|]. rewrite wrap_small by lia.
  destruct (forallb _ _); [lia|apply bad_boxderrf].
Qed.

Lemma box_decrypt_safe c alg sec b n :
  openable b c n -> wp (box_decrypt c alg sec) b (fun _ b' => opened b b') (fun e b' => b' = b /\ bad_data e).
Proof.
  intros [(cn & _ & Hc) _ Hn (iv & enc & Hiv & He & Hel) _]. pose proof (cipher_by_name_ok _ _ Hc) as Hok.
  destruct (cipher_lens c Hok) as (Hblk & _ & _ & Ha). rewrite size_max_eq in Hel.
  unfold box_decrypt. wp_step. wp_step. wp_step. eapply wp_runs; [by apply nonce_read|]. cbn beta.
  rewrite Hiv, He. wp_step. eapply wp_runs; [apply verifyb_whole|]. wp_step.
  apply wp_guard; [intros _|split; [done|apply bad_boxderrf]].
  wp_step. eapply wp_runs; [apply read_whole|]. wp_step. eapply wp_runs; [apply verifyb_whole|].
  wp_step. apply wp_guard; [intros Hlen|split; [done|apply bad_boxderrf]].
  change (b_len (whole_buf enc)) with (zlen enc) in Hlen.
  wp_step. eapply wp_runs; [apply read_whole|]. wp_step. unfold wp, lift.
  pose proof (aead_dec_len c (box_key c alg sec n) iv enc Hok) as Hd.
  destruct (aead_dec _ _ _ _) as [p|e| |]; try done; [|split; [done|apply bad_boxderrf]].
  unfold cbind. pose proof (unpad_ok (cipher_blocksize c) p Hblk ltac:(lia)) as Hu.
  destruct (unpad _ _) as [len|e| |]; try done. by exists p, len.
Qed.

Lemma box_algs_safe b c n : openable b c n ->
  match box_algs b with
  | (Ok r, b') => b' = b /\ fst r = c
  | (Er e, b') => b' = b /\ bad_data e
  | (Panic, _) => cipher_authlen c = 0
  | (Fault, _) => False
  end.
Proof.
  intros [(cn & Hcn & Hc) (kn & Hkn) _ _ _]. destruct (cipher_lens c (cipher_by_name_ok _ _ Hc)) as (_ & _ & _ & Ha).
  unfold box_algs, cbind at 1, cget. rewrite Hcn, Hkn, Hc.
  destruct (Z.ltb_spec 0 (cipher_authlen c)); cbn [verify]; [|unfold cbind, cpanic; lia].
  rewrite cbind_ret_l. unfold guard, cbind. destruct (negb _); cbn; [|split; [done|apply bad_boxverrf]].
  destruct (negb _); cbn; [done|split; [done|apply bad_boxderrf]].
Qed.

Lemma open_outcome b c n nid pub priv ecdh :
  openable b c n -> (forall k, match ecdh k with Panic | Fault => False | _ => True end) ->
  match piv_box_open_offline (EcKey nid pub priv) b with
  | (Ok _, b') => opened b b'
  | (Er e, b') => b' = b /\ bad_data e
  | (Panic, _) => cipher_authlen c = 0
  | (Fault, _) => False
  end /\
  match piv_box_open ecdh b with
  | (Ok _, b') => opened b b'
  | (Er e, b') => b' = b /\ (bad_data e \/ errf_name e = "BoxKeyError")
  | (Panic, _) => cipher_authlen c = 0
  | (Fault, _) => False
  end.
Proof.
  intros H Hecdh. pose proof H as [_ _ _ _ (enid & p & pr & Hp)].
  unfold piv_box_open_offline, piv_box_open.
  pose proof (box_algs_safe b c n H) as Hw. unfold cbind at 1 3.
  destruct (box_algs b) as [[[c' alg]|e| |] b'] eqn:E; try done.
  2:{ destruct Hw as [-> Hb]. by auto. }
  destruct Hw as [-> Hc]. cbn [fst] in Hc. subst c'.
  unfold cbind at 1 2, cget. rewrite Hp. split.
  - destruct (match priv with Some s => _ | None => None end) as [sec|]; [|split; [done|apply bad_boxderrf]].
    pose proof (box_decrypt_safe c alg sec b n H) as Hd. unfold wp in Hd.
    by destruct (box_decrypt c alg sec b) as [[]?].
  - unfold cbind, lift. specialize (Hecdh (EcKey enid p pr)).
    destruct (ecdh (EcKey enid p pr)) as [sec|e| |]; try done; [|by auto].
    pose proof (box_decrypt_safe c alg sec b n H) as Hd. unfold wp in Hd.
    destruct (box_decrypt c alg sec b) as [[]?]; try done. naive_solver.
Qed.

Lemma wire_openable w c : wire_read w -> cipher_by_name (w_cipher w) = Some c ->
  exists n, openable (box_of_wire w) c n.
Proof.
  intros Hr Hc. exists (if PIV_BOX_V2 <=? w_version w then w_nonce w else []).
  pose proof (wr_enc w Hr). constructor; cbn; eauto 10.
  destruct (_ <=? _); [by left|by right].
Qed.

Lemma open_unknown_cipher b cn kn nid pub priv ecdh :
  pdb_cipher b = Some cn -> pdb_kdf b = Some kn -> cipher_by_name cn = None ->
  piv_box_open_offline (EcKey nid pub priv) b = (Er (boxverrf BadAlgorithmError), b) /\
  piv_box_open ecdh b = (Er (boxverrf BadAlgorithmError), b).
Proof.
  intros Hcn Hkn Hc. unfold piv_box_open_offline, piv_box_open.
  assert (box_algs b = (Er (boxverrf BadAlgorithmError), b)) as E.
  { unfold box_algs, cbind, cget. by rewrite Hcn, Hkn, Hc. }
  by rewrite !(cbind_er _ _ _ _ _ E).
Qed.

(** Opening a box of the current format that was read from arbitrary bytes, with any EC private key
    or through a token that answers anything, never reads outside a buffer: it
    yields a plaintext shorter than the decrypted buffer that holds it, or
    returns an error and leaves the box as it was. Only a box that names a cipher
    without an authentication tag stops the process, at a [VERIFY]. *)
Theorem piv_box_open_safe input b nid pub priv ecdh :
  bytes input -> zlen input <= SSHBUF_SIZE_MAX -> List.hd 0 input <> 1 ->
  piv_box_from_binary input = Ok b ->
  (forall k, match ecdh k with Panic | Fault => False | _ => True end) ->
  let untagged := exists c, cipher_by_name (piv_box_cipher b) = Some c /\ cipher_authlen c = 0 in
  match piv_box_open_offline (EcKey nid pub priv) b with
  | (Ok _, b') => opened b b'
  | (Er e, b') => b' = b /\ bad_data e
  | (Panic, _) => untagged
  | (Fault, _) => False
  end /\
  match piv_box_open ecdh b with
  | (Ok _, b') => opened b b'
  | (Er e, b') => b' = b /\ (bad_data e \/ errf_name e = "BoxKeyError")
  | (Panic, _) => untagged
  | (Fault, _) => False
  end.
Proof.
  intros Hb Hl Hd Hp Hecdh untagged. pose proof (from_binary_new input Hb Hl Hd) as Hw. rewrite Hp in Hw.
  destruct Hw as (w & Hr & ->). destruct (cipher_by_name (w_cipher w)) as [c|] eqn:Hc.
  - destruct (wire_openable w c Hr Hc) as [n Ho].
    destruct (open_outcome (box_of_wire w) c n nid pub priv ecdh Ho Hecdh) as [H1 H2]. split.
    + destruct (piv_box_open_offline _ _) as [[]?]; try done. by exists c.
    + destruct (piv_box_open _ _) as [[]?]; try done. by exists c.
  - destruct (open_unknown_cipher (box_of_wire w) _ _ nid pub priv ecdh eq_refl eq_refl Hc) as [-> ->].
    pose proof (bad_boxverrf BadAlgorithmError). by auto.
Qed.
End OpenSafe.
End Box.

(** * An instance *)

Module Toy.
(** Two points, a checksum for a digest and a tag that repeats it. *)
Definition sum (l : list Z) : Z := fold_right Z.add 0 l mod 256.
Definition tag (c : sshcipher) (k iv p : list Z) : list Z :=
  zrepeat (cipher_authlen c) (sum (k ++ iv ++ p)).
#[global] Instance toy : Crypto := {
  point := bool;
  scalar := bool;
  ec_pub _ s := s;
  ec_dh _ a p := Some [if a && p then 7 else 9];
  ec_point2oct _ p := [(if p then 3 else 2); 42];
  ec_oct2point _ d := match d with [3; 42] | [4; 1] => Some true | [2; 42] | [4; 0] => Some false | _ => None end;
  ec_validate _ _ := 0;
  ec_point_eqb _ p q := Bool.eqb p q;
  digest alg d := zrepeat (ssh_digest_bytes alg) (sum d);
  aead_enc c k iv p := p ++ tag c k iv p;
  aead_dec c k iv e :=
    let n := zlen e - cipher_authlen c in
    let p := take (Z.to_nat n) e in
    if (0 <=? n) && bool_decide (drop (Z.to_nat n) e = tag c k iv p) then Ok p else Er (-30)
}.

#[global] Instance toy_laws : CryptoLaws toy.
Proof.
  assert (forall c k iv p, cipher_ok c = true -> zlen (tag c k iv p) = cipher_authlen c) as Htag.
  { intros c k iv p Hc. apply zlen_zrepeat. destruct (cipher_lens c Hc) as (_ & _ & _ & []); lia. }
  constructor.
  - intros. cbn. by rewrite andb_comm.
  - by intros nid [].
  - intros nid []; apply bytesb_spec; reflexivity.
  - intros nid []; split; discriminate.
  - intros nid []; eexists _, _; split; try reflexivity; auto.
  - intros nid p q. apply Bool.eqb_true_iff.
  - intros alg m H. cbn. apply zlen_zrepeat. apply andb_true_iff in H as [H1 H2]. change (zlen digests) with 6 in H2.
    assert (alg = 0 \/ alg = 1 \/ alg = 2 \/ alg = 3 \/ alg = 4 \/ alg = 5) as Ha by lia.
    by destruct Ha as [-> | [-> | [-> | [-> | [-> | ->]]]]].
  - intros alg m. cbn. apply Forall_replicate. unfold is_byte, sum. apply Z.mod_pos_bound. lia.
  - intros c k iv p Hc _. cbn. rewrite zlen_app, Htag by done. replace (_ - _) with (zlen p) by lia.
    unfold zlen. rewrite Nat2Z.id, take_app_length, drop_app_length, bool_decide_true by done.
    by rewrite (proj2 (Z.leb_le 0 (Z.of_nat (length p)))) by lia.
  - intros c k iv p Hc _. cbn. by rewrite zlen_app, Htag.
  - intros c k iv p Hc (_ & _ & Hp & _). cbn. apply Forall_app. split; [done|]. apply Forall_replicate.
    unfold is_byte, sum. apply Z.mod_pos_bound. lia.
  - intros c k iv e Hc. cbn. destruct (_ && _) eqn:H; [|done]. apply andb_true_iff in H as [H _].
    destruct (cipher_lens c Hc) as (_ & _ & _ & Ha). unfold zlen in *. rewrite length_take. lia.
Qed.

Definition fromb (_ : list Z) : res Z sshkey := Er SSH_ERR_INVALID_FORMAT.
Definition guid : list Z := zrepeat 16 170.
Definition random (n : Z) : list Z := zrepeat n 85.
Definition box : piv_ecdh_box := set_plain piv_box_new (whole_buf [104; 105; 33]).
End Toy.

Lemma toy_seal_case : seal_case Toy.box [104; 105; 33] NID_X9_62_prime256v1 true true [7] (Some (Toy.guid, 0x9d))
  Toy.random Toy.random.
Proof.
  constructor; try (vm_compute; reflexivity); try (split; vm_compute; congruence).
  - eexists _, 5. constructor; try reflexivity; vm_compute; try split; congruence.
  - split_and!; [apply bytesb_spec; reflexivity|vm_compute; discriminate|reflexivity].
  - split; [apply bytesb_spec; reflexivity|vm_compute; discriminate].
  - eexists. reflexivity.
  - intros n Hn. unfold Toy.random. rewrite zlen_zrepeat by done.
    assert (bytes (zrepeat n 85)) by (apply Forall_replicate; unfold is_byte; lia). auto.
  - intros ? ? [= <- <-]. split_and!; [apply bytesb_spec; reflexivity|reflexivity|by vm_compute].
Qed.

Lemma piv_box_seal_open_witness :
  exists sealed bs box final,
    piv_box_seal Toy.guid 0x9d (EcKey NID_X9_62_prime256v1 true None)
      (Ok (EcKey NID_X9_62_prime256v1 true (Some true))) Toy.random Toy.random Toy.box = (Ok tt, sealed) /\
    piv_box_sealed sealed = true /\
    piv_box_to_binary sealed = Ok bs /\
    piv_box_from_binary Toy.fromb bs = Ok box /\
    piv_box_sealed box = true /\ piv_box_guid box = (Ok Toy.guid, box) /\ piv_box_slot box = (Ok 0x9d, box) /\
    (piv_box_open_offline (EcKey NID_X9_62_prime256v1 true (Some true)) ;! piv_box_take_data)%C box
      = (Ok [104; 105; 33], final) /\
    (piv_box_open (fun _ => Ok [7]) ;! piv_box_take_data)%C box = (Ok [104; 105; 33], final) /\
    piv_box_sealed final = true.
Proof.
  apply (piv_box_seal_open Toy.fromb Toy.box [104; 105; 33] NID_X9_62_prime256v1 true true [7] Toy.guid 0x9d
    Toy.random Toy.random toy_seal_case).
Defined.

(** A version 2 box for the toy curve, with a given first byte and cipher name. *)
Definition toy_wire (b0 : Z) (cipher : list Z) : list Z :=
  [b0; 0xC5; 2; 0; 0; 0] ++ str8 cipher ++ str8 (zs "sha512") ++ str8 [1; 2] ++ str8 (zs "nistp256")
  ++ str8 [3; 42] ++ str8 [2; 42] ++ str8 [] ++ str32 [0; 0; 0].

Lemma piv_box_from_binary_safe_witness :
  match piv_box_from_binary Toy.fromb (toy_wire 0xB0 (zs "chacha20-poly1305")) with
  | Ok b => (exists w, wire_read w /\ b = box_of_wire w) \/ old_box Toy.fromb b
  | Er e => bad_data e
  | Panic | Fault => False
  end.
Proof.
  apply (piv_box_from_binary_safe Toy.fromb (fun _ _ => eq_refl) (toy_wire 0xB0 (zs "chacha20-poly1305"))).
  - apply bytesb_spec. vm_compute. reflexivity.
  - vm_compute. discriminate.
Defined.

Definition accepted {E A} (r : res E A) : bool := match r with Ok _ => true | _ => false end.
Definition toy_box : piv_ecdh_box :=
  match piv_box_from_binary Toy.fromb (toy_wire 0xB0 (zs "chacha20-poly1305")) with
  | Ok b => b
  | _ => box_zero
  end.
Lemma toy_box_read : piv_box_from_binary Toy.fromb (toy_wire 0xB0 (zs "chacha20-poly1305")) = Ok toy_box.
Proof.
  unfold toy_box.
  assert (accepted (piv_box_from_binary Toy.fromb (toy_wire 0xB0 (zs "chacha20-poly1305"))) = true) as H
    by (vm_compute; reflexivity).
  destruct (piv_box_from_binary Toy.fromb (toy_wire 0xB0 (zs "chacha20-poly1305"))); done.
Qed.

(** The same box, opened: the ciphertext is too short. *)
Lemma piv_box_open_safe_witness :
  let b := toy_box in
  let untagged := exists c, cipher_by_name (piv_box_cipher b) = Some c /\ cipher_authlen c = 0 in
  match piv_box_open_offline (EcKey NID_X9_62_prime256v1 true (Some true)) b with
  | (Ok _, b') => opened b b'
  | (Er e, b') => b' = b /\ bad_data e
  | (Panic, _) => untagged
  | (Fault, _) => False
  end /\
  match piv_box_open (fun _ => Ok [7]) b with
  | (Ok _, b') => opened b b'
  | (Er e, b') => b' = b /\ (bad_data e \/ errf_name e = "BoxKeyError")
  | (Panic, _) => untagged
  | (Fault, _) => False
  end.
Proof.
  refine (piv_box_open_safe Toy.fromb (toy_wire 0xB0 (zs "chacha20-poly1305")) toy_box NID_X9_62_prime256v1
    true (Some true) (fun _ => Ok [7]) _ _ _ toy_box_read (fun _ => I)).
  - apply bytesb_spec. vm_compute. reflexivity.
  - vm_compute. discriminate.
  - vm_compute. discriminate.
Defined.

(** ** Behaviours that differ from what the code means to do *)

(** The magic number is only rejected when both of its bytes are wrong. *)
Lemma piv_box_half_magic_accepted :
  accepted (piv_box_from_binary Toy.fromb (toy_wire 0 (zs "chacha20-poly1305"))) = true.
Proof. vm_compute. reflexivity. Qed.

(** A box from outside that names a cipher without a tag stops the process that opens it. *)
Lemma piv_box_untagged_cipher_aborts :
  match piv_box_from_binary Toy.fromb (toy_wire 0xB0 (zs "aes256-ctr")) with
  | Ok b => fst (piv_box_open_offline (EcKey NID_X9_62_prime256v1 true (Some true)) b) = Panic
  | _ => False
  end.
Proof. vm_compute. reflexivity. Qed.

(** A box of the old format reads as version 0 without a valid GUID and slot: asking it for its
    GUID stops the process, and what it is written back as cannot be read. *)
Definition toy_old : list Z :=
  [1] ++ str32 Toy.guid ++ [0x9d] ++ str32 [1] ++ str32 [1] ++ str32 (zs "chacha20-poly1305")
  ++ str32 (zs "sha512") ++ str32 [] ++ str32 [0; 0; 0].
Lemma piv_box_old_v1_loses_guid :
  let fromb := fun _ => Ok (EcKey NID_X9_62_prime256v1 true None) in
  match piv_box_from_binary fromb toy_old with
  | Ok b => fst (piv_box_guid b) = Panic /\
            match piv_box_to_binary b with
            | Ok bs => accepted (piv_box_from_binary fromb bs) = false
            | _ => False
            end
  | _ => False
  end.
Proof. vm_compute. split; reflexivity. Qed.
