(* ===== verification/EboxList.v ===== *)
(** * The linked lists of ebox templates (ebox.c)

    Templates chain their configurations, and configurations their parts, in
    doubly linked lists with head and tail pointers. Both lists are handled by
    the same code up to field names; here they are modelled in a store of nodes,
    with the pointers as the code updates them, and shown to be sequences. *)
From stdpp Require Import base list gmap.
From Stdlib Require Import ZArith Lia.
From S2P Require Import Prelude.

Local Open Scope Z_scope.
Local Open Scope c_scope.

(** Addresses of list elements. *)
Abbreviation loc := positive.

Section List.
Context {A : Type}.

(** [etc_next]/[etc_prev] of a configuration or [etp_next]/[etp_prev] of a part. *)
Record node := Node { next : option loc; prev : option loc; payload : A }.

(** The store and the two ends: [et_configs]/[et_lastconfig] or [etc_parts]/[etc_lastpart]. *)
Record dlist := DList { store : gmap loc node; first : option loc; final : option loc }.

Abbreviation D := (M unit dlist).

Definition load (p : loc) : D node :=
  fun d => match store d !! p with Some n => (Ok n, d) | None => (Fault, d) end.
Definition set_next (p : loc) (v : option loc) : D unit :=
  let! n := load p in
  cmodify (fun d => DList (<[p := Node v (prev n) (payload n)]> (store d)) (first d) (final d)).
Definition set_prev (p : loc) (v : option loc) : D unit :=
  let! n := load p in
  cmodify (fun d => DList (<[p := Node (next n) v (payload n)]> (store d)) (first d) (final d)).
Definition set_first (v : option loc) : D unit := cmodify (fun d => DList (store d) v (final d)).
Definition set_final (v : option loc) : D unit := cmodify (fun d => DList (store d) (first d) v).

Definition null (o : option loc) : bool := match o with None => true | Some _ => false end.

Definition list_add (p : loc) : D unit :=
  let! n := load p in
  verify (null (next n)) ;!
  verify (null (prev n)) ;!
  let! last := cgets final in
  match last with
  | None => set_first (Some p)
  | Some l => set_prev p (Some l) ;! set_next l (Some p)
  end ;!
  set_final (Some p).

Definition list_remove (p : loc) : D unit :=
  let! n := load p in
  match prev n with
  | None =>
      let! f := cgets first in
      verify (bool_decide (f = Some p)) ;! set_first (next n)
  | Some q => set_next q (next n)
  end ;!
  let! n := load p in
  match next n with
  | None =>
      let! l := cgets final in
      verify (bool_decide (l = Some p)) ;! set_final (prev n)
  | Some r => set_prev r (prev n)
  end.

Definition list_next (p : option loc) : D (option loc) :=
  match p with
  | None => cgets first
  | Some p => let! n := load p in cret (next n)
  end.

(** ** The representation *)

Definition first_of (l : list loc) (e : option loc) : option loc :=
  match l with [] => e | i :: _ => Some i end.
Definition last_of (l : list loc) (p : option loc) : option loc :=
  match last l with Some i => Some i | None => p end.

(** [ids] are chained in order, the first preceded by [p] and the last followed by [e]. *)
Fixpoint links (h : gmap loc node) (p : option loc) (ids : list loc) (e : option loc) : Prop :=
  match ids with
  | [] => True
  | i :: r => (exists v, h !! i = Some (Node (first_of r e) p v)) /\ links h (Some i) r e
  end.

Record represents (d : dlist) (ids : list loc) : Prop := {
  rep_nodup : NoDup ids;
  rep_first : first d = first_of ids None;
  rep_final : final d = last_of ids None;
  rep_links : links (store d) None ids None
}.

(** What is stored at an address, pointers aside. *)
Definition value (d : dlist) (i : loc) : option A := payload <$> store d !! i.

Lemma links_ext h h' p ids e :
  (forall i, i ∈ ids -> h' !! i = h !! i) -> links h p ids e -> links h' p ids e.
Proof.
  revert p. induction ids as [|i r IH]; intros p He; [done|]. cbn. intros [(v & Hv) Hr]. split.
  - exists v. rewrite He; [done|set_solver].
  - apply IH; [|done]. intros j Hj. apply He. set_solver.
Qed.
Lemma links_insert h p ids e i n : i ∉ ids -> links h p ids e -> links (<[i := n]> h) p ids e.
Proof. intros Hi. apply links_ext. intros j Hj. apply lookup_insert_ne. by intros <-. Qed.

Lemma last_of_snoc l i p : last_of (l ++ [i]) p = Some i.
Proof. unfold last_of. by rewrite last_snoc. Qed.
Lemma last_of_cons i l p : last_of (i :: l) p = last_of l (Some i).
Proof. unfold last_of. rewrite last_cons. by destruct (last l). Qed.

Lemma links_app h p l1 l2 e :
  links h p (l1 ++ l2) e <-> links h p l1 (first_of l2 e) /\ links h (last_of l1 p) l2 e.
Proof.
  revert p. induction l1 as [|i r IH]; intros p; cbn [app links]; [naive_solver|].
  rewrite IH, last_of_cons. assert (first_of (r ++ l2) e = first_of r (first_of l2 e)) as -> by by destruct r.
  naive_solver.
Qed.

(** Redirecting the pointer that leaves a chain, and the one that enters it backwards. *)
Lemma links_set_end h p l q e e' :
  NoDup (l ++ [q]) -> links h p (l ++ [q]) e ->
  exists n, h !! q = Some n /\ links (<[q := Node e' (prev n) (payload n)]> h) p (l ++ [q]) e'.
Proof.
  intros Hnd [H1 [(v & Hv) _]]%links_app. exists (Node (first_of [] e) (last_of l p) v). split; [done|].
  apply links_app. apply NoDup_app in Hnd as (_ & Hd & _). split.
  - apply links_insert; [|done]. intros Hq. apply (Hd q Hq). set_solver.
  - cbn. split; [|done]. exists v. by rewrite lookup_insert_eq.
Qed.
Lemma links_set_begin h p p' r l e :
  NoDup (r :: l) -> links h p (r :: l) e ->
  exists n, h !! r = Some n /\ links (<[r := Node (next n) p' (payload n)]> h) p' (r :: l) e.
Proof.
  intros [Hr _]%NoDup_cons [(v & Hv) Hl]. eexists. split; [done|]. split.
  - exists v. by rewrite lookup_insert_eq.
  - by apply links_insert.
Qed.

(** ** The operations on what is represented *)

Lemma value_insert d i n f l : value d i = Some (payload n) ->
  forall j, value (DList (<[i := n]> (store d)) f l) j = value d j.
Proof.
  intros Hi j. unfold value in *. cbn. destruct (decide (i = j)) as [->|]; [by rewrite lookup_insert_eq|].
  by rewrite lookup_insert_ne.
Qed.

(** Adding a node that is not in the list and has never been in one appends it. *)
Lemma list_add_spec d ids p v :
  represents d ids -> p ∉ ids -> store d !! p = Some (Node None None v) ->
  exists d', list_add p d = (Ok tt, d') /\ represents d' (ids ++ [p]) /\
    (forall j, value d' j = value d j) /\ forall j, j ∉ ids ++ [p] -> store d' !! j = store d !! j.
Proof.
  intros [Hnd Hf Hl Hk] Hp Hv. unfold list_add, cbind at 1, load. rewrite Hv. cbn [next prev null verify].
  rewrite !cbind_ret_l. unfold cbind at 1, cgets. rewrite Hl.
  assert (NoDup (ids ++ [p])) as Hnd'.
  { apply NoDup_app. split_and!; [done| |apply NoDup_singleton]. set_solver. }
  destruct ids as [|q l _] using rev_ind.
  - cbn. eexists. split; [reflexivity|]. split; [|split; done].
    constructor; cbn; try done. split; [by exists v|done].
  - rewrite last_of_snoc. assert (p <> q) as Hpq by set_solver.
    destruct (links_set_end _ _ _ _ _ (Some p) Hnd Hk) as (n & Hn & Hk').
    unfold set_prev, set_next, set_final, cmodify, cbind, load. rewrite Hv. cbn [store first final].
    rewrite lookup_insert_ne, Hn by done. eexists. split; [reflexivity|]. split_and!.
    + constructor; cbn [store first final].
      * done.
      * rewrite Hf. destruct l; done.
      * by rewrite last_of_snoc.
      * apply links_app. split; [|split; [|done]].
        -- apply (links_ext (<[q:=Node (Some p) (prev n) (payload n)]> (store d))); [|done].
           intros i Hi. destruct (decide (i = q)) as [->|]; [by rewrite !lookup_insert_eq|].
           rewrite !lookup_insert_ne; try done. by intros ->.
        -- exists v. by rewrite lookup_insert_ne, lookup_insert_eq, last_of_snoc.
    + intros j. unfold value. cbn. destruct (decide (j = q)) as [->|].
      { by rewrite lookup_insert_eq, Hn. }
      rewrite lookup_insert_ne by done. destruct (decide (j = p)) as [->|].
      { by rewrite lookup_insert_eq, Hv. }
      by rewrite lookup_insert_ne.
    + intros j Hj. cbn. rewrite !lookup_insert_ne; set_solver.
Qed.

(** The two halves of a removal: what precedes and what follows is pointed past [p]. *)
Lemma unlink_before d l1 p l2 v :
  NoDup (l1 ++ p :: l2) -> first d = first_of (l1 ++ p :: l2) None ->
  links (store d) None l1 (Some p) -> store d !! p = Some (Node (first_of l2 None) (last_of l1 None) v) ->
  links (store d) (Some p) l2 None ->
  exists d', (match last_of l1 None with
              | None => let! f := cgets first in
                        verify (bool_decide (f = Some p)) ;! set_first (first_of l2 None)
              | Some q => set_next q (first_of l2 None)
              end) d = (Ok tt, d') /\
    first d' = first_of (l1 ++ l2) None /\ final d' = final d /\
    links (store d') None l1 (first_of l2 None) /\
    store d' !! p = Some (Node (first_of l2 None) (last_of l1 None) v) /\
    links (store d') (Some p) l2 None /\ (forall j, value d' j = value d j) /\
    forall j, j ∉ l1 -> store d' !! j = store d !! j.
Proof.
  intros Hnd Hf H1 Hp H2. destruct l1 as [|q l _] using rev_ind.
  - cbn in *. unfold cbind, cgets. rewrite Hf, bool_decide_true by done. by eexists.
  - rewrite last_of_snoc in *. apply NoDup_app in Hnd as (Hn1 & Hd & [Hp2 _]%NoDup_cons).
    assert (q ∉ p :: l2) as Hq by (apply Hd; set_solver).
    destruct (links_set_end _ _ _ _ _ (first_of l2 None) Hn1 H1) as (n & Hn & H1').
    unfold set_next, load, cbind, cmodify. rewrite Hn. eexists. split; [reflexivity|].
    cbn [store first final]. split_and!; try done.
    + rewrite Hf. by destruct l.
    + rewrite lookup_insert_ne; [done|set_solver].
    + apply links_insert; [set_solver|done].
    + apply value_insert. unfold value. by rewrite Hn.
    + intros j Hj. apply lookup_insert_ne. set_solver.
Qed.

Lemma unlink_after d l1 p l2 v :
  NoDup (l1 ++ p :: l2) -> final d = last_of (l1 ++ p :: l2) None ->
  links (store d) None l1 (first_of l2 None) ->
  store d !! p = Some (Node (first_of l2 None) (last_of l1 None) v) ->
  links (store d) (Some p) l2 None ->
  exists d', (match first_of l2 None with
              | None => let! l := cgets final in
                        verify (bool_decide (l = Some p)) ;! set_final (last_of l1 None)
              | Some r => set_prev r (last_of l1 None)
              end) d = (Ok tt, d') /\
    first d' = first d /\ final d' = last_of (l1 ++ l2) None /\
    links (store d') None (l1 ++ l2) None /\ (forall j, value d' j = value d j) /\
    forall j, j ∉ l2 -> store d' !! j = store d !! j.
Proof.
  intros Hnd Hl H1 Hp H2. destruct l2 as [|r l].
  - cbn in *. unfold cbind, cgets. rewrite Hl, last_of_snoc, bool_decide_true by done.
    eexists. split; [reflexivity|]. by rewrite app_nil_r.
  - apply NoDup_app in Hnd as (Hn1 & Hd & [Hp2 Hn2]%NoDup_cons).
    destruct (links_set_begin _ _ (last_of l1 None) _ _ _ Hn2 H2) as (n & Hn & H2').
    cbn [first_of]. unfold set_prev, load, cbind, cmodify. rewrite Hn. eexists. split; [reflexivity|].
    cbn [store first final]. split_and!; try done.
    + rewrite Hl. unfold last_of. rewrite !last_app, !last_cons. by destruct (last l).
    + apply links_app. split; [|done]. apply links_insert; [|done]. intros Hr. by apply (Hd r Hr); set_solver.
    + apply value_insert. unfold value. by rewrite Hn.
    + intros j Hj. apply lookup_insert_ne. set_solver.
Qed.

(** Removing an element takes it out and leaves the others in order. *)
Lemma list_remove_spec d l1 p l2 :
  represents d (l1 ++ p :: l2) ->
  exists d', list_remove p d = (Ok tt, d') /\ represents d' (l1 ++ l2) /\
    (forall j, value d' j = value d j) /\ forall j, j ∉ l1 ++ p :: l2 -> store d' !! j = store d !! j.
Proof.
  intros [Hnd Hf Hl [H1 [(v & Hp) H2]]%links_app]. cbn [first_of] in H1.
  destruct (unlink_before d l1 p l2 v Hnd Hf H1 Hp H2) as (d1 & E1 & Hf1 & Hl1 & K1 & Kp & K2 & V1 & F1).
  destruct (unlink_after d1 l1 p l2 v Hnd) as (d2 & E2 & Hf2 & Hl2 & K & V2 & F2); try done; [by rewrite Hl1|].
  exists d2. split_and!.
  - unfold list_remove. unfold cbind at 1, load. rewrite Hp. cbn [prev next].
    rewrite (cbind_ok _ _ _ _ _ E1). unfold cbind at 1. rewrite Kp. exact E2.
  - constructor; [|by rewrite Hf2|done|done].
    apply NoDup_app in Hnd as (? & Hd & [_ ?]%NoDup_cons). apply NoDup_app. split_and!; try done.
    intros i Hi1 Hi2. apply (Hd i Hi1). set_solver.
  - intros j. by rewrite V2, V1.
  - intros j Hj. rewrite F2, F1; set_solver.
Qed.

(** [list_next] steps through the elements in order and ends with a null pointer. *)
Lemma list_next_spec d l1 p l2 :
  represents d (l1 ++ p :: l2) ->
  list_next (last_of l1 None) d = (Ok (Some p), d) /\
  list_next (Some p) d = (Ok (first_of l2 None), d).
Proof.
  intros [Hnd Hf Hl [H1 [(v & Hp) H2]]%links_app]. split.
  - destruct l1 as [|q l _] using rev_ind; [cbn; unfold cgets; by rewrite Hf|].
    rewrite last_of_snoc. cbn. apply links_app in H1 as [_ [(w & Hq) _]].
    unfold cbind, load. by rewrite Hq.
  - cbn. unfold cbind, load. by rewrite Hp.
Qed.

(** ** Programs *)

Inductive lop := LAdd (p : loc) | LRemove (p : loc).
Definition run_lop (op : lop) : D unit :=
  match op with LAdd p => list_add p | LRemove p => list_remove p end.
Definition run_lops (ops : list lop) : D unit := fold_right (fun op m => run_lop op ;! m) (cret tt) ops.

(** The loop [for (c = next(NULL); c != NULL; c = next(c))]. *)
Fixpoint walk (fuel : nat) (p : option loc) : D (list loc) :=
  match fuel with
  | O => cfault
  | S f => let! n := list_next p in
           match n with
           | None => cret []
           | Some i => let! r := walk f (Some i) in cret (i :: r)
           end
  end.

(** The same program on sequences; [fresh] are the nodes that were never in a list.
    [None] when a program adds a node that is not fresh or removes one that is not in the list. *)
Fixpoint spec_lops (ops : list lop) (ids fresh : list loc) : option (list loc) :=
  match ops with
  | [] => Some ids
  | LAdd p :: r => if bool_decide (p ∈ fresh)
                   then spec_lops r (ids ++ [p]) (filter (fun i => i <> p) fresh) else None
  | LRemove p :: r => if bool_decide (p ∈ ids) then spec_lops r (filter (fun i => i <> p) ids) fresh else None
  end.

Definition fresh_nodes (d : dlist) (ids fresh : list loc) : Prop :=
  forall p, p ∈ fresh -> p ∉ ids /\ exists v, store d !! p = Some (Node None None v).

Lemma filter_other (p : loc) (l : list loc) : p ∉ l -> filter (fun i => i <> p) l = l.
Proof.
  intros Hp. induction l as [|i l IH]; [done|]. rewrite filter_cons_True by set_solver.
  f_equal. apply IH. set_solver.
Qed.
Lemma filter_mid (p : loc) (l1 l2 : list loc) : NoDup (l1 ++ p :: l2) -> filter (fun i => i <> p) (l1 ++ p :: l2) = l1 ++ l2.
Proof.
  intros (_ & Hd & [Hp _]%NoDup_cons)%NoDup_app. rewrite filter_app, filter_cons_False by auto.
  rewrite !filter_other; [done|done|]. intros Hi. apply (Hd p Hi). set_solver.
Qed.

Lemma run_lops_spec ops d ids fresh ids' :
  represents d ids -> fresh_nodes d ids fresh -> spec_lops ops ids fresh = Some ids' ->
  exists d', run_lops ops d = (Ok tt, d') /\ represents d' ids' /\ forall j, value d' j = value d j.
Proof.
  revert d ids fresh. induction ops as [|[p|p] ops IH]; intros d ids fresh Hr Hf Hs; cbn in Hs.
  - injection Hs as <-. by exists d.
  - destruct (bool_decide_reflect (p ∈ fresh)) as [Hp|]; [|done]. destruct (Hf p Hp) as (Hpi & v & Hv).
    destruct (list_add_spec d ids p v Hr Hpi Hv) as (d1 & E1 & Hr1 & V1 & F1).
    destruct (IH d1 _ (filter (fun i => i <> p) fresh) Hr1) as (d2 & E2 & Hr2 & V2); [|done|].
    { intros i [Hip Hi]%list_elem_of_filter. destruct (Hf i Hi) as (Hii & w & Hw). split; [set_solver|].
      exists w. rewrite F1; set_solver. }
    exists d2. split_and!; [|done|intros j; by rewrite V2, V1]. cbn. by rewrite (cbind_ok _ _ _ _ _ E1).
  - destruct (bool_decide_reflect (p ∈ ids)) as [Hp|]; [|done].
    apply list_elem_of_split in Hp as (l1 & l2 & ->). rewrite filter_mid in Hs by apply Hr.
    destruct (list_remove_spec d l1 p l2 Hr) as (d1 & E1 & Hr1 & V1 & F1).
    destruct (IH d1 _ fresh Hr1) as (d2 & E2 & Hr2 & V2); [|done|].
    { intros i Hi. destruct (Hf i Hi) as (Hii & w & Hw). split; [set_solver|]. exists w. by rewrite F1. }
    exists d2. split_and!; [|done|intros j; by rewrite V2, V1]. cbn. by rewrite (cbind_ok _ _ _ _ _ E1).
Qed.

Lemma walk_spec d l1 l2 : represents d (l1 ++ l2) ->
  walk (S (length l2)) (last_of l1 None) d = (Ok l2, d).
Proof.
  revert l1. induction l2 as [|p l2 IH]; intros l1 Hr.
  - rewrite app_nil_r in Hr. cbn. unfold cbind at 1. destruct l1 as [|q l _] using rev_ind.
    + cbn. unfold cgets. by rewrite (rep_first _ _ Hr).
    + rewrite last_of_snoc. by rewrite (proj2 (list_next_spec d l q [] Hr)).
  - cbn [walk length]. rewrite (cbind_ok _ _ _ _ _ (proj1 (list_next_spec d l1 p l2 Hr))).
    specialize (IH (l1 ++ [p])). rewrite last_of_snoc, <- app_assoc in IH.
    by rewrite (cbind_ok _ _ _ _ _ (IH Hr)).
Qed.
End List.
Arguments node : clear implicits.
Arguments dlist : clear implicits.

(** * Configurations of a template, parts of a configuration *)

Definition ebox_tpl_add_config {A} (config : loc) : M unit (dlist A) unit := list_add config.
Definition ebox_tpl_remove_config {A} (config : loc) : M unit (dlist A) unit := list_remove config.
Definition ebox_tpl_next_config {A} (p : option loc) : M unit (dlist A) (option loc) := list_next p.

(** The parts of a configuration with the counter [etc_m]. *)
Definition on_list {A B} (m : M unit (dlist A) B) : M unit (dlist A * Z) B :=
  fun s => let (r, d) := m (fst s) in (r, (d, snd s)).
Definition ebox_tpl_config_add_part {A} (part : loc) : M unit (dlist A * Z) unit :=
  on_list (list_add part) ;! cmodify (fun s => (fst s, u8 (snd s + 1))).
Definition ebox_tpl_config_remove_part {A} (part : loc) : M unit (dlist A * Z) unit :=
  on_list (list_remove part).
Definition ebox_tpl_config_next_part {A} (p : option loc) : M unit (dlist A * Z) (option loc) :=
  on_list (list_next p).

Definition empty_list {A} (h : gmap loc (node A)) : dlist A := DList h None None.
Lemma empty_represents {A} (h : gmap loc (node A)) : represents (empty_list h) [].
Proof. constructor; try done. apply NoDup_nil_2. Qed.

(** The configurations of a template (and the parts of a configuration) are a
    sequence. Any program that adds nodes that were never in a list and removes nodes
    that are in it runs without a failing [VERIFY] or a wild pointer, and stepping
    through the result with the next-element function visits exactly the elements an append
    and a delete on sequences would leave, in order, each with the contents it had. *)
Theorem ebox_tpl_lists_are_sequences {A} ops (h : gmap loc (node A)) fresh ids :
  (forall p, p ∈ fresh -> exists v, h !! p = Some (Node None None v)) ->
  spec_lops ops [] fresh = Some ids ->
  exists d, run_lops ops (empty_list h) = (Ok tt, d) /\ represents d ids /\
    walk (S (length ids)) None d = (Ok ids, d) /\
    forall j, value d j = value (empty_list h) j.
Proof.
  intros Hf Hs. destruct (run_lops_spec ops (empty_list h) [] fresh ids (empty_represents h)) as (d & E & Hr & V).
  - intros p Hp. split; [set_solver|by apply Hf].
  - done.
  - exists d. split_and!; try done. exact (walk_spec d [] ids Hr).
Qed.

Lemma ebox_tpl_lists_are_sequences_witness :
  let h := list_to_map [(1%positive, Node None None 10); (2%positive, Node None None 20);
    (3%positive, Node None None 30)] : gmap loc (node Z) in
  exists d, run_lops [LAdd 1%positive; LAdd 2%positive; LAdd 3%positive; LRemove 2%positive] (empty_list h)
      = (Ok tt, d) /\ represents d [1%positive; 3%positive] /\
    walk 3 None d = (Ok [1%positive; 3%positive], d) /\
    forall j, value d j = value (empty_list h) j.
Proof.
  intros h. apply (ebox_tpl_lists_are_sequences
    [LAdd 1%positive; LAdd 2%positive; LAdd 3%positive; LRemove 2%positive] h
    [1%positive; 2%positive; 3%positive] [1%positive; 3%positive]); [|vm_compute; reflexivity].
  intros p Hp. repeat (apply elem_of_cons in Hp as [->|Hp]; [eexists; vm_compute; reflexivity|]).
  by apply not_elem_of_nil in Hp.
Defined.

(** Removing a part leaves the counter of parts as it was. *)
Lemma ebox_tpl_remove_part_keeps_m {A} (d : dlist A) m l1 p l2 :
  represents d (l1 ++ p :: l2) ->
  exists d', ebox_tpl_config_remove_part p (d, m) = (Ok tt, (d', m)) /\ represents d' (l1 ++ l2).
Proof.
  intros Hr. destruct (list_remove_spec d l1 p l2 Hr) as (d' & E & Hr' & _). exists d'.
  unfold ebox_tpl_config_remove_part, on_list. cbn [fst snd]. by rewrite E.
Qed.

(** A node that was removed from between others keeps its old pointers, so adding it again
    stops the process. *)
Lemma ebox_tpl_readd_aborts :
  let h := list_to_map [(1%positive, Node None None 10); (2%positive, Node None None 20)]
    : gmap loc (node Z) in
  fst (run_lops [LAdd 1%positive; LAdd 2%positive; LRemove 2%positive; LAdd 2%positive] (empty_list h)) = Panic.
Proof. vm_compute. reflexivity. Qed.
