(* ===== verification/EboxTpl.v ===== *)
(** * Ebox templates (ebox.c)

    A template lists configurations; a configuration of [n] out of [m] parts
    lists the tokens that take part. This file has the template data, the
    operations that build it and its wire format. The lists are sequences, as
    EboxList shows the linked ones to be. *)
From stdpp Require Import base list strings.
From Stdlib Require Import ZArith Lia.
From S2P Require Import Prelude Errf Sshbuf Algs PivBox.

Local Open Scope string_scope.
Local Open Scope list_scope.
Local Open Scope Z_scope.
Local Open Scope c_scope.

(** Key blobs of libssh/sshkey.c: the bytes [sshkey_putb] appends to an empty
    buffer, and [sshkey_fromb] of the contents of one. *)
Class KeyBlobs {C : Crypto} := {
  sshkey_putb : sshkey -> res Z (list Z);
  sshkey_fromb : list Z -> res Z sshkey
}.
(** A key that OpenSSL and [sshkey_ec_validate_public] accept, on one of the curves of the table. *)
Definition key_valid {C : Crypto} (k : sshkey) : Prop :=
  match k with
  | EcKey nid p _ => ec_validate nid p = 0 /\ sshkey_curve_nid_to_name nid <> None
  | OtherKey _ => True
  end.
Class KeyBlobLaws `(KeyBlobs) := {
  fromb_returns : forall d, bytes d -> returned (sshkey_fromb d) = true;
  (** a blob written for a valid key reads as that public key *)
  putb_round : forall k d, key_valid k -> sshkey_putb k = Ok d ->
    bytes d /\ zlen d <= 65536 /\ sshkey_fromb d = Ok (sshkey_demote k)
}.

Section Tpl.
Context {C : Crypto} {KB : KeyBlobs}.

(** ** Data *)

Definition EBOX_TEMPLATE : Z := 1.
Definition EBOX_KEY : Z := 2.
Definition EBOX_STREAM : Z := 3.
Definition EBOX_PRIMARY : Z := 1.
Definition EBOX_RECOVERY : Z := 2.
Definition EBOX_TPL_V1 : Z := 1.
Definition EBOX_TPL_VNEXT : Z := 2.
Definition EBOX_TPL_VMIN : Z := EBOX_TPL_V1.
Definition PIV_SLOT_KEY_MGMT : Z := 0x9d.

(** Tags of a part. *)
Definition EBOX_PART_END : Z := 0.
Definition EBOX_PART_PUBKEY : Z := 1.
Definition EBOX_PART_NAME : Z := 2.
Definition EBOX_PART_CAK : Z := 3.
Definition EBOX_PART_GUID : Z := 4.
Definition EBOX_PART_BOX : Z := 5.
Definition EBOX_PART_SLOT : Z := 6.
Definition EBOX_PART_OPTIONAL_FLAG : Z := 0x80.

Record ebox_tpl_part := TplPart {
  etp_name : option (list Z);
  etp_pubkey : option sshkey;
  etp_cak : option sshkey;
  etp_slot : Z;
  etp_guid : list Z
}.
Record ebox_tpl_config := TplConfig {
  etc_type : Z;
  etc_n : Z;
  etc_m : Z;
  etc_parts : list ebox_tpl_part
}.
Record ebox_tpl := Tpl {
  et_version : Z;
  et_configs : list ebox_tpl_config
}.

(** ** Building *)

Definition ebox_tpl_alloc : ebox_tpl := Tpl (EBOX_TPL_VNEXT - 1) [].
Definition ebox_tpl_config_alloc (type : Z) : ebox_tpl_config :=
  TplConfig type (if type =? EBOX_PRIMARY then 1 else 0) 0 [].

Definition ebox_tpl_config_set_n (n : Z) : M errf_t ebox_tpl_config unit :=
  let! c := cget in
  guard (negb (n =? 0)) (errf "ArgumentError" None) ;!
  guard (negb (etc_m c <? n)) (errf "ArgumentError" None) ;!
  guard (negb (negb (n =? 1) && (etc_type c =? EBOX_PRIMARY))) (errf "ArgumentError" None) ;!
  cput (TplConfig (etc_type c) (u8 n) (etc_m c) (etc_parts c)).

Definition ebox_tpl_part_alloc (guid : list Z) (slotid : Z) (pubkey : sshkey) : res errf_t ebox_tpl_part :=
  if zlen guid =? 16 then Ok (TplPart None (Some (sshkey_demote pubkey)) None slotid guid) else Panic.
Definition ebox_tpl_part_set_name (part : ebox_tpl_part) (name : list Z) : ebox_tpl_part :=
  TplPart (Some name) (etp_pubkey part) (etp_cak part) (etp_slot part) (etp_guid part).
Definition ebox_tpl_part_set_cak (part : ebox_tpl_part) (cak : sshkey) : ebox_tpl_part :=
  TplPart (etp_name part) (etp_pubkey part) (Some (sshkey_demote cak)) (etp_slot part) (etp_guid part).

(** [ebox_tpl_config_add_part] and [ebox_tpl_add_config] on sequences. *)
Definition config_add_part (c : ebox_tpl_config) (p : ebox_tpl_part) : ebox_tpl_config :=
  TplConfig (etc_type c) (etc_n c) (u8 (etc_m c + 1)) (etc_parts c ++ [p]).
Definition tpl_add_config (t : ebox_tpl) (c : ebox_tpl_config) : ebox_tpl :=
  Tpl (et_version t) (et_configs t ++ [c]).

Definition clone_part (p : ebox_tpl_part) : ebox_tpl_part :=
  TplPart (etp_name p) (sshkey_demote <$> etp_pubkey p) (sshkey_demote <$> etp_cak p) (etp_slot p) (etp_guid p).
Definition ebox_tpl_clone (t : ebox_tpl) : ebox_tpl :=
  Tpl (et_version t)
    (map (fun c => TplConfig (etc_type c) (etc_n c) (etc_m c) (map clone_part (etc_parts c))) (et_configs t)).

(** ** Writing *)

Abbreviation W := (M errf_t sshbuf).

Definition put_cak (cak : sshkey) : W unit :=
  sshput (sshbuf_put_u8 EBOX_PART_CAK) ;!
  match sshkey_putb cak with
  | Ok d => sshput (sshbuf_put_string d)
  | Er rc => craise (ssherrf rc)
  | Panic => cpanic
  | Fault => cfault
  end.

Definition sshbuf_put_ebox_tpl_part (part : ebox_tpl_part) : W unit :=
  match etp_pubkey part with
  | None => cfault
  | Some (OtherKey _) => craise ArgumentError
  | Some (EcKey nid pub _) =>
      sshput (sshbuf_put_u8 EBOX_PART_PUBKEY) ;!
      sshput (sshbuf_put_cstring8 (sshkey_curve_nid_to_name nid)) ;!
      sshput (sshbuf_put_eckey8 nid pub) ;!
      sshput (sshbuf_put_u8 EBOX_PART_GUID) ;!
      sshput (sshbuf_put_string8 (etp_guid part)) ;!
      match etp_name part with
      | None => cret tt
      | Some name => sshput (sshbuf_put_u8 EBOX_PART_NAME) ;! sshput (sshbuf_put_cstring8 (Some name))
      end ;!
      match etp_cak part with
      | None => cret tt
      | Some cak => put_cak cak
      end ;!
      (if etp_slot part =? PIV_SLOT_KEY_MGMT then cret tt
       else sshput (sshbuf_put_u8 EBOX_PART_SLOT) ;! sshput (sshbuf_put_u8 (etp_slot part))) ;!
      sshput (sshbuf_put_u8 EBOX_PART_END)
  end.

Fixpoint put_parts (parts : list ebox_tpl_part) : W unit :=
  match parts with
  | [] => cret tt
  | p :: r => cmaperr (fun e => errf "PartError" (Some e)) (sshbuf_put_ebox_tpl_part p) ;! put_parts r
  end.

Definition sshbuf_put_ebox_tpl_config (config : ebox_tpl_config) : W unit :=
  sshput (sshbuf_put_u8 (etc_type config)) ;!
  sshput (sshbuf_put_u8 (etc_n config)) ;!
  sshput (sshbuf_put_u8 (etc_m config)) ;!
  put_parts (etc_parts config).

(** The cause of a failure is not kept. *)
Fixpoint put_configs (configs : list ebox_tpl_config) : W unit :=
  match configs with
  | [] => cret tt
  | c :: r => cmaperr (fun _ => errf "ConfigError" None) (sshbuf_put_ebox_tpl_config c) ;! put_configs r
  end.

Definition sshbuf_put_ebox_tpl (tpl : ebox_tpl) : W unit :=
  sshput (sshbuf_put_u8 0xEB) ;!
  sshput (sshbuf_put_u8 0x0C) ;!
  sshput (sshbuf_put_u8 (et_version tpl)) ;!
  sshput (sshbuf_put_u8 EBOX_TEMPLATE) ;!
  sshput (sshbuf_put_u8 (u8 (zlen (et_configs tpl)))) ;!
  put_configs (et_configs tpl).

(** ** Reading *)

(** What the tag loop has collected: the part, the slot and whether a GUID was seen. *)
Record part_acc := Acc { a_part : ebox_tpl_part; a_slot : Z; a_guid : bool }.
Definition acc_init : part_acc := Acc (TplPart None None None 0 (zrepeat 16 0)) PIV_SLOT_KEY_MGMT false.

(** [sshbuf_get_stringb] into an empty buffer and [sshkey_fromb] of it. *)
Definition get_key_blob : W sshkey :=
  fun b => match sshbuf_get_stringb (b, sshbuf_new) with
           | (Ok _, (b', kbuf)) =>
               (match sshkey_fromb (sb_contents kbuf) with
                | Ok k => Ok k
                | Er rc => Er (ssherrf rc)
                | Panic => Panic
                | Fault => Fault
                end, b')
           | (Er rc, (b', _)) => (Er (ssherrf rc), b')
           | (Panic, (b', _)) => (Panic, b')
           | (Fault, (b', _)) => (Fault, b')
           end.

Definition get_part_pubkey : W sshkey :=
  let! tname := sshput sshbuf_get_cstring8 in
  let nid := sshkey_curve_name_to_nid (c_str tname) in
  guard (negb (nid =? -1)) CurveError ;!
  let! p := sshput (sshbuf_get_eckey8 nid) in
  guard (ec_validate nid p =? 0) (ssherrf (ec_validate nid p)) ;!
  cret (EcKey nid p None).

(** One round of the loop: the value of the tag. *)
Definition get_part_tag (tag : Z) (a : part_acc) : W part_acc :=
  let p := a_part a in
  let t := Z.land tag (Z.lnot EBOX_PART_OPTIONAL_FLAG) in
  if t =? EBOX_PART_PUBKEY then
    let! k := get_part_pubkey in
    cret (Acc (TplPart (etp_name p) (Some k) (etp_cak p) (etp_slot p) (etp_guid p)) (a_slot a) (a_guid a))
  else if t =? EBOX_PART_CAK then
    let! k := get_key_blob in
    cret (Acc (TplPart (etp_name p) (etp_pubkey p) (Some k) (etp_slot p) (etp_guid p)) (a_slot a) (a_guid a))
  else if t =? EBOX_PART_NAME then
    let! s := sshput sshbuf_get_cstring8 in
    cret (Acc (TplPart (Some (c_str s)) (etp_pubkey p) (etp_cak p) (etp_slot p) (etp_guid p))
            (a_slot a) (a_guid a))
  else if t =? EBOX_PART_GUID then
    let! g := sshput sshbuf_get_string8 in
    guard (zlen g =? 16) (errf "LengthError" None) ;!
    cret (Acc (TplPart (etp_name p) (etp_pubkey p) (etp_cak p) (etp_slot p) g) (a_slot a) true)
  else if t =? EBOX_PART_SLOT then
    let! s := sshput sshbuf_get_u8 in
    cret (Acc p s (a_guid a))
  else if negb (Z.land tag EBOX_PART_OPTIONAL_FLAG =? 0) then
    sshput sshbuf_get_string8_direct ;! cret a
  else craise (errf "UnknownTagError" None).

(** The loop over the tags of a part; [step] reads the value of one. Each round reads
    a byte of the next tag, so the bytes left bound the number of rounds. *)
Fixpoint tag_loop {A} (step : Z -> A -> W A) (fuel : nat) (tag : Z) (a : A) : W A :=
  if tag =? EBOX_PART_END then cret a
  else match fuel with
       | O => cfault
       | S f =>
           let! a := step tag a in
           let! tag := sshput sshbuf_get_u8 in
           tag_loop step f tag a
       end.
Definition get_part_tags {A} (step : Z -> A -> W A) (a : A) : W A :=
  let! tag := sshput sshbuf_get_u8 in
  let! fuel := cgets (fun b => S (length (sb_contents b))) in
  tag_loop step fuel tag a.

Definition sshbuf_get_ebox_tpl_part : W ebox_tpl_part :=
  let! a := get_part_tags get_part_tag acc_init in
  let p := a_part a in
  guard (match etp_pubkey p with None => false | Some _ => true end && a_guid a)
    (errf "IncompletePartError" None) ;!
  cret (TplPart (etp_name p) (etp_pubkey p) (etp_cak p) (a_slot a) (etp_guid p)).

Definition get_part_err : W ebox_tpl_part :=
  cmaperr (fun e => errf "PartError" (Some e)) sshbuf_get_ebox_tpl_part.

(** [n] more parts. *)
Fixpoint get_parts (n : nat) : W (list ebox_tpl_part) :=
  match n with
  | O => cret []
  | S k => let! p := get_part_err in let! r := get_parts k in cret (p :: r)
  end.

Definition sshbuf_get_ebox_tpl_config : W ebox_tpl_config :=
  let! type := sshput sshbuf_get_u8 in
  let! n := sshput sshbuf_get_u8 in
  let! m := sshput sshbuf_get_u8 in
  guard ((type =? EBOX_PRIMARY) || (type =? EBOX_RECOVERY)) ArgumentError ;!
  guard (negb ((type =? EBOX_PRIMARY) && (1 <? n))) ArgumentError ;!
  let! p := get_part_err in
  let! r := get_parts (Z.to_nat (m - 1)) in
  cret (TplConfig type n m (p :: r)).

Definition get_config_err : W ebox_tpl_config :=
  cmaperr (fun e => boxderrf (errf "ConfigError" (Some e))) sshbuf_get_ebox_tpl_config.
Fixpoint get_configs (n : nat) : W (list ebox_tpl_config) :=
  match n with
  | O => cret []
  | S k => let! c := get_config_err in let! r := get_configs k in cret (c :: r)
  end.

Definition EboxTypeError : errf_t := errf "EboxTypeError" None.

Definition sshbuf_get_ebox_tpl : W ebox_tpl :=
  let merr := cmaperr (fun rc => boxderrf (errf "MagicError" (Some (ssherrf rc)))) in
  let! magic0 := merr sshbuf_get_u8 in
  let! magic1 := merr sshbuf_get_u8 in
  guard (negb (negb (magic0 =? 0xEB) && negb (magic1 =? 0x0C))) (boxderrf MagicError) ;!
  let! ver := sshget sshbuf_get_u8 in
  let! type := sshget sshbuf_get_u8 in
  guard (negb ((ver <? EBOX_TPL_VMIN) || (EBOX_TPL_VNEXT <=? ver))) (boxverrf VersionError) ;!
  guard (type =? EBOX_TEMPLATE) (boxderrf EboxTypeError) ;!
  let! nconfigs := sshget sshbuf_get_u8 in
  let! c := get_config_err in
  let! r := get_configs (Z.to_nat (nconfigs - 1)) in
  cret (Tpl ver (c :: r)).

(** * The wire format round-trips *)

Definition key_ok (k : sshkey) : Prop :=
  exists nid p tname, k = EcKey nid p None /\ sshkey_curve_nid_to_name nid = Some tname /\ ec_validate nid p = 0.
Definition cak_ok (k : sshkey) : Prop := sshkey_demote k = k /\ key_valid k /\ exists d, sshkey_putb k = Ok d.
Definition blob (k : sshkey) : list Z := match sshkey_putb k with Ok d => d | _ => [] end.

Record part_ok (p : ebox_tpl_part) : Prop := {
  po_key : exists k, etp_pubkey p = Some k /\ key_ok k;
  po_guid : bytes (etp_guid p) /\ zlen (etp_guid p) = 16;
  po_name : forall s, etp_name p = Some s -> field_ok (FCstr8 s);
  po_cak : forall k, etp_cak p = Some k -> cak_ok k;
  po_slot : is_byte (etp_slot p)
}.

Definition key_bytes (k : sshkey) : list Z :=
  match k with
  | EcKey nid p _ => str8 (default [] (sshkey_curve_nid_to_name nid)) ++ str8 (ec_point2oct nid p)
  | OtherKey _ => []
  end.

(** The tags of a part with their values, as the writer orders them. *)
Definition name_field (p : ebox_tpl_part) : list (Z * list Z) :=
  match etp_name p with None => [] | Some s => [(EBOX_PART_NAME, str8 s)] end.
Definition cak_field (p : ebox_tpl_part) : list (Z * list Z) :=
  match etp_cak p with None => [] | Some k => [(EBOX_PART_CAK, str32 (blob k))] end.
Definition slot_field (p : ebox_tpl_part) : list (Z * list Z) :=
  if etp_slot p =? PIV_SLOT_KEY_MGMT then [] else [(EBOX_PART_SLOT, be_bytes 1 (etp_slot p))].
Definition part_fields (p : ebox_tpl_part) : list (Z * list Z) :=
  [(EBOX_PART_PUBKEY, match etp_pubkey p with Some k => key_bytes k | None => [] end);
   (EBOX_PART_GUID, str8 (etp_guid p))] ++ name_field p ++ cak_field p ++ slot_field p.
Definition fields_bytes (fs : list (Z * list Z)) : list Z := flat_map (fun f => be_bytes 1 (fst f) ++ snd f) fs.
Definition part_bytes (p : ebox_tpl_part) : list Z := fields_bytes (part_fields p) ++ be_bytes 1 EBOX_PART_END.

Record config_ok (c : ebox_tpl_config) : Prop := {
  co_type : etc_type c = EBOX_PRIMARY /\ etc_n c <= 1 \/ etc_type c = EBOX_RECOVERY;
  co_n : is_byte (etc_n c);
  co_m : etc_m c = zlen (etc_parts c) /\ 1 <= zlen (etc_parts c) <= 255;
  co_parts : Forall part_ok (etc_parts c)
}.
Definition config_bytes (c : ebox_tpl_config) : list Z :=
  be_bytes 1 (etc_type c) ++ be_bytes 1 (etc_n c) ++ be_bytes 1 (etc_m c) ++ flat_map part_bytes (etc_parts c).

Record tpl_ok (t : ebox_tpl) : Prop := {
  to_version : EBOX_TPL_VMIN <= et_version t < EBOX_TPL_VNEXT;
  to_configs : 1 <= zlen (et_configs t) <= 255;
  to_each : Forall config_ok (et_configs t)
}.
Definition tpl_bytes (t : ebox_tpl) : list Z :=
  be_bytes 1 0xEB ++ be_bytes 1 0x0C ++ be_bytes 1 (et_version t) ++ be_bytes 1 EBOX_TEMPLATE ++
  be_bytes 1 (zlen (et_configs t)) ++ flat_map config_bytes (et_configs t).

Section Laws.
Context {L : CryptoLaws C} {KL : KeyBlobLaws KB}.

Lemma blob_ok k : cak_ok k ->
  sshkey_putb k = Ok (blob k) /\ bytes (blob k) /\ zlen (blob k) <= 65536 /\ sshkey_fromb (blob k) = Ok k.
Proof.
  intros (Hk & Hv & d & Hd). unfold blob. rewrite Hd. destruct (putb_round k d Hv Hd) as (H1 & H2 & H3).
  rewrite Hk in H3. done.
Qed.

Lemma gets_ssherr {A} (m : B A) bs v : gets m bs v -> gets (sshput m) bs v.
Proof. apply gets_maperr. Qed.
Lemma puts_option {A} (o : option A) (m : A -> W unit) (bs : A -> list Z) :
  (forall a, o = Some a -> puts (m a) (bs a)) ->
  puts (match o with None => cret tt | Some a => m a end) (match o with None => [] | Some a => bs a end).
Proof. intros H. destruct o; [by apply H|apply puts_ret]. Qed.

Lemma fields_bytes_app a b : fields_bytes (a ++ b) = fields_bytes a ++ fields_bytes b.
Proof. apply flat_map_app. Qed.

Lemma puts_cak k : cak_ok k -> puts (put_cak k) (be_bytes 1 EBOX_PART_CAK ++ str32 (blob k)).
Proof.
  intros Hk. destruct (blob_ok k Hk) as (Hp & Hb & Hl & _). unfold put_cak. rewrite Hp.
  apply puts_seq; [apply puts_ssh, puts_u8|]. apply puts_ssh, puts_string; [done|].
  rewrite size_max_eq. lia.
Qed.

Lemma puts_tpl_part p : part_ok p -> puts (sshbuf_put_ebox_tpl_part p) (part_bytes p).
Proof.
  intros [(k & Hk & nid & pt & tname & -> & Ht & _) [Hg Hgl] Hn Hc _].
  unfold sshbuf_put_ebox_tpl_part, part_bytes, part_fields. rewrite Hk.
  rewrite !fields_bytes_app, <- !app_assoc. unfold fields_bytes at 1. cbn [flat_map fst snd].
  rewrite app_nil_r, <- !app_assoc. unfold key_bytes. rewrite Ht. change (default [] (Some tname)) with tname. rewrite <- app_assoc.
  repeat apply puts_seq; try apply puts_ssh.
  - apply puts_u8.
  - by apply puts_cstring8, (curve_field nid).
  - apply puts_eckey.
  - apply puts_u8.
  - by apply puts_string8; [|lia].
  - unfold name_field, fields_bytes. destruct (etp_name p) as [s|]; [|apply puts_ret].
    cbn [flat_map fst snd]. rewrite app_nil_r. apply puts_seq; apply puts_ssh; [apply puts_u8|by apply puts_cstring8, Hn].
  - unfold cak_field, fields_bytes. destruct (etp_cak p) as [c|]; [|apply puts_ret].
    cbn [flat_map fst snd]. rewrite app_nil_r. by apply puts_cak, Hc.
  - unfold slot_field, fields_bytes. destruct (_ =? _); [apply puts_ret|].
    cbn [flat_map fst snd]. rewrite app_nil_r. apply puts_seq; apply puts_ssh, puts_u8.
  - apply puts_u8.
Qed.

(** ** Reading a part back *)

Lemma gets_fuel {A} (m : nat -> W A) bs v :
  (forall fuel, (length bs < fuel)%nat -> gets (m fuel) bs v) ->
  gets (let! f := cgets (fun b => S (length (sb_contents b))) in m f) bs v.
Proof.
  intros H b rest Hb Hc. unfold cbind, cgets. apply (H (S (length (sb_contents b)))); [|done|done].
  rewrite Hc, length_app. lia.
Qed.

(** The tags one by one: [fs] take the collected values from [a] to [a']. *)
Inductive collects {A} (step : Z -> A -> W A) : list (Z * list Z) -> A -> A -> Prop :=
| collects_nil a : collects step [] a a
| collects_cons t body fs a a1 a2 :
    0 < t < 256 -> gets (step t a) body a1 -> collects step fs a1 a2 ->
    collects step ((t, body) :: fs) a a2.

Lemma collects_app {A} (step : Z -> A -> W A) f1 f2 a a1 a2 :
  collects step f1 a a1 -> collects step f2 a1 a2 -> collects step (f1 ++ f2) a a2.
Proof. induction 1; [done|]. intros. eapply collects_cons; eauto. Qed.

Lemma byte_cons_inj t t' bs bs' : is_byte t -> is_byte t' ->
  be_bytes 1 t ++ bs = be_bytes 1 t' ++ bs' -> t = t' /\ bs = bs'.
Proof. intros H H' E. cbn in E. unfold is_byte in *. rewrite !Z.mod_small in E by lia. by injection E. Qed.

Lemma fields_bytes_cons t b fs : fields_bytes ((t, b) :: fs) = be_bytes 1 t ++ b ++ fields_bytes fs.
Proof. unfold fields_bytes. cbn [flat_map fst snd]. by rewrite <- app_assoc. Qed.

Lemma collects_head {A} (step : Z -> A -> W A) fs a a' : collects step fs a a' -> exists tag bs,
  fields_bytes fs ++ be_bytes 1 EBOX_PART_END = be_bytes 1 tag ++ bs /\ is_byte tag.
Proof.
  destruct 1 as [a|t body fs a a1 a2 Ht _ _].
  - exists 0, []. split; [done|]. unfold is_byte. lia.
  - exists t, (body ++ fields_bytes fs ++ be_bytes 1 EBOX_PART_END). unfold is_byte.
    rewrite fields_bytes_cons, <- !app_assoc. split; [done|lia].
Qed.

Lemma collects_loop {A} (step : Z -> A -> W A) fs a a' tag bs :
  collects step fs a a' -> be_bytes 1 tag ++ bs = fields_bytes fs ++ be_bytes 1 EBOX_PART_END -> is_byte tag ->
  forall fuel, (length bs < fuel)%nat -> gets (tag_loop step fuel tag a) bs a'.
Proof.
  intros Hc. revert tag bs. induction Hc as [a|t body fs a a1 a2 Ht Hg Hc IH]; intros tag bs E Hb fuel Hf.
  - change (fields_bytes [] ++ be_bytes 1 EBOX_PART_END) with (be_bytes 1 0 ++ []) in E.
    apply byte_cons_inj in E as [-> ->]; [|done|unfold is_byte; lia]. destruct fuel; apply gets_ret.
  - rewrite fields_bytes_cons, <- !app_assoc in E.
    apply byte_cons_inj in E as [-> ->]; [|done|unfold is_byte; lia].
    destruct fuel as [|fuel]; [lia|].
    cbn [tag_loop]. replace (t =? EBOX_PART_END) with false by (unfold EBOX_PART_END; lia).
    eapply gets_bind; [exact Hg|]. destruct (collects_head _ _ _ _ Hc) as (tag' & bs' & E' & Hb').
    rewrite E' in *. eapply gets_bind; [apply gets_ssherr, gets_u8, Hb'|].
    apply IH; [done|done|]. rewrite !length_app, length_be_bytes in Hf. lia.
Qed.

Lemma collects_gets {A} (step : Z -> A -> W A) fs a a' :
  collects step fs a a' -> gets (get_part_tags step a) (fields_bytes fs ++ be_bytes 1 EBOX_PART_END) a'.
Proof.
  intros Hc. destruct (collects_head _ _ _ _ Hc) as (tag & bs & E & Hb). unfold get_part_tags. rewrite E.
  eapply gets_bind; [by apply gets_ssherr, gets_u8|].
  apply gets_fuel. intros fuel Hf. by eapply collects_loop.
Qed.

Lemma gets_part_key k : key_ok k -> gets get_part_pubkey (key_bytes k) k.
Proof.
  intros (nid & p & tname & -> & Ht & Hv). unfold get_part_pubkey, key_bytes. rewrite Ht. change (default [] (Some tname)) with tname.
  pose proof (curve_field nid tname Ht) as Hf.
  eapply gets_bind; [by apply gets_ssherr, gets_cstring8_ok|].
  cbn beta zeta. rewrite (c_str_ok _ Hf), (curve_name_roundtrip _ _ Ht).
  apply gets_guard; [apply negb_true_iff, Z.eqb_neq; by intros ->|].
  eapply gets_last; [apply gets_ssherr, gets_eckey|].
  apply gets_guard; [by rewrite Hv|apply gets_ret].
Qed.

Lemma gets_key_blob k : cak_ok k -> gets get_key_blob (str32 (blob k)) k.
Proof.
  intros Hk b rest H Hb. destruct (blob_ok k Hk) as (_ & Hbb & Hl & Hf).
  pose proof (get_stringb_wp b sshbuf_new H private_new) as Hw. unfold wp in Hw. unfold get_key_blob.
  assert (Hq : q_string 4 (abs b) = (Ok (blob k), abs b)).
  { unfold abs. rewrite Hb. unfold str32. rewrite <- app_assoc. apply q_string_app.
    - change (256 ^ Z.of_nat 4) with 4294967296. pose proof (zlen_nonneg (blob k)). lia.
    - rewrite size_max_eq. lia. }
  destruct (sshbuf_get_stringb (b, sshbuf_new)) as [[u|e| |] [b' kb]]; try done; cbn [fst snd] in Hw.
  - destruct Hw as (H1 & _ & str & Hs & Hc & Ha). rewrite Hq in Hs. injection Hs as <-.
    rewrite contents_new in Hc. cbn [app] in Hc. rewrite Hc, Hf. exists b'. split_and!; [done|done|].
    rewrite Ha, Hb. unfold str32. rewrite <- app_assoc.
    rewrite drop_app_length' by by rewrite length_be_bytes. unfold zlen. by rewrite Nat2Z.id, drop_app_length.
  - destruct Hw as (_ & _ & Hbad). specialize (Hbad _ Hq). rewrite contents_new, size_max_eq in Hbad.
    change (zlen []) with 0 in Hbad. lia.
Qed.

Lemma part_collects p : part_ok p ->
  collects get_part_tag (part_fields p) acc_init (Acc (TplPart (etp_name p) (etp_pubkey p) (etp_cak p) 0 (etp_guid p))
    (etp_slot p) true).
Proof.
  intros [(k & Hk & Hkok) [Hg Hgl] Hn Hc Hs]. unfold part_fields. rewrite Hk.
  set (a1 := Acc (TplPart None (Some k) None 0 (etp_guid p)) PIV_SLOT_KEY_MGMT true).
  apply (collects_app _ _ _ _ a1).
  { eapply collects_cons; [done| |eapply collects_cons; [done| |apply collects_nil]].
    - eapply gets_last; [by apply gets_part_key|apply gets_ret].
    - eapply gets_last; [apply gets_ssherr, gets_string8; lia|].
      apply gets_guard; [by rewrite Hgl|apply gets_ret]. }
  set (a2 := Acc (TplPart (etp_name p) (Some k) None 0 (etp_guid p)) PIV_SLOT_KEY_MGMT true).
  apply (collects_app _ _ _ _ a2).
  { unfold name_field, a2. destruct (etp_name p) as [s|]; [|apply collects_nil].
    eapply collects_cons; [done| |apply collects_nil].
    eapply gets_last; [by apply gets_ssherr, gets_cstring8_ok, Hn|].
    rewrite (c_str_ok _ (Hn s eq_refl)). apply gets_ret. }
  set (a3 := Acc (TplPart (etp_name p) (Some k) (etp_cak p) 0 (etp_guid p)) PIV_SLOT_KEY_MGMT true).
  apply (collects_app _ _ _ _ a3).
  { unfold cak_field, a3. destruct (etp_cak p) as [c|]; [|apply collects_nil].
    eapply collects_cons; [done| |apply collects_nil].
    eapply gets_last; [by apply gets_key_blob, Hc|apply gets_ret]. }
  unfold slot_field. destruct (Z.eqb_spec (etp_slot p) PIV_SLOT_KEY_MGMT) as [->|]; [apply collects_nil|].
  eapply collects_cons; [done| |apply collects_nil].
  eapply gets_last; [by apply gets_ssherr, gets_u8|apply gets_ret].
Qed.

Lemma gets_tpl_part p : part_ok p -> gets sshbuf_get_ebox_tpl_part (part_bytes p) p.
Proof.
  intros Hp. unfold part_bytes, sshbuf_get_ebox_tpl_part.
  eapply gets_last; [by eapply collects_gets, part_collects|].
  cbn [a_part a_slot a_guid etp_name etp_pubkey etp_cak etp_guid].
  destruct (po_key p Hp) as (k & Hk & _). rewrite Hk. apply gets_guard; [done|].
  rewrite <- Hk. destruct p. apply gets_ret.
Qed.

(** ** Configurations and templates *)

Lemma puts_parts ps : Forall part_ok ps -> puts (put_parts ps) (flat_map part_bytes ps).
Proof.
  induction 1 as [|p ps Hp _ IH]; [apply puts_ret|]. cbn [put_parts flat_map].
  apply puts_seq; [by apply puts_maperr, puts_tpl_part|done].
Qed.
Lemma puts_tpl_config c : config_ok c -> puts (sshbuf_put_ebox_tpl_config c) (config_bytes c).
Proof.
  intros H. unfold sshbuf_put_ebox_tpl_config, config_bytes.
  repeat apply puts_seq; try (apply puts_ssh, puts_u8). apply puts_parts, H.
Qed.
Lemma puts_configs cs : Forall config_ok cs -> puts (put_configs cs) (flat_map config_bytes cs).
Proof.
  induction 1 as [|c cs Hc _ IH]; [apply puts_ret|]. cbn [put_configs flat_map].
  apply puts_seq; [by apply puts_maperr, puts_tpl_config|done].
Qed.
Lemma puts_tpl t : tpl_ok t -> puts (sshbuf_put_ebox_tpl t) (tpl_bytes t).
Proof.
  intros [Hv Hl Hc]. unfold sshbuf_put_ebox_tpl, tpl_bytes. rewrite (wrap_small 8) by lia.
  repeat apply puts_seq; try (apply puts_ssh, puts_u8). by apply puts_configs.
Qed.

Lemma gets_parts ps : Forall part_ok ps -> gets (get_parts (length ps)) (flat_map part_bytes ps) ps.
Proof.
  induction 1 as [|p ps Hp _ IH]; [apply gets_ret|]. cbn [length get_parts flat_map].
  eapply gets_bind; [by apply gets_maperr, gets_tpl_part|].
  eapply gets_last; [exact IH|apply gets_ret].
Qed.
Lemma gets_tpl_config c : config_ok c -> gets sshbuf_get_ebox_tpl_config (config_bytes c) c.
Proof.
  intros [Ht Hn [Hm Hl] Hp]. unfold sshbuf_get_ebox_tpl_config, config_bytes. rewrite Hm.
  unfold EBOX_PRIMARY, EBOX_RECOVERY in *. destruct c as [ty n m ps]. cbn [etc_type etc_n etc_m etc_parts] in *.
  eapply gets_bind; [apply gets_ssherr, gets_u8; lia|]. eapply gets_bind; [by apply gets_ssherr, gets_u8|].
  eapply gets_bind; [apply gets_ssherr, gets_u8; lia|].
  apply gets_guard; [unfold EBOX_PRIMARY, EBOX_RECOVERY; lia|].
  apply gets_guard; [unfold EBOX_PRIMARY; lia|].
  destruct Hp as [|p ps Hp Hps]; [change (zlen []) with 0 in Hl; lia|]. cbn [flat_map].
  eapply gets_bind; [by apply gets_maperr, gets_tpl_part|].
  rewrite zlen_cons in *. replace (Z.to_nat _) with (length ps) by (unfold zlen; lia).
  eapply gets_last; [by apply gets_parts|]. rewrite Hm. apply gets_ret.
Qed.
Lemma gets_configs cs : Forall config_ok cs -> gets (get_configs (length cs)) (flat_map config_bytes cs) cs.
Proof.
  induction 1 as [|c cs Hc _ IH]; [apply gets_ret|]. cbn [length get_configs flat_map].
  eapply gets_bind; [by apply gets_maperr, gets_tpl_config|].
  eapply gets_last; [exact IH|apply gets_ret].
Qed.
Lemma gets_tpl t : tpl_ok t -> gets sshbuf_get_ebox_tpl (tpl_bytes t) t.
Proof.
  intros [Hv Hl Hc]. unfold sshbuf_get_ebox_tpl, tpl_bytes. unfold EBOX_TPL_VMIN, EBOX_TPL_V1, EBOX_TPL_VNEXT in Hv.
  eapply gets_bind; [apply gets_maperr, gets_u8; lia|]. eapply gets_bind; [apply gets_maperr, gets_u8; lia|].
  apply gets_guard; [done|]. eapply gets_bind; [apply gets_ssh, gets_u8; lia|].
  eapply gets_bind; [by apply gets_ssh, gets_u8|].
  apply gets_guard; [unfold EBOX_TPL_VMIN, EBOX_TPL_V1, EBOX_TPL_VNEXT; lia|]. apply gets_guard; [done|].
  eapply gets_bind; [apply gets_ssh, gets_u8; lia|]. destruct t as [v cs]. cbn [et_configs et_version] in *.
  destruct Hc as [|c cs Hc Hcs]; [change (zlen []) with 0 in Hl; lia|]. cbn [flat_map].
  eapply gets_bind; [by apply gets_maperr, gets_tpl_config|].
  rewrite zlen_cons in *. replace (Z.to_nat _) with (length cs) by (unfold zlen; lia).
  eapply gets_last; [by apply gets_configs|]. apply gets_ret.
Qed.

(** C22: templates round-trip. A template with at least one configuration, each with at least one part and as many parts as
    its counter says, whose parts have an EC key and a 16-byte GUID and fields that fit ([tpl_ok]), is written into a fresh buffer as its wire form and read back as the same
    template: every part with its key, GUID, slot, name and card authentication key. A template that had a part removed, or has no configurations, is
    not among them: it is written and cannot be read ([ebox_tpl_removed_part_unreadable], [ebox_tpl_empty_unreadable]). *)
Theorem ebox_tpl_roundtrip t :
  tpl_ok t -> zlen (tpl_bytes t) <= SSHBUF_SIZE_MAX ->
  exists b b', sshbuf_put_ebox_tpl t sshbuf_new = (Ok tt, b) /\ sb_contents b = tpl_bytes t /\
    sshbuf_get_ebox_tpl b = (Ok t, b') /\ sb_contents b' = [].
Proof.
  intros Ht Hl. destruct (puts_new _ _ (puts_tpl t Ht) Hl) as (b & E & K & Hc & _).
  destruct (gets_whole _ _ _ b (gets_tpl t Ht) K Hc) as (b' & E' & _ & Hc'). exists b, b'. exact (conj E (conj Hc (conj E' Hc'))).
Qed.

(** * Reading arbitrary bytes *)

(** [m] returns on every buffer; a result is in [Q] and [k] bytes at least are gone. *)
Definition reads {A} (m : W A) (Q : A -> Prop) (k : Z) : Prop :=
  forall b, sb_ok b ->
    wp m b (fun a b' => sb_ok b' /\ Q a /\ zlen (sb_contents b') + k <= zlen (sb_contents b))
      (fun _ b' => sb_ok b').

Lemma reads_bind {A D} (m : W A) (f : A -> W D) P Q k :
  reads m P k -> (forall a, P a -> reads (f a) Q 0) -> reads (let! x := m in f x) Q k.
Proof.
  intros Hm Hf b H. apply wp_bind. eapply wp_mono; [by apply Hm| |done]. cbn. intros a b' (Hb' & Ha & Hl).
  eapply wp_mono; [by apply Hf| |done]. cbn. intros c b2 (? & ? & ?). split_and!; [done|done|lia].
Qed.
Lemma reads_ret {A} (a : A) (Q : A -> Prop) : Q a -> reads (cret a) Q 0.
Proof. intros Ha b H. apply wp_ret. split_and!; [done|done|lia]. Qed.
Lemma reads_guard {A} c e (m : W A) Q k : (c = true -> reads m Q k) -> reads (guard c e ;! m) Q k.
Proof. intros Hm b H. apply wp_bind, wp_guard; intros Hc; [by apply Hm|done]. Qed.
Lemma reads_weaken {A} (m : W A) (Q Q' : A -> Prop) k k' :
  reads m Q k -> (forall a, Q a -> Q' a) -> k' <= k -> reads m Q' k'.
Proof.
  intros Hm Hq Hk b H. eapply wp_mono; [by apply Hm| |done]. cbn. intros a b' (? & ? & ?).
  split_and!; [done|by apply Hq|lia].
Qed.

Lemma reads_drains {A} (m : B A) sm (Q : A -> Prop) k : refines m sm -> drains sm Q k -> reads (sshput m) Q k.
Proof.
  intros Hr Hd b H. destruct (Hr b H) as (r & b' & E & H' & S).
  specialize (Hd (abs b) (contents_bytes b H)). rewrite S in Hd.
  unfold wp, sshput, cmaperr. rewrite E. destruct r as [a|e| |]; try done.
Qed.

Lemma reads_u8 : reads (sshput sshbuf_get_u8) is_byte 1.
Proof. apply (reads_drains _ _ _ _ refines_get_u8 (drains_u 1)). Qed.
Lemma reads_string8 : reads (sshput sshbuf_get_string8) str_ok 0.
Proof. apply (reads_drains _ _ _ _ refines_get_string8), drains_string. Qed.
Lemma reads_cstring8 : reads (sshput sshbuf_get_cstring8) str_ok 0.
Proof. apply (reads_drains _ _ _ _ refines_get_cstring8), drains_string. Qed.

(** [sshbuf_skip_string8] *)
Lemma reads_skip : reads (sshput sshbuf_get_string8_direct) (fun _ => True) 0.
Proof.
  intros b H. pose proof (peek_string_ok 1 b ltac:(lia) H) as [Hp _].
  unfold wp, sshput, cmaperr, sshbuf_get_string8_direct, cbind at 1.
  change sshbuf_peek_string8_direct with (peek_string_k (Z.of_nat 1) (8 * Z.of_nat 1)).
  destruct (fst (q_string 1 (abs b))) as [s|e| |]; try done; [|by rewrite Hp].
  destruct Hp as (p & len & -> & Hat). cbn [snd].
  destruct (string_consume b (Z.of_nat 1) s p len H ltac:(lia) Hat) as [Ec Sc].
  change (Z.of_nat 1) with 1 in Ec. rewrite (cbind_ok _ _ _ _ _ Ec). cbn [cret].
  pose proof (zlen_nonneg s). destruct Hat as [_ _ Hfit _].
  pose proof (abs_advance b (1 + zlen s) H ltac:(lia)) as Ha. apply abs_inv in Ha as (Hc & _).
  split_and!; [apply advance_ok; [done|lia]|done|]. rewrite Hc. unfold zlen. rewrite length_drop. lia.
Qed.

Lemma reads_key_blob : reads get_key_blob (fun _ => True) 0.
Proof.
  intros b H. pose proof (get_stringb_wp b sshbuf_new H private_new) as Hw. unfold wp in *. unfold get_key_blob.
  destruct (sshbuf_get_stringb (b, sshbuf_new)) as [[u|e| |] [b' kb]]; try done; cbn [fst snd] in Hw.
  2:{ by destruct Hw. }
  destruct Hw as (H1 & Hk & str & _ & _ & (Hc & _)%abs_inv).
  pose proof (fromb_returns (sb_contents kb) (contents_bytes _ (proj1 Hk))) as Hf.
  destruct (sshkey_fromb (sb_contents kb)); try done. split_and!; [done|done|].
  rewrite Hc. unfold zlen. rewrite !length_drop. lia.
Qed.

Lemma reads_part_key : reads get_part_pubkey key_ok 0.
Proof.
  unfold get_part_pubkey. eapply reads_bind; [apply reads_cstring8|]. intros tname _.
  apply reads_guard. intros Hn%negb_true_iff%Z.eqb_neq.
  eapply reads_bind; [apply (reads_drains _ _ _ _ (refines_eckey _)), drains_eckey|]. intros p _.
  apply reads_guard. intros Hv%Z.eqb_eq. apply reads_ret. eexists _, p, _. split_and!; [done| |done].
  by apply curve_nid_name.
Qed.

(** What the tag loop has collected is valid. *)
Definition acc_ok (a : part_acc) : Prop :=
  (forall k, etp_pubkey (a_part a) = Some k -> key_ok k) /\
  (bytes (etp_guid (a_part a)) /\ zlen (etp_guid (a_part a)) = 16) /\ is_byte (a_slot a).

Lemma acc_init_ok : acc_ok acc_init.
Proof.
  split; [done|]. split; [split; [apply bytesb_spec|]; reflexivity|]. by vm_compute.
Qed.

Lemma reads_part_tag tag a : acc_ok a -> reads (get_part_tag tag a) acc_ok 0.
Proof.
  intros (Hk & Hg & Hs). unfold get_part_tag.
  destruct (_ =? EBOX_PART_PUBKEY).
  { eapply reads_bind; [apply reads_part_key|]. intros k Hkk. apply reads_ret. split; [|done].
    cbn. by intros ? [= <-]. }
  destruct (_ =? EBOX_PART_CAK).
  { eapply reads_bind; [apply reads_key_blob|]. intros k _. by apply reads_ret. }
  destruct (_ =? EBOX_PART_NAME).
  { eapply reads_bind; [apply reads_cstring8|]. intros s _. by apply reads_ret. }
  destruct (_ =? EBOX_PART_GUID).
  { eapply reads_bind; [apply reads_string8|]. intros g [Hgb _]. apply reads_guard. intros ?%Z.eqb_eq.
    by apply reads_ret. }
  destruct (_ =? EBOX_PART_SLOT).
  { eapply reads_bind; [eapply reads_weaken; [apply reads_u8|by intros ? ?|lia]|]. intros s Hsl.
    by apply reads_ret. }
  destruct (negb _); [|by intros b H].
  eapply reads_bind; [apply reads_skip|]. intros _ _. by apply reads_ret.
Qed.

(** The loop ends: the bytes left are fuel enough. *)
Lemma tag_loop_ends {A} (step : Z -> A -> W A) (Q : A -> Prop) fuel tag a b :
  (forall t a, Q a -> reads (step t a) Q 0) -> Q a -> sb_ok b -> (length (sb_contents b) < fuel)%nat ->
  wp (tag_loop step fuel tag a) b
    (fun a' b' => sb_ok b' /\ Q a' /\ zlen (sb_contents b') <= zlen (sb_contents b))
    (fun _ b' => sb_ok b').
Proof.
  intros Hstep. revert tag a b. induction fuel as [|fuel IH]; intros tag a b Ha H Hf; [lia|].
  cbn [tag_loop]. destruct (tag =? EBOX_PART_END); [apply wp_ret; split_and!; [done|done|lia]|].
  apply wp_bind. eapply wp_mono; [by apply Hstep| |done]. cbn beta. intros a1 b1 (H1 & Ha1 & Hl1).
  apply wp_bind. eapply wp_mono; [by apply reads_u8| |done]. cbn beta. intros t b2 (H2 & _ & Hl2).
  eapply wp_mono; [apply IH; [done|done|unfold zlen in *; lia]| |done].
  cbn. intros a3 b3 (? & ? & ?). split_and!; [done|done|lia].
Qed.
Lemma reads_part_tags {A} (step : Z -> A -> W A) (Q : A -> Prop) a :
  (forall t a, Q a -> reads (step t a) Q 0) -> Q a -> reads (get_part_tags step a) Q 0.
Proof.
  intros Hstep Ha. unfold get_part_tags.
  eapply reads_bind; [eapply reads_weaken; [apply reads_u8|by intros ? H; exact H|lia]|]. intros tag _ b H.
  apply wp_bind, wp_gets. eapply wp_mono; [apply (tag_loop_ends step Q); [done|done|done|lia]| |done].
  cbn. intros a' b' (? & ? & ?). split_and!; [done|done|lia].
Qed.

(** What reading guarantees of a part, a configuration and a template. *)
Definition part_read (p : ebox_tpl_part) : Prop :=
  (exists k, etp_pubkey p = Some k /\ key_ok k) /\ (bytes (etp_guid p) /\ zlen (etp_guid p) = 16) /\
  is_byte (etp_slot p).
Definition config_read (c : ebox_tpl_config) : Prop :=
  (etc_type c = EBOX_PRIMARY /\ etc_n c <= 1 \/ etc_type c = EBOX_RECOVERY) /\
  zlen (etc_parts c) = Z.max 1 (etc_m c) /\ is_byte (etc_n c) /\ is_byte (etc_m c) /\
  Forall part_read (etc_parts c).
Definition tpl_read (t : ebox_tpl) : Prop :=
  EBOX_TPL_VMIN <= et_version t < EBOX_TPL_VNEXT /\ et_configs t <> [] /\ Forall config_read (et_configs t).

Lemma reads_tpl_part : reads sshbuf_get_ebox_tpl_part part_read 0.
Proof.
  unfold sshbuf_get_ebox_tpl_part.
  eapply reads_bind; [apply (reads_part_tags _ acc_ok); [intros; by apply reads_part_tag|apply acc_init_ok]|].
  intros a (Hk & Hg & Hs). apply reads_guard. intros Hgd. apply reads_ret. split_and!; cbn; try done.
  destruct (etp_pubkey (a_part a)) as [k|]; [|done]. exists k. split; [done|]. by apply Hk.
  all: apply Hg.
Qed.

Lemma reads_maperr {A} f (m : W A) Q k : reads m Q k -> reads (cmaperr f m) Q k.
Proof.
  intros Hm b H. specialize (Hm b H). unfold wp, cmaperr in *. by destruct (m b) as [[] ?].
Qed.
Lemma reads_parts n : reads (get_parts n) (fun ps => length ps = n /\ Forall part_read ps) 0.
Proof.
  induction n as [|n IH]; cbn [get_parts]; [by apply reads_ret|].
  eapply reads_bind; [apply reads_maperr, reads_tpl_part|]. intros p Hp.
  eapply reads_bind; [exact IH|]. intros r [Hl Hr]. apply reads_ret. split; [cbn; lia|by constructor].
Qed.
Lemma reads_tpl_config : reads sshbuf_get_ebox_tpl_config config_read 0.
Proof.
  assert (Hu : reads (sshput sshbuf_get_u8) is_byte 0).
  { eapply reads_weaken; [apply reads_u8|by intros ? H; exact H|lia]. }
  unfold sshbuf_get_ebox_tpl_config. eapply reads_bind; [exact Hu|]. intros ty _.
  eapply reads_bind; [exact Hu|]. intros n Hn. eapply reads_bind; [exact Hu|]. intros m Hm.
  apply reads_guard. intros Hty. apply reads_guard. intros Hpr.
  eapply reads_bind; [apply reads_maperr, reads_tpl_part|]. intros p Hp.
  eapply reads_bind; [apply reads_parts|]. intros r [Hl Hr]. apply reads_ret.
  unfold config_read, EBOX_PRIMARY, EBOX_RECOVERY in *. cbn [etc_type etc_n etc_m etc_parts].
  split_and!; [lia| |exact Hn|exact Hm|by constructor].
  rewrite zlen_cons. unfold zlen. rewrite Hl. lia.
Qed.

Lemma parses_reads {A} f (m : W A) Q : reads m Q 0 -> (forall e, bad_data (f e)) -> parses (cmaperr f m) Q.
Proof.
  intros Hm He b H. specialize (Hm b H). unfold wp, cmaperr in *.
  destruct (m b) as [[a|e| |] b']; try done. destruct Hm as (? & ? & ?). split; [split; [done|lia]|done].
Qed.
Lemma parses_configs n : parses (get_configs n) (fun cs => Forall config_read cs).
Proof.
  induction n as [|n IH]; cbn [get_configs]; [by apply parses_ret|].
  eapply parses_bind; [eapply parses_reads; [apply reads_tpl_config|intros; apply bad_boxderrf]|]. intros c Hc.
  eapply parses_bind; [exact IH|]. intros r Hr. apply parses_ret. by constructor.
Qed.

Lemma parses_tpl : parses sshbuf_get_ebox_tpl tpl_read.
Proof.
  assert (Hm : parses (cmaperr (fun rc => boxderrf (errf "MagicError" (Some (ssherrf rc)))) sshbuf_get_u8)
    is_byte).
  { intros b H. pose proof (parses_u8 b H) as Hp. unfold wp, sshget, cmaperr in *.
    destruct (sshbuf_get_u8 b) as [[a|e| |] b']; try done. }
  unfold sshbuf_get_ebox_tpl. eapply parses_bind; [exact Hm|]. intros m0 _.
  eapply parses_bind; [exact Hm|]. intros m1 _. apply parses_guard; [apply bad_boxderrf|]. intros _.
  eapply parses_bind; [apply parses_u8|]. intros ver _. eapply parses_bind; [apply parses_u8|]. intros ty _.
  apply parses_guard; [apply bad_boxverrf|]. intros Hv. apply parses_guard; [apply bad_boxderrf|]. intros _.
  eapply parses_bind; [apply parses_u8|]. intros n _.
  eapply parses_bind; [eapply parses_reads; [apply reads_tpl_config|intros; apply bad_boxderrf]|]. intros c Hc.
  eapply parses_bind; [apply parses_configs|]. intros r Hr. apply parses_ret.
  split_and!; cbn [et_version et_configs]; [lia|lia|done|by constructor].
Qed.

(** C23: reading a template from any bytes ends and returns: the tag loop of a part is
    bounded by the bytes left, nothing outside the input is read, no [VERIFY] fails. An
    error is an [InvalidDataError] or a [NotSupportedError]; a template that is returned has a known
    version and at least one configuration, every configuration has a known type and as many
    parts as it says (one if it says none), a primary one at most [n = 1], and
    every part has a validated key on a known curve and a 16-byte GUID. *)
Theorem ebox_tpl_read_safe input buf :
  bytes input -> sshbuf_from input = Some buf ->
  match fst (sshbuf_get_ebox_tpl buf) with
  | Ok t => tpl_read t
  | Er e => bad_data e
  | Panic | Fault => False
  end.
Proof.
  intros Hb Hf. destruct (sshbuf_from_ok _ _ Hb Hf) as [K _]. pose proof (parses_tpl buf K) as H. unfold wp in H.
  destruct (sshbuf_get_ebox_tpl buf) as [[t|e| |] b']; try done; apply H.
Qed.
End Laws.

(** ** Templates made through the operations *)

(** A configuration as the program makes it: allocated, parts added, [n] perhaps set. *)
Definition build_config (type : Z) (parts : list ebox_tpl_part) (n : option Z) : ebox_tpl_config :=
  let c := fold_left config_add_part parts (ebox_tpl_config_alloc type) in
  match n with None => c | Some n => snd (ebox_tpl_config_set_n n c) end.

Lemma fold_add_part parts c :
  let c' := fold_left config_add_part parts c in
  etc_type c' = etc_type c /\ etc_n c' = etc_n c /\ etc_parts c' = etc_parts c ++ parts /\
  (etc_m c = zlen (etc_parts c) -> zlen (etc_parts c ++ parts) <= 255 -> etc_m c' = zlen (etc_parts c ++ parts)).
Proof.
  revert c. induction parts as [|p ps IH]; intros c; cbn [fold_left]; [by rewrite app_nil_r|].
  destruct (IH (config_add_part c p)) as (H1 & H2 & H3 & H4). cbn [config_add_part etc_type etc_n etc_parts etc_m] in *.
  rewrite <- app_assoc in *. cbn [app] in *. split_and!; try done. intros Hm Hl. apply H4; [|done].
  rewrite zlen_app, zlen_cons in Hl. rewrite zlen_app. change (zlen [p]) with 1.
  pose proof (zlen_nonneg (etc_parts c)). pose proof (zlen_nonneg ps). rewrite wrap_small by lia. lia.
Qed.

(** Whatever is asked of [ebox_tpl_config_set_n], a configuration with 1 to 255 good parts
    is one the format can carry. *)
Lemma build_config_ok type parts n :
  type = EBOX_PRIMARY \/ type = EBOX_RECOVERY -> 1 <= zlen parts <= 255 -> Forall part_ok parts ->
  (forall k, n = Some k -> 0 <= k) ->
  config_ok (build_config type parts n).
Proof.
  intros Ht Hl Hp Hn. unfold build_config.
  destruct (fold_add_part parts (ebox_tpl_config_alloc type)) as (H1 & H2 & H3 & H4).
  set (c := fold_left config_add_part parts _) in *. cbn [ebox_tpl_config_alloc etc_type etc_n etc_parts etc_m app] in *.
  specialize (H4 eq_refl ltac:(lia)). unfold EBOX_PRIMARY, EBOX_RECOVERY in *.
  assert (config_ok c) as Hc.
  { constructor; unfold is_byte, EBOX_PRIMARY, EBOX_RECOVERY; rewrite ?H1, ?H2, ?H3; try done;
      destruct (Z.eqb_spec type 1); lia. }
  destruct n as [k|]; [|done]. specialize (Hn k eq_refl).
  unfold ebox_tpl_config_set_n, cbind, cget, guard.
  destruct (Z.eqb_spec k 0); cbn; [done|]. destruct (Z.ltb_spec (etc_m c) k); cbn; [done|].
  destruct (negb (negb (k =? 1) && (etc_type c =? EBOX_PRIMARY))) eqn:Hg; cbn; [|done].
  destruct Hc as [C1 C2 [C3 C4] C5]. constructor; cbn; try done; unfold EBOX_PRIMARY, EBOX_RECOVERY, is_byte in *;
    rewrite ?(wrap_small 8) by lia; lia.
Qed.

(** Cloning a template of public keys gives an equal one. *)
Lemma clone_tpl_eq t : Forall config_ok (et_configs t) -> ebox_tpl_clone t = t.
Proof.
  intros H. destruct t as [v cs]. unfold ebox_tpl_clone. cbn [et_version et_configs] in *. f_equal.
  induction H as [|c cs [_ _ _ Hp] _ IH]; [done|]. cbn [map]. f_equal; [|done].
  destruct c as [ty n m ps]. cbn [etc_type etc_n etc_m etc_parts] in *. f_equal.
  induction Hp as [|p ps [(k & Hk & nid & q & tn & -> & _) _ _ Hc _] _ IHp]; [done|]. cbn [map]. f_equal; [|done].
  destruct p as [nm pk cak sl g]. unfold clone_part. cbn [etp_name etp_pubkey etp_cak etp_slot etp_guid] in *.
  subst pk. cbn. f_equal. destruct cak as [k|]; [|done]. cbn. f_equal. by apply Hc.
Qed.
End Tpl.

(** * An instance *)

Module ToyBlobs.
#[global] Instance blobs : KeyBlobs := {
  sshkey_putb k := match k with
                   | EcKey nid p _ => if (0 <=? nid) && (nid <? 65536)
                                      then Ok (be_bytes 2 nid ++ [if p then 1 else 0])
                                      else Er SSH_ERR_INVALID_ARGUMENT
                   | OtherKey _ => Er SSH_ERR_INVALID_ARGUMENT
                   end;
  sshkey_fromb d := match d with
                    | [a; b; c] => Ok (EcKey (a * 256 + b) (c =? 1) None)
                    | _ => Er SSH_ERR_INVALID_FORMAT
                    end
}.
#[global] Instance blob_laws : KeyBlobLaws blobs.
Proof.
  constructor.
  - intros d _. cbn. by do 4 (destruct d as [|? d]; try done).
  - intros [nid p pr|ty] d _ H; cbn in H; [|done].
    destruct (Z.leb_spec 0 nid); [|done]. destruct (Z.ltb_spec nid 65536); [|done]. injection H as <-.
    split; [|split].
    + change (bytes (be_bytes 2 nid ++ [if p then 1 else 0])). apply Forall_app. split; [apply be_bytes_bytes|].
      apply Forall_singleton. unfold is_byte. destruct p; lia.
    + by vm_compute.
    + cbn. f_equal. replace (nid / 256 mod 256 * 256 + nid mod 256) with nid; [by destruct p|].
      pose proof (Z.div_mod nid 256). rewrite (Z.mod_small (nid / 256)); [lia|].
      split; [apply Z.div_pos; lia|apply Z.div_lt_upper_bound; lia].
Qed.
Definition part (slot : Z) (cak : bool) : ebox_tpl_part :=
  TplPart (Some (zs "token")) (Some (EcKey NID_X9_62_prime256v1 true None))
    (if cak then Some (EcKey NID_secp384r1 false None) else None) slot Toy.guid.
Definition tpl : ebox_tpl :=
  Tpl 1 [TplConfig EBOX_PRIMARY 1 1 [part PIV_SLOT_KEY_MGMT true];
         TplConfig EBOX_RECOVERY 2 2 [part 0x82 false; part 0x9e true]].
End ToyBlobs.

Lemma toy_part_ok slot cak :
  is_byte slot -> (cak = true -> cak_ok (EcKey NID_secp384r1 false None)) -> part_ok (ToyBlobs.part slot cak).
Proof.
  intros Hs Hc. constructor; cbn.
  - eexists. split; [reflexivity|]. by eexists _, _, _.
  - split; [apply bytesb_spec|]; reflexivity.
  - intros ? [= <-]. split_and!; [apply bytesb_spec; reflexivity|vm_compute; discriminate|reflexivity].
  - intros k Hk. destruct cak; [|done]. injection Hk as <-. by apply Hc.
  - done.
Qed.
Lemma toy_cak_ok : cak_ok (EcKey NID_secp384r1 false None).
Proof. split; [done|]. split; [done|]. eexists. reflexivity. Qed.
Lemma toy_tpl_ok : tpl_ok ToyBlobs.tpl.
Proof.
  constructor; [by vm_compute|by vm_compute|].
  apply Forall_cons_2; [|apply Forall_cons_2; [|apply Forall_nil_2]].
  - constructor; [by left|by vm_compute|by vm_compute|].
    apply Forall_singleton, toy_part_ok; [by vm_compute|intros; apply toy_cak_ok].
  - constructor; [by right|by vm_compute|by vm_compute|].
    apply Forall_cons_2; [|apply Forall_singleton]; apply toy_part_ok; first [by vm_compute | intros; apply toy_cak_ok].
Qed.

Lemma ebox_tpl_roundtrip_witness :
  exists b b', sshbuf_put_ebox_tpl ToyBlobs.tpl sshbuf_new = (Ok tt, b) /\
    sb_contents b = tpl_bytes ToyBlobs.tpl /\
    sshbuf_get_ebox_tpl b = (Ok ToyBlobs.tpl, b') /\ sb_contents b' = [].
Proof.
  apply (ebox_tpl_roundtrip ToyBlobs.tpl toy_tpl_ok). vm_compute. discriminate.
Defined.

(** A buffer over given bytes. *)
Definition buf_over (bs : list Z) : sshbuf := default sshbuf_init (sshbuf_from bs).

Lemma ebox_tpl_read_safe_witness :
  match fst (sshbuf_get_ebox_tpl (buf_over [0xEB; 0x0C; 1; 1; 1; 2; 3; 1; 0x85; 2; 7; 7; 0])) with
  | Ok t => tpl_read t
  | Er e => bad_data e
  | Panic | Fault => False
  end.
Proof.
  apply (ebox_tpl_read_safe [0xEB; 0x0C; 1; 1; 1; 2; 3; 1; 0x85; 2; 7; 7; 0]).
  - apply bytesb_spec. reflexivity.
  - reflexivity.
Defined.

(** ** Behaviours that differ from what the code means to do *)

Definition written (t : ebox_tpl) : list Z := sb_contents (snd (sshbuf_put_ebox_tpl t sshbuf_new)).

(** A configuration that lost a part through [ebox_tpl_config_remove_part] still counts it: the template
    is written without an error and cannot be read. *)
Lemma ebox_tpl_removed_part_unreadable :
  let t := Tpl 1 [TplConfig EBOX_RECOVERY 1 2 [ToyBlobs.part 0x82 false]] in
  fst (sshbuf_put_ebox_tpl t sshbuf_new) = Ok tt /\
  accepted (fst (sshbuf_get_ebox_tpl (buf_over (written t)))) = false.
Proof. split; vm_compute; reflexivity. Qed.

(** Half of the magic number is enough. *)
Lemma ebox_tpl_half_magic_accepted :
  accepted (fst (sshbuf_get_ebox_tpl (buf_over (0 :: drop 1 (written ToyBlobs.tpl))))) = true.
Proof. vm_compute. reflexivity. Qed.

(** A template without configurations, or a configuration without parts, is written without an
    error and cannot be read: the reader always wants the first. *)
Lemma ebox_tpl_empty_unreadable :
  let t := Tpl 1 [] in
  fst (sshbuf_put_ebox_tpl t sshbuf_new) = Ok tt /\
  accepted (fst (sshbuf_get_ebox_tpl (buf_over (written t)))) = false.
Proof. split; vm_compute; reflexivity. Qed.
