(* ===== verification/Ebox.v ===== *)
(** * Eboxes: data, creation, unlocking and recovery (ebox.c)

    An ebox protects a key for a template's configurations. A primary
    configuration has the key in a PIV box for each of its tokens; a recovery
    configuration has Shamir shares of a key that opens the recovery box, which
    holds the key and an optional token. Random bytes and generated
    keys are inputs ([randoms]). *)
From stdpp Require Import base list strings.
From Stdlib Require Import ZArith Lia.
From S2P Require Import Prelude Errf Sshbuf Algs Sss PivBox EboxTpl.

Local Open Scope string_scope.
Local Open Scope list_scope.
Local Open Scope Z_scope.
Local Open Scope c_scope.

Section Ebox.
Context {C : Crypto} {KB : KeyBlobs}.

(** ** Data *)

Definition EBOX_V1 : Z := 1.
Definition EBOX_V2 : Z := 2.
Definition EBOX_V3 : Z := 3.
Definition EBOX_VNEXT : Z := 4.
Definition EBOX_VMIN : Z := EBOX_V1.
Definition EBOX_RECOV_TOKEN : Z := 1.
Definition EBOX_RECOV_KEY : Z := 2.

(** Pointers with a length beside them are [option (list Z)], [None] for a null pointer. *)
Record ebox_part := EboxPart {
  ep_tpl : ebox_tpl_part;
  ep_box : piv_ecdh_box;
  ep_id : Z;
  ep_share : option (list Z)
}.
Record ebox_config := EboxConfig {
  ec_tpl : ebox_tpl_config;
  ec_parts : list ebox_part;
  ec_nonce : option (list Z)
}.
Record ebox := Ebox {
  e_version : Z;
  e_tpl : option ebox_tpl;
  e_configs : list ebox_config;
  e_type : Z;
  e_ephemkeys : list (Z * sshkey);
  e_key : option (list Z);
  e_rcv_cipher : option (list Z);
  e_rcv_key : option (list Z);
  e_rcv_iv : option (list Z);
  e_rcv_enc : option (list Z);
  e_rcv_plain : option (list Z);
  e_token : option (list Z)
}.

Definition with_rcv (b : ebox) (key iv enc plain : option (list Z)) : ebox :=
  Ebox (e_version b) (e_tpl b) (e_configs b) (e_type b) (e_ephemkeys b) (e_key b) (e_rcv_cipher b)
    key iv enc plain (e_token b).
Definition with_key (b : ebox) (key : option (list Z)) : ebox :=
  Ebox (e_version b) (e_tpl b) (e_configs b) (e_type b) (e_ephemkeys b) key (e_rcv_cipher b)
    (e_rcv_key b) (e_rcv_iv b) (e_rcv_enc b) (e_rcv_plain b) (e_token b).
Definition with_token (b : ebox) (token : option (list Z)) : ebox :=
  Ebox (e_version b) (e_tpl b) (e_configs b) (e_type b) (e_ephemkeys b) (e_key b) (e_rcv_cipher b)
    (e_rcv_key b) (e_rcv_iv b) (e_rcv_enc b) (e_rcv_plain b) token.

(** ** Ephemeral keys: one per curve *)

Fixpoint ebox_get_ephem_for_nid (eeks : list (Z * sshkey)) (nid : Z) : option sshkey :=
  match eeks with
  | [] => None
  | (n, k) :: r => if n =? nid then Some k else ebox_get_ephem_for_nid r nid
  end.

(** [gen nid] is what [sshkey_generate] makes for the curve. *)
Definition ebox_make_ephem_for_nid (gen : Z -> res Z sshkey) (nid : Z)
    : M errf_t (list (Z * sshkey)) sshkey :=
  let! eeks := cget in
  match ebox_get_ephem_for_nid eeks nid with
  | Some k => cret k
  | None =>
      match gen nid with
      | Ok k => cput ((nid, k) :: eeks) ;! cret k
      | Fault => cfault
      | _ => cpanic
      end
  end.

(** ** The recovery box *)

Definition InvalidPadding : errf_t := errf "InvalidPadding" None.
Definition LengthError : errf_t := errf "LengthError" None.

(** [VERIFY(p != NULL)] *)
Definition verify_ptr {S} (p : option (list Z)) : M errf_t S (list Z) :=
  match p with Some d => cret d | None => cpanic end.

(** Padding checked as [ebox_decrypt_recovery] does; the length without it. *)
Definition rcv_unpad (blocksz : Z) (plain : list Z) : res errf_t Z :=
  let plainlen := zlen plain in
  match zget plain (plainlen - 1) with
  | None => Fault
  | Some padding =>
      if (blocksz <? padding) || (padding =? 0) then Er InvalidPadding
      else
        let reallen := usize (plainlen - padding) in
        if forallb (fun b => b =? padding) (drop (Z.to_nat reallen) plain)
        then Ok reallen else Er InvalidPadding
  end.

Definition ebox_decrypt_recovery : M errf_t ebox unit :=
  let! box := cget in
  match cipher_by_name (default [] (e_rcv_cipher box)) with
  | None => craise BadAlgorithmError
  | Some cipher =>
      verify (0 <? cipher_authlen cipher) ;!
      let! iv := verify_ptr (e_rcv_iv box) in
      guard (negb (zlen iv <? cipher_ivlen cipher)) LengthError ;!
      let! key := verify_ptr (e_rcv_key box) in
      guard (negb (zlen key <? cipher_keylen cipher)) LengthError ;!
      let! enc := verify_ptr (e_rcv_enc box) in
      guard (negb (zlen enc <? cipher_blocksize cipher + cipher_authlen cipher)) LengthError ;!
      let! plain := lift (match aead_dec cipher (take (Z.to_nat (cipher_keylen cipher)) key)
                                  (take (Z.to_nat (cipher_ivlen cipher)) iv) enc with
                          | Ok p => Ok p
                          | Er rc => Er (ssherrf rc)
                          | Panic => Panic
                          | Fault => Fault
                          end) in
      let! reallen := lift (rcv_unpad (cipher_blocksize cipher) plain) in
      cput (with_rcv box (e_rcv_key box) (e_rcv_iv box) (e_rcv_enc box)
              (Some (take (Z.to_nat reallen) plain)))
  end.

(** [iv n] and [key n] are [n] random bytes. *)
Definition ebox_encrypt_recovery (iv key : Z -> list Z) : M errf_t ebox unit :=
  let! box := cget in
  match cipher_by_name (default [] (e_rcv_cipher box)) with
  | None => cpanic
  | Some cipher =>
      verify (0 <? cipher_authlen cipher) ;!
      let blocksz := cipher_blocksize cipher in
      let plain := default [] (e_rcv_plain box) in
      let padding := blocksz - zlen plain mod blocksz in
      verify ((padding <=? blocksz) && (0 <? padding)) ;!
      let iv := iv (cipher_ivlen cipher) in
      let key := key (cipher_keylen cipher) in
      let enc := aead_enc cipher key iv (plain ++ zrepeat padding padding) in
      cput (with_rcv box (Some key) (Some iv) (Some enc) None)
  end.

(** ** Creation *)

Record randoms := Randoms {
  r_rcv_iv : Z -> list Z;
  r_rcv_key : Z -> list Z;
  r_nonce : nat -> Z -> list Z;              (* per configuration *)
  r_poly : nat -> list (slice Z);            (* per configuration: the sharing coefficients *)
  r_box_nonce : nat -> nat -> Z -> list Z;   (* per configuration and part *)
  r_box_iv : nat -> nat -> Z -> list Z;
  r_gen : Z -> res Z sshkey                  (* per curve *)
}.

Definition xor_bytes (a b : list Z) : list Z := map (fun p => Z.lxor (fst p) (snd p)) (combine a b).

(** The contents of the recovery box: an optional token and the key. *)
Definition recovery_data (key : list Z) (token : option (list Z)) : res errf_t (list Z) :=
  match (match token with
         | None => cret tt
         | Some t => verify0 (sshbuf_put_u8 EBOX_RECOV_TOKEN) ;! verify0 (sshbuf_put_string8 t)
         end ;!
         verify0 (sshbuf_put_u8 EBOX_RECOV_KEY) ;! verify0 (sshbuf_put_string8 key) ;!
         let! plainlen := verify0 sshbuf_len in
         verify0 (sshbuf_get plainlen)) sshbuf_new with
  | (r, _) => r
  end.

Abbreviation EM := (M errf_t (list (Z * sshkey))).

(** The part for [tpart], the [i]th of its configuration, holding [data]. *)
Definition create_part (rnd : randoms) (ci : nat) (i : nat) (tpart : ebox_tpl_part) (data : list Z)
    : EM ebox_part :=
  match etp_pubkey tpart with
  | None => cfault
  | Some (OtherKey _) => cpanic
  | Some (EcKey nid pub priv as pubkey) =>
      let! ephem := ebox_make_ephem_for_nid (r_gen rnd) nid in
      let pbox := Box (pdb_version piv_box_new) true (etp_guid tpart) (etp_slot tpart) None None false
                    None None null_buf null_buf null_buf (whole_buf data) (Some ephem) in
      match piv_box_seal_offline pubkey (Er 0) (r_box_nonce rnd ci i) (r_box_iv rnd ci i) pbox with
      | (Ok _, pbox) => cret (EboxPart (clone_part tpart) pbox (u8 (Z.of_nat i + 1)) None)
      | (Fault, _) => cfault
      | _ => cpanic
      end
  end.

(** [shares] for a recovery configuration, the key itself otherwise. *)
Fixpoint create_parts (rnd : randoms) (ci i : nat) (shares : option (list sss_Keyshare)) (key : list Z)
    (tparts : list ebox_tpl_part) : EM (list ebox_part) :=
  match tparts with
  | [] => cret []
  | tpart :: r =>
      let! data := lift (match shares with
                         | None => Ok key
                         | Some ss => match zget ss (u8 (Z.of_nat i + 1) - 1) with
                                      | Some s => Ok s
                                      | None => Fault
                                      end
                         end) in
      let! p := create_part rnd ci i tpart data in
      let! ps := create_parts rnd ci (S i) shares key r in
      cret (p :: ps)
  end.

Definition create_config (rnd : randoms) (rcv_key key : list Z) (ci : nat) (tconfig : ebox_tpl_config)
    : EM ebox_config :=
  let tpl := TplConfig (etc_type tconfig) (etc_n tconfig) (etc_m tconfig) [] in
  if etc_type tconfig =? EBOX_RECOVERY then
    verify (zlen rcv_key =? 32) ;!
    let nonce := r_nonce rnd ci (zlen rcv_key) in
    let configkey := xor_bytes nonce rcv_key in
    match sss_create_keyshares configkey (Z.to_nat (etc_m tconfig)) (Z.to_nat (etc_n tconfig))
            (r_poly rnd ci) with
    | None => cpanic
    | Some shares =>
        let! parts := create_parts rnd ci 0 (Some shares) key (etc_parts tconfig) in
        cret (EboxConfig tpl parts (Some nonce))
    end
  else
    let! parts := create_parts rnd ci 0 None key (etc_parts tconfig) in
    cret (EboxConfig tpl parts None).

Fixpoint create_configs (rnd : randoms) (rcv_key key : list Z) (ci : nat)
    (tconfigs : list ebox_tpl_config) : EM (list ebox_config) :=
  match tconfigs with
  | [] => cret []
  | tc :: r =>
      let! c := create_config rnd rcv_key key ci tc in
      let! cs := create_configs rnd rcv_key key (S ci) r in
      cret (c :: cs)
  end.

Definition ebox_create (rnd : randoms) (tpl : ebox_tpl) (key : list Z) (token : option (list Z))
    : res errf_t ebox :=
  match recovery_data key token with
  | Ok plain =>
      let box := Ebox (EBOX_VNEXT - 1) None [] EBOX_KEY [] None (Some (zs "aes256-gcm"))
                   None None None (Some plain) None in
      match ebox_encrypt_recovery (r_rcv_iv rnd) (r_rcv_key rnd) box with
      | (Ok _, box) =>
          match create_configs rnd (default [] (e_rcv_key box)) key 0 (et_configs tpl) [] with
          | (Ok cs, eeks) =>
              Ok (Ebox (e_version box) (e_tpl box) cs (e_type box) eeks (e_key box) (e_rcv_cipher box)
                    (e_rcv_key box) (e_rcv_iv box) (e_rcv_enc box) (e_rcv_plain box) (e_token box))
          | (Er e, _) => Er e
          | (Panic, _) => Panic
          | (Fault, _) => Fault
          end
      | (Er e, _) => Er e
      | (Panic, _) => Panic
      | (Fault, _) => Fault
      end
  | Er e => Er e
  | Panic => Panic
  | Fault => Fault
  end.

(** ** Unlocking *)

Definition InsufficientParts : errf_t := errf "InsufficientParts" None.

(** The loop over the parts: the key is taken from the first open box that holds anything. *)
Fixpoint ebox_unlock_loop (parts : list ebox_part) : res errf_t (list Z) * list ebox_part :=
  match parts with
  | [] => (Er InsufficientParts, [])
  | p :: r =>
      if no_plain (ep_box p) || (b_len (pdb_plain (ep_box p)) <? 1) then
        let (k, r') := ebox_unlock_loop r in (k, p :: r')
      else
        let (k, box) := piv_box_take_data (ep_box p) in
        (k, EboxPart (ep_tpl p) box (ep_id p) (ep_share p) :: r)
  end.

(** On the ebox and one of its configurations. *)
Definition ebox_unlock : M errf_t (ebox * ebox_config) unit :=
  fun s =>
    let (box, config) := s in
    let (k, parts) := ebox_unlock_loop (ec_parts config) in
    let config := EboxConfig (ec_tpl config) parts (ec_nonce config) in
    match k with
    | Ok key => (Ok tt, (with_key box (Some key), config))
    | Er e => (Er e, (box, config))
    | Panic => (Panic, (box, config))
    | Fault => (Fault, (box, config))
    end.

(** ** Recovery *)

Definition AlreadyUnlocked : errf_t := errf "AlreadyUnlocked" None.
Definition RecoveryFailed (cause : errf_t) : errf_t := errf "RecoveryFailed" (Some cause).

(** The shares available, in the order of the parts; the array has room for [m]. *)
Fixpoint collect_shares (m : nat) (parts : list ebox_part) (acc : list sss_Keyshare)
    : res errf_t (list sss_Keyshare) :=
  match parts with
  | [] => Ok acc
  | p :: r =>
      match ep_share p with
      | Some ((_ :: _) as s) =>
          if negb (zlen s =? 33) then Panic
          else if (length acc <? m)%nat then collect_shares m r (acc ++ [s]) else Fault
      | _ =>
          if piv_box_sealed (ep_box p) then collect_shares m r acc
          else
            let b := pdb_plain (ep_box p) in
            if negb (b_len b =? 33) then Panic
            else match fst (buf_read b tt) with
                 | Ok s => if (length acc <? m)%nat then collect_shares m r (acc ++ [s]) else Fault
                 | _ => Fault
                 end
      end
  end.

Definition present (p : option (list Z)) : bool := match p with Some _ => true | None => false end.

(** What a successful recovery wipes. *)
Definition wipe_part (p : ebox_part) : ebox_part :=
  EboxPart (ep_tpl p)
    (if piv_box_sealed (ep_box p) then ep_box p
     else set_plain (ep_box p) (Apdubuf None (b_offset (pdb_plain (ep_box p))) 0 0))
    (ep_id p) None.

(** Reading the opened recovery box: the token goes into the ebox before the key is read. *)
Definition read_recovery (plain : list Z) : M errf_t ebox unit :=
  match sshbuf_from plain with
  | None => cpanic
  | Some buf =>
      fun box =>
        match sshput sshbuf_get_u8 buf with
        | (Ok tag, buf) =>
            let rest (tag : Z) (buf : sshbuf) (box : ebox) : res errf_t unit * ebox :=
              if tag =? EBOX_RECOV_KEY then
                match sshput sshbuf_get_string8_conceal buf with
                | (Ok key, _) => (Ok tt, with_key box (Some key))
                | (Er e, _) => (Er e, box)
                | (Panic, _) => (Panic, box)
                | (Fault, _) => (Fault, box)
                end
              else (Er (RecoveryFailed (errf "InvalidTagError" None)), box) in
            if tag =? EBOX_RECOV_TOKEN then
              match sshput sshbuf_get_string8 buf with
              | (Ok token, buf) =>
                  let box := with_token box (Some token) in
                  match sshput sshbuf_get_u8 buf with
                  | (Ok tag, buf) => rest tag buf box
                  | (Er e, _) => (Er e, box)
                  | (Panic, _) => (Panic, box)
                  | (Fault, _) => (Fault, box)
                  end
              | (Er e, _) => (Er e, box)
              | (Panic, _) => (Panic, box)
              | (Fault, _) => (Fault, box)
              end
            else rest tag buf box
        | (Er e, _) => (Er e, box)
        | (Panic, _) => (Panic, box)
        | (Fault, _) => (Fault, box)
        end
  end.

Definition ebox_recover_key (config : ebox_config) : M errf_t ebox unit :=
  let tconfig := ec_tpl config in
  let! ebox := cget in
  guard (negb (present (e_key ebox))) AlreadyUnlocked ;!
  guard (negb (present (e_token ebox))) AlreadyUnlocked ;!
  guard (negb (present (e_rcv_key ebox))) AlreadyUnlocked ;!
  let n := etc_n tconfig in
  let! shares := lift (collect_shares (Z.to_nat (etc_m tconfig)) (ec_parts config) []) in
  guard (negb (zlen shares <? n)) InsufficientParts ;!
  let configkey := sss_combine_keyshares shares (Z.to_nat n) in
  let nonce := default [] (ec_nonce config) in
  let put_key k := cput (with_rcv ebox (Some k) (e_rcv_iv ebox) (e_rcv_enc ebox) (e_rcv_plain ebox)) in
  (if 0 <? zlen nonce then
     (if zlen nonce <? 32 then
        (* the key buffer is freed here and its pointer kept *)
        put_key (zrepeat 32 0) ;! craise (RecoveryFailed (errf "BadConfigNonce" None))
      else
        verify (zlen nonce =? 32) ;!
        put_key (xor_bytes configkey nonce))
   else put_key configkey) ;!
  cmaperr RecoveryFailed ebox_decrypt_recovery ;!
  let! ebox := cget in
  read_recovery (default [] (e_rcv_plain ebox)).

Definition ebox_recover : M errf_t (ebox * ebox_config) unit :=
  fun s =>
    let (box, config) := s in
    match ebox_recover_key config box with
    | (Ok _, box) =>
        (Ok tt, (box, EboxConfig (ec_tpl config) (map wipe_part (ec_parts config)) (ec_nonce config)))
    | (Er e, box) => (Er e, (box, config))
    | (Panic, box) => (Panic, (box, config))
    | (Fault, box) => (Fault, (box, config))
    end.
End Ebox.
