(* ===== verification/EboxWire.v ===== *)
(** * The wire format of eboxes (ebox.c)

    Reading and writing of eboxes in the versions the code knows. From version 2
    on the boxes of the parts share the ebox's ephemeral keys, one per curve;
    from version 3 on a recovery configuration carries a nonce. *)
From stdpp Require Import base list strings.
From Stdlib Require Import ZArith Lia.
From S2P Require Import Prelude Errf Sshbuf Algs PivBox EboxTpl Ebox.

Local Open Scope string_scope.
Local Open Scope list_scope.
Local Open Scope Z_scope.
Local Open Scope c_scope.

Section Wire.
Context {C : Crypto} {KB : KeyBlobs}.

Abbreviation W := (M errf_t sshbuf).

(** ** Reading *)

(** What the tag loop of a part has collected. *)
Record epart_acc := EAcc { ea_part : ebox_tpl_part; ea_slot : Z; ea_guid : bool; ea_box : option piv_ecdh_box }.
Definition eacc_init : epart_acc := EAcc (TplPart None None None 0 (zrepeat 16 0)) PIV_SLOT_KEY_MGMT false None.

(** The box of a part from version 2 on: the ephemeral key is found in [eeks]. *)
Definition get_part_box (eeks : list (Z * sshkey)) : W piv_ecdh_box :=
  let! cipher := sshput sshbuf_get_cstring8 in
  let! kdf := sshput sshbuf_get_cstring8 in
  let! nonce := sshput sshbuf_get_string8 in
  let! tname := sshput sshbuf_get_cstring8 in
  let nid := sshkey_curve_name_to_nid (c_str tname) in
  guard (negb (nid =? -1)) CurveError ;!
  let! p := sshput (sshbuf_get_eckey8 nid) in
  guard (ec_validate nid p =? 0) (ssherrf (ec_validate nid p)) ;!
  match ebox_get_ephem_for_nid eeks nid with
  | None => craise CurveError
  | Some ephk =>
      let! iv := sshput sshbuf_get_string8 in
      let! enc := sshput sshbuf_get_string in
      cret (Box (pdb_version piv_box_new) true (zrepeat 16 0) PIV_SLOT_KEY_MGMT
              (Some (sshkey_demote ephk)) (Some (EcKey nid p None)) true
              (Some (c_str cipher)) (Some (c_str kdf)) (whole_buf nonce) (whole_buf iv) (whole_buf enc)
              null_buf None)
  end.

Definition get_epart_tag (ver : Z) (eeks : list (Z * sshkey)) (tag : Z) (a : epart_acc) : W epart_acc :=
  let p := ea_part a in
  let t := Z.land tag (Z.lnot EBOX_PART_OPTIONAL_FLAG) in
  let upd p' := EAcc p' (ea_slot a) (ea_guid a) (ea_box a) in
  if t =? EBOX_PART_PUBKEY then
    let! k := get_part_pubkey in
    cret (upd (TplPart (etp_name p) (Some k) (etp_cak p) (etp_slot p) (etp_guid p)))
  else if t =? EBOX_PART_CAK then
    let! k := get_key_blob in
    cret (upd (TplPart (etp_name p) (etp_pubkey p) (Some k) (etp_slot p) (etp_guid p)))
  else if t =? EBOX_PART_NAME then
    let! s := sshput sshbuf_get_cstring8 in
    cret (upd (TplPart (Some (c_str s)) (etp_pubkey p) (etp_cak p) (etp_slot p) (etp_guid p)))
  else if t =? EBOX_PART_SLOT then
    let! s := sshput sshbuf_get_u8 in
    cret (EAcc p s (ea_guid a) (ea_box a))
  else if t =? EBOX_PART_GUID then
    let! g := sshput sshbuf_get_string8 in
    guard (zlen g =? 16) LengthError ;!
    cret (EAcc (TplPart (etp_name p) (etp_pubkey p) (etp_cak p) (etp_slot p) g) (ea_slot a) true (ea_box a))
  else if t =? EBOX_PART_BOX then
    let! b := (if ver <? EBOX_V2 then sshbuf_get_piv_box else get_part_box eeks) in
    cret (EAcc p (ea_slot a) (ea_guid a) (Some b))
  else if negb (Z.land tag EBOX_PART_OPTIONAL_FLAG =? 0) then
    sshput sshbuf_get_string8_direct ;! cret a
  else craise (errf "TagError" None).

Definition set_slot_guid (b : piv_ecdh_box) (slot : Z) (guid : list Z) : piv_ecdh_box :=
  Box (pdb_version b) (pdb_guidslot_valid b) guid slot (pdb_ephem_pub b) (pdb_pub b)
    (pdb_free_str b) (pdb_cipher b) (pdb_kdf b) (pdb_nonce b) (pdb_iv b) (pdb_enc b) (pdb_plain b)
    (pdb_ephem b).

Definition MissingTagError : errf_t := errf "MissingTagError" None.

(** [id] is filled in by the caller. *)
Definition sshbuf_get_ebox_part (ver : Z) (eeks : list (Z * sshkey)) (id : Z) : W ebox_part :=
  let! a := get_part_tags (get_epart_tag ver eeks) eacc_init in
  let p := ea_part a in
  match ea_box a with
  | None => craise MissingTagError
  | Some box =>
      guard (ea_guid a) MissingTagError ;!
      let box := set_slot_guid box (ea_slot a) (etp_guid p) in
      let! pubkey := (match etp_pubkey p, pdb_pub box with
                      | Some k, _ => cret (Some k)
                      | None, Some k => cret (Some (sshkey_demote k))
                      | None, None => cfault
                      end) in
      guard (sshkey_equal_public pubkey (pdb_pub box)) (errf "KeyMismatchError" None) ;!
      cret (EboxPart (TplPart (etp_name p) pubkey (etp_cak p) (ea_slot a) (etp_guid p)) box id None)
  end.

(** [n] more parts, numbered from [id]. *)
Fixpoint get_eparts (ver : Z) (eeks : list (Z * sshkey)) (id : Z) (n : nat) : W (list ebox_part) :=
  match n with
  | O => cret []
  | S k => let! p := sshbuf_get_ebox_part ver eeks (u8 id) in
           let! r := get_eparts ver eeks (id + 1) k in cret (p :: r)
  end.

Definition InvalidConfig : errf_t := errf "InvalidConfig" None.

Definition sshbuf_get_ebox_config (ver : Z) (eeks : list (Z * sshkey)) : W ebox_config :=
  let! type := sshput sshbuf_get_u8 in
  let! n := sshput sshbuf_get_u8 in
  let! m := sshput sshbuf_get_u8 in
  guard ((type =? EBOX_PRIMARY) || (type =? EBOX_RECOVERY)) (errf "UnknownConfigType" None) ;!
  let! nonce := (if EBOX_V3 <=? ver then
                   let! d := sshput sshbuf_get_string8 in
                   guard (negb ((0 <? zlen d) && negb (type =? EBOX_RECOVERY))) InvalidConfig ;!
                   cret (Some d)
                 else cret None) in
  guard (negb ((type =? EBOX_PRIMARY) && (1 <? n))) InvalidConfig ;!
  let! p := sshbuf_get_ebox_part ver eeks 1 in
  let! r := get_eparts ver eeks 2 (Z.to_nat (m - 1)) in
  cret (EboxConfig (TplConfig type n m (map ep_tpl (p :: r))) (p :: r) nonce).

Definition get_econfig_err (ver : Z) (eeks : list (Z * sshkey)) : W ebox_config :=
  cmaperr boxderrf (sshbuf_get_ebox_config ver eeks).
Fixpoint get_econfigs (ver : Z) (eeks : list (Z * sshkey)) (n : nat) : W (list ebox_config) :=
  match n with
  | O => cret []
  | S k => let! c := get_econfig_err ver eeks in
           let! r := get_econfigs ver eeks k in cret (c :: r)
  end.

Definition sshbuf_get_ebox_ephem_key : W (Z * sshkey) :=
  let! tname := sshput sshbuf_get_cstring8 in
  let nid := sshkey_curve_name_to_nid (c_str tname) in
  guard (negb (nid =? -1)) CurveError ;!
  let! p := sshput (sshbuf_get_eckey8 nid) in
  guard (ec_validate nid p =? 0) (ssherrf (ec_validate nid p)) ;!
  cret (nid, EcKey nid p None).

(** [n] ephemeral keys, each put in front of those read before. *)
Fixpoint get_ephem_keys (n : nat) (eeks : list (Z * sshkey)) : W (list (Z * sshkey)) :=
  match n with
  | O => cret eeks
  | S k => let! eek := cmaperr boxderrf sshbuf_get_ebox_ephem_key in get_ephem_keys k (eek :: eeks)
  end.

Definition sshbuf_get_ebox : W ebox :=
  let merr := cmaperr (fun rc => boxderrf (errf "MagicError" (Some (ssherrf rc)))) in
  let! magic0 := merr sshbuf_get_u8 in
  let! magic1 := merr sshbuf_get_u8 in
  guard (negb (negb (magic0 =? 0xEB) && negb (magic1 =? 0x0C))) (boxderrf MagicError) ;!
  let! ver := sshget sshbuf_get_u8 in
  let! type := sshget sshbuf_get_u8 in
  guard (negb ((ver <? EBOX_VMIN) || (EBOX_VNEXT <=? ver))) (boxverrf VersionError) ;!
  guard (negb (negb (type =? EBOX_KEY) && negb (type =? EBOX_STREAM))) (boxderrf EboxTypeError) ;!
  let! cipher := sshget sshbuf_get_cstring8 in
  let! iv := sshget sshbuf_get_string8 in
  let! enc := sshget sshbuf_get_string8 in
  let! eeks := (if EBOX_V2 <=? ver then
                  let! neeks := sshget sshbuf_get_u8 in get_ephem_keys (Z.to_nat neeks) []
                else cret []) in
  let! nconfigs := sshget sshbuf_get_u8 in
  let! c := get_econfig_err ver eeks in
  let! r := get_econfigs ver eeks (Z.to_nat (nconfigs - 1)) in
  cret (Ebox ver (Some (Tpl (EBOX_TPL_VNEXT - 1) (map ec_tpl (c :: r)))) (c :: r) type eeks None
          (Some (c_str cipher)) None (Some iv) (Some enc) None None).

(** ** Writing *)

Definition put_part_box (eeks : list (Z * sshkey)) (box : piv_ecdh_box) : W unit :=
  sshput (sshbuf_put_cstring8 (pdb_cipher box)) ;!
  sshput (sshbuf_put_cstring8 (pdb_kdf box)) ;!
  let! nonce := buf_raw (pdb_nonce box) in
  sshput (sshbuf_put_string8 nonce) ;!
  match pdb_pub box with
  | None => cfault
  | Some (OtherKey _) => cpanic
  | Some (EcKey nid pub _) =>
      verify (sshkey_equal_public (ebox_get_ephem_for_nid eeks nid) (pdb_ephem_pub box)) ;!
      verify (PIV_BOX_V2 <=? pdb_version box) ;!
      match sshkey_curve_nid_to_name nid with
      | None => cpanic
      | Some tname =>
          sshput (sshbuf_put_cstring8 (Some tname)) ;!
          sshput (sshbuf_put_eckey8 nid pub) ;!
          let! iv := buf_raw (pdb_iv box) in
          sshput (sshbuf_put_string8 iv) ;!
          let! enc := buf_raw (pdb_enc box) in
          sshput (sshbuf_put_string enc)
      end
  end.

Definition sshbuf_put_ebox_part (ver : Z) (eeks : list (Z * sshkey)) (part : ebox_part) : W unit :=
  let tpart := ep_tpl part in
  sshput (sshbuf_put_u8 EBOX_PART_GUID) ;!
  sshput (sshbuf_put_string8 (etp_guid tpart)) ;!
  match etp_name tpart with
  | None => cret tt
  | Some name => sshput (sshbuf_put_u8 EBOX_PART_NAME) ;! sshput (sshbuf_put_cstring8 (Some name))
  end ;!
  match etp_cak tpart with
  | None => cret tt
  | Some cak => put_cak cak
  end ;!
  (if etp_slot tpart =? PIV_SLOT_KEY_MGMT then cret tt
   else sshput (sshbuf_put_u8 EBOX_PART_SLOT) ;! sshput (sshbuf_put_u8 (etp_slot tpart))) ;!
  sshput (sshbuf_put_u8 EBOX_PART_BOX) ;!
  (if EBOX_V2 <=? ver then put_part_box eeks (ep_box part) else sshbuf_put_piv_box (ep_box part)) ;!
  sshput (sshbuf_put_u8 EBOX_PART_END).

Fixpoint put_eparts (ver : Z) (eeks : list (Z * sshkey)) (parts : list ebox_part) : W unit :=
  match parts with
  | [] => cret tt
  | p :: r => sshbuf_put_ebox_part ver eeks p ;! put_eparts ver eeks r
  end.

Definition sshbuf_put_ebox_config (ver : Z) (eeks : list (Z * sshkey)) (config : ebox_config) : W unit :=
  let tconfig := ec_tpl config in
  sshput (sshbuf_put_u8 (etc_type tconfig)) ;!
  sshput (sshbuf_put_u8 (etc_n tconfig)) ;!
  sshput (sshbuf_put_u8 (etc_m tconfig)) ;!
  (if 0 <? zlen (default [] (ec_nonce config)) then
     verify (EBOX_V3 <=? ver) ;!
     verify (etc_type tconfig =? EBOX_RECOVERY) ;!
     sshput (sshbuf_put_string8 (default [] (ec_nonce config)))
   else sshput (sshbuf_put_u8 0)) ;!
  put_eparts ver eeks (ec_parts config).

Fixpoint put_econfigs (ver : Z) (eeks : list (Z * sshkey)) (configs : list ebox_config) : W unit :=
  match configs with
  | [] => cret tt
  | c :: r => sshbuf_put_ebox_config ver eeks c ;! put_econfigs ver eeks r
  end.

Definition sshbuf_put_ebox_ephem_key (eek : Z * sshkey) : W unit :=
  sshput (sshbuf_put_cstring8 (sshkey_curve_nid_to_name (fst eek))) ;!
  match snd eek with
  | EcKey nid p _ => sshput (sshbuf_put_eckey8 nid p)
  | OtherKey _ => cfault
  end.
Fixpoint put_ephem_keys (eeks : list (Z * sshkey)) : W unit :=
  match eeks with
  | [] => cret tt
  | e :: r => sshbuf_put_ebox_ephem_key e ;! put_ephem_keys r
  end.

Definition sshbuf_put_ebox (box : ebox) : W unit :=
  let ver := e_version box in
  let eeks := e_ephemkeys box in
  sshput (sshbuf_put_u8 0xEB) ;!
  sshput (sshbuf_put_u8 0x0C) ;!
  sshput (sshbuf_put_u8 ver) ;!
  sshput (sshbuf_put_u8 (e_type box)) ;!
  sshput (sshbuf_put_cstring8 (e_rcv_cipher box)) ;!
  sshput (sshbuf_put_string8 (default [] (e_rcv_iv box))) ;!
  sshput (sshbuf_put_string8 (default [] (e_rcv_enc box))) ;!
  (if EBOX_V2 <=? ver then
     sshput (sshbuf_put_u8 (u8 (zlen eeks))) ;! put_ephem_keys eeks
   else cret tt) ;!
  sshput (sshbuf_put_u8 (u8 (zlen (e_configs box)))) ;!
  put_econfigs ver eeks (e_configs box).

(** * The format as data (version 3) *)

Record part_wire := PW {
  pw_name : option (list Z);
  pw_cak : option sshkey;
  pw_slot : Z;
  pw_guid : list Z;
  pw_nid : Z;
  pw_pub : point;
  pw_ephem : point;
  pw_cipher : list Z;
  pw_kdf : list Z;
  pw_nonce : list Z;
  pw_iv : list Z;
  pw_enc : list Z
}.
Record config_wire := CW { cw_type : Z; cw_n : Z; cw_nonce : list Z; cw_parts : list part_wire }.
Record ebox_wire := EW {
  ew_type : Z;
  ew_cipher : list Z;
  ew_iv : list Z;
  ew_enc : list Z;
  ew_eeks : list (Z * point);
  ew_configs : list config_wire
}.

(** ** What is read *)

Definition part_box_of_wire (w : part_wire) : piv_ecdh_box :=
  Box 2 true (pw_guid w) (pw_slot w) (Some (EcKey (pw_nid w) (pw_ephem w) None))
    (Some (EcKey (pw_nid w) (pw_pub w) None)) true (Some (pw_cipher w)) (Some (pw_kdf w))
    (whole_buf (pw_nonce w)) (whole_buf (pw_iv w)) (whole_buf (pw_enc w)) null_buf None.
Definition part_of_wire (id : Z) (w : part_wire) : ebox_part :=
  EboxPart (TplPart (pw_name w) (Some (EcKey (pw_nid w) (pw_pub w) None)) (pw_cak w) (pw_slot w) (pw_guid w))
    (part_box_of_wire w) id None.
Fixpoint parts_of_wire (id : Z) (ws : list part_wire) : list ebox_part :=
  match ws with [] => [] | w :: r => part_of_wire (u8 id) w :: parts_of_wire (id + 1) r end.
Definition config_of_wire (c : config_wire) : ebox_config :=
  let ps := parts_of_wire 1 (cw_parts c) in
  EboxConfig (TplConfig (cw_type c) (cw_n c) (zlen (cw_parts c)) (map ep_tpl ps)) ps (Some (cw_nonce c)).
Definition eek_of_wire (e : Z * point) : Z * sshkey := (fst e, EcKey (fst e) (snd e) None).
Definition ebox_of_wire (w : ebox_wire) : ebox :=
  let cs := map config_of_wire (ew_configs w) in
  Ebox EBOX_V3 (Some (Tpl (EBOX_TPL_VNEXT - 1) (map ec_tpl cs))) cs (ew_type w)
    (rev (map eek_of_wire (ew_eeks w))) None (Some (ew_cipher w)) None (Some (ew_iv w)) (Some (ew_enc w))
    None None.

(** ** What is written *)

Definition pw_tpl (w : part_wire) : ebox_tpl_part :=
  TplPart (pw_name w) None (pw_cak w) (pw_slot w) (pw_guid w).
Definition curve_of (nid : Z) : list Z := default [] (sshkey_curve_nid_to_name nid).
Definition pw_body (w : part_wire) : list Z :=
  str8 (pw_cipher w) ++ str8 (pw_kdf w) ++ str8 (pw_nonce w) ++ str8 (curve_of (pw_nid w)) ++
  str8 (ec_point2oct (pw_nid w) (pw_pub w)) ++ str8 (pw_iv w) ++ str32 (pw_enc w).
Definition pw_fields (w : part_wire) : list (Z * list Z) :=
  [(EBOX_PART_GUID, str8 (pw_guid w))] ++ name_field (pw_tpl w) ++ cak_field (pw_tpl w) ++
  slot_field (pw_tpl w) ++ [(EBOX_PART_BOX, pw_body w)].
Definition pw_bytes (w : part_wire) : list Z := fields_bytes (pw_fields w) ++ be_bytes 1 EBOX_PART_END.
Definition cw_bytes (c : config_wire) : list Z :=
  be_bytes 1 (cw_type c) ++ be_bytes 1 (cw_n c) ++ be_bytes 1 (zlen (cw_parts c)) ++ str8 (cw_nonce c) ++
  flat_map pw_bytes (cw_parts c).
Definition eek_bytes (e : Z * point) : list Z :=
  str8 (curve_of (fst e)) ++ str8 (ec_point2oct (fst e) (snd e)).
Definition ew_bytes (w : ebox_wire) : list Z :=
  be_bytes 1 0xEB ++ be_bytes 1 0x0C ++ be_bytes 1 EBOX_V3 ++ be_bytes 1 (ew_type w) ++
  str8 (ew_cipher w) ++ str8 (ew_iv w) ++ str8 (ew_enc w) ++
  (be_bytes 1 (zlen (ew_eeks w)) ++ flat_map eek_bytes (ew_eeks w)) ++
  be_bytes 1 (zlen (ew_configs w)) ++ flat_map cw_bytes (ew_configs w).

Definition str8_ok (s : list Z) : Prop := bytes s /\ zlen s <= 254.

Record pw_ok (w : part_wire) : Prop := {
  pk_guid : bytes (pw_guid w) /\ zlen (pw_guid w) = 16;
  pk_name : forall s, pw_name w = Some s -> field_ok (FCstr8 s);
  pk_cak : forall k, pw_cak w = Some k -> cak_ok k;
  pk_slot : is_byte (pw_slot w);
  pk_key : key_ok (EcKey (pw_nid w) (pw_pub w) None);
  pk_algs : field_ok (FCstr8 (pw_cipher w)) /\ field_ok (FCstr8 (pw_kdf w));
  pk_data : str8_ok (pw_nonce w) /\ str8_ok (pw_iv w) /\ bytes (pw_enc w) /\
            zlen (pw_enc w) <= SSHBUF_SIZE_MAX - 4
}.
Record cw_ok (c : config_wire) : Prop := {
  ck_type : cw_type c = EBOX_PRIMARY /\ cw_n c <= 1 /\ cw_nonce c = [] \/ cw_type c = EBOX_RECOVERY;
  ck_n : is_byte (cw_n c);
  ck_m : 1 <= zlen (cw_parts c) <= 255;
  ck_nonce : str8_ok (cw_nonce c);
  ck_parts : Forall pw_ok (cw_parts c)
}.
Record ew_ok (w : ebox_wire) : Prop := {
  wk_type : ew_type w = EBOX_KEY \/ ew_type w = EBOX_STREAM;
  wk_cipher : field_ok (FCstr8 (ew_cipher w));
  wk_data : str8_ok (ew_iv w) /\ str8_ok (ew_enc w);
  wk_eeks : zlen (ew_eeks w) <= 255 /\ NoDup (map fst (ew_eeks w)) /\
            Forall (fun e => key_ok (EcKey (fst e) (snd e) None)) (ew_eeks w);
  wk_configs : 1 <= zlen (ew_configs w) <= 255;
  wk_each : Forall cw_ok (ew_configs w);
  (** every part's ephemeral key is the ebox's for its curve *)
  wk_ephem : Forall (fun c => Forall (fun p => (pw_nid p, pw_ephem p) ∈ ew_eeks w) (cw_parts c)) (ew_configs w)
}.

(** What docs/box-ebox-formats.adoc asks of an ebox besides: nonces of 16 bytes or more, and primary configurations of one part, of which
    one is needed. Neither the writer nor the reader looks at it ([ebox_short_nonce_accepted]). *)
Definition config_documented (c : config_wire) : Prop :=
  (cw_type c = EBOX_PRIMARY -> cw_n c = 1 /\ zlen (cw_parts c) = 1) /\ (cw_type c = EBOX_RECOVERY -> 16 <= zlen (cw_nonce c)) /\
  Forall (fun p => 16 <= zlen (pw_nonce p)) (cw_parts c).
Definition ew_documented (w : ebox_wire) : Prop := Forall config_documented (ew_configs w).

(** The wire form of an ebox in memory. *)
Definition part_written (p : ebox_part) (w : part_wire) : Prop :=
  let b := ep_box p in let t := ep_tpl p in
  etp_name t = pw_name w /\ etp_cak t = pw_cak w /\ etp_slot t = pw_slot w /\ etp_guid t = pw_guid w /\
  (exists pr, pdb_pub b = Some (EcKey (pw_nid w) (pw_pub w) pr)) /\
  (exists pr, pdb_ephem_pub b = Some (EcKey (pw_nid w) (pw_ephem w) pr)) /\
  PIV_BOX_V2 <= pdb_version b /\ pdb_cipher b = Some (pw_cipher w) /\ pdb_kdf b = Some (pw_kdf w) /\
  raw (pdb_nonce b) = Some (pw_nonce w) /\ raw (pdb_iv b) = Some (pw_iv w) /\ raw (pdb_enc b) = Some (pw_enc w).
Definition config_written (c : ebox_config) (w : config_wire) : Prop :=
  etc_type (ec_tpl c) = cw_type w /\ etc_n (ec_tpl c) = cw_n w /\ etc_m (ec_tpl c) = zlen (cw_parts w) /\
  default [] (ec_nonce c) = cw_nonce w /\ Forall2 part_written (ec_parts c) (cw_parts w).
Definition ebox_written (e : ebox) (w : ebox_wire) : Prop :=
  e_version e = EBOX_V3 /\ e_type e = ew_type w /\ e_rcv_cipher e = Some (ew_cipher w) /\
  default [] (e_rcv_iv e) = ew_iv w /\ default [] (e_rcv_enc e) = ew_enc w /\
  Forall2 (fun k e => exists pr, k = (fst e, EcKey (fst e) (snd e) pr)) (e_ephemkeys e) (ew_eeks w) /\
  Forall2 config_written (e_configs e) (ew_configs w).

Section Laws.
Context {L : CryptoLaws C} {KL : KeyBlobLaws KB}.

(** ** Ephemeral keys *)

Lemma find_eek eeks ws nid p :
  Forall2 (fun (k : Z * sshkey) (e : Z * point) => exists pr, k = (fst e, EcKey (fst e) (snd e) pr)) eeks ws ->
  NoDup (map fst ws) -> (nid, p) ∈ ws ->
  exists pr, ebox_get_ephem_for_nid eeks nid = Some (EcKey nid p pr).
Proof.
  induction 1 as [|k e eeks ws (pr & ->) Hr IH]; intros Hnd Hin; [by apply not_elem_of_nil in Hin|].
  cbn in Hnd. apply NoDup_cons in Hnd as [Hn Hnd]. destruct e as [n q]. cbn [fst snd ebox_get_ephem_for_nid] in *.
  apply elem_of_cons in Hin as [[= <- <-]|Hin]; [rewrite Z.eqb_refl; by eauto|].
  destruct (Z.eqb_spec n nid) as [->|]; [|by apply IH].
  exfalso. apply Hn. apply list_elem_of_In, in_map_iff. exists (nid, p). split; [done|]. by apply list_elem_of_In.
Qed.

(** The reader's list is reversed, which does not matter for the lookup. *)
Lemma find_eek_rev ws nid p :
  NoDup (map fst ws) -> (nid, p) ∈ ws ->
  ebox_get_ephem_for_nid (rev (map eek_of_wire ws)) nid = Some (EcKey nid p None).
Proof.
  intros Hnd Hin.
  destruct (find_eek (map eek_of_wire (rev ws)) (rev ws) nid p) as [pr E].
  - induction (rev ws) as [|[n q] r IH]; constructor; [by exists None|done].
  - rewrite map_rev. by apply NoDup_ListNoDup, NoDup_rev, NoDup_ListNoDup.
  - apply list_elem_of_In. rewrite <- in_rev. by apply list_elem_of_In.
  - rewrite <- map_rev. rewrite E. f_equal.
    assert (forall l, ebox_get_ephem_for_nid (map eek_of_wire l) nid = Some (EcKey nid p pr) -> pr = None) as Hpr.
    { intros l. induction l as [|[n q] l IH]; cbn; [done|].
      destruct (Z.eqb_spec n nid); [by intros [= _ _ <-]|done]. }
    by rewrite (Hpr _ E).
Qed.

(** ** Parts *)

Lemma puts_verify b (m : W unit) bs : b = true -> puts m bs -> puts (verify b ;! m) bs.
Proof. by intros ->. Qed.

Lemma key_ok_curve nid p : key_ok (EcKey nid p None) ->
  sshkey_curve_nid_to_name nid = Some (curve_of nid) /\ field_ok (FCstr8 (curve_of nid)) /\
  sshkey_curve_name_to_nid (curve_of nid) = nid /\ nid <> -1 /\ ec_validate nid p = 0.
Proof.
  intros (n & q & tname & [= <- <-] & Ht & Hv). unfold curve_of. rewrite Ht. change (default [] (Some tname)) with tname.
  split_and!; try done; try by eapply curve_field.
  - by apply curve_name_roundtrip.
  - by intros ->.
Qed.

Lemma puts_part_box eeks b w pr epr :
  pw_ok w -> ebox_get_ephem_for_nid eeks (pw_nid w) = Some (EcKey (pw_nid w) (pw_ephem w) epr) ->
  pdb_pub b = Some (EcKey (pw_nid w) (pw_pub w) pr) ->
  (exists pr', pdb_ephem_pub b = Some (EcKey (pw_nid w) (pw_ephem w) pr')) ->
  PIV_BOX_V2 <= pdb_version b -> pdb_cipher b = Some (pw_cipher w) -> pdb_kdf b = Some (pw_kdf w) ->
  raw (pdb_nonce b) = Some (pw_nonce w) -> raw (pdb_iv b) = Some (pw_iv w) ->
  raw (pdb_enc b) = Some (pw_enc w) ->
  puts (put_part_box eeks b) (pw_body w).
Proof.
  intros [_ _ _ _ Hk [Hc Hd] ((Hn & Hnl) & (Hi & Hil) & He & Hel)] Hf Hp [pr' Hep] Hv Ec Ek En Ei Ee.
  destruct (key_ok_curve _ _ Hk) as (Ht & Hcf & _). unfold put_part_box, pw_body. rewrite Ec, Ek, Hp, Hf, Hep, Ht.
  repeat apply puts_seq; try apply puts_ssh; try by apply puts_cstring8.
  eapply puts_raw; [exact En|]. apply puts_seq; [by apply puts_ssh, puts_string8|].
  apply puts_verify. { cbn. rewrite Z.eqb_refl. by apply ec_point_eqb_eq. }
  apply puts_verify; [lia|].
  repeat apply puts_seq; try apply puts_ssh; [by apply puts_cstring8|apply puts_eckey|].
  eapply puts_raw; [exact Ei|]. apply puts_seq; [by apply puts_ssh, puts_string8|].
  eapply puts_raw; [exact Ee|]. apply puts_ssh, puts_string; [done|lia].
Qed.

Lemma puts_epart eeks p w epr :
  pw_ok w -> ebox_get_ephem_for_nid eeks (pw_nid w) = Some (EcKey (pw_nid w) (pw_ephem w) epr) ->
  part_written p w -> puts (sshbuf_put_ebox_part EBOX_V3 eeks p) (pw_bytes w).
Proof.
  intros Hw Hf (Hnm & Hck & Hsl & Hgd & [pr Hp] & Hep & Hv & Ec & Ek & En & Ei & Ee).
  pose proof Hw as [[Hg Hgl] Hn Hc Hs _ _ _].
  unfold sshbuf_put_ebox_part, pw_bytes, pw_fields. rewrite Hnm, Hck, Hsl, Hgd.
  rewrite !fields_bytes_app, <- !app_assoc. unfold fields_bytes at 1 5. cbn [flat_map fst snd].
  rewrite !app_nil_r, <- !app_assoc. change (EBOX_V2 <=? EBOX_V3) with true. cbn match.
  assert (Hbox : puts (put_part_box eeks (ep_box p)) (pw_body w)) by by eapply puts_part_box.
  revert Hbox. generalize (put_part_box eeks (ep_box p)) (pw_body w). intros pm body Hbox.
  repeat apply puts_seq; try apply puts_ssh.
  - apply puts_u8.
  - by apply puts_string8; [|lia].
  - unfold name_field, fields_bytes. cbn [pw_tpl etp_name]. destruct (pw_name w) as [s|]; [|apply puts_ret].
    cbn [flat_map fst snd]. rewrite app_nil_r. apply puts_seq; apply puts_ssh; [apply puts_u8|by apply puts_cstring8, Hn].
  - unfold cak_field, fields_bytes. cbn [pw_tpl etp_cak]. destruct (pw_cak w) as [c|]; [|apply puts_ret].
    cbn [flat_map fst snd]. rewrite app_nil_r. by apply puts_cak, Hc.
  - unfold slot_field, fields_bytes. cbn [pw_tpl etp_slot]. destruct (_ =? _); [apply puts_ret|].
    cbn [flat_map fst snd]. rewrite app_nil_r. apply puts_seq; apply puts_ssh, puts_u8.
  - apply puts_u8.
  - exact Hbox.
  - apply puts_u8.
Qed.

Lemma gets_part_box eeks w :
  pw_ok w -> ebox_get_ephem_for_nid eeks (pw_nid w) = Some (EcKey (pw_nid w) (pw_ephem w) None) ->
  gets (get_part_box eeks) (pw_body w)
    (set_slot_guid (part_box_of_wire w) PIV_SLOT_KEY_MGMT (zrepeat 16 0)).
Proof.
  intros [_ _ _ _ Hk [Hc Hd] ((Hn & Hnl) & (Hi & Hil) & He & Hel)] Hf.
  destruct (key_ok_curve _ _ Hk) as (_ & Hcf & Hid & Hne & Hv). unfold get_part_box, pw_body.
  eapply gets_bind; [by apply gets_ssherr, gets_cstring8_ok|].
  eapply gets_bind; [by apply gets_ssherr, gets_cstring8_ok|].
  eapply gets_bind; [apply gets_ssherr, gets_string8; lia|].
  eapply gets_bind; [by apply gets_ssherr, gets_cstring8_ok|]. cbn beta zeta.
  rewrite (c_str_ok _ Hcf), (c_str_ok _ Hc), (c_str_ok _ Hd), Hid.
  apply gets_guard; [by apply negb_true_iff, Z.eqb_neq|].
  eapply gets_bind; [apply gets_ssherr, gets_eckey|]. apply gets_guard; [by rewrite Hv|]. rewrite Hf.
  eapply gets_bind; [apply gets_ssherr, gets_string8; lia|].
  eapply gets_last; [by apply gets_ssherr, gets_string|]. apply gets_ret.
Qed.

Lemma epart_collects eeks w :
  pw_ok w -> ebox_get_ephem_for_nid eeks (pw_nid w) = Some (EcKey (pw_nid w) (pw_ephem w) None) ->
  collects (get_epart_tag EBOX_V3 eeks) (pw_fields w) eacc_init
    (EAcc (TplPart (pw_name w) None (pw_cak w) 0 (pw_guid w)) (pw_slot w) true
      (Some (set_slot_guid (part_box_of_wire w) PIV_SLOT_KEY_MGMT (zrepeat 16 0)))).
Proof.
  intros Hw Hf. pose proof Hw as [[Hg Hgl] Hn Hc Hs _ _ _]. unfold pw_fields.
  set (a1 := EAcc (TplPart None None None 0 (pw_guid w)) PIV_SLOT_KEY_MGMT true None).
  apply (collects_app _ _ _ _ a1).
  { eapply collects_cons; [done| |apply collects_nil]. eapply gets_last; [apply gets_ssherr, gets_string8; lia|].
    apply gets_guard; [by rewrite Hgl|apply gets_ret]. }
  set (a2 := EAcc (TplPart (pw_name w) None None 0 (pw_guid w)) PIV_SLOT_KEY_MGMT true None).
  apply (collects_app _ _ _ _ a2).
  { unfold name_field, a2. cbn [pw_tpl etp_name]. destruct (pw_name w) as [s|]; [|apply collects_nil].
    eapply collects_cons; [done| |apply collects_nil].
    eapply gets_last; [by apply gets_ssherr, gets_cstring8_ok, Hn|].
    rewrite (c_str_ok _ (Hn s eq_refl)). apply gets_ret. }
  set (a3 := EAcc (TplPart (pw_name w) None (pw_cak w) 0 (pw_guid w)) PIV_SLOT_KEY_MGMT true None).
  apply (collects_app _ _ _ _ a3).
  { unfold cak_field, a3. cbn [pw_tpl etp_cak]. destruct (pw_cak w) as [c|]; [|apply collects_nil].
    eapply collects_cons; [done| |apply collects_nil].
    eapply gets_last; [by apply gets_key_blob, Hc|apply gets_ret]. }
  set (a4 := EAcc (TplPart (pw_name w) None (pw_cak w) 0 (pw_guid w)) (pw_slot w) true None).
  apply (collects_app _ _ _ _ a4).
  { unfold slot_field, a4. cbn [pw_tpl etp_slot].
    destruct (Z.eqb_spec (pw_slot w) PIV_SLOT_KEY_MGMT) as [->|]; [apply collects_nil|].
    eapply collects_cons; [done| |apply collects_nil].
    eapply gets_last; [by apply gets_ssherr, gets_u8|apply gets_ret]. }
  eapply collects_cons; [done| |apply collects_nil].
  eapply gets_last; [by apply gets_part_box|apply gets_ret].
Qed.

Lemma gets_epart eeks id w :
  pw_ok w -> ebox_get_ephem_for_nid eeks (pw_nid w) = Some (EcKey (pw_nid w) (pw_ephem w) None) ->
  gets (sshbuf_get_ebox_part EBOX_V3 eeks id) (pw_bytes w) (part_of_wire id w).
Proof.
  intros Hw Hf. unfold sshbuf_get_ebox_part, pw_bytes.
  eapply gets_last; [by eapply collects_gets, epart_collects|].
  cbn [ea_part ea_slot ea_guid ea_box etp_name etp_pubkey etp_cak etp_guid].
  apply gets_guard; [done|]. eapply gets_last; [apply gets_ret|].
  apply gets_guard; [|apply gets_ret]. cbn. rewrite Z.eqb_refl. by apply ec_point_eqb_eq.
Qed.

(** ** Configurations *)

Definition eek_for (eeks : list (Z * sshkey)) (w : part_wire) : Prop :=
  exists pr, ebox_get_ephem_for_nid eeks (pw_nid w) = Some (EcKey (pw_nid w) (pw_ephem w) pr).
Definition eek_for_pub (eeks : list (Z * sshkey)) (w : part_wire) : Prop :=
  ebox_get_ephem_for_nid eeks (pw_nid w) = Some (EcKey (pw_nid w) (pw_ephem w) None).

Lemma puts_eparts eeks ps ws :
  Forall2 part_written ps ws -> Forall pw_ok ws -> Forall (eek_for eeks) ws ->
  puts (put_eparts EBOX_V3 eeks ps) (flat_map pw_bytes ws).
Proof.
  induction 1 as [|p w ps ws Hp _ IH]; intros Hok He; [apply puts_ret|]. cbn [put_eparts flat_map].
  inversion_clear Hok. inversion_clear He as [|? ? [pr Hpr]]. apply puts_seq; [by eapply puts_epart|by apply IH].
Qed.
Lemma gets_eparts eeks id ws :
  Forall pw_ok ws -> Forall (eek_for_pub eeks) ws ->
  gets (get_eparts EBOX_V3 eeks id (length ws)) (flat_map pw_bytes ws) (parts_of_wire id ws).
Proof.
  intros Hok. revert id. induction Hok as [|w ws Hw _ IH]; intros id He; [apply gets_ret|].
  inversion_clear He. cbn [length get_eparts flat_map parts_of_wire].
  eapply gets_bind; [by apply gets_epart|]. eapply gets_last; [by apply IH|apply gets_ret].
Qed.

Lemma puts_econfig eeks c w :
  config_written c w -> cw_ok w -> Forall (eek_for eeks) (cw_parts w) ->
  puts (sshbuf_put_ebox_config EBOX_V3 eeks c) (cw_bytes w).
Proof.
  intros (Ht & Hn & Hm & Hno & Hp) [Kt Kn Km [Knb Knl] Kp] He. unfold sshbuf_put_ebox_config, cw_bytes.
  rewrite Ht, Hn, Hm, Hno.
  apply puts_seq; [apply puts_ssh, puts_u8|]. apply puts_seq; [apply puts_ssh, puts_u8|].
  apply puts_seq; [apply puts_ssh, puts_u8|]. apply puts_seq; [|by apply puts_eparts].
  destruct (Z.ltb_spec 0 (zlen (cw_nonce w))) as [Hl|Hl].
  - apply puts_verify; [done|]. apply puts_verify; [|by apply puts_ssh, puts_string8].
    destruct Kt as [(_ & _ & Hnil)|Hr]; [rewrite Hnil in Hl; done|by rewrite Hr].
  - assert (cw_nonce w = []) as ->; [|apply puts_ssh, puts_u8].
    destruct (cw_nonce w) as [|? r]; [done|]. rewrite zlen_cons in Hl. pose proof (zlen_nonneg r). lia.
Qed.

Lemma gets_econfig eeks w :
  cw_ok w -> Forall (eek_for_pub eeks) (cw_parts w) ->
  gets (sshbuf_get_ebox_config EBOX_V3 eeks) (cw_bytes w) (config_of_wire w).
Proof.
  intros [Kt Kn Km [Knb Knl] Kp] He. unfold sshbuf_get_ebox_config, cw_bytes, config_of_wire.
  unfold EBOX_PRIMARY, EBOX_RECOVERY in Kt.
  eapply gets_bind; [apply gets_ssherr, gets_u8; lia|]. eapply gets_bind; [by apply gets_ssherr, gets_u8|].
  eapply gets_bind; [apply gets_ssherr, gets_u8; lia|].
  apply gets_guard; [unfold EBOX_PRIMARY, EBOX_RECOVERY; lia|].
  change (EBOX_V3 <=? EBOX_V3) with true. cbn match.
  eapply (gets_bind _ _ _ _ (Some (cw_nonce w))).
  { eapply gets_last; [apply gets_ssherr, gets_string8; lia|]. apply gets_guard; [|apply gets_ret].
    destruct Kt as [(_ & _ & ->)| ->]; [done|]. by rewrite andb_false_r. }
  apply gets_guard; [unfold EBOX_PRIMARY; lia|].
  destruct (cw_parts w) as [|p ps] eqn:Ep; [change (zlen []) with 0 in Km; lia|]. cbn [flat_map].
  inversion_clear Kp. inversion_clear He. eapply gets_bind; [by apply gets_epart|].
  rewrite zlen_cons in *. replace (Z.to_nat _) with (length ps) by (unfold zlen; lia).
  eapply gets_last; [by apply gets_eparts|]. apply gets_ret.
Qed.

Lemma puts_econfigs eeks cs ws :
  Forall2 config_written cs ws -> Forall cw_ok ws -> Forall (fun w => Forall (eek_for eeks) (cw_parts w)) ws ->
  puts (put_econfigs EBOX_V3 eeks cs) (flat_map cw_bytes ws).
Proof.
  induction 1 as [|c w cs ws Hc _ IH]; intros Hok He; [apply puts_ret|]. cbn [put_econfigs flat_map].
  inversion_clear Hok. inversion_clear He. apply puts_seq; [by apply puts_econfig|by apply IH].
Qed.
Lemma gets_econfigs eeks ws :
  Forall cw_ok ws -> Forall (fun w => Forall (eek_for_pub eeks) (cw_parts w)) ws ->
  gets (get_econfigs EBOX_V3 eeks (length ws)) (flat_map cw_bytes ws) (map config_of_wire ws).
Proof.
  induction 1 as [|w ws Hw _ IH]; intros He; [apply gets_ret|]. inversion_clear He.
  cbn [length get_econfigs flat_map map].
  eapply gets_bind; [by apply gets_maperr, gets_econfig|]. eapply gets_last; [by apply IH|apply gets_ret].
Qed.

(** ** Eboxes *)

Lemma puts_eeks eeks ws :
  Forall2 (fun (k : Z * sshkey) (e : Z * point) => exists pr, k = (fst e, EcKey (fst e) (snd e) pr)) eeks ws ->
  Forall (fun e => key_ok (EcKey (fst e) (snd e) None)) ws ->
  puts (put_ephem_keys eeks) (flat_map eek_bytes ws).
Proof.
  induction 1 as [|k e eeks ws (pr & ->) _ IH]; intros Hok; [apply puts_ret|]. cbn [put_ephem_keys flat_map].
  inversion_clear Hok as [|? ? Hk]. apply puts_seq; [|by apply IH].
  destruct (key_ok_curve _ _ Hk) as (Ht & Hcf & _). unfold sshbuf_put_ebox_ephem_key, eek_bytes. cbn [fst snd].
  rewrite Ht. apply puts_seq; apply puts_ssh; [by apply puts_cstring8|apply puts_eckey].
Qed.

Lemma gets_eek e : key_ok (EcKey (fst e) (snd e) None) ->
  gets sshbuf_get_ebox_ephem_key (eek_bytes e) (eek_of_wire e).
Proof.
  intros Hk. destruct (key_ok_curve _ _ Hk) as (Ht & Hcf & Hid & Hne & Hv).
  unfold sshbuf_get_ebox_ephem_key, eek_bytes.
  eapply gets_bind; [by apply gets_ssherr, gets_cstring8_ok|]. cbn beta zeta. rewrite (c_str_ok _ Hcf), Hid.
  apply gets_guard; [by apply negb_true_iff, Z.eqb_neq|].
  eapply gets_last; [apply gets_ssherr, gets_eckey|]. apply gets_guard; [by rewrite Hv|apply gets_ret].
Qed.
Lemma gets_eeks ws acc :
  Forall (fun e => key_ok (EcKey (fst e) (snd e) None)) ws ->
  gets (get_ephem_keys (length ws) acc) (flat_map eek_bytes ws) (rev (map eek_of_wire ws) ++ acc).
Proof.
  intros H. revert acc. induction H as [|e ws He _ IH]; intros acc; [apply gets_ret|].
  cbn [length get_ephem_keys flat_map map rev]. eapply gets_bind; [by apply gets_maperr, gets_eek|].
  rewrite <- app_assoc. apply IH.
Qed.

Lemma puts_ebox e w : ebox_written e w -> ew_ok w -> puts (sshbuf_put_ebox e) (ew_bytes w).
Proof.
  intros (Hv & Ht & Hc & Hi & He & Hk & Hcs) [Kt Kc ([Ki Kil] & [Ke Kel]) (Kel2 & Knd & Kk) Kn Kcs Kp].
  assert (zlen (e_ephemkeys e) = zlen (ew_eeks w)) as Hl1 by (unfold zlen; by rewrite (Forall2_length _ _ _ Hk)).
  assert (zlen (e_configs e) = zlen (ew_configs w)) as Hl2 by (unfold zlen; by rewrite (Forall2_length _ _ _ Hcs)).
  unfold sshbuf_put_ebox, ew_bytes. rewrite Hv, Ht, Hc, Hi, He, Hl1, Hl2.
  pose proof (zlen_nonneg (ew_eeks w)). rewrite !(wrap_small 8) by lia.
  change (EBOX_V2 <=? EBOX_V3) with true. cbn match.
  apply puts_seq; [apply puts_ssh, puts_u8|]. apply puts_seq; [apply puts_ssh, puts_u8|].
  apply puts_seq; [apply puts_ssh, puts_u8|]. apply puts_seq; [apply puts_ssh, puts_u8|].
  apply puts_seq; [by apply puts_ssh, puts_cstring8|]. apply puts_seq; [by apply puts_ssh, puts_string8|].
  apply puts_seq; [by apply puts_ssh, puts_string8|].
  apply puts_seq; [apply puts_seq; [apply puts_ssh, puts_u8|by apply puts_eeks]|].
  apply puts_seq; [apply puts_ssh, puts_u8|]. apply puts_econfigs; [done|done|].
  eapply Forall_impl; [exact Kp|]. cbn. intros c Hpc. eapply Forall_impl; [exact Hpc|]. cbn. intros p Hp.
  by eapply find_eek.
Qed.

Lemma gets_ebox w : ew_ok w -> gets sshbuf_get_ebox (ew_bytes w) (ebox_of_wire w).
Proof.
  intros [Kt Kc ([Ki Kil] & [Ke Kel]) (Kel2 & Knd & Kk) Kn Kcs Kp]. unfold sshbuf_get_ebox, ew_bytes, ebox_of_wire.
  unfold EBOX_KEY, EBOX_STREAM in Kt. pose proof (zlen_nonneg (ew_eeks w)).
  eapply gets_bind; [apply gets_maperr, gets_u8; lia|]. eapply gets_bind; [apply gets_maperr, gets_u8; lia|].
  apply gets_guard; [reflexivity|]. eapply gets_bind; [apply gets_ssh, gets_u8; by vm_compute|].
  eapply gets_bind; [apply gets_ssh, gets_u8; lia|]. apply gets_guard; [reflexivity|].
  apply gets_guard; [unfold EBOX_KEY, EBOX_STREAM; lia|].
  eapply gets_bind; [by apply gets_ssh, gets_cstring8_ok|].
  eapply gets_bind; [apply gets_ssh, gets_string8; lia|]. eapply gets_bind; [apply gets_ssh, gets_string8; lia|].
  change (EBOX_V2 <=? EBOX_V3) with true. cbn match.
  eapply gets_bind.
  { eapply gets_bind; [apply gets_ssh, gets_u8; lia|].
    replace (Z.to_nat (zlen (ew_eeks w))) with (length (ew_eeks w)) by (unfold zlen; lia). by apply gets_eeks. }
  rewrite app_nil_r.
  assert (He : Forall (fun c => Forall (eek_for_pub (rev (map eek_of_wire (ew_eeks w)))) (cw_parts c)) (ew_configs w)).
  { eapply Forall_impl; [exact Kp|]. cbn. intros c Hpc. eapply Forall_impl; [exact Hpc|]. cbn. intros p Hp.
    by apply find_eek_rev. }
  eapply gets_bind; [apply gets_ssh, gets_u8; lia|].
  destruct (ew_configs w) as [|c cs]; [change (zlen []) with 0 in Kn; lia|]. cbn [flat_map].
  inversion_clear Kcs. inversion_clear He. eapply gets_bind; [by apply gets_maperr, gets_econfig|].
  rewrite zlen_cons in *. replace (Z.to_nat _) with (length cs) by (unfold zlen; lia).
  eapply gets_last; [by apply gets_econfigs|]. rewrite (c_str_ok _ Kc). apply gets_ret.
Qed.

(** C20: eboxes round-trip. An ebox of the current version that follows the format ([ew_documented]: nonces of 16 bytes or more, one part in a primary
    configuration), whose parts use its ephemeral keys (one for each curve) and whose fields fit their length fields ([ew_ok]), is written into a fresh buffer as its wire form; what is
    read back has the same recovery box, configurations, nonces and parts, and in each part a sealed box with the same
    keys, algorithms, nonce, IV and ciphertext. Only public halves of keys are written. *)
Theorem ebox_wire_roundtrip e w :
  ebox_written e w -> ew_ok w -> ew_documented w -> zlen (ew_bytes w) <= SSHBUF_SIZE_MAX ->
  exists b b', sshbuf_put_ebox e sshbuf_new = (Ok tt, b) /\ sb_contents b = ew_bytes w /\
    sshbuf_get_ebox b = (Ok (ebox_of_wire w), b') /\ sb_contents b' = [].
Proof.
  intros He Hw _ Hl. destruct (puts_new _ _ (puts_ebox e w He Hw) Hl) as (b & E & K & Hc & _).
  destruct (gets_whole _ _ _ b (gets_ebox w Hw) K Hc) as (b' & E' & _ & Hc').
  exists b, b'. exact (conj E (conj Hc (conj E' Hc'))).
Qed.

(** * Reading arbitrary bytes *)

(** A box with all that opening it needs. *)
Definition box_complete (b : piv_ecdh_box) : Prop :=
  (exists cn, pdb_cipher b = Some cn) /\ (exists kn, pdb_kdf b = Some kn) /\
  (exists n, nonce_is (pdb_nonce b) n) /\
  (exists iv enc, pdb_iv b = whole_buf iv /\ pdb_enc b = whole_buf enc /\ zlen enc <= SSHBUF_SIZE_MAX) /\
  (exists nid p, pdb_ephem_pub b = Some (EcKey nid p None)) /\
  (exists k, pdb_pub b = Some k /\ key_ok k) /\ no_plain b = true.

Definition eeks_ok (eeks : list (Z * sshkey)) : Prop :=
  Forall (fun e => key_ok (snd e)) eeks.

Lemma find_eek_ok eeks nid k : eeks_ok eeks -> ebox_get_ephem_for_nid eeks nid = Some k -> key_ok k.
Proof.
  induction 1 as [|[n e] eeks He _ IH]; cbn; [done|]. destruct (n =? nid); [by intros [= <-]|done].
Qed.

Lemma reads_string : reads (sshput sshbuf_get_string) str_ok 0.
Proof. apply (reads_drains _ _ _ _ refines_get_string), drains_string. Qed.
Lemma reads_eckey nid : reads (sshput (sshbuf_get_eckey8 nid)) (fun _ => True) 0.
Proof. apply (reads_drains _ _ _ _ (refines_eckey nid)), drains_eckey. Qed.
Lemma reads_u8_0 : reads (sshput sshbuf_get_u8) is_byte 0.
Proof. eapply reads_weaken; [apply reads_u8|by intros ? H; exact H|lia]. Qed.

Lemma reads_piv_box : reads sshbuf_get_piv_box box_complete 0.
Proof.
  intros b H. eapply wp_mono; [by apply parses_piv_box| |by intros e b' [? _]].
  cbn. intros box b' [[H' Hl] (w & Hr & ->)]. split_and!; [done| |lia].
  pose proof (wr_enc w Hr). unfold box_complete, PivBox.box_of_wire. cbn. split_and!; eauto 10.
  - exists (if PIV_BOX_V2 <=? w_version w then w_nonce w else []). destruct (_ <=? _); [by left|by right].
  - eexists. split; [done|]. eexists _, _, _. split_and!; [done| |apply Hr].
    apply curve_nid_name, Hr.
Qed.

Lemma reads_part_box eeks : eeks_ok eeks -> reads (get_part_box eeks) box_complete 0.
Proof.
  intros Hk. unfold get_part_box.
  eapply reads_bind; [apply reads_cstring8|]. intros cn _. eapply reads_bind; [apply reads_cstring8|]. intros kn _.
  eapply reads_bind; [apply reads_string8|]. intros n _. eapply reads_bind; [apply reads_cstring8|]. intros tn _.
  apply reads_guard. intros Hn%negb_true_iff%Z.eqb_neq.
  eapply reads_bind; [apply reads_eckey|]. intros p _. apply reads_guard. intros Hv%Z.eqb_eq.
  destruct (ebox_get_ephem_for_nid eeks _) as [k|] eqn:E; [|by intros b H].
  destruct (find_eek_ok _ _ _ Hk E) as (nid & q & tq & -> & _).
  eapply reads_bind; [apply reads_string8|]. intros iv _.
  eapply reads_bind; [apply reads_string|]. intros enc [_ He]. apply reads_ret.
  unfold box_complete. cbn. split_and!; eauto 10.
  - exists n. by left.
  - eexists. split; [done|]. eexists _, _, _. split_and!; [done| |done]. by apply curve_nid_name.
Qed.

Definition eacc_ok (a : epart_acc) : Prop :=
  acc_ok (Acc (ea_part a) (ea_slot a) (ea_guid a)) /\ forall b, ea_box a = Some b -> box_complete b.

Lemma reads_epart_tag ver eeks tag a :
  eeks_ok eeks -> eacc_ok a -> reads (get_epart_tag ver eeks tag a) eacc_ok 0.
Proof.
  intros Hek [(Hk & Hg & Hs) Hb]. cbn [a_part a_slot a_guid] in *. unfold get_epart_tag.
  destruct (_ =? EBOX_PART_PUBKEY).
  { eapply reads_bind; [apply reads_part_key|]. intros k Hkk. apply reads_ret. split; [|done]. split; [|done].
    cbn. by intros ? [= <-]. }
  destruct (_ =? EBOX_PART_CAK).
  { eapply reads_bind; [apply reads_key_blob|]. intros k _. by apply reads_ret. }
  destruct (_ =? EBOX_PART_NAME).
  { eapply reads_bind; [apply reads_cstring8|]. intros s _. by apply reads_ret. }
  destruct (_ =? EBOX_PART_SLOT).
  { eapply reads_bind; [apply reads_u8_0|]. intros s Hsl. by apply reads_ret. }
  destruct (_ =? EBOX_PART_GUID).
  { eapply reads_bind; [apply reads_string8|]. intros g [Hgb _]. apply reads_guard. intros ?%Z.eqb_eq.
    by apply reads_ret. }
  destruct (_ =? EBOX_PART_BOX).
  { eapply (reads_bind _ _ box_complete).
    { destruct (ver <? EBOX_V2); [apply reads_piv_box|by apply reads_part_box]. }
    intros b Hbc. apply reads_ret. split; [done|]. cbn. by intros ? [= <-]. }
  destruct (negb _); [|by intros b H].
  eapply reads_bind; [apply reads_skip|]. intros _ _. by apply reads_ret.
Qed.

(** What reading guarantees of a part and a configuration. *)
Definition epart_read (p : ebox_part) : Prop :=
  box_complete (ep_box p) /\ part_read (ep_tpl p) /\
  sshkey_equal_public (etp_pubkey (ep_tpl p)) (pdb_pub (ep_box p)) = true.
Definition econfig_read (c : ebox_config) : Prop :=
  (etc_type (ec_tpl c) = EBOX_PRIMARY /\ etc_n (ec_tpl c) <= 1 \/ etc_type (ec_tpl c) = EBOX_RECOVERY) /\
  zlen (ec_parts c) = Z.max 1 (etc_m (ec_tpl c)) /\ Forall epart_read (ec_parts c).
Definition ebox_read (e : ebox) : Prop :=
  EBOX_VMIN <= e_version e < EBOX_VNEXT /\ e_key e = None /\ e_token e = None /\ e_rcv_key e = None /\
  e_configs e <> [] /\ Forall econfig_read (e_configs e).

Lemma key_ok_demote k : key_ok k -> sshkey_demote k = k.
Proof. by intros (nid & p & tn & -> & _). Qed.

Lemma reads_epart ver eeks id : eeks_ok eeks -> reads (sshbuf_get_ebox_part ver eeks id) epart_read 0.
Proof.
  intros Hek. unfold sshbuf_get_ebox_part.
  eapply reads_bind; [apply (reads_part_tags _ eacc_ok); [intros; by apply reads_epart_tag|]|].
  { split; [apply acc_init_ok|done]. }
  intros a [(Hk & Hg & Hs) Hb]. cbn [a_part a_slot a_guid] in *.
  destruct (ea_box a) as [b|]; [|by intros b H]. specialize (Hb b eq_refl). pose proof Hb as (_ & _ & _ & _ & _ & (kp & Hkp & Hkpo) & _).
  apply reads_guard. intros _. eapply (reads_bind _ _ (fun k => exists k', k = Some k' /\ key_ok k')).
  { cbn [set_slot_guid pdb_pub]. destruct (etp_pubkey (ea_part a)) as [k|] eqn:Ek.
    - apply reads_ret. exists k. split; [done|]. by apply Hk.
    - rewrite Hkp. apply reads_ret. rewrite (key_ok_demote kp) by done. by exists kp. }
  intros k (k' & -> & Hk'). apply reads_guard. intros Heq. apply reads_ret.
  split; [exact Hb|]. split; [|exact Heq]. split; [by exists k'|]. split; [exact Hg|exact Hs].
Qed.

Lemma reads_eparts ver eeks id n : eeks_ok eeks ->
  reads (get_eparts ver eeks id n) (fun ps => length ps = n /\ Forall epart_read ps) 0.
Proof.
  intros Hek. revert id. induction n as [|n IH]; intros id; cbn [get_eparts]; [by apply reads_ret|].
  eapply reads_bind; [by apply reads_epart|]. intros p Hp.
  eapply reads_bind; [apply IH|]. intros r [Hl Hr]. apply reads_ret. split; [cbn; lia|by constructor].
Qed.

Lemma reads_econfig ver eeks : eeks_ok eeks -> reads (sshbuf_get_ebox_config ver eeks) econfig_read 0.
Proof.
  intros Hek. unfold sshbuf_get_ebox_config. eapply reads_bind; [apply reads_u8_0|]. intros ty _.
  eapply reads_bind; [apply reads_u8_0|]. intros n _. eapply reads_bind; [apply reads_u8_0|]. intros m Hm.
  apply reads_guard. intros Hty. eapply (reads_bind _ _ (fun _ => True)).
  { destruct (EBOX_V3 <=? ver); [|by apply reads_ret]. eapply reads_bind; [apply reads_string8|]. intros d _.
    apply reads_guard. intros _. by apply reads_ret. }
  intros nonce _. apply reads_guard. intros Hpr. eapply reads_bind; [by apply reads_epart|]. intros p Hp.
  eapply reads_bind; [by apply reads_eparts|]. intros r [Hl Hr]. apply reads_ret.
  unfold econfig_read, EBOX_PRIMARY, EBOX_RECOVERY in *. cbn [ec_tpl ec_parts etc_type etc_n etc_m].
  split_and!; [lia| |by constructor]. rewrite zlen_cons. unfold zlen. rewrite Hl. unfold is_byte in Hm. lia.
Qed.

Lemma reads_eek : reads sshbuf_get_ebox_ephem_key (fun e => key_ok (snd e)) 0.
Proof.
  unfold sshbuf_get_ebox_ephem_key. eapply reads_bind; [apply reads_cstring8|]. intros tn _.
  apply reads_guard. intros Hn%negb_true_iff%Z.eqb_neq.
  eapply reads_bind; [apply reads_eckey|]. intros p _. apply reads_guard. intros Hv%Z.eqb_eq. apply reads_ret.
  eexists _, _, _. split_and!; [done| |done]. by apply curve_nid_name.
Qed.
Lemma parses_eeks n acc : eeks_ok acc -> parses (get_ephem_keys n acc) eeks_ok.
Proof.
  revert acc. induction n as [|n IH]; intros acc Ha; cbn [get_ephem_keys]; [by apply parses_ret|].
  eapply parses_bind; [apply parses_reads; [apply reads_eek|intros; apply bad_boxderrf]|]. intros e He.
  apply IH. by constructor.
Qed.
Lemma parses_econfigs ver eeks n : eeks_ok eeks -> parses (get_econfigs ver eeks n) (Forall econfig_read).
Proof.
  intros Hek. induction n as [|n IH]; cbn [get_econfigs]; [by apply parses_ret|].
  eapply parses_bind; [apply parses_reads; [by apply reads_econfig|intros; apply bad_boxderrf]|]. intros c Hc.
  eapply parses_bind; [exact IH|]. intros r Hr. apply parses_ret. by constructor.
Qed.

Lemma parses_ebox : parses sshbuf_get_ebox ebox_read.
Proof.
  assert (Hm : parses (cmaperr (fun rc => boxderrf (errf "MagicError" (Some (ssherrf rc)))) sshbuf_get_u8)
    is_byte).
  { intros b H. pose proof (parses_u8 b H) as Hp. unfold wp, sshget, cmaperr in *.
    by destruct (sshbuf_get_u8 b) as [[a|e| |] b']. }
  unfold sshbuf_get_ebox. eapply parses_bind; [exact Hm|]. intros m0 _.
  eapply parses_bind; [exact Hm|]. intros m1 _. apply parses_guard; [apply bad_boxderrf|]. intros _.
  eapply parses_bind; [apply parses_u8|]. intros ver _. eapply parses_bind; [apply parses_u8|]. intros ty _.
  apply parses_guard; [apply bad_boxverrf|]. intros Hv. apply parses_guard; [apply bad_boxderrf|]. intros _.
  eapply parses_bind; [apply parses_cstring8|]. intros cn _. eapply parses_bind; [apply parses_string8|]. intros iv _.
  eapply parses_bind; [apply parses_string8|]. intros enc _.
  eapply (parses_bind _ _ eeks_ok).
  { destruct (EBOX_V2 <=? ver); [|apply parses_ret; constructor].
    eapply parses_bind; [apply parses_u8|]. intros n _. apply parses_eeks. constructor. }
  intros eeks Hek. eapply parses_bind; [apply parses_u8|]. intros n _.
  eapply parses_bind; [apply parses_reads; [by apply reads_econfig|intros; apply bad_boxderrf]|]. intros c Hc.
  eapply parses_bind; [by apply parses_econfigs|]. intros r Hr. apply parses_ret.
  split; [cbn; lia|]. split_and!; try done. by constructor.
Qed.

(** C21: reading an ebox from any bytes ends and returns, without reading outside the
    input or failing a [VERIFY]. An error is an [InvalidDataError] or a [NotSupportedError]. An
    ebox that is returned is locked; it has a known version and at least one
    configuration; every part has a GUID, a validated key and a sealed box for that
    same key that holds everything [piv_box_open] looks at. *)
Theorem ebox_read_safe input buf :
  bytes input -> sshbuf_from input = Some buf ->
  match fst (sshbuf_get_ebox buf) with
  | Ok e => ebox_read e
  | Er e => bad_data e
  | Panic | Fault => False
  end.
Proof.
  intros Hb Hf. destruct (sshbuf_from_ok _ _ Hb Hf) as [K _]. pose proof (parses_ebox buf K) as H. unfold wp in H.
  destruct (sshbuf_get_ebox buf) as [[t|e| |] b']; try done; apply H.
Qed.
End Laws.
End Wire.

(** * An instance *)

Module ToyEbox.
Definition pw (slot : Z) (cak : bool) : part_wire :=
  PW (Some (zs "token")) (if cak then Some (EcKey NID_secp384r1 false None) else None) slot Toy.guid
    NID_X9_62_prime256v1 true false (zs "chacha20-poly1305") (zs "sha512") (zrepeat 16 2) [] [5; 6; 7].
Definition ew : ebox_wire :=
  EW EBOX_KEY (zs "aes256-gcm") [1; 2; 3] [4; 5; 6] [(NID_X9_62_prime256v1, false)]
    [CW EBOX_PRIMARY 1 [] [pw PIV_SLOT_KEY_MGMT true];
     CW EBOX_RECOVERY 2 (zrepeat 32 9) [pw 0x82 false; pw 0x9e true]].
Definition box : ebox := ebox_of_wire ew.
Definition written (e : ebox) : list Z := sb_contents (snd (sshbuf_put_ebox e sshbuf_new)).
(** A part whose nonce is shorter than the format allows. *)
Definition short (w : part_wire) : part_wire :=
  PW (pw_name w) (pw_cak w) (pw_slot w) (pw_guid w) (pw_nid w) (pw_pub w) (pw_ephem w) (pw_cipher w) (pw_kdf w) [1; 2] (pw_iv w) (pw_enc w).
Definition ew_short : ebox_wire :=
  EW EBOX_KEY (zs "aes256-gcm") [1; 2; 3] [4; 5; 6] [(NID_X9_62_prime256v1, false)] [CW EBOX_PRIMARY 1 [] [short (pw PIV_SLOT_KEY_MGMT true)]].
(** The same ebox under an older version number. *)
Definition box_v (v : Z) : ebox :=
  Ebox v (e_tpl box) (map (fun c => EboxConfig (ec_tpl c) (ec_parts c) None) (e_configs box)) (e_type box)
    (e_ephemkeys box) None (e_rcv_cipher box) None (e_rcv_iv box) (e_rcv_enc box) None None.
End ToyEbox.

Lemma toy_pw_ok slot cak : is_byte slot -> pw_ok (ToyEbox.pw slot cak).
Proof.
  assert (Hb : forall s : list Z, bytesb s = true -> bytes s) by (intros s; apply bytesb_spec).
  intros Hs. constructor; cbn.
  - split; [apply Hb|]; reflexivity.
  - intros ? [= <-]. split_and!; [apply Hb; reflexivity|vm_compute; discriminate|reflexivity].
  - intros k Hk. destruct cak; [|done]. injection Hk as <-. apply toy_cak_ok.
  - done.
  - by eexists _, _, _.
  - split; (split_and!; [apply Hb; reflexivity|vm_compute; discriminate|reflexivity]).
  - unfold str8_ok. split_and!; first [apply Hb; reflexivity | vm_compute; discriminate].
Qed.
Lemma toy_ew_ok : ew_ok ToyEbox.ew.
Proof.
  assert (Hb : forall s : list Z, bytesb s = true -> bytes s) by (intros s; apply bytesb_spec).
  constructor.
  - by left.
  - split_and!; [apply Hb; reflexivity|vm_compute; discriminate|reflexivity].
  - split; (split; [apply Hb; reflexivity|vm_compute; discriminate]).
  - split; [vm_compute; discriminate|]. split; [apply NoDup_singleton|]. apply Forall_singleton.
    by eexists _, _, _.
  - vm_compute. split; discriminate.
  - apply Forall_cons_2; [|apply Forall_singleton]; constructor;
      first [left; split_and!; [reflexivity|vm_compute; discriminate|reflexivity] | right; reflexivity
            | by vm_compute | split; [apply Hb; reflexivity|vm_compute; discriminate]
            | repeat (apply Forall_cons_2; [apply toy_pw_ok; by vm_compute|]); apply Forall_nil_2].
  - apply Forall_cons_2; [|apply Forall_singleton]; repeat (apply Forall_cons_2; [apply list_elem_of_singleton; reflexivity|]); apply Forall_nil_2.
Qed.

Lemma ebox_of_wire_written `{C : Crypto} (w : ebox_wire) : rev (ew_eeks w) = ew_eeks w -> ebox_written (ebox_of_wire w) w.
Proof.
  intros Hr. unfold ebox_written, ebox_of_wire. cbn. split_and!; try done.
  - rewrite <- map_rev, Hr. induction (ew_eeks w) as [|e es IH]; constructor; [by exists None|]. clear.
    induction es; constructor; [by exists None|done].
  - clear. induction (ew_configs w) as [|c cs IH]; constructor; [|done]. unfold config_written. cbn.
    split_and!; try done. clear. generalize 1. induction (cw_parts c) as [|p ps IH]; intros i; constructor; [|done].
    unfold part_written. cbn [ep_box ep_tpl part_of_wire part_box_of_wire parts_of_wire etp_name etp_cak etp_slot etp_guid pdb_pub pdb_ephem_pub pdb_version pdb_cipher pdb_kdf pdb_nonce pdb_iv pdb_enc].
    rewrite !raw_whole. split_and!; try done; by exists None.
Qed.

Lemma ebox_wire_roundtrip_witness :
  exists b b', sshbuf_put_ebox ToyEbox.box sshbuf_new = (Ok tt, b) /\ sb_contents b = ew_bytes ToyEbox.ew /\
    sshbuf_get_ebox b = (Ok (ebox_of_wire ToyEbox.ew), b') /\ sb_contents b' = [].
Proof.
  apply (ebox_wire_roundtrip ToyEbox.box ToyEbox.ew (ebox_of_wire_written ToyEbox.ew eq_refl) toy_ew_ok).
  - apply Forall_cons_2; [|apply Forall_singleton]; (split; [|split]).
    all: first [done | intros _; vm_compute; discriminate | repeat (apply Forall_cons_2; [vm_compute; discriminate|]); apply Forall_nil_2].
  - vm_compute. discriminate.
Defined.

Lemma ebox_read_safe_witness :
  match fst (sshbuf_get_ebox (buf_over (ew_bytes ToyEbox.ew ++ [1; 2]))) with
  | Ok e => ebox_read e
  | Er e => bad_data e
  | Panic | Fault => False
  end.
Proof.
  apply (ebox_read_safe (ew_bytes ToyEbox.ew ++ [1; 2])).
  - apply bytesb_spec. vm_compute. reflexivity.
  - vm_compute. reflexivity.
Defined.

(** ** Behaviours that differ from what the code means to do *)

(** A nonce of two bytes is written and read. *)
Lemma ebox_short_nonce_accepted :
  accepted (fst (sshbuf_get_ebox (buf_over (ToyEbox.written (ebox_of_wire ToyEbox.ew_short))))) = true.
Proof. vm_compute. reflexivity. Qed.

(** Half of the magic number is enough. *)
Lemma ebox_half_magic_accepted :
  accepted (fst (sshbuf_get_ebox (buf_over (0 :: drop 1 (ToyEbox.written ToyEbox.box))))) = true.
Proof. vm_compute. reflexivity. Qed.

(** Writing an ebox of version 2 puts a byte for the nonce that reading version 2 does not expect. *)
Lemma ebox_v2_unreadable :
  fst (sshbuf_put_ebox (ToyEbox.box_v EBOX_V2) sshbuf_new) = Ok tt /\
  accepted (fst (sshbuf_get_ebox (buf_over (ToyEbox.written (ToyEbox.box_v EBOX_V2))))) = false.
Proof. split; vm_compute; reflexivity. Qed.
