(* ===== verification/EboxRecover.v ===== *)
(** * Creating an ebox and getting the key back (ebox.c)

    [ebox_create] makes an ebox for a template; it is written out and read back;
    some of the parts of one configuration are opened by their tokens; then [ebox_unlock] or
    [ebox_recover] gives the key. Sharing is used through [SharingLaws]. *)
From stdpp Require Import base list strings sets.
From Stdlib Require Import ZArith Lia.
From S2P Require Import Prelude Errf Sshbuf Algs Sss PivBox EboxTpl Ebox EboxWire.

Local Open Scope string_scope.
Local Open Scope list_scope.
Local Open Scope Z_scope.
Local Open Scope c_scope.

Section Recover.
Context {C : Crypto} {L : CryptoLaws C} {KB : KeyBlobs} {KL : KeyBlobLaws KB} {SL : SharingLaws}.

(** ** The recovery box *)

(** What is inside it. *)
Definition token_bytes (token : option (list Z)) : list Z :=
  match token with None => [] | Some t => be_bytes 1 EBOX_RECOV_TOKEN ++ str8 t end.
Definition rcv_bytes (key : list Z) (token : option (list Z)) : list Z :=
  token_bytes token ++ be_bytes 1 EBOX_RECOV_KEY ++ str8 key.

Definition secret_ok (key : list Z) (token : option (list Z)) : Prop :=
  str8_ok key /\ forall t, token = Some t -> str8_ok t.

Lemma puts_verify0 (m : B unit) bs : puts m bs -> puts (verify0 m) bs.
Proof.
  intros Hm b H Hs Hf. destruct (Hm b H Hs Hf) as (b' & E & K & A). exists b'. unfold verify0. by rewrite E.
Qed.

Lemma tagged_bytes tag s : bytes s -> bytes (be_bytes 1 tag ++ str8 s).
Proof. intros H. apply Forall_app. split; [apply be_bytes_bytes|by apply str8_bytes]. Qed.

Lemma rcv_bytes_ok key token : secret_ok key token ->
  bytes (rcv_bytes key token) /\ 0 < zlen (rcv_bytes key token) <= 512.
Proof.
  intros [[Hk Hl] Ht]. unfold rcv_bytes, token_bytes. pose proof (zlen_nonneg key).
  rewrite !zlen_app, zlen_str8, zlen_be_bytes.
  destruct token as [t|].
  - destruct (Ht t eq_refl) as [Htb Htl]. pose proof (zlen_nonneg t). rewrite zlen_app, zlen_str8, zlen_be_bytes.
    split; [|lia]. apply Forall_app. split; by apply tagged_bytes.
  - change (zlen (@nil Z)) with 0. split; [|lia]. by apply tagged_bytes.
Qed.

Lemma recovery_data_ok key token : secret_ok key token ->
  recovery_data key token = Ok (rcv_bytes key token).
Proof.
  intros Hs. destruct (rcv_bytes_ok _ _ Hs) as [_ Hl]. pose proof Hs as [[Hk Hkl] Ht]. unfold recovery_data.
  set (m := _ ;! _).
  assert (Hp : exists b, m sshbuf_new = (let! n := verify0 sshbuf_len in verify0 (sshbuf_get n)) b /\
    sb_ok b /\ sb_contents b = rcv_bytes key token).
  { assert (puts (match token with
         | None => cret tt
         | Some t => verify0 (sshbuf_put_u8 EBOX_RECOV_TOKEN) ;! verify0 (sshbuf_put_string8 t)
         end ;! (verify0 (sshbuf_put_u8 EBOX_RECOV_KEY) ;! verify0 (sshbuf_put_string8 key)))
         (rcv_bytes key token)) as Hputs.
    { apply puts_seq; [|apply puts_seq; apply puts_verify0; [apply puts_u8|by apply puts_string8]].
      destruct token as [t|]; [|apply puts_ret]. destruct (Ht t eq_refl).
      apply puts_seq; apply puts_verify0; [apply puts_u8|by apply puts_string8]. }
    destruct (puts_new _ _ Hputs) as (b & E & K & Hc & _); [rewrite size_max_eq; lia|].
    exists b. split; [|done]. unfold m. apply cbind_inv in E as ([] & b1 & E1 & E2).
    rewrite (cbind_ok _ _ _ _ _ E1). apply cbind_inv in E2 as ([] & b2 & E2 & E3).
    by rewrite (cbind_ok _ _ _ _ _ E2), (cbind_ok _ _ _ _ _ E3). }
  destruct Hp as (b & -> & K & Hc). unfold cbind, verify0 at 1. rewrite (len_ok b K), Hc.
  destruct (gets_whole _ _ _ b (gets_bytes (rcv_bytes key token)) K Hc) as (b2 & E & _).
  unfold verify0. by rewrite E.
Qed.

Lemma rcv_unpad_of blk p n : unpad blk p = Ok n -> rcv_unpad blk p = Ok n.
Proof.
  unfold unpad, rcv_unpad. destruct (zget p (zlen p - 1)) as [x|]; [|done].
  destruct (Z.ltb_spec x 1), (Z.ltb_spec blk x); cbn; try done.
  destruct (Z.eqb_spec x 0); [lia|]. by destruct (forallb _ _).
Qed.

(** A recovery box that holds [plain] under [key]. *)
Definition rcv_sealed (box : ebox) (key plain : list Z) : Prop :=
  exists name c iv, e_rcv_cipher box = Some name /\ cipher_by_name name = Some c /\ 0 < cipher_authlen c /\
    key_fits c key /\ bytes plain /\ e_rcv_iv box = Some iv /\ zlen iv = cipher_ivlen c /\
    e_rcv_enc box = Some (aead_enc c key iv (padded (cipher_blocksize c) plain)).

Lemma decrypt_recovery_ok box key plain :
  rcv_sealed box key plain -> e_rcv_key box = Some key -> zlen plain < 2 ^ 63 ->
  ebox_decrypt_recovery box =
    (Ok tt, with_rcv box (e_rcv_key box) (e_rcv_iv box) (e_rcv_enc box) (Some plain)).
Proof.
  intros (name & c & iv & Hn & Hc & Ha & Hkf & Hpb & Hiv & Hivl & He) Hk Hl. pose proof Hkf as [_ Hkl].
  pose proof (cipher_by_name_ok _ _ Hc) as Hok. destruct (cipher_lens c Hok) as (Hb & _ & Hil & _).
  assert (cipher_args c key iv (padded (cipher_blocksize c) plain)) as Hca.
  { split; [done|]. split; [done|]. split; [by apply padded_bytes|by apply padded_blocks]. }
  unfold ebox_decrypt_recovery, cbind at 1, cget. rewrite Hn. change (default [] (Some name)) with name. rewrite Hc.
  replace (0 <? cipher_authlen c) with true by lia. cbn [verify]. rewrite cbind_ret_l.
  rewrite Hiv. cbn [verify_ptr]. rewrite cbind_ret_l. replace (_ <? _) with false by lia.
  cbn [negb guard]. rewrite cbind_ret_l, Hk. cbn [verify_ptr]. rewrite cbind_ret_l.
  replace (_ <? _) with false by lia. cbn [negb guard]. rewrite cbind_ret_l, He.
  cbn [verify_ptr]. rewrite cbind_ret_l. rewrite aead_len, zlen_padded by (done || lia).
  pose proof (Z.mod_le (zlen plain) (cipher_blocksize c) (zlen_nonneg _) ltac:(lia)).
  replace (_ <? _) with false by (unfold pad_len; lia). cbn [negb guard]. rewrite cbind_ret_l.
  rewrite (take_ge key), (take_ge iv) by (unfold zlen in *; lia). unfold lift, cbind at 1.
  rewrite aead_round by done. unfold cbind at 1.
  rewrite (rcv_unpad_of _ _ _ (unpad_padded _ _ Hb Hl)). unfold cput.
  unfold padded, zlen. by rewrite Nat2Z.id, take_app_length.
Qed.

Lemma encrypt_recovery_ok box name c iv key plain :
  e_rcv_cipher box = Some name -> cipher_by_name name = Some c -> 0 < cipher_authlen c ->
  e_rcv_plain box = Some plain ->
  ebox_encrypt_recovery iv key box =
    (Ok tt, with_rcv box (Some (key (cipher_keylen c))) (Some (iv (cipher_ivlen c)))
       (Some (aead_enc c (key (cipher_keylen c)) (iv (cipher_ivlen c)) (padded (cipher_blocksize c) plain))) None).
Proof.
  intros Hn Hc Ha Hp. destruct (cipher_lens c (cipher_by_name_ok _ _ Hc)) as (Hb & _).
  unfold ebox_encrypt_recovery, cbind at 1, cget. rewrite Hn. change (default [] (Some name)) with name. rewrite Hc.
  replace (0 <? cipher_authlen c) with true by lia. cbn [verify]. rewrite cbind_ret_l, Hp.
  change (default [] (Some plain)) with plain. fold (pad_len (cipher_blocksize c) (zlen plain)).
  pose proof (pad_len_range (cipher_blocksize c) (zlen plain)).
  by replace (_ && _) with true by lia.
Qed.

Lemma gets_string8_conceal s : zlen s <= 255 -> gets sshbuf_get_string8_conceal (str8 s) s.
Proof.
  intros Hl. apply (gets_string_k 1 (fun _ => None) (fun s => s)); try done; [apply refines_get_string8_conceal| |].
  - change (256 ^ Z.of_nat 1) with 256. lia.
  - by apply size_max_small.
Qed.

Lemma read_recovery_ok key token box :
  secret_ok key token ->
  read_recovery (rcv_bytes key token) box =
    (Ok tt, with_key (match token with None => box | Some t => with_token box (Some t) end) (Some key)).
Proof.
  intros Hs. destruct (rcv_bytes_ok _ _ Hs) as [Hb Hl]. destruct Hs as [[_ Hkl] Ht]. unfold read_recovery.
  destruct (sshbuf_from (rcv_bytes key token)) as [b|] eqn:E.
  2:{ unfold sshbuf_from in E. destruct (Z.ltb_spec SSHBUF_SIZE_MAX (zlen (rcv_bytes key token))); [|done].
      rewrite size_max_eq in *. lia. }
  destruct (sshbuf_from_ok _ _ Hb E) as [K (Hc & _)%abs_inv].
  assert (Htag : forall v, 0 <= v < 256 -> gets (sshput sshbuf_get_u8) (be_bytes 1 v) v).
  { intros v Hv. by apply gets_ssherr, gets_u8. }
  unfold rcv_bytes, token_bytes in Hc. destruct token as [t|].
  - specialize (Ht t eq_refl) as [_ Htl]. rewrite <- app_assoc in Hc.
    destruct (Htag EBOX_RECOV_TOKEN ltac:(by vm_compute) b _ K Hc) as (b1 & -> & K1 & (Hc1 & _)%abs_inv).
    change (EBOX_RECOV_TOKEN =? EBOX_RECOV_TOKEN) with true. cbn match.
    destruct (gets_ssherr _ _ _ (gets_string8 t ltac:(lia)) b1 _ K1 Hc1) as (b2 & -> & K2 & (Hc2 & _)%abs_inv).
    destruct (Htag EBOX_RECOV_KEY ltac:(by vm_compute) b2 _ K2 Hc2) as (b3 & -> & K3 & (Hc3 & _)%abs_inv).
    cbn. by destruct (gets_whole _ _ _ b3 (gets_ssherr _ _ _ (gets_string8_conceal key ltac:(lia))) K3 Hc3)
      as (b4 & -> & _).
  - destruct (Htag EBOX_RECOV_KEY ltac:(by vm_compute) b _ K Hc) as (b3 & -> & K3 & (Hc3 & _)%abs_inv).
    cbn. by destruct (gets_whole _ _ _ b3 (gets_ssherr _ _ _ (gets_string8_conceal key ltac:(lia))) K3 Hc3)
      as (b4 & -> & _).
Qed.

(** ** The boxes of the parts *)

Definition default_cipher : sshcipher := Cipher BOX_DEFAULT_CIPHER SSH_CIPHER_SSH2 8 64 0 16 0 CFLAG_CHACHAPOLY.
Definition default_digest : Z := 5.

(** Random bytes come in the number asked for; a generated key is the curve's [eph]. *)
Record rnd_ok (rnd : randoms) (eph : Z -> scalar) : Prop := {
  ro_rcv : forall n, 0 <= n -> bytes (r_rcv_iv rnd n) /\ zlen (r_rcv_iv rnd n) = n /\
                               bytes (r_rcv_key rnd n) /\ zlen (r_rcv_key rnd n) = n;
  ro_nonce : forall ci n, 0 <= n -> bytes (r_nonce rnd ci n) /\ zlen (r_nonce rnd ci n) = n;
  ro_box : forall ci i n, 0 <= n -> bytes (r_box_nonce rnd ci i n) /\ zlen (r_box_nonce rnd ci i n) = n /\
                                    zlen (r_box_iv rnd ci i n) = n;
  ro_gen : forall nid tname, sshkey_curve_nid_to_name nid = Some tname ->
    r_gen rnd nid = Ok (EcKey nid (ec_pub nid (eph nid)) (Some (eph nid))) /\
    ec_validate nid (ec_pub nid (eph nid)) = 0
}.

Section Parts.
Context (rnd : randoms) (eph : Z -> scalar) (Hrnd : rnd_ok rnd eph).

(** A sealed box for [data], made with the curve's ephemeral key. *)
Definition box_made (nid : Z) (pub : point) (data : list Z) (b : piv_ecdh_box) : Prop :=
  exists sec n,
    pdb_cipher b = Some BOX_DEFAULT_CIPHER /\ pdb_kdf b = Some BOX_DEFAULT_KDF /\
    pdb_pub b = Some (EcKey nid pub None) /\ pdb_ephem_pub b = Some (EcKey nid (ec_pub nid (eph nid)) None) /\
    ec_dh nid (eph nid) pub = Some sec /\ pdb_nonce b = whole_buf n /\ bytes n /\ zlen n = 16 /\
    pdb_iv b = whole_buf [] /\
    pdb_enc b = whole_buf (aead_enc default_cipher (box_key default_cipher default_digest sec n) [] (padded 8 data)) /\
    pdb_plain b = null_buf /\ PIV_BOX_V2 <= pdb_version b.

Definition data_ok (data : list Z) : Prop := bytes data /\ 0 < zlen data <= 254.

(** What opening leaves in it. *)
Definition box_opened (b : piv_ecdh_box) (data : list Z) : piv_ecdh_box :=
  set_plain b (Apdubuf (Some (padded 8 data)) 0 (zlen (padded 8 data)) (zlen data)).

Lemma box_made_opens nid s p data b :
  box_made nid (ec_pub nid s) data b -> data_ok data ->
  piv_box_open_offline (EcKey nid p (Some s)) b = (Ok tt, box_opened b data).
Proof.
  intros (sec & n & Hc & Hk & Hp & He & Hdh & Hn & _ & _ & Hi & Henc & _) [Hdb Hd].
  eapply (open_ok b data default_cipher default_digest nid p s (ec_pub nid (eph nid)) None n [] sec);
    try done; try lia.
  - exists BOX_DEFAULT_KDF. by split.
  - by rewrite dh_comm.
  - by left.
Qed.

(** A template part that [secret] can open, with the curve's ephemeral key. *)
Definition tpart_ok (secret : Z -> point -> scalar) (tp : ebox_tpl_part) : Prop :=
  part_ok tp /\ (forall k, etp_cak tp = Some k -> zlen (blob k) <= 512) /\
  forall nid pub pr, etp_pubkey tp = Some (EcKey nid pub pr) ->
    pub = ec_pub nid (secret nid pub) /\ exists sec, ec_dh nid (eph nid) pub = Some sec.

Definition part_made (tp : ebox_tpl_part) (data : list Z) (p : ebox_part) : Prop :=
  ep_tpl p = tp /\ ep_share p = None /\
  exists nid pub, etp_pubkey tp = Some (EcKey nid pub None) /\ box_made nid pub data (ep_box p).

(** *** Ephemeral keys in memory *)

Definition eph_key (nid : Z) : Z * sshkey := (nid, EcKey nid (ec_pub nid (eph nid)) (Some (eph nid))).
Definition eeks_made (eeks : list (Z * sshkey)) (nids : list Z) : Prop :=
  eeks = map eph_key nids /\ NoDup nids /\ Forall (fun nid => exists tname, sshkey_curve_nid_to_name nid = Some tname) nids.

Lemma ephem_lookup nids nid :
  ebox_get_ephem_for_nid (map eph_key nids) nid = if decide (nid ∈ nids) then Some (snd (eph_key nid)) else None.
Proof.
  induction nids as [|x nids IH]; [done|]. cbn [map ebox_get_ephem_for_nid eph_key].
  destruct (Z.eqb_spec x nid) as [->|Hne].
  - destruct (decide (nid ∈ nid :: nids)) as [|Hn]; [done|]. exfalso. apply Hn. set_solver.
  - rewrite IH. destruct (decide (nid ∈ nids)), (decide (nid ∈ x :: nids)); try done; set_solver.
Qed.

(** Asking for a curve's key adds it at most once. *)
Lemma make_ephem_ok eeks nids nid tname :
  eeks_made eeks nids -> sshkey_curve_nid_to_name nid = Some tname ->
  exists nids', ebox_make_ephem_for_nid (r_gen rnd) nid eeks = (Ok (snd (eph_key nid)), map eph_key nids') /\
    eeks_made (map eph_key nids') nids' /\ nids ⊆ nids' /\ nid ∈ nids'.
Proof.
  intros (-> & Hnd & Hc) Ht. destruct (ro_gen _ _ Hrnd nid tname Ht) as [Hg _].
  unfold ebox_make_ephem_for_nid, cbind at 1, cget. rewrite ephem_lookup.
  destruct (decide (nid ∈ nids)) as [Hin|Hin].
  - exists nids. split_and!; try done.
  - rewrite Hg. exists (nid :: nids). split_and!; [done| |set_solver|set_solver].
    split_and!; [done|by constructor|]. constructor; [by exists tname|done].
Qed.

Lemma make_part_ok ci i tp data eeks nids secret :
  tpart_ok secret tp -> data_ok data -> eeks_made eeks nids ->
  exists p nids', create_part rnd ci i tp data eeks = (Ok p, map eph_key nids') /\
    eeks_made (map eph_key nids') nids' /\ nids ⊆ nids' /\ part_made tp data p /\
    (forall nid pub pr, etp_pubkey tp = Some (EcKey nid pub pr) -> nid ∈ nids').
Proof.
  intros (Hpo & _ & Hsec) [Hdb Hdl] He. pose proof Hpo as [(k & Hk & nid & pub & tname & -> & Ht & Hv) _ _ Hcak _].
  destruct (Hsec _ _ _ Hk) as (_ & sec & Hdh).
  destruct (make_ephem_ok eeks nids nid tname He Ht) as (nids' & Emk & He' & Hsub & Hin).
  destruct (ro_box _ _ Hrnd ci i 16 ltac:(lia)) as (Hnb & Hnl & _).
  destruct (ro_box _ _ Hrnd ci i 0 ltac:(lia)) as (_ & _ & Hil).
  unfold create_part. rewrite Hk, (cbind_ok _ _ _ _ _ Emk). set (b := Box _ _ _ _ _ _ _ _ _ _ _ _ _ _).
  assert (r_box_iv rnd ci i 0 = []) as Hiv by (destruct (r_box_iv rnd ci i 0); [done|rewrite zlen_cons in Hil; pose proof (zlen_nonneg l); lia]).
  rewrite (seal_ok b data default_cipher default_digest nid pub None (ec_pub nid (eph nid)) (eph nid) (Er 0)
    (r_box_nonce rnd ci i) (r_box_iv rnd ci i) (r_box_nonce rnd ci i 16) sec).
  - eexists _, nids'. split; [reflexivity|]. split_and!; [exact He'|exact Hsub| |].
    + split; [|split; [done|]].
      * cbn [ep_tpl]. destruct tp as [nm pk ck sl g]. cbn [etp_pubkey etp_cak] in *. subst pk.
        unfold clone_part. cbn. f_equal. destruct ck as [k|]; [|done]. cbn. f_equal. by apply (Hcak k).
      * exists nid, pub. split; [done|]. exists sec, (r_box_nonce rnd ci i 16). cbn [ep_box sealed_box pdb_cipher
          pdb_kdf pdb_pub pdb_ephem_pub pdb_nonce pdb_iv pdb_enc pdb_plain pdb_version].
        change (cipher_ivlen default_cipher) with 0. change (cipher_blocksize default_cipher) with 8. rewrite Hiv.
        split_and!; done.
    + intros ? ? ? [= <- _ _]. exact Hin.
  - constructor; [reflexivity|lia|by vm_compute|by vm_compute|by vm_compute|by vm_compute].
  - reflexivity.
  - exact Hdh.
  - by left.
Qed.

(** *** All parts of a configuration *)

Definition uses (nids : list Z) (tp : ebox_tpl_part) : Prop :=
  forall nid pub pr, etp_pubkey tp = Some (EcKey nid pub pr) -> nid ∈ nids.
Lemma uses_mono nids nids' tps : nids ⊆ nids' -> Forall (uses nids) tps -> Forall (uses nids') tps.
Proof. intros Hs H. eapply Forall_impl; [exact H|]. intros tp Ht nid pub pr E. apply Hs. by eapply Ht. Qed.

(** [datas] are what [create_parts] seals from part [i] on. *)
Definition part_datas (shares : option (list sss_Keyshare)) (key : list Z) (i : nat) (datas : list (list Z)) : Prop :=
  forall j d, datas !! j = Some d ->
    match shares with
    | None => d = key
    | Some ss => zget ss (u8 (Z.of_nat (i + j) + 1) - 1) = Some d
    end.

Lemma make_parts_ok ci shares key tps datas i eeks nids secret :
  Forall (tpart_ok secret) tps -> Forall data_ok datas -> length datas = length tps ->
  part_datas shares key i datas -> eeks_made eeks nids ->
  exists ps nids', create_parts rnd ci i shares key tps eeks = (Ok ps, map eph_key nids') /\
    eeks_made (map eph_key nids') nids' /\ nids ⊆ nids' /\ Forall3 part_made tps datas ps /\
    Forall (uses nids') tps.
Proof.
  intros Htp. revert datas i eeks nids. induction Htp as [|tp tps Htp _ IH]; intros datas i eeks nids Hd Hl Hpd He.
  - destruct datas; [|done]. exists [], nids. pose proof He as [-> _]. split_and!; try done; constructor.
  - destruct datas as [|d datas]; [done|]. inversion_clear Hd as [|? ? Hd1 Hd2]. cbn [create_parts].
    assert (Hfst : (match shares with None => Ok key | Some ss =>
      match zget ss (u8 (Z.of_nat i + 1) - 1) with Some s => Ok s | None => Fault end end) = @Ok errf_t _ d).
    { specialize (Hpd 0%nat d eq_refl). rewrite Nat.add_0_r in Hpd. destruct shares as [ss|]; [by rewrite Hpd|by subst]. }
    unfold lift, cbind at 1. rewrite Hfst.
    destruct (make_part_ok ci i tp d eeks nids secret Htp Hd1 He) as (p & n1 & E1 & He1 & Hs1 & Hp1 & Hu1).
    destruct (IH datas (S i) _ n1 Hd2 ltac:(by injection Hl) ltac:(intros j d' Hj; replace (S i + j)%nat with (i + S j)%nat by lia; by apply (Hpd (S j))) He1)
      as (ps & n2 & E2 & He2 & Hs2 & Hp2 & Hu2).
    exists (p :: ps), n2. rewrite (cbind_ok _ _ _ _ _ E1), (cbind_ok _ _ _ _ _ E2).
    split; [reflexivity|]. split; [exact He2|]. split; [by trans n1|]. split; [by constructor|].
    constructor; [|exact Hu2]. intros nid pub pr Hk. apply Hs2. by eapply Hu1.
Qed.

(** *** Configurations *)

Definition tconfig_ok (secret : Z -> point -> scalar) (tc : ebox_tpl_config) : Prop :=
  config_ok tc /\ Forall (tpart_ok secret) (etc_parts tc) /\
  (etc_type tc = EBOX_RECOVERY -> 1 <= etc_n tc <= etc_m tc).

(** A configuration made for [tc]: each part holds the key or its share. *)
Definition config_made (rcv_key key : list Z) (tc : ebox_tpl_config) (c : ebox_config) : Prop :=
  etc_type (ec_tpl c) = etc_type tc /\ etc_n (ec_tpl c) = etc_n tc /\ etc_m (ec_tpl c) = etc_m tc /\
  exists datas nonce, Forall3 part_made (etc_parts tc) datas (ec_parts c) /\ Forall data_ok datas /\
    default [] (ec_nonce c) = nonce /\
    if etc_type tc =? EBOX_RECOVERY then
      bytes nonce /\ zlen nonce = 32 /\
      exists poly, sss_create_keyshares (xor_bytes nonce rcv_key) (Z.to_nat (etc_m tc)) (Z.to_nat (etc_n tc)) poly
                   = Some datas
    else nonce = [] /\ Forall (fun d => d = key) datas.

Lemma shares_data_ok key m n poly shares :
  (m <= 255)%nat -> sss_create_keyshares key m n poly = Some shares ->
  length shares = m /\ Forall data_ok shares.
Proof.
  intros Hm Hs. destruct (shares_made _ _ _ _ _ Hm Hs) as (Hl & _ & Hf). split; [done|].
  apply Forall_forall. intros s Hin. rewrite Forall_forall in Hf. destruct (Hf s Hin) as [Hl33 Hb].
  unfold data_ok, zlen. rewrite Hl33. split; [exact Hb|]. by vm_compute.
Qed.

Lemma sss_create_some key m n poly :
  (1 <= n <= m)%nat -> exists shares, sss_create_keyshares key m n poly = Some shares.
Proof.
  intros H. unfold sss_create_keyshares. destruct (Nat.eqb_spec m 0); [lia|]. destruct (Nat.eqb_spec n 0); [lia|].
  destruct (Nat.leb_spec n m); [|lia]. by eexists.
Qed.

Lemma make_config_ok rcv_key key ci tc eeks nids secret :
  tconfig_ok secret tc -> data_ok key -> zlen rcv_key = 32 -> eeks_made eeks nids ->
  exists c nids', create_config rnd rcv_key key ci tc eeks = (Ok c, map eph_key nids') /\
    eeks_made (map eph_key nids') nids' /\ nids ⊆ nids' /\ config_made rcv_key key tc c /\
    Forall (uses nids') (etc_parts tc).
Proof.
  intros ([_ _ [Hm Hml] _] & Htp & Hn) Hk Hrk He. unfold create_config.
  destruct (Z.eqb_spec (etc_type tc) EBOX_RECOVERY) as [Hty|Hty].
  - rewrite Hrk. replace (32 =? 32) with true by done. cbn [verify]. rewrite cbind_ret_l.
    destruct (ro_nonce _ _ Hrnd ci 32 ltac:(lia)) as [Hnb Hnl]. specialize (Hn Hty).
    destruct (sss_create_some (xor_bytes (r_nonce rnd ci 32) rcv_key) (Z.to_nat (etc_m tc)) (Z.to_nat (etc_n tc))
      (r_poly rnd ci)) as [shares Hs]; [lia|]. rewrite Hs.
    destruct (fun H => shares_data_ok _ _ _ _ _ H Hs) as [Hsl Hsd]; [lia|].
    assert (length shares = length (etc_parts tc)) as Hll by (unfold zlen in *; lia).
    destruct (make_parts_ok ci (Some shares) key (etc_parts tc) shares 0 eeks nids secret Htp Hsd)
      as (ps & n' & E & He' & Hsub & Hp & Hu); [done| |done|].
    { intros j d Hj. pose proof (lookup_lt_Some _ _ _ Hj). rewrite wrap_small by (unfold zlen in *; lia).
      unfold zget. replace (Z.of_nat (0 + j) + 1 - 1) with (Z.of_nat j) by lia.
      destruct (Z.leb_spec 0 (Z.of_nat j)); [|lia]. by rewrite Nat2Z.id. }
    rewrite (cbind_ok _ _ _ _ _ E). eexists _, n'. split; [reflexivity|]. split_and!; try done.
    split_and!; try done. exists shares, (r_nonce rnd ci 32). rewrite (proj2 (Z.eqb_eq _ _) Hty).
    split_and!; try done. by exists (r_poly rnd ci).
  - destruct (make_parts_ok ci None key (etc_parts tc) (replicate (length (etc_parts tc)) key) 0 eeks nids secret Htp)
      as (ps & n' & E & He' & Hsub & Hp & Hu); [by apply Forall_replicate|by rewrite length_replicate| |done|].
    { intros j d Hj. by apply lookup_replicate in Hj as [-> _]. }
    rewrite (cbind_ok _ _ _ _ _ E). eexists _, n'. split; [reflexivity|]. split_and!; try done.
    split_and!; try done. exists (replicate (length (etc_parts tc)) key), []. rewrite (proj2 (Z.eqb_neq _ _) Hty).
    split_and!; try done; by apply Forall_replicate.
Qed.

Lemma make_configs_ok rcv_key key tcs ci eeks nids secret :
  Forall (tconfig_ok secret) tcs -> data_ok key -> zlen rcv_key = 32 -> eeks_made eeks nids ->
  exists cs nids', create_configs rnd rcv_key key ci tcs eeks = (Ok cs, map eph_key nids') /\
    eeks_made (map eph_key nids') nids' /\ nids ⊆ nids' /\ Forall2 (config_made rcv_key key) tcs cs /\
    Forall (fun tc => Forall (uses nids') (etc_parts tc)) tcs.
Proof.
  intros Htc Hk Hrk. revert ci eeks nids. induction Htc as [|tc tcs Htc _ IH]; intros ci eeks nids He.
  - exists [], nids. pose proof He as [-> _]. split_and!; try done; constructor.
  - cbn [create_configs].
    destruct (make_config_ok rcv_key key ci tc eeks nids secret Htc Hk Hrk He) as (c & n1 & E1 & He1 & Hs1 & Hc1 & Hu1).
    destruct (IH (S ci) _ n1 He1) as (cs & n2 & E2 & He2 & Hs2 & Hc2 & Hu2).
    exists (c :: cs), n2. rewrite (cbind_ok _ _ _ _ _ E1), (cbind_ok _ _ _ _ _ E2).
    split; [reflexivity|]. split; [exact He2|]. split; [by trans n1|]. split; [by constructor|].
    constructor; [by apply (uses_mono n1)|exact Hu2].
Qed.

(** ** Through the wire *)

Definition wire_of_part (p : ebox_part) (nid : Z) (pub : point) (n enc : list Z) : part_wire :=
  let t := ep_tpl p in
  PW (etp_name t) (etp_cak t) (etp_slot t) (etp_guid t) nid pub (ec_pub nid (eph nid)) BOX_DEFAULT_CIPHER
    BOX_DEFAULT_KDF n [] enc.

Lemma zlen_field tag d : zlen (fields_bytes [(tag, d)]) = 1 + zlen d.
Proof. unfold fields_bytes. cbn [flat_map fst snd]. by rewrite app_nil_r, zlen_app, zlen_be_bytes. Qed.

Lemma pw_bytes_small w : pw_ok w -> (forall k, pw_cak w = Some k -> zlen (blob k) <= 512) ->
  zlen (pw_cipher w) <= 32 -> zlen (pw_kdf w) <= 32 -> zlen (pw_nonce w) <= 32 -> zlen (pw_iv w) <= 32 ->
  zlen (pw_enc w) <= 512 -> zlen (pw_bytes w) <= 2048.
Proof.
  intros [[_ Hg] Hn _ _ Hk _ _] Hcak Hc Hd Hno Hi He.
  destruct (key_ok_curve _ _ Hk) as (_ & (_ & Hcf & _) & _). pose proof (oct_len (pw_nid w) (pw_pub w)) as Ho.
  change SSHBUF_MAX_ECPOINT with 133 in Ho.
  assert (Hnm : zlen (fields_bytes (name_field (pw_tpl w))) <= 256).
  { unfold name_field, pw_tpl. cbn [etp_name]. destruct (pw_name w) as [s|]; [|by vm_compute].
    destruct (Hn s eq_refl) as (_ & Hs & _). rewrite zlen_field, zlen_str8. lia. }
  assert (Hck : zlen (fields_bytes (cak_field (pw_tpl w))) <= 517).
  { unfold cak_field, pw_tpl. cbn [etp_cak]. destruct (pw_cak w) as [k|]; [|by vm_compute].
    specialize (Hcak k eq_refl). rewrite zlen_field, zlen_str32. lia. }
  assert (Hsl : zlen (fields_bytes (slot_field (pw_tpl w))) <= 2).
  { unfold slot_field. destruct (_ =? _); [by vm_compute|]. rewrite zlen_field, zlen_be_bytes. lia. }
  unfold pw_bytes, pw_fields. rewrite !fields_bytes_app, !zlen_app, !zlen_field, zlen_be_bytes.
  unfold pw_body. rewrite !zlen_app, !zlen_str8, zlen_str32. lia.
Qed.

Lemma part_made_wire secret tp data p :
  part_made tp data p -> tpart_ok secret tp -> data_ok data ->
  exists w, part_written p w /\ pw_ok w /\ zlen (pw_bytes w) <= 2048 /\
    (exists pub, etp_pubkey tp = Some (EcKey (pw_nid w) pub None)) /\ pw_ephem w = ec_pub (pw_nid w) (eph (pw_nid w)) /\
    forall id, part_made tp data (part_of_wire id w).
Proof.
  intros (Ht & _ & nid & pub & Hk & sec & n & Hc & Hd & Hp & He & Hdh & Hn & Hnb & Hnl & Hi & Henc & Hpl & Hv)
    (Hpo & Hcak & _) [Hdb Hdl].
  set (enc := aead_enc _ _ _ _) in Henc. exists (wire_of_part p nid pub n enc).
  assert (Hel : bytes enc /\ zlen enc <= 512).
  { pose proof (box_args default_cipher default_digest sec n [] data eq_refl eq_refl ltac:(by vm_compute) eq_refl Hdb) as Hca.
    unfold enc. split; [by apply aead_bytes|]. rewrite aead_len, zlen_padded by (done || lia).
    change (cipher_authlen default_cipher) with 16. pose proof (pad_len_range 8 (zlen data)). lia. }
  assert (Hok : pw_ok (wire_of_part p nid pub n enc)).
  { rewrite <- Ht in Hpo. destruct Hpo as [(k & Hk2 & Hko) Hg Hnm Hck Hs]. rewrite Ht, Hk in Hk2. injection Hk2 as <-.
    constructor; cbn; try done.
    - split; (split_and!; [apply bytesb_spec; reflexivity|vm_compute; discriminate|reflexivity]).
    - unfold str8_ok. split_and!; try done; try lia; [apply Hel|]. rewrite size_max_eq. lia. }
  split_and!; [|exact Hok| |by exists pub|done|].
  - unfold part_written. cbn. rewrite Hn, Hi, Henc. split_and!; try done; try apply raw_whole; by exists None.
  - apply pw_bytes_small; cbn; try done; [by rewrite Ht|lia|apply Hel].
  - intros id. split; [|split; [done|]].
    + cbn. rewrite Ht. destruct tp as [nm pk ck sl g]. cbn in *. by subst pk.
    + exists nid, pub. split; [done|]. exists sec, n. by split_and!.
Qed.

Lemma parts_made_wire secret tps datas ps :
  Forall3 part_made tps datas ps -> Forall (tpart_ok secret) tps -> Forall data_ok datas ->
  exists ws, Forall2 part_written ps ws /\ Forall pw_ok ws /\ zlen (flat_map pw_bytes ws) <= 2048 * zlen tps /\
    Forall2 (fun tp w => (exists pub, etp_pubkey tp = Some (EcKey (pw_nid w) pub None)) /\
      pw_ephem w = ec_pub (pw_nid w) (eph (pw_nid w))) tps ws /\
    forall id, Forall3 part_made tps datas (parts_of_wire id ws).
Proof.
  induction 1 as [|tp d p tps datas ps Hp _ IH]; intros Ht Hd.
  - exists []. split_and!; try constructor. by vm_compute.
  - apply Forall_cons in Ht as [Ht1 Ht2]. apply Forall_cons in Hd as [Hd1 Hd2].
    destruct (part_made_wire secret tp d p Hp Ht1 Hd1) as (w & H1 & H2 & H3 & H4 & H5 & H6).
    destruct IH as (ws & G1 & G2 & G3 & G4 & G5); [done..|]. exists (w :: ws).
    split_and!; [by constructor|by constructor| |by constructor|].
    + cbn [flat_map]. rewrite zlen_app, zlen_cons. lia.
    + intros id. constructor; [apply H6|apply G5].
Qed.

Lemma config_made_wire secret rcv_key key tc c :
  config_made rcv_key key tc c -> tconfig_ok secret tc ->
  exists w, config_written c w /\ cw_ok w /\ zlen (cw_bytes w) <= 524288 /\
    Forall (fun p => exists tp pub, tp ∈ etc_parts tc /\ etp_pubkey tp = Some (EcKey (pw_nid p) pub None) /\
      pw_ephem p = ec_pub (pw_nid p) (eph (pw_nid p))) (cw_parts w) /\
    config_made rcv_key key tc (config_of_wire w).
Proof.
  intros (Hty & Hn & Hm & datas & nonce & Hp & Hd & Hno & Hmade) ([Kt Kn [Km Kl] _] & Htp & _).
  destruct (parts_made_wire secret _ _ _ Hp Htp Hd) as (ws & W1 & W2 & W3 & W4 & W5).
  assert (zlen ws = zlen (etc_parts tc)) as Hl by (unfold zlen; by rewrite (Forall2_length _ _ _ W4)).
  assert (Hnb : str8_ok nonce /\ (etc_type tc = EBOX_PRIMARY -> nonce = [])).
  { destruct (Z.eqb_spec (etc_type tc) EBOX_RECOVERY) as [Hr|Hr].
    - destruct Hmade as (Hb & Hb32 & _). split; [split; [done|lia]|]. rewrite Hr. by vm_compute.
    - destruct Hmade as [-> _]. split; [|done]. split; [apply Forall_nil_2|by vm_compute]. }
  destruct Hnb as [Hns Hnp]. exists (CW (etc_type tc) (etc_n tc) nonce ws). split_and!.
  - unfold config_written. cbn. rewrite Hl. by split_and!; congruence.
  - constructor; cbn; try done; [|by rewrite Hl]. destruct Kt as [[Kt Kt1]|Kt]; [left|by right]. by split_and!; auto.
  - unfold cw_bytes. cbn [cw_type cw_n cw_parts cw_nonce]. rewrite !zlen_app, zlen_str8, !zlen_be_bytes. destruct Hns as [_ Hnl]. lia.
  - cbn [cw_parts]. apply Forall_forall. intros w Hw. apply list_elem_of_lookup in Hw as [j Hj].
    destruct (Forall2_lookup_r _ _ _ _ _ W4 Hj) as (tp & Htj & (pub & Hpub) & He). exists tp, pub.
    split_and!; [by eapply list_elem_of_lookup_2|done|done].
  - split_and!; try done; [cbn; congruence|]. exists datas, nonce. split_and!; [apply W5|done|done|exact Hmade].
Qed.

(** *** The whole ebox *)

Lemma zlen_flat_map {A} (f : A -> list Z) k l :
  Forall (fun x => zlen (f x) <= k) l -> zlen (flat_map f l) <= k * zlen l.
Proof. induction 1; cbn [flat_map]; [change (0 <= k * 0); lia|]. rewrite zlen_app, zlen_cons. lia. Qed.

Lemma nids_few nids :
  NoDup nids -> Forall (fun nid => exists tname, sshkey_curve_nid_to_name nid = Some tname) nids -> zlen nids <= 3.
Proof.
  intros Hnd Hc. unfold zlen. change 3 with (Z.of_nat (length [NID_X9_62_prime256v1; NID_secp384r1; NID_secp521r1])).
  apply Nat2Z.inj_le, submseteq_length, NoDup_submseteq; [done|]. intros nid Hin. rewrite Forall_forall in Hc.
  destruct (Hc nid Hin) as [tname Ht]. unfold sshkey_curve_nid_to_name in Ht.
  destruct (Z.eqb_spec nid NID_X9_62_prime256v1) as [->|]; [set_solver|].
  destruct (Z.eqb_spec nid NID_secp384r1) as [->|]; [set_solver|].
  destruct (Z.eqb_spec nid NID_secp521r1) as [->|]; [set_solver|done].
Qed.

Definition eph_pub (nid : Z) : Z * point := (nid, ec_pub nid (eph nid)).

Lemma eeks_made_wire nids :
  eeks_made (map eph_key nids) nids ->
  Forall2 (fun (k : Z * sshkey) (e : Z * point) => exists pr, k = (fst e, EcKey (fst e) (snd e) pr))
    (map eph_key nids) (map eph_pub nids) /\
  NoDup (map fst (map eph_pub nids)) /\
  Forall (fun e => key_ok (EcKey (fst e) (snd e) None)) (map eph_pub nids) /\
  zlen (map eph_pub nids) <= 3 /\ zlen (flat_map eek_bytes (map eph_pub nids)) <= 1200.
Proof.
  intros (_ & Hnd & Hc). pose proof (nids_few nids Hnd Hc) as H3.
  assert (Hk : Forall (fun e => key_ok (EcKey (fst e) (snd e) None)) (map eph_pub nids)).
  { apply Forall_map. eapply Forall_impl; [exact Hc|]. cbn. intros nid [tname Ht].
    destruct (ro_gen _ _ Hrnd nid tname Ht) as [_ Hv]. by eexists _, _, _. }
  assert (zlen (map eph_pub nids) <= 3) as H3' by (unfold zlen in *; by rewrite length_map).
  split_and!; try done.
  - apply Forall2_fmap_2, Forall_Forall2_diag, Forall_true. intros nid. cbn. by exists (Some (eph nid)).
  - rewrite map_map. cbn. by rewrite map_id.
  - etrans; [apply (zlen_flat_map _ 400)|lia]. eapply Forall_impl; [exact Hk|]. intros e He.
    destruct (key_ok_curve _ _ He) as (_ & (_ & Hl & _) & _). pose proof (oct_len (fst e) (snd e)) as Ho.
    change SSHBUF_MAX_ECPOINT with 133 in Ho. unfold eek_bytes. rewrite zlen_app, !zlen_str8. lia.
Qed.

Definition rcv_cipher : sshcipher := Cipher (zs "aes256-gcm") SSH_CIPHER_SSH2 16 32 12 16 0 0.

(** What may be created: a template with 1 to 255 good configurations, a key and an optional token
    that fit the recovery box together. *)
Record creatable (secret : Z -> point -> scalar) (tpl : ebox_tpl) (key : list Z) (token : option (list Z))
    : Prop := {
  ct_configs : 1 <= zlen (et_configs tpl) <= 255;
  ct_each : Forall (tconfig_ok secret) (et_configs tpl);
  ct_key : bytes key /\ 0 < zlen key;
  ct_token : forall t, token = Some t -> bytes t;
  ct_size : zlen key + zlen (default [] token) <= 219
}.

Lemma creatable_secret secret tpl key token :
  creatable secret tpl key token ->
  secret_ok key token /\ data_ok key /\ zlen (rcv_bytes key token) <= 223.
Proof.
  intros [_ _ [Hk Hkl] Ht Hs]. pose proof (zlen_nonneg (default [] token)).
  split_and!; [split|..].
  - split; [done|lia].
  - intros t ->. cbn in *. split; [by apply Ht|]. change (zlen t <= 254). change (default [] (Some t)) with t in *. lia.
  - split; [done|lia].
  - unfold rcv_bytes, token_bytes. rewrite !zlen_app, zlen_str8, zlen_be_bytes. destruct token as [t|].
    + rewrite zlen_app, zlen_str8, zlen_be_bytes. change (default [] (Some t)) with t in *. lia.
    + change (zlen (@nil Z)) with 0. lia.
Qed.

(** An ebox made for [tpl], as it is after creation and again after reading. *)
Record ebox_made (tpl : ebox_tpl) (key : list Z) (token : option (list Z)) (box : ebox) : Prop := {
  em_rcv : rcv_sealed box (r_rcv_key rnd 32) (rcv_bytes key token);
  em_configs : Forall2 (config_made (r_rcv_key rnd 32) key) (et_configs tpl) (e_configs box)
}.

Lemma create_ok secret tpl key token :
  creatable secret tpl key token ->
  exists box nids, ebox_create rnd tpl key token = Ok box /\
    e_version box = EBOX_V3 /\ e_type box = EBOX_KEY /\ e_rcv_cipher box = Some (zs "aes256-gcm") /\
    e_rcv_iv box = Some (r_rcv_iv rnd 12) /\
    e_rcv_enc box = Some (aead_enc rcv_cipher (r_rcv_key rnd 32) (r_rcv_iv rnd 12) (padded 16 (rcv_bytes key token))) /\
    e_ephemkeys box = map eph_key nids /\ eeks_made (map eph_key nids) nids /\
    Forall2 (config_made (r_rcv_key rnd 32) key) (et_configs tpl) (e_configs box) /\
    Forall (fun tc => Forall (uses nids) (etc_parts tc)) (et_configs tpl).
Proof.
  intros Hc. destruct (creatable_secret _ _ _ _ Hc) as (Hs & Hd & _). destruct (ro_rcv _ _ Hrnd 32 ltac:(lia)) as (_ & _ & _ & Hrk).
  destruct (make_configs_ok (r_rcv_key rnd 32) key (et_configs tpl) 0 [] [] secret (ct_each _ _ _ _ Hc) Hd Hrk)
    as (cs & nids & E & He & _ & Hcm & Hu).
  { split_and!; [done|apply NoDup_nil_2|apply Forall_nil_2]. }
  unfold ebox_create. rewrite (recovery_data_ok _ _ Hs).
  rewrite (encrypt_recovery_ok _ (zs "aes256-gcm") rcv_cipher _ _ (rcv_bytes key token)) by (reflexivity || by vm_compute).
  change (cipher_keylen rcv_cipher) with 32. change (cipher_ivlen rcv_cipher) with 12.
  change (cipher_blocksize rcv_cipher) with 16. cbn [with_rcv e_rcv_key].
  change (default [] (Some (r_rcv_key rnd 32))) with (r_rcv_key rnd 32). rewrite E.
  eexists _, nids. split; [reflexivity|]. by split_and!.
Qed.

Lemma configs_made_wire secret rcv_key key tcs cs :
  Forall2 (config_made rcv_key key) tcs cs -> Forall (tconfig_ok secret) tcs ->
  exists ws, Forall2 config_written cs ws /\ Forall cw_ok ws /\ zlen (flat_map cw_bytes ws) <= 524288 * zlen tcs /\
    Forall2 (fun tc w => Forall (fun p => exists tp pub, tp ∈ etc_parts tc /\
      etp_pubkey tp = Some (EcKey (pw_nid p) pub None) /\ pw_ephem p = ec_pub (pw_nid p) (eph (pw_nid p))) (cw_parts w))
      tcs ws /\
    Forall2 (config_made rcv_key key) tcs (map config_of_wire ws).
Proof.
  induction 1 as [|tc c tcs cs Hc _ IH]; intros Ht.
  - exists []. split_and!; try constructor. by vm_compute.
  - apply Forall_cons in Ht as [Ht1 Ht2].
    destruct (config_made_wire secret _ _ _ _ Hc Ht1) as (w & H1 & H2 & H3 & H4 & H5).
    destruct (IH Ht2) as (ws & G1 & G2 & G3 & G4 & G5). exists (w :: ws).
    split_and!; [by constructor|by constructor| |by constructor|by constructor].
    cbn [flat_map]. rewrite zlen_app, zlen_cons. lia.
Qed.

Definition locked (box : ebox) : Prop := e_key box = None /\ e_token box = None /\ e_rcv_key box = None.

(** A wire form with another type in it. *)
Definition wire_type (ty : Z) (w : ebox_wire) : ebox_wire :=
  EW ty (ew_cipher w) (ew_iv w) (ew_enc w) (ew_eeks w) (ew_configs w).

(** Creation succeeds; the ebox has a wire form, of whatever type, from which the same is read. *)
Lemma create_wire secret tpl key token :
  creatable secret tpl key token ->
  exists box w, ebox_create rnd tpl key token = Ok box /\ ebox_written box w /\ ew_type w = EBOX_KEY /\
    (forall ty, ty = EBOX_KEY \/ ty = EBOX_STREAM ->
       ew_ok (wire_type ty w) /\ ebox_made tpl key token (ebox_of_wire (wire_type ty w))) /\
    zlen (ew_bytes w) <= SSHBUF_SIZE_MAX - 65536.
Proof.
  intros Hc. destruct (create_ok _ _ _ _ Hc) as (box & nids & E & Hv & Hty & Hci & Hiv & Hen & Hek & Hem & Hcm & Hu).
  destruct (creatable_secret _ _ _ _ Hc) as (Hs & _ & Hsz). destruct (rcv_bytes_ok _ _ Hs) as [Hrb Hrl].
  destruct (ro_rcv _ _ Hrnd 12 ltac:(lia)) as (Hib & Hil & _). destruct (ro_rcv _ _ Hrnd 32 ltac:(lia)) as (_ & _ & Hkb & Hkl).
  destruct (configs_made_wire secret _ _ _ _ Hcm (ct_each _ _ _ _ Hc)) as (ws & W1 & W2 & W3 & W4 & W5).
  destruct (eeks_made_wire nids Hem) as (K1 & K2 & K3 & K4 & K5). pose proof (ct_configs _ _ _ _ Hc) as Hn.
  set (enc := aead_enc _ _ _ _) in Hen.
  assert (Hencl : bytes enc /\ zlen enc <= 254).
  { assert (cipher_args rcv_cipher (r_rcv_key rnd 32) (r_rcv_iv rnd 12) (padded 16 (rcv_bytes key token))) as Hca.
    { split; [done|]. split; [done|]. split; [by apply padded_bytes|by apply (padded_blocks rcv_cipher)]. }
    unfold enc. split; [by apply aead_bytes|]. rewrite aead_len, zlen_padded by (done || lia).
    change (cipher_authlen rcv_cipher) with 16. unfold pad_len.
    pose proof (Z.div_mod (zlen (rcv_bytes key token)) 16). pose proof (Z.mod_pos_bound (zlen (rcv_bytes key token)) 16). lia. }
  assert (Hlen : zlen ws = zlen (et_configs tpl)) by (unfold zlen; by rewrite (Forall2_length _ _ _ W4)).
  set (w := EW EBOX_KEY (zs "aes256-gcm") (r_rcv_iv rnd 12) enc (map eph_pub nids) ws).
  assert (Hwr : ebox_written box w).
  { unfold ebox_written. rewrite Hv, Hty, Hci, Hiv, Hen, Hek. by split_and!. }
  assert (Hwok : forall ty, ty = EBOX_KEY \/ ty = EBOX_STREAM -> ew_ok (wire_type ty w)).
  { intros ty Hty'. constructor; cbn [w wire_type ew_type ew_cipher ew_iv ew_enc ew_eeks ew_configs]; try done.
    - split_and!; [apply bytesb_spec; reflexivity|vm_compute; discriminate|reflexivity].
    - split; [split; [done|lia]|exact Hencl].
    - split_and!; [lia|done|done].
    - by rewrite Hlen.
    - apply Forall_forall. intros c Hcw. apply list_elem_of_lookup in Hcw as [j Hj].
      destruct (Forall2_lookup_r _ _ _ _ _ W4 Hj) as (tc & Htj & Hps). eapply Forall_impl; [exact Hps|].
      cbn. intros p (tp & pub & Hin & Hpub & Hep). rewrite Forall_forall in Hu.
      assert (pw_nid p ∈ nids) as Hnid.
      { eapply (proj1 (Forall_forall _ _) (Hu tc (list_elem_of_lookup_2 _ _ _ Htj)) tp Hin). exact Hpub. }
      apply list_elem_of_fmap. exists (pw_nid p). by rewrite Hep. }
  exists box, w. split; [exact E|]. split; [exact Hwr|]. split; [reflexivity|]. split.
  - intros ty Hty'. split; [by apply Hwok|]. constructor; [|exact W5].
    exists (zs "aes256-gcm"), rcv_cipher, (r_rcv_iv rnd 12).
    assert (cipher_by_name (zs "aes256-gcm") = Some rcv_cipher) as Hcn by (vm_compute; reflexivity).
    exact (conj eq_refl (conj Hcn (conj eq_refl (conj (conj Hkb Hkl) (conj Hrb (conj eq_refl (conj Hil eq_refl))))))).
  - unfold ew_bytes. cbn [w ew_type ew_cipher ew_iv ew_enc ew_eeks ew_configs].
    rewrite !zlen_app, !zlen_be_bytes, !zlen_str8.
    assert (zlen (zs "aes256-gcm") = 10) as -> by reflexivity. rewrite size_max_eq. lia.
Qed.

(** Creation succeeds; the ebox can be written out; what is read back is locked and holds the same. *)
Lemma create_read secret tpl key token :
  creatable secret tpl key token ->
  exists box buf box' buf', ebox_create rnd tpl key token = Ok box /\
    sshbuf_put_ebox box sshbuf_new = (Ok tt, buf) /\ sshbuf_get_ebox buf = (Ok box', buf') /\
    ebox_made tpl key token box' /\ locked box'.
Proof.
  intros Hc. destruct (create_wire _ _ _ _ Hc) as (box & w & E & Hwr & Hty & Hok & Hbl).
  destruct (Hok EBOX_KEY (or_introl eq_refl)) as [Hwok Hm]. rewrite <- Hty in Hwok, Hm.
  destruct (puts_new _ _ (puts_ebox box w Hwr ltac:(by destruct w)) ltac:(lia)) as (b & Ep & Kb & Hb & _).
  destruct (gets_whole _ _ _ b (gets_ebox w ltac:(by destruct w)) Kb Hb) as (b' & Eg & _).
  exists box, b, (ebox_of_wire w), b'. split; [exact E|]. split; [exact Ep|]. split; [exact Eg|].
  split; [by destruct w|exact (conj eq_refl (conj eq_refl eq_refl))].
Qed.

(** ** Opening parts *)

(** The tokens open the parts that [sel] marks. *)
Definition open_part (secret : Z -> point -> scalar) (p : ebox_part) : ebox_part :=
  match etp_pubkey (ep_tpl p) with
  | Some (EcKey nid pub _) =>
      EboxPart (ep_tpl p) (snd (piv_box_open_offline (EcKey nid pub (Some (secret nid pub))) (ep_box p)))
        (ep_id p) (ep_share p)
  | _ => p
  end.
Definition open_parts (secret : Z -> point -> scalar) (sel : list bool) (ps : list ebox_part) : list ebox_part :=
  zip_with (fun (b : bool) p => if b then open_part secret p else p) sel ps.
Definition open_config (secret : Z -> point -> scalar) (sel : list bool) (c : ebox_config) : ebox_config :=
  EboxConfig (ec_tpl c) (open_parts secret sel (ec_parts c)) (ec_nonce c).

(** The elements that [sel] marks, and how many. *)
Fixpoint mask {A} (sel : list bool) (l : list A) : list A :=
  match sel, l with
  | b :: sel, x :: l => if b then x :: mask sel l else mask sel l
  | _, _ => []
  end.
Fixpoint marked (sel : list bool) : nat :=
  match sel with [] => 0 | b :: r => ((if b then 1 else 0) + marked r)%nat end.

Lemma length_mask {A} sel (l : list A) : length sel = length l -> length (mask sel l) = marked sel.
Proof.
  revert l. induction sel as [|b sel IH]; intros [|x l] H; cbn in *; try done. destruct b; cbn; rewrite IH; lia.
Qed.
Lemma marked_le sel : (marked sel <= length sel)%nat.
Proof. induction sel as [|b sel IH]; cbn; [lia|]. destruct b; lia. Qed.
Lemma mask_sub {A} sel (l : list A) : mask sel l ⊆ l.
Proof.
  revert l. induction sel as [|b sel IH]; intros [|x l]; cbn; try set_solver. destruct b; set_solver.
Qed.
Lemma mask_nodup {A} sel (l : list A) : NoDup l -> NoDup (mask sel l).
Proof.
  revert l. induction sel as [|b sel IH]; intros [|x l] H; cbn; try apply NoDup_nil_2.
  apply NoDup_cons in H as [Hx Hl]. destruct b; [|by apply IH]. apply NoDup_cons. split; [|by apply IH].
  intros Hin. by apply Hx, (mask_sub sel).
Qed.

Lemma open_part_made secret tp data p :
  part_made tp data p -> tpart_ok secret tp -> data_ok data ->
  open_part secret p = EboxPart (ep_tpl p) (box_opened (ep_box p) data) (ep_id p) None.
Proof.
  intros (Ht & Hs & nid & pub & Hk & Hb) (_ & _ & Hsec) Hd. unfold open_part. rewrite Ht, Hk.
  destruct (Hsec _ _ _ Hk) as [Hpub _]. rewrite Hpub in Hb. rewrite (box_made_opens _ _ _ _ _ Hb Hd). by rewrite Hs.
Qed.

(** The data of a part is at hand: its box has been opened here, or what the box holds has come as the answer
    to a challenge. *)
Inductive got_part (secret : Z -> point -> scalar) (p : ebox_part) : ebox_part -> Prop :=
| got_opened : got_part secret p (open_part secret p)
| got_answer d b : piv_box_take_data (ep_box (open_part secret p)) = (Ok d, b) ->
    got_part secret p (EboxPart (ep_tpl p) (ep_box p) (ep_id p) (Some d)).
(** [c'] is [c] with the data of the parts that [sel] marks. *)
Definition got_parts (secret : Z -> point -> scalar) : list bool -> list ebox_part -> list ebox_part -> Prop :=
  Forall3 (fun (b : bool) p p' => if b then got_part secret p p' else p' = p).
Definition got_config (secret : Z -> point -> scalar) (sel : list bool) (c c' : ebox_config) : Prop :=
  ec_tpl c' = ec_tpl c /\ ec_nonce c' = ec_nonce c /\ got_parts secret sel (ec_parts c) (ec_parts c').

(** The share of such a part is found. *)
Lemma collect_got secret m tp d p p' r acc : part_made tp d p -> tpart_ok secret tp -> data_ok d -> zlen d = 33 ->
  got_part secret p p' -> (length acc < m)%nat -> collect_shares m (p' :: r) acc = collect_shares m r (acc ++ [d]).
Proof.
  intros Hp Ht Hd H33 Hg Hm. pose proof (open_part_made secret tp d p Hp Ht Hd) as Ho.
  assert ((length acc <? m)%nat = true) as Hlt by by apply Nat.ltb_lt.
  destruct Hg as [|d' b Htk].
  - rewrite Ho. cbn [collect_shares ep_share ep_box piv_box_sealed box_opened set_plain pdb_plain b_data b_len]. rewrite H33.
    change (33 =? 33) with true. cbn [negb]. unfold buf_read. cbn [b_data b_offset b_len].
    pose proof (zlen_padded 8 d ltac:(lia)). pose proof (pad_len_range 8 (zlen d) ltac:(lia)).
    replace ((0 <=? 0) && (0 <=? 33) && (0 + 33 <=? zlen (padded 8 d))) with true by lia. cbn [cret fst].
    replace (zslice (padded 8 d) 0 33) with d
      by (rewrite zslice_0, <- H33; unfold padded, zlen; by rewrite Nat2Z.id, take_app_length).
    by rewrite Hlt.
  - rewrite Ho in Htk. cbn [ep_box] in Htk. unfold box_opened in Htk. rewrite take_opened in Htk by lia. injection Htk as <- _.
    cbn [collect_shares ep_share]. destruct d as [|x d]; [done|]. rewrite H33. change (33 =? 33) with true. cbn [negb]. by rewrite Hlt.
Qed.

(** The shares found are those of the marked parts, in order. *)
Lemma collect_marked secret m tps datas ps sel ps' acc :
  Forall3 part_made tps datas ps -> Forall (tpart_ok secret) tps -> Forall data_ok datas ->
  Forall (fun d => zlen d = 33) datas -> got_parts secret sel ps ps' -> (length acc + marked sel <= m)%nat ->
  collect_shares m ps' acc = Ok (acc ++ mask sel datas).
Proof.
  intros Hp. revert sel ps' acc. induction Hp as [|tp d p tps datas ps Hp _ IH]; intros sel ps' acc Ht Hd H33 Hg Hm.
  - inversion Hg; subst. cbn. by rewrite app_nil_r.
  - inversion Hg as [|b ? p' sel' ? ps1 Hb Hg' E1 E2 E3]; subst.
    apply Forall_cons in Ht as [Ht1 Ht2]. apply Forall_cons in Hd as [Hd1 Hd2]. apply Forall_cons in H33 as [H1 H2].
    cbn [mask marked] in *. destruct b.
    + rewrite (collect_got secret m tp d p p' ps1 acc Hp Ht1 Hd1 H1 Hb) by lia.
      rewrite IH with (sel := sel'); [by rewrite <- app_assoc|done|done|done|done|]. rewrite length_app. cbn. lia.
    + subst p'. destruct Hp as (_ & Hs & nid & pub & _ & (sec & n & Hbm)).
      destruct Hbm as (_ & _ & _ & _ & _ & _ & _ & _ & _ & _ & Hpl & _).
      cbn [collect_shares]. rewrite Hs. unfold piv_box_sealed. rewrite Hpl. cbn [null_buf b_data]. by apply IH; try lia.
Qed.

(** ** Recovery *)

Lemma xor_bytes_cancel a b : length a = length b -> xor_bytes (xor_bytes a b) a = b.
Proof.
  unfold xor_bytes. revert b. induction a as [|x a IH]; intros [|y b] H; cbn in *; try done.
  f_equal; [|by apply IH; lia]. rewrite (Z.lxor_comm x y), Z.lxor_assoc, Z.lxor_nilpotent. apply Z.lxor_0_r.
Qed.
Lemma xor_bytes_ok a b : bytes a -> bytes b -> length a = length b -> bytes (xor_bytes a b) /\ length (xor_bytes a b) = length a.
Proof.
  intros Ha. revert b. unfold xor_bytes. induction Ha as [|x a Hx _ IH]; intros [|y b] Hb Hl; cbn in *; try done.
  apply Forall_cons in Hb as [Hy Hb]. destruct (IH b Hb ltac:(lia)) as [H1 H2]. split; [|by rewrite H2].
  apply Forall_cons. split; [|done]. unfold is_byte in *. split; [apply Z.lxor_nonneg; lia|].
  destruct (Z.eq_dec (Z.lxor x y) 0) as [->|]; [lia|]. change 256 with (2 ^ 8). apply Z.log2_lt_pow2.
  - pose proof (proj2 (Z.lxor_nonneg x y) ltac:(lia)). lia.
  - eapply Z.le_lt_trans; [apply Z.log2_lxor; lia|]. apply Z.max_lub_lt.
    + destruct (Z.eq_dec x 0) as [->|]; [by vm_compute|]. apply Z.log2_lt_pow2; lia.
    + destruct (Z.eq_dec y 0) as [->|]; [by vm_compute|]. apply Z.log2_lt_pow2; lia.
Qed.

Lemma combine_first sel n :
  (n <= length sel)%nat -> sss_combine_keyshares sel n = sss_combine_keyshares (take n sel) (length (take n sel)).
Proof.
  intros H. unfold sss_combine_keyshares. rewrite length_take_le by done.
  by replace (firstn n (take n sel)) with (firstn n sel) by (rewrite (take_take sel n n); by rewrite Nat.min_id).
Qed.

Lemma combine_selected key m n poly shares sel :
  length key = 32%nat -> bytes key -> (m <= 255)%nat -> sss_create_keyshares key m n poly = Some shares ->
  length sel = length shares -> (n <= marked sel)%nat ->
  sss_combine_keyshares (mask sel shares) n = key.
Proof.
  intros Hkl Hkb Hm Hs Hl Hn. destruct (shares_made _ _ _ _ _ Hm Hs) as (_ & Hnd & _).
  pose proof (length_mask sel shares Hl) as Hml. rewrite combine_first by lia.
  apply (shares_recover key m n poly shares); try done.
  - apply NoDup_ListNoDup. eapply sublist_NoDup; [|apply sublist_take]. apply mask_nodup. by apply NoDup_ListNoDup.
  - intros s Hin. apply list_elem_of_In. apply list_elem_of_In in Hin. apply (mask_sub sel).
    rewrite <- (take_drop n (mask sel shares)). apply elem_of_app. by left.
  - rewrite length_take_le; lia.
Qed.

Definition box_sealed_all (c : ebox_config) : Prop :=
  Forall (fun p => piv_box_sealed (ep_box p) = true /\ ep_share p = None) (ec_parts c).
Lemma wipe_seals ps : Forall (fun p => piv_box_sealed (ep_box p) = true /\ ep_share p = None) (map wipe_part ps).
Proof.
  apply Forall_map, Forall_true. intros p. cbn. split; [|done].
  by destruct (piv_box_sealed (ep_box p)) eqn:E.
Qed.

Lemma recover_key_ok secret box tc c c' key token sel :
  rcv_sealed box (r_rcv_key rnd 32) (rcv_bytes key token) -> locked box -> secret_ok key token ->
  config_made (r_rcv_key rnd 32) key tc c -> tconfig_ok secret tc -> etc_type tc = EBOX_RECOVERY ->
  got_config secret sel c c' ->
  if (Z.to_nat (etc_n tc) <=? marked sel)%nat then
    exists box', ebox_recover_key c' box = (Ok tt, box') /\ e_key box' = Some key /\ e_token box' = token
  else ebox_recover_key c' box = (Er InsufficientParts, box).
Proof.
  intros Hrcv (Lk & Lt & Lr) Hs (_ & Hn & Hm & datas & nonce & Hp & Hd & Hno & Hmade) ([_ _ [Km Kl] _] & Htp & _) Hty (Gt & Gn & Gp).
  pose proof (Forall3_length_lm _ _ _ _ Gp) as Hsel.
  rewrite (proj2 (Z.eqb_eq _ _) Hty) in Hmade. destruct Hmade as (Hnb & Hnl & poly & Hsh).
  destruct (ro_rcv _ _ Hrnd 32 ltac:(lia)) as (_ & _ & Hrb & Hrl).
  assert (length nonce = length (r_rcv_key rnd 32)) as Hll by (unfold zlen in *; lia).
  destruct (xor_bytes_ok nonce (r_rcv_key rnd 32) Hnb Hrb Hll) as [Hxb Hxl].
  pose proof (Forall3_length_lm _ _ _ _ Hp) as Hl1. pose proof (Forall3_length_lr _ _ _ _ Hp) as Hl2.
  destruct (fun H => shares_made _ _ _ _ _ H Hsh) as (Hsl & _ & Hsf); [lia|].
  assert (H33 : Forall (fun d => zlen d = 33) datas).
  { eapply Forall_impl; [exact Hsf|]. cbn. intros s [Hs33 _]. unfold zlen. by rewrite Hs33. }
  pose proof (marked_le sel) as Hle.
  pose proof (collect_marked secret (Z.to_nat (etc_m tc)) _ _ _ sel _ [] Hp Htp Hd H33 Gp ltac:(cbn [length]; unfold zlen in *; lia)) as Hcol.
  pose proof (length_mask sel datas ltac:(lia)) as Hml.
  assert (Hz : zlen (A:=sss_Keyshare) (mask sel datas) = Z.of_nat (marked sel)) by exact (f_equal Z.of_nat Hml).
  unfold ebox_recover_key. rewrite (cbind_ok cget _ box box box eq_refl). cbn beta zeta.
  rewrite Lk, Lt, Lr. cbn [present negb guard]. rewrite !cbind_ret_l.
  rewrite Gt, Gn, Hm, Hn, Hcol, Hno. cbn [app].
  rewrite (cbind_ok (lift (Ok (mask sel datas))) _ box _ box eq_refl). cbn beta. rewrite Hz.
  destruct (Nat.leb_spec (Z.to_nat (etc_n tc)) (marked sel)) as [Hge|Hlt].
  2:{ by replace (Z.of_nat (marked sel) <? etc_n tc) with true by lia. }
  replace (Z.of_nat (marked sel) <? etc_n tc) with false by lia. cbn [negb guard]. rewrite cbind_ret_l.
  rewrite (combine_selected (xor_bytes nonce (r_rcv_key rnd 32)) (Z.to_nat (etc_m tc)) _ poly) by (done || (unfold zlen in *; lia)).
  rewrite Hnl. change (0 <? 32) with true. change (32 <? 32) with false. change (32 =? 32) with true. cbn [verify].
  cbn match. rewrite cbind_assoc, cbind_ret_l, xor_bytes_cancel by done.
  rewrite (cbind_ok (cput _) _ box tt _ eq_refl). cbn beta. set (box1 := with_rcv box _ _ _ _).
  assert (Hr1 : rcv_sealed box1 (r_rcv_key rnd 32) (rcv_bytes key token)) by exact Hrcv.
  destruct (rcv_bytes_ok _ _ Hs) as [_ Hrbl].
  unfold cbind at 1, cmaperr. rewrite (decrypt_recovery_ok box1 _ _ Hr1 eq_refl) by lia.
  rewrite (cbind_ok cget _ _ _ _ eq_refl). cbn beta.
  change (default [] (e_rcv_plain _)) with (rcv_bytes key token). rewrite (read_recovery_ok _ _ _ Hs). eexists. split; [reflexivity|].
  destruct token; cbn; [done|]. split; [done|exact Lt].
Qed.

(** ** Unlocking *)

Lemma unlock_opened secret tps datas ps sel key :
  Forall3 part_made tps datas ps -> Forall (tpart_ok secret) tps -> Forall data_ok datas ->
  Forall (fun d => d = key) datas -> length sel = length ps ->
  if (1 <=? marked sel)%nat then exists ps', ebox_unlock_loop (open_parts secret sel ps) = (Ok key, ps')
  else ebox_unlock_loop (open_parts secret sel ps) = (Er InsufficientParts, ps).
Proof.
  intros Hp. revert sel. induction Hp as [|tp d p tps datas ps Hp Hps IH]; intros [|b sel] Ht Hd Hk Hl; try done.
  apply Forall_cons in Ht as [Ht1 Ht2]. apply Forall_cons in Hd as [Hd1 Hd2]. apply Forall_cons in Hk as [-> Hk].
  cbn [open_parts zip_with marked]. fold (open_parts secret sel ps). destruct b.
  - change (1 <=? 1 + marked sel)%nat with true. cbn match. rewrite (open_part_made secret tp key p Hp Ht1 Hd1). destruct Hd1 as [_ Hdl].
    cbn [ebox_unlock_loop ep_box]. change (no_plain (box_opened (ep_box p) key)) with false.
    change (b_len (pdb_plain (box_opened (ep_box p) key))) with (zlen key).
    replace (zlen key <? 1) with false by lia. cbn [orb]. unfold box_opened.
    rewrite take_opened by lia. by eexists.
  - specialize (IH sel Ht2 Hd2 Hk ltac:(by injection Hl)). cbn [ebox_unlock_loop].
    destruct Hp as (_ & Hs & nid & pub & _ & (sec & n & Hb)). destruct Hb as (_ & _ & _ & _ & _ & _ & _ & _ & _ & _ & Hpl & _).
    unfold no_plain. rewrite Hpl. cbn [null_buf b_data orb Nat.add].
    destruct (1 <=? marked sel)%nat.
    + destruct IH as (ps' & ->). by eexists.
    + by rewrite IH.
Qed.
End Parts.

End Recover.
