(* ===== verification/EboxKey.v ===== *)
(** * The key of an ebox (ebox.c with sss/hazmat.c, piv.c and sshbuf.c)

    The parts put together: an ebox made by [ebox_create] gives its key back through
    [ebox_unlock] and [ebox_recover] as its template says. [SharingLaws] is
    discharged here by the proofs about hazmat.c. *)
From stdpp Require Import base list strings.
From Stdlib Require Import ZArith Lia.
From S2P Require Import Prelude Errf Sshbuf Algs Sss SssShare PivBox EboxTpl Ebox EboxWire EboxRecover.

Local Open Scope string_scope.
Local Open Scope list_scope.
Local Open Scope Z_scope.
Local Open Scope c_scope.

Section Key.
Context {C : Crypto} {L : CryptoLaws C} {KB : KeyBlobs} {KL : KeyBlobLaws KB}.

(** C1: recovery of an ebox. For a template, a key and an optional token, whatever the random bytes:
    [ebox_create] succeeds, the ebox can be written out, and the ebox read back from those bytes
    gives the key away as the template says. Take any of its configurations and let the
    tokens open any set of its parts, here or by answering a challenge. For a recovery configuration [ebox_recover] yields exactly
    the key and the token when the data of at least [n] parts is there, and leaves no open part behind; with
    fewer it fails with [InsufficientParts] and changes nothing. *)
Theorem ebox_create_recover rnd eph secret tpl key token :
  rnd_ok rnd eph -> creatable eph secret tpl key token ->
  exists box buf box' buf', ebox_create rnd tpl key token = Ok box /\
    sshbuf_put_ebox box sshbuf_new = (Ok tt, buf) /\ sshbuf_get_ebox buf = (Ok box', buf') /\
    length (e_configs box') = length (et_configs tpl) /\
    forall ci tc c sel got,
      et_configs tpl !! ci = Some tc -> e_configs box' !! ci = Some c -> etc_type tc = EBOX_RECOVERY ->
      got_config secret sel c got ->
      if (Z.to_nat (etc_n tc) <=? marked sel)%nat then
        exists box'' c', ebox_recover (box', got) = (Ok tt, (box'', c')) /\
          e_key box'' = Some key /\ e_token box'' = token /\ box_sealed_all c'
      else ebox_recover (box', got) = (Er InsufficientParts, (box', got)).
Proof.
  intros Hr Hc. destruct (create_read rnd eph Hr _ _ _ _ Hc) as (box & buf & box' & buf' & E1 & E2 & E3 & [Hrcv Hcs] & Hlk).
  exists box, buf, box', buf'. split; [exact E1|]. split; [exact E2|]. split; [exact E3|].
  split; [symmetry; eapply Forall2_length, Hcs|]. intros ci tc c sel got Htc Hcc Hty Hgot.
  destruct (creatable_secret _ _ _ _ _ Hc) as (Hs & _).
  pose proof (Forall2_lookup_lr _ _ _ _ _ _ Hcs Htc Hcc) as Hm.
  pose proof (Forall_lookup_1 _ _ _ _ (ct_each _ _ _ _ _ Hc) Htc) as Hto.
  pose proof (recover_key_ok rnd eph Hr secret box' tc c got key token sel Hrcv Hlk Hs Hm Hto Hty Hgot) as H.
  unfold ebox_recover. destruct (Z.to_nat (etc_n tc) <=? marked sel)%nat.
  - destruct H as (box'' & -> & Hk & Ht). eexists _, _. split; [reflexivity|]. split; [done|]. split; [done|]. apply wipe_seals.
  - by rewrite H.
Qed.

(** C2: unlocking an ebox. In the same way, for a primary configuration of the ebox read back:
    one open part is enough for [ebox_unlock] to yield exactly the key; with none it fails with
    [InsufficientParts] and changes nothing. *)
Theorem ebox_create_unlock rnd eph secret tpl key token :
  rnd_ok rnd eph -> creatable eph secret tpl key token ->
  exists box buf box' buf', ebox_create rnd tpl key token = Ok box /\
    sshbuf_put_ebox box sshbuf_new = (Ok tt, buf) /\ sshbuf_get_ebox buf = (Ok box', buf') /\
    length (e_configs box') = length (et_configs tpl) /\
    forall ci tc c sel,
      et_configs tpl !! ci = Some tc -> e_configs box' !! ci = Some c -> etc_type tc = EBOX_PRIMARY ->
      length sel = length (ec_parts c) ->
      let opened := open_config secret sel c in
      if (1 <=? marked sel)%nat then
        exists c', ebox_unlock (box', opened) = (Ok tt, (with_key box' (Some key), c'))
      else ebox_unlock (box', opened) = (Er InsufficientParts, (box', c)).
Proof.
  intros Hr Hc. destruct (create_read rnd eph Hr _ _ _ _ Hc) as (box & buf & box' & buf' & E1 & E2 & E3 & [_ Hcs] & _).
  exists box, buf, box', buf'. split; [exact E1|]. split; [exact E2|]. split; [exact E3|].
  split; [symmetry; eapply Forall2_length, Hcs|]. intros ci tc c sel Htc Hcc Hty Hsel opened.
  destruct (Forall2_lookup_lr _ _ _ _ _ _ Hcs Htc Hcc) as (_ & _ & _ & datas & nonce & Hp & Hd & _ & Hmade).
  destruct (Forall_lookup_1 _ _ _ _ (ct_each _ _ _ _ _ Hc) Htc) as (_ & Htp & _).
  rewrite Hty in Hmade. destruct Hmade as [_ Hk].
  pose proof (unlock_opened eph secret _ _ _ sel key Hp Htp Hd Hk Hsel) as H. unfold ebox_unlock, opened, open_config.
  cbn [ec_parts ec_tpl ec_nonce]. destruct (1 <=? marked sel)%nat.
  - destruct H as (ps' & ->). by eexists.
  - rewrite H. by destruct c.
Qed.
End Key.

(** * An instance *)

Module ToyKey.
Definition secret (_ : Z) (pub : @point Toy.toy) : @scalar Toy.toy := pub.
Definition eph (_ : Z) : @scalar Toy.toy := true.
Definition rnd : randoms :=
  Randoms Toy.random Toy.random (fun _ => Toy.random) (fun _ => [bitslice (Toy.random 32)])
    (fun _ _ => Toy.random) (fun _ _ => Toy.random) (fun nid => Ok (EcKey nid true (Some true))).
Definition key : list Z := [1; 2; 3].
End ToyKey.

Lemma toy_random_ok n : 0 <= n -> bytes (Toy.random n) /\ zlen (Toy.random n) = n.
Proof.
  intros Hn. unfold Toy.random. rewrite zlen_zrepeat by done. split; [|done].
  apply Forall_replicate. unfold is_byte. lia.
Qed.
Lemma toy_rnd_ok : rnd_ok ToyKey.rnd ToyKey.eph.
Proof.
  constructor; cbn [ToyKey.rnd r_rcv_iv r_rcv_key r_nonce r_box_nonce r_box_iv r_gen].
  - intros n Hn. destruct (toy_random_ok n Hn). auto.
  - intros ci n Hn. by apply toy_random_ok.
  - intros ci i n Hn. destruct (toy_random_ok n Hn). auto.
  - done.
Qed.
Lemma toy_tpart_ok slot cak : is_byte slot -> tpart_ok ToyKey.eph ToyKey.secret (ToyBlobs.part slot cak).
Proof.
  intros Hs. split; [|split].
  - apply toy_part_ok; [done|]. intros _. apply toy_cak_ok.
  - intros k Hk. cbn in Hk. destruct cak; [|done]. injection Hk as <-. by vm_compute.
  - intros nid pub pr Hk. cbn in Hk. injection Hk as <- <- <-. split; [done|]. eexists. reflexivity.
Qed.
Lemma toy_creatable : creatable ToyKey.eph ToyKey.secret ToyBlobs.tpl ToyKey.key (Some [9; 9]).
Proof.
  destruct toy_tpl_ok as [_ Hl Hc]. cbn [ToyBlobs.tpl et_configs] in Hc.
  apply Forall_cons in Hc as [Hc1 Hc]. apply Forall_cons in Hc as [Hc2 _].
  constructor; [done| | | |by vm_compute].
  - apply Forall_cons_2; [|apply Forall_singleton]; (split; [done|split]).
    + apply Forall_singleton, toy_tpart_ok. by vm_compute.
    + by vm_compute.
    + apply Forall_cons_2; [|apply Forall_singleton]; apply toy_tpart_ok; by vm_compute.
    + intros _. by vm_compute.
  - split; [apply bytesb_spec; reflexivity|by vm_compute].
  - intros t [= <-]. apply bytesb_spec. reflexivity.
Qed.

Lemma ebox_create_recover_witness :
  exists box buf box' buf', ebox_create ToyKey.rnd ToyBlobs.tpl ToyKey.key (Some [9; 9]) = Ok box /\
    sshbuf_put_ebox box sshbuf_new = (Ok tt, buf) /\ sshbuf_get_ebox buf = (Ok box', buf') /\
    length (e_configs box') = length (et_configs ToyBlobs.tpl) /\
    forall ci tc c sel got,
      et_configs ToyBlobs.tpl !! ci = Some tc -> e_configs box' !! ci = Some c -> etc_type tc = EBOX_RECOVERY ->
      got_config ToyKey.secret sel c got ->
      if (Z.to_nat (etc_n tc) <=? marked sel)%nat then
        exists box'' c', ebox_recover (box', got) = (Ok tt, (box'', c')) /\
          e_key box'' = Some ToyKey.key /\ e_token box'' = Some [9; 9] /\ box_sealed_all c'
      else ebox_recover (box', got) = (Er InsufficientParts, (box', got)).
Proof.
  exact (ebox_create_recover ToyKey.rnd ToyKey.eph ToyKey.secret ToyBlobs.tpl ToyKey.key (Some [9; 9])
    toy_rnd_ok toy_creatable).
Defined.

Lemma ebox_create_unlock_witness :
  exists box buf box' buf', ebox_create ToyKey.rnd ToyBlobs.tpl ToyKey.key (Some [9; 9]) = Ok box /\
    sshbuf_put_ebox box sshbuf_new = (Ok tt, buf) /\ sshbuf_get_ebox buf = (Ok box', buf') /\
    length (e_configs box') = length (et_configs ToyBlobs.tpl) /\
    forall ci tc c sel,
      et_configs ToyBlobs.tpl !! ci = Some tc -> e_configs box' !! ci = Some c -> etc_type tc = EBOX_PRIMARY ->
      length sel = length (ec_parts c) ->
      let opened := open_config ToyKey.secret sel c in
      if (1 <=? marked sel)%nat then
        exists c', ebox_unlock (box', opened) = (Ok tt, (with_key box' (Some ToyKey.key), c'))
      else ebox_unlock (box', opened) = (Er InsufficientParts, (box', c)).
Proof.
  exact (ebox_create_unlock ToyKey.rnd ToyKey.eph ToyKey.secret ToyBlobs.tpl ToyKey.key (Some [9; 9])
    toy_rnd_ok toy_creatable).
Defined.

(** ** Behaviours that differ from what the code means to do *)

(** A key and a token that are both within their limits can make a recovery box too long for its
    length byte: the ebox is created and cannot be written out. *)
Lemma ebox_create_unwritable :
  match ebox_create ToyKey.rnd ToyBlobs.tpl (Toy.random 200) (Some (Toy.random 40)) with
  | Ok box => accepted (fst (sshbuf_put_ebox box sshbuf_new)) = false
  | _ => False
  end.
Proof. vm_compute. reflexivity. Qed.

(** A configuration whose part count is 0 is read with one part all the same; once that part is open,
    recovering copies its share past the end of the empty array. *)
Lemma ebox_recover_overflow :
  let b := set_plain piv_box_new (whole_buf (Toy.random 33)) in
  let p := EboxPart (ToyBlobs.part 0x82 false) b 1 None in
  let c := EboxConfig (TplConfig EBOX_RECOVERY 1 0 []) [p] None in
  fst (ebox_recover (ToyEbox.box, c)) = Fault.
Proof. vm_compute. reflexivity. Qed.

(** A recovery that fails leaves the recovery key set: the ebox answers [AlreadyUnlocked] from then on,
    although it was never unlocked. *)
Lemma ebox_recover_no_retry :
  let b := set_plain piv_box_new (whole_buf (Toy.random 33)) in
  let p := EboxPart (ToyBlobs.part 0x82 false) b 1 None in
  let c := EboxConfig (TplConfig EBOX_RECOVERY 1 1 []) [p] (Some (Toy.random 32)) in
  let (r1, s) := ebox_recover (ToyEbox.box, c) in
  match r1 with Er e => errf_name e = "RecoveryFailed" | _ => False end /\
  e_key (fst s) = None /\ fst (ebox_recover s) = Er AlreadyUnlocked.
Proof. vm_compute. split; [reflexivity|split; reflexivity]. Qed.
