(* ===== verification/PivToken.v ===== *)
(** * PIV tokens: the handle, its accessors and its slots (piv.c, piv.h)

    [struct piv_token] caches what was read from a card: the fields of the CHUID,
    the key history, the discovery object and the YubicoPIV answers, the list of
    slots whose certificates were read, and the state of the current transaction.
    [Certs] stands for OpenSSL's certificates and for the keys in them; [Reader] for
    the PC/SC library and the card behind it. *)
From stdpp Require Import base list strings.
From Stdlib Require Import ZArith Lia.
From S2P Require Import Prelude Errf.

Local Open Scope string_scope.
Local Open Scope list_scope.
Local Open Scope Z_scope.
Local Open Scope c_scope.

(** ** Enumerations *)

Definition PIV_SLOT_9A : Z := 154.
Definition PIV_SLOT_9B : Z := 155.
Definition PIV_SLOT_9C : Z := 156.
Definition PIV_SLOT_9D : Z := 157.
Definition PIV_SLOT_9E : Z := 158.
Definition PIV_SLOT_82 : Z := 130.
Definition PIV_SLOT_95 : Z := 149.
Definition PIV_SLOT_F9 : Z := 249.
Definition PIV_SLOT_ADMIN : Z := PIV_SLOT_9B.
Definition PIV_SLOT_RETIRED_1 : Z := PIV_SLOT_82.
Definition PIV_SLOT_RETIRED_20 : Z := PIV_SLOT_95.

Definition PIV_TAG_CHUID : Z := 6275330.     (* 0x5FC102 *)
Definition PIV_TAG_KEYHIST : Z := 6275340.   (* 0x5FC10C *)
Definition PIV_TAG_DISCOV : Z := 126.        (* 0x7E *)
Definition PIV_TAG_CERT_9A : Z := 6275333.   (* 0x5FC105 *)
Definition PIV_TAG_CERT_9C : Z := 6275338.   (* 0x5FC10A *)
Definition PIV_TAG_CERT_9D : Z := 6275339.   (* 0x5FC10B *)
Definition PIV_TAG_CERT_9E : Z := 6275329.   (* 0x5FC101 *)
Definition PIV_TAG_CERT_82 : Z := 6275341.   (* 0x5FC10D *)

Definition PIV_ALG_3DES : Z := 3.
Definition PIV_ALG_RSA1024 : Z := 6.
Definition PIV_ALG_RSA2048 : Z := 7.
Definition PIV_ALG_ECCP256 : Z := 17.
Definition PIV_ALG_ECCP384 : Z := 20.

Definition PIV_PIN : Z := 128.
Definition PIV_GLOBAL_PIN : Z := 0.
Definition PIV_PUK : Z := 129.
Definition PIV_OCC : Z := 150.

Definition GUID_LEN : Z := 16.

(** ** Certificates and readers *)

Class Certs := {
  x509 : Type;
  (** [struct sshkey], of any type *)
  certkey : Type;
  d2i_X509 : list Z -> option x509;
  (** [X509_NAME_oneline] of the subject *)
  X509_subject : x509 -> list Z;
  (** [X509_get_pubkey], [None] when it fails, and [sshkey_from_evp_pkey] of it: an SSH_ERR code or the key *)
  X509_pubkey : x509 -> option (Z + certkey);
  (** [k->type] and [sshkey_size] *)
  certkey_type : certkey -> Z;
  certkey_size : certkey -> Z;
  (** [inflate] of a gzip stream into a buffer of the given size; [None] unless it
      reaches [Z_STREAM_END] with room left *)
  inflate : list Z -> Z -> option (list Z)
}.

(** PC/SC. [SCardTransmit] gets the command and the size of the receive buffer
    and returns an error code or the bytes received; the other calls return a code.
    [SCardReconnect] is called with [SCARD_RESET_CARD]. *)
Class Reader := {
  card : Type;
  SCardTransmit : list Z -> Z -> card -> (Z + list Z) * card;
  SCardBeginTransaction : card -> Z * card;
  SCardReconnect : card -> Z * card;
  SCardEndTransaction : Z -> card -> Z * card
}.

(** What a working PC/SC library promises: a reply is made of bytes, ends in the two
    bytes of the status word and fits the buffer. *)
Class ReaderLaws `(Reader) := {
  transmit_fits : forall cmd room c r c',
    SCardTransmit cmd room c = (inr r, c') -> bytes r /\ 2 <= zlen r <= room
}.

Section Token.
Context {X : Certs}.

(** ** Data *)

(** [struct sshkey *]: null, a key, or a pointer to a key that was freed. *)
Inductive keyref := NoKey | HasKey (k : certkey) | FreedKey.

Record piv_slot := Slot {
  ps_slot : Z;
  ps_alg : Z;
  ps_x509 : option x509;
  ps_subj : option (list Z);
  ps_pubkey : keyref
}.

(** The fields of [struct piv_token], in the groups its comments make. *)
Record chuid_info := Chuid {
  pt_guid : list Z;             (* uint8_t[GUID_LEN] *)
  pt_nochuid : bool;
  pt_signedchuid : bool;
  pt_fascn : list Z;            (* uint8_t[26] *)
  pt_fascn_len : Z;
  pt_expiry : list Z;           (* uint8_t[8] *)
  pt_haschuuid : bool;
  pt_chuuid : list Z            (* uint8_t[GUID_LEN] *)
}.
Record hist_info := Hist {
  pt_hist_oncard : Z;           (* uint8_t *)
  pt_hist_offcard : Z;          (* uint8_t *)
  pt_hist_url : option (list Z)
}.
Record auth_info := Auth {
  pt_auth : Z;
  pt_pin_global : bool;
  pt_pin_app : bool;
  pt_occ : bool;
  pt_vci : bool
}.
Record yk_info := Yk {
  pt_ykpiv : bool;
  pt_ykver : list Z;            (* uint8_t[3] *)
  pt_ykserial_valid : bool;
  pt_ykserial : Z               (* uint32_t *)
}.
Record piv_token := Token {
  pt_intxn : bool;
  pt_reset : bool;
  pt_chuid : chuid_info;
  pt_algs : list Z;             (* enum piv_alg[32] *)
  pt_alg_count : Z;
  pt_hist : hist_info;
  pt_authinfo : auth_info;
  pt_slots : list piv_slot;     (* in list order; [pt_last_slot] is its last member *)
  pt_yk : yk_info
}.

(** [calloc(1, sizeof (struct piv_token))]. *)
Definition piv_token_calloc : piv_token :=
  Token false false
    (Chuid (zrepeat GUID_LEN 0) false false (zrepeat 26 0) 0 (zrepeat 8 0) false (zrepeat GUID_LEN 0))
    (zrepeat 32 0) 0 (Hist 0 0 None) (Auth 0 false false false false) [] (Yk false (zrepeat 3 0) false 0).

Definition set_txn (intxn reset : bool) (t : piv_token) : piv_token :=
  Token intxn reset (pt_chuid t) (pt_algs t) (pt_alg_count t) (pt_hist t) (pt_authinfo t)
    (pt_slots t) (pt_yk t).
Definition set_chuid (v : chuid_info) (t : piv_token) : piv_token :=
  Token (pt_intxn t) (pt_reset t) v (pt_algs t) (pt_alg_count t) (pt_hist t) (pt_authinfo t)
    (pt_slots t) (pt_yk t).
Definition set_algs (algs : list Z) (n : Z) (t : piv_token) : piv_token :=
  Token (pt_intxn t) (pt_reset t) (pt_chuid t) algs n (pt_hist t) (pt_authinfo t)
    (pt_slots t) (pt_yk t).
Definition set_hist (v : hist_info) (t : piv_token) : piv_token :=
  Token (pt_intxn t) (pt_reset t) (pt_chuid t) (pt_algs t) (pt_alg_count t) v (pt_authinfo t)
    (pt_slots t) (pt_yk t).
Definition set_auth (v : auth_info) (t : piv_token) : piv_token :=
  Token (pt_intxn t) (pt_reset t) (pt_chuid t) (pt_algs t) (pt_alg_count t) (pt_hist t) v
    (pt_slots t) (pt_yk t).
Definition set_slots (v : list piv_slot) (t : piv_token) : piv_token :=
  Token (pt_intxn t) (pt_reset t) (pt_chuid t) (pt_algs t) (pt_alg_count t) (pt_hist t)
    (pt_authinfo t) v (pt_yk t).
Definition set_yk (v : yk_info) (t : piv_token) : piv_token :=
  Token (pt_intxn t) (pt_reset t) (pt_chuid t) (pt_algs t) (pt_alg_count t) (pt_hist t)
    (pt_authinfo t) (pt_slots t) v.

(** ** Accessors *)

Definition piv_token_in_txn (t : piv_token) : bool := pt_intxn t.
Definition piv_token_fascn (t : piv_token) : option (list Z) :=
  if pt_fascn_len (pt_chuid t) =? 0 then None
  else Some (zslice (pt_fascn (pt_chuid t)) 0 (pt_fascn_len (pt_chuid t))).
Definition piv_token_guid (t : piv_token) : option (list Z) :=
  if pt_nochuid (pt_chuid t) then None else Some (pt_guid (pt_chuid t)).
Definition piv_token_chuuid (t : piv_token) : option (list Z) :=
  if pt_nochuid (pt_chuid t) || negb (pt_haschuuid (pt_chuid t)) then None
  else Some (pt_chuuid (pt_chuid t)).
Definition piv_token_expiry (t : piv_token) : option (list Z) :=
  if pt_nochuid (pt_chuid t) then None else Some (pt_expiry (pt_chuid t)).
Definition piv_token_nalgs (t : piv_token) : Z := pt_alg_count t.
(** [VERIFY3U(idx, <, pt_alg_count)], then a read of the array of 32. *)
Definition piv_token_alg (t : piv_token) (idx : Z) : res errf_t Z :=
  if idx <? pt_alg_count t
  then match zget (pt_algs t) idx with Some a => Ok a | None => Fault end
  else Panic.
Definition piv_token_has_chuid (t : piv_token) : bool := negb (pt_nochuid (pt_chuid t)).
Definition piv_token_has_signed_chuid (t : piv_token) : bool := pt_signedchuid (pt_chuid t).
Definition piv_token_default_auth (t : piv_token) : Z := pt_auth (pt_authinfo t).
Definition piv_token_has_auth (t : piv_token) (auth : Z) : bool :=
  if auth =? PIV_PIN then pt_pin_app (pt_authinfo t)
  else if auth =? PIV_GLOBAL_PIN then pt_pin_global (pt_authinfo t)
  else if auth =? PIV_PUK then true
  else if auth =? PIV_OCC then pt_occ (pt_authinfo t)
  else false.
Definition piv_token_has_vci (t : piv_token) : bool := pt_vci (pt_authinfo t).
Definition piv_token_keyhistory_oncard (t : piv_token) : Z := pt_hist_oncard (pt_hist t).
Definition piv_token_keyhistory_offcard (t : piv_token) : Z := pt_hist_offcard (pt_hist t).
Definition piv_token_offcard_url (t : piv_token) : option (list Z) := pt_hist_url (pt_hist t).
Definition piv_token_is_ykpiv (t : piv_token) : bool := pt_ykpiv (pt_yk t).
Definition ykpiv_token_version (t : piv_token) : res errf_t (list Z) :=
  if pt_ykpiv (pt_yk t) then Ok (pt_ykver (pt_yk t)) else Panic.
Definition ykpiv_version_compare (t : piv_token) (major minor patch : Z) : res errf_t Z :=
  if pt_ykpiv (pt_yk t) then
    match pt_ykver (pt_yk t) with
    | v0 :: v1 :: v2 :: _ =>
        Ok (if v0 <? major then -1 else if major <? v0 then 1
            else if v1 <? minor then -1 else if minor <? v1 then 1
            else if v2 <? patch then -1 else if patch <? v2 then 1 else 0)
    | _ => Fault
    end
  else Panic.
Definition ykpiv_token_has_serial (t : piv_token) : res errf_t bool :=
  if pt_ykpiv (pt_yk t) then Ok (pt_ykserial_valid (pt_yk t)) else Panic.
Definition ykpiv_token_serial (t : piv_token) : res errf_t Z :=
  if pt_ykpiv (pt_yk t) && pt_ykserial_valid (pt_yk t) then Ok (pt_ykserial (pt_yk t)) else Panic.

(** ** Slots *)

Definition slot_calloc : piv_slot := Slot 0 0 None None NoKey.

Definition piv_get_slot (t : piv_token) (slotid : Z) : option piv_slot :=
  List.find (fun s => ps_slot s =? slotid) (pt_slots t).

(** The search of [piv_force_slot] and [piv_read_cert]: [f] is applied to the slot
    found, or to a new one appended to the list. *)
Fixpoint upsert_slot (slotid : Z) (f : piv_slot -> piv_slot) (ss : list piv_slot) : list piv_slot :=
  match ss with
  | [] => [f slot_calloc]
  | s :: ss' => if ps_slot s =? slotid then f s :: ss' else s :: upsert_slot slotid f ss'
  end.

Definition piv_force_slot (t : piv_token) (slotid alg : Z) : piv_token :=
  set_slots (upsert_slot slotid
    (fun s => Slot slotid alg (ps_x509 s) (ps_subj s) (ps_pubkey s)) (pt_slots t)) t.

(** [slot] is given by its place in the list; [None] is [NULL]. *)
Definition piv_slot_next (t : piv_token) (slot : option nat) : option piv_slot :=
  match slot with None => List.nth_error (pt_slots t) 0 | Some i => List.nth_error (pt_slots t) (S i) end.

(** ** Slot lists: at most one slot per id *)

Definition slots_ok (t : piv_token) : Prop := NoDup (ps_slot <$> pt_slots t).

Lemma upsert_ids slotid f ss :
  (forall s, ps_slot (f s) = slotid) ->
  ps_slot <$> upsert_slot slotid f ss
  = if decide (slotid ∈ ps_slot <$> ss) then ps_slot <$> ss else (ps_slot <$> ss) ++ [slotid].
Proof.
  intros Hf. induction ss as [|s ss IH]; cbn; [by rewrite Hf|].
  destruct (Z.eqb_spec (ps_slot s) slotid) as [He|He]; cbn.
  - rewrite Hf, decide_True; [by rewrite He|]. rewrite He. by constructor.
  - rewrite IH. repeat case_decide; try done.
    + exfalso. apply H0. by constructor.
    + exfalso. apply H. by apply elem_of_cons in H0 as [->|].
Qed.

Lemma upsert_nodup slotid f ss :
  (forall s, ps_slot (f s) = slotid) -> NoDup (ps_slot <$> ss) ->
  NoDup (ps_slot <$> upsert_slot slotid f ss).
Proof.
  intros Hf Hn. rewrite (upsert_ids _ _ _ Hf). case_decide; [done|].
  apply NoDup_app. split; [done|]. split; [|apply NoDup_singleton].
  intros x Hx ->%list_elem_of_singleton. done.
Qed.

Lemma find_upsert slotid f ss :
  (forall s, ps_slot (f s) = slotid) ->
  List.find (fun s => ps_slot s =? slotid) (upsert_slot slotid f ss)
  = Some (f (default slot_calloc (List.find (fun s => ps_slot s =? slotid) ss))).
Proof.
  intros Hf. induction ss as [|s ss IH]; cbn; [by rewrite Hf, Z.eqb_refl|].
  destruct (Z.eqb_spec (ps_slot s) slotid) as [He|He]; cbn; [by rewrite Hf, Z.eqb_refl|].
  by rewrite (proj2 (Z.eqb_neq _ _) He).
Qed.

Lemma find_upsert_other slotid f ss other :
  (forall s, ps_slot (f s) = slotid) -> other <> slotid ->
  List.find (fun s => ps_slot s =? other) (upsert_slot slotid f ss)
  = List.find (fun s => ps_slot s =? other) ss.
Proof.
  intros Hf Ho. induction ss as [|s ss IH]; cbn.
  - rewrite Hf. by rewrite (proj2 (Z.eqb_neq _ _)) by lia.
  - destruct (Z.eqb_spec (ps_slot s) slotid) as [He|He]; cbn; [|by rewrite IH].
    rewrite Hf, He. by rewrite !(proj2 (Z.eqb_neq _ _)) by lia.
Qed.
End Token.
