(* ===== verification/Apdu.v ===== *)
(** * APDU exchange and transactions (piv.c)

    [piv_apdu_transceive] sends one command through PC/SC; [piv_apdu_transceive_chain]
    splits a long command into a chain, repeats a command whose [Le] the card
    corrects and collects a reply that comes in pieces. Both loops run for as long as
    the card asks for it, so they take fuel; running out of it is the outcome
    [Exhausted], which is not an outcome of the code: the theorems either show that it
    is not reached or hold whatever the fuel. The world a token operation acts on is the
    token's handle and the card. *)
From stdpp Require Import base list strings.
From Stdlib Require Import ZArith Lia.
From S2P Require Import Prelude Errf Tlv PivBox PivToken.

Local Open Scope string_scope.
Local Open Scope list_scope.
Local Open Scope Z_scope.
Local Open Scope c_scope.

(** ** Constants of piv.h *)

Definition CLA_ISO : Z := 0.
Definition CLA_CHAIN : Z := 16.
Definition SEL_APP_AID : Z := 4.

Definition INS_SELECT : Z := 164.
Definition INS_GET_DATA : Z := 203.
Definition INS_VERIFY : Z := 32.
Definition INS_CHANGE_PIN : Z := 36.
Definition INS_RESET_PIN : Z := 44.
Definition INS_GEN_AUTH : Z := 135.
Definition INS_PUT_DATA : Z := 219.
Definition INS_GEN_ASYM : Z := 71.
Definition INS_CONTINUE : Z := 192.
Definition INS_SET_MGMT : Z := 255.
Definition INS_GET_VER : Z := 253.
Definition INS_SET_PIN_RETRIES : Z := 250.
Definition INS_RESET : Z := 251.
Definition INS_GET_SERIAL : Z := 248.
Definition INS_ATTEST : Z := 249.

Definition SW_NO_ERROR : Z := 36864.                         (* 0x9000 *)
Definition SW_FUNC_NOT_SUPPORTED : Z := 27265.               (* 0x6A81 *)
Definition SW_CONDITIONS_NOT_SATISFIED : Z := 27013.         (* 0x6985 *)
Definition SW_SECURITY_STATUS_NOT_SATISFIED : Z := 27010.    (* 0x6982 *)
Definition SW_BYTES_REMAINING_00 : Z := 24832.               (* 0x6100 *)
Definition SW_CORRECT_LE_00 : Z := 27648.                    (* 0x6C00 *)
Definition SW_WARNING_NO_CHANGE_00 : Z := 25088.             (* 0x6200 *)
Definition SW_WARNING_EOF : Z := 25218.                      (* 0x6282 *)
Definition SW_WARNING_00 : Z := 25344.                       (* 0x6300 *)
Definition SW_FILE_NOT_FOUND : Z := 27266.                   (* 0x6A82 *)
Definition SW_INCORRECT_PIN : Z := 25536.                    (* 0x63C0 *)
Definition SW_INCORRECT_P1P2 : Z := 27270.                   (* 0x6A86 *)
Definition SW_WRONG_DATA : Z := 27264.                       (* 0x6A80 *)
Definition SW_OUT_OF_MEMORY : Z := 27268.                    (* 0x6A84 *)
Definition SW_WRONG_LENGTH : Z := 26368.                     (* 0x6700 *)
Definition SW_INS_NOT_SUP : Z := 27904.                      (* 0x6D00 *)
Definition SW_FILE_INVALID : Z := 27011.                     (* 0x6983 *)

(** PC/SC. *)
Definition SCARD_S_SUCCESS : Z := 0.
Definition SCARD_W_RESET_CARD : Z := 2148532328.             (* 0x80100068 *)
Definition SCARD_LEAVE_CARD : Z := 0.
Definition SCARD_RESET_CARD : Z := 1.

(** [sw & 0xFF00] *)
Definition sw_class (sw : Z) : Z := Z.land sw 65280.

Lemma sw_class_spec sw : 0 <= sw < 65536 -> sw_class sw = sw / 256 * 256.
Proof.
  intros H. unfold sw_class. change 65280 with (Z.land (Z.ones 16) (Z.lnot (Z.ones 8))).
  rewrite Z.land_assoc, Z.land_ones, Z.mod_small by lia.
  rewrite <- Z.ldiff_land, Z.ldiff_ones_r, Z.shiftl_mul_pow2, Z.shiftr_div_pow2 by lia. done.
Qed.
Lemma sw_low sw : Z.land sw 255 = sw mod 256.
Proof. change 255 with (Z.ones 8). by rewrite Z.land_ones by lia. Qed.

(** ** Errors *)

(** Why an operation stopped short of its result: an [errf_t] or the fuel. *)
Inductive stop :=
| Err (e : errf_t)
| Exhausted.

Definition pcscerrf : errf_t := errf "PCSCError" None.
Definition swerrf : errf_t := errf "APDUError" None.
Definition tagerrf : errf_t := errf "PIVTagError" None.
Definition ioerrf (cause : errf_t) : errf_t := errf "IOError" (Some cause).
Definition invderrf (cause : errf_t) : errf_t := errf "InvalidDataError" (Some cause).
Definition permerrf (cause : errf_t) : errf_t := errf "PermissionError" (Some cause).
Definition notsuperrf (cause : option errf_t) : errf_t := errf "NotSupportedError" cause.
Definition notfounderrf (cause : errf_t) : errf_t := errf "NotFoundError" (Some cause).

(** [struct apdu]. *)
Record apdu := Apdu {
  a_cls : Z;
  a_ins : Z;
  a_p1 : Z;
  a_p2 : Z;
  a_le : Z;
  a_cmd : apdubuf;
  a_sw : Z;
  a_reply : apdubuf
}.

Definition piv_apdu_make (cls ins p1 p2 : Z) : apdu :=
  Apdu cls ins (u8 p1) (u8 p2) 0 null_buf 0 null_buf.
Definition piv_apdu_set_cmd (a : apdu) (data : list Z) : apdu :=
  Apdu (a_cls a) (a_ins a) (a_p1 a) (a_p2 a) (a_le a) (whole_buf data) (a_sw a) (a_reply a).
Definition piv_apdu_sw (a : apdu) : Z := a_sw a.

(** [apdu->a_cmd.b_data = tlv_buf(tlv); apdu->a_cmd.b_len = tlv_len(tlv);] the size
    stays zero. *)
Definition with_cmd (data : list Z) (a : apdu) : apdu :=
  Apdu (a_cls a) (a_ins a) (a_p1 a) (a_p2 a) (a_le a) (Apdubuf (Some data) 0 0 (zlen data))
    (a_sw a) (a_reply a).

Definition set_head (cls ins p1 p2 : Z) (a : apdu) : apdu :=
  Apdu cls ins p1 p2 (a_le a) (a_cmd a) (a_sw a) (a_reply a).
Definition set_cls (v : Z) (a : apdu) : apdu := set_head v (a_ins a) (a_p1 a) (a_p2 a) a.
Definition set_le (v : Z) (a : apdu) : apdu :=
  Apdu (a_cls a) (a_ins a) (a_p1 a) (a_p2 a) v (a_cmd a) (a_sw a) (a_reply a).
Definition set_cmd (v : apdubuf) (a : apdu) : apdu :=
  Apdu (a_cls a) (a_ins a) (a_p1 a) (a_p2 a) (a_le a) v (a_sw a) (a_reply a).
Definition set_sw (v : Z) (a : apdu) : apdu :=
  Apdu (a_cls a) (a_ins a) (a_p1 a) (a_p2 a) (a_le a) (a_cmd a) v (a_reply a).
Definition set_reply (v : apdubuf) (a : apdu) : apdu :=
  Apdu (a_cls a) (a_ins a) (a_p1 a) (a_p2 a) (a_le a) (a_cmd a) (a_sw a) v.
Definition buf_len (v : Z) (b : apdubuf) : apdubuf := Apdubuf (b_data b) (b_offset b) (b_size b) v.
Definition buf_offset (v : Z) (b : apdubuf) : apdubuf := Apdubuf (b_data b) v (b_size b) (b_len b).

(** [piv_apdu_get_reply]. *)
Definition piv_apdu_get_reply {E S} (a : apdu) : M E S (list Z) :=
  fun s => match b_data (a_reply a) with
           | Some d => if (0 <=? b_offset (a_reply a)) && (0 <=? b_len (a_reply a))
                          && (b_offset (a_reply a) + b_len (a_reply a) <=? zlen d)
                       then (Ok (zslice d (b_offset (a_reply a)) (b_len (a_reply a))), s)
                       else (Fault, s)
           | None => (Fault, s)
           end.

(** [apdu_to_buffer]. *)
Definition apdu_to_buffer {E S} (a : apdu) : M E S (list Z) :=
  let d := a_cmd a in
  let head := [u8 (a_cls a); u8 (a_ins a); a_p1 a; a_p2 a] in
  match b_data d with
  | None => cret (head ++ [a_le a])
  | Some data =>
      verify ((b_len d <? 256) && (0 <? b_len d)) ;!
      if (0 <=? b_offset d) && (b_offset d + b_len d <=? zlen data)
      then let body := head ++ u8 (b_len d) :: zslice data (b_offset d) (b_len d) in
           if Z.land (a_cls a) CLA_CHAIN =? 0 then cret (body ++ [a_le a]) else cret body
      else cfault
  end.

Section Exchange.
Context {X : Certs} {R : Reader}.

(** The handle and the card it is connected to. *)
Record world := World { w_tok : piv_token; w_card : card }.

Abbreviation P := (M stop world).

Definition fails {A} (e : errf_t) : P A := craise (Err e).
(** [err = f(err)] on the way out of a failed call. *)
Definition onerr {A} (f : errf_t -> errf_t) (m : P A) : P A :=
  cmaperr (fun e => match e with Err e => Err (f e) | Exhausted => Exhausted end) m.
(** [err = m; ...]: the error as a value the caller looks at. *)
Definition attempt {A} (m : P A) : P (errf_t + A) :=
  fun w => match m w with
           | (Ok a, w') => (Ok (inr a), w')
           | (Er (Err e), w') => (Ok (inl e), w')
           | (Er Exhausted, w') => (Er Exhausted, w')
           | (Panic, w') => (Panic, w')
           | (Fault, w') => (Fault, w')
           end.
Definition upd_tok (f : piv_token -> piv_token) : P unit :=
  cmodify (fun w => World (f (w_tok w)) (w_card w)).
Definition in_txn : P unit := let! w := cget in verify (pt_intxn (w_tok w)).

Definition transmit (cmd : list Z) (room : Z) : P (Z + list Z) :=
  fun w => let '(r, c) := SCardTransmit cmd room (w_card w) in (Ok r, World (w_tok w) c).

(** The reply buffer of an APDU that has none yet. *)
Definition reply_alloc (r : apdubuf) : apdubuf :=
  match b_data r with
  | Some _ => r
  | None => Apdubuf (Some (zrepeat MAX_APDU_SIZE 0)) 0 MAX_APDU_SIZE (b_len r)
  end.

(** What [SCardTransmit] left in the buffer: [recvLength] bytes at [b_offset], whose last
    two are the status word. *)
Definition reply_recv (a : apdu) (r : apdubuf) (bs : list Z) : P apdu :=
  match b_data r with
  | None => cfault
  | Some d =>
      if (0 <=? b_offset r) && (b_offset r + zlen bs <=? zlen d) then
        let d := zsplice d (b_offset r) bs in
        let len := usize (zlen bs - 2) in
        match zget d (usize (b_offset r + len)), zget d (usize (b_offset r + len + 1)) with
        | Some h, Some l =>
            cret (set_sw (Z.lor (Z.shiftl h 8) l)
                   (set_reply (Apdubuf (Some d) (b_offset r) (b_size r) len) a))
        | _, _ => cfault
        end
      else cfault
  end.

(** [piv_apdu_transceive]. On an error the caller frees the APDU, so it is returned
    only on success. *)
Definition piv_apdu_transceive (a : apdu) : P apdu :=
  in_txn ;!
  let! cmd := apdu_to_buffer a in
  let r := reply_alloc (a_reply a) in
  let! rv := transmit cmd (usize (b_size r - b_offset r)) in
  match rv with
  | inl _ => fails pcscerrf
  | inr bs => reply_recv a r bs
  end.

(** The block of the chain that is sent next: the head of the [do] loop. *)
Definition next_block (rem : Z) (a : apdu) : apdu :=
  if 255 <? rem
  then set_cls (Z.lor (a_cls a) CLA_CHAIN) (set_cmd (buf_len 255 (a_cmd a)) a)
  else set_cls (Z.land (a_cls a) (Z.lnot CLA_CHAIN)) (set_cmd (buf_len rem (a_cmd a)) a).

(** From [again:] to the end of the [do] loop; [true] when every block was accepted,
    [false] for the early return on an error status. *)
Fixpoint send_loop (fuel : nat) (rem : Z) (a : apdu) : P (bool * apdu) :=
  match fuel with
  | O => craise Exhausted
  | S n =>
      let! a := piv_apdu_transceive a in
      let c := sw_class (a_sw a) in
      if c =? SW_CORRECT_LE_00 then send_loop n rem (set_le (Z.land (a_sw a) 255) a)
      else if (c =? SW_NO_ERROR) || (c =? SW_BYTES_REMAINING_00)
              || (c =? SW_WARNING_NO_CHANGE_00) || (c =? SW_WARNING_00) then
        let len := b_len (a_cmd a) in
        let a := set_cmd (buf_offset (usize (b_offset (a_cmd a) + len)) (a_cmd a)) a in
        let rem := usize (rem - len) in
        if 0 <? rem then send_loop n rem (next_block rem a) else cret (true, a)
      else cret (false, a)
  end.

(** The [while] loop that sends CONTINUE; returns [gotok] too. *)
Definition more_reply (a : apdu) : bool :=
  (sw_class (a_sw a) =? SW_BYTES_REMAINING_00)
  || ((a_sw a =? SW_NO_ERROR) && (255 <=? b_len (a_reply a))).

Definition continue_apdu (a : apdu) : apdu :=
  let a := set_head CLA_ISO INS_CONTINUE 0 0 a in
  let a := if (sw_class (a_sw a) =? SW_BYTES_REMAINING_00) || (sw_class (a_sw a) =? SW_CORRECT_LE_00)
           then set_le (Z.land (a_sw a) 255) a else a in
  let a := set_cmd (Apdubuf None (b_offset (a_cmd a)) (b_size (a_cmd a)) (b_len (a_cmd a))) a in
  set_reply (buf_offset (usize (b_offset (a_reply a) + b_len (a_reply a))) (a_reply a)) a.

Fixpoint recv_loop (fuel : nat) (gotok : bool) (a : apdu) : P (bool * apdu) :=
  if more_reply a then
    match fuel with
    | O => craise Exhausted
    | S n =>
        let gotok := gotok || (a_sw a =? SW_NO_ERROR) in
        let a := continue_apdu a in
        verify (b_offset (a_reply a) <? b_size (a_reply a)) ;!
        let! a := piv_apdu_transceive a in
        recv_loop n gotok a
    end
  else cret (gotok, a).

(** [piv_apdu_transceive_chain]. *)
Definition piv_apdu_transceive_chain (fuel : nat) (a : apdu) : P apdu :=
  in_txn ;!
  let rem := b_len (a_cmd a) in
  let! (sent, a) := send_loop fuel rem (next_block rem a) in
  if sent then
    let offset := b_offset (a_reply a) in
    let! (gotok, a) := recv_loop fuel false a in
    let a := if gotok && (a_sw a =? SW_WRONG_DATA) then set_sw SW_NO_ERROR a else a in
    let r := a_reply a in
    cret (set_reply (Apdubuf (b_data r) offset (b_size r)
                       (usize (b_len r + (b_offset r - offset)))) a)
  else cret a.

(** ** Transactions *)

Definition begin_txn : P Z :=
  fun w => let '(r, c) := SCardBeginTransaction (w_card w) in (Ok r, World (w_tok w) c).
Definition reconnect : P Z :=
  fun w => let '(r, c) := SCardReconnect (w_card w) in (Ok r, World (w_tok w) c).
Definition end_txn (disposition : Z) : P Z :=
  fun w => let '(r, c) := SCardEndTransaction disposition (w_card w) in (Ok r, World (w_tok w) c).

(** The [retry:] loop. *)
Fixpoint begin_loop (fuel : nat) : P Z :=
  match fuel with
  | O => craise Exhausted
  | S n =>
      let! rv := begin_txn in
      if rv =? SCARD_W_RESET_CARD then
        let! rv := reconnect in
        if rv =? SCARD_S_SUCCESS then begin_loop n else fails (ioerrf pcscerrf)
      else cret rv
  end.
Definition piv_txn_begin (fuel : nat) : P unit :=
  let! w := cget in
  verify (negb (pt_intxn (w_tok w))) ;!
  let! rv := begin_loop fuel in
  if rv =? SCARD_S_SUCCESS then upd_tok (fun t => set_txn true (pt_reset t) t)
  else fails (ioerrf pcscerrf).

(** A failed [SCardEndTransaction] is only logged. *)
Definition piv_txn_end : P unit :=
  in_txn ;!
  let! w := cget in
  end_txn (if pt_reset (w_tok w) then SCARD_RESET_CARD else SCARD_LEAVE_CARD) ;!
  upd_tok (set_txn false false).
End Exchange.

(** * Safety: no reply of a card makes an exchange go out of bounds or abort *)

(** A reply buffer with room for a status word at [b_offset]. *)
Definition has_room (r : apdubuf) : Prop :=
  exists d, b_data r = Some d /\ bytes d /\ zlen d = b_size r /\ b_size r < 2 ^ 63
            /\ 0 <= b_offset r /\ b_offset r + 2 <= b_size r.
(** A completed reply: its data and the status word lie in the buffer. *)
Definition reply_ok (r : apdubuf) : Prop :=
  has_room r /\ 0 <= b_len r /\ b_offset r + b_len r + 2 <= b_size r.
(** The block a command points at. *)
Definition block_ok (a : apdu) : Prop :=
  match b_data (a_cmd a) with
  | None => True
  | Some d => 0 < b_len (a_cmd a) < 256 /\ 0 <= b_offset (a_cmd a)
              /\ b_offset (a_cmd a) + b_len (a_cmd a) <= zlen d
  end.
(** What is left to send: [rem] bytes at [b_offset]. *)
Definition cmd_rem (rem : Z) (c : apdubuf) : Prop :=
  match b_data c with
  | None => rem = 0
  | Some d => 0 < rem /\ 0 <= b_offset c /\ b_offset c + rem <= zlen d /\ zlen d < 2 ^ 63
  end.
(** An APDU ready to be exchanged. *)
Definition apdu_ready (a : apdu) : Prop :=
  cmd_rem (b_len (a_cmd a)) (a_cmd a)
  /\ (b_data (a_reply a) = None \/ has_room (a_reply a)).

Lemma zget_bytes d i b : bytes d -> zget d i = Some b -> is_byte b.
Proof.
  unfold zget. intros H. destruct (0 <=? i); [|done]. intros Hl. by eapply Forall_lookup_1 in Hl.
Qed.

Lemma zsplice_bytes d i bs : bytes d -> bytes bs -> bytes (zsplice d i bs).
Proof.
  unfold zsplice. intros Hd Hb.
  apply Forall_app; split; [by apply Forall_take|]. apply Forall_app; split; [done|by apply Forall_drop].
Qed.

Lemma sw_range h l : is_byte h -> is_byte l -> 0 <= Z.lor (Z.shiftl h 8) l < 65536.
Proof. unfold is_byte. intros. rewrite lor_shiftl_add by lia. lia. Qed.

Lemma reply_alloc_room r : b_data r = None \/ has_room r -> has_room (reply_alloc r).
Proof.
  unfold reply_alloc. intros [->|H].
  - exists (zrepeat MAX_APDU_SIZE 0). cbn [b_data b_offset b_size]. split_and!; try done.
    apply Forall_replicate. unfold is_byte. lia.
  - pose proof H as (d & -> & _). exact H.
Qed.

Section Safe.
Context {X : Certs} {R : Reader}.

(** What a completed exchange leaves of the APDU. *)
Definition exchanged (a a' : apdu) : Prop :=
  exists sw r, a' = set_sw sw (set_reply r a) /\ 0 <= sw < 65536 /\ reply_ok r
    /\ b_offset r = b_offset (reply_alloc (a_reply a)) /\ b_size r = b_size (reply_alloc (a_reply a)).
(** The token is as it was. *)
Definition same_tok {A} (w : world) : A -> world -> Prop := fun _ w' => w_tok w' = w_tok w.

(** A step that starts where the token is still the same. *)
Lemma wp_again {A} (m : M stop world A) (w w1 : world) (Q : A -> Prop) :
  w_tok w1 = w_tok w -> wp m w1 (fun v w' => w_tok w' = w_tok w1 /\ Q v) (same_tok w1) ->
  wp m w1 (fun v w' => w_tok w' = w_tok w /\ Q v) (same_tok w).
Proof.
  intros Hw H. eapply wp_mono; [exact H|..]; unfold same_tok; rewrite Hw; done.
Qed.

Lemma reply_recv_ok a r bs (w : world) Q (E : stop -> world -> Prop) :
  has_room r -> bytes bs -> 2 <= zlen bs <= b_size r - b_offset r ->
  (forall sw d, 0 <= sw < 65536 -> bytes d -> zlen d = b_size r ->
     Q (set_sw sw (set_reply (Apdubuf (Some d) (b_offset r) (b_size r) (zlen bs - 2)) a)) w) ->
  wp (reply_recv a r bs) w Q E.
Proof.
  intros (d & Hd & Hb & Hz & Hs & Ho & Ho2) Hbs Hl HQ. unfold reply_recv. rewrite Hd.
  replace (_ && _) with true by lia. rewrite (wrap_small 64 (zlen bs - 2)) by lia.
  rewrite !wrap_small by lia.
  pose proof (zlen_zsplice d (b_offset r) bs ltac:(lia) ltac:(lia)) as Hlen.
  pose proof (zsplice_bytes d (b_offset r) bs Hb Hbs) as Hby.
  destruct (zget_is_Some (zsplice d (b_offset r) bs) (b_offset r + (zlen bs - 2))) as [h Hh]; [lia|].
  destruct (zget_is_Some (zsplice d (b_offset r) bs) (b_offset r + (zlen bs - 2) + 1)) as [l Hl']; [lia|].
  rewrite Hh, Hl'. apply wp_ret, HQ; [|done|lia].
  apply sw_range; eauto using zget_bytes.
Qed.

Lemma in_txn_run (w : world) : pt_intxn (w_tok w) = true -> in_txn w = (Ok tt, w).
Proof. intros H. unfold in_txn, cbind, cget. by rewrite H. Qed.

Lemma attempt_ok {A} (m : M stop world A) w a w' : m w = (Ok a, w') -> attempt m w = (Ok (inr a), w').
Proof. intros H. unfold attempt. by rewrite H. Qed.
Lemma onerr_ok {A} f (m : M stop world A) w a w' : m w = (Ok a, w') -> onerr f m w = (Ok a, w').
Proof. intros H. unfold onerr, cmaperr. by rewrite H. Qed.

Lemma wp_in_txn (w : world) Q (E : stop -> world -> Prop) :
  pt_intxn (w_tok w) = true -> Q tt w -> wp in_txn w Q E.
Proof. intros H HQ. unfold wp. by rewrite in_txn_run. Qed.

Lemma wp_transmit (w : world) cmd room Q (E : stop -> world -> Prop) :
  (forall rv c, SCardTransmit cmd room (w_card w) = (rv, c) -> Q rv (World (w_tok w) c)) ->
  wp (transmit cmd room) w Q E.
Proof. intros H. unfold wp, transmit. destruct (SCardTransmit _ _ _) as [rv c]. by apply H. Qed.

Lemma wp_apdu_to_buffer {S} a (s : S) Q (E : stop -> S -> Prop) :
  block_ok a -> (forall cmd, Q cmd s) -> wp (apdu_to_buffer a) s Q E.
Proof.
  unfold block_ok, apdu_to_buffer. intros H HQ. destruct (b_data (a_cmd a)) as [d|]; [|by apply wp_ret].
  wp_step. apply wp_verify; [lia|]. replace (_ && _) with true by lia.
  wp_step; by apply wp_ret.
Qed.

Context {L : ReaderLaws R}.

Lemma transceive_safe a (w : world) :
  pt_intxn (w_tok w) = true -> block_ok a -> b_data (a_reply a) = None \/ has_room (a_reply a) ->
  wp (piv_apdu_transceive a) w (fun a' w' => w_tok w' = w_tok w /\ exchanged a a') (same_tok w).
Proof.
  intros Ht Hb Hr%reply_alloc_room. unfold piv_apdu_transceive.
  wp_step. apply wp_in_txn; [done|]. wp_step. apply wp_apdu_to_buffer; [done|]. intros cmd.
  wp_step. apply wp_transmit. intros [rv|bs] c Hc; [done|].
  pose proof Hr as (d & _ & _ & _ & ? & ? & ?). rewrite wrap_small in Hc by lia.
  apply transmit_fits in Hc as [Hbs Hl]. apply reply_recv_ok; [done|done|lia|].
  intros sw d' Hsw Hd' Hz. split; [done|].
  eexists sw, _. split; [reflexivity|]. cbn [b_offset b_size b_len]. split; [done|].
  split; [|done]. split; [|cbn; lia]. exists d'. cbn. split_and!; try done; lia.
Qed.

(** Between two blocks of a command. *)
Definition sending (rem : Z) (a : apdu) : Prop :=
  cmd_rem rem (a_cmd a) /\ (b_data (a_reply a) = None \/ has_room (a_reply a)).

Lemma next_block_ok rem a : sending rem a ->
  block_ok (next_block rem a) /\ sending rem (next_block rem a)
  /\ b_len (a_cmd (next_block rem a)) = Z.min rem 255.
Proof.
  unfold sending, cmd_rem, block_ok, next_block. intros [H ?].
  destruct (Z.ltb_spec 255 rem); cbn; (destruct (b_data (a_cmd a)) as [d|]; split_and!; try lia; try done).
Qed.

Lemma exchanged_room a a' : exchanged a a' -> has_room (a_reply a').
Proof. intros (sw & r & -> & _ & Hr & _). apply Hr. Qed.

Lemma send_loop_safe fuel : forall rem a (w : world),
  pt_intxn (w_tok w) = true -> sending rem a -> block_ok a -> b_len (a_cmd a) = Z.min rem 255 ->
  wp (send_loop fuel rem a) w
    (fun v w' => w_tok w' = w_tok w /\ reply_ok (a_reply (snd v)) /\ 0 <= a_sw (snd v) < 65536) (same_tok w).
Proof.
  induction fuel as [|n IH]; intros rem a w Ht Hs Hb Hl; cbn [send_loop]; [done|].
  wp_step. eapply wp_mono; [apply transceive_safe; [done|done|apply Hs]| |done].
  intros a1 w1 (Hw & sw & r & -> & Hsw & Hr & _). cbn [a_sw set_sw a_cmd set_reply a_reply].
  pose proof Hs as [Hrem _]. unfold cmd_rem in Hrem.
  wp_step; [|wp_step].
  - apply (wp_again _ _ _ _ Hw), IH; [by rewrite Hw| |exact Hb|done].
    split; [exact Hrem|right; apply Hr].
  - assert (usize (rem - b_len (a_cmd a)) = rem - b_len (a_cmd a)) as Hu.
    { apply wrap_small. destruct (b_data (a_cmd a)); lia. }
    rewrite Hu. wp_step; [|apply wp_ret; by split].
    set (a2 := set_cmd _ _). assert (sending (rem - b_len (a_cmd a)) a2) as Hs2.
    { split; [|right; apply Hr]. unfold cmd_rem. cbn. destruct (b_data (a_cmd a)) as [d|]; [|lia].
      rewrite (wrap_small 64 (_ + _)) by lia. lia. }
    destruct (next_block_ok _ _ Hs2) as (Hb3 & Hs3 & Hl3).
    apply (wp_again _ _ _ _ Hw), IH; [by rewrite Hw|done..].
  - apply wp_ret. by split.
Qed.

Lemma reply_next r : reply_ok r -> has_room (buf_offset (usize (b_offset r + b_len r)) r).
Proof.
  intros [(d & ? & ? & ? & ? & ? & ?) [? ?]]. exists d. cbn. rewrite wrap_small by lia.
  split_and!; try done; lia.
Qed.

Lemma continue_fields a : let a' := continue_apdu a in
  a_sw a' = a_sw a /\ b_data (a_cmd a') = None /\ a_cls a' = CLA_ISO /\ a_ins a' = INS_CONTINUE
  /\ a_p1 a' = 0 /\ a_p2 a' = 0
  /\ a_reply a' = buf_offset (usize (b_offset (a_reply a) + b_len (a_reply a))) (a_reply a).
Proof. unfold continue_apdu. case_match; by split_and!. Qed.

Lemma recv_loop_safe off fuel : forall gotok a (w : world),
  pt_intxn (w_tok w) = true -> reply_ok (a_reply a) -> off <= b_offset (a_reply a) ->
  wp (recv_loop fuel gotok a) w
    (fun v w' => w_tok w' = w_tok w /\ reply_ok (a_reply (snd v)) /\ off <= b_offset (a_reply (snd v)))
    (same_tok w).
Proof.
  induction fuel as [|n IH]; intros gotok a w Ht Hr Ho; cbn [recv_loop];
    (destruct (more_reply a) eqn:Hm; [|by apply wp_ret]); [done|].
  destruct (continue_fields a) as (_ & Hc & _ & _ & _ & _ & Hre).
  pose proof (reply_next _ Hr) as Hroom.
  wp_step. apply wp_verify.
  { rewrite Hre. destruct Hroom as (? & ? & ? & ? & ? & ? & ?). lia. }
  wp_step. eapply wp_mono; [apply transceive_safe; [done| |]| |done].
  - unfold block_ok. by rewrite Hc.
  - right. by rewrite Hre.
  - intros a1 w1 (Hw & sw & r & -> & Hsw & Hr1 & Hof & _). cbn [a_reply set_sw set_reply].
    rewrite Hre in Hof. destruct Hr as [(d & Hd & ? & ? & ? & ? & ?) [? ?]].
    unfold reply_alloc in Hof. cbn in Hof. rewrite Hd in Hof. cbn in Hof. rewrite wrap_small in Hof by lia.
    apply (wp_again _ _ _ _ Hw), IH; [by rewrite Hw|done|cbn; lia].
Qed.

Lemma chain_safe fuel a (w : world) :
  pt_intxn (w_tok w) = true -> apdu_ready a ->
  wp (piv_apdu_transceive_chain fuel a) w
    (fun a' w' => w_tok w' = w_tok w /\ reply_ok (a_reply a')) (same_tok w).
Proof.
  intros Ht Ha. unfold piv_apdu_transceive_chain. wp_step. apply wp_in_txn; [done|].
  destruct (next_block_ok _ _ Ha) as (Hb & Hs & Hl).
  wp_step. eapply wp_mono; [by apply send_loop_safe| |done].
  intros [sent a1] w1 (Hw & Hr & _). cbn [snd] in Hr. destruct sent; [|by apply wp_ret].
  wp_step. eapply wp_mono; [apply (recv_loop_safe (b_offset (a_reply a1))); [by rewrite Hw|done|lia]|..].
  - intros [gotok a2] w2 (Hw2 & Hr2 & Ho). cbn [snd] in *. apply wp_ret. split; [congruence|].
    destruct Hr2 as [(d & ? & ? & ? & ? & ? & ?) [? ?]].
    destruct Hr as [(d1 & ? & ? & ? & ? & ? & ?) [? ?]].
    assert (forall a, a_reply (set_sw SW_NO_ERROR a) = a_reply a) as Hs' by done.
    destruct (gotok && _); rewrite ?Hs'; unfold reply_ok, has_room; cbn;
      rewrite wrap_small by lia; (split; [exists d|]); split_and!; try done; lia.
  - intros e w2. unfold same_tok. by rewrite Hw.
Qed.
End Safe.
