(* ===== verification/ApduChain.v ===== *)
(** * APDU exchange with a conforming card (piv.c, [piv_apdu_transceive_chain])

    An abstract card application takes a command of any length and answers with data of
    any length and a status word. [iso_card] puts the transport of ISO 7816-4 in front
    of it, the way cards do: commands arrive in chained blocks, replies leave in
    pieces announced by [61xx], and some cards first answer [6Cxx] with the length to ask
    for. The theorem is a refinement: through [piv_apdu_transceive_chain] the
    application sees the command once and whole, and the caller the whole reply. *)
From stdpp Require Import base list strings.
From Stdlib Require Import ZArith Lia.
From S2P Require Import Prelude Errf Tlv PivBox PivToken Apdu.

Local Open Scope list_scope.
Local Open Scope Z_scope.
Local Open Scope c_scope.

(** ** The card *)

(** An application: class, instruction, parameters and data of a command to data and
    status of the answer; [app_reset] is what a reset does to it. *)
Class Applet := {
  app : Type;
  app_exec : Z -> Z -> Z -> Z -> list Z -> app -> (list Z * Z) * app;
  app_reset : app -> app
}.

(** How the card's transport behaves: the largest piece it sends, and whether it insists on
    the exact [Le]. *)
Record transport := Transport { tr_chunk : Z; tr_strict : bool }.
Definition transport_ok (tr : transport) : Prop := 1 <= tr_chunk tr <= 256.

Section Iso.
Context {A : Applet}.
Context (tr : transport).

Record iso_card := Iso {
  ic_app : app;
  ic_chain : list Z;   (* blocks of a chain that is not complete *)
  ic_out : list Z;     (* what is left of the answer *)
  ic_sw : Z            (* its status *)
}.

Definition SCARD_E_INSUFFICIENT_BUFFER : Z := 2148532232.   (* 0x80100008 *)

Definition iso_answer (room : Z) (data : list Z) (sw : Z) : Z + list Z :=
  if zlen data + 2 <=? room then inr (data ++ [sw / 256; sw mod 256])
  else inl SCARD_E_INSUFFICIENT_BUFFER.

(** [61xx]: how much the card would send next. *)
Definition remaining_sw (out : list Z) : Z :=
  SW_BYTES_REMAINING_00 + Z.min (zlen out) (tr_chunk tr) mod 256.
(** [Le = 0] asks for 256 bytes. *)
Definition le_val (le : Z) : Z := if le =? 0 then 256 else le.

(** Send the next piece of [out]. *)
Definition iso_serve (room le : Z) (c : iso_card) : (Z + list Z) * iso_card :=
  let n := Z.min (Z.min (zlen (ic_out c)) (tr_chunk tr)) (le_val le) in
  let piece := take (Z.to_nat n) (ic_out c) in
  let rest := drop (Z.to_nat n) (ic_out c) in
  let sw := match rest with [] => ic_sw c | _ => remaining_sw rest end in
  (iso_answer room piece sw, Iso (ic_app c) [] rest (ic_sw c)).

(** Execute a complete command. *)
Definition iso_exec (cla ins p1 p2 : Z) (data : list Z) (le room : Z) (c : iso_card)
    : (Z + list Z) * iso_card :=
  let '((reply, sw), app') := app_exec cla ins p1 p2 data (ic_app c) in
  if tr_strict tr && (le =? 0) && (0 <? zlen reply) && (zlen reply <? 256)
     && (zlen reply <=? tr_chunk tr)
  then (iso_answer room [] (SW_CORRECT_LE_00 + zlen reply), c)
  else iso_serve room le (Iso app' [] reply sw).

(** A continuation with nothing to continue is answered with 6A80. ISO 7816-4 leaves this open: it is what the code expects of cards
    ([final_of] turns it into success after some data), so it is an assumption on the card. *)
Definition iso_transmit (cmd : list Z) (room : Z) (c : iso_card) : (Z + list Z) * iso_card :=
  match cmd with
  | cla :: ins :: p1 :: p2 :: lc :: body =>
      let '(data, le) := match body with
                         | [] => ([], lc)
                         | _ => (take (Z.to_nat lc) body, List.nth (Z.to_nat lc) body 0)
                         end in
      if negb (Z.land cla CLA_CHAIN =? 0) then
        (iso_answer room [] SW_NO_ERROR, Iso (ic_app c) (ic_chain c ++ data) [] (ic_sw c))
      else if ins =? INS_CONTINUE then
        match ic_out c with
        | [] => (iso_answer room [] SW_WRONG_DATA, c)
        | _ => iso_serve room le c
        end
      else iso_exec cla ins p1 p2 (ic_chain c ++ data) le room c
  | _ => (iso_answer room [] SW_WRONG_LENGTH, c)
  end.

(** The card in a reader: a reset discards a chain and what was left of an answer. *)
Definition iso_end (disposition : Z) (c : iso_card) : Z * iso_card :=
  (SCARD_S_SUCCESS,
   if disposition =? SCARD_RESET_CARD then Iso (app_reset (ic_app c)) [] [] 0 else c).

#[global] Instance iso_reader : Reader := {
  card := iso_card;
  SCardTransmit := iso_transmit;
  SCardBeginTransaction := fun c => (SCARD_S_SUCCESS, c);
  SCardReconnect := fun c => (SCARD_S_SUCCESS, Iso (app_reset (ic_app c)) [] [] 0);
  SCardEndTransaction := iso_end
}.

(** ** One exchange *)

Context {X : Certs}.
Local Abbreviation W := (World (R := iso_reader)).

Definition status (sw : Z) : list Z := [sw / 256; sw mod 256].

Lemma status_sw sw : 0 <= sw < 65536 -> Z.lor (Z.shiftl (sw / 256) 8) (sw mod 256) = sw.
Proof.
  intros H. rewrite lor_shiftl_add; [|lia|by apply Z.mod_pos_bound].
  change (2 ^ 8) with 256. pose proof (Z.div_mod sw 256). lia.
Qed.

Lemma zget_splice {B} (d bs : list B) off i :
  0 <= off -> off + zlen bs <= zlen d -> 0 <= i < zlen bs -> zget (zsplice d off bs) (off + i) = zget bs i.
Proof.
  unfold zget, zsplice, zlen. intros. rewrite !(proj2 (Z.leb_le _ _)) by lia.
  rewrite lookup_app_r by (rewrite length_take; lia).
  rewrite lookup_app_l by (rewrite length_take; lia). f_equal. rewrite length_take. lia.
Qed.

Lemma zget_app_at {B} (l r : list B) i : 0 <= i -> zget (l ++ r) (zlen l + i) = zget r i.
Proof.
  unfold zget, zlen. intros. rewrite !(proj2 (Z.leb_le _ _)) by lia.
  rewrite lookup_app_r by lia. f_equal. lia.
Qed.

(** The APDU after an exchange that brought [piece] and [sw] into the buffer [d]. *)
Definition received (a : apdu) (d : list Z) (off : Z) (piece : list Z) (sw : Z) : apdu :=
  set_sw sw (set_reply (Apdubuf (Some (zsplice d off (piece ++ status sw))) off MAX_APDU_SIZE (zlen piece)) a).

Lemma transceive_run a (t : piv_token) c c' cmd d off len piece sw :
  pt_intxn t = true -> (forall s : world, apdu_to_buffer a s = (Ok cmd : res stop _, s)) ->
  reply_alloc (a_reply a) = Apdubuf (Some d) off MAX_APDU_SIZE len ->
  zlen d = MAX_APDU_SIZE -> 0 <= off -> off + zlen piece + 2 <= MAX_APDU_SIZE -> 0 <= sw < 65536 ->
  iso_transmit cmd (MAX_APDU_SIZE - off) c = (iso_answer (MAX_APDU_SIZE - off) piece sw, c') ->
  piv_apdu_transceive a (W t c) = (Ok (received a d off piece sw), W t c').
Proof.
  intros Ht Hc Hr Hd Ho Hl Hsw Htx. unfold MAX_APDU_SIZE in *.
  assert (Hz : zlen (piece ++ status sw) = zlen piece + 2) by (rewrite zlen_app; done).
  unfold piv_apdu_transceive. rewrite (cbind_ok _ _ _ _ _ (in_txn_run (W t c) Ht)).
  rewrite (cbind_ok _ _ _ _ _ (Hc _)), Hr. cbn [b_size b_offset b_data].
  rewrite wrap_small by (pose proof (zlen_nonneg piece); lia).
  unfold cbind, transmit. cbn [w_card w_tok SCardTransmit iso_reader]. rewrite Htx.
  unfold iso_answer. replace (_ <=? _) with true by lia. fold (status sw).
  unfold reply_recv. cbn [b_data b_offset b_size].
  replace (_ && _) with true by lia. rewrite Hz.
  pose proof (zlen_nonneg piece).
  rewrite (wrap_small 64 (_ - 2)) by lia. rewrite !wrap_small by lia.
  replace (off + (zlen piece + 2 - 2)) with (off + zlen piece) by lia.
  replace (off + zlen piece + 1) with (off + (zlen piece + 1)) by lia.
  rewrite !zget_splice by lia.
  rewrite zget_app_at by lia.
  assert (zget (piece ++ status sw) (zlen piece) = Some (sw / 256)) as -> by apply zget_app_r.
  change (zget (status sw) 1) with (Some (sw mod 256)). cbv beta iota.
  rewrite status_sw by done. unfold received, cret. do 6 f_equal. lia.
Qed.

(** ** Collecting the reply *)

(** The first [zlen got] bytes of the reply buffer are [got]. *)
Definition collecting (a : apdu) (got : list Z) : Prop :=
  exists d off, a_reply a = Apdubuf (Some d) off MAX_APDU_SIZE (zlen got - off) /\ zlen d = MAX_APDU_SIZE
    /\ 0 <= off <= zlen got /\ zlen got + 2 <= MAX_APDU_SIZE /\ zslice d 0 (zlen got) = got /\ bytes d.

Lemma status_bytes sw : 0 <= sw < 65536 -> bytes (status sw).
Proof.
  intros H. unfold status. repeat apply Forall_cons_2; [| |apply Forall_nil_2]; unfold is_byte;
    Z.div_mod_to_equations; lia.
Qed.

Lemma received_collecting a d got piece sw :
  bytes d -> bytes piece -> 0 <= sw < 65536 -> zlen d = MAX_APDU_SIZE -> zslice d 0 (zlen got) = got -> zlen got + zlen piece + 2 <= MAX_APDU_SIZE ->
  collecting (received a d (zlen got) piece sw) (got ++ piece).
Proof.
  intros Hbd Hbp Hsw Hd Hg Hl. pose proof (zlen_nonneg got). pose proof (zlen_nonneg piece).
  assert (Hs : zlen (status sw) = 2) by done.
  exists (zsplice d (zlen got) (piece ++ status sw)), (zlen got). cbn [a_reply received set_sw set_reply].
  rewrite zlen_app. split_and!; try lia.
  - do 2 f_equal. lia.
  - rewrite zlen_zsplice; rewrite ?zlen_app; lia.
  - rewrite zslice_app by lia. rewrite <- zsplice_zsplice by lia.
    pose proof (zlen_zsplice d (zlen got) piece ltac:(lia) ltac:(lia)).
    rewrite !(zslice_zsplice_before _ _ _ (zlen got + zlen piece)) by lia.
    rewrite Z.add_0_l, zslice_zsplice_before, zslice_zsplice_at by lia. by rewrite Hg.
  - apply zsplice_bytes; [done|]. apply Forall_app; split; [done|by apply status_bytes].
Qed.

(** A status that ends an exchange. *)
Definition final_sw (sw : Z) : Prop :=
  0 <= sw < 65536 /\ sw_class sw <> SW_BYTES_REMAINING_00 /\ sw_class sw <> SW_CORRECT_LE_00.
(** What [piv_apdu_transceive_chain] makes of the status the last CONTINUE got. *)
Definition final_of (gotok : bool) (a : apdu) : Z :=
  if gotok && (a_sw a =? SW_WRONG_DATA) then SW_NO_ERROR else a_sw a.

Lemma continue_buffer a (s : world) :
  apdu_to_buffer (continue_apdu a) s = (Ok [0; 192; 0; 0; a_le (continue_apdu a)] : res stop _, s).
Proof.
  destruct (continue_fields a) as (_ & Hd & Hc & Hi & H1 & H2 & _).
  unfold apdu_to_buffer. by rewrite Hd, Hc, Hi, H1, H2.
Qed.

Lemma collecting_continue a got : collecting a got ->
  exists d len, reply_alloc (a_reply (continue_apdu a)) = Apdubuf (Some d) (zlen got) MAX_APDU_SIZE len
    /\ zlen d = MAX_APDU_SIZE /\ zslice d 0 (zlen got) = got /\ zlen got + 2 <= MAX_APDU_SIZE
    /\ (b_offset (a_reply (continue_apdu a)) <? b_size (a_reply (continue_apdu a))) = true /\ bytes d.
Proof.
  intros (d & off & Hr & Hd & Ho & Hm & Hg & Hby). unfold MAX_APDU_SIZE in *.
  destruct (continue_fields a) as (_ & _ & _ & _ & _ & _ & He). rewrite He, Hr. cbn.
  rewrite wrap_small by lia. exists d, (zlen got - off). split_and!; try done; [|lia].
  unfold buf_offset. cbn. f_equal. lia.
Qed.

Lemma recv_step fuel gotok a got t c c' piece sw :
  pt_intxn t = true -> collecting a got -> more_reply a = true -> bytes piece -> zlen got + zlen piece + 2 <= MAX_APDU_SIZE ->
  0 <= sw < 65536 ->
  iso_transmit [0; 192; 0; 0; a_le (continue_apdu a)] (MAX_APDU_SIZE - zlen got) c
    = (iso_answer (MAX_APDU_SIZE - zlen got) piece sw, c') ->
  exists a', recv_loop (S fuel) gotok a (W t c) = recv_loop fuel (gotok || (a_sw a =? SW_NO_ERROR)) a' (W t c')
    /\ collecting a' (got ++ piece) /\ a_sw a' = sw /\ b_len (a_reply a') = zlen piece.
Proof.
  intros Ht Hc Hm Hbp Hl Hsw Htx.
  destruct (collecting_continue _ _ Hc) as (d & len & Hr & Hd & Hg & Hg2 & Hv & Hby).
  exists (received (continue_apdu a) d (zlen got) piece sw). split; [|by auto using received_collecting].
  cbn [recv_loop]. rewrite Hm, Hv. unfold verify. rewrite cbind_ret_l.
  apply cbind_ok. eapply transceive_run; eauto using continue_buffer. apply zlen_nonneg.
Qed.

(** The answer is complete: the loop stops, after one CONTINUE when the status was
    [SW_NO_ERROR] and the last piece was long. *)
Lemma recv_end fuel a got t ap sw :
  pt_intxn t = true -> collecting a got -> a_sw a = sw -> final_sw sw ->
  let w := W t (Iso ap [] [] sw) in
  exists g a', recv_loop (S fuel) false a w = (Ok (g, a'), w) /\ collecting a' got /\ final_of g a' = sw.
Proof.
  intros Ht Hc Hs (Hr & H61 & H6C) w. subst w. destruct (more_reply a) eqn:Hm.
  - assert (a_sw a = SW_NO_ERROR) as Hok.
    { unfold more_reply in Hm. rewrite Hs in *. destruct (Z.eqb_spec (sw_class sw) SW_BYTES_REMAINING_00); [done|].
      lia. }
    pose proof Hc as (? & ? & _ & _ & _ & ? & _).
    destruct (recv_step fuel false a got t (Iso ap [] [] sw) (Iso ap [] [] sw) [] SW_WRONG_DATA)
      as (a' & -> & Hc' & Hsw & Hlen); try done.
    { change (zlen (@nil Z)) with 0. lia. }
    exists true, a'. rewrite app_nil_r in Hc'. rewrite Hok.
    assert (more_reply a' = false) as Hn by (unfold more_reply; by rewrite Hsw).
    split; [destruct fuel; cbn [recv_loop]; by rewrite Hn|]. split; [done|].
    unfold final_of. rewrite Hsw. cbn. congruence.
  - exists false, a. cbn [recv_loop]. by rewrite Hm.
Qed.

Context (Htr : transport_ok tr).

Lemma remaining_facts out : out <> [] ->
  0 <= remaining_sw out < 65536 /\ sw_class (remaining_sw out) = SW_BYTES_REMAINING_00
  /\ le_val (Z.land (remaining_sw out) 255) = Z.min (zlen out) (tr_chunk tr)
  /\ 1 <= Z.min (zlen out) (tr_chunk tr).
Proof.
  intros Ho. unfold transport_ok in Htr.
  assert (1 <= zlen out) as H1 by (destruct out; [done|rewrite zlen_cons; pose proof (zlen_nonneg out); lia]).
  unfold remaining_sw, SW_BYTES_REMAINING_00. set (n := Z.min _ _).
  assert (1 <= n <= 256) as Hn by lia. pose proof (Z.mod_pos_bound n 256 ltac:(lia)).
  split_and!; try lia.
  - rewrite sw_class_spec by lia. Z.div_mod_to_equations. lia.
  - rewrite sw_low. unfold le_val. case_match; Z.div_mod_to_equations; lia.
Qed.

(** What the card does with a request for the next piece. *)
Lemma serve_piece room le ap out sw :
  out <> [] -> 1 <= le_val le -> exists n, 1 <= n <= zlen out /\
  iso_serve room le (Iso ap [] out sw)
  = (iso_answer room (zslice out 0 n)
       (if n =? zlen out then sw else remaining_sw (drop (Z.to_nat n) out)),
     Iso ap [] (drop (Z.to_nat n) out) sw).
Proof.
  intros Ho Hle. destruct (remaining_facts out Ho) as (_ & _ & _ & H1).
  eexists. split; cycle 1.
  - unfold iso_serve. cbn [ic_out ic_app ic_sw]. rewrite zslice_0. do 2 f_equal.
    destruct (drop _ out) as [|z r] eqn:Hd.
    + rewrite (proj2 (Z.eqb_eq _ _)); [done|]. apply (f_equal length) in Hd. rewrite length_drop in Hd.
      unfold zlen in *. cbn in Hd. lia.
    + rewrite (proj2 (Z.eqb_neq _ _)); [done|]. apply (f_equal length) in Hd. rewrite length_drop in Hd.
      unfold zlen in *. cbn in Hd. lia.
  - lia.
Qed.

(** The loop collects everything that is left. *)
Lemma recv_all sw : final_sw sw -> forall fuel out a got t ap,
  pt_intxn t = true -> collecting a got -> bytes out -> out <> [] -> a_sw a = remaining_sw out ->
  zlen got + zlen out + 2 <= MAX_APDU_SIZE -> (length out < fuel)%nat ->
  exists g a', recv_loop fuel false a (W t (Iso ap [] out sw)) = (Ok (g, a'), W t (Iso ap [] [] sw))
    /\ collecting a' (got ++ out) /\ final_of g a' = sw.
Proof.
  intros Hsw fuel. induction fuel as [|fuel IH]; intros out a got t ap Ht Hc Hby Ho Ha Hl Hf; [lia|].
  destruct (remaining_facts out Ho) as (Hr & Hcl & Hle & H1).
  assert (Hle' : a_le (continue_apdu a) = Z.land (remaining_sw out) 255).
  { unfold continue_apdu. cbn [a_sw set_head]. by rewrite Ha, Hcl. }
  assert (Hm : more_reply a = true) by (unfold more_reply; by rewrite Ha, Hcl).
  destruct (serve_piece (MAX_APDU_SIZE - zlen got) (Z.land (remaining_sw out) 255) ap out sw Ho ltac:(lia))
    as (n & Hn & Hs).
  assert (Hp : zlen (zslice out 0 n) = n) by (rewrite zlen_zslice; lia).
  assert (Hod : zslice out 0 n ++ drop (Z.to_nat n) out = out) by (rewrite zslice_0; apply take_drop).
  set (sw' := if n =? zlen out then sw else remaining_sw (drop (Z.to_nat n) out)).
  assert (0 <= sw' < 65536) as Hsw'.
  { unfold sw'. destruct (n =? zlen out) eqn:He; [apply Hsw|]. apply remaining_facts.
    intros Hd%(f_equal length). rewrite length_drop in Hd. cbn in Hd. unfold zlen in *. lia. }
  destruct (recv_step fuel false a got t (Iso ap [] out sw) (Iso ap [] (drop (Z.to_nat n) out) sw)
    (zslice out 0 n) sw') as (a' & -> & Hc' & Ha' & _); try done.
  - rewrite zslice_0. by apply Forall_take.
  - rewrite Hp. lia.
  - rewrite Hle'. destruct out; [done|]. exact Hs.
  - rewrite Ha. replace (remaining_sw out =? SW_NO_ERROR) with false; cycle 1.
    { symmetry. apply Z.eqb_neq. intros He. by rewrite He in Hcl. }
    cbn [orb]. subst sw'. destruct (Z.eqb_spec n (zlen out)) as [->|Hne].
    + rewrite drop_ge by (unfold zlen; lia). rewrite zslice_all in Hc'.
      destruct fuel; [destruct out; cbn in Hf; [done|lia]|]. by apply recv_end.
    + assert (got ++ out = (got ++ zslice out 0 n) ++ drop (Z.to_nat n) out) as -> by (by rewrite <- app_assoc, Hod). apply IH; try done.
      * by apply Forall_drop.
      * intros Hd%(f_equal length). rewrite length_drop in Hd. cbn in Hd. unfold zlen in *. lia.
      * rewrite zlen_app, Hp. unfold zlen in *. rewrite length_drop. lia.
      * rewrite length_drop. unfold zlen in *. lia.
Qed.

(** ** Sending the command *)

(** The reply buffer, which no exchange of the send loop moves on from. *)
Definition reply_start (a : apdu) : Prop :=
  exists d len, reply_alloc (a_reply a) = Apdubuf (Some d) 0 MAX_APDU_SIZE len /\ zlen d = MAX_APDU_SIZE /\ bytes d.

Lemma received_start a d piece sw : bytes d -> bytes piece -> 0 <= sw < 65536 -> zlen d = MAX_APDU_SIZE -> zlen piece + 2 <= MAX_APDU_SIZE ->
  reply_start (received a d 0 piece sw).
Proof.
  intros Hbd Hbp Hsw Hd Hl. exists (zsplice d 0 (piece ++ status sw)), (zlen piece). split; [done|]. split.
  - rewrite zlen_zsplice; rewrite ?zlen_app; change (zlen (status sw)) with 2; lia.
  - apply zsplice_bytes; [done|]. apply Forall_app; split; [done|by apply status_bytes].
Qed.

Lemma received_piece a d piece sw : bytes d -> bytes piece -> 0 <= sw < 65536 -> zlen d = MAX_APDU_SIZE -> zlen piece + 2 <= MAX_APDU_SIZE ->
  collecting (received a d 0 piece sw) piece.
Proof. intros. apply (received_collecting a d [] piece sw); done. Qed.

(** [a] holds the last block of a command: on a card that has the blocks [chain] its
    bytes are the whole command. *)
Definition last_block (a : apdu) (chain : list Z) (ins p1 p2 : Z) (data : list Z) : Prop :=
  exists cmdf, (forall le (s : world), apdu_to_buffer (set_le le a) s = (Ok (cmdf le) : res stop _, s))
    /\ (forall le room c, ic_chain c = chain ->
          iso_transmit (cmdf le) room c = iso_exec CLA_ISO ins p1 p2 data le room c).

Lemma set_le_same a : set_le (a_le a) a = a.
Proof. by destruct a. Qed.

Lemma serve_split room le ap reply sw : exists piece out,
  piece ++ out = reply /\
  iso_serve room le (Iso ap [] reply sw)
  = (iso_answer room piece (match out with [] => sw | _ => remaining_sw out end), Iso ap [] out sw).
Proof. eexists _, _. split; [apply take_drop|reflexivity]. Qed.

(** The status of the first piece. *)
Definition first_sw (out : list Z) (sw : Z) : Z := match out with [] => sw | _ => remaining_sw out end.

Lemma first_sw_range out sw : final_sw sw -> 0 <= first_sw out sw < 65536
  /\ sw_class (first_sw out sw) <> SW_CORRECT_LE_00.
Proof.
  intros (? & ? & ?). destruct out as [|z r]; [done|].
  destruct (remaining_facts (z :: r) ltac:(done)) as (? & Hcl & _). unfold first_sw. by rewrite Hcl.
Qed.

(** What sending the last block leads to. *)
Definition sent_to (t : piv_token) (ap : app) (reply : list Z) (sw : Z)
    (r : res stop (bool * apdu) * world) : Prop :=
  exists sent a1 piece out, r = (Ok (sent, a1), W t (Iso ap [] out sw)) /\ piece ++ out = reply
    /\ collecting a1 piece /\ b_offset (a_reply a1) = 0 /\ a_sw a1 = first_sw out sw
    /\ (sent = false -> out = []).

Section Run.
Context (t : piv_token) (ins p1 p2 : Z) (data : list Z) (ap ap' : app) (reply : list Z) (sw : Z).
Context (Ht : pt_intxn t = true) (Hsw : final_sw sw) (Hmax : zlen reply + 2 <= MAX_APDU_SIZE) (Hby : bytes reply).
Context (Hexec : app_exec CLA_ISO ins p1 p2 data ap = ((reply, sw), ap')).

(** The exchange in which the application runs. *)
Lemma run_block a chain out0 sw0 : last_block a chain ins p1 p2 data -> reply_start a ->
  tr_strict tr && (a_le a =? 0) && (0 <? zlen reply) && (zlen reply <? 256) && (zlen reply <=? tr_chunk tr) = false ->
  exists d piece out, piece ++ out = reply /\ bytes d /\ zlen d = MAX_APDU_SIZE /\ zlen piece + 2 <= MAX_APDU_SIZE
    /\ piv_apdu_transceive a (W t (Iso ap chain out0 sw0))
       = (Ok (received a d 0 piece (first_sw out sw)), W t (Iso ap' [] out sw)).
Proof.
  intros (cmdf & Hcmd & Htx) (d & len & Hr & Hd & Hbd) Hns.
  destruct (serve_split (MAX_APDU_SIZE - 0) (a_le a) ap' reply sw) as (piece & out & Hpo & Hs).
  exists d, piece, out. rewrite <- Hpo, zlen_app in Hmax. pose proof (zlen_nonneg out).
  split_and!; [done..|lia|].
  eapply (transceive_run _ _ _ _ (cmdf (a_le a))); eauto; [|lia|lia|by apply first_sw_range|].
  - intros s. rewrite <- (Hcmd (a_le a)). by rewrite set_le_same.
  - rewrite Htx by done. unfold iso_exec. cbn [ic_app]. by rewrite Hexec, Hns, Hs.
Qed.

Lemma set_le_block le a chain : last_block a chain ins p1 p2 data -> last_block (set_le le a) chain ins p1 p2 data.
Proof. intros (cmdf & H1 & H2). exists cmdf. split; [|done]. intros le' s. exact (H1 le' s). Qed.

(** The end of the send loop, once the card has run the command. *)
Lemma send_done fuel a d piece out :
  piece ++ out = reply -> bytes d -> zlen d = MAX_APDU_SIZE -> zlen piece + 2 <= MAX_APDU_SIZE ->
  forall w, piv_apdu_transceive a w = (Ok (received a d 0 piece (first_sw out sw)), W t (Iso ap' [] out sw)) ->
  sent_to t ap' reply sw (send_loop (S fuel) (b_len (a_cmd a)) a w).
Proof.
  intros Hpo Hbd Hd Hl w Hrun. cbn [send_loop]. rewrite (cbind_ok _ _ _ _ _ Hrun).
  destruct (first_sw_range out sw Hsw) as [Hr HC].
  assert (bytes piece) as Hbp by (rewrite <- Hpo in Hby; by apply Forall_app in Hby as [? _]).
  pose proof (received_piece a d piece (first_sw out sw) Hbd Hbp Hr Hd Hl) as Hc.
  cbn [a_sw received set_sw set_reply a_cmd]. rewrite (proj2 (Z.eqb_neq _ _) HC).
  destruct (_ || _) eqn:Hok.
  - rewrite Z.sub_diag. change (0 <? usize 0) with false. cbv iota.
    exists true. eexists _, piece, out. split_and!; [reflexivity|done|exact Hc|done..].
  - exists false. eexists _, piece, out. split_and!; [reflexivity|done|exact Hc|done|done|].
    intros _. destruct out as [|z r]; [done|].
    destruct (remaining_facts (z :: r) ltac:(done)) as (_ & H1 & _).
    unfold first_sw in Hok. rewrite H1 in Hok. done.
Qed.

Lemma send_last fuel a chain out0 sw0 : last_block a chain ins p1 p2 data -> reply_start a ->
  sent_to t ap' reply sw (send_loop (S (S fuel)) (b_len (a_cmd a)) a (W t (Iso ap chain out0 sw0))).
Proof.
  intros Hb Hs.
  destruct (tr_strict tr && (a_le a =? 0) && (0 <? zlen reply) && (zlen reply <? 256)
            && (zlen reply <=? tr_chunk tr)) eqn:Hst.
  - destruct Hs as (d & len & Hr & Hd & Hbd). pose proof Hb as (cmdf & Hcmd & Htx).
    set (w := W t _).
    assert (piv_apdu_transceive a w = (Ok (received a d 0 [] (SW_CORRECT_LE_00 + zlen reply)), w)) as H6C.
    { apply (transceive_run _ _ _ _ (cmdf (a_le a)) _ _ len); try done.
      - intros s. rewrite <- (Hcmd (a_le a)). by rewrite set_le_same.
      - unfold SW_CORRECT_LE_00. lia.
      - rewrite Htx by done. unfold iso_exec. cbn [ic_app]. by rewrite Hexec, Hst. }
    cbn [send_loop]. rewrite (cbind_ok _ _ _ _ _ H6C).
    cbn [a_sw received set_sw set_reply a_cmd]. unfold SW_CORRECT_LE_00.
    rewrite sw_class_spec, sw_low by lia.
    replace (_ / 256 * 256 =? _) with true by (symmetry; apply Z.eqb_eq; Z.div_mod_to_equations; lia).
    set (a1 := set_le _ _).
    change (b_len (a_cmd a)) with (b_len (a_cmd a1)).
    destruct (run_block a1 chain out0 sw0) as (d1 & piece & out & Hpo & Hbd1 & Hd1 & Hp & Hrun).
    + subst a1. apply set_le_block. exists cmdf. done.
    + apply (received_start a d []); try done. unfold SW_CORRECT_LE_00. lia.
    + replace (a_le a1 =? 0) with false; [by rewrite andb_false_r|].
      symmetry. apply Z.eqb_neq. cbn. Z.div_mod_to_equations. lia.
    + by apply (send_done fuel a1 d1 piece out).
  - destruct (run_block a chain out0 sw0 Hb Hs Hst) as (d1 & piece & out & Hpo & Hbd1 & Hd1 & Hp & Hrun).
    by apply (send_done (S fuel) a d1 piece out).
Qed.

(** The APDU of [data = sent ++ todo] once [sent] has been accepted. *)
Record at_block (a : apdu) (sent todo : list Z) : Prop := {
  ab_data : sent ++ todo = data;
  ab_todo : todo <> [];
  ab_cls : a_cls a = if 255 <? zlen todo then CLA_CHAIN else CLA_ISO;
  ab_ins : a_ins a = ins;
  ab_p1 : a_p1 a = p1;
  ab_p2 : a_p2 a = p2;
  ab_cmd : exists sz, a_cmd a = Apdubuf (Some data) (zlen sent) sz (Z.min (zlen todo) 255);
  ab_reply : reply_start a
}.

Context (Hins : is_byte ins) (Hcont : ins <> INS_CONTINUE).

Lemma zslice_suffix {B} (l r : list B) n : 0 <= n <= zlen r ->
  zslice (l ++ r) (zlen l) n = take (Z.to_nat n) r.
Proof. unfold zslice, zlen. intros. by rewrite drop_app_length' by lia. Qed.

Lemma todo_pos (todo : list Z) : todo <> [] -> 1 <= zlen todo.
Proof. destruct todo; [done|]. rewrite zlen_cons. pose proof (zlen_nonneg todo). lia. Qed.

Lemma block_bytes a sent todo : at_block a sent todo -> zlen todo <= 255 ->
  last_block a sent ins p1 p2 data.
Proof.
  intros [Hd Ht0 Hc Hi H1 H2 [sz Hcmd] _] Hl. pose proof (todo_pos _ Ht0) as Hp.
  pose proof (zlen_nonneg sent). rewrite (proj2 (Z.ltb_ge _ _)) in Hc by lia.
  rewrite Z.min_l in Hcmd by lia.
  exists (fun le => [0; ins; p1; p2; zlen todo] ++ todo ++ [le]). split.
  - intros le s. unfold apdu_to_buffer. cbn [a_cmd set_le a_cls a_ins a_p1 a_p2 a_le].
    rewrite Hcmd, Hc, Hi, H1, H2. cbn [b_data b_len b_offset].
    unfold verify. replace (_ && _) with true by lia. rewrite cbind_ret_l.
    rewrite (wrap_small 8 ins) by exact Hins. rewrite (wrap_small 8 (zlen todo)) by lia.
    subst data. rewrite zlen_app. replace (_ && _) with true by lia.
    rewrite zslice_suffix by lia. rewrite take_ge by (unfold zlen; lia). done.
  - intros le room c Hch. unfold iso_transmit. cbn [Datatypes.app].
    destruct (todo ++ [le]) as [|b body] eqn:Hb; [by destruct todo|]. rewrite <- Hb.
    assert (length todo = Z.to_nat (zlen todo)) as Hlen by (unfold zlen; lia).
    rewrite <- Hlen, take_app_length, app_nth2, Nat.sub_diag by lia. cbn [List.nth negb Z.land Z.eqb].
    rewrite (proj2 (Z.eqb_neq _ _) Hcont), Hch, Hd. done.
Qed.

Lemma chain_bytes a sent todo out0 sw0 : at_block a sent todo -> 255 < zlen todo ->
  exists a', piv_apdu_transceive a (W t (Iso ap sent out0 sw0))
             = (Ok a', W t (Iso ap (sent ++ take 255 todo) [] sw0))
    /\ a_sw a' = SW_NO_ERROR /\ a_cmd a' = a_cmd a /\ a_cls a' = CLA_CHAIN
    /\ a_ins a' = ins /\ a_p1 a' = p1 /\ a_p2 a' = p2 /\ reply_start a'.
Proof.
  intros [Hd Ht0 Hc Hi H1 H2 [sz Hcmd] (d & len & Hr & Hzd & Hbd)] Hl.
  pose proof (zlen_nonneg sent). rewrite (proj2 (Z.ltb_lt _ _)) in Hc by lia.
  rewrite Z.min_r in Hcmd by lia.
  exists (received a d 0 [] SW_NO_ERROR). split; [|split_and!; try done; by apply received_start].
  apply (transceive_run _ _ _ _ ([16; ins; p1; p2; 255] ++ take 255 todo) _ _ len); try done.
  - intros s. unfold apdu_to_buffer. rewrite Hcmd, Hc, Hi, H1, H2. cbn [b_data b_len b_offset].
    unfold verify. cbn [Z.ltb andb Z.compare Pos.compare Pos.compare_cont]. rewrite cbind_ret_l.
    rewrite (wrap_small 8 ins) by exact Hins. subst data. rewrite zlen_app.
    replace (_ && _) with true by lia. rewrite zslice_suffix by lia. done.
  - assert (length (take 255 todo) = 255%nat) as Hlen by (rewrite length_take; unfold zlen in Hl; lia).
    unfold iso_transmit. cbn [Datatypes.app].
    destruct (take 255 todo) as [|b body] eqn:Hb; [done|]. rewrite <- Hb in *.
    cbn [ic_chain ic_app ic_sw]. rewrite take_ge by lia. done.
Qed.

Lemma send_all fuel : forall a sent todo out0 sw0,
  at_block a sent todo -> zlen data < 2 ^ 63 -> (length todo + 1 < fuel)%nat ->
  sent_to t ap' reply sw (send_loop fuel (zlen todo) a (W t (Iso ap sent out0 sw0))).
Proof.
  induction fuel as [|fuel IH]; intros a sent todo out0 sw0 Ha Hd Hf; [lia|].
  destruct (Z.le_gt_cases (zlen todo) 255) as [Hl|Hl].
  { destruct fuel; [lia|]. destruct (ab_cmd _ _ _ Ha) as [sz Hcmd].
    replace (zlen todo) with (b_len (a_cmd a)) by (rewrite Hcmd; cbn; lia).
    apply (send_last _ _ sent); [by apply (block_bytes a sent todo)|apply Ha]. }
  destruct (chain_bytes a sent todo out0 sw0 Ha Hl) as (a' & Hrun & Hs & Hcmd & Hcls & Hi & H1 & H2 & Hr).
  cbn [send_loop]. rewrite (cbind_ok _ _ _ _ _ Hrun), Hs. cbn [sw_class Z.land].
  change (sw_class SW_NO_ERROR) with SW_NO_ERROR. cbn [Z.eqb orb].
  destruct (ab_cmd _ _ _ Ha) as [sz Hc]. rewrite Hcmd, Hc. cbn [b_len b_offset].
  pose proof (ab_data _ _ _ Ha) as Hdat. rewrite <- Hdat, zlen_app in Hd. pose proof (zlen_nonneg sent).
  rewrite Z.min_r by lia. rewrite !wrap_small by lia. rewrite (proj2 (Z.ltb_lt _ _)) by lia.
  assert (zlen (drop 255 todo) = zlen todo - 255) as Hz by (unfold zlen in *; rewrite length_drop; lia).
  rewrite <- Hz. apply (IH _ (sent ++ take 255 todo)); [|rewrite <- Hdat, zlen_app; lia|].
  2:{ unfold zlen in *. rewrite length_drop. lia. }
  constructor; unfold next_block; try (by case_match).
  - by rewrite <- app_assoc, take_drop.
  - intros He. rewrite He in Hz. change (zlen []) with 0 in Hz. lia.
  - case_match; cbn; by rewrite Hcls.
  - exists sz. assert (zlen (sent ++ take 255 todo) = zlen sent + 255) as Hz2.
    { rewrite zlen_app. unfold zlen in *. rewrite length_take. lia. }
    rewrite Hz2. case_match; unfold set_cls, buf_len; cbn; f_equal; lia.
Qed.

(** ** The whole exchange *)

(** The APDU of a command, as the callers of [piv_apdu_transceive_chain] make it. *)
Definition command (ins p1 p2 : Z) (data : list Z) : apdu :=
  match data with
  | [] => piv_apdu_make CLA_ISO ins p1 p2
  | _ => with_cmd data (piv_apdu_make CLA_ISO ins p1 p2)
  end.

Lemma command_nil i q1 q2 l : l = [] -> command i q1 q2 l = piv_apdu_make CLA_ISO i q1 q2.
Proof. by intros ->. Qed.
Lemma command_cons i q1 q2 l : l <> [] -> command i q1 q2 l = with_cmd l (piv_apdu_make CLA_ISO i q1 q2).
Proof. by destruct l. Qed.

Lemma command_sent fuel out0 sw0 : is_byte p1 -> is_byte p2 -> zlen data < 2 ^ 63 ->
  (length data + 1 < fuel)%nat ->
  let a := command ins p1 p2 data in
  sent_to t ap' reply sw
    (send_loop fuel (b_len (a_cmd a)) (next_block (b_len (a_cmd a)) a) (W t (Iso ap [] out0 sw0))).
Proof.
  intros Hp1 Hp2 Hd Hf a.
  assert (reply_start (piv_apdu_make CLA_ISO ins p1 p2)) as Hr.
  { exists (zrepeat MAX_APDU_SIZE 0), 0. split; [done|]. split; [by rewrite zlen_zrepeat|].
    apply Forall_replicate. unfold is_byte. lia. }
  subst a. destruct (decide (data = [])) as [Hdat|Hdat]; [rewrite (command_nil _ _ _ _ Hdat)|rewrite command_cons by done].
  - destruct fuel as [|[|fuel]]; [lia..|].
    apply (send_last fuel (next_block 0 (piv_apdu_make CLA_ISO ins p1 p2)) []); [|exact Hr].
    exists (fun le => [0; ins; p1; p2; le]). split.
    + intros le s. unfold apdu_to_buffer. cbn [a_cmd set_le next_block set_cls set_head set_cmd b_data buf_len
        piv_apdu_make null_buf a_cls a_ins a_p1 a_p2 a_le Z.ltb Z.compare].
      rewrite !(wrap_small 8) by (first [exact Hins|exact Hp1|exact Hp2|done]). done.
    + intros le room c Hc. unfold iso_transmit. cbn [negb Z.land Z.eqb].
      rewrite (proj2 (Z.eqb_neq _ _) Hcont), Hc, Hdat. done.
  - apply (send_all fuel _ [] data); [|done|done].
    assert (u8 p1 = p1 /\ u8 p2 = p2) as [E1 E2] by (split; by apply wrap_small).
    constructor; unfold next_block; cbn [with_cmd a_cmd b_len]; try (by case_match); try done.
    + exists 0. case_match; unfold set_cls, buf_len; cbn; f_equal; lia.
Qed.

(** The APDU holds the whole answer. *)
Definition answered (a : apdu) (reply : list Z) (sw : Z) : Prop :=
  a_sw a = sw /\ exists d, a_reply a = Apdubuf (Some d) 0 MAX_APDU_SIZE (zlen reply)
    /\ zlen d = MAX_APDU_SIZE /\ zslice d 0 (zlen reply) = reply /\ bytes d.

Lemma chain_exec fuel out0 sw0 : is_byte p1 -> is_byte p2 -> zlen data < 2 ^ 63 ->
  (length data + 1 < fuel)%nat -> (length reply + 1 < fuel)%nat ->
  exists a', piv_apdu_transceive_chain fuel (command ins p1 p2 data) (W t (Iso ap [] out0 sw0))
             = (Ok a', W t (Iso ap' [] [] sw)) /\ answered a' reply sw.
Proof.
  intros Hp1 Hp2 Hd Hf1 Hf2. unfold piv_apdu_transceive_chain.
  rewrite (cbind_ok _ _ _ _ _ (in_txn_run (W t (Iso ap [] out0 sw0)) Ht)).
  destruct (command_sent fuel out0 sw0 Hp1 Hp2 Hd Hf1) as (sent & a1 & piece & out & Hr & Hpo & Hc & Ho & Hs & Hn).
  rewrite (cbind_ok _ _ _ _ _ Hr). destruct sent.
  - assert (exists g a2, recv_loop fuel false a1 (W t (Iso ap' [] out sw)) = (Ok (g, a2), W t (Iso ap' [] [] sw))
             /\ collecting a2 reply /\ final_of g a2 = sw) as (g & a2 & Hrecv & Hc2 & Hfin).
    { rewrite <- Hpo. destruct (decide (out = [])) as [->|Hne].
      - rewrite app_nil_r. destruct fuel; [lia|]. by apply recv_end.
      - apply recv_all; try done; [rewrite <- Hpo in Hby; by apply Forall_app in Hby as [_ ?]|by destruct out|rewrite <- zlen_app; by rewrite Hpo|].
        apply (f_equal length) in Hpo. rewrite length_app in Hpo. lia. }
    rewrite (cbind_ok _ _ _ _ _ Hrecv). cbv beta iota. eexists. split; [reflexivity|].
    destruct Hc2 as (d & off & Hre & Hzd & Hoff & Hm & Hsl & Hbd).
    assert (forall b : bool, a_reply (if b then set_sw SW_NO_ERROR a2 else a2) = a_reply a2) as Hif by (by intros []).
    split; [cbn; unfold final_of in Hfin; by destruct (g && _)|].
    exists d. rewrite Hif, Hre. cbn. unfold MAX_APDU_SIZE in *.
    split; [|done]. rewrite Ho. f_equal. rewrite wrap_small; lia.
  - exists a1. rewrite (Hn eq_refl), app_nil_r in *. subst piece. split; [done|].
    destruct Hc as (d & off & Hre & Hzd & Hoff & Hm & Hsl & Hbd). rewrite Hre in Ho. cbn in Ho. subst off.
    split; [done|]. exists d. rewrite Hre. split; [|done]. f_equal. lia.
Qed.
End Run.

(** ** A session: commands in sequence *)

Record cmd := Cmd { c_ins : Z; c_p1 : Z; c_p2 : Z; c_data : list Z }.

(** What the caller gets from one command. *)
Definition outcome : Type := list Z * Z.

(** The specification: the application executes the commands one after the other. *)
Fixpoint app_session (cs : list cmd) (ap : app) : list outcome * app :=
  match cs with
  | [] => ([], ap)
  | c :: cs' =>
      let '(o, ap1) := app_exec CLA_ISO (c_ins c) (c_p1 c) (c_p2 c) (c_data c) ap in
      let '(os, ap2) := app_session cs' ap1 in (o :: os, ap2)
  end.

(** The program: each command goes through [piv_apdu_transceive_chain]. *)
Fixpoint piv_session (fuel : nat) (cs : list cmd) : M stop world (list outcome) :=
  match cs with
  | [] => cret []
  | c :: cs' =>
      let! a := piv_apdu_transceive_chain fuel (command (c_ins c) (c_p1 c) (c_p2 c) (c_data c)) in
      let! reply := piv_apdu_get_reply a in
      let! os := piv_session fuel cs' in
      cret ((reply, piv_apdu_sw a) :: os)
  end.

(** A command the token code could send. *)
Definition cmd_ok (fuel : nat) (c : cmd) : Prop :=
  is_byte (c_ins c) /\ c_ins c <> INS_CONTINUE /\ is_byte (c_p1 c) /\ is_byte (c_p2 c)
  /\ zlen (c_data c) < 2 ^ 63 /\ (length (c_data c) + 1 < fuel)%nat.
(** An answer that fits the reply buffer and ends the exchange. *)
Definition outcome_ok (fuel : nat) (o : outcome) : Prop :=
  final_sw (snd o) /\ bytes (fst o) /\ zlen (fst o) + 2 <= MAX_APDU_SIZE /\ (length (fst o) + 1 < fuel)%nat.

Lemma answered_reply {E S} a reply sw (s : S) :
  answered a reply sw -> piv_apdu_get_reply a s = (Ok reply : res E _, s).
Proof.
  intros (_ & d & Hr & Hz & Hs & _). unfold piv_apdu_get_reply. rewrite Hr. cbn [b_data b_offset b_len].
  assert (zlen reply <= zlen d) as Hl.
  { rewrite <- Hs at 1. rewrite zslice_0. unfold zlen. rewrite length_take. lia. }
  pose proof (zlen_nonneg reply). replace (_ && _ && _) with true by lia. by rewrite Hs.
Qed.

Lemma session_exec fuel cs : forall t ap os ap' out0 sw0,
  pt_intxn t = true -> Forall (cmd_ok fuel) cs -> app_session cs ap = (os, ap') -> Forall (outcome_ok fuel) os ->
  exists sw1 out1, piv_session fuel cs (W t (Iso ap [] out0 sw0)) = (Ok os, W t (Iso ap' [] out1 sw1)).
Proof.
  induction cs as [|c cs IH]; intros t ap os ap' out0 sw0 Ht Hc Hs Ho; cbn in Hs.
  { inversion Hs; subst. by eexists _, _. }
  destruct (app_exec _ _ _ _ _ _) as [[reply sw] ap1] eqn:He.
  destruct (app_session cs ap1) as [os1 ap2] eqn:Hss. inversion Hs; subst.
  apply Forall_cons in Hc as [(Hi & Hn & H1 & H2 & Hd & Hf) Hcs].
  apply Forall_cons in Ho as [(Hsw & Hby & Hm & Hf2) Hos]. cbn [fst snd] in *.
  destruct (chain_exec t (c_ins c) (c_p1 c) (c_p2 c) (c_data c) ap ap1 reply sw Ht Hsw Hm Hby He Hi Hn
              fuel out0 sw0 H1 H2 Hd Hf Hf2) as (a' & Hx & Ha).
  cbn [piv_session]. rewrite (cbind_ok _ _ _ _ _ Hx).
  rewrite (cbind_ok _ _ _ _ _ (answered_reply _ _ _ _ Ha)).
  destruct (IH t ap1 os1 ap' [] sw Ht Hcs Hss Hos) as (sw1 & out1 & Hrest).
  exists sw1, out1. rewrite (cbind_ok _ _ _ _ _ Hrest). unfold piv_apdu_sw. by destruct Ha as [-> _].
Qed.
End Iso.

(** C6: behind any conforming ISO 7816-4 transport (any piece size from 1 to 256 bytes,
    with or without the [6Cxx] correction of [Le]), a sequence of commands sent through
    [piv_apdu_transceive_chain] reaches the card's application exactly as it is, once and
    in order, and the caller gets back exactly the answers and status words of the
    application: command chaining, response chaining, the repeated command after
    [6Cxx] and the extra CONTINUE after a full-size piece are invisible. [fuel] bounds
    the exchanges per command. *)
Theorem apdu_session_refines {A : Applet} {X : Certs} (tr : transport) fuel (cs : list cmd)
    (t : piv_token) (ap ap' : app) (os : list outcome) (out0 : list Z) (sw0 : Z) :
  transport_ok tr -> pt_intxn t = true -> Forall (cmd_ok fuel) cs ->
  app_session cs ap = (os, ap') -> Forall (outcome_ok fuel) os ->
  exists sw1 out1,
    piv_session tr fuel cs (World (R := iso_reader tr) t (Iso ap [] out0 sw0))
    = (Ok os, World (R := iso_reader tr) t (Iso ap' [] out1 sw1)).
Proof. intros Htr. exact (session_exec tr Htr fuel cs t ap os ap' out0 sw0). Qed.

(** An application that answers a command with its data repeated. *)
Definition echo_applet : Applet := {|
  app := Z;
  app_exec := fun _ ins _ _ data n =>
    ((data ++ data, if ins =? INS_VERIFY then SW_INCORRECT_PIN + 3 else SW_NO_ERROR), n + 1);
  app_reset := fun _ => 0
|}.
Definition no_certs : Certs := {|
  x509 := unit; certkey := unit; d2i_X509 := fun _ => None; X509_subject := fun _ => [];
  X509_pubkey := fun _ => None; certkey_type := fun _ => 0; certkey_size := fun _ => 0;
  inflate := fun _ _ => None
|}.

Lemma apdu_session_refines_witness :
  let cs := [Cmd INS_PUT_DATA 63 255 (zrepeat 300 7); Cmd INS_VERIFY 0 128 []] in
  exists sw1 out1,
    piv_session (A := echo_applet) (X := no_certs) (Transport 256 true) 700 cs
      (World (R := iso_reader (A := echo_applet) (Transport 256 true))
         (set_txn true false (piv_token_calloc (X := no_certs))) (Iso (A := echo_applet) 5 [] [] 0))
    = (Ok [(zrepeat 600 7, SW_NO_ERROR); ([], SW_INCORRECT_PIN + 3)],
       World (R := iso_reader (A := echo_applet) (Transport 256 true))
         (set_txn true false (piv_token_calloc (X := no_certs))) (Iso (A := echo_applet) 7 [] out1 sw1)).
Proof.
  apply (@apdu_session_refines echo_applet no_certs (Transport 256 true)).
  - unfold transport_ok. cbn. lia.
  - reflexivity.
  - apply Forall_cons_2; [|apply Forall_cons_2; [|apply Forall_nil_2]];
      unfold cmd_ok, is_byte; cbn [c_ins c_p1 c_p2 c_data]; split_and!;
      vm_compute; congruence || lia.
  - vm_compute. reflexivity.
  - apply Forall_cons_2; [|apply Forall_cons_2; [|apply Forall_nil_2]];
      unfold outcome_ok, final_sw; cbn [fst snd]; split_and!;
      (apply bytesb_spec; vm_compute; reflexivity) || (vm_compute; congruence || lia).
Defined.
