(* ===== verification/PivPin.v ===== *)
(** * PINs and card management commands (piv.c)

    [piv_verify_pin] and the commands that change a PIN, the PIN through the PUK, the
    retry counters or the admin key. A PIN is the content of the C string. [pin_applet] is
    the reference: the PIN state of a PIV card as SP 800-73-4 part 2 describes it. *)
From stdpp Require Import base list strings relations.
From Stdlib Require Import ZArith Lia.
From S2P Require Import Prelude Errf Tlv PivBox PivToken Apdu ApduChain.

Local Open Scope string_scope.
Local Open Scope list_scope.
Local Open Scope Z_scope.
Local Open Scope c_scope.

Section Pin.
Context {X : Certs} {R : Reader}.
Context (fuel : nat).

(** [memset(pinbuf, 0xFF, n)], then the copy loop at [at] up to the end of the string;
    the string is at most 8 long. *)
Definition pin_copy (buf : list Z) (at_ : Z) (pin : list Z) : M stop world (list Z) :=
  verify (zlen pin <=? 8) ;! cret (zsplice buf at_ pin).
Definition pin_len_ok (pin : list Z) : bool := negb ((zlen pin <? 1) || (8 <? zlen pin)).

(** [(sw & 0xFFF0) == SW_INCORRECT_PIN] and [sw & 0x000F]. *)
Definition incorrect_pin (sw : Z) : bool := Z.land sw 65520 =? SW_INCORRECT_PIN.
Definition tries_left (sw : Z) : Z := Z.land sw 15.

Definition MinRetriesError : errf_t := errf "MinRetriesError" None.

(** The first command of [piv_verify_pin], an empty VERIFY: what it decides. *)
Variant precheck :=
| Return (err : option errf_t) (retries : option Z)
| TryPin (retries : option Z).

Definition wants_check (pin : option (list Z)) (retries : option Z) (canskip : bool) : bool :=
  match pin with None => true | Some _ => canskip || (0 <? default 0 retries) end.

Definition verify_check (sw : Z) (pin : option (list Z)) (retries : option Z) (canskip : bool)
    : precheck :=
  if incorrect_pin sw then
    match pin with
    | Some _ =>
        if (0 <? default 0 retries) && (tries_left sw <=? default 0 retries)
        then Return (Some MinRetriesError) (Some (tries_left sw))
        else TryPin retries
    | None => Return None (match retries with Some _ => Some (tries_left sw) | None => None end)
    end
  else if (sw =? SW_WRONG_LENGTH) || (sw =? SW_WRONG_DATA) then
    match pin with
    | None => Return (Some (notsuperrf (Some swerrf))) retries
    | Some _ => TryPin retries
    end
  else if sw =? SW_NO_ERROR then
    match pin with
    | None => Return None retries
    | Some _ => if canskip then Return None retries else TryPin retries
    end
  else Return (Some swerrf) retries.

(** The second command, with the PIN. *)
Definition verify_try (type : Z) (pin : list Z) (retries : option Z)
    : M stop world (option errf_t * option Z) :=
  if negb (pin_len_ok pin) then cret (Some argerrf, retries)
  else
    let! pinbuf := pin_copy (zrepeat 8 255) 0 pin in
    let! r := attempt (piv_apdu_transceive_chain fuel
                         (with_cmd pinbuf (piv_apdu_make CLA_ISO INS_VERIFY 0 type))) in
    match r with
    | inl e => cret (Some (ioerrf e), retries)
    | inr a =>
        if a_sw a =? SW_NO_ERROR then
          upd_tok (fun t => set_txn (pt_intxn t) true t) ;! cret (None, retries)
        else if a_sw a =? SW_FILE_INVALID then
          cret (Some (permerrf swerrf), match retries with Some _ => Some 0 | None => None end)
        else if incorrect_pin (a_sw a) then
          cret (Some (permerrf swerrf),
                match retries with Some _ => Some (tries_left (a_sw a)) | None => None end)
        else cret (Some swerrf, retries)
    end.

(** [piv_verify_pin]: the result and what [*retries] is afterwards; [retries] is
    [None] for [NULL]. *)
Definition piv_verify_pin (type : Z) (pin : option (list Z)) (retries : option Z) (canskip : bool)
    : M stop world (option errf_t * option Z) :=
  in_txn ;!
  let! d := (if wants_check pin retries canskip then
               let! r := attempt (piv_apdu_transceive_chain fuel
                                    (piv_apdu_make CLA_ISO INS_VERIFY 0 type)) in
               match r with
               | inl e => cret (Return (Some (ioerrf e)) retries)
               | inr a => cret (verify_check (a_sw a) pin retries canskip)
               end
             else cret (TryPin retries)) in
  match d with
  | Return err retries => cret (err, retries)
  | TryPin retries =>
      match pin with
      | None => cpanic
      | Some pin => verify_try type pin retries
      end
  end.

(** The two PINs of INS_CHANGE_PIN and INS_RESET_PIN in one command. *)
Definition two_pins (ins type : Z) (old new : list Z) : M stop world apdu :=
  in_txn ;!
  guard (pin_len_ok old) (Err argerrf) ;!
  guard (pin_len_ok new) (Err argerrf) ;!
  let! pinbuf := pin_copy (zrepeat 16 255) 0 old in
  let! pinbuf := pin_copy pinbuf 8 new in
  onerr ioerrf (piv_apdu_transceive_chain fuel (with_cmd pinbuf (piv_apdu_make CLA_ISO ins 0 type))).

Definition must_reset : M stop world unit := upd_tok (fun t => set_txn (pt_intxn t) true t).

Definition piv_change_pin (type : Z) (pin newpin : list Z) : M stop world unit :=
  let! a := two_pins INS_CHANGE_PIN type pin newpin in
  if a_sw a =? SW_NO_ERROR then must_reset
  else if incorrect_pin (a_sw a) then fails (permerrf swerrf)
  else fails swerrf.

Definition piv_reset_pin (type : Z) (puk newpin : list Z) : M stop world unit :=
  let! a := two_pins INS_RESET_PIN type puk newpin in
  if a_sw a =? SW_NO_ERROR then must_reset
  else if incorrect_pin (a_sw a) then fails (permerrf swerrf)
  else if a_sw a =? SW_FILE_INVALID then fails (permerrf swerrf)
  else fails swerrf.

Definition yk_only : M stop world unit :=
  in_txn ;! let! w := cget in guard (pt_ykpiv (pt_yk (w_tok w))) (Err argerrf).

(** The one command that is sent without chaining. *)
Definition ykpiv_reset : M stop world unit :=
  yk_only ;!
  let! a := onerr ioerrf (piv_apdu_transceive (piv_apdu_make CLA_ISO INS_RESET 0 0)) in
  if a_sw a =? SW_NO_ERROR then must_reset
  else if a_sw a =? SW_SECURITY_STATUS_NOT_SATISFIED then fails (permerrf swerrf)
  else if a_sw a =? SW_CONDITIONS_NOT_SATISFIED then fails (errf "ResetConditionsError" (Some swerrf))
  else if a_sw a =? SW_INS_NOT_SUP then fails (notsuperrf (Some swerrf))
  else fails swerrf.

Definition ykpiv_set_pin_retries (pintries puktries : Z) : M stop world unit :=
  yk_only ;!
  let! a := onerr ioerrf (piv_apdu_transceive_chain fuel
                            (piv_apdu_make CLA_ISO INS_SET_PIN_RETRIES pintries puktries)) in
  if a_sw a =? SW_NO_ERROR then must_reset
  else if a_sw a =? SW_SECURITY_STATUS_NOT_SATISFIED then fails (permerrf swerrf)
  else if a_sw a =? SW_INS_NOT_SUP then fails (notsuperrf (Some swerrf))
  else fails swerrf.

Definition YKPIV_TOUCH_DEFAULT : Z := 0.
Definition YKPIV_TOUCH_NEVER : Z := 1.
Definition YKPIV_TOUCH_ALWAYS : Z := 2.

Definition ykpiv_set_admin (key : list Z) (touchpolicy : Z) : M stop world unit :=
  yk_only ;!
  let! p2 := (if (touchpolicy =? YKPIV_TOUCH_DEFAULT) || (touchpolicy =? YKPIV_TOUCH_NEVER)
              then cret 255
              else if touchpolicy =? YKPIV_TOUCH_ALWAYS then cret 254
              else fails argerrf) in
  let databuf := [3; 155; u8 (zlen key)] ++ key in
  let! a := onerr ioerrf (piv_apdu_transceive_chain fuel
                            (with_cmd databuf (piv_apdu_make CLA_ISO INS_SET_MGMT 255 p2))) in
  if a_sw a =? SW_NO_ERROR then must_reset
  else if a_sw a =? SW_SECURITY_STATUS_NOT_SATISFIED then fails (permerrf swerrf)
  else if a_sw a =? SW_INS_NOT_SUP then fails (notsuperrf (Some swerrf))
  else fails swerrf.

Lemma pin_copy_ok buf off pin w : pin_len_ok pin = true ->
  pin_copy buf off pin w = (Ok (zsplice buf off pin), w).
Proof.
  unfold pin_len_ok, pin_copy, verify. intros H. rewrite (proj2 (Z.leb_le _ _)) by lia. done.
Qed.
End Pin.

(** ** The reference: PIN and PUK of a card *)

Record pin_state := Pin {
  p_pin : list Z;       (* 8 bytes, padded with 0xFF *)
  p_tries : Z;          (* attempts left *)
  p_max : Z;            (* attempts after a success *)
  p_ok : bool;          (* PIN verified since the last reset *)
  p_puk : list Z;
  p_puktries : Z;
  p_pukmax : Z
}.
Definition pin_state_ok (s : pin_state) : Prop :=
  0 <= p_tries s <= p_max s /\ p_max s <= 15 /\ 0 <= p_puktries s <= p_pukmax s /\ p_pukmax s <= 15.

Definition pin_fails (s : pin_state) : pin_state :=
  Pin (p_pin s) (p_tries s - 1) (p_max s) false (p_puk s) (p_puktries s) (p_pukmax s).
Definition pin_verified (new : list Z) (s : pin_state) : pin_state :=
  Pin new (p_max s) (p_max s) true (p_puk s) (p_puktries s) (p_pukmax s).

Definition SW_REF_NOT_FOUND : Z := 27272.   (* 0x6A88 *)

(** VERIFY, CHANGE REFERENCE DATA and RESET RETRY COUNTER for the application PIN. *)
Definition pin_exec (cla ins p1 p2 : Z) (data : list Z) (s : pin_state) : (list Z * Z) * pin_state :=
  if negb (p2 =? PIV_PIN) then (([], SW_REF_NOT_FOUND), s)
  else if ins =? INS_VERIFY then
    match data with
    | [] => (([], if p_ok s then SW_NO_ERROR else SW_INCORRECT_PIN + p_tries s), s)
    | _ =>
        if negb (zlen data =? 8) then (([], SW_WRONG_DATA), s)
        else if p_tries s =? 0 then (([], SW_FILE_INVALID), s)
        else if decide (data = p_pin s) then (([], SW_NO_ERROR), pin_verified (p_pin s) s)
        else (([], SW_INCORRECT_PIN + (p_tries s - 1)), pin_fails s)
    end
  else if ins =? INS_CHANGE_PIN then
    if negb (zlen data =? 16) then (([], SW_WRONG_DATA), s)
    else if p_tries s =? 0 then (([], SW_FILE_INVALID), s)
    else if decide (take 8 data = p_pin s) then (([], SW_NO_ERROR), pin_verified (drop 8 data) s)
    else (([], SW_INCORRECT_PIN + (p_tries s - 1)), pin_fails s)
  else if ins =? INS_RESET_PIN then
    if negb (zlen data =? 16) then (([], SW_WRONG_DATA), s)
    else if p_puktries s =? 0 then (([], SW_FILE_INVALID), s)
    else if decide (take 8 data = p_puk s)
    then (([], SW_NO_ERROR),
          Pin (drop 8 data) (p_max s) (p_max s) (p_ok s) (p_puk s) (p_pukmax s) (p_pukmax s))
    else (([], SW_INCORRECT_PIN + (p_puktries s - 1)),
          Pin (p_pin s) (p_tries s) (p_max s) (p_ok s) (p_puk s) (p_puktries s - 1) (p_pukmax s))
  else (([], SW_INS_NOT_SUP), s).

Definition pin_reset (s : pin_state) : pin_state :=
  Pin (p_pin s) (p_tries s) (p_max s) false (p_puk s) (p_puktries s) (p_pukmax s).

#[global] Instance pin_applet : Applet :=
  {| app := pin_state; app_exec := pin_exec; app_reset := pin_reset |}.

(** The PIN as it is sent. *)
Definition pin_pad (pin : list Z) : list Z := zsplice (zrepeat 8 255) 0 pin.

Lemma pad_len pin : pin_len_ok pin = true -> zlen (pin_pad pin) = 8 /\ pin_pad pin <> [].
Proof.
  unfold pin_len_ok. intros H. assert (zlen (pin_pad pin) = 8) as Hz.
  { unfold pin_pad. rewrite zlen_zsplice; rewrite ?zlen_zrepeat; lia. }
  split; [done|]. intros He. by rewrite He in Hz.
Qed.

Lemma two_pins_len old new : pin_len_ok old = true -> pin_len_ok new = true ->
  zlen (zsplice (zsplice (zrepeat 16 255) 0 old) 8 new) = 16
  /\ zsplice (zsplice (zrepeat 16 255) 0 old) 8 new <> [].
Proof.
  unfold pin_len_ok. intros Ho Hn.
  assert (zlen (zsplice (zrepeat 16 255) 0 old) = 16) as H0
    by (rewrite zlen_zsplice; rewrite ?zlen_zrepeat; lia).
  assert (zlen (zsplice (zsplice (zrepeat 16 255) 0 old) 8 new) = 16) as Hz by (rewrite zlen_zsplice; lia).
  split; [done|]. intros E. by rewrite E in Hz.
Qed.

(** What [piv_verify_pin] does to a card: its result, [*retries], the card's PIN state and
    whether the transaction is to end in a reset. *)
Definition set_retries (v : Z) (retries : option Z) : option Z :=
  match retries with Some _ => Some v | None => None end.
Definition try_spec (p : list Z) (retries : option Z) (s : pin_state)
    : (option errf_t * option Z) * pin_state * bool :=
  if negb (pin_len_ok p) then ((Some argerrf, retries), s, false)
  else if p_tries s =? 0 then ((Some (permerrf swerrf), set_retries 0 retries), s, false)
  else if decide (pin_pad p = p_pin s) then ((None, retries), pin_verified (p_pin s) s, true)
  else ((Some (permerrf swerrf), set_retries (p_tries s - 1) retries), pin_fails s, false).
Definition verify_spec (pin : option (list Z)) (retries : option Z) (canskip : bool) (s : pin_state)
    : (option errf_t * option Z) * pin_state * bool :=
  match pin with
  | None => ((None, if p_ok s then retries else set_retries (p_tries s) retries), s, false)
  | Some p =>
      if p_ok s && canskip then ((None, retries), s, false)
      else if negb (p_ok s) && (0 <? default 0 retries) && (p_tries s <=? default 0 retries)
      then ((Some MinRetriesError, Some (p_tries s)), s, false)
      else try_spec p retries s
  end.

(** What piv.h and the comment of the function say it does. The PIN is not tried when _fewer_ than [*retries] attempts are left. *)
Definition verify_doc (pin : option (list Z)) (retries : option Z) (canskip : bool) (s : pin_state)
    : (option errf_t * option Z) * pin_state * bool :=
  match pin with
  | None => ((None, if p_ok s then retries else set_retries (p_tries s) retries), s, false)
  | Some p =>
      if p_ok s && canskip then ((None, retries), s, false)
      else if (0 <? default 0 retries) && (p_tries s <? default 0 retries)
      then ((Some MinRetriesError, Some (p_tries s)), s, false)
      else try_spec p retries s
  end.

(** The calls on which the code and its documentation agree. Left out: form 1 on a locked card ([verify_pin_form1_locked]), a minimum
    of exactly the attempts left ([verify_pin_min_equal]), and a minimum above the attempts left on an unlocked card when the PIN must be
    sent anyway ([verify_pin_min_unlocked]). *)
Definition documented (pin : option (list Z)) (retries : option Z) (canskip : bool) (s : pin_state) : Prop :=
  match pin, retries with
  | None, None => p_ok s = true
  | Some _, Some r => 0 < r -> if p_ok s then canskip = true \/ r <= p_tries s else r <> p_tries s
  | _, _ => True
  end.

Lemma verify_documented pin retries canskip s : documented pin retries canskip s ->
  verify_doc pin retries canskip s = verify_spec pin retries canskip s.
Proof.
  destruct pin as [p|], retries as [r|]; cbn; try done; [|by rewrite !andb_false_r].
  intros H. destruct (Z.ltb_spec 0 r) as [Hr|Hr]; [|by rewrite !andb_false_r]. specialize (H Hr). destruct (p_ok s), canskip; cbn; try done.
  - destruct H as [H|H]; [done|]. by rewrite (proj2 (Z.ltb_ge _ _) H).
  - by replace (p_tries s <=? r) with (p_tries s <? r) by lia.
  - by replace (p_tries s <=? r) with (p_tries s <? r) by lia.
Qed.

(** The token and the card after an operation with that specification. *)
Definition spec_tok {X : Certs} (reset : bool) (t : piv_token) : piv_token :=
  if reset then set_txn (pt_intxn t) true t else t.

Section PinCard.
Context {X : Certs} (tr : transport) (Htr : transport_ok tr).
Context (fuel : nat) (Hfuel : (20 <= fuel)%nat).
Local Abbreviation W := (World (R := iso_reader (A := pin_applet) tr)).
Local Abbreviation Ic := (Iso (A := pin_applet)).

Lemma pin_sw n : 0 <= n <= 15 ->
  final_sw (SW_INCORRECT_PIN + n) /\ incorrect_pin (SW_INCORRECT_PIN + n) = true
  /\ tries_left (SW_INCORRECT_PIN + n) = n /\ (SW_INCORRECT_PIN + n =? SW_NO_ERROR) = false
  /\ (SW_INCORRECT_PIN + n =? SW_FILE_INVALID) = false.
Proof.
  intros Hn. assert (Z.to_nat n < 16)%nat as Hk by lia. rewrite <- (Z2Nat.id n) by lia.
  generalize dependent (Z.to_nat n). clear n Hn. intros k Hk. unfold final_sw.
  do 16 (destruct k as [|k]; [split_and!; vm_compute; congruence|]). lia.
Qed.

Lemma pin_exec_final cla ins p1 p2 data s reply sw s' :
  pin_state_ok s -> pin_exec cla ins p1 p2 data s = ((reply, sw), s') ->
  reply = [] /\ final_sw sw /\ pin_state_ok s'.
Proof.
  intros Hs. unfold pin_exec. intros He. assert (forall n, 0 <= n <= 15 -> final_sw (SW_INCORRECT_PIN + n))
    as Hf by (intros; by apply pin_sw). unfold pin_state_ok in *.
  repeat match type of He with
         | context [if ?b then _ else _] => destruct b eqn:?
         | context [match data with [] => _ | _ => _ end] => destruct data
         end; inversion He; subst; (split; [done|]); (split; [|cbn; lia]);
    (apply Hf; lia) || (unfold final_sw; split_and!; vm_compute; congruence).
Qed.

Lemma pin_command t s s' ins p2 data sw out0 sw0 :
  pt_intxn t = true -> pin_state_ok s -> is_byte ins -> ins <> INS_CONTINUE -> is_byte p2 ->
  (length data <= 16)%nat -> pin_exec CLA_ISO ins 0 p2 data s = (([], sw), s') ->
  exists a', piv_apdu_transceive_chain fuel (command ins 0 p2 data) (W t (Ic s [] out0 sw0))
             = (Ok a', W t (Ic s' [] [] sw)) /\ a_sw a' = sw.
Proof.
  intros Ht Hs Hi Hn Hp Hl He. destruct (pin_exec_final _ _ _ _ _ _ _ _ _ Hs He) as (_ & Hf & _).
  destruct (chain_exec (A := pin_applet) tr Htr t ins 0 p2 data s s' [] sw Ht Hf) with (fuel := fuel)
    (out0 := out0) (sw0 := sw0) as (a' & Hx & Ha & _); try done; try (unfold zlen; cbn; lia).
  by exists a'.
Qed.

(** The command that carries the PIN. *)
Lemma verify_try_exec t s p retries out0 sw0 :
  pt_intxn t = true -> pin_state_ok s ->
  let '(r, s', reset) := try_spec p retries s in
  exists out1 sw1, verify_try fuel PIV_PIN p retries (W t (Ic s [] out0 sw0))
                   = (Ok r, W (spec_tok reset t) (Ic s' [] out1 sw1)).
Proof.
  intros Ht Hs. unfold try_spec, verify_try.
  destruct (pin_len_ok p) eqn:Hp; cbn [negb]; [|by eexists _, _].
  destruct (pad_len p Hp) as [Hz Hne].
  rewrite (cbind_ok _ _ _ _ _ (pin_copy_ok _ _ _ _ Hp)). fold (pin_pad p). rewrite <- command_cons by done.
  assert (exists sw s', pin_exec CLA_ISO INS_VERIFY 0 PIV_PIN (pin_pad p) s = (([], sw), s')
    /\ ((p_tries s =? 0) = true /\ sw = SW_FILE_INVALID /\ s' = s
        \/ (p_tries s =? 0) = false /\ pin_pad p = p_pin s /\ sw = SW_NO_ERROR /\ s' = pin_verified (p_pin s) s
        \/ (p_tries s =? 0) = false /\ pin_pad p <> p_pin s /\ sw = SW_INCORRECT_PIN + (p_tries s - 1) /\ s' = pin_fails s))
    as (sw & s' & He & Hcase).
  { unfold pin_exec. cbn [negb Z.eqb]. change (PIV_PIN =? PIV_PIN) with true. cbn [negb].
    change (INS_VERIFY =? INS_VERIFY) with true. cbn iota.
    destruct (pin_pad p) as [|b l] eqn:Hpp; [done|]. rewrite Hz. change (8 =? 8) with true. cbn [negb].
    destruct (p_tries s =? 0); [by eauto 10|]. case_decide; eauto 12. }
  destruct (pin_command t s s' INS_VERIFY PIV_PIN (pin_pad p) sw out0 sw0) as (a' & Hx & Ha); try done.
  { unfold zlen in Hz. lia. }
  rewrite (cbind_ok _ _ _ _ _ (attempt_ok _ _ _ _ Hx)), Ha.
  destruct Hs as [Hs1 [Hs2 _]].
  destruct Hcase as [(-> & -> & ->)|[(-> & Hpe & -> & ->)|(Hnz & Hpe & -> & ->)]].
  - by eexists _, _.
  - rewrite decide_True by done. by eexists _, _.
  - rewrite Hnz, decide_False by done.
    destruct (pin_sw (p_tries s - 1) ltac:(lia)) as (_ & -> & -> & -> & ->). by eexists _, _.
Qed.

Lemma verify_pin_exec t s pin retries canskip out0 sw0 :
  pt_intxn t = true -> pin_state_ok s ->
  let '(r, s', reset) := verify_spec pin retries canskip s in
  exists out1 sw1, piv_verify_pin fuel PIV_PIN pin retries canskip (W t (Ic s [] out0 sw0))
                   = (Ok r, W (spec_tok reset t) (Ic s' [] out1 sw1)).
Proof.
  intros Ht Hs. unfold piv_verify_pin.
  rewrite (cbind_ok _ _ _ _ _ (in_txn_run (W t (Ic s [] out0 sw0)) Ht)).
  pose proof (fun p out sw => verify_try_exec t s p retries out sw Ht Hs) as Htry.
  destruct (wants_check pin retries canskip) eqn:Hw; cycle 1.
  - destruct pin as [p|]; [|done]. rewrite cbind_ret_l. cbn in Hw. unfold verify_spec.
    apply orb_false_iff in Hw as [-> Hw]. rewrite andb_false_r, Hw, andb_false_r. cbn [andb]. apply Htry.
  - set (sw := if p_ok s then SW_NO_ERROR else SW_INCORRECT_PIN + p_tries s).
    destruct (pin_command t s s INS_VERIFY PIV_PIN [] sw out0 sw0) as (a' & Hx & Ha); try done; [cbn; lia|].
    rewrite (cbind_ok _ _ _ _ _ (cbind_ok _ _ _ _ _ (attempt_ok _ _ _ _ Hx))), Ha. 
    unfold verify_spec, verify_check. subst sw. destruct Hs as [Hs1 [Hs2 _]].
    destruct (p_ok s); cbn [negb andb].
    + change (incorrect_pin SW_NO_ERROR) with false. cbn.
      destruct pin as [p|]; [|by eexists _, _]. destruct canskip; [by eexists _, _|]. apply Htry.
    + destruct (pin_sw (p_tries s) ltac:(lia)) as (_ & -> & -> & _).
      destruct pin as [p|]; [|by eexists _, _]. destruct (_ && _); [by eexists _, _|]. apply Htry.
Qed.

(** ** Transactions around PIN operations *)

Inductive pin_op :=
| OpVerify (pin : option (list Z)) (retries : option Z) (canskip : bool)
| OpChange (pin newpin : list Z)
| OpResetPin (puk newpin : list Z).

Definition run_pin_op (op : pin_op) : M stop (world (R := iso_reader (A := pin_applet) tr)) unit :=
  match op with
  | OpVerify pin retries canskip => piv_verify_pin fuel PIV_PIN pin retries canskip ;! cret tt
  | OpChange pin newpin => attempt (piv_change_pin fuel PIV_PIN pin newpin) ;! cret tt
  | OpResetPin puk newpin => attempt (piv_reset_pin fuel PIV_PIN puk newpin) ;! cret tt
  end.
Fixpoint run_pin_ops (ops : list pin_op) : M stop world unit :=
  match ops with [] => cret tt | op :: ops' => run_pin_op op ;! run_pin_ops ops' end.

(** A caller that opens a transaction, does what it likes with the PIN, whatever comes of
    it, and closes the transaction. *)
Definition pin_txn (ops : list pin_op) : M stop world unit :=
  piv_txn_begin fuel ;! run_pin_ops ops ;! piv_txn_end.

(** Inside a transaction: a card that is unlocked will be reset at its end. *)
Definition pin_inv (w : world (R := iso_reader (A := pin_applet) tr)) : Prop :=
  exists t s out sw, w = W t (Ic s [] out sw) /\ pt_intxn t = true /\ pin_state_ok s
    /\ (p_ok s = true -> pt_reset t = true).

Lemma spec_keeps pin retries canskip s r s' reset :
  pin_state_ok s -> verify_spec pin retries canskip s = (r, s', reset) ->
  pin_state_ok s' /\ (p_ok s' = true -> reset = true \/ p_ok s = true).
Proof.
  unfold pin_state_ok, verify_spec, try_spec. intros Hs He.
  repeat match type of He with
         | context [if ?b then _ else _] => destruct b eqn:?
         | context [match pin with Some _ => _ | None => _ end] => destruct pin
         end; simplify_eq/=; (split; [lia|]); intros; first [by auto|congruence].
Qed.

Lemma two_pins_exec t s ins old new out0 sw0 :
  pt_intxn t = true -> pin_state_ok s -> ins = INS_CHANGE_PIN \/ ins = INS_RESET_PIN ->
  wp (two_pins fuel ins PIV_PIN old new) (W t (Ic s [] out0 sw0))
    (fun a w => exists s' data sw, zlen data = 16 /\ pin_exec CLA_ISO ins 0 PIV_PIN data s = (([], sw), s')
        /\ a_sw a = sw /\ w = W t (Ic s' [] [] sw))
    (fun e w => e <> Exhausted /\ w = W t (Ic s [] out0 sw0)).
Proof.
  intros Ht Hs Hi. unfold two_pins. wp_step. apply wp_in_txn; [done|].
  wp_step. apply wp_guard; [intros Ho|done]. wp_step. apply wp_guard; [intros Hn|done].
  wp_step. eapply wp_runs; [by apply pin_copy_ok|]. wp_step. eapply wp_runs; [by apply pin_copy_ok|].
  destruct (two_pins_len old new Ho Hn) as [Hz Hne]. set (data := zsplice _ 8 new) in *.
  destruct (pin_exec CLA_ISO ins 0 PIV_PIN data s) as [[reply sw] s'] eqn:He.
  destruct (pin_exec_final _ _ _ _ _ _ _ _ _ Hs He) as (-> & _ & _).
  destruct (pin_command t s s' ins PIV_PIN data sw out0 sw0) as (a' & Hx & Ha); try done;
    try (destruct Hi as [->| ->]; done).
  { unfold zlen in Hz. lia. }
  rewrite <- command_cons by done.
  eapply wp_runs; [by apply onerr_ok|]. by exists s', data, sw.
Qed.

(** How the card's state answers to a PIN change. *)
Lemma pin_exec_keeps ins data s sw s' :
  ins = INS_CHANGE_PIN \/ ins = INS_RESET_PIN -> pin_exec CLA_ISO ins 0 PIV_PIN data s = (([], sw), s') ->
  p_ok s' = true -> sw = SW_NO_ERROR \/ p_ok s = true.
Proof.
  unfold pin_exec. intros Hi He.
  repeat match type of He with
         | context [if ?b then _ else _] => destruct b eqn:?
         | context [match data with [] => _ | _ => _ end] => destruct data
         end; simplify_eq/=; intros; first [by auto|congruence].
Qed.

Lemma change_keeps ins old new (k : Z -> M stop world unit) w :
  pin_inv w -> ins = INS_CHANGE_PIN \/ ins = INS_RESET_PIN ->
  (forall sw w', wp (k sw) w' (fun _ w'' => w'' = World (set_txn (pt_intxn (w_tok w')) true (w_tok w')) (w_card w'))
                   (fun e w'' => e <> Exhausted /\ w'' = w' /\ sw <> SW_NO_ERROR)) ->
  wp (attempt (let! a := two_pins fuel ins PIV_PIN old new in k (a_sw a))) w (fun _ => pin_inv) (fun _ _ => False).
Proof.
  intros (t & s & out & sw0 & -> & Ht & Hs & Hr) Hi Hk.
  pose proof (two_pins_exec t s ins old new out sw0 Ht Hs Hi) as Htp.
  unfold wp, attempt, cbind in *. destruct (two_pins _ _ _ _ _ _) as [[a|e| |] w1]; try done.
  - destruct Htp as (s' & data & sw & Hz & He & Ha & ->). rewrite Ha.
    destruct (pin_exec_final _ _ _ _ _ _ _ _ _ Hs He) as (_ & _ & Hs').
    pose proof (pin_exec_keeps _ _ _ _ _ Hi He) as Hkeep.
    specialize (Hk sw (W t (Ic s' [] [] sw))). unfold wp in Hk.
    destruct (k sw _) as [[[]|e| |] w2]; try done.
    + subst w2. eexists _, s', _, _. split; [reflexivity|]. done.
    + destruct Hk as (He' & -> & Hsw). destruct e; [|done]. eexists t, s', _, _. split; [reflexivity|].
      split_and!; try done. intros [?|?]%Hkeep; [done|auto].
  - destruct Htp as [He' ->]. destruct e; [|done]. by eexists t, s, out, sw0.
Qed.

Definition change_result (sw : Z) : M stop (world (R := iso_reader (A := pin_applet) tr)) unit :=
  if sw =? SW_NO_ERROR then must_reset
  else if incorrect_pin sw then fails (permerrf swerrf) else fails swerrf.
Definition reset_result (sw : Z) : M stop (world (R := iso_reader (A := pin_applet) tr)) unit :=
  if sw =? SW_NO_ERROR then must_reset
  else if incorrect_pin sw then fails (permerrf swerrf)
  else if sw =? SW_FILE_INVALID then fails (permerrf swerrf) else fails swerrf.

Lemma pin_op_keeps op w : pin_inv w -> wp (run_pin_op op) w (fun _ => pin_inv) (fun _ _ => False).
Proof.
  intros Hw. destruct op as [pin retries canskip|pin newpin|puk newpin]; cbn [run_pin_op]; wp_step.
  - destruct Hw as (t & s & out & sw & -> & Ht & Hs & Hr).
    pose proof (verify_pin_exec t s pin retries canskip out sw Ht Hs) as Hv.
    destruct (verify_spec pin retries canskip s) as [[r s'] reset] eqn:He.
    destruct (spec_keeps _ _ _ _ _ _ _ Hs He) as [Hs' Hk]. destruct Hv as (out1 & sw1 & Hv).
    eapply wp_runs; [exact Hv|]. apply wp_ret. exists (spec_tok reset t), s', out1, sw1.
    split; [done|]. destruct reset; cbn; [done|]. split_and!; try done. intros [?|?]%Hk; [done|auto].
  - apply (change_keeps INS_CHANGE_PIN pin newpin change_result) in Hw; [|by left|].
    + eapply wp_mono; [exact Hw|intros; by apply wp_ret|done].
    + intros sw w'. unfold change_result. destruct (Z.eqb_spec sw SW_NO_ERROR); [done|]. by destruct (incorrect_pin sw).
  - apply (change_keeps INS_RESET_PIN puk newpin reset_result) in Hw; [|by right|].
    + eapply wp_mono; [exact Hw|intros; by apply wp_ret|done].
    + intros sw w'. unfold reset_result. destruct (Z.eqb_spec sw SW_NO_ERROR); [done|].
      destruct (incorrect_pin sw); [done|]. by case_match.
Qed.

Lemma pin_ops_keep ops : forall w, pin_inv w -> wp (run_pin_ops ops) w (fun _ => pin_inv) (fun _ _ => False).
Proof.
  induction ops as [|op ops IH]; intros w Hw; cbn [run_pin_ops]; [by apply wp_ret|].
  wp_step. eapply wp_mono; [by apply pin_op_keeps|intros; by apply IH|done].
Qed.

Lemma pin_txn_closes ops t s out sw :
  pt_intxn t = false -> p_ok s = false -> pin_state_ok s ->
  wp (pin_txn ops) (W t (Ic s [] out sw))
    (fun _ w => pt_intxn (w_tok w) = false /\ pt_reset (w_tok w) = false
                /\ p_ok (ic_app (w_card w)) = false /\ pin_state_ok (ic_app (w_card w)))
    (fun _ _ => False).
Proof.
  intros Ht Hs Hok. unfold pin_txn. wp_step.
  eapply (wp_runs _ _ _ _ tt (W (set_txn true (pt_reset t) t) (Ic s [] out sw))).
  { unfold piv_txn_begin. rewrite (cbind_ok cget _ _ _ _ eq_refl). cbn beta. cbn [w_tok]. rewrite Ht.
    destruct fuel; [lia|]. done. }
  wp_step. eapply wp_mono; [apply pin_ops_keep| |done].
  - eexists _, s, out, sw. split; [reflexivity|]. split_and!; try done. by rewrite Hs.
  - intros [] w (t1 & s1 & out1 & sw1 & -> & Ht1 & Hs1 & Hr). unfold piv_txn_end.
    wp_step. apply wp_in_txn; [done|]. wp_steps. unfold wp, end_txn. cbn [w_card SCardEndTransaction iso_reader w_tok].
    unfold iso_end. wp_steps. cbn [w_tok w_card set_txn pt_intxn pt_reset].
    destruct (pt_reset t1) eqn:Hr1; cbn.
    + split_and!; try done; apply Hs1.
    + split_and!; try done; try apply Hs1. destruct (p_ok s1); [|done]. by specialize (Hr eq_refl).
Qed.
End PinCard.

(** The world of a PIN card behind a transport. *)
Abbreviation PinWorld tr := (World (R := iso_reader (A := pin_applet) tr)).

(** C8: on a card that keeps its PIN as SP 800-73-4 describes, [piv_verify_pin] does what its documentation says, [verify_doc], in every
    call on which the two agree ([documented]; the three kinds of call on which they differ have a lemma each, and a finding). Without a PIN it only reports the
    attempts left; it skips the PIN when the card is unlocked and the caller allows it; it sends no PIN when fewer than a positive [*retries]
    attempts are left, and reports how many there are; otherwise it sends the padded PIN, which costs an attempt
    when it is wrong, and marks the token for a reset when it is right. *)
Theorem piv_verify_pin_refines {X : Certs} (tr : transport) fuel (t : piv_token) (s : pin_state)
    (pin : option (list Z)) (retries : option Z) (canskip : bool) (out0 : list Z) (sw0 : Z) :
  transport_ok tr -> (20 <= fuel)%nat -> pt_intxn t = true -> pin_state_ok s -> documented pin retries canskip s ->
  let '(r, s', reset) := verify_doc pin retries canskip s in
  exists out1 sw1,
    piv_verify_pin (R := iso_reader (A := pin_applet) tr) fuel PIV_PIN pin retries canskip (PinWorld tr t (Iso (A := pin_applet) s [] out0 sw0))
    = (Ok r, PinWorld tr (spec_tok reset t) (Iso (A := pin_applet) s' [] out1 sw1)).
Proof. intros Htr Hf Ht Hs Hd. rewrite (verify_documented _ _ _ _ Hd). exact (verify_pin_exec tr Htr fuel Hf t s pin retries canskip out0 sw0 Ht Hs). Qed.

(** The PIN 123456 with three of five attempts left. *)
Definition sample_pin : pin_state := Pin (pin_pad [49; 50; 51; 52; 53; 54]) 3 5 false (pin_pad [48; 48]) 3 3.

Lemma piv_verify_pin_refines_witness :
  exists out1 sw1,
    piv_verify_pin (X := no_certs) (R := iso_reader (A := pin_applet) (Transport 256 false)) 20 PIV_PIN
      (Some [49; 49]) (Some 2) false (PinWorld (Transport 256 false) (set_txn true false piv_token_calloc) (Iso (A := pin_applet) sample_pin [] [] 0))
    = (Ok (Some (permerrf swerrf), Some 2),
       PinWorld (Transport 256 false) (set_txn true false piv_token_calloc) (Iso (A := pin_applet) (pin_fails sample_pin) [] out1 sw1)).
Proof.
  refine (piv_verify_pin_refines (X := no_certs) (Transport 256 false) 20
            (set_txn true false piv_token_calloc) sample_pin (Some [49; 49]) (Some 2) false [] 0 _ _ _ _ _).
  - unfold transport_ok. cbn. lia.
  - lia.
  - reflexivity.
  - unfold pin_state_ok. cbn. lia.
  - unfold documented. cbn. lia.
Defined.

(** C9: whatever a caller does with PINs inside a transaction (verify, change or unblock, with right
    or wrong PINs, ignoring errors), no operation aborts and after [piv_txn_end] the
    card is locked again: a PIN that was accepted marks the token, and the
    transaction ends in a card reset. *)
Theorem pin_txn_leaves_locked {X : Certs} (tr : transport) fuel (ops : list pin_op) (t : piv_token)
    (s : pin_state) (out : list Z) (sw : Z) :
  transport_ok tr -> (20 <= fuel)%nat -> pt_intxn t = false -> p_ok s = false -> pin_state_ok s ->
  wp (pin_txn tr fuel ops) (PinWorld tr t (Iso (A := pin_applet) s [] out sw))
    (fun _ w => pt_intxn (w_tok w) = false /\ pt_reset (w_tok w) = false
                /\ p_ok (ic_app (w_card w)) = false /\ pin_state_ok (ic_app (w_card w)))
    (fun _ _ => False).
Proof. intros Htr Hf. exact (pin_txn_closes tr Htr fuel Hf ops t s out sw). Qed.

Lemma pin_txn_leaves_locked_witness :
  let ops := [OpVerify (Some [49; 49]) None false; OpVerify (Some [49; 50; 51; 52; 53; 54]) (Some 1) false;
              OpChange [49; 50; 51; 52; 53; 54] [57; 57; 57; 57]] in
  wp (pin_txn (X := no_certs) (Transport 64 true) 20 ops)
    (PinWorld (Transport 64 true) piv_token_calloc (Iso (A := pin_applet) sample_pin [] [] 0))
    (fun _ w => pt_intxn (w_tok w) = false /\ pt_reset (w_tok w) = false
                /\ p_ok (ic_app (w_card w)) = false /\ pin_state_ok (ic_app (w_card w)))
    (fun _ _ => False).
Proof.
  apply (@pin_txn_leaves_locked no_certs (Transport 64 true) 20).
  - unfold transport_ok. cbn. lia.
  - lia.
  - reflexivity.
  - reflexivity.
  - unfold pin_state_ok. cbn. lia.
Defined.

(** Form 1 of [piv_verify_pin] ([pin] and [retries] both [NULL]) also succeeds on a card that is
    not unlocked. *)
Lemma verify_pin_form1_locked (s : pin_state) :
  p_ok s = false -> verify_spec None None false s = ((None, None), s, false).
Proof. intros H. unfold verify_spec. by rewrite H. Qed.

(** A minimum of [n] attempts also refuses when exactly [n] are left. *)
Lemma verify_pin_min_equal (s : pin_state) pin canskip :
  p_ok s = false -> 0 < p_tries s ->
  verify_spec (Some pin) (Some (p_tries s)) canskip s = ((Some MinRetriesError, Some (p_tries s)), s, false).
Proof.
  intros H Ht. unfold verify_spec. rewrite H. cbn. replace (_ && _) with true by lia. done.
Qed.

(** Where the PIN must be sent although the card is unlocked, the minimum is not looked at. *)
Lemma verify_pin_min_unlocked (s : pin_state) pin r :
  p_ok s = true -> p_tries s < r -> verify_spec (Some pin) (Some r) false s = try_spec pin (Some r) s.
Proof. intros H Hr. unfold verify_spec. by rewrite H. Qed.
