(* ===== verification/PivFiles.v ===== *)
(** * Data objects of a PIV card (piv.c)

    Reading and writing the files of a card, and the objects the library reads to
    identify one: the answer to SELECT, the CHUID, the discovery object, the key history,
    the YubicoPIV version and serial number. A parser works on the TLV reader and the token
    together, since it stores the fields as it meets them. *)
From stdpp Require Import base list strings.
From Stdlib Require Import ZArith Lia.
From S2P Require Import Prelude Errf Tlv PivBox PivToken Apdu.

Local Open Scope string_scope.
Local Open Scope list_scope.
Local Open Scope Z_scope.
Local Open Scope c_scope.

Definition AID_PIV : list Z := [160; 0; 0; 3; 8; 0; 0; 16; 0; 1; 0].

(** Tags of the answer to SELECT. *)
Definition PIV_TAG_APT : Z := 97.
Definition PIV_TAG_AID : Z := 79.
Definition PIV_TAG_AUTHORITY : Z := 121.
Definition PIV_TAG_APP_LABEL : Z := 80.
Definition PIV_TAG_URI : Z := 24400.
Definition PIV_TAG_ALGS : Z := 172.
Definition GA_TAG_CHALLENGE : Z := 129.
Definition GA_TAG_RESPONSE : Z := 130.

Definition SSH_DIGEST_SHA256 : Z := 3.

(** [SW_NO_ERROR] or a warning: the answer has data. *)
Definition sw_has_data (sw : Z) : bool :=
  (sw =? SW_NO_ERROR) || (sw_class sw =? SW_WARNING_NO_CHANGE_00) || (sw_class sw =? SW_WARNING_00).

Section Files.
Context {X : Certs} {R : Reader}.
Context (fuel : nat).
Local Abbreviation P := (M stop world).

(** ** Parsers *)

Definition pstate : Type := tlv_state * piv_token.
Local Abbreviation Q := (M errf_t pstate).

(** A TLV operation, and an assignment to a field of the token. *)
Definition tl {A} (m : T A) : Q A :=
  fun s => let '(r, ts) := m (fst s) in (r, (ts, snd s)).
Definition tk (f : piv_token -> piv_token) : Q unit := cmodify (fun s => (fst s, f (snd s))).

(** [while (!tlv_at_end(tlv)) { tlv_read_tag(tlv, &tag); body }]. Every iteration
    consumes a byte, so the length of the buffer bounds them. *)
Fixpoint each_tag (n : nat) (body : Z -> Q unit) : Q unit :=
  let! ts := cgets fst in
  if tlv_at_end ts then cret tt
  else match n with
       | O => cfault
       | S n' => let! tag := tl tlv_read_tag in body tag ;! each_tag n' body
       end.
Definition tags (body : Z -> Q unit) : Q unit :=
  let! ts := cgets fst in each_tag (length (ts_buf ts)) body.

(** A template: the outer tag, its members and its end. *)
Definition template (outer : Z) (body : Z -> Q unit) : Q unit :=
  let! tag := tl tlv_read_tag in
  guard (tag =? outer) tagerrf ;!
  tags body ;!
  tl tlv_end.

(** Build the data of a command in a fresh [tlv_init_write]. *)
Definition tlv_build (m : T unit) : P (list Z) :=
  fun w => match m tlv_init_write with
           | (Ok _, ts) => (Ok (tlv_written ts), w)
           | (Er e, _) => (Er (Err e), w)
           | (Panic, _) => (Panic, w)
           | (Fault, _) => (Fault, w)
           end.

(** [tlv_init] on the reply, the parser, and on the way out either [tlv_free] or
    [invdata:] with [tlv_abort] and [tlv_free]. *)
Definition parse_reply {A} (a : apdu) (m : Q A) : P A :=
  fun w =>
    match b_data (a_reply a) with
    | None => (Fault, w)
    | Some d =>
        let '(r, (ts, t)) := m (tlv_init d (b_offset (a_reply a)) (b_len (a_reply a)), w_tok w) in
        let w := World t (w_card w) in
        match r with
        | Ok v => match tlv_free ts with
                  | (Ok _, _) => (Ok v, w) | (Er _, _) => (Fault, w)
                  | (Panic, _) => (Panic, w) | (Fault, _) => (Fault, w)
                  end
        | Er e => match (tlv_abort ;! tlv_free) ts with
                  | (Ok _, _) => (Er (Err (invderrf e)), w) | (Er _, _) => (Fault, w)
                  | (Panic, _) => (Panic, w) | (Fault, _) => (Fault, w)
                  end
        | Panic => (Panic, w)
        | Fault => (Fault, w)
        end
    end.

(** ** Files *)

(** [tlv_push(tlv, 0x5C); tlv_write_u8to32(tlv, tag); tlv_pop(tlv);] *)
Definition tag_list (tag : Z) : T unit := tlv_push 92 ;! tlv_write_u8to32 tag ;! tlv_pop.

(** INS_GET_DATA for a tag, as every reader of an object sends it. *)
Definition get_data (tag : Z) : P apdu :=
  in_txn ;!
  let! data := tlv_build (tag_list tag) in
  onerr ioerrf (piv_apdu_transceive_chain fuel
                  (with_cmd data (piv_apdu_make CLA_ISO INS_GET_DATA 63 255))).

Definition piv_write_file (tag : Z) (data : list Z) : P unit :=
  in_txn ;!
  let! cmd := tlv_build (tag_list tag ;!
                         tlv_pushl 83 (usize (zlen data + 8)) ;! tlv_write data ;! tlv_pop) in
  let! a := onerr ioerrf (piv_apdu_transceive_chain fuel
                            (with_cmd cmd (piv_apdu_make CLA_ISO INS_PUT_DATA 63 255))) in
  if a_sw a =? SW_NO_ERROR then cret tt
  else if a_sw a =? SW_OUT_OF_MEMORY then fails (errf "DeviceOutOfMemoryError" (Some swerrf))
  else if a_sw a =? SW_SECURITY_STATUS_NOT_SATISFIED then fails (permerrf swerrf)
  else if a_sw a =? SW_FUNC_NOT_SUPPORTED then fails (notsuperrf (Some swerrf))
  else fails swerrf.

Definition empty_reply : errf_t := errf "APDUError" None.

Definition piv_read_file (tag : Z) : P (list Z) :=
  let! a := get_data tag in
  if sw_has_data (a_sw a) then
    if b_len (a_reply a) <? 1 then fails (invderrf empty_reply)
    else parse_reply a
           (let! rtag := tl tlv_read_tag in
            guard (rtag =? 83) tagerrf ;!
            let! data := tl tlv_read_alloc in
            tl tlv_end ;!
            cret data)
  else if a_sw a =? SW_FILE_NOT_FOUND then fails (notfounderrf swerrf)
  else if a_sw a =? SW_SECURITY_STATUS_NOT_SATISFIED then fails (permerrf swerrf)
  else fails swerrf.

(** ** SELECT *)

(** [idx = tk->pt_alg_count++; ...; tk->pt_algs[idx] = uval;] with an array of 32. *)
Definition store_alg : Q unit :=
  let! t := cgets snd in
  let idx := pt_alg_count t in
  tk (fun t => set_algs (pt_algs t) (pt_alg_count t + 1) t) ;!
  let! uval := tl tlv_read_u8to32 in
  if idx <? 32 then tk (fun t => set_algs (zsplice (pt_algs t) idx [uval]) (pt_alg_count t) t)
  else cfault.

Definition alg_member (tag : Z) : Q unit :=
  if tag =? 128 then store_alg ;! tl tlv_end
  else if tag =? 6 then tl tlv_skip
  else craise tagerrf.

Definition select_member (tag : Z) : Q unit :=
  if (tag =? PIV_TAG_AID) || (tag =? PIV_TAG_AUTHORITY) || (tag =? PIV_TAG_APP_LABEL)
     || (tag =? PIV_TAG_URI) then tl tlv_skip
  else if tag =? PIV_TAG_ALGS then
    let! t := cgets snd in
    if 0 <? pt_alg_count t then tl tlv_skip
    else tags alg_member ;! tl tlv_end
  else craise tagerrf.

Definition piv_select : P unit :=
  in_txn ;!
  let! a := onerr ioerrf (piv_apdu_transceive_chain fuel
                            (with_cmd AID_PIV (piv_apdu_make CLA_ISO INS_SELECT SEL_APP_AID 0))) in
  if (a_sw a =? SW_NO_ERROR) || (a_sw a =? SW_WARNING_EOF)
  then parse_reply a (template PIV_TAG_APT select_member)
  else fails (notfounderrf swerrf).

(** ** YubicoPIV version and serial number *)

Definition ykpiv_get_version : P unit :=
  in_txn ;!
  let! a := onerr ioerrf (piv_apdu_transceive_chain fuel (piv_apdu_make CLA_ISO INS_GET_VER 0 0)) in
  if a_sw a =? SW_NO_ERROR then
    if b_len (a_reply a) <? 3 then fails (notsuperrf None)
    else
      let! reply := piv_apdu_get_reply a in
      upd_tok (fun t => set_yk (Yk true (take 3 reply) (pt_ykserial_valid (pt_yk t)) (pt_ykserial (pt_yk t))) t)
  else fails (notsuperrf (Some swerrf)).

Definition ykpiv_read_serial : P unit :=
  in_txn ;!
  let! a := onerr ioerrf (piv_apdu_transceive_chain fuel (piv_apdu_make CLA_ISO INS_GET_SERIAL 0 0)) in
  if a_sw a =? SW_NO_ERROR then
    if b_len (a_reply a) <? 4 then fails (notsuperrf None)
    else
      let! reply := piv_apdu_get_reply a in
      match reply with
      | r0 :: r1 :: r2 :: r3 :: _ =>
          let serial := u32 (Z.lor (Z.lor (Z.lor r3 (Z.shiftl r2 8)) (Z.shiftl r1 16)) (Z.shiftl r0 24)) in
          upd_tok (fun t => set_yk (Yk (pt_ykpiv (pt_yk t)) (pt_ykver (pt_yk t)) true serial) t)
      | _ => cfault
      end
  else fails (notsuperrf (Some swerrf)).

(** ** Discovery object *)

(** [bcmp(AID_PIV, tlv_ptr(tlv), tlv_rem(tlv))]. *)
Definition aid_matches : Q bool :=
  fun s => let ts := fst s in
    let n := tlv_rem ts in
    if (0 <=? ts_pos ts) && (ts_pos ts + n <=? zlen (ts_buf ts))
    then (Ok (bool_decide (zslice (ts_buf ts) (ts_pos ts) n = take (Z.to_nat n) AID_PIV)), s)
    else (Fault, s).

(** The PIN and OCC policy. *)
Definition discov_policy (policy : Z) (t : piv_token) : piv_token :=
  let i := pt_authinfo t in
  let bit b := negb (Z.land policy b =? 0) in
  let app := bit 16384 || pt_pin_app i in
  let global := bit 8192 || pt_pin_global i in
  let occ := bit 4096 || pt_occ i in
  let vci := bit 2048 || pt_vci i in
  let auth := if app then PIV_PIN else if global then PIV_GLOBAL_PIN else if occ then PIV_OCC else pt_auth i in
  let auth := if Z.land policy 255 =? 16 then PIV_PIN else auth in
  let auth := if (Z.land policy 255 =? 32) && global then PIV_GLOBAL_PIN else auth in
  set_auth (Auth auth global app occ vci) t.

Definition discov_member (tag : Z) : Q unit :=
  if tag =? 79 then
    let! ts := cgets fst in
    if zlen AID_PIV <? tlv_rem ts then craise (invderrf (errf "PIVDataError" None))
    else
      let! same := aid_matches in
      guard same (invderrf (errf "PIVDataError" None)) ;! tl tlv_skip
  else if tag =? 24367 then
    let! policy := tl tlv_read_u8to32 in
    tk (discov_policy policy) ;! tl tlv_end
  else craise tagerrf.

Definition piv_read_discov : P unit :=
  let! a := get_data PIV_TAG_DISCOV in
  if sw_has_data (a_sw a) then parse_reply a (template 126 discov_member)
  else if (a_sw a =? SW_FILE_NOT_FOUND) || (a_sw a =? SW_WRONG_DATA) then fails (notfounderrf swerrf)
  else if a_sw a =? SW_FUNC_NOT_SUPPORTED then fails (notsuperrf (Some swerrf))
  else fails swerrf.

(** ** Key history *)

Definition hist_member (tag : Z) : Q unit :=
  if tag =? 193 then
    let! uval := tl tlv_read_u8to32 in
    tk (fun t => set_hist (Hist (u8 uval) (pt_hist_offcard (pt_hist t)) (pt_hist_url (pt_hist t))) t) ;!
    tl tlv_end
  else if tag =? 194 then
    let! uval := tl tlv_read_u8to32 in
    tk (fun t => set_hist (Hist (pt_hist_oncard (pt_hist t)) (u8 uval) (pt_hist_url (pt_hist t))) t) ;!
    tl tlv_end
  else if tag =? 243 then
    let! url := tl tlv_read_string in
    tk (fun t => set_hist (Hist (pt_hist_oncard (pt_hist t)) (pt_hist_offcard (pt_hist t)) (Some url)) t) ;!
    tl tlv_end
  else if tag =? 254 then tl tlv_skip
  else craise tagerrf.

Definition piv_read_keyhist : P unit :=
  let! a := get_data PIV_TAG_KEYHIST in
  if sw_has_data (a_sw a) then
    if b_len (a_reply a) <? 1 then fails (invderrf empty_reply)
    else parse_reply a (template 83 hist_member)
  else if (a_sw a =? SW_FILE_NOT_FOUND) || (a_sw a =? SW_WRONG_DATA) then fails (notfounderrf swerrf)
  else if a_sw a =? SW_FUNC_NOT_SUPPORTED then fails (notsuperrf (Some swerrf))
  else fails swerrf.

(** [offcard_url] is [None] for [NULL]; [strdup(NULL)] is a null dereference. *)
Definition piv_write_keyhistory (oncard offcard : Z) (url : option (list Z)) : P unit :=
  in_txn ;!
  guard (negb ((20 <? oncard) || (20 <? offcard) || (20 <? u32 (oncard + offcard)))) (Err argerrf) ;!
  guard (negb ((0 <? offcard) && match url with None => true | Some _ => false end)) (Err argerrf) ;!
  let! data := tlv_build (
    tlv_push 193 ;! tlv_write_u8to32 oncard ;! tlv_pop ;!
    tlv_push 194 ;! tlv_write_u8to32 offcard ;! tlv_pop ;!
    match url with
    | Some u => tlv_push 243 ;! tlv_write u ;! tlv_pop
    | None => cret tt
    end) in
  piv_write_file PIV_TAG_KEYHIST data ;!
  match url with
  | Some u => upd_tok (set_hist (Hist (u8 oncard) (u8 offcard) (Some u)))
  | None => cfault
  end.

(** ** CHUID *)

Context {C : Crypto}.

Definition chuid_of (f : chuid_info -> chuid_info) : Q unit := tk (fun t => set_chuid (f (pt_chuid t)) t).

Definition chuid_member (tag : Z) : Q unit :=
  if tag =? 48 then
    let! bs := tl (tlv_read_upto 26) in
    chuid_of (fun c => Chuid (pt_guid c) (pt_nochuid c) (pt_signedchuid c) (zsplice (pt_fascn c) 0 bs) (zlen bs)
                         (pt_expiry c) (pt_haschuuid c) (pt_chuuid c)) ;!
    tl tlv_end
  else if (tag =? 50) || (tag =? 238) || (tag =? 254) || (tag =? 51) then tl tlv_skip
  else if tag =? 53 then
    let! bs := tl (tlv_read 8) in
    chuid_of (fun c => Chuid (pt_guid c) (pt_nochuid c) (pt_signedchuid c) (pt_fascn c) (pt_fascn_len c)
                         bs (pt_haschuuid c) (pt_chuuid c)) ;!
    tl tlv_end
  else if tag =? 54 then
    chuid_of (fun c => Chuid (pt_guid c) (pt_nochuid c) (pt_signedchuid c) (pt_fascn c) (pt_fascn_len c)
                         (pt_expiry c) true (pt_chuuid c)) ;!
    let! bs := tl (tlv_read GUID_LEN) in
    chuid_of (fun c => Chuid (pt_guid c) (pt_nochuid c) (pt_signedchuid c) (pt_fascn c) (pt_fascn_len c)
                         (pt_expiry c) (pt_haschuuid c) bs) ;!
    tl tlv_end
  else if tag =? 62 then
    let! ts := cgets fst in
    (if 0 <? tlv_rem ts then
       chuid_of (fun c => Chuid (pt_guid c) (pt_nochuid c) true (pt_fascn c) (pt_fascn_len c)
                            (pt_expiry c) (pt_haschuuid c) (pt_chuuid c))
     else cret tt) ;!
    tl tlv_skip
  else if tag =? 52 then
    let! bs := tl (tlv_read GUID_LEN) in
    chuid_of (fun c => Chuid bs (pt_nochuid c) (pt_signedchuid c) (pt_fascn c) (pt_fascn_len c)
                         (pt_expiry c) (pt_haschuuid c) (pt_chuuid c)) ;!
    tl tlv_end
  else craise tagerrf.

Definition all_zero (bs : list Z) : bool := forallb (fun b => b =? 0) bs.

(** A card without a GUID is known by its card holder's UUID, or by a digest of its FASC-N. *)
Definition chuid_guid (c : chuid_info) : list Z :=
  if all_zero (pt_guid c) then
    if all_zero (pt_chuuid c) && (0 <? pt_fascn_len c)
    then take 16 (digest SSH_DIGEST_SHA256 (take (Z.to_nat (pt_fascn_len c)) (pt_fascn c)))
    else pt_chuuid c
  else pt_guid c.

Definition piv_read_chuid : P unit :=
  let! a := get_data PIV_TAG_CHUID in
  if sw_has_data (a_sw a) then
    parse_reply a
      (template 83 chuid_member ;!
       chuid_of (fun c => Chuid (chuid_guid c) (pt_nochuid c) (pt_signedchuid c) (pt_fascn c) (pt_fascn_len c)
                            (pt_expiry c) (pt_haschuuid c) (pt_chuuid c)))
  else if a_sw a =? SW_FILE_NOT_FOUND then fails (notfounderrf swerrf)
  else fails swerrf.
End Files.
