(* ===== verification/PivParse.v ===== *)
(** * Parsing what a card answers never goes wrong

    Whatever a card replies, the functions of PivFiles.v that read it return or fail
    with an error: no [VERIFY] fails, no byte outside the reply is read, every parsing loop
    ends, and the transaction state of the token is untouched. The exception is the
    algorithm list of [piv_select], whose array has room for 32 entries: [overflows_or] compares it with a version that looks at the bound. *)
From stdpp Require Import base list strings.
From Stdlib Require Import ZArith Lia.
From S2P Require Import Prelude Errf Tlv PivBox PivToken Apdu ApduChain PivPin PivFiles.

Local Open Scope list_scope.
Local Open Scope Z_scope.
Local Open Scope c_scope.

(** ** A reader never moves back *)

Definition fwd {A} (m : T A) : Prop := forall ts v ts', m ts = (Ok v, ts') -> ts_pos ts <= ts_pos ts'.

Lemma fwd_bind {A B} (m : T A) (f : A -> T B) : fwd m -> (forall a, fwd (f a)) -> fwd (cbind m f).
Proof.
  intros Hm Hf ts v ts' H. apply cbind_inv in H as (a & ts1 & H1 & H2).
  specialize (Hm _ _ _ H1). specialize (Hf _ _ _ _ H2). lia.
Qed.
Lemma fwd_ret {A} (v : A) : fwd (cret v).
Proof. intros ts v' ts' [= -> ->]. lia. Qed.
Lemma fwd_get : fwd cget.
Proof. intros ts v' ts' [= -> ->]. lia. Qed.
Lemma fwd_gets {A} (f : tlv_state -> A) : fwd (cgets f).
Proof. intros ts v' ts' [= <- <-]. lia. Qed.
Lemma fwd_guard b e : fwd (guard b e).
Proof. intros ts v ts' H. unfold guard in H. destruct b; [|done]. injection H as _ <-. lia. Qed.
Lemma fwd_verify b : fwd (verify b).
Proof. intros ts v ts' H. unfold verify in H. destruct b; [|done]. injection H as _ <-. lia. Qed.
Lemma fwd_getc : fwd getc.
Proof. intros ts v ts' H. unfold getc in H. destruct (zget _ _); [|done]. injection H as _ <-. cbn. lia. Qed.
Lemma fwd_getn n : fwd (getn n).
Proof.
  intros ts v ts' H. unfold getn in H. destruct (_ && _ && _) eqn:Hb; [|done]. injection H as _ <-. cbn. lia.
Qed.
Lemma fwd_peekat i : fwd (peekat i).
Proof. intros ts v ts' H. unfold peekat in H. destruct (zget _ _); [|done]. injection H as _ <-. lia. Qed.
Lemma fwd_pop : fwd tlv_ctx_pop.
Proof. intros ts v ts' H. unfold tlv_ctx_pop in H. destruct (ts_stack ts); [done|]. injection H as _ <-. cbn. lia. Qed.
Lemma fwd_push tc : fwd (tlv_ctx_push tc).
Proof. intros ts v ts' H. injection H as _ <-. cbn. lia. Qed.
Create HintDb fwd discriminated.
#[local] Hint Resolve fwd_ret fwd_get fwd_gets fwd_guard fwd_verify fwd_getc fwd_getn fwd_peekat fwd_pop
  fwd_push : fwd.
Ltac fwd_tac := repeat first [progress auto with fwd | apply fwd_bind; [|intros ?]
  | match goal with |- fwd (if ?b then _ else _) => destruct b end].

Lemma fwd_tag_cont n : forall tag, fwd (tag_cont n tag).
Proof. induction n; intros; cbn [tag_cont]; [done|]. fwd_tac. Qed.
Lemma fwd_len_octs n : forall len, fwd (len_octs n len).
Proof. induction n; intros; cbn [len_octs]; fwd_tac. Qed.
Lemma fwd_u8to32_loop n : forall out, fwd (u8to32_loop n out).
Proof. induction n; intros; cbn [u8to32_loop]; fwd_tac. Qed.
Lemma fwd_string_loop n : forall acc, fwd (string_loop n acc).
Proof. induction n; intros; cbn [string_loop]; fwd_tac. Qed.
#[local] Hint Resolve fwd_tag_cont fwd_len_octs fwd_u8to32_loop fwd_string_loop : fwd.
Lemma fwd_read_len : fwd read_len.
Proof. unfold read_len. fwd_tac. Qed.
#[local] Hint Resolve fwd_read_len : fwd.
Lemma fwd_read_u8to32 : fwd tlv_read_u8to32.
Proof. unfold tlv_read_u8to32. fwd_tac. Qed.
Lemma fwd_read_upto n : fwd (tlv_read_upto n).
Proof. unfold tlv_read_upto. fwd_tac. Qed.
Lemma fwd_read_string : fwd tlv_read_string.
Proof. unfold tlv_read_string. fwd_tac. Qed.
Lemma fwd_read_alloc : fwd tlv_read_alloc.
Proof. unfold tlv_read_alloc. fwd_tac. Qed.
Lemma fwd_read n : fwd (tlv_read n).
Proof. unfold tlv_read. fwd_tac. Qed.
Lemma fwd_end : fwd tlv_end.
Proof. unfold tlv_end. fwd_tac. Qed.
Lemma fwd_skip : fwd tlv_skip.
Proof.
  intros ts v ts' H. unfold tlv_skip in H. apply cbind_inv in H as (tc & ts1 & H1 & H).
  pose proof (fwd_pop _ _ _ H1). apply cbind_inv in H as (pos & ts2 & [= <- <-] & H).
  apply cbind_inv in H as ([] & ts3 & H3 & H). apply cbind_inv in H as ([] & ts4 & H4 & H).
  unfold verify in *. repeat case_match; try done. injection H3 as <-. injection H4 as <-.
  injection H as _ <-. cbn. lia.
Qed.

(** A tag is at least a byte. *)
Lemma read_tag_moves ts v ts' : tlv_read_tag ts = (Ok v, ts') -> ts_pos ts < ts_pos ts'.
Proof.
  intros H. unfold tlv_read_tag in H. apply cbind_inv in H as (s0 & ts0 & [= <- <-] & H).
  apply cbind_inv in H as ([] & ts1 & H1 & H). pose proof (fwd_guard _ _ _ _ _ H1).
  apply cbind_inv in H as (d & ts2 & H2 & H). unfold getc in H2. destruct (zget _ _); [|done].
  injection H2 as _ <-.
  assert (ts_pos (with_pos ts1 (ts_pos ts1 + 1)) <= ts_pos ts'); [|cbn in *; lia].
  revert H. match goal with |- ?m ?s = _ -> _ => assert (fwd m) as Hf by fwd_tac end. apply Hf.
Qed.

(** ** Parsers of the token *)

Section Parse.
Context {X : Certs} {R : Reader}.

Definition same_txn (t t' : piv_token) : Prop := pt_intxn t' = pt_intxn t /\ pt_reset t' = pt_reset t.
#[local] Instance same_txn_po : PreOrder same_txn.
Proof. split; [by intros ?|]. intros ? ? ? [] []. split; congruence. Qed.

(** From a reader [ts] and a token [t]: the stack is [st], the reader has not moved
    back, and the transaction is as it was. *)
Definition parsed {A} (ts : tlv_state) (t : piv_token) (st : list tlv_context) : A -> pstate -> Prop :=
  fun _ s => reads_to ts st (fst s) /\ ts_pos ts <= ts_pos (fst s) /\ same_txn t (snd s).
Definition refused (ts : tlv_state) (t : piv_token) : errf_t -> pstate -> Prop :=
  fun _ s => (exists st, reads_to ts st (fst s)) /\ same_txn t (snd s).

Lemma refused_trans ts t st ts1 t1 e s :
  reads_to ts st ts1 -> same_txn t t1 -> refused ts1 t1 e s -> refused ts t e s.
Proof.
  intros Hr Ht ((st' & Hr') & Ht'). split; [|by etrans]. exists st'. by apply (reads_to_trans _ _ _ _ _ Hr).
Qed.

Lemma wp_tl {A} (m : T A) ts t (Q : A -> pstate -> Prop) (E : errf_t -> pstate -> Prop) :
  wp m ts (fun v ts' => Q v (ts', t)) (fun e ts' => E e (ts', t)) -> wp (tl m) (ts, t) Q E.
Proof. unfold wp, tl. cbn. destruct (m ts) as [[] ?]; auto. Qed.

Lemma wp_fwd {A} (m : T A) ts Q E :
  fwd m -> wp m ts Q E -> wp m ts (fun v ts' => Q v ts' /\ ts_pos ts <= ts_pos ts') E.
Proof.
  intros Hf. specialize (Hf ts). unfold wp. destruct (m ts) as [[] ?]; auto.
  intros HQ. split; [done|]. by eapply Hf.
Qed.

(** One step of a parser that keeps the current context. *)
Lemma step_read {A B} (m : T A) (k : A -> M errf_t pstate B) ts0 t0 ts t (Q : B -> pstate -> Prop) :
  safe_read m -> fwd m -> reads_to ts0 (ts_stack ts0) ts -> ts_pos ts0 <= ts_pos ts -> same_txn t0 t ->
  (forall v ts', reads_to ts0 (ts_stack ts0) ts' -> ts_pos ts0 <= ts_pos ts' ->
     wp (k v) (ts', t) Q (refused ts0 t0)) ->
  wp (let! v := tl m in k v) (ts, t) Q (refused ts0 t0).
Proof.
  intros Hs Hf Hr Hp Ht Hk. pose proof Hr as (Hok & _ & _ & Hst). wp_step. apply wp_tl.
  eapply wp_mono; [apply wp_fwd; [done|by apply Hs]|..].
  - intros v ts' [Hr' Hp']. apply Hk; [|lia]. rewrite Hst in Hr'. by apply (reads_to_trans _ _ _ _ _ Hr).
  - intros e ts' Hr'. split; [|done]. eexists. by apply (reads_to_trans _ _ _ _ _ Hr).
Qed.

(** The last step: [tlv_end] or [tlv_skip] leaves the context. *)
Lemma step_leave (m : T unit) ts0 t0 ts t tc st :
  m = tlv_end \/ m = tlv_skip -> ts_stack ts0 = tc :: st ->
  reads_to ts0 (ts_stack ts0) ts -> ts_pos ts0 <= ts_pos ts -> same_txn t0 t ->
  wp (tl m) (ts, t) (parsed ts0 t0 st) (refused ts0 t0).
Proof.
  intros Hm Hst Hr Hp Ht. pose proof Hr as (Hok & _ & _ & Hs). rewrite Hst in Hs. apply wp_tl.
  eapply wp_mono; [apply wp_fwd|..].
  - destruct Hm as [->| ->]; auto using fwd_end, fwd_skip.
  - destruct Hm as [->| ->]; [exact (safe_tlv_end ts tc st Hok Hs)|exact (safe_tlv_skip ts tc st Hok Hs)].
  - intros v ts' [Hr' Hp']. split_and!; [by apply (reads_to_trans _ _ _ _ _ Hr)|cbn in *; lia|done].
  - intros e ts' Hr'. split; [|done]. exists st. apply (reads_to_trans _ _ _ _ _ Hr). exact Hr'.
Qed.

Lemma wp_tk {B} f (k : M errf_t pstate B) ts t Q E :
  wp k (ts, f t) Q E -> wp (tk f ;! k) (ts, t) Q E.
Proof. done. Qed.

Lemma wp_assoc {A B D} (m : M errf_t pstate A) (f : A -> M errf_t pstate B) (g : B -> M errf_t pstate D) s Q E :
  wp (cbind (cbind m f) g) s Q E -> wp (cbind m (fun a => cbind (f a) g)) s Q E.
Proof. unfold wp. by rewrite cbind_assoc. Qed.

(** Entering a tag: what follows reads its contents and leaves them. *)
Lemma step_tag {B} (k : Z -> M errf_t pstate B) ts t : reader_ok ts ->
  (forall tag tc ts1, reads_to ts (tc :: ts_stack ts) ts1 -> ts_pos ts < ts_pos ts1 ->
     wp (k tag) (ts1, t) (parsed ts1 t (ts_stack ts)) (refused ts1 t)) ->
  wp (let! tag := tl tlv_read_tag in k tag) (ts, t)
    (fun v s => parsed ts t (ts_stack ts) v s /\ ts_pos ts < ts_pos (fst s)) (refused ts t).
Proof.
  intros Hok Hk. wp_step. apply wp_tl. pose proof (safe_tlv_read_tag ts Hok) as Htag.
  pose proof (read_tag_moves ts) as Hmove. unfold wp in Htag |- *.
  destruct (tlv_read_tag ts) as [[tag|e| |] ts1]; try done; [|split; [by eexists|done]].
  destruct Htag as (tc & Hr1). specialize (Hmove _ _ eq_refl).
  eapply wp_mono; [by apply (Hk tag tc)|..].
  - intros v s (Hr & Hp & Ht). split; [split_and!|lia]; [by apply (reads_to_trans _ _ _ _ _ Hr1)|lia|done].
  - intros e s. by apply (refused_trans _ _ _ _ _ _ _ Hr1).
Qed.

(** A member of a template reads its contents and leaves them. *)
Definition member_safe (body : Z -> M errf_t pstate unit) : Prop :=
  forall tag ts t tc st, reader_ok ts -> ts_stack ts = tc :: st ->
    wp (body tag) (ts, t) (parsed ts t st) (refused ts t).

Lemma now_same ts ts' : reads_to ts (ts_stack ts) ts' -> ts_now ts' = ts_now ts.
Proof. intros (_ & _ & Hr & Hs). unfold ts_now. by rewrite Hr, Hs. Qed.

Lemma each_tag_safe body n : member_safe body -> forall ts t,
  reader_ok ts -> tc_end (ts_now ts) - ts_pos ts <= Z.of_nat n ->
  wp (each_tag n body) (ts, t) (parsed ts t (ts_stack ts)) (refused ts t).
Proof.
  intros Hb. induction n as [|n IH]; intros ts t Hok Hn; cbn [each_tag];
    wp_step; apply wp_gets; cbn [fst]; (destruct (tlv_at_end ts) eqn:He;
      [apply wp_ret; split_and!; [by apply reads_to_refl|done|done]|]);
    rewrite tlv_at_end_reader in He by done; [lia|].
  apply wp_assoc. wp_step. eapply wp_mono; [apply step_tag; [done|]|..].
  - intros tag tc ts1 Hr1 _. pose proof Hr1 as (Hok1 & _ & _ & Hst1). by apply (Hb tag ts1 t tc).
  - intros [] [ts2 t2] ((Hr & _ & Ht2) & Hp). cbn [fst snd] in *. pose proof Hr as (Hok2 & _ & _ & Hst2).
    eapply wp_mono; [apply IH; [done|rewrite (now_same _ _ Hr); lia]|..].
    + intros [] [ts3 t3] (Hr3 & Hp3 & Ht3). cbn [fst snd] in *. rewrite Hst2 in Hr3.
      split_and!; [by apply (reads_to_trans _ _ _ _ _ Hr)|cbn; lia|by etrans].
    + intros e s. by apply (refused_trans _ _ _ _ _ _ _ Hr).
  - done.
Qed.

Lemma tags_safe body ts t : member_safe body -> reader_ok ts ->
  wp (tags body) (ts, t) (parsed ts t (ts_stack ts)) (refused ts t).
Proof.
  intros Hb Hok. unfold tags. wp_step. apply wp_gets. cbn [fst]. apply each_tag_safe; [done..|].
  reader_facts Hok. unfold zlen in *. lia.
Qed.

(** A template inside a template, or the outermost one. *)
Lemma tags_end_safe body ts0 t0 ts t tc st :
  member_safe body -> reads_to ts0 (ts_stack ts0) ts -> ts_pos ts0 <= ts_pos ts -> same_txn t0 t ->
  ts_stack ts0 = tc :: st ->
  wp (tags body ;! tl tlv_end) (ts, t) (parsed ts0 t0 st) (refused ts0 t0).
Proof.
  intros Hb Hr Hp Ht Hst. pose proof Hr as (Hok & _ & _ & Hs). wp_step.
  eapply wp_mono; [by apply tags_safe|..].
  - intros [] [ts2 t2] (Hr2 & Hp2 & Ht2). cbn [fst snd] in *. rewrite Hs in Hr2.
    apply (step_leave _ _ _ _ _ tc); [by left|done| |lia|by etrans].
    by apply (reads_to_trans _ _ _ _ _ Hr).
  - intros e s. by apply (refused_trans _ _ _ _ _ _ _ Hr).
Qed.

Lemma template_safe outer body ts t : member_safe body -> reader_ok ts ->
  wp (template outer body) (ts, t) (parsed ts t (ts_stack ts)) (refused ts t).
Proof.
  intros Hb Hok. unfold template. eapply wp_mono; [apply step_tag; [done|]|by intros ? ? []|done].
  intros tag tc ts1 Hr1 _. pose proof Hr1 as (Hok1 & _ & _ & Hst1).
  wp_step. apply wp_guard; [intros _|intros _; split; [eexists; by apply reads_to_refl|done]].
  by apply (tags_end_safe body ts1 t ts1 t tc); [|apply reads_to_refl|..].
Qed.

(** ** The members of each object *)

#[local] Hint Resolve safe_read_u8to32 safe_read_string safe_tlv_read fwd_read_u8to32 fwd_read_string
  fwd_read fwd_read_upto : parse.
Lemma safe_upto26 : safe_read (tlv_read_upto 26).
Proof. by apply safe_read_upto. Qed.
#[local] Hint Resolve safe_upto26 : parse.

(** Follow one branch of a member: reads, assignments, then the end of the context. *)
Ltac branch ts Hst :=
  repeat first
    [ eapply step_read; [solve [auto with parse]|solve [auto with parse]|first [eassumption|by apply reads_to_refl]
                        |lia|done|intros ? ? ? ?]
    | apply wp_tk ];
  first
    [ eapply step_leave; [first [by left|by right]|exact Hst|first [eassumption|by apply reads_to_refl]|lia|done]
    | split; [eexists; first [eassumption|by apply reads_to_refl]|done] ].

Lemma hist_member_safe : member_safe hist_member.
Proof.
  intros tag ts t tc st Hok Hst. unfold hist_member. repeat (case_match; [branch ts Hst|]). branch ts Hst.
Qed.

Lemma aid_matches_safe ts t Q (E : errf_t -> pstate -> Prop) :
  reader_ok ts -> (forall b, Q b (ts, t)) -> wp aid_matches (ts, t) Q E.
Proof.
  intros Hok HQ. unfold wp, aid_matches. cbn [fst]. rewrite tlv_rem_reader by done.
  pose proof (reader_now ts Hok). pose proof (ro_pos _ Hok). pose proof (ro_buf _ Hok).
  replace (_ && _) with true by lia. apply HQ.
Qed.

Lemma discov_member_safe : member_safe discov_member.
Proof.
  intros tag ts t tc st Hok Hst. unfold discov_member.
  case_match; [|case_match; branch ts Hst].
  wp_step. apply wp_gets. cbn [fst]. case_match; [branch ts Hst|].
  wp_step. apply aid_matches_safe; [done|]. intros b. wp_step. apply wp_guard; intros _; branch ts Hst.
Qed.

Lemma chuid_member_safe : member_safe chuid_member.
Proof.
  intros tag ts t tc st Hok Hst. unfold chuid_member, chuid_of.
  repeat (case_match; [branch ts Hst|]).
  case_match; [|case_match; branch ts Hst].
  wp_step. apply wp_gets. cbn [fst]. wp_step. case_match; (eapply wp_runs; [reflexivity|]); branch ts Hst.
Qed.

(** The answer to SELECT, when an algorithm that has no place in [pt_algs] is refused instead of stored past its end. *)
Definition store_alg_bounded : M errf_t pstate unit :=
  let! t := cgets snd in
  let idx := pt_alg_count t in
  tk (fun t => set_algs (pt_algs t) (pt_alg_count t + 1) t) ;!
  let! uval := tl tlv_read_u8to32 in
  if idx <? 32 then tk (fun t => set_algs (zsplice (pt_algs t) idx [uval]) (pt_alg_count t) t)
  else craise tagerrf.
Definition alg_member_bounded (tag : Z) : M errf_t pstate unit :=
  if tag =? 128 then store_alg_bounded ;! tl tlv_end
  else if tag =? 6 then tl tlv_skip
  else craise tagerrf.
Definition select_member_bounded (tag : Z) : M errf_t pstate unit :=
  if (tag =? PIV_TAG_AID) || (tag =? PIV_TAG_AUTHORITY) || (tag =? PIV_TAG_APP_LABEL)
     || (tag =? PIV_TAG_URI) then tl tlv_skip
  else if tag =? PIV_TAG_ALGS then
    let! t := cgets snd in
    if 0 <? pt_alg_count t then tl tlv_skip
    else tags alg_member_bounded ;! tl tlv_end
  else craise tagerrf.

Lemma alg_member_safe : member_safe alg_member_bounded.
Proof.
  intros tag ts t tc st Hok Hst. unfold alg_member_bounded. case_match; [|case_match; branch ts Hst].
  unfold store_alg_bounded. wp_step. wp_step. apply wp_gets. cbn [snd]. wp_step. apply wp_tk.
  eapply step_read; [auto with parse|auto with parse|by apply reads_to_refl|lia|done|]. intros v ts' Hr Hp.
  case_match; [|split; [by eexists|done]]. apply wp_runs with (a := tt) (s' := (ts', set_algs (zsplice (pt_algs (set_algs (pt_algs t) (pt_alg_count t + 1) t)) (pt_alg_count t) [v])
    (pt_alg_count t + 1) (set_algs (pt_algs t) (pt_alg_count t + 1) t))); [done|].
  by eapply step_leave; [left|exact Hst|..].
Qed.

Lemma select_member_safe : member_safe select_member_bounded.
Proof.
  intros tag ts t tc st Hok Hst. unfold select_member_bounded. case_match; [branch ts Hst|]. case_match; [|branch ts Hst].
  wp_step. apply wp_gets. cbn [snd]. case_match; [branch ts Hst|].
  apply (tags_end_safe _ ts t ts t tc); [apply alg_member_safe|by apply reads_to_refl|done..].
Qed.

(** [m] does what [m'] does, unless it stores past the end of [pt_algs], after it has counted more than 32 algorithms. *)
Definition overflows_or {A} (m m' : M errf_t pstate A) : Prop :=
  forall s, m s = m' s \/ exists s', m s = (Fault, s') /\ 32 < pt_alg_count (snd s').

Lemma overflows_refl {A} (m : M errf_t pstate A) : overflows_or m m.
Proof. by left. Qed.
Lemma overflows_bind {A B} (m m' : M errf_t pstate A) (k k' : A -> M errf_t pstate B) :
  overflows_or m m' -> (forall a, overflows_or (k a) (k' a)) -> overflows_or (cbind m k) (cbind m' k').
Proof.
  intros Hm Hk s. unfold cbind. destruct (Hm s) as [->|(s' & -> & Hs)]; [|right; by exists s'].
  destruct (m' s) as [[] ?]; [apply Hk|by left..].
Qed.
Lemma overflows_tags body body' : (forall tag, overflows_or (body tag) (body' tag)) -> overflows_or (tags body) (tags body').
Proof.
  intros Hb. apply overflows_bind; [apply overflows_refl|]. intros ts. generalize (length (ts_buf ts)) as n.
  induction n as [|n IH]; cbn [each_tag]; (apply overflows_bind; [apply overflows_refl|]); intros s; destruct (tlv_at_end s); try apply overflows_refl.
  apply overflows_bind; [apply overflows_refl|]. intros tag. by apply overflows_bind.
Qed.
Lemma store_alg_overflows : overflows_or store_alg store_alg_bounded.
Proof.
  intros [ts t]. unfold store_alg, store_alg_bounded. generalize tlv_read_u8to32 as m. intros m.
  unfold cbind, cgets, tk, cmodify, tl. cbn.
  destruct (m ts) as [[v| | |] ts']; [|by left..]. cbn. destruct (Z.ltb_spec (pt_alg_count t) 32) as [H|H]; [by left|].
  right. eexists. split; [done|]. cbn. lia.
Qed.
Lemma select_member_overflows tag : overflows_or (select_member tag) (select_member_bounded tag).
Proof.
  unfold select_member, select_member_bounded. repeat (case_match; try apply overflows_refl).
  apply overflows_bind; [apply overflows_refl|]. intros t. case_match; [apply overflows_refl|]. apply overflows_bind; [|intros; apply overflows_refl].
  apply overflows_tags. intros tag'. unfold alg_member, alg_member_bounded. repeat (case_match; try apply overflows_refl).
  apply overflows_bind; [apply store_alg_overflows|intros; apply overflows_refl].
Qed.

(** ** From the reply to the result *)

Definition keeps_txn {A} (w : world) : A -> world -> Prop := fun _ w' => same_txn (w_tok w) (w_tok w').

Lemma tlv_free_empty ts : ts_stack ts = [] -> exists ts', tlv_free ts = (Ok tt, ts').
Proof.
  intros Hs. unfold tlv_free, cbind, cget. rewrite Hs. cbn. destruct (ts_freebuf ts); by eexists.
Qed.

Lemma parse_reply_safe {A} a (m : M errf_t pstate A) (w : world) :
  reply_ok (a_reply a) ->
  (forall ts, reader_ok ts -> ts_stack ts = [] ->
     wp m (ts, w_tok w) (parsed ts (w_tok w) []) (refused ts (w_tok w))) ->
  wp (parse_reply a m) w (keeps_txn w) (keeps_txn w).
Proof.
  intros [(d & Hd & Hb & Hz & Hs & Ho & Ho2) [Hl Hl2]] Hm. unfold wp, parse_reply. rewrite Hd.
  assert (reader_ok (tlv_init d (b_offset (a_reply a)) (b_len (a_reply a)))) as Hok
    by (apply tlv_init_reader; done || lia).
  specialize (Hm _ Hok eq_refl). unfold wp in Hm.
  destruct (m _) as [[v|e| |] [ts t]]; try done.
  - destruct Hm as ((_ & _ & _ & Hst) & _ & Ht). destruct (tlv_free_empty ts Hst) as (ts' & ->). done.
  - destruct Hm as ((st & (Hok' & _)) & Ht). pose proof (safe_tlv_abort ts Hok') as Hab.
    unfold wp in Hab. unfold cbind. destruct (tlv_abort ts) as [[[]|?| |] ts1]; try done.
    destruct (tlv_free_empty ts1) as (ts' & ->); [apply Hab|done].
Qed.

Lemma wp_onerr {A} f (m : M stop world A) (w : world) Q (E : stop -> world -> Prop) :
  wp m w Q (fun _ w' => forall e, E e w') -> wp (onerr f m) w Q E.
Proof. unfold wp, onerr, cmaperr. destruct (m w) as [[] ?]; auto. Qed.

Lemma tag_list_emits tag : 0 <= tag < 2 ^ 32 -> emits (tag_list tag) (tlv_object 92 127 (short_be tag)).
Proof.
  intros Ht. apply (emits_object 92 127); [lia|lia| |by apply emits_write_u8to32].
  change (len_limit 127) with 128. pose proof (zlen_short_be tag). lia.
Qed.

Lemma tlv_build_ok m bs (w : world) : emits m bs -> zlen bs <= MAX_APDU_SIZE -> tlv_build m w = (Ok bs, w).
Proof.
  intros Hm Hl. destruct (emits_init m bs Hm Hl) as (ts & E & Hw & _). unfold tlv_build. by rewrite E, Hw.
Qed.

Lemma zlen_tag_list tag : 2 <= zlen (tlv_object 92 127 (short_be tag)) <= 6.
Proof.
  unfold tlv_object. rewrite !zlen_app. pose proof (zlen_short_be tag). pose proof (zlen_nonneg (short_be tag)).
  change (zlen (short_be 92)) with 1. rewrite zlen_len_field. change (len_extra 127) with 0. lia.
Qed.

(** An APDU with a command of its own. *)
Lemma with_cmd_ready data ins p1 p2 : data <> [] -> zlen data < 2 ^ 63 ->
  apdu_ready (with_cmd data (piv_apdu_make CLA_ISO ins p1 p2)).
Proof.
  intros Hd Hl. split; [|by left]. unfold cmd_rem. cbn.
  assert (0 < zlen data) by (destruct data; [done|rewrite zlen_cons; pose proof (zlen_nonneg data); lia]). lia.
Qed.

Context {L : ReaderLaws R} (fuel : nat).

Lemma chain_keeps a (w : world) f : pt_intxn (w_tok w) = true -> apdu_ready a ->
  wp (onerr f (piv_apdu_transceive_chain fuel a)) w
    (fun a' w' => w_tok w' = w_tok w /\ reply_ok (a_reply a')) (keeps_txn w).
Proof.
  intros Ht Ha. apply wp_onerr. eapply wp_mono; [by apply chain_safe|done|].
  intros e w' H e'. unfold keeps_txn. by rewrite H.
Qed.

Lemma get_data_safe tag (w : world) : pt_intxn (w_tok w) = true -> 0 <= tag < 2 ^ 32 ->
  wp (get_data fuel tag) w (fun a' w' => w_tok w' = w_tok w /\ reply_ok (a_reply a')) (keeps_txn w).
Proof.
  intros Ht Hg. unfold get_data. wp_step. apply wp_in_txn; [done|]. wp_step.
  pose proof (zlen_tag_list tag) as Hz.
  eapply wp_runs; [apply tlv_build_ok; [by apply tag_list_emits|unfold MAX_APDU_SIZE; lia]|].
  apply chain_keeps; [done|]. apply with_cmd_ready; [|lia]. intros E. rewrite E, zlen_nil in Hz. lia.
Qed.

(** The readers of the objects, one by one. *)
Ltac finish := repeat first [wp_step | done | apply wp_ret | match goal with |- keeps_txn _ _ _ => done end].

Lemma after_get {A} tag (k : apdu -> M stop world A) (w : world) :
  pt_intxn (w_tok w) = true -> 0 <= tag < 2 ^ 32 ->
  (forall a w', w_tok w' = w_tok w -> reply_ok (a_reply a) -> wp (k a) w' (keeps_txn w') (keeps_txn w')) ->
  wp (let! a := get_data fuel tag in k a) w (keeps_txn w) (keeps_txn w).
Proof.
  intros Ht Hg Hk. wp_step. eapply wp_mono; [by apply get_data_safe| |done].
  intros a w' [Hw Hr]. specialize (Hk a w' Hw Hr). unfold keeps_txn in *. by rewrite Hw in Hk.
Qed.

Lemma template_reply outer body a (w : world) : member_safe body -> reply_ok (a_reply a) ->
  wp (parse_reply a (template outer body)) w (keeps_txn w) (keeps_txn w).
Proof.
  intros Hb Hr. apply parse_reply_safe; [done|]. intros ts Hok Hst. rewrite <- Hst. by apply template_safe.
Qed.

Lemma read_discov_safe (w : world) : pt_intxn (w_tok w) = true ->
  wp (piv_read_discov fuel) w (keeps_txn w) (keeps_txn w).
Proof.
  intros Ht. unfold piv_read_discov. apply after_get; [done|unfold PIV_TAG_DISCOV; lia|]. intros a w' _ Hr.
  wp_step; [apply template_reply; [apply discov_member_safe|done]|finish].
Qed.

Lemma read_keyhist_safe (w : world) : pt_intxn (w_tok w) = true ->
  wp (piv_read_keyhist fuel) w (keeps_txn w) (keeps_txn w).
Proof.
  intros Ht. unfold piv_read_keyhist. apply after_get; [done|unfold PIV_TAG_KEYHIST; lia|]. intros a w' _ Hr.
  wp_step; [|finish]. wp_step; [done|]. apply template_reply; [apply hist_member_safe|done].
Qed.

Lemma read_chuid_safe {C : Crypto} (w : world) : pt_intxn (w_tok w) = true ->
  wp (piv_read_chuid fuel) w (keeps_txn w) (keeps_txn w).
Proof.
  intros Ht. unfold piv_read_chuid. apply after_get; [done|unfold PIV_TAG_CHUID; lia|]. intros a w' _ Hr.
  wp_step; [|finish]. apply parse_reply_safe; [done|]. intros ts Hok Hst. wp_step.
  eapply wp_mono; [apply template_safe; [apply chuid_member_safe|done]| |done].
  intros [] [ts' t'] Hp. rewrite Hst in Hp. exact Hp.
Qed.

Lemma read_file_safe tag (w : world) : pt_intxn (w_tok w) = true -> 0 <= tag < 2 ^ 32 ->
  wp (piv_read_file fuel tag) w (keeps_txn w) (keeps_txn w).
Proof.
  intros Ht Hg. unfold piv_read_file. apply after_get; [done..|]. intros a w' _ Hr.
  wp_step; [|finish]. wp_step; [done|]. apply parse_reply_safe; [done|]. intros ts Hok Hst.
  rewrite <- Hst. eapply wp_mono; [apply step_tag; [done|]|by intros ? ? []|done].
  intros rtag tc ts1 Hr1 _. pose proof Hr1 as (Hok1 & _ & _ & Hst1). rewrite Hst in *.
  wp_step. apply wp_guard; [intros _|intros _; split; [eexists; by apply reads_to_refl|done]].
  apply step_read; auto using safe_read_alloc, fwd_read_alloc; [by apply reads_to_refl|lia|done|].
  intros data ts2 Hr2 Hp2. wp_step.
  eapply wp_mono; [by apply (step_leave tlv_end ts1 (w_tok w') _ _ tc []); [left|..]|done|done].
Qed.

(** ** Every operation on the token, against any card *)

Definition in_txn_still {A} : A -> world -> Prop := fun _ w => pt_intxn (w_tok w) = true.

Lemma keeps_still {A} (m : M stop world A) (w : world) : pt_intxn (w_tok w) = true ->
  wp m w (keeps_txn w) (keeps_txn w) -> wp m w in_txn_still in_txn_still.
Proof. intros Ht H. eapply wp_mono; [exact H|..]; intros ? ? []; unfold in_txn_still; congruence. Qed.

(** A command, then a decision on the status. *)
Lemma after_chain {A} a f (k : apdu -> M stop world A) (w : world) :
  pt_intxn (w_tok w) = true -> apdu_ready a ->
  (forall a' w', pt_intxn (w_tok w') = true -> reply_ok (a_reply a') -> wp (k a') w' in_txn_still in_txn_still) ->
  wp (let! a' := onerr f (piv_apdu_transceive_chain fuel a) in k a') w in_txn_still in_txn_still.
Proof.
  intros Ht Ha Hk. wp_step. eapply wp_mono; [by apply chain_keeps|..].
  - intros a' w' [Hw Hr]. apply Hk; [by rewrite Hw|done].
  - intros e w' []. unfold in_txn_still. congruence.
Qed.

Lemma make_ready ins p1 p2 : apdu_ready (piv_apdu_make CLA_ISO ins p1 p2).
Proof. split; [done|by left]. Qed.

Lemma reply_read (a : apdu) (w : world) Q (E : stop -> world -> Prop) :
  reply_ok (a_reply a) -> (forall bs, zlen bs = b_len (a_reply a) -> Q bs w) -> wp (piv_apdu_get_reply a) w Q E.
Proof.
  intros [(d & Hd & _ & Hz & _ & Ho & _) [Hl Hl2]] HQ. unfold wp, piv_apdu_get_reply. rewrite Hd.
  replace (_ && _ && _) with true by lia. apply HQ. apply zlen_zslice; lia.
Qed.

(** An outcome that only depends on the status word. *)
Ltac by_status := repeat first [wp_step | assumption | apply wp_ret; assumption
  | match goal with |- in_txn_still _ _ => assumption end].

Lemma get_version_safe (w : world) : pt_intxn (w_tok w) = true ->
  wp (ykpiv_get_version fuel) w in_txn_still in_txn_still.
Proof.
  intros Ht. unfold ykpiv_get_version. wp_step. apply wp_in_txn; [done|].
  apply after_chain; [done|apply make_ready|]. intros a w' Ht' Hr. wp_step; [|done]. wp_step; [done|].
  wp_step. by apply reply_read.
Qed.

Lemma read_serial_safe (w : world) : pt_intxn (w_tok w) = true ->
  wp (ykpiv_read_serial fuel) w in_txn_still in_txn_still.
Proof.
  intros Ht. unfold ykpiv_read_serial. wp_step. apply wp_in_txn; [done|].
  apply after_chain; [done|apply make_ready|]. intros a w' Ht' Hr. wp_step; [|done]. wp_step; [done|].
  wp_step. apply reply_read; [done|]. intros bs Hz.
  destruct bs as [|? [|? [|? [|? ?]]]]; rewrite ?zlen_cons, ?zlen_nil in Hz; try lia. done.
Qed.

Definition put_data_bytes (tag : Z) (data : list Z) : list Z :=
  tlv_object 92 127 (short_be tag) ++ tlv_object 83 (zlen data + 8) data.

Lemma write_file_emits tag data : 0 <= tag < 2 ^ 32 -> zlen data + 8 < 2 ^ 16 ->
  emits (tag_list tag ;! tlv_pushl 83 (zlen data + 8) ;! tlv_write data ;! tlv_pop) (put_data_bytes tag data)
  /\ 2 + zlen data < zlen (put_data_bytes tag data) <= zlen data + 11.
Proof.
  intros Ht Hd. pose proof (zlen_nonneg data). pose proof (zlen_tag_list tag). split.
  - apply emits_seq; [by apply tag_list_emits|]. apply emits_object; [lia|lia| |apply emits_write].
    unfold len_limit. repeat case_match; lia.
  - unfold put_data_bytes. rewrite zlen_app. set (o := zlen (tlv_object 92 _ _)) in *.
    unfold tlv_object. rewrite !zlen_app, zlen_len_field. change (zlen (short_be 83)) with 1.
    unfold len_extra. repeat case_match; lia.
Qed.

Lemma write_file_safe tag data (w : world) : pt_intxn (w_tok w) = true -> 0 <= tag < 2 ^ 32 ->
  zlen data + 11 <= MAX_APDU_SIZE -> wp (piv_write_file fuel tag data) w in_txn_still in_txn_still.
Proof.
  intros Ht Hg Hd. unfold piv_write_file, MAX_APDU_SIZE in *. wp_step. apply wp_in_txn; [done|]. wp_step.
  pose proof (zlen_nonneg data). rewrite wrap_small by lia.
  destruct (write_file_emits tag data Hg ltac:(lia)) as [He Hz].
  eapply wp_runs; [apply tlv_build_ok; [exact He|unfold MAX_APDU_SIZE; lia]|].
  apply after_chain; [done| |intros a w' Ht' Hr; by_status].
  apply with_cmd_ready; [|lia]. intros E. rewrite E, zlen_nil in Hz. lia.
Qed.

(** ** PIN operations *)

Lemma wp_attempt {A} (m : M stop world A) (w : world) Q (E : stop -> world -> Prop) :
  wp m w (fun a w' => Q (inr a) w') (fun e w' => E Exhausted w' /\ forall e, Q (inl e) w') -> wp (attempt m) w Q E.
Proof. unfold wp, attempt. destruct (m w) as [[|[]| |] ?]; naive_solver. Qed.

Lemma attempt_chain a (w : world) : pt_intxn (w_tok w) = true -> apdu_ready a ->
  wp (attempt (piv_apdu_transceive_chain fuel a)) w in_txn_still in_txn_still.
Proof.
  intros Ht Ha. apply wp_attempt. eapply wp_mono; [by apply chain_safe|..]; unfold in_txn_still, same_tok.
  - intros a' w' [-> _]. done.
  - intros e w' ->. done.
Qed.

Lemma verify_try_safe type pin retries (w : world) : pt_intxn (w_tok w) = true ->
  wp (verify_try fuel type pin retries) w in_txn_still in_txn_still.
Proof.
  intros Ht. unfold verify_try. destruct (pin_len_ok pin) eqn:Hp; [|done]. cbn [negb]. wp_step.
  eapply wp_runs; [by apply pin_copy_ok|]. wp_step. destruct (pad_len pin Hp) as [Hz Hne].
  eapply wp_mono; [apply attempt_chain; [done|apply with_cmd_ready; [done|unfold pin_pad in Hz; lia]]| |done].
  intros [e|a] w' Ht'; [done|]. by_status.
Qed.

Lemma verify_pin_safe type pin retries canskip (w : world) : pt_intxn (w_tok w) = true ->
  wp (piv_verify_pin fuel type pin retries canskip) w in_txn_still in_txn_still.
Proof.
  intros Ht. unfold piv_verify_pin. wp_step. apply wp_in_txn; [done|]. wp_step.
  destruct (wants_check pin retries canskip) eqn:Hw; cycle 1.
  - apply wp_ret. destruct pin; [|done]. by apply verify_try_safe.
  - wp_step. eapply wp_mono; [apply attempt_chain; [done|apply make_ready]| |done].
    intros [e|a] w' Ht'; apply wp_ret; [done|].
    destruct (verify_check (a_sw a) pin retries canskip) eqn:Hc; [done|].
    destruct pin; [by apply verify_try_safe|]. unfold verify_check in Hc. by repeat case_match.
Qed.

Lemma two_pins_safe ins type old new (k : apdu -> M stop world unit) (w : world) : pt_intxn (w_tok w) = true ->
  (forall a w', pt_intxn (w_tok w') = true -> wp (k a) w' in_txn_still in_txn_still) ->
  wp (let! a := two_pins fuel ins type old new in k a) w in_txn_still in_txn_still.
Proof.
  intros Ht Hk. unfold two_pins. wp_step. wp_step. apply wp_in_txn; [done|].
  wp_step. apply wp_guard; [intros Ho|done]. wp_step. apply wp_guard; [intros Hn|done].
  wp_step. eapply wp_runs; [by apply pin_copy_ok|]. wp_step. eapply wp_runs; [by apply pin_copy_ok|].
  destruct (two_pins_len old new Ho Hn) as [Hz Hne].
  eapply wp_mono; [apply chain_keeps; [done|apply with_cmd_ready; [done|lia]]|..].
  - intros a w' [Hw _]. apply Hk. by rewrite Hw.
  - intros e w' []. unfold in_txn_still. congruence.
Qed.

Lemma yk_safe (k : M stop world unit) (w : world) : pt_intxn (w_tok w) = true ->
  wp k w in_txn_still in_txn_still -> wp (yk_only ;! k) w in_txn_still in_txn_still.
Proof.
  intros Ht Hk. unfold yk_only. wp_step. wp_step. apply wp_in_txn; [done|]. wp_step. apply wp_get.
  by apply wp_guard.
Qed.

Lemma yk_reset_safe (w : world) : pt_intxn (w_tok w) = true -> wp ykpiv_reset w in_txn_still in_txn_still.
Proof.
  intros Ht. apply yk_safe; [done|]. wp_step. apply wp_onerr.
  eapply wp_mono; [apply transceive_safe; [done|done|by left]|..]; unfold same_tok.
  - intros a w' [Hw _]. assert (pt_intxn (w_tok w') = true) by congruence. by_status.
  - intros e w' Hw e'. unfold in_txn_still. congruence.
Qed.

(** The operations of the library that select, read and write objects, and manage PINs, with their arguments. *)
Inductive card_op :=
| OSelect | OChuid | ODiscov | OKeyhist | OVersion | OSerial
| OReadFile (tag : Z) | OWriteFile (tag : Z) (data : list Z)
| OVerify (type : Z) (pin : option (list Z)) (retries : option Z) (canskip : bool)
| OChange (type : Z) (pin newpin : list Z)
| OUnblock (type : Z) (puk newpin : list Z)
| OYkReset | OYkRetries (pin puk : Z) | OYkAdmin (key : list Z) (touch : Z).

Definition run_card_op {C : Crypto} (op : card_op) : M stop world unit :=
  match op with
  | OSelect => piv_select fuel
  | OChuid => piv_read_chuid fuel | ODiscov => piv_read_discov fuel | OKeyhist => piv_read_keyhist fuel
  | OVersion => ykpiv_get_version fuel | OSerial => ykpiv_read_serial fuel
  | OReadFile tag => piv_read_file fuel tag ;! cret tt
  | OWriteFile tag data => piv_write_file fuel tag data
  | OVerify type pin retries canskip => piv_verify_pin fuel type pin retries canskip ;! cret tt
  | OChange type pin newpin => piv_change_pin fuel type pin newpin
  | OUnblock type puk newpin => piv_reset_pin fuel type puk newpin
  | OYkReset => ykpiv_reset
  | OYkRetries pin puk => ykpiv_set_pin_retries fuel pin puk
  | OYkAdmin key touch => ykpiv_set_admin fuel key touch
  end.

(** What a caller has to respect: 32-bit tags, and files that fit a command buffer. *)
Definition card_op_ok (op : card_op) : Prop :=
  match op with
  | OReadFile tag => 0 <= tag < 2 ^ 32
  | OWriteFile tag data => 0 <= tag < 2 ^ 32 /\ zlen data + 11 <= MAX_APDU_SIZE
  | OYkAdmin key _ => zlen key < 2 ^ 62
  | _ => True
  end.

Lemma card_op_safe {C : Crypto} op (w : world) : pt_intxn (w_tok w) = true -> card_op_ok op -> op <> OSelect ->
  wp (run_card_op op) w in_txn_still in_txn_still.
Proof.
  intros Ht Hop Hn. destruct op; cbn [run_card_op card_op_ok] in *.
  - done.
  - by apply keeps_still, read_chuid_safe.
  - by apply keeps_still, read_discov_safe.
  - by apply keeps_still, read_keyhist_safe.
  - by apply get_version_safe.
  - by apply read_serial_safe.
  - wp_step. eapply wp_mono; [by apply keeps_still, read_file_safe|by intros; apply wp_ret|done].
  - destruct Hop. by apply write_file_safe.
  - wp_step. eapply wp_mono; [by apply verify_pin_safe|by intros; apply wp_ret|done].
  - apply two_pins_safe; [done|]. intros a w' Ht'. by_status.
  - apply two_pins_safe; [done|]. intros a w' Ht'. by_status.
  - by apply yk_reset_safe.
  - apply yk_safe; [done|]. apply after_chain; [done|apply make_ready|]. intros a w' Ht' _. by_status.
  - apply yk_safe; [done|]. wp_step. pose proof (zlen_nonneg key).
    assert (forall p2, wp (let! a := onerr ioerrf (piv_apdu_transceive_chain fuel
        (with_cmd ([3; 155; u8 (zlen key)] ++ key) (piv_apdu_make CLA_ISO INS_SET_MGMT 255 p2))) in
        if a_sw a =? SW_NO_ERROR then must_reset
        else if a_sw a =? SW_SECURITY_STATUS_NOT_SATISFIED then fails (permerrf swerrf)
        else if a_sw a =? SW_INS_NOT_SUP then fails (notsuperrf (Some swerrf))
        else fails swerrf) w in_txn_still in_txn_still) as Hk; [|by_status; apply Hk].
    intros p2. apply after_chain; [done|apply with_cmd_ready; [done|zlen_lia]|]. intros a w' Ht' _. by_status.
Qed.

(** A caller that performs operations one after the other and carries on after errors. *)
Fixpoint run_card_ops {C : Crypto} (ops : list card_op) : M stop world unit :=
  match ops with [] => cret tt | op :: ops' => attempt (run_card_op op) ;! run_card_ops ops' end.

(** What can come of operations: an outcome in the transaction, or a store past [pt_algs] by one of the selections among them. *)
Definition session_outcome {A} (selects : Prop) (x : res stop A * world) : Prop :=
  match x with
  | (Ok _, w') | (Er _, w') => pt_intxn (w_tok w') = true
  | (Panic, _) => False
  | (Fault, w') => selects /\ 32 < pt_alg_count (w_tok w')
  end.

Lemma wp_outcome {A} (m : M stop world A) (w : world) P : wp m w in_txn_still in_txn_still -> session_outcome P (m w).
Proof. unfold wp, in_txn_still. by destruct (m w) as [[] ?]. Qed.

Lemma select_outcome (w : world) : pt_intxn (w_tok w) = true -> session_outcome True (piv_select fuel w).
Proof.
  intros Ht. unfold piv_select. rewrite (cbind_ok in_txn _ _ _ _ (in_txn_run w Ht)).
  assert (apdu_ready (with_cmd AID_PIV (piv_apdu_make CLA_ISO INS_SELECT SEL_APP_AID 0))) as Ha by (apply with_cmd_ready; [done|by vm_compute]).
  pose proof (chain_keeps _ w ioerrf Ht Ha) as H. unfold wp in H. unfold cbind at 1. destruct (onerr _ _ w) as [[a|e| |] w1]; try done; cbn.
  2: { destruct H. congruence. }
  destruct H as [Hw Hr]. rewrite <- Hw in Ht. case_match; [|done].
  pose proof (template_reply PIV_TAG_APT select_member_bounded a w1 select_member_safe Hr) as Hsafe.
  assert (overflows_or (template PIV_TAG_APT select_member) (template PIV_TAG_APT select_member_bounded)) as Ho.
  { apply overflows_bind; [apply overflows_refl|]. intros tag. apply overflows_bind; [apply overflows_refl|]. intros _.
    apply overflows_bind; [apply overflows_tags, select_member_overflows|intros; apply overflows_refl]. }
  apply keeps_still in Hsafe; [|done]. apply (wp_outcome _ _ True) in Hsafe. unfold parse_reply in *. destruct (b_data (a_reply a)) as [d|]; [|done].
  destruct (Ho (tlv_init d (b_offset (a_reply a)) (b_len (a_reply a)), w_tok w1)) as [->|([ts' t'] & -> & Hc)]; [done|]. done.
Qed.

Lemma card_ops_safe {C : Crypto} ops : forall w : world, pt_intxn (w_tok w) = true -> Forall card_op_ok ops ->
  session_outcome (OSelect ∈ ops) (run_card_ops ops w).
Proof.
  induction ops as [|op ops IH]; intros w Ht Hops; cbn [run_card_ops]; [done|]. apply Forall_cons in Hops as [Hop Hops].
  assert (session_outcome (op = OSelect) (run_card_op op w)) as H.
  { destruct (match op with OSelect => true | _ => false end) eqn:Eq.
    - destruct op; try done. pose proof (select_outcome w Ht) as H. cbn [run_card_op]. destruct (piv_select fuel w) as [[] ?]; try done. by destruct H as [_ H].
    - apply wp_outcome, card_op_safe; [done..|]. by intros ->. }
  assert (forall w', pt_intxn (w_tok w') = true -> session_outcome (OSelect ∈ op :: ops) (run_card_ops ops w')) as Hrest.
  { intros w' Ht'. specialize (IH w' Ht' Hops). destruct (run_card_ops ops w') as [[] ?]; try done. destruct IH. split; [by right|done]. }
  unfold cbind, attempt. destruct (run_card_op op w) as [[?|[]| |] w']; cbn in H |- *; try done; try by apply Hrest.
  destruct H as [-> H]. split; [by left|done].
Qed.
End Parse.

(** C7: a sequence of operations in a transaction (selecting the applet; reading and parsing the CHUID, the discovery object, the key history,
    files, version and serial number; writing files; PIN and management commands), on a card that answers whatever it likes, byte by byte: no
    [VERIFY] fails, errors are returned, and the token is in the transaction afterwards; nothing is read or written outside a buffer, except that a selection in the
    sequence stores past the 32 places of [pt_algs] when the card lists more algorithms than that ([select_33_algs_overflow] is such a card). An operation that
    stops with [Exhausted] met a card that never completes its answer. The caller keeps to 32-bit tags, files that fit
    the command buffer and admin keys below 2^62 bytes ([card_op_ok]); the reader returns 2 bytes or more, within the room it is given ([ReaderLaws]). *)
Theorem card_session_safe {X : Certs} {R : Reader} {C : Crypto} (L : ReaderLaws R) fuel
    (ops : list card_op) (w : world) :
  pt_intxn (w_tok w) = true -> Forall card_op_ok ops ->
  match run_card_ops fuel ops w with
  | (Ok _, w') | (Er _, w') => pt_intxn (w_tok w') = true
  | (Panic, _) => False
  | (Fault, w') => OSelect ∈ ops /\ 32 < pt_alg_count (w_tok w')
  end.
Proof. exact (card_ops_safe fuel ops w). Qed.

(** A card that plays back a list of answers; an answer that is not one is a transport error. *)
Definition script_reader : Reader := {|
  card := list (list Z);
  SCardTransmit := fun cmd room c =>
    match c with
    | [] => (inl 1, [])
    | r :: c' => (if bytesb r && (2 <=? zlen r) && (zlen r <=? room) then inr r else inl 1, c')
    end;
  SCardBeginTransaction := fun c => (SCARD_S_SUCCESS, c);
  SCardReconnect := fun c => (SCARD_S_SUCCESS, c);
  SCardEndTransaction := fun _ c => (SCARD_S_SUCCESS, c)
|}.
Lemma script_laws : ReaderLaws script_reader.
Proof.
  constructor. intros cmd room c r c' H. cbn in H. destruct c as [|r0 c0]; [done|].
  destruct (bytesb r0 && _ && _) eqn:Hb; [|done]. injection H as <- <-.
  apply andb_true_iff in Hb as [Hb ?]. apply andb_true_iff in Hb as [?%bytesb_spec ?]. split; [done|lia].
Qed.

(** An answer to SELECT with one algorithm, a truncated CHUID, a discovery object with an unknown tag and a wrong PIN. *)
Lemma card_session_safe_witness :
  let w := World (R := script_reader) (set_txn true false (piv_token_calloc (X := no_certs)))
             [[97; 5; 172; 3; 128; 1; 17; 144; 0]; [83; 18; 52; 16; 1; 2; 144; 0]; [126; 2; 1; 0; 144; 0]; [99; 195]; [99; 194]] in
  match run_card_ops 9 [OSelect; OChuid; ODiscov; OVerify 128 (Some [49]) (Some 1) false] w with
  | (Ok _, w') | (Er _, w') => pt_intxn (w_tok w') = true
  | (Panic, _) => False
  | (Fault, w') => OSelect ∈ [OSelect; OChuid; ODiscov; OVerify 128 (Some [49]) (Some 1) false] /\ 32 < pt_alg_count (w_tok w')
  end.
Proof.
  apply (card_session_safe script_laws 9 [OSelect; OChuid; ODiscov; OVerify 128 (Some [49]) (Some 1) false]).
  - reflexivity.
  - repeat (apply Forall_cons_2; [exact I|]). apply Forall_nil_2.
Defined.
