(* ===== verification/PivStore.v ===== *)
(** * Files on a card: what is written is what is read (piv.c)

    [file_applet] is the data object store of a PIV card: GET DATA and PUT DATA on objects named
    by the bytes of their tag, writing only after the admin key was used. On such a
    card, behind any conforming transport, the file functions of PivFiles.v are a store:
    reading gives back what was written last under the tag. *)
From stdpp Require Import base list strings gmap.
From Stdlib Require Import ZArith Lia.
From S2P Require Import Prelude Errf Tlv PivBox PivToken Apdu ApduChain PivPin PivFiles PivParse.

Local Open Scope list_scope.
Local Open Scope Z_scope.
Local Open Scope c_scope.

(** ** The card *)

Record file_state := Files { fs_files : gmap (list Z) (list Z); fs_admin : bool }.

Definition file_exec (cla ins p1 p2 : Z) (data : list Z) (s : file_state) : (list Z * Z) * file_state :=
  match data with
  | 92 :: n :: rest =>
      let tag := take (Z.to_nat n) rest in
      let obj := drop (Z.to_nat n) rest in
      if ins =? INS_PUT_DATA then
        if fs_admin s then (([], SW_NO_ERROR), Files (<[tag := obj]> (fs_files s)) true)
        else (([], SW_SECURITY_STATUS_NOT_SATISFIED), s)
      else if ins =? INS_GET_DATA then
        match fs_files s !! tag with
        | Some obj => ((obj, SW_NO_ERROR), s)
        | None => (([], SW_FILE_NOT_FOUND), s)
        end
      else (([], SW_INS_NOT_SUP), s)
  | _ => (([], SW_WRONG_DATA), s)
  end.

#[global] Instance file_applet : Applet := {|
  app := file_state;
  app_exec := file_exec;
  app_reset := fun s => Files (fs_files s) false
|}.

(** The tag as the card knows it. *)
Lemma tag_list_bytes tag : tlv_object 92 127 (short_be tag) = 92 :: zlen (short_be tag) :: short_be tag.
Proof. reflexivity. Qed.

Lemma file_get tag s : file_exec CLA_ISO INS_GET_DATA 63 255 (tlv_object 92 127 (short_be tag)) s
  = match fs_files s !! short_be tag with
    | Some obj => ((obj, SW_NO_ERROR), s) | None => (([], SW_FILE_NOT_FOUND), s) end.
Proof.
  rewrite tag_list_bytes. unfold file_exec. cbn [Z.eqb Pos.eqb].
  change (INS_GET_DATA =? INS_PUT_DATA) with false. change (INS_GET_DATA =? INS_GET_DATA) with true.
  cbv iota. rewrite take_ge by (unfold zlen; lia). done.
Qed.

Lemma file_put tag data s : file_exec CLA_ISO INS_PUT_DATA 63 255 (put_data_bytes tag data) s
  = if fs_admin s
    then (([], SW_NO_ERROR), Files (<[short_be tag := tlv_object 83 (zlen data + 8) data]> (fs_files s)) true)
    else (([], SW_SECURITY_STATUS_NOT_SATISFIED), s).
Proof.
  unfold put_data_bytes. rewrite tag_list_bytes. cbn [Datatypes.app]. unfold file_exec.
  change (INS_PUT_DATA =? INS_PUT_DATA) with true. cbv iota.
  assert (length (short_be tag) = Z.to_nat (zlen (short_be tag))) as <- by (unfold zlen; lia).
  by rewrite take_app_length, drop_app_length.
Qed.

Lemma short_be_inj a b : 0 <= a < 2 ^ 32 -> 0 <= b < 2 ^ 32 -> short_be a = short_be b -> a = b.
Proof. intros Ha Hb E. rewrite <- (be_val_short_be a), <- (be_val_short_be b) by done. by rewrite E. Qed.

(** ** Parsing an answer *)

Section Answer.
Context {X : Certs} {R : Reader}.

Lemma answered_reader a reply sw : answered a reply sw ->
  exists d, b_data (a_reply a) = Some d /\ b_offset (a_reply a) = 0 /\ b_len (a_reply a) = zlen reply
    /\ reader_ok (tlv_init d 0 (zlen reply)) /\ tlv_rest (tlv_init d 0 (zlen reply)) = reply.
Proof.
  intros (_ & d & Hr & Hz & Hs & Hb). rewrite Hr. exists d. cbn [b_data b_offset b_len].
  assert (zlen reply <= zlen d) as Hl.
  { rewrite <- Hs at 1. rewrite zslice_0. unfold zlen. rewrite length_take. lia. }
  pose proof (zlen_nonneg reply). unfold MAX_APDU_SIZE in *. split_and!; try done.
  - apply tlv_init_reader; done || lia.
  - unfold tlv_rest, ts_now, tlv_init. cbn [ts_buf ts_pos ts_stack ts_root tc_end].
    by rewrite Z.add_0_l, wrap_small, Z.sub_0_r by lia.
Qed.

(** A parser that succeeds on the answer and closes every context. *)
Lemma parse_answered {A} a reply sw (m : M errf_t pstate A) (v : A) (t t' : piv_token) c :
  answered a reply sw ->
  (forall ts, reader_ok ts -> ts_stack ts = [] -> tlv_rest ts = reply ->
     exists ts', m (ts, t) = (Ok v, (ts', t')) /\ ts_stack ts' = []) ->
  parse_reply a m (World t c) = (Ok v, World t' c).
Proof.
  intros Ha Hm. destruct (answered_reader a reply sw Ha) as (d & Hd & Ho & Hl & Hok & Hrest).
  unfold parse_reply. rewrite Hd, Ho, Hl. cbn [w_tok].
  destruct (Hm _ Hok eq_refl Hrest) as (ts' & -> & Hst).
  destruct (tlv_free_empty ts' Hst) as (ts'' & ->). done.
Qed.

Lemma tl_run {A} (m : T A) ts t v ts' : m ts = (Ok v, ts') -> tl m (ts, t) = (Ok v, (ts', t)).
Proof. intros H. unfold tl. cbn. by rewrite H. Qed.
End Answer.

Section Store.
Context {X : Certs} (tr : transport) (Htr : transport_ok tr) (fuel : nat).
Local Abbreviation W := (World (R := iso_reader (A := file_applet) tr)).
Local Abbreviation Ic := (Iso (A := file_applet)).

(** A command to the file card and its answer. *)
Lemma file_command t s s' ins data reply sw out0 sw0 :
  pt_intxn t = true -> ins = INS_GET_DATA \/ ins = INS_PUT_DATA -> data <> [] -> zlen data < 2 ^ 63 ->
  file_exec CLA_ISO ins 63 255 data s = ((reply, sw), s') -> final_sw sw -> bytes reply ->
  zlen reply + 2 <= MAX_APDU_SIZE -> (length data + 1 < fuel)%nat -> (length reply + 1 < fuel)%nat ->
  exists a', onerr ioerrf (piv_apdu_transceive_chain fuel (with_cmd data (piv_apdu_make CLA_ISO ins 63 255)))
               (W t (Ic s [] out0 sw0)) = (Ok a', W t (Ic s' [] [] sw)) /\ answered a' reply sw.
Proof.
  intros Ht Hi Hne Hd He Hsw Hb Hm Hf1 Hf2. rewrite <- command_cons by done.
  destruct (chain_exec (A := file_applet) tr Htr t ins 63 255 data s s' reply sw Ht Hsw Hm Hb He) with (fuel := fuel)
    (out0 := out0) (sw0 := sw0) as (a' & Hx & Ha); try done; try (destruct Hi as [-> | ->]; done).
  exists a'. split; [by apply onerr_ok|done].
Qed.

Lemma get_data_exec t s tag reply sw out0 sw0 :
  pt_intxn t = true -> 0 <= tag < 2 ^ 32 -> (7 < fuel)%nat -> (length reply + 1 < fuel)%nat ->
  match fs_files s !! short_be tag with
  | Some obj => reply = obj /\ sw = SW_NO_ERROR /\ bytes obj /\ zlen obj + 2 <= MAX_APDU_SIZE
  | None => reply = [] /\ sw = SW_FILE_NOT_FOUND
  end ->
  exists a', get_data fuel tag (W t (Ic s [] out0 sw0)) = (Ok a', W t (Ic s [] [] sw)) /\ answered a' reply sw.
Proof.
  intros Ht Hg Hf Hf2 Hr. unfold get_data. rewrite (cbind_ok _ _ _ _ _ (in_txn_run (W t (Ic s [] out0 sw0)) Ht)).
  pose proof (zlen_tag_list tag) as Hz. unfold MAX_APDU_SIZE in *.
  rewrite (cbind_ok _ _ _ _ _ (tlv_build_ok _ _ _ (tag_list_emits tag Hg) ltac:(unfold MAX_APDU_SIZE; lia))).
  pose proof (file_get tag s) as Hget.
  apply file_command; try done; try (by left).
  - lia.
  - rewrite Hget. destruct (fs_files s !! short_be tag); [destruct Hr as (-> & -> & _)|destruct Hr as [-> ->]]; done.
  - destruct (fs_files s !! short_be tag); [destruct Hr as (_ & -> & _)|destruct Hr as [_ ->]];
      unfold final_sw; split_and!; vm_compute; congruence.
  - destruct (fs_files s !! short_be tag); [by destruct Hr as (-> & _ & ? & _)|destruct Hr as [-> _]; by apply Forall_nil_2].
  - unfold MAX_APDU_SIZE. destruct (fs_files s !! short_be tag); [by destruct Hr as (-> & _ & _ & ?)|by destruct Hr as [-> _]].
  - unfold zlen in Hz. lia.
Qed.


Lemma parse_file ts t data ml : reader_ok ts -> ts_stack ts = [] -> zlen data < len_limit ml ->
  tlv_rest ts = tlv_object 83 ml data ->
  exists ts', (let! rtag := tl tlv_read_tag in
               guard (rtag =? 83) tagerrf ;!
               let! data := tl tlv_read_alloc in
               tl tlv_end ;! cret data) (ts, t) = (Ok data, (ts', t)) /\ ts_stack ts' = [].
Proof.
  intros Hok Hst Hl Hr. rewrite <- (app_nil_r (tlv_object 83 ml data)) in Hr.
  destruct (read_tag_enters ts 83 ml data [] Hok ltac:(lia) eq_refl Hl Hr) as (ts1 & E1 & En & Hp).
  pose proof En as (Hok1 & Hr1 & _).
  rewrite (cbind_ok _ _ _ _ _ (tl_run _ _ t _ _ E1)). change (83 =? 83) with true.
  unfold guard. rewrite cbind_ret_l.
  rewrite (cbind_ok _ _ _ _ _ (tl_run _ _ t _ _ (decodes_read_alloc data ts1 Hok1 Hr1))).
  rewrite (cbind_ok _ _ _ _ _ (tl_run _ _ t _ _ (end_leaves _ _ _ _ _ En Hp))).
  eexists. split; [reflexivity|]. exact Hst.
Qed.

(** ** The store *)

(** The object a file is kept in. *)
Definition file_object (data : list Z) : list Z := tlv_object 83 (zlen data + 8) data.
(** A file that fits the command buffer and the fuel. *)
Definition file_ok (data : list Z) : Prop :=
  bytes data /\ zlen data + 11 <= MAX_APDU_SIZE /\ (length data + 13 < fuel)%nat.

Lemma file_object_facts data : file_ok data ->
  bytes (file_object data) /\ 2 <= zlen (file_object data) <= zlen data + 5 /\ zlen data < len_limit (zlen data + 8).
Proof.
  intros (Hb & Hm & _). unfold MAX_APDU_SIZE in Hm. pose proof (zlen_nonneg data).
  assert (zlen data < len_limit (zlen data + 8)) as Hl by (unfold len_limit; repeat case_match; lia).
  split_and!; [by apply object_bytes| | |done];
    unfold file_object, tlv_object; rewrite !zlen_app, zlen_len_field; change (zlen (short_be 83)) with 1;
    unfold len_extra; repeat case_match; lia.
Qed.

Lemma write_file_exec t s tag data out0 sw0 : pt_intxn t = true -> 0 <= tag < 2 ^ 32 -> file_ok data ->
  piv_write_file fuel tag data (W t (Ic s [] out0 sw0))
  = if fs_admin s
    then (Ok tt, W t (Ic (Files (<[short_be tag := file_object data]> (fs_files s)) true) [] [] SW_NO_ERROR))
    else (Er (Err (permerrf swerrf)), W t (Ic s [] [] SW_SECURITY_STATUS_NOT_SATISFIED)).
Proof.
  intros Ht Hg (Hb & Hm & Hf). unfold piv_write_file, MAX_APDU_SIZE in *. pose proof (zlen_nonneg data).
  rewrite (cbind_ok _ _ _ _ _ (in_txn_run (W t (Ic s [] out0 sw0)) Ht)), wrap_small by lia.
  destruct (write_file_emits tag data Hg ltac:(lia)) as [He Hz].
  rewrite (cbind_ok _ _ _ _ _ (tlv_build_ok _ _ _ He ltac:(unfold MAX_APDU_SIZE; lia))).
  assert (forall s' sw, file_exec CLA_ISO INS_PUT_DATA 63 255 (put_data_bytes tag data) s = (([], sw), s') -> final_sw sw ->
    exists a, onerr ioerrf (piv_apdu_transceive_chain fuel
                (with_cmd (put_data_bytes tag data) (piv_apdu_make CLA_ISO INS_PUT_DATA 63 255)))
                (W t (Ic s [] out0 sw0)) = (Ok a, W t (Ic s' [] [] sw)) /\ a_sw a = sw) as Hcmd.
  { intros s' sw He' Hsw. destruct (file_command t s s' INS_PUT_DATA (put_data_bytes tag data) [] sw out0 sw0)
      as (a & Hx & Ha & _); [done|by right| |lia|done|done|by apply Forall_nil_2|done|unfold zlen in *; lia|cbn; lia|by exists a].
    intros E. rewrite E, zlen_nil in Hz. lia. }
  pose proof (file_put tag data s) as Hput. unfold file_object. destruct (fs_admin s).
  - destruct (Hcmd _ _ Hput) as (a & Hx & Ha); [by (unfold final_sw; split_and!; vm_compute; congruence)|].
    by rewrite (cbind_ok _ _ _ _ _ Hx), Ha.
  - destruct (Hcmd _ _ Hput) as (a & Hx & Ha); [by (unfold final_sw; split_and!; vm_compute; congruence)|].
    by rewrite (cbind_ok _ _ _ _ _ Hx), Ha.
Qed.

Lemma read_file_exec t s tag out0 sw0 (r : option (list Z)) : pt_intxn t = true -> 0 <= tag < 2 ^ 32 ->
  (7 < fuel)%nat -> fs_files s !! short_be tag = file_object <$> r ->
  (forall data, r = Some data -> file_ok data) ->
  exists sw1, piv_read_file fuel tag (W t (Ic s [] out0 sw0))
  = (match r with Some data => Ok data | None => Er (Err (notfounderrf swerrf)) end, W t (Ic s [] [] sw1)).
Proof.
  intros Ht Hg Hf Hs Hok. unfold piv_read_file. destruct r as [data|]; cbn [fmap option_fmap option_map] in Hs.
  - specialize (Hok _ eq_refl). destruct (file_object_facts data Hok) as (Hb & Hz & Hl).
    destruct Hok as (_ & Hm & Hf2). unfold MAX_APDU_SIZE in Hm.
    destruct (get_data_exec t s tag (file_object data) SW_NO_ERROR out0 sw0 Ht Hg Hf) as (a & Hx & Ha).
    { unfold zlen in *. lia. }
    { rewrite Hs. unfold MAX_APDU_SIZE. split_and!; try done. lia. }
    exists SW_NO_ERROR. rewrite (cbind_ok _ _ _ _ _ Hx). pose proof Ha as [-> _].
    change (sw_has_data SW_NO_ERROR) with true. cbv iota.
    destruct (answered_reader a _ _ Ha) as (_ & _ & _ & Hlen & _). rewrite Hlen, (proj2 (Z.ltb_ge _ _)) by lia.
    apply (parse_answered a (file_object data) SW_NO_ERROR); [done|].
    intros ts Hts Hst Hr. by apply (parse_file ts t data (zlen data + 8)).
  - destruct (get_data_exec t s tag [] SW_FILE_NOT_FOUND out0 sw0 Ht Hg Hf) as (a & Hx & Ha & _).
    { cbn. lia. }
    { by rewrite Hs. }
    exists SW_FILE_NOT_FOUND. by rewrite (cbind_ok _ _ _ _ _ Hx), Ha.
Qed.

(** ** The specification: a map from tags to files *)

Inductive file_op := FRead (tag : Z) | FWrite (tag : Z) (data : list Z).
Definition file_result : Type := errf_t + option (list Z).

Fixpoint file_spec (ops : list file_op) (m : gmap Z (list Z)) : list file_result * gmap Z (list Z) :=
  match ops with
  | [] => ([], m)
  | FRead tag :: ops' =>
      let '(rs, m') := file_spec ops' m in
      (match m !! tag with Some data => inr (Some data) | None => inl (notfounderrf swerrf) end :: rs, m')
  | FWrite tag data :: ops' =>
      let '(rs, m') := file_spec ops' (<[tag := data]> m) in (inr None :: rs, m')
  end.

Definition run_file_op (op : file_op) : M stop (world (R := iso_reader (A := file_applet) tr)) (option (list Z)) :=
  match op with
  | FRead tag => let! data := piv_read_file fuel tag in cret (Some data)
  | FWrite tag data => piv_write_file fuel tag data ;! cret None
  end.
Fixpoint run_file_ops (ops : list file_op)
    : M stop (world (R := iso_reader (A := file_applet) tr)) (list file_result) :=
  match ops with
  | [] => cret []
  | op :: ops' =>
      let! r := attempt (run_file_op op) in
      let! rs := run_file_ops ops' in
      cret (r :: rs)
  end.

Definition file_op_ok (op : file_op) : Prop :=
  match op with
  | FRead tag => 0 <= tag < 2 ^ 32
  | FWrite tag data => 0 <= tag < 2 ^ 32 /\ file_ok data
  end.

(** The card [s] stores the files [m]. *)
Definition stores (s : file_state) (m : gmap Z (list Z)) : Prop :=
  (forall tag, 0 <= tag < 2 ^ 32 -> fs_files s !! short_be tag = file_object <$> (m !! tag))
  /\ (forall tag data, m !! tag = Some data -> file_ok data).

Lemma stores_insert s m tag data : stores s m -> 0 <= tag < 2 ^ 32 -> file_ok data ->
  stores (Files (<[short_be tag := file_object data]> (fs_files s)) true) (<[tag := data]> m).
Proof.
  intros [Hs Hm] Ht Hd. split.
  - intros tag' Ht'. cbn. destruct (decide (tag' = tag)) as [->|Hne]; [by rewrite !lookup_insert_eq|].
    rewrite !lookup_insert_ne by (try done; intros E%short_be_inj; congruence). by apply Hs.
  - intros tag' data' H. apply lookup_insert_Some in H as [[_ <-]|[_ H]]; eauto.
Qed.

Lemma file_session ops : (7 < fuel)%nat -> forall t s m out0 sw0,
  pt_intxn t = true -> fs_admin s = true -> stores s m -> Forall file_op_ok ops ->
  exists s' sw1 out1, run_file_ops ops (W t (Ic s [] out0 sw0)) = (Ok (fst (file_spec ops m)), W t (Ic s' [] out1 sw1))
    /\ stores s' (snd (file_spec ops m)).
Proof.
  intros Hf. induction ops as [|op ops IH]; intros t s m out0 sw0 Ht Ha Hs Hops.
  { by eexists s, _, _. }
  apply Forall_cons in Hops as [Hop Hops]. destruct op as [tag|tag data]; cbn [file_op_ok] in Hop; cbn [run_file_ops file_spec].
  - destruct (read_file_exec t s tag out0 sw0 (m !! tag) Ht Hop Hf (proj1 Hs tag Hop) (proj2 Hs tag)) as (sw1 & Hx).
    assert (attempt (run_file_op (FRead tag)) (W t (Ic s [] out0 sw0))
            = (Ok (match m !! tag with Some data => inr (Some data) | None => inl (notfounderrf swerrf) end),
               W t (Ic s [] [] sw1))) as Hat.
    { unfold attempt, run_file_op, cbind. rewrite Hx. by destruct (m !! tag). }
    rewrite (cbind_ok _ _ _ _ _ Hat).
    destruct (IH t s m [] sw1 Ht Ha Hs Hops) as (s' & sw2 & out2 & Hr & Hs').
    destruct (file_spec ops m) as [rs m']. cbn [fst snd] in *. exists s', sw2, out2.
    by rewrite (cbind_ok _ _ _ _ _ Hr).
  - destruct Hop as [Htag Hd]. pose proof (write_file_exec t s tag data out0 sw0 Ht Htag Hd) as Hx. rewrite Ha in Hx.
    set (s1 := Files _ _) in Hx.
    assert (attempt (run_file_op (FWrite tag data)) (W t (Ic s [] out0 sw0)) = (Ok (inr None), W t (Ic s1 [] [] SW_NO_ERROR))) as Hat.
    { unfold attempt, run_file_op, cbind. by rewrite Hx. }
    rewrite (cbind_ok _ _ _ _ _ Hat).
    destruct (IH t s1 (<[tag := data]> m) [] SW_NO_ERROR Ht eq_refl) as (s' & sw2 & out2 & Hr & Hs'); [by apply stores_insert|done|].
    destruct (file_spec ops (<[tag := data]> m)) as [rs m']. cbn [fst snd] in *. exists s', sw2, out2.
    by rewrite (cbind_ok _ _ _ _ _ Hr).
Qed.
End Store.

(** C10: on a card with a PIV data object store, unlocked for writing, behind any conforming
    transport, any sequence of [piv_write_file] and [piv_read_file] behaves as the same
    sequence on a map from tags to files: a read returns exactly the bytes
    written last under its tag, whatever was written under other tags, and
    NotFoundError where nothing was. Files up to 16373 bytes. *)
Theorem file_session_refines {X : Certs} (tr : transport) fuel (ops : list file_op) (t : piv_token)
    (s : file_state) (m : gmap Z (list Z)) (out0 : list Z) (sw0 : Z) :
  transport_ok tr -> (7 < fuel)%nat -> pt_intxn t = true -> fs_admin s = true -> stores fuel s m ->
  Forall (file_op_ok fuel) ops ->
  exists s' sw1 out1,
    run_file_ops tr fuel ops (World (R := iso_reader (A := file_applet) tr) t (Iso (A := file_applet) s [] out0 sw0))
    = (Ok (fst (file_spec ops m)),
       World (R := iso_reader (A := file_applet) tr) t (Iso (A := file_applet) s' [] out1 sw1))
    /\ stores fuel s' (snd (file_spec ops m)).
Proof. intros Htr Hf. exact (file_session tr Htr fuel ops Hf t s m out0 sw0). Qed.

(** Two files of 300 and 3 bytes, one replaced, and one that is not there. *)
Lemma file_session_refines_witness :
  let ops := [FWrite 6275335 (zrepeat 300 7); FWrite 6275330 [1; 2; 3]; FRead 6275335; FWrite 6275335 [];
              FRead 6275335; FRead 6275330; FRead 126] in
  fst (file_spec ops ∅)
    = [inr None; inr None; inr (Some (zrepeat 300 7)); inr None; inr (Some []); inr (Some [1; 2; 3]);
       inl (notfounderrf swerrf)]
  /\ exists s' sw1 out1,
    run_file_ops (X := no_certs) (Transport 100 true) 400 ops
      (World (R := iso_reader (A := file_applet) (Transport 100 true)) (set_txn true false piv_token_calloc)
         (Iso (A := file_applet) (Files ∅ true) [] [] 0))
    = (Ok (fst (file_spec ops ∅)),
       World (R := iso_reader (A := file_applet) (Transport 100 true)) (set_txn true false piv_token_calloc)
         (Iso (A := file_applet) s' [] out1 sw1))
    /\ stores 400 s' (snd (file_spec ops ∅)).
Proof.
  intros ops. split; [vm_compute; reflexivity|].
  apply (@file_session_refines no_certs (Transport 100 true) 400 ops (set_txn true false piv_token_calloc)
           (Files ∅ true) ∅ [] 0).
  - unfold transport_ok. cbn. lia.
  - lia.
  - reflexivity.
  - reflexivity.
  - split; [reflexivity|]. intros tag data H. discriminate H.
  - repeat (apply Forall_cons_2; [cbn [file_op_ok]; unfold file_ok; split_and!;
      solve [apply bytesb_spec; vm_compute; reflexivity | vm_compute; congruence | vm_compute; lia]|]).
    apply Forall_nil_2.
Defined.
