(* ===== verification/PivObjects.v ===== *)
(** * What the parsers of the card objects compute (piv.c)

    A template that holds objects of known tags is read member by member; each member has
    its effect on the token. From this: the key history written by [piv_write_keyhistory]
    is the one [piv_read_keyhist] reads, and a CHUID gives a token its fields and its GUID. *)
From stdpp Require Import base list strings gmap.
From Stdlib Require Import ZArith Lia.
From S2P Require Import Prelude Errf Tlv PivBox PivToken Apdu ApduChain PivPin PivFiles PivParse PivStore.

Local Open Scope list_scope.
Local Open Scope Z_scope.
Local Open Scope c_scope.

(** ** Strings *)

Lemma rest_cons ts b r : reader_ok ts -> tlv_rest ts = b :: r ->
  zget (ts_buf ts) (ts_pos ts) = Some b /\ reader_ok (advance ts 1) /\ tlv_rest (advance ts 1) = r.
Proof.
  intros Hok Hr. pose proof (decodes_getc b ts r Hok Hr) as Hg.
  destruct (rest_advance ts [b] r Hok Hr) as [Hok1 Hr1]. change (zlen [b]) with 1 in *.
  split; [|done]. unfold getc in Hg. destruct (zget _ _); [|done]. by injection Hg as ->.
Qed.

Lemma decodes_string_loop bs : Forall (fun b => b <> 0) bs -> forall acc,
  decodes (string_loop (length bs) acc) bs (acc ++ bs).
Proof.
  induction bs as [|b bs IH]; intros Hn acc; cbn [length string_loop].
  { rewrite app_nil_r. apply decodes_ret. }
  apply Forall_cons in Hn as [Hb Hn]. intros ts rest Hok Hr.
  destruct (rest_cons ts b (bs ++ rest) Hok Hr) as (Hg & Hok1 & Hr1).
  rewrite (cbind_ok (cgets ts_pos) _ ts (ts_pos ts) ts eq_refl).
  assert (peekat (ts_pos ts) ts = (Ok b, ts)) as Hp by (unfold peekat; by rewrite Hg).
  rewrite (cbind_ok _ _ _ _ _ Hp). unfold guard.
  destruct (Z.eqb_spec b 0); [done|]. cbn [negb]. rewrite cbind_ret_l.
  rewrite (cbind_ok _ _ _ _ _ (decodes_getc b ts (bs ++ rest) Hok Hr)).
  change (zlen [b]) with 1. rewrite (IH Hn (acc ++ [b]) (advance ts 1) rest Hok1 Hr1), <- app_assoc, advance_advance.
  by rewrite zlen_cons.
Qed.

Lemma decodes_string bs : Forall (fun b => b <> 0) bs -> decodes_all tlv_read_string bs bs.
Proof.
  intros Hn ts Hok Hr. unfold tlv_read_string. rewrite (cbind_ok cget _ ts ts ts eq_refl).
  rewrite tlv_rem_reader by done. rewrite <- zlen_rest by done. rewrite Hr. unfold zlen. rewrite Nat2Z.id.
  pose proof (decodes_string_loop bs Hn [] ts [] Hok) as H. rewrite app_nil_r in H. exact (H Hr).
Qed.

(** ** Members *)

Section Members.
Context {X : Certs}.

(** A tag, the length the writer reserved for, and the contents. *)
Definition object : Type := Z * Z * list Z.
Definition obj_bytes (o : object) : list Z := let '(tag, ml, bs) := o in tlv_object tag ml bs.
Definition obj_ok (o : object) : Prop :=
  let '(tag, ml, bs) := o in 0 <= tag < 2 ^ 32 /\ tag_wf (short_be tag) = true /\ zlen bs < len_limit ml.

(** [body] on an object takes the token from [t] to [t']. *)
Definition member_reads (body : Z -> M errf_t pstate unit) (o : object) (t t' : piv_token) : Prop :=
  let '(tag, ml, bs) := o in
  forall ts ts1 rest, enters ts ts1 bs rest -> ts_pos ts1 + zlen bs = ts_pos ts + zlen (obj_bytes o) ->
    body tag (ts1, t) = (Ok tt, (advance ts (zlen (obj_bytes o)), t')).

(** A value read, an assignment, the end of the context. *)
Lemma reads_value {A} (m : T A) (f : A -> piv_token -> piv_token) bs v ts ts1 rest n t :
  decodes_all m bs v -> enters ts ts1 bs rest -> ts_pos ts1 + zlen bs = ts_pos ts + n ->
  (let! x := tl m in tk (f x) ;! tl tlv_end) (ts1, t) = (Ok tt, (advance ts n, f v t)).
Proof.
  intros Hd He Hp. pose proof He as (Hok & Hr & _).
  rewrite (cbind_ok _ _ _ _ _ (tl_run _ _ t _ _ (Hd ts1 Hok Hr))).
  rewrite (cbind_ok (tk (f v)) _ (advance ts1 (zlen bs), t) tt (advance ts1 (zlen bs), f v t) eq_refl).
  apply tl_run. exact (end_leaves _ _ _ _ _ He Hp).
Qed.

Lemma skip_leaves ts ts1 bs rest n : enters ts ts1 bs rest -> ts_pos ts1 + zlen bs = ts_pos ts + n ->
  tlv_skip ts1 = (Ok tt, advance ts n).
Proof.
  intros (Hok & _ & tc & Hst & He & Hb & Hbuf & Hroot & Hf & Hd) Hp. unfold tlv_skip.
  assert (tlv_ctx_pop ts1 = (Ok tc, with_stack ts1 (ts_stack ts))) as E by (unfold tlv_ctx_pop; by rewrite Hst).
  rewrite (cbind_ok _ _ _ _ _ E). rewrite (cbind_ok (cgets ts_pos) _ (with_stack ts1 (ts_stack ts)) (ts_pos ts1) (with_stack ts1 (ts_stack ts)) eq_refl).
  pose proof (zlen_nonneg bs).
  unfold verify. replace (tc_begin tc <=? ts_pos ts1) with true by lia. rewrite cbind_ret_l.
  replace (ts_pos ts1 <=? tc_end tc) with true by lia. rewrite cbind_ret_l.
  unfold cmodify, advance, with_pos, with_stack. cbn. by rewrite Hroot, Hbuf, Hf, Hd, He, Hp.
Qed.

Inductive members (body : Z -> M errf_t pstate unit) : list object -> piv_token -> piv_token -> Prop :=
| members_nil t : members body [] t t
| members_cons o os t t1 t2 :
    obj_ok o -> member_reads body o t t1 -> members body os t1 t2 -> members body (o :: os) t t2.

Definition objs_bytes (os : list object) : list Z := concat (obj_bytes <$> os).

Lemma at_end_nil ts : reader_ok ts -> tlv_rest ts = [] -> tlv_at_end ts = true.
Proof.
  intros Hok Hr. rewrite tlv_at_end_reader by done. pose proof (zlen_rest ts Hok) as Hz.
  rewrite Hr, zlen_nil in Hz. lia.
Qed.

Lemma object_nonempty tag ml bs : tag_wf (short_be tag) = true -> exists b r, tlv_object tag ml bs = b :: r.
Proof. intros H. unfold tlv_object. destruct (short_be tag) as [|b r]; [done|]. by eexists b, _. Qed.

Lemma each_tag_members body os t t' : members body os t t' -> forall n ts,
  (length os <= n)%nat -> reader_ok ts -> tlv_rest ts = objs_bytes os ->
  each_tag n body (ts, t) = (Ok tt, (advance ts (zlen (objs_bytes os)), t')).
Proof.
  induction 1 as [t|[[tag ml] bs] os t t1 t2 Ho Hm _ IH]; intros n ts Hn Hok Hr.
  - assert (tlv_at_end ts = true) as He by (by apply at_end_nil).
    destruct n; cbn [each_tag]; rewrite (cbind_ok (cgets fst) _ (ts, t) ts (ts, t) eq_refl), He;
      change (zlen (objs_bytes [])) with 0; by rewrite advance_0.
  - destruct n as [|n]; [cbn in Hn; lia|]. cbn [each_tag].
    change (objs_bytes ((tag, ml, bs) :: os)) with (tlv_object tag ml bs ++ objs_bytes os) in *.
    destruct Ho as (Ht & Hwf & Hl).
    rewrite (cbind_ok (cgets fst) _ (ts, t) ts (ts, t) eq_refl).
    destruct (object_nonempty tag ml bs Hwf) as (b & r & Hob).
    rewrite (not_at_end ts b (r ++ objs_bytes os) Hok) by (by rewrite Hr, Hob).
    destruct (read_tag_enters ts tag ml bs (objs_bytes os) Hok Ht Hwf Hl Hr) as (ts1 & E1 & En & Hp).
    rewrite (cbind_ok _ _ _ _ _ (tl_run _ _ t _ _ E1)).
    rewrite (cbind_ok _ _ _ _ _ (Hm ts ts1 (objs_bytes os) En Hp)).
    destruct (rest_advance ts _ _ Hok Hr) as [Hok1 Hr1]. cbn [obj_bytes].
    rewrite IH; [|cbn in Hn; lia|done|done]. by rewrite advance_advance, zlen_app.
Qed.

Lemma length_objs os : Forall obj_ok os -> (length os <= length (objs_bytes os))%nat.
Proof.
  induction 1 as [|[[tag ml] bs] os (_ & Hwf & _) _ IH]; [done|].
  change (objs_bytes ((tag, ml, bs) :: os)) with (tlv_object tag ml bs ++ objs_bytes os).
  destruct (object_nonempty tag ml bs Hwf) as (b & r & ->). rewrite length_app. cbn. lia.
Qed.

Lemma members_ok body os t t' : members body os t t' -> Forall obj_ok os.
Proof. induction 1; constructor; auto. Qed.

(** A template of objects. *)
Lemma template_members outer ml body os t t' ts :
  members body os t t' -> obj_ok (outer, ml, objs_bytes os) -> reader_ok ts -> ts_stack ts = [] ->
  tlv_rest ts = tlv_object outer ml (objs_bytes os) ->
  exists ts', template outer body (ts, t) = (Ok tt, (ts', t')) /\ ts_stack ts' = [].
Proof.
  intros Hm (Ht & Hwf & Hl) Hok Hst Hr. rewrite <- (app_nil_r (tlv_object _ _ _)) in Hr.
  destruct (read_tag_enters ts outer ml (objs_bytes os) [] Hok Ht Hwf Hl Hr) as (ts1 & E1 & En & Hp).
  pose proof En as (Hok1 & Hr1 & _).
  unfold template. rewrite (cbind_ok _ _ _ _ _ (tl_run _ _ t _ _ E1)), Z.eqb_refl.
  unfold guard. rewrite cbind_ret_l.
  assert (tags body (ts1, t) = (Ok tt, (advance ts1 (zlen (objs_bytes os)), t'))) as E2.
  { unfold tags. rewrite (cbind_ok (cgets fst) _ (ts1, t) ts1 (ts1, t) eq_refl).
    apply each_tag_members; [done| |done|done].
    pose proof (length_objs os (members_ok _ _ _ _ Hm)). pose proof (zlen_rest ts1 Hok1) as Hz.
    reader_facts Hok1. rewrite Hr1 in Hz. unfold zlen in *. lia. }
  rewrite (cbind_ok _ _ _ _ _ E2). eexists. split; [apply tl_run; exact (end_leaves _ _ _ _ _ En Hp)|exact Hst].
Qed.
End Members.

(** ** Key history *)

Lemma emits_ext m m' bs : (forall ts, m ts = m' ts) -> emits m' bs -> emits m bs.
Proof. intros H He ts Hw Hl. rewrite H. by apply He. Qed.

Lemma emits_object_then tag ml m bs k bs' :
  0 <= tag < 2 ^ 32 -> ml < 2 ^ 24 -> zlen bs < len_limit ml -> emits m bs -> emits k bs' ->
  emits (tlv_pushl tag ml ;! m ;! tlv_pop ;! k) (tlv_object tag ml bs ++ bs').
Proof.
  intros Ht Hm Hl He Hk. apply (emits_ext _ ((tlv_pushl tag ml ;! m ;! tlv_pop) ;! k)).
  - intros ts. unfold cbind. destruct (tlv_pushl tag ml ts) as [[] ts1]; try done. by destruct (m ts1) as [[] ?].
  - apply emits_seq; [by apply emits_object|done].
Qed.

(** The objects of a key history. *)
Definition hist_objs (on off : Z) (url : list Z) : list object :=
  [(193, 127, short_be on); (194, 127, short_be off); (243, 127, url)].

Section KeyHist.
Context {X : Certs} (tr : transport) (Htr : transport_ok tr) (fuel : nat).
Local Abbreviation W := (World (R := iso_reader (A := file_applet) tr)).
Local Abbreviation Ic := (Iso (A := file_applet)).

(** Counts in range and a URL a member can hold. *)
Definition hist_ok (on off : Z) (url : list Z) : Prop :=
  1 <= on /\ 1 <= off /\ on + off <= 20 /\ bytes url /\ Forall (fun b => b <> 0) url /\ zlen url <= 127.

Lemma short_limit v : zlen (short_be v) < len_limit 127.
Proof. change (len_limit 127) with 128. pose proof (zlen_short_be v). lia. Qed.

Lemma hist_members on off url t : hist_ok on off url ->
  members hist_member (hist_objs on off url) t (set_hist (Hist on off (Some url)) t).
Proof.
  intros (H1 & H2 & H3 & Hb & Hn & Hl).
  assert (forall v, 1 <= v <= 20 -> u8 v = v) as Hu by (intros; apply wrap_small; lia).
  apply (members_cons _ (193, 127, short_be on) _ _ (set_hist (Hist on (pt_hist_offcard (pt_hist t)) (pt_hist_url (pt_hist t))) t)).
  { split_and!; [lia..|done|apply short_limit]. }
  { intros ts ts1 rest He Hp. rewrite <- (Hu on) at 2 by lia.
    exact (reads_value tlv_read_u8to32 (fun v t => set_hist (Hist (u8 v) (pt_hist_offcard (pt_hist t)) (pt_hist_url (pt_hist t))) t)
             _ _ _ _ _ _ _ (decodes_u8to32 on ltac:(lia)) He Hp). }
  apply (members_cons _ (194, 127, short_be off) _ _ (set_hist (Hist on off (pt_hist_url (pt_hist t))) t)).
  { split_and!; [lia..|done|apply short_limit]. }
  { intros ts ts1 rest He Hp. rewrite <- (Hu off) at 2 by lia.
    exact (reads_value tlv_read_u8to32 (fun v t => set_hist (Hist (pt_hist_oncard (pt_hist t)) (u8 v) (pt_hist_url (pt_hist t))) t)
             _ _ _ _ _ _ (set_hist (Hist on (pt_hist_offcard (pt_hist t)) (pt_hist_url (pt_hist t))) t)
             (decodes_u8to32 off ltac:(lia)) He Hp). }
  apply (members_cons _ (243, 127, url) _ _ (set_hist (Hist on off (Some url)) t)).
  { split_and!; [lia..|done|]. change (len_limit 127) with 128. lia. }
  { intros ts ts1 rest He Hp.
    exact (reads_value tlv_read_string (fun u t => set_hist (Hist (pt_hist_oncard (pt_hist t)) (pt_hist_offcard (pt_hist t)) (Some u)) t)
             _ _ _ _ _ _ (set_hist (Hist on off (pt_hist_url (pt_hist t))) t) (decodes_string url Hn) He Hp). }
  apply members_nil.
Qed.

Lemma hist_bytes on off url : hist_ok on off url ->
  bytes (objs_bytes (hist_objs on off url)) /\ 6 <= zlen (objs_bytes (hist_objs on off url)) <= 141.
Proof.
  intros (H1 & H2 & H3 & Hb & Hn & Hl).
  unfold hist_objs, objs_bytes. cbn [fmap list_fmap concat obj_bytes]. rewrite app_nil_r. split.
  - rewrite !Forall_app. split_and!; apply object_bytes; try apply short_limit; try apply short_be_bytes; try done.
    change (len_limit 127) with 128. lia.
  - rewrite !zlen_app. unfold tlv_object. rewrite !zlen_app, !zlen_len_field. change (len_extra 127) with 0.
    change (zlen (short_be 193)) with 1. change (zlen (short_be 194)) with 1. change (zlen (short_be 243)) with 1.
    pose proof (zlen_short_be on). pose proof (zlen_short_be off).
    pose proof (zlen_nonneg (short_be on)). pose proof (zlen_nonneg (short_be off)). pose proof (zlen_nonneg url). lia.
Qed.

Context (Hfuel : (200 <= fuel)%nat).

(** The card after the key history was written. *)
Definition hist_stored (on off : Z) (url : list Z) (s : file_state) : file_state :=
  Files (<[short_be PIV_TAG_KEYHIST := file_object (objs_bytes (hist_objs on off url))]> (fs_files s)) true.

Lemma hist_file_ok on off url : hist_ok on off url -> file_ok fuel (objs_bytes (hist_objs on off url)).
Proof.
  intros H. destruct (hist_bytes on off url H) as [Hb Hz]. unfold file_ok, MAX_APDU_SIZE, zlen in *.
  split_and!; [done|lia|lia].
Qed.

Lemma write_keyhist_exec t s on off url out0 sw0 : pt_intxn t = true -> fs_admin s = true -> hist_ok on off url ->
  piv_write_keyhistory fuel on off (Some url) (W t (Ic s [] out0 sw0))
  = (Ok tt, W (set_hist (Hist on off (Some url)) t) (Ic (hist_stored on off url s) [] [] SW_NO_ERROR)).
Proof.
  intros Ht Ha Hh. pose proof Hh as (H1 & H2 & H3 & Hb & Hn & Hl). unfold piv_write_keyhistory.
  rewrite (cbind_ok _ _ _ _ _ (in_txn_run (W t (Ic s [] out0 sw0)) Ht)).
  unfold guard. rewrite (wrap_small 32) by lia.
  replace (negb (_ || _ || _)) with true by lia. rewrite cbind_ret_l.
  rewrite andb_false_r. cbn [negb]. rewrite cbind_ret_l.
  assert (emits (tlv_push 193 ;! tlv_write_u8to32 on ;! tlv_pop ;! tlv_push 194 ;! tlv_write_u8to32 off ;! tlv_pop ;!
                 tlv_push 243 ;! tlv_write url ;! tlv_pop) (objs_bytes (hist_objs on off url))) as He.
  { unfold tlv_push, hist_objs, objs_bytes. cbn [fmap list_fmap concat obj_bytes]. rewrite app_nil_r.
    repeat (apply emits_object_then; [lia|lia|apply short_limit|apply emits_write_u8to32; lia|]).
    apply emits_object; [lia|lia| |apply emits_write]. change (len_limit 127) with 128. lia. }
  destruct (hist_bytes on off url Hh) as [_ Hz].
  rewrite (cbind_ok _ _ _ _ _ (tlv_build_ok _ _ _ He ltac:(unfold MAX_APDU_SIZE; lia))).
  pose proof (write_file_exec tr Htr fuel t s PIV_TAG_KEYHIST _ out0 sw0 Ht ltac:(unfold PIV_TAG_KEYHIST; lia)
                (hist_file_ok on off url Hh)) as Hw. rewrite Ha in Hw.
  rewrite (cbind_ok _ _ _ _ _ Hw). rewrite !wrap_small by lia. reflexivity.
Qed.

Lemma read_keyhist_exec t s on off url out0 sw0 : pt_intxn t = true -> hist_ok on off url ->
  piv_read_keyhist fuel (W t (Ic (hist_stored on off url s) [] out0 sw0))
  = (Ok tt, W (set_hist (Hist on off (Some url)) t) (Ic (hist_stored on off url s) [] [] SW_NO_ERROR)).
Proof.
  intros Ht Hh. unfold piv_read_keyhist. set (data := objs_bytes (hist_objs on off url)).
  destruct (file_object_facts fuel data (hist_file_ok on off url Hh)) as (Hb & Hz & Hl).
  destruct (hist_bytes on off url Hh) as [_ Hd]. fold data in Hd.
  destruct (get_data_exec tr Htr fuel t (hist_stored on off url s) PIV_TAG_KEYHIST (file_object data) SW_NO_ERROR out0 sw0 Ht)
    as (a & Hx & Ha).
  { unfold PIV_TAG_KEYHIST. lia. }
  { lia. }
  { unfold zlen in *. lia. }
  { unfold hist_stored. cbn [fs_files]. rewrite lookup_insert_eq. fold data. unfold MAX_APDU_SIZE. split_and!; try done. lia. }
  rewrite (cbind_ok _ _ _ _ _ Hx). pose proof Ha as [-> _]. change (sw_has_data SW_NO_ERROR) with true. cbv iota.
  destruct (answered_reader a _ _ Ha) as (_ & _ & _ & Hlen & _). rewrite Hlen, (proj2 (Z.ltb_ge _ _)) by lia.
  apply (parse_answered a (file_object data) SW_NO_ERROR); [done|].
  intros ts Hok Hst Hr. apply (template_members 83 (zlen data + 8) hist_member (hist_objs on off url)); try done.
  by apply hist_members.
Qed.
End KeyHist.

(** The key history written with [piv_write_keyhistory] (1 to 19 keys on and off the card,
    20 in all, and a URL of at most 127 characters) is what [piv_read_keyhist] stores in
    any handle that reads the card afterwards, and what the writing handle shows. *)
Theorem keyhist_roundtrip {X : Certs} (tr : transport) fuel (t t2 : piv_token) (s : file_state) on off url
    (out0 : list Z) (sw0 : Z) :
  transport_ok tr -> (200 <= fuel)%nat -> pt_intxn t = true -> pt_intxn t2 = true -> fs_admin s = true ->
  hist_ok on off url ->
  exists s', piv_write_keyhistory (R := iso_reader (A := file_applet) tr) fuel on off (Some url)
      (World (R := iso_reader (A := file_applet) tr) t (Iso (A := file_applet) s [] out0 sw0))
    = (Ok tt, World (R := iso_reader (A := file_applet) tr) (set_hist (Hist on off (Some url)) t)
                (Iso (A := file_applet) s' [] [] SW_NO_ERROR))
    /\ forall out1 sw1, piv_read_keyhist (R := iso_reader (A := file_applet) tr) fuel
         (World (R := iso_reader (A := file_applet) tr) t2 (Iso (A := file_applet) s' [] out1 sw1))
       = (Ok tt, World (R := iso_reader (A := file_applet) tr) (set_hist (Hist on off (Some url)) t2)
                   (Iso (A := file_applet) s' [] [] SW_NO_ERROR)).
Proof.
  intros Htr Hf Ht Ht2 Ha Hh. exists (hist_stored on off url s).
  split; [by apply write_keyhist_exec|]. intros. by apply read_keyhist_exec.
Qed.

Lemma keyhist_roundtrip_witness :
  let tr := Transport 256 false in
  let t := set_txn true false (piv_token_calloc (X := no_certs)) in
  let W := World (X := no_certs) (R := iso_reader (A := file_applet) tr) in
  exists s', piv_write_keyhistory (R := iso_reader (A := file_applet) tr) 200 3 2 (Some [104; 116; 116; 112])
      (W t (Iso (A := file_applet) (Files ∅ true) [] [] 0))
    = (Ok tt, W (set_hist (Hist 3 2 (Some [104; 116; 116; 112])) t) (Iso (A := file_applet) s' [] [] SW_NO_ERROR))
    /\ forall out1 sw1, piv_read_keyhist (R := iso_reader (A := file_applet) tr) 200 (W t (Iso (A := file_applet) s' [] out1 sw1))
       = (Ok tt, W (set_hist (Hist 3 2 (Some [104; 116; 116; 112])) t) (Iso (A := file_applet) s' [] [] SW_NO_ERROR)).
Proof.
  apply (@keyhist_roundtrip no_certs (Transport 256 false) 200 (set_txn true false piv_token_calloc)
           (set_txn true false piv_token_calloc) (Files ∅ true)).
  - unfold transport_ok. cbn. lia.
  - lia.
  - reflexivity.
  - reflexivity.
  - reflexivity.
  - unfold hist_ok. split_and!; [lia|lia|lia|apply bytesb_spec; reflexivity| |vm_compute; congruence].
    repeat (apply Forall_cons_2; [lia|]). apply Forall_nil_2.
Defined.

(** ** CHUID *)

Lemma decodes_upto n bs : 0 < zlen bs <= n -> decodes_all (tlv_read_upto n) bs bs.
Proof.
  intros Hz ts Hok Hr. unfold tlv_read_upto. rewrite (cbind_ok cget _ ts ts ts eq_refl).
  rewrite tlv_rem_reader by done. rewrite <- zlen_rest by done. rewrite Hr.
  assert ((if zlen bs <? n then zlen bs else n) = zlen bs) as -> by (destruct (Z.ltb_spec (zlen bs) n); lia).
  unfold guard. replace (zlen bs =? 0) with false by lia. cbn [negb]. rewrite cbind_ret_l.
  apply (decodes_getn bs ts []); [done|]. by rewrite app_nil_r.
Qed.
Lemma decodes_read_n n bs : zlen bs = n -> decodes_all (tlv_read n) bs bs.
Proof. intros <-. apply decodes_tlv_read. Qed.

(** A CHUID as SP 800-73-4 lays it out: FASC-N, card GUID, expiry date, card holder's UUID,
    signature and (empty) error detection code. *)
Record chuid_file := ChuidFile {
  cf_fascn : list Z; cf_guid : list Z; cf_expiry : list Z; cf_chuuid : list Z; cf_sig : list Z
}.
Definition chuid_objs (f : chuid_file) : list object :=
  [(48, 127, cf_fascn f); (52, 127, cf_guid f); (53, 127, cf_expiry f); (54, 127, cf_chuuid f);
   (62, 65535, cf_sig f); (254, 127, [])].
Definition chuid_file_ok (f : chuid_file) : Prop :=
  0 < zlen (cf_fascn f) <= 26 /\ zlen (cf_guid f) = 16 /\ zlen (cf_expiry f) = 8 /\ zlen (cf_chuuid f) = 16
  /\ zlen (cf_sig f) <= 8192 /\ bytes (cf_fascn f) /\ bytes (cf_guid f) /\ bytes (cf_expiry f)
  /\ bytes (cf_chuuid f) /\ bytes (cf_sig f).

Section ChuidFile.
Context {X : Certs} {C : Crypto} (tr : transport) (Htr : transport_ok tr) (fuel : nat).
Local Abbreviation W := (World (R := iso_reader (A := file_applet) tr)).
Local Abbreviation Ic := (Iso (A := file_applet)).

(** The GUID a card goes by. *)
Definition card_guid (f : chuid_file) : list Z :=
  if negb (all_zero (cf_guid f)) then cf_guid f
  else if negb (all_zero (cf_chuuid f)) then cf_chuuid f
  else take 16 (digest SSH_DIGEST_SHA256 (cf_fascn f)).

(** The token's fields once the members have been read. *)
Definition chuid_parsed (f : chuid_file) (c : chuid_info) : chuid_info :=
  Chuid (cf_guid f) (pt_nochuid c) ((0 <? zlen (cf_sig f)) || pt_signedchuid c)
    (zsplice (pt_fascn c) 0 (cf_fascn f)) (zlen (cf_fascn f)) (cf_expiry f) true (cf_chuuid f).

Lemma enters_rem ts ts1 bs rest : enters ts ts1 bs rest -> tlv_rem ts1 = zlen bs.
Proof.
  intros (Hok & Hr & _). rewrite tlv_rem_reader by done. by rewrite <- zlen_rest, Hr by done.
Qed.

Lemma skips body tag ml bs (t : piv_token) : body tag = tl tlv_skip -> member_reads body (tag, ml, bs) t t.
Proof. intros E ts ts1 rest He Hp. rewrite E. apply tl_run. exact (skip_leaves _ _ _ _ _ He Hp). Qed.

Lemma chuid_members f t : chuid_file_ok f ->
  members chuid_member (chuid_objs f) t (set_chuid (chuid_parsed f (pt_chuid t)) t).
Proof.
  intros (Hfz & Hgz & Hez & Huz & Hsz & _). destruct (pt_chuid t) as [g nc sc fa fl ex hu cu] eqn:Ec.
  pose (st g ex hu cu := set_chuid (Chuid g nc sc (zsplice fa 0 (cf_fascn f)) (zlen (cf_fascn f)) ex hu cu) t).
  apply (members_cons _ (48, 127, cf_fascn f) _ _ (st g ex hu cu)).
  { split_and!; [lia..|done|change (len_limit 127) with 128; lia]. }
  { intros ts ts1 rest He Hp. pose proof (reads_value (tlv_read_upto 26) (fun bs t => set_chuid (Chuid (pt_guid (pt_chuid t)) (pt_nochuid (pt_chuid t))
       (pt_signedchuid (pt_chuid t)) (zsplice (pt_fascn (pt_chuid t)) 0 bs) (zlen bs) (pt_expiry (pt_chuid t))
       (pt_haschuuid (pt_chuid t)) (pt_chuuid (pt_chuid t))) t) _ _ _ _ _ _ t (decodes_upto 26 _ Hfz) He Hp) as H. cbn beta in H. rewrite Ec in H. exact H. }
  apply (members_cons _ (52, 127, cf_guid f) _ _ (st (cf_guid f) ex hu cu)).
  { split_and!; [lia..|done|change (len_limit 127) with 128; lia]. }
  { intros ts ts1 rest He Hp.
    exact (reads_value (tlv_read GUID_LEN) (fun bs t => set_chuid (Chuid bs (pt_nochuid (pt_chuid t))
       (pt_signedchuid (pt_chuid t)) (pt_fascn (pt_chuid t)) (pt_fascn_len (pt_chuid t)) (pt_expiry (pt_chuid t))
       (pt_haschuuid (pt_chuid t)) (pt_chuuid (pt_chuid t))) t) _ _ _ _ _ _ (st g ex hu cu) (decodes_read_n 16 _ Hgz) He Hp). }
  apply (members_cons _ (53, 127, cf_expiry f) _ _ (st (cf_guid f) (cf_expiry f) hu cu)).
  { split_and!; [lia..|done|change (len_limit 127) with 128; lia]. }
  { intros ts ts1 rest He Hp.
    exact (reads_value (tlv_read 8) (fun bs t => set_chuid (Chuid (pt_guid (pt_chuid t)) (pt_nochuid (pt_chuid t))
       (pt_signedchuid (pt_chuid t)) (pt_fascn (pt_chuid t)) (pt_fascn_len (pt_chuid t)) bs
       (pt_haschuuid (pt_chuid t)) (pt_chuuid (pt_chuid t))) t) _ _ _ _ _ _ (st (cf_guid f) ex hu cu) (decodes_read_n 8 _ Hez) He Hp). }
  apply (members_cons _ (54, 127, cf_chuuid f) _ _ (st (cf_guid f) (cf_expiry f) true (cf_chuuid f))).
  { split_and!; [lia..|done|change (len_limit 127) with 128; lia]. }
  { intros ts ts1 rest He Hp.
    exact (reads_value (tlv_read GUID_LEN) (fun bs t => set_chuid (Chuid (pt_guid (pt_chuid t)) (pt_nochuid (pt_chuid t))
       (pt_signedchuid (pt_chuid t)) (pt_fascn (pt_chuid t)) (pt_fascn_len (pt_chuid t)) (pt_expiry (pt_chuid t))
       (pt_haschuuid (pt_chuid t)) bs) t) _ _ _ _ _ _
       (st (cf_guid f) (cf_expiry f) true cu) (decodes_read_n 16 _ Huz) He Hp). }
  apply (members_cons _ (62, 65535, cf_sig f) _ _
           (set_chuid (Chuid (cf_guid f) nc ((0 <? zlen (cf_sig f)) || sc) (zsplice fa 0 (cf_fascn f)) (zlen (cf_fascn f))
              (cf_expiry f) true (cf_chuuid f)) t)).
  { split_and!; [lia..|done|change (len_limit 65535) with 65536; lia]. }
  { intros ts ts1 rest He Hp. unfold chuid_member. cbn [Z.eqb Pos.eqb orb].
    rewrite (cbind_ok (cgets fst) _ (ts1, _) ts1 (ts1, _) eq_refl). rewrite (enters_rem _ _ _ _ He).
    destruct (0 <? zlen (cf_sig f)); cbn [orb].
    - erewrite cbind_ok by reflexivity. apply tl_run, (skip_leaves _ _ _ _ _ He Hp).
    - rewrite cbind_ret_l. apply tl_run, (skip_leaves _ _ _ _ _ He Hp). }
  apply (members_cons _ (254, 127, []) _ _
           (set_chuid (Chuid (cf_guid f) nc ((0 <? zlen (cf_sig f)) || sc) (zsplice fa 0 (cf_fascn f)) (zlen (cf_fascn f))
              (cf_expiry f) true (cf_chuuid f)) t)).
  { split_and!; [lia..|done|done]. }
  { by apply skips. }
  apply members_nil.
Qed.

Lemma chuid_bytes f : chuid_file_ok f ->
  bytes (objs_bytes (chuid_objs f)) /\ 40 <= zlen (objs_bytes (chuid_objs f)) <= zlen (cf_sig f) + 100.
Proof.
  intros (Hfz & Hgz & Hez & Huz & Hsz & Hf & Hg & He & Hu & Hs).
  unfold chuid_objs, objs_bytes. cbn [fmap list_fmap concat obj_bytes]. rewrite app_nil_r. split.
  - rewrite !Forall_app. split_and!; apply object_bytes; try done;
      try (change (len_limit 127) with 128); try (change (len_limit 65535) with 65536); try lia.
  - rewrite !zlen_app. unfold tlv_object. rewrite !zlen_app, !zlen_len_field. change (len_extra 127) with 0.
    change (len_extra 65535) with 2. change (zlen (@nil Z)) with 0.
    repeat match goal with |- context [zlen (short_be ?t)] => change (zlen (short_be t)) with 1 end.
    pose proof (zlen_nonneg (cf_sig f)). lia.
Qed.

Lemma take_zsplice_0 (l bs : list Z) : zlen bs <= zlen l -> take (Z.to_nat (zlen bs)) (zsplice l 0 bs) = bs.
Proof.
  intros H. unfold zsplice. cbn [take]. change (take (Z.to_nat 0) l) with (@nil Z). rewrite app_nil_l.
  unfold zlen. rewrite Nat2Z.id. apply take_app_length.
Qed.

Lemma chuid_guid_parsed f c : chuid_file_ok f -> zlen (pt_fascn c) = 26 -> chuid_guid (chuid_parsed f c) = card_guid f.
Proof.
  intros (Hfz & _) Hc. unfold chuid_guid, card_guid, chuid_parsed.
  cbn [pt_guid pt_chuuid pt_fascn_len pt_fascn]. rewrite take_zsplice_0 by lia.
  replace (0 <? zlen (cf_fascn f)) with true by lia. rewrite andb_true_r.
  by destruct (all_zero (cf_guid f)), (all_zero (cf_chuuid f)).
Qed.
End ChuidFile.

(** The token's CHUID fields as they are when [piv_read_chuid] returns. *)
Definition chuid_read {C : Crypto} (f : chuid_file) (c : chuid_info) : chuid_info :=
  let p := chuid_parsed f c in
  Chuid (card_guid f) (pt_nochuid p) (pt_signedchuid p) (pt_fascn p) (pt_fascn_len p)
    (pt_expiry p) (pt_haschuuid p) (pt_chuuid p).

(** C13: from a card that holds a CHUID laid out as SP 800-73-4 says, [piv_read_chuid] takes
    the FASC-N, expiry date, card holder UUID and whether there is a signature; the token's
    GUID is the card's own, or the card holder's UUID when that is zero, or the first 16
    bytes of the SHA-256 of the FASC-N when both are zero. *)
Theorem piv_read_chuid_guid {X : Certs} {C : Crypto} (tr : transport) fuel (t : piv_token) (s : file_state)
    (f : chuid_file) (out0 : list Z) (sw0 : Z) :
  transport_ok tr -> zlen (cf_sig f) + 120 <= Z.of_nat fuel -> pt_intxn t = true -> zlen (pt_fascn (pt_chuid t)) = 26 ->
  chuid_file_ok f ->
  fs_files s !! short_be PIV_TAG_CHUID = Some (file_object (objs_bytes (chuid_objs f))) ->
  piv_read_chuid (R := iso_reader (A := file_applet) tr) fuel
    (World (R := iso_reader (A := file_applet) tr) t (Iso (A := file_applet) s [] out0 sw0))
  = (Ok tt, World (R := iso_reader (A := file_applet) tr) (set_chuid (chuid_read f (pt_chuid t)) t)
              (Iso (A := file_applet) s [] [] SW_NO_ERROR)).
Proof.
  intros Htr Hf Ht Hc Hok Hs. unfold piv_read_chuid. set (data := objs_bytes (chuid_objs f)) in *.
  destruct (chuid_bytes f Hok) as [Hdb Hdz]. fold data in Hdb, Hdz. pose proof Hok as (_ & _ & _ & _ & Hsz & _).
  assert (file_ok fuel data) as Hfo by (unfold file_ok, MAX_APDU_SIZE, zlen in *; split_and!; [done|lia|lia]).
  destruct (file_object_facts fuel data Hfo) as (Hb & Hz & Hl).
  destruct (get_data_exec tr Htr fuel t s PIV_TAG_CHUID (file_object data) SW_NO_ERROR out0 sw0 Ht) as (a & Hx & Ha).
  { unfold PIV_TAG_CHUID. lia. }
  { lia. }
  { unfold zlen in *. lia. }
  { rewrite Hs. unfold MAX_APDU_SIZE. split_and!; try done. lia. }
  rewrite (cbind_ok _ _ _ _ _ Hx). pose proof Ha as [-> _]. change (sw_has_data SW_NO_ERROR) with true. cbv iota.
  apply (parse_answered a (file_object data) SW_NO_ERROR); [done|]. intros ts Hts Hst Hr.
  destruct (template_members 83 (zlen data + 8) chuid_member (chuid_objs f) t
              (set_chuid (chuid_parsed f (pt_chuid t)) t) ts) as (ts' & E & Hst'); try done.
  { by apply chuid_members. }
  exists ts'. split; [|done]. rewrite (cbind_ok _ _ _ _ _ E). unfold chuid_read.
  by rewrite <- (chuid_guid_parsed f (pt_chuid t) Hok Hc).
Qed.

Lemma piv_read_chuid_guid_witness :
  let tr := Transport 256 false in
  let t := set_txn true false (piv_token_calloc (X := no_certs)) in
  let f := ChuidFile [208; 57; 218] (replicate 16 0) (replicate 8 50) (replicate 16 7) [48; 0] in
  let s := Files {[ short_be PIV_TAG_CHUID := file_object (objs_bytes (chuid_objs f)) ]} false in
  let W := World (X := no_certs) (R := iso_reader (A := file_applet) tr) in
  piv_read_chuid (R := iso_reader (A := file_applet) tr) 200 (W t (Iso (A := file_applet) s [] [] 0))
  = (Ok tt, W (set_chuid (chuid_read f (pt_chuid t)) t) (Iso (A := file_applet) s [] [] SW_NO_ERROR))
  /\ pt_guid (chuid_read f (pt_chuid t)) = replicate 16 7.
Proof.
  split; [|reflexivity]. apply (@piv_read_chuid_guid no_certs Toy.toy).
  - unfold transport_ok. cbn. lia.
  - vm_compute. congruence.
  - reflexivity.
  - reflexivity.
  - unfold chuid_file_ok. cbn [cf_fascn cf_guid cf_expiry cf_chuuid cf_sig].
    split_and!; try (apply bytesb_spec; reflexivity); vm_compute; congruence.
  - cbn [fs_files]. by rewrite lookup_singleton_eq.
Defined.

(** ** Where the objects go wrong *)

Section Flaws.
Local Abbreviation tok := (set_txn true false (piv_token_calloc (X := no_certs))).
Local Abbreviation tr0 := (Transport 256 false).
Local Abbreviation fcard := (Iso (A := file_applet)).
Local Abbreviation fworld := (World (X := no_certs) (R := iso_reader (A := file_applet) tr0)).

(** The outcome of a run, without the state. *)
Definition outcome_of {E S A} (r : res E A * S) : res E A := fst r.

(** A key history with no keys off the card is written with an empty count, which
    [piv_read_keyhist] refuses. *)
Lemma keyhist_zero_unreadable :
  outcome_of ((piv_write_keyhistory (R := iso_reader (A := file_applet) tr0) 50 1 0 (Some [104]) ;!
               piv_read_keyhist (R := iso_reader (A := file_applet) tr0) 50)
                (fworld tok (fcard (Files ∅ true) [] [] 0)))
  = Er (Err (invderrf LengthError)).
Proof. vm_compute. reflexivity. Qed.

(** Without a URL the file is written, then [strdup] gets a null pointer. *)
Lemma keyhist_no_url_faults :
  outcome_of (piv_write_keyhistory (R := iso_reader (A := file_applet) tr0) 50 1 0 None
                (fworld tok (fcard (Files ∅ true) [] [] 0))) = Fault.
Proof. vm_compute. reflexivity. Qed.

(** An answer to SELECT with 33 algorithms writes past the array of 32. *)
Definition many_algs (n : nat) : list Z :=
  tlv_object 97 65535 (tlv_object 172 65535 (concat (replicate n [128; 1; 17]))).
Lemma select_33_algs_overflow :
  outcome_of (piv_select (X := no_certs) (R := script_reader) 50
                (World (R := script_reader) tok [many_algs 33 ++ [144; 0]])) = Fault
  /\ outcome_of (piv_select (X := no_certs) (R := script_reader) 50
                   (World (R := script_reader) tok [many_algs 32 ++ [144; 0]])) = Ok tt.
Proof. vm_compute. split; reflexivity. Qed.
End Flaws.
