(* ===== verification/Words.v ===== *)
(** * Little-endian words (the macros of chapoly/chacha.c and chapoly/poly1305.c)

    Loads and stores of 32-bit words, their value as little-endian numbers, and
    masks, shifts and ors as arithmetic. *)
From stdpp Require Import base list.
From Stdlib Require Import ZArith Lia.
From S2P Require Import Prelude.

Local Open Scope list_scope.
Local Open Scope Z_scope.

(** ** Numbers *)

Fixpoint le_bytes (n : nat) (v : Z) : list Z :=
  match n with O => [] | S n => v mod 256 :: le_bytes n (v / 256) end.
Fixpoint le_val (bs : list Z) : Z :=
  match bs with [] => 0 | b :: r => b + 256 * le_val r end.

Lemma length_le_bytes n v : length (le_bytes n v) = n.
Proof. revert v. induction n; intros; cbn; [done|]. by rewrite IHn. Qed.
Lemma zlen_le_bytes n v : zlen (le_bytes n v) = Z.of_nat n.
Proof. unfold zlen. by rewrite length_le_bytes. Qed.
Lemma le_bytes_bytes n v : bytes (le_bytes n v).
Proof.
  revert v. induction n; intros; cbn; [constructor|].
  constructor; [apply Z.mod_pos_bound; lia|apply IHn].
Qed.

Lemma pow256_succ n : 256 ^ Z.of_nat (S n) = 256 * 256 ^ Z.of_nat n.
Proof. rewrite Nat2Z.inj_succ, Z.pow_succ_r by lia. lia. Qed.

Lemma le_val_bytes n v : le_val (le_bytes n v) = v mod 256 ^ Z.of_nat n.
Proof.
  revert v. induction n; intros v; cbn [le_bytes le_val].
  - change (256 ^ Z.of_nat 0) with 1. by rewrite Z.mod_1_r.
  - rewrite IHn, pow256_succ, (Z.rem_mul_r v 256) by lia. lia.
Qed.
Lemma le_bytes_val bs : bytes bs -> le_bytes (length bs) (le_val bs) = bs.
Proof.
  induction 1 as [|b bs Hb _ IH]; [done|]. cbn [length le_bytes le_val]. unfold is_byte in Hb.
  f_equal.
  - rewrite Z.mul_comm, Z.mod_add, Z.mod_small; lia.
  - rewrite Z.mul_comm, Z.div_add, Z.div_small, Z.add_0_l by lia. exact IH.
Qed.
Lemma le_val_range bs : bytes bs -> 0 <= le_val bs < 256 ^ zlen bs.
Proof.
  induction 1 as [|b bs Hb _ IH]; [by vm_compute|]. unfold is_byte in Hb. cbn [le_val].
  rewrite zlen_cons. replace (1 + zlen bs) with (Z.succ (zlen bs)) by lia.
  rewrite Z.pow_succ_r by apply zlen_nonneg. lia.
Qed.
Lemma le_val_app a b : le_val (a ++ b) = le_val a + 256 ^ zlen a * le_val b.
Proof.
  induction a as [|x a IH]; [change (zlen (@nil Z)) with 0; cbn [app le_val]; change (256 ^ 0) with 1; change ([] ++ b) with b; lia|]. change ((x :: a) ++ b) with (x :: (a ++ b)). cbn [le_val]. rewrite IH, zlen_cons.
  replace (1 + zlen a) with (Z.succ (zlen a)) by lia. rewrite Z.pow_succ_r by apply zlen_nonneg. ring.
Qed.
Lemma le_val_zeros n : le_val (replicate n 0) = 0.
Proof. induction n as [|n IH]; [done|]. cbn [replicate le_val]. rewrite IH. lia. Qed.

(** ** Masks and shifts *)

Lemma land_mask x n m : 0 <= n -> m = Z.ones n -> Z.land x m = x mod 2 ^ n.
Proof. intros Hn ->. by apply Z.land_ones. Qed.

(** Low bits and higher bits. *)
Lemma lor_low a b n : 0 <= n -> 0 <= a < 2 ^ n -> Z.lor a (Z.shiftl b n) = a + b * 2 ^ n.
Proof. intros. rewrite Z.lor_comm, lor_shiftl_add by lia. lia. Qed.

(** ** Loads and stores *)

(** [U8TO32_LITTLE(p)]; the callers pass at least four bytes. *)
Definition U8TO32_LE (p : list Z) : Z :=
  match p with
  | p0 :: p1 :: p2 :: p3 :: _ =>
      Z.lor (Z.lor (Z.lor p0 (u32 (Z.shiftl p1 8))) (u32 (Z.shiftl p2 16))) (u32 (Z.shiftl p3 24))
  | _ => 0
  end.

(** [U32TO8_LITTLE(p, v)] *)
Definition U32TO8_LE (v : Z) : list Z :=
  [u8 v; u8 (Z.shiftr v 8); u8 (Z.shiftr v 16); u8 (Z.shiftr v 24)].

Lemma U8TO32_val p : bytes p -> 4 <= zlen p -> U8TO32_LE p = le_val (take 4 p).
Proof.
  intros Hb Hl. destruct p as [|p0 [|p1 [|p2 [|p3 r]]]]; try (vm_compute in Hl; congruence).
  apply Forall_cons in Hb as [H0 Hb]. apply Forall_cons in Hb as [H1 Hb]. apply Forall_cons in Hb as [H2 Hb].
  apply Forall_cons in Hb as [H3 _]. unfold is_byte in *. cbn [U8TO32_LE firstn le_val].
  rewrite !wrap_small by (rewrite Z.shiftl_mul_pow2 by lia; lia).
  rewrite (lor_low p0 p1 8) by lia. rewrite (lor_low _ p2 16) by lia. rewrite (lor_low _ p3 24) by lia. change (le_val (take 0 r)) with 0. lia.
Qed.
Lemma U8TO32_range p : bytes p -> 0 <= U8TO32_LE p < 2 ^ 32.
Proof.
  intros Hb. destruct (decide (4 <= zlen p)) as [Hl|Hl].
  - rewrite U8TO32_val by done. pose proof (le_val_range (take 4 p) ltac:(by apply Forall_take)) as H.
    replace (zlen (take 4 p)) with 4 in H; [exact H|]. unfold zlen in *. rewrite length_take. lia.
  - destruct p as [|p0 [|p1 [|p2 [|p3 r]]]]; try (cbn; lia). exfalso. apply Hl. autorewrite with zlen. pose proof (zlen_nonneg r). lia.
Qed.

Lemma U32TO8_le v : U32TO8_LE v = le_bytes 4 v.
Proof.
  unfold U32TO8_LE, wrap. cbn [le_bytes]. rewrite !Z.shiftr_div_pow2 by lia.
  rewrite !Z.div_div by lia. done.
Qed.
Lemma U32TO8_bytes v : bytes (U32TO8_LE v).
Proof. rewrite U32TO8_le. apply le_bytes_bytes. Qed.
Lemma U32_round v : 0 <= v < 2 ^ 32 -> U8TO32_LE (U32TO8_LE v) = v.
Proof.
  intros Hv. rewrite U8TO32_val by (apply U32TO8_bytes || done).
  rewrite U32TO8_le, take_ge by (by rewrite length_le_bytes). rewrite le_val_bytes. apply Z.mod_small. exact Hv.
Qed.

Lemma le_bytes_app a b v : le_bytes (a + b) v = le_bytes a v ++ le_bytes b (v / 256 ^ Z.of_nat a).
Proof.
  revert v. induction a as [|a IH]; intros v; [change (256 ^ Z.of_nat 0) with 1; by rewrite Z.div_1_r|].
  cbn [Nat.add le_bytes]. rewrite IH, pow256_succ, Z.div_div by lia. done.
Qed.
Lemma le_bytes_mod n v w : v mod 256 ^ Z.of_nat n = w mod 256 ^ Z.of_nat n -> le_bytes n v = le_bytes n w.
Proof.
  revert v w. induction n as [|n IH]; intros v w H; [done|]. cbn [le_bytes]. rewrite pow256_succ in H.
  rewrite !Z.rem_mul_r in H by lia.
  pose proof (Z.mod_pos_bound v 256 ltac:(lia)). pose proof (Z.mod_pos_bound w 256 ltac:(lia)).
  assert (v mod 256 = w mod 256 /\ (v / 256) mod 256 ^ Z.of_nat n = (w / 256) mod 256 ^ Z.of_nat n) as [E1 E2].
  { generalize dependent ((v / 256) mod 256 ^ Z.of_nat n). generalize dependent ((w / 256) mod 256 ^ Z.of_nat n). lia. }
  by rewrite E1, (IH _ _ E2).
Qed.
(** Four words. *)
Lemma le_bytes_words v : le_bytes 16 v = le_bytes 4 v ++ le_bytes 4 (v / 2 ^ 32) ++ le_bytes 4 (v / 2 ^ 64) ++ le_bytes 4 (v / 2 ^ 96).
Proof.
  change 16%nat with (4 + (4 + (4 + 4)))%nat. rewrite !le_bytes_app. change (256 ^ Z.of_nat 4) with (2 ^ 32).
  by rewrite !Z.div_div by lia.
Qed.
