(* ===== verification/Poly1305.v ===== *)
(** * Poly1305 (chapoly/poly1305.c)

    The one-time authenticator in five 26-bit limbs, with the 32- and 64-bit wrap-around
    of every operation written out. The theorem: no intermediate result wraps, and the
    tag is the polynomial of RFC 8439 evaluated at the clamped key modulo 2^130 - 5. *)
From stdpp Require Import base list.
From Stdlib Require Import ZArith Lia.
From S2P Require Import Prelude Words.

Local Open Scope list_scope.
Local Open Scope Z_scope.

(** ** The code *)

Definition M26 : Z := 0x3ffffff.

Record limbs := Limbs { l0 : Z; l1 : Z; l2 : Z; l3 : Z; l4 : Z }.

(** [r0 .. r4]: the key clamped and cut into limbs. *)
Definition clamp_key (key : list Z) : limbs :=
  let t0 := U8TO32_LE key in
  let t1 := U8TO32_LE (drop 4 key) in
  let t2 := U8TO32_LE (drop 8 key) in
  let t3 := U8TO32_LE (drop 12 key) in
  let r0 := Z.land t0 0x3ffffff in
  let t0 := Z.lor (Z.shiftr t0 26) (u32 (Z.shiftl t1 6)) in
  let r1 := Z.land t0 0x3ffff03 in
  let t1 := Z.lor (Z.shiftr t1 20) (u32 (Z.shiftl t2 12)) in
  let r2 := Z.land t1 0x3ffc0ff in
  let t2 := Z.lor (Z.shiftr t2 14) (u32 (Z.shiftl t3 18)) in
  let r3 := Z.land t2 0x3f03fff in
  let t3 := Z.shiftr t3 8 in
  let r4 := Z.land t3 0x00fffff in
  Limbs r0 r1 r2 r3 r4.

(** A block of 16 bytes added to [h]; [hibit] is [1 << 24] for a full block and 0 for
    the padded last one. *)
Definition add_block (h : limbs) (m : list Z) (hibit : Z) : limbs :=
  let t0 := U8TO32_LE m in
  let t1 := U8TO32_LE (drop 4 m) in
  let t2 := U8TO32_LE (drop 8 m) in
  let t3 := U8TO32_LE (drop 12 m) in
  let cut hi lo n := Z.land (Z.shiftr (Z.lor (u64 (Z.shiftl hi 32)) lo) n) 0x3ffffff in
  Limbs (u32 (l0 h + Z.land t0 0x3ffffff))
        (u32 (l1 h + cut t1 t0 26))
        (u32 (l2 h + cut t2 t1 20))
        (u32 (l3 h + cut t3 t2 14))
        (u32 (l4 h + Z.lor (Z.shiftr t3 8) hibit)).

Definition mul32x32_64 (a b : Z) : Z := u64 (a * b).
Definition add64 (a b : Z) : Z := u64 (a + b).
Definition dot (a0 b0 a1 b1 a2 b2 a3 b3 a4 b4 : Z) : Z :=
  add64 (add64 (add64 (add64 (mul32x32_64 a0 b0) (mul32x32_64 a1 b1)) (mul32x32_64 a2 b2)) (mul32x32_64 a3 b3))
    (mul32x32_64 a4 b4).

(** [poly1305_donna_mul] *)
Definition donna_mul (r h : limbs) : limbs :=
  let '(Limbs r0 r1 r2 r3 r4) := r in
  let '(Limbs h0 h1 h2 h3 h4) := h in
  let s1 := u32 (r1 * 5) in
  let s2 := u32 (r2 * 5) in
  let s3 := u32 (r3 * 5) in
  let s4 := u32 (r4 * 5) in
  let t0 := dot h0 r0 h1 s4 h2 s3 h3 s2 h4 s1 in
  let t1 := dot h0 r1 h1 r0 h2 s4 h3 s3 h4 s2 in
  let t2 := dot h0 r2 h1 r1 h2 r0 h3 s4 h4 s3 in
  let t3 := dot h0 r3 h1 r2 h2 r1 h3 r0 h4 s4 in
  let t4 := dot h0 r4 h1 r3 h2 r2 h3 r1 h4 r0 in
  let h0 := Z.land (u32 t0) 0x3ffffff in
  let c := Z.shiftr t0 26 in
  let t1 := add64 t1 c in
  let h1 := Z.land (u32 t1) 0x3ffffff in
  let b := u32 (Z.shiftr t1 26) in
  let t2 := add64 t2 b in
  let h2 := Z.land (u32 t2) 0x3ffffff in
  let b := u32 (Z.shiftr t2 26) in
  let t3 := add64 t3 b in
  let h3 := Z.land (u32 t3) 0x3ffffff in
  let b := u32 (Z.shiftr t3 26) in
  let t4 := add64 t4 b in
  let h4 := Z.land (u32 t4) 0x3ffffff in
  let b := u32 (Z.shiftr t4 26) in
  let h0 := u32 (h0 + u32 (b * 5)) in
  Limbs h0 h1 h2 h3 h4.

(** The blocks; each round consumes 16 bytes, so [length m] rounds are enough. *)
Fixpoint blocks (n : nat) (r h : limbs) (m : list Z) : limbs :=
  match n with
  | O => h
  | S n =>
      if 16 <=? zlen m then blocks n r (donna_mul r (add_block h m (Z.shiftl 1 24))) (drop 16 m)
      else if zlen m =? 0 then h
      else donna_mul r (add_block h (m ++ [1] ++ zrepeat (15 - zlen m) 0) 0)
  end.

(** The final carries, up to [h1 += b]. *)
Definition finish_carry (h : limbs) : limbs :=
  let '(Limbs h0 h1 h2 h3 h4) := h in
  let b := Z.shiftr h0 26 in let h0 := Z.land h0 0x3ffffff in
  let h1 := u32 (h1 + b) in let b := Z.shiftr h1 26 in let h1 := Z.land h1 0x3ffffff in
  let h2 := u32 (h2 + b) in let b := Z.shiftr h2 26 in let h2 := Z.land h2 0x3ffffff in
  let h3 := u32 (h3 + b) in let b := Z.shiftr h3 26 in let h3 := Z.land h3 0x3ffffff in
  let h4 := u32 (h4 + b) in let b := Z.shiftr h4 26 in let h4 := Z.land h4 0x3ffffff in
  let h0 := u32 (h0 + u32 (b * 5)) in let b := Z.shiftr h0 26 in let h0 := Z.land h0 0x3ffffff in
  let h1 := u32 (h1 + b) in
  Limbs h0 h1 h2 h3 h4.

(** [g = h + 5 - 2^130], chosen when it is not negative. *)
Definition finish_select (h : limbs) : limbs :=
  let '(Limbs h0 h1 h2 h3 h4) := h in
  let g0 := u32 (h0 + 5) in let b := Z.shiftr g0 26 in let g0 := Z.land g0 0x3ffffff in
  let g1 := u32 (h1 + b) in let b := Z.shiftr g1 26 in let g1 := Z.land g1 0x3ffffff in
  let g2 := u32 (h2 + b) in let b := Z.shiftr g2 26 in let g2 := Z.land g2 0x3ffffff in
  let g3 := u32 (h3 + b) in let b := Z.shiftr g3 26 in let g3 := Z.land g3 0x3ffffff in
  let g4 := u32 (h4 + b - Z.shiftl 1 26) in
  let b := u32 (Z.shiftr g4 31 - 1) in
  let nb := u32 (Z.lnot b) in
  let sel h g := Z.lor (Z.land h nb) (Z.land g b) in
  Limbs (sel h0 g0) (sel h1 g1) (sel h2 g2) (sel h3 g3) (sel h4 g4).

(** The tag: the limbs as four words plus the second half of the key. *)
Definition finish_tag (h : limbs) (key : list Z) : list Z :=
  let '(Limbs h0 h1 h2 h3 h4) := h in
  let f0 := u64 (Z.lor h0 (u32 (Z.shiftl h1 26)) + U8TO32_LE (drop 16 key)) in
  let f1 := u64 (Z.lor (Z.shiftr h1 6) (u32 (Z.shiftl h2 20)) + U8TO32_LE (drop 20 key)) in
  let f2 := u64 (Z.lor (Z.shiftr h2 12) (u32 (Z.shiftl h3 14)) + U8TO32_LE (drop 24 key)) in
  let f3 := u64 (Z.lor (Z.shiftr h3 18) (u32 (Z.shiftl h4 8)) + U8TO32_LE (drop 28 key)) in
  let f1 := add64 f1 (Z.shiftr f0 32) in
  let f2 := add64 f2 (Z.shiftr f1 32) in
  let f3 := add64 f3 (Z.shiftr f2 32) in
  U32TO8_LE f0 ++ U32TO8_LE f1 ++ U32TO8_LE f2 ++ U32TO8_LE f3.

Definition poly1305_auth (m key : list Z) : list Z :=
  let r := clamp_key key in
  let h := blocks (S (length m)) r (Limbs 0 0 0 0 0) m in
  finish_tag (finish_select (finish_carry h)) key.

(** ** RFC 8439 *)

Definition P1305 : Z := 2 ^ 130 - 5.
Definition poly_clamp (key : list Z) : Z := Z.land (le_val (take 16 key)) 0x0ffffffc0ffffffc0ffffffc0fffffff.
Fixpoint poly_acc (n : nat) (r acc : Z) (m : list Z) : Z :=
  match n with
  | O => acc
  | S n => match m with
           | [] => acc
           | _ => let blk := take 16 m in
                  poly_acc n r ((acc + le_val blk + 256 ^ zlen blk) * r mod P1305) (drop 16 m)
           end
  end.
Definition poly1305 (m key : list Z) : list Z :=
  le_bytes 16 (poly_acc (length m) (poly_clamp key) 0 m + le_val (drop 16 key)).

(** RFC 8439, 2.5.2 *)
Example poly1305_rfc_vector :
  let key := [0x85; 0xd6; 0xbe; 0x78; 0x57; 0x55; 0x6d; 0x33; 0x7f; 0x44; 0x52; 0xfe; 0x42; 0xd5; 0x06; 0xa8;
              0x01; 0x03; 0x80; 0x8a; 0xfb; 0x0d; 0xb2; 0xfd; 0x4a; 0xbf; 0xf6; 0xaf; 0x41; 0x49; 0xf5; 0x1b] in
  let msg := [0x43; 0x72; 0x79; 0x70; 0x74; 0x6f; 0x67; 0x72; 0x61; 0x70; 0x68; 0x69; 0x63; 0x20; 0x46; 0x6f;
              0x72; 0x75; 0x6d; 0x20; 0x52; 0x65; 0x73; 0x65; 0x61; 0x72; 0x63; 0x68; 0x20; 0x47; 0x72; 0x6f;
              0x75; 0x70] in
  poly1305_auth msg key = [0xa8; 0x06; 0x1d; 0xc1; 0x30; 0x51; 0x36; 0xc6; 0xc2; 0x2b; 0x8b; 0xaf; 0x0c; 0x01; 0x27; 0xa9]
  /\ poly1305 msg key = poly1305_auth msg key.
Proof. vm_compute. split; reflexivity. Qed.

(** ** Values and bounds of limbs *)

Definition val (h : limbs) : Z := l0 h + 2 ^ 26 * l1 h + 2 ^ 52 * l2 h + 2 ^ 78 * l3 h + 2 ^ 104 * l4 h.

(** The clamped key. *)
Definition r_ok (r : limbs) : Prop :=
  0 <= l0 r <= 0x3ffffff /\ 0 <= l1 r <= 0x3ffff03 /\ 0 <= l2 r <= 0x3ffc0ff /\ 0 <= l3 r <= 0x3f03fff
  /\ 0 <= l4 r <= 0x00fffff.
(** [h] between blocks: the lowest limb is not carried out and may have grown to [H0]. *)
Definition H0 : Z := 2800000000.
Definition h_ok (h : limbs) : Prop :=
  0 <= l0 h <= H0 /\ 0 <= l1 h < 2 ^ 26 /\ 0 <= l2 h < 2 ^ 26 /\ 0 <= l3 h < 2 ^ 26 /\ 0 <= l4 h < 2 ^ 26.
(** [h] with a block added. *)
Definition hb_ok (h : limbs) : Prop :=
  0 <= l0 h <= H0 + M26 /\ 0 <= l1 h <= 2 * M26 /\ 0 <= l2 h <= 2 * M26 /\ 0 <= l3 h <= 2 * M26
  /\ 0 <= l4 h <= M26 + 2 ^ 25 - 1.

Lemma land_bounds x m : 0 <= m -> 0 <= Z.land x m <= m.
Proof.
  intros Hm. split; [apply Z.land_nonneg; by right|].
  assert (Z.ldiff (Z.land x m) m = 0) as H.
  { apply Z.bits_inj'. intros i _. rewrite Z.ldiff_spec, Z.land_spec, Z.bits_0. by destruct (Z.testbit m i); rewrite ?andb_false_r. }
  apply Z.sub_nocarry_ldiff in H. assert (0 <= Z.ldiff m (Z.land x m)) by (apply Z.ldiff_nonneg; by left). lia.
Qed.

(** ** The key *)

Lemma land_split N C k : 0 <= k ->
  Z.land N C = Z.land (N mod 2 ^ k) (C mod 2 ^ k) + 2 ^ k * Z.land (N / 2 ^ k) (C / 2 ^ k).
Proof.
  intros Hk. rewrite (Z.div_mod (Z.land N C) (2 ^ k)) at 1 by lia. rewrite Z.add_comm. f_equal.
  - rewrite <- !Z.land_ones by done. apply Z.bits_inj'. intros i _. rewrite !Z.land_spec.
    destruct (Z.testbit N i), (Z.testbit C i), (Z.testbit (Z.ones k) i); done.
  - rewrite <- !Z.shiftr_div_pow2 by done. by rewrite Z.shiftr_land.
Qed.

Lemma land_low26 x m : 0 <= m <= M26 -> Z.land x m = Z.land (x mod 2 ^ 26) m.
Proof.
  intros Hm. rewrite <- Z.land_ones by lia. rewrite <- Z.land_assoc. f_equal.
  rewrite Z.land_comm, Z.land_ones by lia. unfold M26 in Hm. rewrite Z.mod_small; lia.
Qed.

(** Two words read from bit [n] of the lower one. *)
Lemma word_cut a b n : 0 <= n <= 32 -> 0 <= a < 2 ^ 32 -> 0 <= b < 2 ^ 32 ->
  Z.lor (Z.shiftr a n) (u32 (Z.shiftl b (32 - n))) = a / 2 ^ n + 2 ^ (32 - n) * (b mod 2 ^ n).
Proof.
  intros Hn Ha Hb. assert (u32 (Z.shiftl b (32 - n)) = Z.shiftl (b mod 2 ^ n) (32 - n)) as ->.
  { rewrite !Z.shiftl_mul_pow2 by lia. unfold wrap. replace 32 with (n + (32 - n)) at 2 by lia.
    rewrite Z.pow_add_r, Z.mul_mod_distr_r by lia. done. }
  rewrite Z.shiftr_div_pow2 by lia. rewrite lor_low; [lia|lia|].
  split; [apply Z.div_pos; lia|]. apply Z.div_lt_upper_bound; [lia|]. rewrite <- Z.pow_add_r by lia.
  replace (n + (32 - n)) with 32 by lia. lia.
Qed.

Lemma le_val_words k : bytes k -> 16 <= zlen k ->
  le_val (take 16 k) = U8TO32_LE k + 2 ^ 32 * U8TO32_LE (drop 4 k) + 2 ^ 64 * U8TO32_LE (drop 8 k)
                       + 2 ^ 96 * U8TO32_LE (drop 12 k).
Proof.
  intros Hb Hl. assert (16 <= length k)%nat by (unfold zlen in Hl; lia).
  rewrite !U8TO32_val by first [done|by apply Forall_drop|unfold zlen; rewrite ?length_drop; lia].
  do 16 (destruct k as [|? k]; [cbn in H; lia|]). cbn. lia.
Qed.

(** Four words cut into limbs of 26 bits. *)
Lemma words_limbs t0 t1 t2 t3 :
  0 <= t0 < 2 ^ 32 -> 0 <= t1 < 2 ^ 32 -> 0 <= t2 < 2 ^ 32 -> 0 <= t3 < 2 ^ 32 ->
  let N := t0 + 2 ^ 32 * t1 + 2 ^ 64 * t2 + 2 ^ 96 * t3 in
  N mod 2 ^ 26 = t0 mod 2 ^ 26 /\
  (N / 2 ^ 26) mod 2 ^ 26 = (t0 / 2 ^ 26 + 2 ^ 6 * (t1 mod 2 ^ 26)) mod 2 ^ 26 /\
  (N / 2 ^ 52) mod 2 ^ 26 = (t1 / 2 ^ 20 + 2 ^ 12 * (t2 mod 2 ^ 20)) mod 2 ^ 26 /\
  (N / 2 ^ 78) mod 2 ^ 26 = (t2 / 2 ^ 14 + 2 ^ 18 * (t3 mod 2 ^ 14)) mod 2 ^ 26 /\
  N / 2 ^ 104 = t3 / 2 ^ 8.
Proof. intros. subst N. split_and!; Z.div_mod_to_equations; lia. Qed.

Lemma clamp_key_ok key : bytes key -> 16 <= zlen key -> r_ok (clamp_key key) /\ val (clamp_key key) = poly_clamp key.
Proof.
  intros Hb Hl. split; [repeat split; apply land_bounds; lia|].
  unfold poly_clamp. rewrite le_val_words by done. unfold clamp_key, val. cbn [l0 l1 l2 l3 l4].
  pose proof (U8TO32_range _ Hb) as R0. pose proof (U8TO32_range _ (Forall_drop _ 4 _ Hb)) as R1.
  pose proof (U8TO32_range _ (Forall_drop _ 8 _ Hb)) as R2. pose proof (U8TO32_range _ (Forall_drop _ 12 _ Hb)) as R3.
  set (t0 := U8TO32_LE key) in *. set (t1 := U8TO32_LE (drop 4 key)) in *. set (t2 := U8TO32_LE (drop 8 key)) in *.
  set (t3 := U8TO32_LE (drop 12 key)) in *. clearbody t0 t1 t2 t3.
  pose proof (word_cut t0 t1 26 ltac:(lia) R0 R1) as W1. pose proof (word_cut t1 t2 20 ltac:(lia) R1 R2) as W2.
  pose proof (word_cut t2 t3 14 ltac:(lia) R2 R3) as W3. change (32 - 26) with 6 in W1. change (32 - 20) with 12 in W2.
  change (32 - 14) with 18 in W3. rewrite W1, W2, W3.
  rewrite (Z.shiftr_div_pow2 t3) by lia. 
  rewrite (land_split _ 0x0ffffffc0ffffffc0ffffffc0fffffff 26) by lia.
  rewrite (land_split (_ / 2 ^ 26) _ 26), (land_split (_ / 2 ^ 26 / 2 ^ 26) _ 26),
    (land_split (_ / 2 ^ 26 / 2 ^ 26 / 2 ^ 26) _ 26) by lia.
  rewrite (land_low26 t0), (land_low26 (_ + _) 0x3ffff03), (land_low26 (_ + _) 0x3ffc0ff), (land_low26 (_ + _) 0x3f03fff) by (unfold M26; lia).
  rewrite !Z.div_div by lia.
  destruct (words_limbs t0 t1 t2 t3 R0 R1 R2 R3) as (-> & E1 & E2 & E3 & E4).
  change (2 ^ 26 * 2 ^ 26 * 2 ^ 26 * 2 ^ 26) with (2 ^ 104). change (2 ^ 26 * 2 ^ 26 * 2 ^ 26) with (2 ^ 78).
  change (2 ^ 26 * 2 ^ 26) with (2 ^ 52). rewrite E1, E2, E3, E4.
  repeat match goal with |- context [?c mod 2 ^ 26] =>
    match c with 21267647620597763993911028882763415551 => idtac | 21267647620597763993911028882763415551 / _ => idtac end;
    let v := eval vm_compute in (c mod 2 ^ 26) in change (c mod 2 ^ 26) with v end.
  change (21267647620597763993911028882763415551 / 2 ^ 104) with 1048575. lia.
Qed.

(** ** Blocks *)

Lemma land_M26 x : Z.land x 0x3ffffff = x mod 2 ^ 26.
Proof. by apply land_mask. Qed.
Lemma u32_M26 x : Z.land (u32 x) 0x3ffffff = x mod 2 ^ 26.
Proof.
  rewrite land_M26. unfold wrap. Z.div_mod_to_equations. lia.
Qed.

(** [((hi << 32) | lo) >> n & 0x3ffffff] *)
Lemma cut_val hi lo n : 0 <= n -> 0 <= lo < 2 ^ 32 -> 0 <= hi < 2 ^ 32 ->
  Z.land (Z.shiftr (Z.lor (u64 (Z.shiftl hi 32)) lo) n) 0x3ffffff = ((lo + 2 ^ 32 * hi) / 2 ^ n) mod 2 ^ 26.
Proof.
  intros Hn Hlo Hhi. rewrite land_M26, Z.shiftr_div_pow2 by done. rewrite wrap_small by (rewrite Z.shiftl_mul_pow2 by lia; lia).
  rewrite lor_shiftl_add by lia. do 2 f_equal. lia.
Qed.

Lemma add_block_ok h m hibit : h_ok h -> bytes m -> 16 <= zlen m -> hibit = 0 \/ hibit = Z.shiftl 1 24 ->
  hb_ok (add_block h m hibit) /\ val (add_block h m hibit) = val h + le_val (take 16 m) + 2 ^ 104 * hibit.
Proof.
  intros (G0 & G1 & G2 & G3 & G4) Hb Hl Hh. rewrite le_val_words by done. unfold add_block, val, hb_ok. cbn [l0 l1 l2 l3 l4].
  pose proof (U8TO32_range _ Hb) as R0. pose proof (U8TO32_range _ (Forall_drop _ 4 _ Hb)) as R1.
  pose proof (U8TO32_range _ (Forall_drop _ 8 _ Hb)) as R2. pose proof (U8TO32_range _ (Forall_drop _ 12 _ Hb)) as R3.
  set (t0 := U8TO32_LE m) in *. set (t1 := U8TO32_LE (drop 4 m)) in *. set (t2 := U8TO32_LE (drop 8 m)) in *.
  set (t3 := U8TO32_LE (drop 12 m)) in *. clearbody t0 t1 t2 t3.
  rewrite !cut_val, land_M26 by lia.
  assert (Z.lor (Z.shiftr t3 8) hibit = t3 / 2 ^ 8 + hibit) as ->.
  { rewrite Z.shiftr_div_pow2 by lia. destruct Hh as [-> | ->]; [by rewrite Z.lor_0_r, Z.add_0_r|].
    rewrite lor_low by (Z.div_mod_to_equations; lia). by rewrite Z.shiftl_mul_pow2 by lia. }
  assert (0 <= hibit <= 2 ^ 24) as Hh2 by (destruct Hh as [-> | ->]; vm_compute; split; congruence).
  unfold H0, M26 in *.
  assert (0 <= t3 / 2 ^ 8 < 2 ^ 24) as R4 by (Z.div_mod_to_equations; lia).
  pose proof (Z.mod_pos_bound t0 (2 ^ 26) ltac:(lia)). pose proof (Z.mod_pos_bound ((t0 + 2 ^ 32 * t1) / 2 ^ 26) (2 ^ 26) ltac:(lia)).
  pose proof (Z.mod_pos_bound ((t1 + 2 ^ 32 * t2) / 2 ^ 20) (2 ^ 26) ltac:(lia)).
  pose proof (Z.mod_pos_bound ((t2 + 2 ^ 32 * t3) / 2 ^ 14) (2 ^ 26) ltac:(lia)).
  rewrite !wrap_small by lia. split; [lia|].
  clear H H1 H2 H3 R4 Hh Hh2. Z.div_mod_to_equations. lia.
Qed.

(** ** Multiplication *)

Lemma dot_exact a0 b0 a1 b1 a2 b2 a3 b3 a4 b4 :
  0 <= a0 * b0 -> 0 <= a1 * b1 -> 0 <= a2 * b2 -> 0 <= a3 * b3 -> 0 <= a4 * b4 ->
  a0 * b0 + a1 * b1 + a2 * b2 + a3 * b3 + a4 * b4 < 2 ^ 64 ->
  dot a0 b0 a1 b1 a2 b2 a3 b3 a4 b4 = a0 * b0 + a1 * b1 + a2 * b2 + a3 * b3 + a4 * b4.
Proof.
  intros. unfold dot, add64, mul32x32_64.
  rewrite (wrap_small 64 (a0 * b0)), (wrap_small 64 (a1 * b1)), (wrap_small 64 (a2 * b2)), (wrap_small 64 (a3 * b3)),
    (wrap_small 64 (a4 * b4)) by lia.
  rewrite (wrap_small 64 (a0 * b0 + a1 * b1)), (wrap_small 64 (_ + a2 * b2)), (wrap_small 64 (_ + a3 * b3)) by lia.
  apply wrap_small. lia.
Qed.

Lemma mul_bounds a b A B : 0 <= a <= A -> 0 <= b <= B -> 0 <= a * b <= A * B.
Proof. intros. split; [lia|]. apply Z.mul_le_mono_nonneg; lia. Qed.

(** The carries after the products. *)
Definition carry (t0 t1 t2 t3 t4 : Z) : limbs :=
  let t1 := t1 + t0 / 2 ^ 26 in let t2 := t2 + t1 / 2 ^ 26 in let t3 := t3 + t2 / 2 ^ 26 in
  let t4 := t4 + t3 / 2 ^ 26 in
  Limbs (t0 mod 2 ^ 26 + t4 / 2 ^ 26 * 5) (t1 mod 2 ^ 26) (t2 mod 2 ^ 26) (t3 mod 2 ^ 26) (t4 mod 2 ^ 26).

Lemma carry_val t0 t1 t2 t3 t4 :
  exists b, val (carry t0 t1 t2 t3 t4) = t0 + 2 ^ 26 * t1 + 2 ^ 52 * t2 + 2 ^ 78 * t3 + 2 ^ 104 * t4 - P1305 * b.
Proof.
  exists ((t4 + (t3 + (t2 + (t1 + t0 / 2 ^ 26) / 2 ^ 26) / 2 ^ 26) / 2 ^ 26) / 2 ^ 26).
  unfold carry, val, P1305. cbn [l0 l1 l2 l3 l4]. Z.div_mod_to_equations. lia.
Qed.

(** The products, as the code has them. *)
Definition prods (r h : limbs) : Z * Z * Z * Z * Z :=
  let '(Limbs r0 r1 r2 r3 r4) := r in
  let '(Limbs h0 h1 h2 h3 h4) := h in
  (h0 * r0 + h1 * (r4 * 5) + h2 * (r3 * 5) + h3 * (r2 * 5) + h4 * (r1 * 5),
   h0 * r1 + h1 * r0 + h2 * (r4 * 5) + h3 * (r3 * 5) + h4 * (r2 * 5),
   h0 * r2 + h1 * r1 + h2 * r0 + h3 * (r4 * 5) + h4 * (r3 * 5),
   h0 * r3 + h1 * r2 + h2 * r1 + h3 * r0 + h4 * (r4 * 5),
   h0 * r4 + h1 * r3 + h2 * r2 + h3 * r1 + h4 * r0).

Lemma prods_val r h : let '(t0, t1, t2, t3, t4) := prods r h in
  exists k, t0 + 2 ^ 26 * t1 + 2 ^ 52 * t2 + 2 ^ 78 * t3 + 2 ^ 104 * t4 = val h * val r - P1305 * k.
Proof.
  destruct r as [r0 r1 r2 r3 r4], h as [h0 h1 h2 h3 h4]. unfold prods, val, P1305. cbn [l0 l1 l2 l3 l4].
  exists (h1 * r4 + h2 * r3 + h3 * r2 + h4 * r1 + 2 ^ 26 * (h2 * r4 + h3 * r3 + h4 * r2)
          + 2 ^ 52 * (h3 * r4 + h4 * r3) + 2 ^ 78 * (h4 * r4)).
  change (2 ^ 130) with (2 ^ 26 * 2 ^ 104). change (2 ^ 104) with (2 ^ 26 * 2 ^ 78). change (2 ^ 78) with (2 ^ 26 * 2 ^ 52).
  change (2 ^ 52) with (2 ^ 26 * 2 ^ 26). ring.
Qed.

(** The limits the products stay within: every carry fits 32 bits. *)
Definition prods_ok (p : Z * Z * Z * Z * Z) : Prop :=
  let '(t0, t1, t2, t3, t4) := p in
  0 <= t0 < 2 ^ 60 /\ 0 <= t1 <= 4180000000 * 2 ^ 26 /\ 0 <= t2 <= 3650000000 * 2 ^ 26 /\ 0 <= t3 <= 3250000000 * 2 ^ 26
  /\ 0 <= t4 <= 546300000 * 2 ^ 26.

Lemma prods_bounds r h : r_ok r -> hb_ok h -> prods_ok (prods r h).
Proof.
  destruct r as [r0 r1 r2 r3 r4], h as [h0 h1 h2 h3 h4].
  intros (R0 & R1 & R2 & R3 & R4) (G0 & G1 & G2 & G3 & G4). cbn [l0 l1 l2 l3 l4] in *. unfold H0, M26 in *.
  assert (forall h, 0 <= h <= 2 * 67108863 ->
    0 <= h * r0 <= 2 * 67108863 * 0x3ffffff /\ 0 <= h * r1 <= 2 * 67108863 * 0x3ffff03 /\ 0 <= h * r2 <= 2 * 67108863 * 0x3ffc0ff
    /\ 0 <= h * r3 <= 2 * 67108863 * 0x3f03fff /\ 0 <= h * r4 <= 2 * 67108863 * 0x00fffff) as Hm.
  { intros h Hh. do 4 (split; [by apply mul_bounds|]). by apply mul_bounds. }
  pose proof (Hm h1 G1). pose proof (Hm h2 G2). pose proof (Hm h3 G3). clear Hm.
  pose proof (mul_bounds _ _ _ _ G4 R0). pose proof (mul_bounds _ _ _ _ G4 R1). pose proof (mul_bounds _ _ _ _ G4 R2).
  pose proof (mul_bounds _ _ _ _ G4 R3). pose proof (mul_bounds _ _ _ _ G4 R4).
  pose proof (mul_bounds _ _ _ _ G0 R0). pose proof (mul_bounds _ _ _ _ G0 R1). pose proof (mul_bounds _ _ _ _ G0 R2).
  pose proof (mul_bounds _ _ _ _ G0 R3). pose proof (mul_bounds _ _ _ _ G0 R4).
  unfold prods, prods_ok. rewrite !Z.mul_assoc. clear R0 R1 R2 R3 R4 G0 G1 G2 G3 G4.
  repeat match goal with |- context [?a * ?b] => is_var a; is_var b; generalize dependent (a * b); intros end.
  split_and!; lia.
Qed.

Lemma donna_mul_carry r h : r_ok r -> hb_ok h ->
  let '(t0, t1, t2, t3, t4) := prods r h in donna_mul r h = carry t0 t1 t2 t3 t4.
Proof.
  intros Hr Hh. pose proof (prods_bounds r h Hr Hh) as Hp.
  destruct r as [r0 r1 r2 r3 r4], h as [h0 h1 h2 h3 h4].
  destruct Hr as (R0 & R1 & R2 & R3 & R4), Hh as (G0 & G1 & G2 & G3 & G4). cbn [l0 l1 l2 l3 l4] in *.
  assert (0 <= r1 * 5 < 2 ^ 32 /\ 0 <= r2 * 5 < 2 ^ 32 /\ 0 <= r3 * 5 < 2 ^ 32 /\ 0 <= r4 * 5 < 2 ^ 32) as (S1 & S2 & S3 & S4) by lia.
  unfold prods, prods_ok in *. destruct Hp as (T0 & T1 & T2 & T3 & T4).
  unfold donna_mul. rewrite (wrap_small 32 (r1 * 5)), (wrap_small 32 (r2 * 5)), (wrap_small 32 (r3 * 5)), (wrap_small 32 (r4 * 5)) by done.
  rewrite !dot_exact; try (apply Z.mul_nonneg_nonneg; lia); try lia.
  set (t0 := h0 * r0 + _ + _ + _ + _) in *. set (t1 := h0 * r1 + _ + _ + _ + _) in *. set (t2 := h0 * r2 + _ + _ + _ + _) in *.
  set (t3 := h0 * r3 + _ + _ + _ + _) in *. set (t4 := h0 * r4 + _ + _ + _ + _) in *. clearbody t0 t1 t2 t3 t4.
  rewrite !u32_M26, !Z.shiftr_div_pow2 by lia. unfold add64, carry.
  assert (0 <= t0 / 2 ^ 26 < 2 ^ 34) as Q0 by (Z.div_mod_to_equations; lia). rewrite (wrap_small 64 (t1 + _)) by lia.
  assert (0 <= (t1 + t0 / 2 ^ 26) / 2 ^ 26 < 2 ^ 32) as Q1 by (Z.div_mod_to_equations; lia).
  rewrite (wrap_small 32 _ Q1), (wrap_small 64 (t2 + _)) by lia. set (b1 := (t1 + _) / 2 ^ 26) in *. clearbody b1.
  assert (0 <= (t2 + b1) / 2 ^ 26 < 2 ^ 32) as Q2 by (Z.div_mod_to_equations; lia).
  rewrite (wrap_small 32 _ Q2), (wrap_small 64 (t3 + _)) by lia. set (b2 := (t2 + _) / 2 ^ 26) in *. clearbody b2.
  assert (0 <= (t3 + b2) / 2 ^ 26 < 2 ^ 32) as Q3 by (Z.div_mod_to_equations; lia).
  rewrite (wrap_small 32 _ Q3), (wrap_small 64 (t4 + _)) by lia. set (b3 := (t3 + _) / 2 ^ 26) in *. clearbody b3.
  assert (0 <= (t4 + b3) / 2 ^ 26 <= 546300065) as Q4 by (Z.div_mod_to_equations; lia).
  rewrite (wrap_small 32 ((t4 + b3) / 2 ^ 26)) by lia. rewrite (wrap_small 32 (_ * 5)) by lia.
  pose proof (Z.mod_pos_bound t0 (2 ^ 26) ltac:(lia)). by rewrite (wrap_small 32 (_ + _)) by lia.
Qed.

(** One block: the bounds are kept and the value is multiplied by the key modulo the prime. *)
Lemma donna_mul_ok r h : r_ok r -> hb_ok h ->
  h_ok (donna_mul r h) /\ val (donna_mul r h) mod P1305 = val h * val r mod P1305.
Proof.
  intros Hr Hh. pose proof (donna_mul_carry r h Hr Hh) as E. pose proof (prods_bounds r h Hr Hh) as Hp.
  pose proof (prods_val r h) as Hv. destruct (prods r h) as [[[[t0 t1] t2] t3] t4]. rewrite E. split.
  - destruct Hp as (T0 & T1 & T2 & T3 & T4). unfold h_ok, carry, H0. cbn [l0 l1 l2 l3 l4].
    split; [|split_and!; apply Z.mod_pos_bound; lia]. Z.div_mod_to_equations. lia.
  - destruct (carry_val t0 t1 t2 t3 t4) as (b & ->), Hv as (k & ->).
    replace (val h * val r - P1305 * k - P1305 * b) with (val h * val r + (- k - b) * P1305) by ring.
    apply Z.mod_add. unfold P1305. lia.
Qed.

(** ** The message *)

Lemma le_val_pad m : bytes m -> zlen m < 16 ->
  bytes (m ++ [1] ++ zrepeat (15 - zlen m) 0) /\ zlen (m ++ [1] ++ zrepeat (15 - zlen m) 0) = 16
  /\ le_val (m ++ [1] ++ zrepeat (15 - zlen m) 0) = le_val m + 256 ^ zlen m.
Proof.
  intros Hb Hl. pose proof (zlen_nonneg m). split_and!.
  - apply Forall_app. split; [done|]. apply Forall_app. split; [|apply Forall_replicate; by vm_compute].
    apply Forall_singleton. by vm_compute.
  - rewrite !zlen_app, zlen_zrepeat by lia. change (zlen [1]) with 1. lia.
  - rewrite !le_val_app. unfold zrepeat. rewrite le_val_zeros. change (le_val [1]) with 1. lia.
Qed.

Lemma blocks_ok r rv n : r_ok r -> val r = rv -> forall k h acc m, h_ok h -> bytes m -> val h mod P1305 = acc mod P1305 ->
  (length m < n)%nat -> (length m <= k)%nat ->
  h_ok (blocks n r h m) /\ val (blocks n r h m) mod P1305 = poly_acc k rv acc m mod P1305.
Proof.
  intros Hr Hv. induction n as [|n IH]; intros k h acc m Hh Hb He Hn Hk; [lia|]. cbn [blocks].
  assert (forall h' blk hi, hb_ok h' -> val h' = val h + le_val blk + hi ->
    val (donna_mul r h') mod P1305 = (acc + le_val blk + hi) * rv mod P1305 mod P1305) as Hstep.
  { intros h' blk hi Hh' E. rewrite Z.mod_mod by (unfold P1305; lia).
    rewrite (proj2 (donna_mul_ok r h' Hr Hh')), E, Hv. rewrite <- Z.mul_mod_idemp_l by (unfold P1305; lia).
    rewrite <- !Z.add_assoc, <- Z.add_mod_idemp_l, He, Z.add_mod_idemp_l, Z.mul_mod_idemp_l by (unfold P1305; lia). done. }
  destruct m as [|b m0] eqn:Em.
  { cbn. destruct k; done. }
  rewrite <- Em in *. assert (poly_acc k rv acc m = poly_acc (pred k) rv
      ((acc + le_val (take 16 m) + 256 ^ zlen (take 16 m)) * rv mod P1305) (drop 16 m)) as ->.
  { subst m. destruct k; [cbn in Hk; lia|]. done. }
  destruct (Z.leb_spec 16 (zlen m)) as [Hl|Hl].
  - destruct (add_block_ok h m (Z.shiftl 1 24) Hh Hb Hl (or_intror eq_refl)) as [Hb1 Hv1].
    assert (zlen (take 16 m) = 16) as Hz by (unfold zlen in *; rewrite length_take; lia).
    apply IH; [by apply donna_mul_ok|by apply Forall_drop| |rewrite length_drop; unfold zlen in Hl; lia..].
    apply Hstep; [done|]. rewrite Hv1, Hz. done.
  - destruct (Z.eqb_spec (zlen m) 0) as [Hz|_]; [by subst m; rewrite zlen_cons in Hz; pose proof (zlen_nonneg m0); lia|].
    destruct (le_val_pad m Hb Hl) as (Pb & Pl & Pv).
    destruct (add_block_ok h _ 0 Hh Pb ltac:(lia) (or_introl eq_refl)) as [Hb1 Hv1].
    rewrite (take_ge m), (drop_ge m) by (unfold zlen in Hl; lia).
    split; [by apply donna_mul_ok|]. replace (poly_acc (pred k) rv _ []) with ((acc + le_val m + 256 ^ zlen m) * rv mod P1305) by (by destruct k as [|[]]).
    apply Hstep; [done|]. rewrite Hv1, take_ge by (apply Nat2Z.inj_le; change (zlen (m ++ [1] ++ zrepeat (15 - zlen m) 0) <= 16); lia). rewrite Pv. lia.
Qed.

(** ** The end *)

Definition reduced (h : limbs) : Prop :=
  0 <= l0 h < 2 ^ 26 /\ 0 <= l1 h < 2 ^ 26 /\ 0 <= l2 h < 2 ^ 26 /\ 0 <= l3 h < 2 ^ 26 /\ 0 <= l4 h < 2 ^ 26.

Lemma finish_carry_ok h : h_ok h ->
  reduced (finish_carry h) /\ val (finish_carry h) mod P1305 = val h mod P1305.
Proof.
  destruct h as [h0 h1 h2 h3 h4]. intros (G0 & G1 & G2 & G3 & G4). unfold H0 in *. cbn [l0 l1 l2 l3 l4] in *.
  unfold finish_carry. rewrite !land_M26, !Z.shiftr_div_pow2 by lia.
  assert (0 <= h0 / 2 ^ 26 <= 41) as C0 by (Z.div_mod_to_equations; lia). rewrite (wrap_small 32 (h1 + _)) by lia.
  set (x1 := h1 + h0 / 2 ^ 26) in *. assert (0 <= x1 / 2 ^ 26 <= 1) as C1 by (subst x1; Z.div_mod_to_equations; lia).
  rewrite (wrap_small 32 (h2 + _)) by lia. set (x2 := h2 + x1 / 2 ^ 26) in *.
  assert (0 <= x2 / 2 ^ 26 <= 1) as C2 by (subst x2; clearbody x1; Z.div_mod_to_equations; lia).
  rewrite (wrap_small 32 (h3 + _)) by lia. set (x3 := h3 + x2 / 2 ^ 26) in *.
  assert (0 <= x3 / 2 ^ 26 <= 1) as C3 by (subst x3; clearbody x2; Z.div_mod_to_equations; lia).
  rewrite (wrap_small 32 (h4 + _)) by lia. set (x4 := h4 + x3 / 2 ^ 26) in *.
  assert (0 <= x4 / 2 ^ 26 <= 1) as C4 by (subst x4; clearbody x3; Z.div_mod_to_equations; lia).
  rewrite (wrap_small 32 (_ * 5)) by lia. pose proof (Z.mod_pos_bound h0 (2 ^ 26) ltac:(lia)) as B0.
  rewrite (wrap_small 32 (h0 mod _ + _)) by lia. set (y0 := h0 mod 2 ^ 26 + _) in *.
  assert (0 <= y0 / 2 ^ 26 <= 1) as C5 by (subst y0; clear -C4 B0; Z.div_mod_to_equations; lia).
  pose proof (Z.mod_pos_bound x1 (2 ^ 26) ltac:(lia)) as B1. rewrite (wrap_small 32 (x1 mod _ + _)) by lia.
  assert (x1 mod 2 ^ 26 + y0 / 2 ^ 26 < 2 ^ 26) as Hx.
  { destruct (Z.eq_dec (y0 / 2 ^ 26) 0); [lia|].
    assert (x4 / 2 ^ 26 = 1) by (subst y0; clear -C4 B0 C5 n; Z.div_mod_to_equations; lia).
    assert (x3 / 2 ^ 26 = 1) by (subst x4; clear -C3 G4 H; Z.div_mod_to_equations; lia).
    assert (x2 / 2 ^ 26 = 1) by (subst x3; clear -C2 G3 H1; Z.div_mod_to_equations; lia).
    assert (x1 / 2 ^ 26 = 1) by (subst x2; clear -C1 G2 H2; Z.div_mod_to_equations; lia).
    clear -H3 C0 G1 C5. subst x1. Z.div_mod_to_equations. lia. }
  split; [unfold reduced; cbn [l0 l1 l2 l3 l4]; split_and!; try (apply Z.mod_pos_bound; lia); lia|].
  assert (val (Limbs (y0 mod 2 ^ 26) (x1 mod 2 ^ 26 + y0 / 2 ^ 26) (x2 mod 2 ^ 26) (x3 mod 2 ^ 26) (x4 mod 2 ^ 26))
          = val (Limbs h0 h1 h2 h3 h4) + - (x4 / 2 ^ 26) * P1305) as ->; [|apply Z.mod_add; unfold P1305; lia].
  unfold val, P1305. cbn [l0 l1 l2 l3 l4]. subst y0 x4 x3 x2 x1. clear. Z.div_mod_to_equations. lia.
Qed.

Lemma finish_select_ok h : reduced h ->
  reduced (finish_select h) /\ val (finish_select h) = val h mod P1305.
Proof.
  destruct h as [h0 h1 h2 h3 h4]. intros (G0 & G1 & G2 & G3 & G4). cbn [l0 l1 l2 l3 l4] in *.
  unfold finish_select. rewrite !land_M26, !Z.shiftr_div_pow2 by lia. rewrite (wrap_small 32 (h0 + 5)) by lia.
  set (g0 := h0 + 5) in *. assert (0 <= g0 / 2 ^ 26 <= 1) as C0 by (subst g0; Z.div_mod_to_equations; lia).
  rewrite (wrap_small 32 (h1 + _)) by lia. set (g1 := h1 + g0 / 2 ^ 26) in *.
  assert (0 <= g1 / 2 ^ 26 <= 1) as C1 by (subst g1; clearbody g0; Z.div_mod_to_equations; lia).
  rewrite (wrap_small 32 (h2 + _)) by lia. set (g2 := h2 + g1 / 2 ^ 26) in *.
  assert (0 <= g2 / 2 ^ 26 <= 1) as C2 by (subst g2; clearbody g1; Z.div_mod_to_equations; lia).
  rewrite (wrap_small 32 (h3 + _)) by lia. set (g3 := h3 + g2 / 2 ^ 26) in *.
  assert (0 <= g3 / 2 ^ 26 <= 1) as C3 by (subst g3; clearbody g2; Z.div_mod_to_equations; lia).
  change (Z.shiftl 1 26) with (2 ^ 26).
  assert (val (Limbs h0 h1 h2 h3 h4) + 5 = g0 mod 2 ^ 26 + 2 ^ 26 * (g1 mod 2 ^ 26) + 2 ^ 52 * (g2 mod 2 ^ 26)
            + 2 ^ 78 * (g3 mod 2 ^ 26) + 2 ^ 104 * (h4 + g3 / 2 ^ 26)) as Hg.
  { unfold val. cbn [l0 l1 l2 l3 l4]. subst g3 g2 g1 g0. clear. Z.div_mod_to_equations. lia. }
  pose proof (Z.mod_pos_bound g0 (2 ^ 26) ltac:(lia)) as B0. pose proof (Z.mod_pos_bound g1 (2 ^ 26) ltac:(lia)) as B1.
  pose proof (Z.mod_pos_bound g2 (2 ^ 26) ltac:(lia)) as B2. pose proof (Z.mod_pos_bound g3 (2 ^ 26) ltac:(lia)) as B3.
  assert (0 <= val (Limbs h0 h1 h2 h3 h4) < 2 ^ 130) as Hvr by (unfold val; cbn [l0 l1 l2 l3 l4]; lia).
  destruct (Z.le_gt_cases (2 ^ 26) (h4 + g3 / 2 ^ 26)) as [Hc|Hc].
  - assert (h4 + g3 / 2 ^ 26 - 2 ^ 26 = 0) as -> by lia. change (u32 0) with 0. change (0 / 2 ^ 31) with 0.
    change (u32 (0 - 1)) with (Z.ones 32). change (u32 (Z.lnot (Z.ones 32))) with 0. rewrite !Z.land_0_r, !Z.lor_0_l, !Z.land_ones by lia.
    rewrite !(Z.mod_small _ (2 ^ 32)) by lia. split; [unfold reduced; cbn [l0 l1 l2 l3 l4]; lia|].
    apply (Z.mod_unique_pos _ _ 1); unfold val, P1305 in *; cbn [l0 l1 l2 l3 l4] in *; lia.
  - assert (u32 (h4 + g3 / 2 ^ 26 - 2 ^ 26) = h4 + g3 / 2 ^ 26 - 2 ^ 26 + 2 ^ 32) as ->.
    { unfold wrap. symmetry. apply (Z.mod_unique_pos _ _ (-1)); lia. }
    replace ((h4 + g3 / 2 ^ 26 - 2 ^ 26 + 2 ^ 32) / 2 ^ 31) with 1 by (apply (Z.div_unique_pos _ _ _ (h4 + g3 / 2 ^ 26 - 2 ^ 26 + 2 ^ 31)); lia).
    change (u32 (1 - 1)) with 0. change (u32 (Z.lnot 0)) with (Z.ones 32). rewrite !Z.land_0_r, !Z.lor_0_r, !Z.land_ones by lia.
    rewrite !(Z.mod_small _ (2 ^ 32)) by lia. split; [unfold reduced; cbn [l0 l1 l2 l3 l4]; lia|].
    symmetry. apply Z.mod_small. unfold P1305. split; [lia|]. lia.
Qed.

(** Two limbs joined into a word: [h >> s | h' << (26 - s)] in 32 bits. *)
Lemma limb_word a b s : 0 <= s <= 26 -> 0 <= a < 2 ^ 26 -> 0 <= b ->
  Z.lor (Z.shiftr a s) (u32 (Z.shiftl b (26 - s))) = a / 2 ^ s + 2 ^ (26 - s) * (b mod 2 ^ (6 + s)).
Proof.
  intros Hs Ha Hb. assert (u32 (Z.shiftl b (26 - s)) = Z.shiftl (b mod 2 ^ (6 + s)) (26 - s)) as ->.
  { rewrite !Z.shiftl_mul_pow2 by lia. unfold wrap. replace 32 with ((6 + s) + (26 - s)) at 1 by lia.
    rewrite Z.pow_add_r, Z.mul_mod_distr_r by lia. done. }
  rewrite Z.shiftr_div_pow2 by lia. rewrite lor_low; [lia|lia|].
  split; [apply Z.div_pos; lia|]. apply Z.div_lt_upper_bound; [lia|]. rewrite <- Z.pow_add_r by lia.
  replace (s + (26 - s)) with 26 by lia. lia.
Qed.

Lemma finish_tag_ok h key : reduced h -> bytes key -> zlen key = 32 ->
  finish_tag h key = le_bytes 16 (val h + le_val (drop 16 key)).
Proof.
  destruct h as [h0 h1 h2 h3 h4]. intros (G0 & G1 & G2 & G3 & G4) Hb Hl. cbn [l0 l1 l2 l3 l4] in *.
  assert (le_val (drop 16 key) = U8TO32_LE (drop 16 key) + 2 ^ 32 * U8TO32_LE (drop 20 key) + 2 ^ 64 * U8TO32_LE (drop 24 key)
            + 2 ^ 96 * U8TO32_LE (drop 28 key)) as ->.
  { pose proof (le_val_words (drop 16 key) ltac:(by apply Forall_drop)) as H. rewrite !drop_drop in H.
    rewrite take_ge in H by (rewrite length_drop; unfold zlen in Hl; lia). apply H. unfold zlen in *. rewrite length_drop. lia. }
  pose proof (U8TO32_range _ (Forall_drop _ 16 _ Hb)) as R0. pose proof (U8TO32_range _ (Forall_drop _ 20 _ Hb)) as R1.
  pose proof (U8TO32_range _ (Forall_drop _ 24 _ Hb)) as R2. pose proof (U8TO32_range _ (Forall_drop _ 28 _ Hb)) as R3.
  unfold finish_tag, val. cbn [l0 l1 l2 l3 l4].
  set (s0 := U8TO32_LE (drop 16 key)) in *. set (s1 := U8TO32_LE (drop 20 key)) in *. set (s2 := U8TO32_LE (drop 24 key)) in *.
  set (s3 := U8TO32_LE (drop 28 key)) in *. clearbody s0 s1 s2 s3.
  pose proof (limb_word h0 h1 0 ltac:(lia) G0 ltac:(lia)) as W0. pose proof (limb_word h1 h2 6 ltac:(lia) G1 ltac:(lia)) as W1.
  pose proof (limb_word h2 h3 12 ltac:(lia) G2 ltac:(lia)) as W2. pose proof (limb_word h3 h4 18 ltac:(lia) G3 ltac:(lia)) as W3.
  rewrite Z.shiftr_0_r in W0. change (26 - 0) with 26 in W0. change (26 - 6) with 20 in W1. change (26 - 12) with 14 in W2.
  change (26 - 18) with 8 in W3. change (6 + 0) with 6 in W0. change (6 + 6) with 12 in W1. change (6 + 12) with 18 in W2.
  change (6 + 18) with 24 in W3. change (2 ^ 0) with 1 in W0. rewrite Z.div_1_r in W0. rewrite W0, W1, W2, W3.
  clear W0 W1 W2 W3. unfold add64. rewrite !Z.shiftr_div_pow2 by lia.
  assert (0 <= h0 + 2 ^ 26 * (h1 mod 2 ^ 6) < 2 ^ 32) as V0 by (Z.div_mod_to_equations; lia).
  assert (0 <= h1 / 2 ^ 6 + 2 ^ 20 * (h2 mod 2 ^ 12) < 2 ^ 32) as V1 by (Z.div_mod_to_equations; lia).
  assert (0 <= h2 / 2 ^ 12 + 2 ^ 14 * (h3 mod 2 ^ 18) < 2 ^ 32) as V2 by (Z.div_mod_to_equations; lia).
  assert (0 <= h3 / 2 ^ 18 + 2 ^ 8 * (h4 mod 2 ^ 24) < 2 ^ 32) as V3 by (Z.div_mod_to_equations; lia).
  assert (exists k, h0 + 2 ^ 26 * h1 + 2 ^ 52 * h2 + 2 ^ 78 * h3 + 2 ^ 104 * h4
    = (h0 + 2 ^ 26 * (h1 mod 2 ^ 6)) + 2 ^ 32 * (h1 / 2 ^ 6 + 2 ^ 20 * (h2 mod 2 ^ 12))
      + 2 ^ 64 * (h2 / 2 ^ 12 + 2 ^ 14 * (h3 mod 2 ^ 18)) + 2 ^ 96 * (h3 / 2 ^ 18 + 2 ^ 8 * (h4 mod 2 ^ 24)) + 2 ^ 128 * k) as [k ->].
  { exists (h4 / 2 ^ 24). clear. Z.div_mod_to_equations. lia. }
  set (w0 := h0 + _) in *. set (w1 := h1 / 2 ^ 6 + _) in *. set (w2 := h2 / 2 ^ 12 + _) in *. set (w3 := h3 / 2 ^ 18 + _) in *.
  clearbody w0 w1 w2 w3. clear G0 G1 G2 G3 G4.
  rewrite (wrap_small 64 (w0 + s0)), (wrap_small 64 (w1 + s1)), (wrap_small 64 (w2 + s2)), (wrap_small 64 (w3 + s3)) by lia.
  assert (0 <= (w0 + s0) / 2 ^ 32 <= 1) as C0 by (Z.div_mod_to_equations; lia). rewrite (wrap_small 64 (w1 + s1 + _)) by lia.
  assert (0 <= (w1 + s1 + (w0 + s0) / 2 ^ 32) / 2 ^ 32 <= 1) as C1 by (clear - V1 R1 C0; Z.div_mod_to_equations; lia).
  rewrite (wrap_small 64 (w2 + s2 + _)) by lia.
  assert (0 <= (w2 + s2 + (w1 + s1 + (w0 + s0) / 2 ^ 32) / 2 ^ 32) / 2 ^ 32 <= 1) as C2 by (clear - V2 R2 C1; Z.div_mod_to_equations; lia).
  rewrite (wrap_small 64 (w3 + s3 + _)) by lia.
  rewrite le_bytes_words, !U32TO8_le. f_equal; [|f_equal; [|f_equal]]; apply le_bytes_mod;
    change (256 ^ Z.of_nat 4) with (2 ^ 32); clear; Z.div_mod_to_equations; lia.
Qed.

Lemma poly_acc_range n r acc m : 0 <= acc < P1305 -> 0 <= poly_acc n r acc m < P1305.
Proof.
  revert acc m. induction n as [|n IH]; intros acc m Ha; [done|]. cbn [poly_acc]. destruct m; [done|].
  apply IH, Z.mod_pos_bound. unfold P1305. lia.
Qed.

Lemma poly1305_exact m key : bytes m -> bytes key -> zlen key = 32 -> poly1305_auth m key = poly1305 m key.
Proof.
  intros Hm Hk Hl. destruct (clamp_key_ok key Hk ltac:(lia)) as [Hr Hv].
  assert (h_ok (Limbs 0 0 0 0 0)) as H00 by (repeat split; by vm_compute).
  destruct (blocks_ok _ _ (S (length m)) Hr Hv (length m) _ 0 m H00 Hm eq_refl ltac:(lia) ltac:(lia)) as [Hh Hb].
  unfold poly1305_auth. destruct (finish_carry_ok _ Hh) as [Hc Hcv]. destruct (finish_select_ok _ Hc) as [Hs Hsv].
  rewrite finish_tag_ok by done. rewrite Hsv, Hcv, Hb. unfold poly1305. do 2 f_equal. apply Z.mod_small, poly_acc_range. by vm_compute.
Qed.

(** C29: Poly1305. For every message and 32-byte key the tag that the code computes, on limbs of 26 bits in 32-bit words and products in 64-bit words with
    their wrap-around written out, is the tag of RFC 8439. *)
Theorem poly1305_auth_is_poly1305 m key : bytes m -> bytes key -> zlen key = 32 ->
  poly1305_auth m key = poly1305 m key.
Proof. apply poly1305_exact. Qed.

Lemma poly1305_auth_is_poly1305_witness :
  poly1305_auth (zrepeat 40 255) (zrepeat 32 255) = poly1305 (zrepeat 40 255) (zrepeat 32 255).
Proof. apply poly1305_auth_is_poly1305; [apply bytesb_spec; reflexivity|apply bytesb_spec; reflexivity|reflexivity]. Defined.
