(* ===== verification/ChaCha.v ===== *)
(** * ChaCha20 (chapoly/chacha.c)

    The stream cipher with its 64-bit block counter. The theorem of the file: what
    [chacha_encrypt_bytes] writes is the message xored with the key stream of the
    reference description (RFC 8439 with the counter and nonce of 64 bits each), whatever
    was in the temporary block, and the counter is left after the last block. *)
From stdpp Require Import base list.
From Stdlib Require Import ZArith Lia.
From S2P Require Import Prelude Words.

Local Open Scope list_scope.
Local Open Scope Z_scope.

(** ** The code *)

Definition ROTL32 (v n : Z) : Z := Z.lor (u32 (Z.shiftl v n)) (Z.shiftr v (32 - n)).
Definition XOR (v w : Z) : Z := Z.lxor v w.
Definition PLUS (v w : Z) : Z := u32 (v + w).
Definition PLUSONE (v : Z) : Z := PLUS v 1.

Definition QUARTERROUND (a b c d : Z) : Z * Z * Z * Z :=
  let a := PLUS a b in let d := ROTL32 (XOR d a) 16 in
  let c := PLUS c d in let b := ROTL32 (XOR b c) 12 in
  let a := PLUS a b in let d := ROTL32 (XOR d a) 8 in
  let c := PLUS c d in let b := ROTL32 (XOR b c) 7 in
  (a, b, c, d).

(** [x0 .. x15] and the input words of a context. *)
Record words := Words16 {
  w0 : Z; w1 : Z; w2 : Z; w3 : Z; w4 : Z; w5 : Z; w6 : Z; w7 : Z;
  w8 : Z; w9 : Z; w10 : Z; w11 : Z; w12 : Z; w13 : Z; w14 : Z; w15 : Z
}.
Definition chacha_ctx : Type := words.

(** ASCII of "expand 32-byte k" and "expand 16-byte k" *)
Definition sigma : list Z := [101; 120; 112; 97; 110; 100; 32; 51; 50; 45; 98; 121; 116; 101; 32; 107].
Definition tau : list Z := [101; 120; 112; 97; 110; 100; 32; 49; 54; 45; 98; 121; 116; 101; 32; 107].

Definition chacha_keysetup (x : chacha_ctx) (k : list Z) (kbits : Z) : chacha_ctx :=
  let k' := if kbits =? 256 then drop 16 k else k in
  let constants := if kbits =? 256 then sigma else tau in
  Words16 (U8TO32_LE constants) (U8TO32_LE (drop 4 constants)) (U8TO32_LE (drop 8 constants)) (U8TO32_LE (drop 12 constants))
    (U8TO32_LE k) (U8TO32_LE (drop 4 k)) (U8TO32_LE (drop 8 k)) (U8TO32_LE (drop 12 k))
    (U8TO32_LE k') (U8TO32_LE (drop 4 k')) (U8TO32_LE (drop 8 k')) (U8TO32_LE (drop 12 k'))
    (w12 x) (w13 x) (w14 x) (w15 x).

Definition chacha_ivsetup (x : chacha_ctx) (iv : list Z) (counter : option (list Z)) : chacha_ctx :=
  let c0 := match counter with None => 0 | Some c => U8TO32_LE c end in
  let c1 := match counter with None => 0 | Some c => U8TO32_LE (drop 4 c) end in
  Words16 (w0 x) (w1 x) (w2 x) (w3 x) (w4 x) (w5 x) (w6 x) (w7 x) (w8 x) (w9 x) (w10 x) (w11 x)
    c0 c1 (U8TO32_LE iv) (U8TO32_LE (drop 4 iv)).

Definition doubleround (x : words) : words :=
  let '(Words16 x0 x1 x2 x3 x4 x5 x6 x7 x8 x9 x10 x11 x12 x13 x14 x15) := x in
  let '(x0, x4, x8, x12) := QUARTERROUND x0 x4 x8 x12 in
  let '(x1, x5, x9, x13) := QUARTERROUND x1 x5 x9 x13 in
  let '(x2, x6, x10, x14) := QUARTERROUND x2 x6 x10 x14 in
  let '(x3, x7, x11, x15) := QUARTERROUND x3 x7 x11 x15 in
  let '(x0, x5, x10, x15) := QUARTERROUND x0 x5 x10 x15 in
  let '(x1, x6, x11, x12) := QUARTERROUND x1 x6 x11 x12 in
  let '(x2, x7, x8, x13) := QUARTERROUND x2 x7 x8 x13 in
  let '(x3, x4, x9, x14) := QUARTERROUND x3 x4 x9 x14 in
  Words16 x0 x1 x2 x3 x4 x5 x6 x7 x8 x9 x10 x11 x12 x13 x14 x15.

Definition words_list (x : words) : list Z :=
  [w0 x; w1 x; w2 x; w3 x; w4 x; w5 x; w6 x; w7 x; w8 x; w9 x; w10 x; w11 x; w12 x; w13 x; w14 x; w15 x].

(** [PLUS(x_i, j_i)] for each word. *)
Definition plus_words (x j : words) : list Z :=
  map (fun p => PLUS (fst p) (snd p)) (combine (words_list x) (words_list j)).

(** [XOR(x_i, U8TO32_LITTLE(m + 4 * i))] for each word, stored. *)
Fixpoint xor_store (xs : list Z) (m : list Z) : list Z :=
  match xs with [] => [] | x :: xs => U32TO8_LE (XOR x (U8TO32_LE m)) ++ xor_store xs (drop 4 m) end.

Definition next_counter (j : words) : words :=
  let j12 := PLUSONE (w12 j) in
  let j13 := if j12 =? 0 then PLUSONE (w13 j) else w13 j in
  Words16 (w0 j) (w1 j) (w2 j) (w3 j) (w4 j) (w5 j) (w6 j) (w7 j) (w8 j) (w9 j) (w10 j) (w11 j) j12 j13 (w14 j) (w15 j).

(** The loop; [tmp] is what the uninitialised temporary block holds. Each round takes 64
    bytes, so [length m] rounds are enough. *)
Fixpoint chacha_loop (tmp : list Z) (n : nat) (j : words) (m : list Z) : list Z * words :=
  match n with
  | O => ([], j)
  | S n =>
      let blk := if zlen m <? 64 then m ++ drop (length m) tmp else m in
      let x := Nat.iter 10 doubleround j in
      let c := xor_store (plus_words x j) blk in
      let j := next_counter j in
      if zlen m <=? 64 then (take (length m) c, j)
      else let (r, j') := chacha_loop tmp n j (drop 64 m) in (c ++ r, j')
  end.

Definition chacha_encrypt_bytes (tmp : list Z) (x : chacha_ctx) (m : list Z) : list Z * chacha_ctx :=
  if zlen m =? 0 then ([], x) else chacha_loop tmp (length m) x m.

(** ** The reference *)

Definition rotl (v n : Z) : Z := v * 2 ^ n mod 2 ^ 32 + v / 2 ^ (32 - n).
Definition quarter (s : list Z) (i j k l : nat) : list Z :=
  let at' n s := List.nth n s 0 in
  let step a b d n s := let s := <[a := (at' a s + at' b s) mod 2 ^ 32]> s in <[d := rotl (Z.lxor (at' d s) (at' a s)) n]> s in
  step k l j 7 (step i j l 8 (step k l j 12 (step i j l 16 s))).
Definition inner_block (s : list Z) : list Z :=
  fold_left (fun s q => let '(i, j, k, l) := q in quarter s i j k l)
    [(0, 4, 8, 12); (1, 5, 9, 13); (2, 6, 10, 14); (3, 7, 11, 15);
     (0, 5, 10, 15); (1, 6, 11, 12); (2, 7, 8, 13); (3, 4, 9, 14)]%nat s.
Definition chacha20_block (s : list Z) : list Z :=
  flat_map (le_bytes 4) (map (fun p => (fst p + snd p) mod 2 ^ 32) (combine (Nat.iter 10 inner_block s) s)).
(** The state for the [i]th block from one with a 64-bit counter in words 12 and 13. *)
Definition at_block (s : list Z) (i : Z) : list Z :=
  let c := List.nth 12 s 0 + 2 ^ 32 * List.nth 13 s 0 + i in
  <[12%nat := c mod 2 ^ 32]> (<[13%nat := c / 2 ^ 32 mod 2 ^ 32]> s).
Fixpoint keystream (s : list Z) (i : Z) (n : nat) : list Z :=
  match n with O => [] | S n => chacha20_block (at_block s i) ++ keystream s (i + 1) n end.
Definition xor_list (a b : list Z) : list Z := map (fun p => Z.lxor (fst p) (snd p)) (combine a b).

(** RFC 8439, 2.3.2 *)
Example chacha_rfc_vector :
  let key := map Z.of_nat (seq 0 32) in
  let x := chacha_ivsetup (chacha_keysetup (Words16 0 0 0 0 0 0 0 0 0 0 0 0 0 0 0 0) key 256)
             [0; 0; 0; 0x4a; 0; 0; 0; 0] (Some [1; 0; 0; 0; 0; 0; 0; 9]) in
  fst (chacha_encrypt_bytes [] x (zrepeat 64 0))
  = [0x10; 0xf1; 0xe7; 0xe4; 0xd1; 0x3b; 0x59; 0x15; 0x50; 0x0f; 0xdd; 0x1f; 0xa3; 0x20; 0x71; 0xc4;
     0xc7; 0xd1; 0xf4; 0xc7; 0x33; 0xc0; 0x68; 0x03; 0x04; 0x22; 0xaa; 0x9a; 0xc3; 0xd4; 0x6c; 0x4e;
     0xd2; 0x82; 0x64; 0x46; 0x07; 0x9f; 0xaa; 0x09; 0x14; 0xc2; 0xd7; 0x05; 0xd9; 0x8b; 0x02; 0xa2;
     0xb5; 0x12; 0x9c; 0xd1; 0xde; 0x16; 0x4e; 0xb9; 0xcb; 0xd0; 0x83; 0xe8; 0xa2; 0x50; 0x3c; 0x4e]
  /\ chacha20_block (words_list x) = fst (chacha_encrypt_bytes [] x (zrepeat 64 0)).
Proof. vm_compute. split; reflexivity. Qed.

(** ** Words *)

Definition word (v : Z) : Prop := 0 <= v < 2 ^ 32.
Definition words_ok (x : words) : Prop := Forall word (words_list x).

Definition words_okb (x : words) : bool := forallb (fun v => (0 <=? v) && (v <? 2 ^ 32)) (words_list x).
Lemma words_okb_ok x : words_okb x = true -> words_ok x.
Proof.
  unfold words_okb, words_ok. rewrite forallb_forall. intros H. apply Forall_forall. intros v Hv.
  apply list_elem_of_In in Hv. specialize (H v Hv). unfold word. lia.
Qed.

Lemma word_mod v : word (v mod 2 ^ 32).
Proof. apply Z.mod_pos_bound. lia. Qed.

Lemma word_bits v n : 0 <= v -> (forall i, n <= i -> Z.testbit v i = false) -> 0 <= n -> v < 2 ^ n.
Proof.
  intros Hv Hb Hn. destruct (Z.eq_dec v 0) as [->|]; [apply Z.pow_pos_nonneg; lia|].
  apply Z.log2_lt_pow2; [lia|]. destruct (Z.lt_ge_cases (Z.log2 v) n) as [|H]; [done|].
  pose proof (Hb _ H) as E. by rewrite Z.bit_log2 in E by lia.
Qed.
Lemma bits_above v n i : 0 <= v < 2 ^ n -> 0 <= n -> n <= i -> Z.testbit v i = false.
Proof.
  intros Hv Hn Hi. destruct (Z.eq_dec v 0) as [->|]; [apply Z.bits_0|].
  apply Z.bits_above_log2; [lia|]. apply (Z.lt_le_trans _ n); [|done]. apply Z.log2_lt_pow2; lia.
Qed.
Lemma word_lxor v w : word v -> word w -> word (Z.lxor v w).
Proof.
  intros Hv Hw. split; [apply Z.lxor_nonneg; split; intros; [apply Hw|apply Hv]|].
  apply word_bits; [apply Z.lxor_nonneg; split; intros; [apply Hw|apply Hv]| |lia].
  intros i Hi. rewrite Z.lxor_spec, (bits_above v 32 i), (bits_above w 32 i) by (done || lia). done.
Qed.

Lemma ROTL32_rotl v n : 0 < n < 32 -> word v -> ROTL32 v n = rotl v n /\ word (rotl v n).
Proof.
  intros Hn [Hv Hv2]. assert (2 ^ 32 = 2 ^ n * 2 ^ (32 - n)) as Hp by (rewrite <- Z.pow_add_r by lia; f_equal; lia).
  assert (v * 2 ^ n mod 2 ^ 32 = (v mod 2 ^ (32 - n)) * 2 ^ n) as E.
  { rewrite Hp, (Z.mul_comm (2 ^ n)), Z.mul_mod_distr_r by lia. done. }
  assert (0 <= v / 2 ^ (32 - n) < 2 ^ n) as Hd.
  { split; [apply Z.div_pos; lia|]. apply Z.div_lt_upper_bound; lia. }
  pose proof (Z.mod_pos_bound v (2 ^ (32 - n)) ltac:(lia)) as Hm.
  unfold ROTL32, rotl, wrap, word. rewrite Z.shiftl_mul_pow2, Z.shiftr_div_pow2, E by lia. split; [|nia].
  rewrite <- Z.shiftl_mul_pow2 by lia. rewrite lor_shiftl_add by lia. by rewrite Z.shiftl_mul_pow2 by lia.
Qed.

(** ** Rounds *)

Definition qr (a b c d : Z) : Z * Z * Z * Z :=
  let a := (a + b) mod 2 ^ 32 in let d := rotl (Z.lxor d a) 16 in
  let c := (c + d) mod 2 ^ 32 in let b := rotl (Z.lxor b c) 12 in
  let a := (a + b) mod 2 ^ 32 in let d := rotl (Z.lxor d a) 8 in
  let c := (c + d) mod 2 ^ 32 in let b := rotl (Z.lxor b c) 7 in
  (a, b, c, d).

Lemma QUARTERROUND_qr a b c d : word a -> word b -> word c -> word d ->
  QUARTERROUND a b c d = qr a b c d
  /\ let '(a', b', c', d') := qr a b c d in word a' /\ word b' /\ word c' /\ word d'.
Proof.
  intros Ha Hb Hc Hd. unfold QUARTERROUND, qr, PLUS, XOR, wrap.
  repeat match goal with
  | |- context [(?x + ?y) mod 2 ^ 32] => is_var x; is_var y; pose proof (word_mod (x + y));
      generalize dependent ((x + y) mod 2 ^ 32); intros
  | |- context [ROTL32 (Z.lxor ?x ?y) ?n] => is_var x; is_var y;
      destruct (ROTL32_rotl (Z.lxor x y) n ltac:(lia) ltac:(by apply word_lxor)) as [-> ?];
      generalize dependent (rotl (Z.lxor x y) n); intros
  end. done.
Qed.

Lemma doubleround_inner x : words_ok x ->
  words_list (doubleround x) = inner_block (words_list x) /\ words_ok (doubleround x).
Proof.
  destruct x as [x0 x1 x2 x3 x4 x5 x6 x7 x8 x9 x10 x11 x12 x13 x14 x15]. intros H. unfold words_ok, words_list in H. cbn in H.
  repeat (apply Forall_cons in H as [? H]). clear H. unfold doubleround.
  assert (inner_block (words_list (Words16 x0 x1 x2 x3 x4 x5 x6 x7 x8 x9 x10 x11 x12 x13 x14 x15))
    = let '(x0, x4, x8, x12) := qr x0 x4 x8 x12 in
      let '(x1, x5, x9, x13) := qr x1 x5 x9 x13 in
      let '(x2, x6, x10, x14) := qr x2 x6 x10 x14 in
      let '(x3, x7, x11, x15) := qr x3 x7 x11 x15 in
      let '(x0, x5, x10, x15) := qr x0 x5 x10 x15 in
      let '(x1, x6, x11, x12) := qr x1 x6 x11 x12 in
      let '(x2, x7, x8, x13) := qr x2 x7 x8 x13 in
      let '(x3, x4, x9, x14) := qr x3 x4 x9 x14 in
      [x0; x1; x2; x3; x4; x5; x6; x7; x8; x9; x10; x11; x12; x13; x14; x15]) as ->.
  { reflexivity. }
  repeat match goal with |- context [QUARTERROUND ?a ?b ?c ?d] =>
    is_var a; is_var b; is_var c; is_var d;
    let E := fresh in let a' := fresh in let b' := fresh in let c' := fresh in let d' := fresh in
    destruct (QUARTERROUND_qr a b c d ltac:(assumption) ltac:(assumption) ltac:(assumption) ltac:(assumption)) as [-> E];
    destruct (qr a b c d) as [[[a' b'] c'] d']; destruct E as (? & ? & ? & ?)
  end.
  split; [done|]. unfold words_ok, words_list. cbn. repeat (apply Forall_cons_2; [assumption|]). apply Forall_nil_2.
Qed.

Lemma rounds_inner n x : words_ok x ->
  words_list (Nat.iter n doubleround x) = Nat.iter n inner_block (words_list x) /\ words_ok (Nat.iter n doubleround x).
Proof.
  intros Hx. induction n as [|n [E Hn]]; [done|].
  change (Nat.iter (S n) doubleround x) with (doubleround (Nat.iter n doubleround x)).
  change (Nat.iter (S n) inner_block (words_list x)) with (inner_block (Nat.iter n inner_block (words_list x))).
  destruct (doubleround_inner (Nat.iter n doubleround x) Hn) as [E' Hn']. split; [|exact Hn'].
  by rewrite E', E.
Qed.

(** ** Bytes *)

Lemma lxor_div a b : Z.lxor a b / 256 = Z.lxor (a / 256) (b / 256).
Proof. change 256 with (2 ^ 8). rewrite <- !Z.shiftr_div_pow2 by lia. apply Z.shiftr_lxor. Qed.
Lemma lxor_mod a b : Z.lxor a b mod 256 = Z.lxor (a mod 256) (b mod 256).
Proof.
  change 256 with (2 ^ 8). rewrite <- !Z.land_ones by lia. apply Z.bits_inj'. intros i _.
  rewrite !Z.land_spec, !Z.lxor_spec, !Z.land_spec.
  by destruct (Z.testbit a i), (Z.testbit b i), (Z.testbit (Z.ones 8) i).
Qed.
Lemma le_bytes_lxor n a b : le_bytes n (Z.lxor a b) = xor_list (le_bytes n b) (le_bytes n a).
Proof.
  revert a b. induction n as [|n IH]; intros a b; [done|]. cbn [le_bytes]. rewrite lxor_div, lxor_mod, IH.
  unfold xor_list. cbn [combine map fst snd]. by rewrite Z.lxor_comm.
Qed.

Lemma xor_list_app a b c d : length a = length c -> xor_list (a ++ b) (c ++ d) = xor_list a c ++ xor_list b d.
Proof.
  intros H. unfold xor_list. rewrite <- map_app. f_equal. revert c H.
  induction a as [|x a IH]; intros [|y c] H; try done. cbn. f_equal. apply IH. by injection H.
Qed.
Lemma length_xor_list a b : length (xor_list a b) = min (length a) (length b).
Proof. unfold xor_list. by rewrite length_map, length_combine. Qed.
Lemma xor_list_take a b n : take n (xor_list a b) = xor_list (take n a) b.
Proof.
  revert a b. induction n as [|n IH]; intros [|x a] [|y b]; try done. unfold xor_list in *. cbn. f_equal. apply IH.
Qed.
(** Only as much of the second list as the first is long matters. *)
Lemma xor_list_take_r a b n : (length a <= n)%nat -> xor_list a (take n b) = xor_list a b.
Proof.
  revert b n. induction a as [|x a IH]; intros [|y b] [|n] H; try done; cbn in H; try lia.
  unfold xor_list in *. cbn. f_equal. apply IH. lia.
Qed.
Lemma xor_list_drop_r a b r : (length a <= length b)%nat -> xor_list a (b ++ r) = xor_list a b.
Proof. intros H. rewrite <- (xor_list_take_r a (b ++ r) (length a)), <- (xor_list_take_r a b (length a)) by lia. by rewrite take_app_le. Qed.
(** Xoring twice. *)
Lemma xor_list_twice a k : (length a <= length k)%nat -> xor_list (xor_list a k) k = a.
Proof.
  revert k. induction a as [|x a IH]; intros [|y k] H; try done; cbn in H; [lia|]. unfold xor_list in *. cbn.
  rewrite Z.lxor_assoc, Z.lxor_nilpotent, Z.lxor_0_r. f_equal. apply IH. lia.
Qed.

Lemma length_ser xs : length (flat_map (le_bytes 4) xs) = (4 * length xs)%nat.
Proof. induction xs as [|x xs IH]; [done|]. cbn [flat_map]. rewrite length_app, length_le_bytes, IH. cbn [length]. lia. Qed.

Lemma xor_store_xor xs m : bytes m -> (4 * length xs <= length m)%nat ->
  xor_store xs m = xor_list (take (4 * length xs) m) (flat_map (le_bytes 4) xs).
Proof.
  revert m. induction xs as [|x xs IH]; intros m Hm Hl; [by rewrite take_0|]. cbn [xor_store flat_map].
  cbn [length] in *. rewrite IH by (try (by apply Forall_drop); rewrite length_drop; lia).
  assert (length (take 4 m) = 4%nat) as H4 by (rewrite length_take; lia).
  replace (take (4 * S (length xs)) m) with (take 4 m ++ take (4 * length xs) (drop 4 m)).
  2:{ replace (4 * S (length xs))%nat with (4 + 4 * length xs)%nat by lia. by rewrite take_take_drop. }
  rewrite xor_list_app by (by rewrite length_le_bytes). f_equal.
  rewrite U32TO8_le. unfold XOR. rewrite le_bytes_lxor. f_equal.
  rewrite U8TO32_val by (done || (unfold zlen; lia)). rewrite <- H4 at 1. apply le_bytes_val. by apply Forall_take.
Qed.

Lemma plus_words_block x : words_ok x ->
  flat_map (le_bytes 4) (plus_words (Nat.iter 10 doubleround x) x) = chacha20_block (words_list x)
  /\ length (plus_words (Nat.iter 10 doubleround x) x) = 16%nat.
Proof. intros Hx. unfold plus_words, chacha20_block. rewrite (proj1 (rounds_inner 10 x Hx)). done. Qed.
Lemma length_block x : words_ok x -> length (chacha20_block (words_list x)) = 64%nat.
Proof. intros Hx. destruct (plus_words_block x Hx) as [<- H]. by rewrite length_ser, H. Qed.

(** ** The counter *)

Lemma at_block_0 x : words_ok x -> at_block (words_list x) 0 = words_list x.
Proof.
  destruct x as [x0 x1 x2 x3 x4 x5 x6 x7 x8 x9 x10 x11 x12 x13 x14 x15]. intros H. unfold words_ok in H.
  assert (word x12 /\ word x13) as [H12 H13].
  { rewrite Forall_forall in H. split; apply H; unfold words_list; cbn; rewrite !elem_of_cons; tauto. }
  unfold at_block, words_list. cbn -[Z.pow Z.modulo Z.div Z.mul Z.add]. unfold word in *.
  do 12 apply (f_equal (cons _)); (f_equal; [|f_equal]); Z.div_mod_to_equations; lia.
Qed.

Lemma next_counter_block x i : words_ok x ->
  words_ok (next_counter x) /\ at_block (words_list (next_counter x)) i = at_block (words_list x) (1 + i).
Proof.
  destruct x as [x0 x1 x2 x3 x4 x5 x6 x7 x8 x9 x10 x11 x12 x13 x14 x15]. intros H. unfold words_ok, words_list in H. cbn in H.
  repeat (apply Forall_cons in H as [? H]). clear H. unfold next_counter. cbn [w0 w1 w2 w3 w4 w5 w6 w7 w8 w9 w10 w11 w12 w13 w14 w15].
  unfold PLUSONE, PLUS. split.
  - unfold words_ok, words_list. cbn [w0 w1 w2 w3 w4 w5 w6 w7 w8 w9 w10 w11 w12 w13 w14 w15].
    destruct (_ =? 0); repeat (apply Forall_cons_2; [first [assumption|apply word_mod]|]); apply Forall_nil_2.
  - unfold at_block, words_list. cbn -[Z.pow Z.modulo Z.div Z.mul Z.add wrap Z.eqb].
    unfold wrap, word in *.
    destruct (Z.eqb_spec ((x12 + 1) mod 2 ^ 32) 0); do 12 apply (f_equal (cons _)); (f_equal; [|f_equal]);
      Z.div_mod_to_equations; lia.
Qed.

(** ** The loop *)

Lemma keystream_next x i n : words_ok x ->
  keystream (words_list (next_counter x)) i n = keystream (words_list x) (1 + i) n.
Proof.
  intros Hx. revert i. induction n as [|n IH]; intros i; [done|]. cbn [keystream].
  rewrite (proj2 (next_counter_block x i Hx)), IH. do 2 f_equal. lia.
Qed.

Lemma chacha_loop_ok tmp n : bytes tmp -> zlen tmp = 64 -> forall j m, words_ok j -> bytes m ->
  0 < zlen m -> (length m <= n)%nat ->
  exists j', chacha_loop tmp n j m = (xor_list m (keystream (words_list j) 0 n), j')
    /\ words_ok j' /\ words_list j' = at_block (words_list j) ((zlen m + 63) / 64).
Proof.
  intros Ht Htl. induction n as [|n IH]; intros j m Hj Hm Hz Hn; [unfold zlen in Hz; lia|]. cbn [chacha_loop].
  destruct (plus_words_block j Hj) as [Hpb Hpl]. pose proof (length_block j Hj) as Hbl.
  assert (keystream (words_list j) 0 (S n) = chacha20_block (words_list j) ++ keystream (words_list (next_counter j)) 0 n) as ->.
  { cbn [keystream]. rewrite at_block_0, keystream_next by done. done. }
  destruct (next_counter_block j 0 Hj) as [Hj1 Hnc]. rewrite at_block_0 in Hnc by done.
  set (blk := if zlen m <? 64 then _ else m).
  set (xs := plus_words _ _) in *. clearbody xs. set (kb := chacha20_block _) in *. clearbody kb.
  assert (bytes blk /\ (64 <= length blk)%nat) as [Hbb Hbn].
  { subst blk. destruct (Z.ltb_spec (zlen m) 64); unfold zlen in *; [|split; [done|lia]].
    split; [|rewrite length_app, length_drop; lia]. apply Forall_app. split; [done|]. by apply Forall_drop. }
  assert (xor_store xs blk = xor_list (take 64 blk) kb) as ->.
  { rewrite xor_store_xor, Hpl, Hpb by (done || lia). done. }
  assert (take (length m) (take 64 blk) = take 64 m) as Hblk.
  { subst blk. rewrite take_take. destruct (Z.ltb_spec (zlen m) 64); unfold zlen in *.
    - rewrite Nat.min_l by lia. rewrite take_app_length. by rewrite take_ge by lia.
    - by rewrite Nat.min_r by lia. }
  destruct (Z.leb_spec (zlen m) 64) as [Hle|Hgt].
  - exists (next_counter j). split; [|split; [done|]].
    + rewrite xor_list_take, Hblk, take_ge by (unfold zlen in *; lia).
      by rewrite (xor_list_drop_r m) by (rewrite Hbl; unfold zlen in *; lia).
    + rewrite Hnc. f_equal. Z.div_mod_to_equations. lia.
  - assert (zlen (drop 64 m) = zlen m - 64) as Hd by (unfold zlen in *; rewrite length_drop; lia).
    destruct (IH (next_counter j) (drop 64 m) Hj1 ltac:(by apply Forall_drop)) as (j' & -> & Hj' & Hc);
      [lia|rewrite length_drop; lia|].
    exists j'. split; [|split; [done|]].
    + f_equal. replace (take 64 blk) with (take 64 m) by (subst blk; destruct (Z.ltb_spec (zlen m) 64); [lia|done]).
      rewrite <- (take_drop 64 m) at 3. rewrite xor_list_app; [done|]. rewrite length_take, Hbl. unfold zlen in *. lia.
    + rewrite Hc, Hd, (proj2 (next_counter_block j _ Hj)). f_equal. Z.div_mod_to_equations. lia.
Qed.

(** As many bytes as were put in, whatever the state. *)
Lemma xor_store_shape xs m : bytes (xor_store xs m) /\ length (xor_store xs m) = (4 * length xs)%nat.
Proof.
  revert m. induction xs as [|x xs IH]; intros m; [split; [apply Forall_nil_2|done]|]. cbn [xor_store].
  destruct (IH (drop 4 m)) as [Hb Hl]. split; [apply Forall_app; split; [apply U32TO8_bytes|done]|].
  rewrite length_app, Hl. cbn [length]. change (length (U32TO8_LE _)) with 4%nat. lia.
Qed.
Lemma chacha_loop_shape tmp n : forall j m, (length m <= n)%nat ->
  bytes (fst (chacha_loop tmp n j m)) /\ length (fst (chacha_loop tmp n j m)) = length m.
Proof.
  induction n as [|n IH]; intros j m Hn; [destruct m; [split; [apply Forall_nil_2|done]|cbn in Hn; lia]|].
  cbn [chacha_loop]. set (xs := plus_words _ _). assert (length xs = 16%nat) as Hx by done. clearbody xs.
  set (blk := if zlen m <? 64 then _ else m). destruct (xor_store_shape xs blk) as [Hb Hl]. rewrite Hx in Hl.
  destruct (Z.leb_spec (zlen m) 64); cbn [fst].
  - split; [by apply Forall_take|]. rewrite length_take, Hl. unfold zlen in *. lia.
  - destruct (IH (next_counter j) (drop 64 m)) as [Hb2 Hl2]; [rewrite length_drop; unfold zlen in *; lia|].
    destruct (chacha_loop tmp n _ _) as [r j']. cbn [fst] in *. split; [by apply Forall_app|].
    rewrite length_app, Hl, Hl2, length_drop. unfold zlen in *. lia.
Qed.
Lemma chacha_shape tmp x m :
  bytes (fst (chacha_encrypt_bytes tmp x m)) /\ length (fst (chacha_encrypt_bytes tmp x m)) = length m.
Proof.
  unfold chacha_encrypt_bytes. destruct (Z.eqb_spec (zlen m) 0) as [Hz|]; [|by apply chacha_loop_shape].
  destruct m; [split; [apply Forall_nil_2|done]|rewrite zlen_cons in Hz; pose proof (zlen_nonneg m); lia].
Qed.

(** The stream, and the context it leaves. *)
Lemma chacha_stream tmp x m : bytes tmp -> zlen tmp = 64 -> words_ok x -> bytes m ->
  exists x', chacha_encrypt_bytes tmp x m = (xor_list m (keystream (words_list x) 0 (length m)), x')
    /\ words_ok x' /\ words_list x' = at_block (words_list x) ((zlen m + 63) / 64).
Proof.
  intros Ht Htl Hx Hm. unfold chacha_encrypt_bytes. destruct (Z.eqb_spec (zlen m) 0) as [Hz|Hz].
  - exists x. destruct m; [|rewrite zlen_cons in Hz; pose proof (zlen_nonneg m); lia].
    split; [done|]. split; [done|]. change ((zlen (@nil Z) + 63) / 64) with 0. by rewrite at_block_0.
  - pose proof (zlen_nonneg m). apply chacha_loop_ok; try done; lia.
Qed.

(** C30: ChaCha20. The bytes [chacha_encrypt_bytes] writes are the message xored with the
    reference key stream from the context's 64-bit counter on, whatever the uninitialised
    temporary block held; the counter moves on by the number of blocks begun, with
    its carry from the low to the high word. *)
Theorem chacha_is_chacha20 tmp x m : bytes tmp -> zlen tmp = 64 -> words_ok x -> bytes m ->
  exists x', chacha_encrypt_bytes tmp x m = (xor_list m (keystream (words_list x) 0 (length m)), x')
    /\ words_ok x' /\ words_list x' = at_block (words_list x) ((zlen m + 63) / 64).
Proof. apply chacha_stream. Qed.

Lemma chacha_is_chacha20_witness :
  let x := chacha_ivsetup (chacha_keysetup (Words16 0 0 0 0 0 0 0 0 0 0 0 0 0 0 0 0) (zrepeat 32 7) 256) (zrepeat 8 1)
             (Some [255; 255; 255; 255; 0; 0; 0; 0]) in
  exists x', chacha_encrypt_bytes (zrepeat 64 99) x (zrepeat 70 5)
    = (xor_list (zrepeat 70 5) (keystream (words_list x) 0 70), x')
    /\ words_ok x' /\ words_list x' = at_block (words_list x) 2.
Proof.
  apply (chacha_is_chacha20 (zrepeat 64 99) _ (zrepeat 70 5)).
  - apply bytesb_spec. reflexivity.
  - reflexivity.
  - apply words_okb_ok. reflexivity.
  - apply bytesb_spec. reflexivity.
Defined.
