(* ===== verification/Cipher.v ===== *)
(** * Ciphers: [cipher_init] and [cipher_crypt] (libssh/cipher.c)

    ChaCha20-Poly1305, the default cipher of boxes, is code of this repository and is
    modelled down to its words; the other ciphers of the table go to OpenSSL, [Evp]. The
    theorems: decryption undoes encryption for every cipher of the table, anything
    whose tag is not right is refused before it is decrypted, and the whole is what
    boxes and eboxes assume of their ciphers ([CryptoLaws]). *)
From stdpp Require Import base list strings.
From Stdlib Require Import ZArith Lia.
From S2P Require Import Prelude Errf Sshbuf Algs PivBox Words Poly1305 ChaCha.

Local Open Scope string_scope.
Local Open Scope list_scope.
Local Open Scope Z_scope.
Local Open Scope c_scope.

Definition SSH_ERR_MAC_INVALID : Z := -30.

(** OpenSSL's EVP ciphers: cipher, key, IV, additional data, length of the tag and input;
    the output ends with the tag. [evp_open] is [None] when the tag is wrong. *)
Class Evp := {
  evp_seal : sshcipher -> list Z -> list Z -> list Z -> Z -> list Z -> list Z;
  evp_open : sshcipher -> list Z -> list Z -> list Z -> Z -> list Z -> option (list Z)
}.
Class EvpLaws (E : Evp) := {
  evp_round : forall c k iv aad p, cipher_ok c = true -> cipher_args c k iv p ->
    evp_open c k iv aad (cipher_authlen c) (evp_seal c k iv aad (cipher_authlen c) p) = Some p;
  evp_len : forall c k iv aad p, cipher_ok c = true -> cipher_args c k iv p ->
    zlen (evp_seal c k iv aad (cipher_authlen c) p) = zlen p + cipher_authlen c;
  evp_bytes : forall c k iv aad p, cipher_ok c = true -> cipher_args c k iv p ->
    bytes (evp_seal c k iv aad (cipher_authlen c) p);
  evp_open_len : forall c k iv aad e p, cipher_ok c = true ->
    evp_open c k iv aad (cipher_authlen c) e = Some p -> zlen p = zlen e - cipher_authlen c
}.

(** ** ChaCha20-Poly1305 *)

Definition POLY1305_TAGLEN : Z := 16.
Definition POLY1305_KEYLEN : Z := 32.

Record chachapoly_ctx := ChachaPoly { main_ctx : chacha_ctx; header_ctx : chacha_ctx }.
Definition zero_words : words := Words16 0 0 0 0 0 0 0 0 0 0 0 0 0 0 0 0.

Definition chachapoly_init (key : list Z) : res Z chachapoly_ctx :=
  if negb (zlen key =? 32 + 32) then Er SSH_ERR_INVALID_ARGUMENT
  else Ok (ChachaPoly (chacha_keysetup zero_words key 256) (chacha_keysetup zero_words (drop 32 key) 256)).

(** [chacha_encrypt_bytes] on one of the contexts; [tmp] is its uninitialised block. *)
Definition on_main (tmp iv : list Z) (counter : option (list Z)) (m : list Z) : M Z chachapoly_ctx (list Z) :=
  fun ctx => let (c, x) := chacha_encrypt_bytes tmp (chacha_ivsetup (main_ctx ctx) iv counter) m in
             (Ok c, ChachaPoly x (header_ctx ctx)).
Definition on_header (tmp iv : list Z) (counter : option (list Z)) (m : list Z) : M Z chachapoly_ctx (list Z) :=
  fun ctx => let (c, x) := chacha_encrypt_bytes tmp (chacha_ivsetup (header_ctx ctx) iv counter) m in
             (Ok c, ChachaPoly (main_ctx ctx) x).

(** [src] holds [aadlen + len] bytes and, for decryption, the tag; the result is [dest]. *)
Definition chachapoly_crypt (tmp : nat -> list Z) (seqnr : Z) (src : list Z) (len aadlen : Z) (do_encrypt : bool)
    : M Z chachapoly_ctx (list Z) :=
  if zlen src <? aadlen + len + (if do_encrypt then 0 else POLY1305_TAGLEN) then cfault
  else
    let seqbuf := POKE_U 8 seqnr in
    let one := [1; 0; 0; 0; 0; 0; 0; 0] in
    let! poly_key := on_main (tmp 0%nat) seqbuf None (zrepeat POLY1305_KEYLEN 0) in
    (if do_encrypt then cret tt
     else
       let tag := zslice src (aadlen + len) POLY1305_TAGLEN in
       let expected_tag := poly1305_auth (zslice src 0 (aadlen + len)) poly_key in
       guard (bool_decide (expected_tag = tag)) SSH_ERR_MAC_INVALID) ;!
    let! aad := (if aadlen =? 0 then cret [] else on_header (tmp 1%nat) seqbuf None (zslice src 0 aadlen)) in
    let! body := on_main (tmp 2%nat) seqbuf (Some one) (zslice src aadlen len) in
    cret (aad ++ body ++ (if do_encrypt then poly1305_auth (aad ++ body) poly_key else [])).

Definition chachapoly_get_length (tmp : list Z) (seqnr : Z) (cp : list Z) (len : Z) : M Z chachapoly_ctx Z :=
  guard (negb (len <? 4)) SSH_ERR_MESSAGE_INCOMPLETE ;!
  let! buf := on_header tmp (POKE_U 8 seqnr) None (zslice cp 0 4) in
  cret (PEEK_U 32 buf).

(** ** Any cipher *)

Section Cipher.
Context {E : Evp}.

Record sshcipher_ctx := CipherCtx {
  cc_plaintext : bool;
  cc_encrypt : bool;
  cc_cipher : sshcipher;
  cc_key : list Z;             (* what the EVP context was given *)
  cc_iv : list Z;
  cc_cp : chachapoly_ctx
}.

(** [iv] is [None] for a null pointer. *)
Definition cipher_init (cipher : sshcipher) (key : list Z) (iv : option (list Z)) (do_encrypt : bool)
    : res Z sshcipher_ctx :=
  if (zlen key <? cipher_keylen cipher)
     || match iv with Some v => zlen v <? cipher_ivlen cipher | None => false end
  then Er SSH_ERR_INVALID_ARGUMENT
  else
    let cc cp := CipherCtx (c_number cipher =? SSH_CIPHER_NONE) do_encrypt cipher key (default [] iv) cp in
    if is_chachapoly cipher then
      match chachapoly_init key with
      | Ok cp => Ok (cc cp)
      | Er r => Er r
      | Panic => Panic
      | Fault => Fault
      end
    else Ok (cc (ChachaPoly zero_words zero_words)).

(** [src] holds [aadlen + len] bytes and, for decryption, [authlen] more. *)
Definition cipher_crypt (tmp : nat -> list Z) (cc : sshcipher_ctx) (seqnr : Z) (src : list Z) (len aadlen authlen : Z)
    : res Z (list Z) :=
  let c := cc_cipher cc in
  if is_chachapoly c then fst (chachapoly_crypt tmp seqnr src len aadlen (cc_encrypt cc) (cc_cp cc))
  else if negb (authlen =? 0) && negb (authlen =? cipher_authlen c) then Er SSH_ERR_INVALID_ARGUMENT
  else if negb (len mod cipher_blocksize c =? 0) then Er SSH_ERR_INVALID_ARGUMENT
  else
    let aad := zslice src 0 aadlen in
    if cc_encrypt cc then Ok (aad ++ evp_seal c (cc_key cc) (cc_iv cc) aad authlen (zslice src aadlen len))
    else match evp_open c (cc_key cc) (cc_iv cc) aad authlen (zslice src aadlen (len + authlen)) with
         | Some p => Ok (aad ++ p)
         | None => Er SSH_ERR_MAC_INVALID
         end.

(** The two calls as the callers make them: a fresh context for each message. *)
Definition crypt (tmp : nat -> list Z) (c : sshcipher) (key : list Z) (iv : option (list Z)) (enc : bool)
    (seqnr : Z) (src : list Z) (len aadlen authlen : Z) : res Z (list Z) :=
  match cipher_init c key iv enc with
  | Ok cc => cipher_crypt tmp cc seqnr src len aadlen authlen
  | Er r => Er r
  | Panic => Panic
  | Fault => Fault
  end.
End Cipher.

(** ** Contexts *)

(** The key words of a context, which is all that matters once an IV is set. *)
Definition same_key (x y : words) : Prop := forall iv c, chacha_ivsetup x iv c = chacha_ivsetup y iv c.
Definition ctx_ok (ctx : chachapoly_ctx) : Prop := words_ok (main_ctx ctx) /\ words_ok (header_ctx ctx).
Definition same_keys (a b : chachapoly_ctx) : Prop :=
  same_key (main_ctx a) (main_ctx b) /\ same_key (header_ctx a) (header_ctx b).

Lemma same_key_block x y i : words_list y = at_block (words_list x) i -> same_key x y.
Proof.
  destruct x, y. unfold words_list, at_block. cbn. intros [= -> -> -> -> -> -> -> -> -> -> -> -> _ _ -> ->].
  intros iv c. done.
Qed.
Lemma ivsetup_same x iv c : same_key x (chacha_ivsetup x iv c).
Proof. by intros ? ?. Qed.
Lemma same_key_trans x y z : same_key x y -> same_key y z -> same_key x z.
Proof. intros H1 H2 iv c. by rewrite H1, H2. Qed.

Lemma word_load p : bytes p -> word (U8TO32_LE p).
Proof. apply U8TO32_range. Qed.
Lemma keysetup_ok x k : words_ok x -> bytes k -> words_ok (chacha_keysetup x k 256).
Proof.
  destruct x as [x0 x1 x2 x3 x4 x5 x6 x7 x8 x9 x10 x11 x12 x13 x14 x15]. intros Hx Hk. unfold words_ok, words_list in *. cbn [w0 w1 w2 w3 w4 w5 w6 w7 w8 w9 w10 w11 w12 w13 w14 w15] in Hx.
  repeat (apply Forall_cons in Hx as [? Hx]). clear Hx. unfold chacha_keysetup. change (256 =? 256) with true. cbv iota.
  cbn [w0 w1 w2 w3 w4 w5 w6 w7 w8 w9 w10 w11 w12 w13 w14 w15].
  repeat (apply Forall_cons_2; [first [assumption|apply word_load; first [done|by repeat apply Forall_drop|apply bytesb_spec; reflexivity]]|]).
  apply Forall_nil_2.
Qed.
Lemma ivsetup_ok x iv c : words_ok x -> bytes iv -> match c with Some b => bytes b | None => True end ->
  words_ok (chacha_ivsetup x iv c).
Proof.
  destruct x as [x0 x1 x2 x3 x4 x5 x6 x7 x8 x9 x10 x11 x12 x13 x14 x15]. intros Hx Hi Hc. unfold words_ok, words_list in *. cbn [w0 w1 w2 w3 w4 w5 w6 w7 w8 w9 w10 w11 w12 w13 w14 w15] in Hx.
  repeat (apply Forall_cons in Hx as [? Hx]). clear Hx. unfold chacha_ivsetup.
  cbn [w0 w1 w2 w3 w4 w5 w6 w7 w8 w9 w10 w11 w12 w13 w14 w15].
  assert (word 0) by (by vm_compute).
  destruct c; repeat (apply Forall_cons_2; [first [assumption|apply word_load; first [done|by apply Forall_drop]]|]);
    apply Forall_nil_2.
Qed.

Lemma init_ok key : bytes key -> zlen key = 64 -> exists ctx, chachapoly_init key = Ok ctx /\ ctx_ok ctx.
Proof.
  intros Hb Hl. unfold chachapoly_init. rewrite Hl. change (64 =? 32 + 32) with true. cbn [negb].
  eexists. split; [reflexivity|]. assert (words_ok zero_words) by (by apply words_okb_ok).
  split; apply keysetup_ok; try done. by apply Forall_drop.
Qed.

(** The stream for an IV and a counter. *)
Definition stream (x : words) (iv : list Z) (c : option (list Z)) (m : list Z) : list Z :=
  xor_list m (keystream (words_list (chacha_ivsetup x iv c)) 0 (length m)).

Definition tmp_ok (tmp : nat -> list Z) : Prop := forall i, bytes (tmp i) /\ zlen (tmp i) = 64.

Section Stream.
Context (tmp : list Z) (Ht : bytes tmp) (Htl : zlen tmp = 64).

Lemma stream_shape x iv c m : words_ok x -> bytes iv -> match c with Some b => bytes b | None => True end -> bytes m ->
  bytes (stream x iv c m) /\ length (stream x iv c m) = length m.
Proof.
  intros Hx Hi Hc Hm. destruct (chacha_stream tmp (chacha_ivsetup x iv c) m Ht Htl ltac:(by apply ivsetup_ok) Hm) as (x' & E1 & _).
  pose proof (chacha_shape tmp (chacha_ivsetup x iv c) m) as H. rewrite E1 in H. exact H.
Qed.
Lemma stream_twice x iv c m : words_ok x -> bytes iv -> match c with Some b => bytes b | None => True end -> bytes m ->
  stream x iv c (stream x iv c m) = m.
Proof.
  intros Hx Hi Hc Hm. destruct (stream_shape x iv c m Hx Hi Hc Hm) as [_ Hl]. unfold stream at 1. rewrite Hl.
  unfold stream in *. apply xor_list_twice. rewrite length_xor_list in Hl. lia.
Qed.

Lemma on_main_ok ctx iv c m : ctx_ok ctx -> bytes iv -> match c with Some b => bytes b | None => True end -> bytes m ->
  exists ctx', on_main tmp iv c m ctx = (Ok (stream (main_ctx ctx) iv c m), ctx') /\ ctx_ok ctx' /\ same_keys ctx ctx'.
Proof.
  intros [Hx Hh] Hi Hc Hm.
  destruct (chacha_stream tmp (chacha_ivsetup (main_ctx ctx) iv c) m Ht Htl ltac:(by apply ivsetup_ok) Hm) as (x' & E1 & Hx' & Hb).
  unfold on_main. rewrite E1. eexists. split; [reflexivity|]. split; [by split|]. split; [|done].
  eapply same_key_trans; [apply ivsetup_same|]. by eapply same_key_block.
Qed.
Lemma on_header_ok ctx iv c m : ctx_ok ctx -> bytes iv -> match c with Some b => bytes b | None => True end -> bytes m ->
  exists ctx', on_header tmp iv c m ctx = (Ok (stream (header_ctx ctx) iv c m), ctx') /\ ctx_ok ctx' /\ same_keys ctx ctx'.
Proof.
  intros [Hx Hh] Hi Hc Hm.
  destruct (chacha_stream tmp (chacha_ivsetup (header_ctx ctx) iv c) m Ht Htl ltac:(by apply ivsetup_ok) Hm) as (x' & E1 & Hx' & Hb).
  unfold on_header. rewrite E1. eexists. split; [reflexivity|]. split; [by split|]. split; [done|].
  eapply same_key_trans; [apply ivsetup_same|]. by eapply same_key_block.
Qed.
End Stream.

Lemma stream_same x y iv c m : same_key x y -> stream y iv c m = stream x iv c m.
Proof. intros H. unfold stream. by rewrite H. Qed.

(** What the construction computes, from the two keys. *)
Definition one8 : list Z := [1; 0; 0; 0; 0; 0; 0; 0].
Definition cp_key (ctx : chachapoly_ctx) (seqnr : Z) : list Z := stream (main_ctx ctx) (be_bytes 8 seqnr) None (zrepeat 32 0).
Definition cp_aad (ctx : chachapoly_ctx) (seqnr : Z) (aad : list Z) : list Z := stream (header_ctx ctx) (be_bytes 8 seqnr) None aad.
Definition cp_body (ctx : chachapoly_ctx) (seqnr : Z) (p : list Z) : list Z := stream (main_ctx ctx) (be_bytes 8 seqnr) (Some one8) p.
Definition cp_tag (ctx : chachapoly_ctx) (seqnr : Z) (e : list Z) : list Z := poly1305 e (cp_key ctx seqnr).

Section Crypt.
Context (tmp : nat -> list Z) (Htmp : tmp_ok tmp) (ctx : chachapoly_ctx) (Hctx : ctx_ok ctx) (seqnr : Z).

Lemma one8_bytes : bytes one8. Proof. apply bytesb_spec. reflexivity. Qed.
Lemma zeros_bytes n : bytes (zrepeat n 0). Proof. apply Forall_replicate. by vm_compute. Qed.

Lemma cp_key_ok : bytes (cp_key ctx seqnr) /\ zlen (cp_key ctx seqnr) = 32.
Proof.
  destruct (Htmp 0%nat) as [T1 T2]. destruct Hctx as [Hm _].
  destruct (stream_shape (tmp 0%nat) T1 T2 (main_ctx ctx) (be_bytes 8 seqnr) None (zrepeat 32 0)
    Hm (be_bytes_bytes _ _) I (zeros_bytes _)) as [Hb Hl].
  split; [done|]. unfold cp_key, zlen. by rewrite Hl.
Qed.
Lemma key_stream : exists ctx1, on_main (tmp 0%nat) (be_bytes 8 seqnr) None (zrepeat POLY1305_KEYLEN 0) ctx
    = (Ok (cp_key ctx seqnr), ctx1) /\ ctx_ok ctx1 /\ same_keys ctx ctx1.
Proof.
  destruct (Htmp 0%nat) as [T1 T2].
  exact (on_main_ok _ T1 T2 ctx (be_bytes 8 seqnr) None (zrepeat 32 0) Hctx (be_bytes_bytes _ _) I (zeros_bytes _)).
Qed.
Lemma cp_key_code :
  fst (chacha_encrypt_bytes (tmp 0%nat) (chacha_ivsetup (main_ctx ctx) (be_bytes 8 seqnr) None) (zrepeat 32 0)) = cp_key ctx seqnr.
Proof.
  destruct (Htmp 0%nat) as [T1 T2], Hctx as [Hm _].
  destruct (chacha_stream (tmp 0%nat) (chacha_ivsetup (main_ctx ctx) (be_bytes 8 seqnr) None) (zrepeat 32 0) T1 T2
    (ivsetup_ok (main_ctx ctx) (be_bytes 8 seqnr) None Hm (be_bytes_bytes _ _) I) (zeros_bytes _)) as (x' & E1 & _).
  unfold cp_key, stream. by rewrite E1.
Qed.
Lemma cp_aad_ok aad : bytes aad -> bytes (cp_aad ctx seqnr aad) /\ zlen (cp_aad ctx seqnr aad) = zlen aad
  /\ cp_aad ctx seqnr (cp_aad ctx seqnr aad) = aad.
Proof.
  intros Ha. destruct (Htmp 0%nat) as [T1 T2], Hctx as [_ Hh].
  destruct (stream_shape (tmp 0%nat) T1 T2 (header_ctx ctx) (be_bytes 8 seqnr) None aad Hh (be_bytes_bytes _ _) I Ha) as [Hb Hl].
  split; [done|]. split; [unfold cp_aad, zlen; by rewrite Hl|].
  exact (stream_twice (tmp 0%nat) T1 T2 (header_ctx ctx) (be_bytes 8 seqnr) None aad Hh (be_bytes_bytes _ _) I Ha).
Qed.
Lemma cp_body_ok p : bytes p -> bytes (cp_body ctx seqnr p) /\ zlen (cp_body ctx seqnr p) = zlen p
  /\ cp_body ctx seqnr (cp_body ctx seqnr p) = p.
Proof.
  intros Ha. destruct (Htmp 0%nat) as [T1 T2], Hctx as [Hm _].
  destruct (stream_shape (tmp 0%nat) T1 T2 (main_ctx ctx) (be_bytes 8 seqnr) (Some one8) p Hm (be_bytes_bytes _ _) one8_bytes Ha) as [Hb Hl].
  split; [done|]. split; [unfold cp_body, zlen; by rewrite Hl|].
  exact (stream_twice (tmp 0%nat) T1 T2 (main_ctx ctx) (be_bytes 8 seqnr) (Some one8) p Hm (be_bytes_bytes _ _) one8_bytes Ha).
Qed.
Lemma cp_tag_ok e : bytes (cp_tag ctx seqnr e) /\ zlen (cp_tag ctx seqnr e) = 16.
Proof. unfold cp_tag, poly1305. split; [apply le_bytes_bytes|apply zlen_le_bytes]. Qed.

(** The header and the body, in the order of the code. *)
Lemma crypt_parts ctx1 aad p (f : list Z -> list Z -> M Z chachapoly_ctx (list Z)) : ctx_ok ctx1 -> same_keys ctx ctx1 -> bytes aad -> bytes p ->
  exists ctx', (let! a := (if zlen aad =? 0 then cret [] else on_header (tmp 1%nat) (be_bytes 8 seqnr) None aad) in
                let! b := on_main (tmp 2%nat) (be_bytes 8 seqnr) (Some one8) p in f a b) ctx1
    = f (cp_aad ctx seqnr aad) (cp_body ctx seqnr p) ctx'.
Proof.
  intros H1 [S1 S2] Ha Hp. destruct (Htmp 1%nat) as [T1 T2], (Htmp 2%nat) as [T3 T4].
  assert (exists ctx2, (if zlen aad =? 0 then cret [] else on_header (tmp 1%nat) (be_bytes 8 seqnr) None aad) ctx1
    = (Ok (cp_aad ctx seqnr aad), ctx2) /\ ctx_ok ctx2 /\ same_keys ctx ctx2) as (ctx2 & E & H2 & [S3 S4]).
  { destruct (Z.eqb_spec (zlen aad) 0) as [Hz|].
    - destruct aad; [|rewrite zlen_cons in Hz; pose proof (zlen_nonneg aad); lia]. by exists ctx1.
    - destruct (on_header_ok _ T1 T2 ctx1 (be_bytes 8 seqnr) None aad H1 (be_bytes_bytes _ _) I Ha) as (ctx2 & E & H2 & [S3 S4]).
      exists ctx2. rewrite E. unfold cp_aad. rewrite (stream_same _ _ _ _ _ S2). split; [done|]. split; [done|].
      split; by eapply same_key_trans. }
  rewrite (cbind_ok _ _ _ _ _ E).
  destruct (on_main_ok _ T3 T4 ctx2 (be_bytes 8 seqnr) (Some one8) p H2 (be_bytes_bytes _ _) one8_bytes Hp) as (ctx3 & E3 & _).
  exists ctx3. rewrite (cbind_ok _ _ _ _ _ E3). unfold cp_body. by rewrite (stream_same _ _ _ _ _ S3).
Qed.

Lemma zslice_app_l {A} (a b : list A) : zslice (a ++ b) 0 (zlen a) = a.
Proof. unfold zslice, zlen. rewrite drop_0, Nat2Z.id. apply take_app_length. Qed.
Lemma zslice_app_r {A} (a b r : list A) : zslice (a ++ b ++ r) (zlen a) (zlen b) = b.
Proof. unfold zslice, zlen. rewrite !Nat2Z.id, drop_app_length. apply take_app_length. Qed.

Lemma chachapoly_encrypt aad p : bytes aad -> bytes p ->
  fst (chachapoly_crypt tmp seqnr (aad ++ p) (zlen p) (zlen aad) true ctx)
  = Ok (cp_aad ctx seqnr aad ++ cp_body ctx seqnr p ++ cp_tag ctx seqnr (cp_aad ctx seqnr aad ++ cp_body ctx seqnr p)).
Proof.
  intros Ha Hp. unfold chachapoly_crypt. rewrite zlen_app. replace (_ <? _) with false by lia.
  rewrite POKE_U_be. destruct key_stream as (ctx1 & E & H1 & S1).
  rewrite (cbind_ok _ _ _ _ _ E), cbind_ret_l.
  pose proof (zslice_app_l aad p) as Z1. pose proof (zslice_app_r aad p []) as Z2. rewrite app_nil_r in Z2. rewrite Z1, Z2.
  destruct (crypt_parts ctx1 aad p (fun a b => cret (a ++ b ++ poly1305_auth (a ++ b) (cp_key ctx seqnr))) H1 S1 Ha Hp) as (ctx2 & E2).
  unfold one8 in E2. rewrite E2. unfold cret. cbn [fst]. unfold cp_tag.
  destruct cp_key_ok as [K1 K2], (cp_aad_ok aad Ha) as (A1 & _), (cp_body_ok p Hp) as (B1 & _).
  rewrite poly1305_exact; [done|apply Forall_app; by split|done|done].
Qed.

Lemma chachapoly_decrypt a b t : bytes a -> bytes b -> zlen t = 16 ->
  fst (chachapoly_crypt tmp seqnr (a ++ b ++ t) (zlen b) (zlen a) false ctx)
  = if bool_decide (cp_tag ctx seqnr (a ++ b) = t) then Ok (cp_aad ctx seqnr a ++ cp_body ctx seqnr b)
    else Er SSH_ERR_MAC_INVALID.
Proof.
  intros Ha Hb Ht. unfold chachapoly_crypt. rewrite !zlen_app, Ht. unfold POLY1305_TAGLEN.
  replace (_ <? _) with false by lia. rewrite POKE_U_be. destruct key_stream as (ctx1 & E & H1 & S1).
  rewrite (cbind_ok _ _ _ _ _ E).
  rewrite (zslice_app_l a (b ++ t)), (zslice_app_r a b t).
  assert (zslice (a ++ b ++ t) 0 (zlen a + zlen b) = a ++ b) as ->.
  { rewrite app_assoc, <- zlen_app. apply zslice_app_l. }
  assert (zslice (a ++ b ++ t) (zlen a + zlen b) 16 = t) as ->.
  { pose proof (zslice_app_r (a ++ b) t []) as H. by rewrite zlen_app, Ht, app_nil_r, <- app_assoc in H. }
  destruct cp_key_ok as [K1 K2].
  rewrite poly1305_exact; [|apply Forall_app; by split|done|done]. fold (cp_tag ctx seqnr (a ++ b)).
  destruct (bool_decide _); cbn [guard]; [|by rewrite (cbind_er (craise SSH_ERR_MAC_INVALID) _ ctx1 SSH_ERR_MAC_INVALID ctx1 eq_refl)].
  rewrite cbind_ret_l.
  destruct (crypt_parts ctx1 a b (fun a b => cret (a ++ b ++ [])) H1 S1 Ha Hb) as (ctx2 & E2).
  unfold one8 in E2. rewrite E2. unfold cret. cbn [fst]. by rewrite app_nil_r.
Qed.
End Crypt.

(** ** Any cipher of the table *)

Section Any.
Context {E : Evp} {EL : EvpLaws E}.

Lemma init_args c k iv p enc : cipher_ok c = true -> cipher_args c k iv p -> forall n, n = Some iv \/ (n = None /\ iv = []) ->
  exists cp, cipher_init c k n enc = Ok (CipherCtx (c_number c =? SSH_CIPHER_NONE) enc c k iv cp)
    /\ (is_chachapoly c = true -> chachapoly_init k = Ok cp /\ ctx_ok cp).
Proof.
  intros Hok ([Hkb Hkl] & Hiv & _) n Hn. unfold cipher_init.
  assert ((zlen k <? cipher_keylen c) || match n with Some v => zlen v <? cipher_ivlen c | None => false end = false) as ->.
  { destruct Hn as [-> | [-> ->]]; lia. }
  assert (default [] n = iv) as -> by (by destruct Hn as [-> | [-> ->]]).
  destruct (is_chachapoly c) eqn:Hc; [|by eexists].
  destruct (chachapoly_lens c Hok Hc) as [_ Hk]. destruct (init_ok k Hkb ltac:(lia)) as (cp & Ei & Hcp).
  rewrite Ei. by exists cp.
Qed.

(** An encryption and what decryption makes of it. *)
Lemma crypt_pair tmp tmp' c k iv n seqnr aad p : tmp_ok tmp -> tmp_ok tmp' -> cipher_ok c = true -> cipher_args c k iv p -> bytes aad ->
  n = Some iv \/ (n = None /\ iv = []) ->
  exists e, crypt tmp c k n true seqnr (aad ++ p) (zlen p) (zlen aad) (cipher_authlen c) = Ok e
    /\ zlen e = zlen aad + zlen p + cipher_authlen c /\ bytes e
    /\ crypt tmp' c k n false seqnr e (zlen p) (zlen aad) (cipher_authlen c) = Ok (aad ++ p).
Proof.
  intros Ht Ht' Hok Hargs Ha Hn. pose proof Hargs as (_ & _ & Hp & Hblk). destruct (cipher_lens c Hok) as (_ & _ & _ & Hau).
  destruct (init_args c k iv p true Hok Hargs n Hn) as (cp & E1 & Hcp).
  destruct (init_args c k iv p false Hok Hargs n Hn) as (cp' & E2 & Hcp').
  unfold crypt. rewrite E1, E2. unfold cipher_crypt. cbn [cc_cipher cc_encrypt cc_key cc_iv cc_cp].
  destruct (is_chachapoly c) eqn:Hc.
  - destruct (Hcp eq_refl) as [Ei Hx], (Hcp' eq_refl) as [Ei' _]. assert (cp' = cp) as -> by congruence.
    destruct (chachapoly_lens c Hok Hc) as [-> _]. rewrite chachapoly_encrypt by done.
    destruct (cp_aad_ok tmp Ht cp Hx seqnr aad Ha) as (A1 & A2 & A3), (cp_body_ok tmp Ht cp Hx seqnr p Hp) as (B1 & B2 & B3).
    destruct (cp_tag_ok cp seqnr (cp_aad cp seqnr aad ++ cp_body cp seqnr p)) as [T1 T2].
    eexists. split; [reflexivity|]. split; [rewrite !zlen_app; lia|]. split; [rewrite !Forall_app; by split_and!|].
    rewrite <- A2 at 1. rewrite <- B2 at 1. rewrite chachapoly_decrypt by done. rewrite bool_decide_true by done.
    by rewrite A3, B3.
  - replace (negb (cipher_authlen c =? 0) && negb (cipher_authlen c =? cipher_authlen c)) with false by lia.
    rewrite Hblk. change (0 =? 0) with true. cbn [negb].
    pose proof (zslice_app_l aad p) as Z1. pose proof (zslice_app_r aad p []) as Z2. rewrite app_nil_r in Z2. rewrite Z1, Z2.
    pose proof (evp_len c k iv aad p Hok Hargs) as Hl. eexists. split; [reflexivity|]. split; [rewrite zlen_app; lia|].
    split; [apply Forall_app; split; [done|by apply evp_bytes]|].
    rewrite (zslice_app_l aad (evp_seal _ _ _ _ _ _)). pose proof (zslice_app_r aad (evp_seal c k iv aad (cipher_authlen c) p) []) as Z3.
    rewrite app_nil_r, Hl in Z3. rewrite Z3. by rewrite evp_round.
Qed.

(** C32: ciphers. For every cipher of the table, every key and IV of its lengths, every
    sequence number, additional data and whole number of blocks, with whatever was on the
    stack: encryption succeeds and adds exactly the tag, and decryption with the same
    arguments gives the data back. *)
Theorem cipher_crypt_roundtrip tmp tmp' name c k iv seqnr aad p :
  tmp_ok tmp -> tmp_ok tmp' -> cipher_by_name name = Some c -> cipher_args c k iv p -> bytes aad ->
  exists e, crypt tmp c k (Some iv) true seqnr (aad ++ p) (zlen p) (zlen aad) (cipher_authlen c) = Ok e
    /\ zlen e = zlen aad + zlen p + cipher_authlen c /\ bytes e
    /\ crypt tmp' c k (Some iv) false seqnr e (zlen p) (zlen aad) (cipher_authlen c) = Ok (aad ++ p).
Proof. intros. apply (crypt_pair _ _ _ _ iv); try done; [by eapply cipher_by_name_ok|by left]. Qed.
End Any.

(** C33: tampering. ChaCha20-Poly1305 decryption of any bytes of the right length under any
    key succeeds exactly when the last 16 are the Poly1305 tag of all the others under the
    key stream's first 32 bytes for the sequence number; otherwise it returns
    SSH_ERR_MAC_INVALID and nothing is decrypted. *)
Theorem chachapoly_authentic tmp key seqnr a b t ctx :
  tmp_ok tmp -> bytes key -> zlen key = 64 -> chachapoly_init key = Ok ctx -> bytes a -> bytes b -> zlen t = 16 ->
  fst (chachapoly_crypt tmp seqnr (a ++ b ++ t) (zlen b) (zlen a) false ctx)
  = if bool_decide (t = poly1305 (a ++ b) (fst (chacha_encrypt_bytes (tmp 0%nat)
                          (chacha_ivsetup (main_ctx ctx) (be_bytes 8 seqnr) None) (zrepeat 32 0))))
    then Ok (cp_aad ctx seqnr a ++ cp_body ctx seqnr b) else Er SSH_ERR_MAC_INVALID.
Proof.
  intros Ht Hk Hl Hi Ha Hb Hz. destruct (init_ok key Hk Hl) as (ctx' & Hi' & Hc). assert (ctx' = ctx) as -> by congruence.
  rewrite chachapoly_decrypt by done. rewrite (cp_key_code tmp Ht ctx Hc seqnr).
  unfold cp_tag. by destruct (decide (t = poly1305 (a ++ b) (cp_key ctx seqnr))) as [->|Hne];
    [rewrite !bool_decide_true|rewrite !bool_decide_false].
Qed.

(** ** The interface of boxes and eboxes *)

(** [C] with the ciphers of cipher.c. *)
Definition cipher_crypto (C : Crypto) (E : Evp) (tmp : nat -> list Z) : Crypto := {|
  point := @point C;
  scalar := @scalar C;
  ec_pub := ec_pub;
  ec_dh := ec_dh;
  ec_point2oct := ec_point2oct;
  ec_oct2point := ec_oct2point;
  ec_validate := ec_validate;
  ec_point_eqb := ec_point_eqb;
  digest := digest;
  aead_enc c k iv p := match crypt tmp c k (Some iv) true 0 p (zlen p) 0 (cipher_authlen c) with Ok e => e | _ => [] end;
  aead_dec c k iv e := if zlen e <? cipher_authlen c then Er SSH_ERR_INVALID_ARGUMENT
                       else crypt tmp c k (Some iv) false 0 e (zlen e - cipher_authlen c) 0 (cipher_authlen c)
|}.

Lemma crypt_open_len {E : Evp} {EL : EvpLaws E} tmp c k iv e : cipher_ok c = true -> cipher_authlen c <= zlen e ->
  match crypt tmp c k (Some iv) false 0 e (zlen e - cipher_authlen c) 0 (cipher_authlen c) with
  | Ok p => zlen p = zlen e - cipher_authlen c
  | Er r => r <> 0
  | _ => False
  end.
Proof.
  intros Hok Hl. destruct (cipher_lens c Hok) as (_ & _ & _ & Hau). unfold crypt, cipher_init.
  destruct (_ || _); [done|]. destruct (is_chachapoly c) eqn:Hc.
  - destruct (chachapoly_lens c Hok Hc) as [H16 _]. rewrite H16 in *. unfold chachapoly_init.
    destruct (zlen k =? 32 + 32); cbn [negb]; [|done].
    unfold cipher_crypt. cbn [cc_cipher cc_encrypt cc_cp]. rewrite Hc. unfold chachapoly_crypt, POLY1305_TAGLEN.
    replace (_ <? _) with false by lia. change (0 =? 0) with true. unfold cbind, guard, on_main, cret.
    destruct (chacha_encrypt_bytes (tmp 0%nat) _ _) as [pk x0]. cbv iota. cbn beta iota.
    destruct (bool_decide _); cbn beta iota; [|done]. cbn [main_ctx header_ctx].
    pose proof (chacha_shape (tmp 2%nat) (chacha_ivsetup x0 (POKE_U 8 0) (Some [1; 0; 0; 0; 0; 0; 0; 0])) (zslice e 0 (zlen e - 16))) as [_ Hs].
    destruct (chacha_encrypt_bytes (tmp 2%nat) _ _) as [body x2]. cbn [fst] in *. cbn beta iota. cbn [app fst].
    change ([] ++ body ++ []) with (body ++ []). rewrite app_nil_r. unfold zlen. rewrite Hs. unfold zslice. rewrite drop_0, length_take.
    unfold zlen in *. lia.
  - unfold cipher_crypt. cbn [cc_cipher cc_encrypt cc_key cc_iv]. rewrite Hc.
    replace (negb (cipher_authlen c =? 0) && negb (cipher_authlen c =? cipher_authlen c)) with false by lia.
    destruct (negb _); [done|]. replace (zlen e - cipher_authlen c + cipher_authlen c) with (zlen e) by lia.
    assert (zslice e 0 (zlen e) = e) as -> by (unfold zslice, zlen; rewrite drop_0, Nat2Z.id; by rewrite take_ge).
    destruct (evp_open _ _ _ _ _ _) as [p|] eqn:Ep; [|done].
    change (zslice e 0 0 ++ p) with p. by eapply evp_open_len.
Qed.

(** C34: the interface between the boxes and their ciphers. With curves and digests as the box
    code expects them and with OpenSSL's ciphers doing what they say, the code of cipher.c,
    chacha.c and poly1305.c satisfies everything that the theorems about boxes and eboxes
    assume of their ciphers. *)
Theorem cipher_crypto_laws (C : Crypto) (E : Evp) tmp :
  CryptoLaws C -> EvpLaws E -> tmp_ok tmp -> CryptoLaws (cipher_crypto C E tmp).
Proof.
  intros L EL Ht. destruct L. constructor; try done.
  - intros c k iv p Hok Hargs. cbn.
    destruct (crypt_pair tmp tmp c k iv (Some iv) 0 [] p Ht Ht Hok Hargs (Forall_nil_2 _) (or_introl eq_refl)) as (e & E1 & El & _ & E2).
    change ([] ++ p) with p in *. change (zlen (@nil Z)) with 0 in *. rewrite E1.
    pose proof (zlen_nonneg p). replace (zlen e <? cipher_authlen c) with false by lia.
    by replace (zlen e - cipher_authlen c) with (zlen p) by lia.
  - intros c k iv p Hok Hargs. cbn.
    destruct (crypt_pair tmp tmp c k iv (Some iv) 0 [] p Ht Ht Hok Hargs (Forall_nil_2 _) (or_introl eq_refl)) as (e & E1 & El & _).
    change ([] ++ p) with p in *. change (zlen (@nil Z)) with 0 in *. rewrite E1. lia.
  - intros c k iv p Hok Hargs. cbn.
    destruct (crypt_pair tmp tmp c k iv (Some iv) 0 [] p Ht Ht Hok Hargs (Forall_nil_2 _) (or_introl eq_refl)) as (e & E1 & _ & Hb & _).
    change ([] ++ p) with p in *. change (zlen (@nil Z)) with 0 in *. by rewrite E1.
  - intros c k iv e Hok. cbn. destruct (Z.ltb_spec (zlen e) (cipher_authlen c)); [done|]. by apply crypt_open_len.
Qed.

(** * An instance *)

Module ToyEvp.
(** The data and a checksum. *)
Definition tag (n : Z) (k iv aad p : list Z) : list Z := zrepeat n (Toy.sum (k ++ iv ++ aad ++ p)).
#[global] Instance evp : Evp := {
  evp_seal _ k iv aad n p := p ++ tag n k iv aad p;
  evp_open _ k iv aad n e :=
    let p := take (Z.to_nat (zlen e - n)) e in
    if (0 <=? zlen e - n) && bool_decide (e = p ++ tag n k iv aad p) then Some p else None
}.
Lemma tag_len c k iv aad p : cipher_ok c = true -> zlen (tag (cipher_authlen c) k iv aad p) = cipher_authlen c.
Proof. intros Hc. apply zlen_zrepeat. destruct (cipher_lens c Hc) as (_ & _ & _ & []); lia. Qed.
#[global] Instance laws : EvpLaws evp.
Proof.
  constructor.
  - intros c k iv aad p Hc _. cbn. rewrite zlen_app, tag_len by done. replace (_ - _) with (zlen p) by lia.
    assert (take (Z.to_nat (zlen p)) (p ++ tag (cipher_authlen c) k iv aad p) = p) as ->
      by (unfold zlen; rewrite Nat2Z.id; apply take_app_length).
    rewrite bool_decide_true by done. pose proof (zlen_nonneg p).
    by replace (0 <=? zlen p) with true by lia.
  - intros c k iv aad p Hc _. cbn. by rewrite zlen_app, tag_len.
  - intros c k iv aad p Hc (_ & _ & Hp & _). cbn. apply Forall_app. split; [done|]. apply Forall_replicate.
    unfold is_byte, Toy.sum. apply Z.mod_pos_bound. lia.
  - intros c k iv aad e p Hc. cbn. destruct (_ && _) eqn:H; [|done]. intros [= <-]. apply andb_true_iff in H as [H _].
    destruct (cipher_lens c Hc) as (_ & _ & _ & Ha). unfold zlen in *. rewrite length_take. lia.
Qed.
Definition junk (_ : nat) : list Z := zrepeat 64 90.
Lemma junk_ok : tmp_ok junk.
Proof. intros i. split; [apply bytesb_spec; reflexivity|reflexivity]. Qed.
End ToyEvp.

Lemma cipher_crypt_roundtrip_witness :
  let c := Cipher (zs "chacha20-poly1305") SSH_CIPHER_SSH2 8 64 0 16 0 CFLAG_CHACHAPOLY in
  let p := zrepeat 8 4 in
  exists e, crypt ToyEvp.junk c (zrepeat 64 3) (Some []) true 7 ([1; 2] ++ p) (zlen p) (zlen [1; 2]) (cipher_authlen c) = Ok e
    /\ zlen e = zlen [1; 2] + zlen p + cipher_authlen c /\ bytes e
    /\ crypt ToyEvp.junk c (zrepeat 64 3) (Some []) false 7 e (zlen p) (zlen [1; 2]) (cipher_authlen c) = Ok ([1; 2] ++ p).
Proof.
  intros c p. apply (cipher_crypt_roundtrip ToyEvp.junk ToyEvp.junk (zs "chacha20-poly1305") c (zrepeat 64 3) [] 7 [1; 2] p).
  - exact ToyEvp.junk_ok.
  - exact ToyEvp.junk_ok.
  - vm_compute. reflexivity.
  - split; [split; [apply bytesb_spec; reflexivity|reflexivity]|]. split; [reflexivity|]. split; [apply bytesb_spec; reflexivity|reflexivity].
  - apply bytesb_spec. reflexivity.
Defined.

Lemma chachapoly_authentic_witness :
  let ctx := ChachaPoly (chacha_keysetup zero_words (zrepeat 64 3) 256) (chacha_keysetup zero_words (zrepeat 32 3) 256) in
  fst (chachapoly_crypt ToyEvp.junk 7 ([1; 2] ++ [3; 4] ++ zrepeat 16 0) 2 2 false ctx) = Er SSH_ERR_MAC_INVALID.
Proof.
  pose proof (chachapoly_authentic ToyEvp.junk (zrepeat 64 3) 7 [1; 2] [3; 4] (zrepeat 16 0)
    (ChachaPoly (chacha_keysetup zero_words (zrepeat 64 3) 256) (chacha_keysetup zero_words (zrepeat 32 3) 256))
    ToyEvp.junk_ok ltac:(apply bytesb_spec; reflexivity) eq_refl eq_refl ltac:(apply bytesb_spec; reflexivity)
    ltac:(apply bytesb_spec; reflexivity) eq_refl) as H.
  rewrite bool_decide_false in H; [exact H|]. vm_compute. congruence.
Defined.

Lemma cipher_crypto_laws_witness : CryptoLaws (cipher_crypto Toy.toy ToyEvp.evp ToyEvp.junk).
Proof. apply cipher_crypto_laws; [exact Toy.toy_laws|exact ToyEvp.laws|exact ToyEvp.junk_ok]. Defined.
