(* ===== verification/Hmac.v ===== *)
(** * Digests in pieces and HMAC (libssh/digest-openssl.c, libssh/hmac.c)

    An OpenSSL digest context is the bytes it was given so far, or closed once it was
    finalised (OpenSSL allows no update then). The digest functions themselves are
    [Crypto]'s; [DigestBlocks] is what OpenSSL says of their block sizes. The theorem
    of the file: the context juggling of hmac.c computes RFC 2104. *)
From stdpp Require Import base list strings.
From Stdlib Require Import ZArith Lia.
From S2P Require Import Prelude Errf Sshbuf Algs PivBox.

Local Open Scope string_scope.
Local Open Scope list_scope.
Local Open Scope Z_scope.
Local Open Scope c_scope.

Class DigestBlocks {C : Crypto} := {
  (** [EVP_MD_CTX_block_size] *)
  md_block_size : Z -> Z
}.
Class DigestLaws {C : Crypto} (DB : DigestBlocks) := {
  block_len : forall alg, alg_known alg = true -> ssh_digest_bytes alg <= md_block_size alg <= 65536
}.

Section Hmac.
Context {C : Crypto} {DB : DigestBlocks}.

(** ** Digest contexts *)

Record ssh_digest_ctx := DigestCtx { dc_alg : Z; dc_data : option (list Z) }.

Definition ssh_digest_blocksize (ctx : ssh_digest_ctx) : Z := md_block_size (dc_alg ctx).

Definition ssh_digest_start (alg : Z) : option ssh_digest_ctx :=
  if alg_known alg then Some (DigestCtx alg (Some [])) else None.

(** The new state of [to]. *)
Definition ssh_digest_copy_state (from to : ssh_digest_ctx) : res Z ssh_digest_ctx :=
  if negb (dc_alg from =? dc_alg to) then Er SSH_ERR_INVALID_ARGUMENT
  else Ok (DigestCtx (dc_alg to) (dc_data from)).

Definition ssh_digest_update (ctx : ssh_digest_ctx) (m : list Z) : res Z ssh_digest_ctx :=
  match dc_data ctx with
  | Some d => Ok (DigestCtx (dc_alg ctx) (Some (d ++ m)))
  | None => Fault
  end.

(** The bytes written to the front of the caller's [dlen] bytes. *)
Definition ssh_digest_final (ctx : ssh_digest_ctx) (dlen : Z) : res Z (list Z * ssh_digest_ctx) :=
  if (2 ^ 32 - 1 <? dlen) || (dlen <? ssh_digest_bytes (dc_alg ctx)) then Er SSH_ERR_INVALID_ARGUMENT
  else match dc_data ctx with
       | Some d => Ok (digest (dc_alg ctx) d, DigestCtx (dc_alg ctx) None)
       | None => Fault
       end.

Definition ssh_digest_memory (alg : Z) (m : list Z) (dlen : Z) : res Z (list Z) :=
  if negb (alg_known alg) || (2 ^ 32 - 1 <? dlen) || (dlen <? ssh_digest_bytes alg)
  then Er SSH_ERR_INVALID_ARGUMENT
  else Ok (digest alg m).

(** ** HMAC *)

Record ssh_hmac_ctx := HmacCtx {
  hc_alg : Z;
  hc_ictx : ssh_digest_ctx;
  hc_octx : ssh_digest_ctx;
  hc_digest : ssh_digest_ctx;
  hc_buf : list Z
}.

Definition ssh_hmac_bytes (alg : Z) : Z := ssh_digest_bytes alg.

Definition ssh_hmac_start (alg : Z) : option ssh_hmac_ctx :=
  match ssh_digest_start alg, ssh_digest_start alg, ssh_digest_start alg with
  | Some i, Some o, Some d => Some (HmacCtx alg i o d (zrepeat (ssh_digest_blocksize i) 0))
  | _, _, _ => None
  end.

(** Any failure of a digest call is -1. *)
Definition or_fail {A S} (r : res Z A) : M Z S A :=
  lift (match r with Ok v => Ok v | Er _ => Er (-1) | Panic => Panic | Fault => Fault end).

(** [buf[i] ^= x] *)
Definition xor_all (x : Z) (bs : list Z) : list Z := map (Z.lxor x) bs.

(** The key into the block buffer, hashed when it is too long. *)
Definition load_key (alg : Z) (buf key : list Z) : res Z (list Z) :=
  if zlen key <=? zlen buf then Ok (zsplice buf 0 key)
  else match ssh_digest_memory alg key (zlen buf) with
       | Ok d => Ok (zsplice buf 0 d)
       | Er e => Er e
       | Panic => Panic
       | Fault => Fault
       end.

Definition ssh_hmac_init (key : option (list Z)) : M Z ssh_hmac_ctx unit :=
  match key with
  | None => cret tt
  | Some k =>
      let! c := cget in
      let! buf := or_fail (load_key (hc_alg c) (hc_buf c) k) in
      let buf := xor_all 0x36 buf in
      let! i := or_fail (ssh_digest_update (hc_ictx c) buf) in
      let buf := xor_all (Z.lxor 0x36 0x5c) buf in
      let! o := or_fail (ssh_digest_update (hc_octx c) buf) in
      cput (HmacCtx (hc_alg c) i o (hc_digest c) (zrepeat (zlen (hc_buf c)) 0))
  end ;!
  let! c := cget in
  let! d := or_fail (ssh_digest_copy_state (hc_ictx c) (hc_digest c)) in
  cput (HmacCtx (hc_alg c) (hc_ictx c) (hc_octx c) d (hc_buf c)).

Definition ssh_hmac_update (m : list Z) : M Z ssh_hmac_ctx unit :=
  let! c := cget in
  let! d := lift (ssh_digest_update (hc_digest c) m) in
  cput (HmacCtx (hc_alg c) (hc_ictx c) (hc_octx c) d (hc_buf c)).

Definition ssh_hmac_final (dlen : Z) : M Z ssh_hmac_ctx (list Z) :=
  let! c := cget in
  let len := ssh_digest_bytes (hc_alg c) in
  guard (negb (dlen <? len)) (-1) ;!
  let! r := or_fail (ssh_digest_final (hc_digest c) len) in
  let buf := zsplice (hc_buf c) 0 (fst r) in
  let! d := or_fail (ssh_digest_copy_state (hc_octx c) (snd r)) in
  let! d := or_fail (ssh_digest_update d (take (Z.to_nat len) buf)) in
  let! r := or_fail (ssh_digest_final d dlen) in
  cput (HmacCtx (hc_alg c) (hc_ictx c) (hc_octx c) (snd r) buf) ;!
  cret (fst r).

(** ** RFC 2104 *)

(** The key padded with zeros to the block size, hashed first when it is longer. *)
Definition hmac_key (alg : Z) (key : list Z) : list Z :=
  let B := md_block_size alg in
  let k := if zlen key <=? B then key else digest alg key in
  k ++ zrepeat (B - zlen k) 0.
Definition hmac (alg : Z) (key m : list Z) : list Z :=
  digest alg (xor_all 0x5c (hmac_key alg key) ++ digest alg (xor_all 0x36 (hmac_key alg key) ++ m)).

(** A context that has been given its key and is between messages. *)
Definition keyed (alg : Z) (key : list Z) (c : ssh_hmac_ctx) : Prop :=
  hc_alg c = alg /\ hc_ictx c = DigestCtx alg (Some (xor_all 0x36 (hmac_key alg key)))
  /\ hc_octx c = DigestCtx alg (Some (xor_all 0x5c (hmac_key alg key)))
  /\ dc_alg (hc_digest c) = alg /\ zlen (hc_buf c) = md_block_size alg.
(** ... and in the middle of one. *)
Definition hashing (alg : Z) (key m : list Z) (c : ssh_hmac_ctx) : Prop :=
  keyed alg key c /\ dc_data (hc_digest c) = Some (xor_all 0x36 (hmac_key alg key) ++ m).

Context {L : CryptoLaws C} {DL : DigestLaws DB}.

Lemma zlen_xor_all x bs : zlen (xor_all x bs) = zlen bs.
Proof. unfold xor_all, zlen. by rewrite length_map. Qed.
Lemma xor_all_twice x y bs : xor_all (Z.lxor x y) (xor_all x bs) = xor_all y bs.
Proof.
  unfold xor_all. rewrite map_map. apply map_ext. intros b.
  rewrite (Z.lxor_comm x y), Z.lxor_assoc, <- (Z.lxor_assoc x x b), Z.lxor_nilpotent. by rewrite Z.lxor_0_l.
Qed.

Lemma splice_zeros n (k : list Z) : zlen k <= n -> zsplice (zrepeat n 0) 0 k = k ++ zrepeat (n - zlen k) 0.
Proof.
  intros H. unfold zsplice. change (take (Z.to_nat 0) (zrepeat n 0)) with (@nil Z). rewrite app_nil_l.
  f_equal. unfold zrepeat. rewrite drop_replicate. f_equal. pose proof (zlen_nonneg k). unfold zlen in *. lia.
Qed.

Lemma hmac_start_ok alg : alg_known alg = true ->
  ssh_hmac_start alg = Some (HmacCtx alg (DigestCtx alg (Some [])) (DigestCtx alg (Some [])) (DigestCtx alg (Some []))
                               (zrepeat (md_block_size alg) 0)).
Proof. intros H. unfold ssh_hmac_start, ssh_digest_start. by rewrite H. Qed.

Lemma load_key_ok alg key : alg_known alg = true ->
  load_key alg (zrepeat (md_block_size alg) 0) key = Ok (hmac_key alg key).
Proof.
  intros Ha. destruct (block_len alg Ha) as [Hb Hb2]. pose proof (digest_len alg key Ha) as Hd.
  pose proof (zlen_nonneg (digest alg key)). unfold load_key, hmac_key, ssh_digest_memory.
  rewrite zlen_zrepeat, Ha by lia. cbn [negb orb].
  destruct (Z.leb_spec (zlen key) (md_block_size alg)); [by rewrite splice_zeros by lia|].
  replace (2 ^ 32 - 1 <? md_block_size alg) with false by lia.
  replace (md_block_size alg <? ssh_digest_bytes alg) with false by lia. cbn [orb].
  by rewrite splice_zeros by lia.
Qed.

Lemma block_nonneg alg : alg_known alg = true -> 0 <= ssh_digest_bytes alg /\ 0 <= md_block_size alg.
Proof.
  intros Ha. destruct (block_len alg Ha). pose proof (digest_len alg [] Ha). pose proof (zlen_nonneg (digest alg [])). lia.
Qed.

(** The key given to a fresh context. *)
Lemma hmac_init_key alg key c : alg_known alg = true -> ssh_hmac_start alg = Some c ->
  exists c', ssh_hmac_init (Some key) c = (Ok tt, c') /\ hashing alg key [] c'.
Proof.
  intros Ha Hs. rewrite hmac_start_ok in Hs by done. injection Hs as <-.
  unfold ssh_hmac_init, or_fail, lift, cbind, cget, cput. cbn [hc_alg hc_buf hc_ictx hc_octx hc_digest].
  rewrite load_key_ok by done. unfold ssh_digest_update, ssh_digest_copy_state. cbn [dc_data dc_alg].
  rewrite Z.eqb_refl. cbn [negb hc_ictx hc_digest hc_alg hc_octx hc_buf dc_data dc_alg].
  eexists. split; [reflexivity|]. rewrite !app_nil_l, xor_all_twice.
  split; [|cbn; by rewrite app_nil_r]. pose proof (block_nonneg alg Ha). split_and!; try done.
  cbn [hc_buf]. rewrite (zlen_zrepeat (zlen _)) by apply zlen_nonneg. apply zlen_zrepeat. lia.
Qed.

(** Without a key a context starts over with the one it has. *)
Lemma hmac_init_again alg key c : keyed alg key c ->
  exists c', ssh_hmac_init None c = (Ok tt, c') /\ hashing alg key [] c'.
Proof.
  intros (E1 & E2 & E3 & E4 & E5). unfold ssh_hmac_init, or_fail, lift, cbind, cret, cget, cput, ssh_digest_copy_state.
  rewrite E2, E4. cbn [dc_alg]. rewrite Z.eqb_refl. cbn [negb]. eexists. split; [reflexivity|].
  split; [|cbn; by rewrite app_nil_r]. by split_and!.
Qed.

Lemma hmac_update_ok alg key m m' c : hashing alg key m c ->
  exists c', ssh_hmac_update m' c = (Ok tt, c') /\ hashing alg key (m ++ m') c'.
Proof.
  intros ((E1 & E2 & E3 & E4 & E5) & Ed). unfold ssh_hmac_update, lift, cbind, cget, cput, ssh_digest_update.
  rewrite Ed, E4. eexists. split; [reflexivity|]. split; [by split_and!|]. cbn. by rewrite <- app_assoc.
Qed.

Lemma hmac_final_ok alg key m dlen c : alg_known alg = true -> ssh_digest_bytes alg <= dlen < 2 ^ 32 ->
  hashing alg key m c ->
  exists c', ssh_hmac_final dlen c = (Ok (hmac alg key m), c') /\ keyed alg key c'.
Proof.
  intros Ha Hl ((E1 & E2 & E3 & E4 & E5) & Ed). destruct (block_len alg Ha) as [Hb Hb2].
  pose proof (block_nonneg alg Ha) as Hn. pose proof (fun m => digest_len alg m Ha) as Hd.
  unfold ssh_hmac_final, or_fail, lift, cbind, guard, cret, cget, cput. rewrite E1.
  replace (dlen <? ssh_digest_bytes alg) with false by lia. cbn [negb].
  unfold ssh_digest_final at 1. rewrite E4, Ed. replace (2 ^ 32 - 1 <? ssh_digest_bytes alg) with false by lia.
  rewrite Z.ltb_irrefl. cbn [orb fst snd]. unfold ssh_digest_copy_state. rewrite E3. cbn [dc_alg dc_data].
  rewrite Z.eqb_refl. cbn [negb]. unfold ssh_digest_update. cbn [dc_data dc_alg].
  set (inner := digest alg _). pose proof (Hd (xor_all 0x36 (hmac_key alg key) ++ m)) as Hi. fold inner in Hi.
  replace (take (Z.to_nat (ssh_digest_bytes alg)) (zsplice (hc_buf c) 0 inner)) with inner.
  2:{ unfold zsplice. change (take (Z.to_nat 0) (hc_buf c)) with (@nil Z). rewrite app_nil_l, <- Hi.
      unfold zlen. rewrite Nat2Z.id. by rewrite take_app_length. }
  unfold ssh_digest_final. cbn [dc_alg dc_data].
  replace (2 ^ 32 - 1 <? dlen) with false by lia. replace (dlen <? ssh_digest_bytes alg) with false by lia.
  cbn [orb fst snd]. eexists. split; [reflexivity|]. split_and!; try done. cbn [hc_buf].
  by rewrite zlen_zsplice by lia.
Qed.

(** ** Sessions: messages in pieces, the context reused from one to the next *)

Fixpoint hmac_updates (ms : list (list Z)) : M Z ssh_hmac_ctx unit :=
  match ms with [] => cret tt | m :: r => ssh_hmac_update m ;! hmac_updates r end.
Fixpoint hmac_session (key : option (list Z)) (dlen : Z) (msgs : list (list (list Z))) : M Z ssh_hmac_ctx (list (list Z)) :=
  match msgs with
  | [] => cret []
  | ms :: r =>
      ssh_hmac_init key ;! hmac_updates ms ;!
      let! d := ssh_hmac_final dlen in
      let! ds := hmac_session None dlen r in
      cret (d :: ds)
  end.

Lemma hmac_updates_ok alg key ms : forall m c, hashing alg key m c ->
  exists c', hmac_updates ms c = (Ok tt, c') /\ hashing alg key (m ++ concat ms) c'.
Proof.
  induction ms as [|m' ms IH]; intros m c Hc; cbn [hmac_updates concat].
  { exists c. by rewrite app_nil_r. }
  destruct (hmac_update_ok alg key m m' c Hc) as (c1 & E1 & H1).
  destruct (IH _ c1 H1) as (c2 & E2 & H2). exists c2. rewrite (cbind_ok _ _ _ _ _ E1). by rewrite app_assoc.
Qed.

Lemma hmac_message_ok alg key dlen ms c1 (f : list Z -> M Z ssh_hmac_ctx (list (list Z))) :
  alg_known alg = true -> ssh_digest_bytes alg <= dlen < 2 ^ 32 -> hashing alg key [] c1 ->
  exists c', (hmac_updates ms ;! let! d := ssh_hmac_final dlen in f d) c1 = f (hmac alg key (concat ms)) c'
    /\ keyed alg key c'.
Proof.
  intros Ha Hl H1. destruct (hmac_updates_ok alg key ms [] c1 H1) as (c2 & E2 & H2).
  destruct (hmac_final_ok alg key _ dlen c2 Ha Hl H2) as (c3 & E3 & H3). exists c3. split; [|done].
  by rewrite (cbind_ok _ _ _ _ _ E2), (cbind_ok _ _ _ _ _ E3).
Qed.

Lemma hmac_session_keyed alg key dlen msgs : alg_known alg = true -> ssh_digest_bytes alg <= dlen < 2 ^ 32 ->
  forall c, keyed alg key c ->
  exists c', hmac_session None dlen msgs c = (Ok (map (fun ms => hmac alg key (concat ms)) msgs), c').
Proof.
  intros Ha Hl. induction msgs as [|ms msgs IH]; intros c Hc; [by exists c|]. cbn [hmac_session map].
  destruct (hmac_init_again alg key c Hc) as (c1 & E1 & H1). rewrite (cbind_ok _ _ _ _ _ E1).
  destruct (hmac_message_ok alg key dlen ms c1 (fun d => let! ds := hmac_session None dlen msgs in cret (d :: ds))
              Ha Hl H1) as (c2 & -> & H2).
  destruct (IH c2 H2) as (c3 & E3). exists c3. by rewrite (cbind_ok _ _ _ _ _ E3).
Qed.

(** C31: HMAC. A context started for an algorithm of the table, given a key of any length and
    used for any number of messages, each in any pieces, the key given once and the context
    reset in between, computes the HMAC of RFC 2104 of each message. *)
Theorem ssh_hmac_is_rfc2104 alg key dlen msgs :
  alg_known alg = true -> ssh_digest_bytes alg <= dlen < 2 ^ 32 ->
  exists c c', ssh_hmac_start alg = Some c /\
    hmac_session (Some key) dlen msgs c = (Ok (map (fun ms => hmac alg key (concat ms)) msgs), c').
Proof.
  intros Ha Hl. pose proof (hmac_start_ok alg Ha) as Hs. eexists. destruct msgs as [|ms msgs]; [by eexists|].
  destruct (hmac_init_key alg key _ Ha Hs) as (c1 & E1 & H1).
  destruct (hmac_message_ok alg key dlen ms c1 (fun d => let! ds := hmac_session None dlen msgs in cret (d :: ds))
              Ha Hl H1) as (c2 & E2 & H2).
  destruct (hmac_session_keyed alg key dlen msgs Ha Hl c2 H2) as (c3 & E3).
  exists c3. split; [exact Hs|]. cbn [hmac_session map]. rewrite (cbind_ok _ _ _ _ _ E1), E2.
  by rewrite (cbind_ok _ _ _ _ _ E3).
Qed.
End Hmac.

(** * An instance *)

Module ToyDigest.
#[global] Instance blocks : DigestBlocks := { md_block_size alg := if alg <? 4 then 64 else 128 }.
#[global] Instance laws : DigestLaws blocks.
Proof.
  assert (forall alg, alg_known alg = true -> alg = 0 \/ alg = 1 \/ alg = 2 \/ alg = 3 \/ alg = 4 \/ alg = 5) as Hk.
  { intros alg. unfold alg_known. change (zlen digests) with 6. lia. }
  constructor. intros alg H. destruct (Hk alg H) as [-> | [-> | [-> | [-> | [-> | ->]]]]]; vm_compute; split; congruence.
Qed.
End ToyDigest.

Lemma ssh_hmac_is_rfc2104_witness :
  exists c c', ssh_hmac_start 3 = Some c /\
    hmac_session (Some (Toy.random 100)) 32 [[[1; 2]; [3]]; []; [[4]]] c
    = (Ok (map (fun ms => hmac 3 (Toy.random 100) (concat ms)) [[[1; 2]; [3]]; []; [[4]]]), c').
Proof. apply (ssh_hmac_is_rfc2104 3 (Toy.random 100) 32); [reflexivity|by vm_compute]. Defined.
