(* ===== verification/EboxStream.v ===== *)
(** * Ebox streams (ebox.c)

    A stream is an ebox, whose key encrypts the data, followed by chunks that are
    encrypted one by one. The default is AES-256-CTR with a HMAC-SHA256 over the
    ciphertext; the IV of a chunk is its sequence number. A chunk holds a pointer to its stream,
    which the operations on chunks only read: it is an argument here. *)
From stdpp Require Import base list strings.
From Stdlib Require Import ZArith Lia.
From S2P Require Import Prelude Errf Sshbuf Algs Sss PivBox EboxTpl Ebox EboxWire EboxRecover Words Poly1305 ChaCha Cipher Hmac.

Local Open Scope string_scope.
Local Open Scope list_scope.
Local Open Scope Z_scope.
Local Open Scope c_scope.

Section Stream.
Context {C : Crypto} {KB : KeyBlobs} {DB : DigestBlocks} {E : Evp}.
Local Abbreviation W := (M errf_t sshbuf).

Definition EBOX_STREAM_DEFAULT_CHUNK : Z := 128 * 1024.

Record ebox_stream := Stream {
  es_ebox : ebox;
  es_cipher : list Z;
  es_mac : list Z;
  es_chunklen : Z
}.
Record ebox_stream_chunk := Chunk {
  esc_seqnr : Z;
  esc_enc : option (list Z);
  esc_plain : option (list Z)
}.

Definition with_type (b : ebox) (ty : Z) : ebox :=
  Ebox (e_version b) (e_tpl b) (e_configs b) ty (e_ephemkeys b) (e_key b) (e_rcv_cipher b)
    (e_rcv_key b) (e_rcv_iv b) (e_rcv_enc b) (e_rcv_plain b) (e_token b).

(** [rkey n] is [n] random bytes. When [ebox_create] fails, [es_ebox] is still null when
    its key is assigned. *)
Definition ebox_stream_new (rnd : randoms) (rkey : Z -> list Z) (tpl : ebox_tpl) : res errf_t ebox_stream :=
  match cipher_by_name (zs "aes256-ctr") with
  | None => Panic
  | Some cipher =>
      let key := rkey (cipher_keylen cipher) in
      match ebox_create rnd tpl key None with
      | Ok box => Ok (Stream (with_type (with_key box (Some key)) EBOX_STREAM) (zs "aes256-ctr") (zs "sha256")
                        EBOX_STREAM_DEFAULT_CHUNK)
      | Er _ => Fault
      | Panic => Panic
      | Fault => Fault
      end
  end.

Definition sshbuf_put_ebox_stream (es : ebox_stream) : W unit :=
  sshbuf_put_ebox (es_ebox es) ;!
  sshput (sshbuf_put_u64 (es_chunklen es)) ;!
  sshput (sshbuf_put_cstring8 (Some (es_cipher es))) ;!
  sshput (sshbuf_put_cstring8 (Some (es_mac es))).

Definition sshbuf_put_ebox_stream_chunk (esc : ebox_stream_chunk) : W unit :=
  match esc_enc esc with
  | None => craise argerrf
  | Some enc =>
      sshput (sshbuf_put_u32 (esc_seqnr esc)) ;!
      sshput (sshbuf_put_string enc)
  end.

Definition sshbuf_get_ebox_stream_chunk : W ebox_stream_chunk :=
  let! seqnr := sshget sshbuf_get_u32 in
  let! enc := sshget sshbuf_get_string in
  cret (Chunk seqnr (Some enc) None).

(** A 64-bit [size_t]: [chunklen > SIZE_MAX] is never true. *)
Definition sshbuf_get_ebox_stream : W ebox_stream :=
  let! e := sshbuf_get_ebox in
  guard (e_type e =? EBOX_STREAM) (boxverrf EboxTypeError) ;!
  let! chunklen := sshget sshbuf_get_u64 in
  let! cname := sshget sshbuf_get_cstring8 in
  let! mname := sshget sshbuf_get_cstring8 in
  match cipher_by_name (c_str cname) with
  | None => craise (boxverrf BadAlgorithmError)
  | Some _ =>
      guard (negb (ssh_digest_alg_by_name (c_str mname) =? -1)) (boxverrf BadAlgorithmError) ;!
      cret (Stream e (c_str cname) (c_str mname) chunklen)
  end.

(** The HMAC of a chunk: every call is in a [VERIFY0]. *)
Definition chunk_mac (dgalg : Z) (key data : list Z) (maclen : Z) : res errf_t (list Z) :=
  match ssh_hmac_start dgalg with
  | None => Panic
  | Some ctx =>
      match (ssh_hmac_init (Some key) ;! ssh_hmac_update data ;! ssh_hmac_final maclen) ctx with
      | (Ok d, _) => Ok d
      | (Fault, _) => Fault
      | _ => Panic
      end
  end.

(** Zeros with the sequence number in front; none for a cipher without an IV. *)
Definition chunk_iv (cipher : sshcipher) (seqnr : Z) : res errf_t (option (list Z)) :=
  let ivlen := cipher_ivlen cipher in
  if 0 <? ivlen then
    if 4 <=? ivlen then Ok (Some (zsplice (zrepeat ivlen 0) 0 (be_bytes 4 seqnr))) else Panic
  else Ok None.

(** The digest for a cipher without a tag of its own, and its length; -1 for none. *)
Definition chunk_alg (es : ebox_stream) (cipher : sshcipher) : res errf_t (Z * Z) :=
  if cipher_authlen cipher =? 0 then
    let dgalg := ssh_digest_alg_by_name (es_mac es) in
    if dgalg =? -1 then Panic else Ok (dgalg, ssh_digest_bytes dgalg)
  else Ok (-1, 0).

(** [e_key] with [e_keylen], the first [keylen] bytes of it. *)
Definition chunk_key (es : ebox_stream) (cipher : sshcipher) : res errf_t (list Z) :=
  let keylen := cipher_keylen cipher in
  if negb (keylen <=? zlen (default [] (e_key (es_ebox es)))) then Panic
  else match e_key (es_ebox es) with
       | None => Panic
       | Some key => Ok (take (Z.to_nat keylen) key)
       end.

Definition chunk_cipher (es : ebox_stream) : res errf_t sshcipher :=
  match cipher_by_name (es_cipher es) with None => Panic | Some c => Ok c end.

(** [VERIFY0] of a call that yields bytes. *)
Definition must {A} (r : res Z A) : res errf_t A :=
  match r with Ok v => Ok v | Er _ => Panic | Panic => Panic | Fault => Fault end.

Context (tmp : nat -> list Z).

Definition ebox_stream_encrypt_chunk (es : ebox_stream) : M errf_t ebox_stream_chunk unit :=
  let! esc := cget in
  let! cipher := lift (chunk_cipher es) in
  let! iv := lift (chunk_iv cipher (esc_seqnr esc)) in
  let! am := lift (chunk_alg es cipher) in
  let! key := lift (chunk_key es cipher) in
  let plain := default [] (esc_plain esc) in
  let blocksz := cipher_blocksize cipher in
  let padding := blocksz - zlen plain mod blocksz in
  verify ((padding <=? blocksz) && (0 <? padding)) ;!
  let plain := plain ++ zrepeat padding padding in
  let! cctx := lift (must (cipher_init cipher key iv true)) in
  let! enc := lift (must (cipher_crypt tmp cctx (esc_seqnr esc) plain (zlen plain) 0 (cipher_authlen cipher))) in
  let! mac := (if fst am =? -1 then cret [] else lift (chunk_mac (fst am) key enc (snd am))) in
  cput (Chunk (esc_seqnr esc) (Some (enc ++ mac)) (esc_plain esc)).

(** The padding checked and taken off. *)
Definition chunk_unpad (blocksz : Z) (plain : list Z) : res errf_t (list Z) :=
  match zget plain (zlen plain - 1) with
  | None => Fault
  | Some padding =>
      if (padding <? 1) || (blocksz <? padding) then Er PaddingError
      else
        let reallen := usize (zlen plain - padding) in
        if forallb (fun b => b =? padding) (drop (Z.to_nat reallen) plain)
        then Ok (take (Z.to_nat reallen) plain) else Er PaddingError
  end.

Definition MACError : errf_t := errf "MACError" None.

(** The MAC of a chunk checked. The [size_t] difference [enclen - maclen] wraps when there
    is less than a MAC. *)
Definition chunk_check (am : Z * Z) (key enc : list Z) : res errf_t unit :=
  let (dgalg, maclen) := am in
  let enclen := zlen enc in
  if dgalg =? -1 then Ok tt
  else if enclen <? usize (enclen - maclen) then Fault
  else match chunk_mac dgalg key (zslice enc 0 (enclen - maclen)) maclen with
       | Ok mac => if bool_decide (mac = zslice enc (enclen - maclen) maclen) then Ok tt else Er MACError
       | Er e => Er e
       | Panic => Panic
       | Fault => Fault
       end.

Definition ebox_stream_decrypt_chunk (es : ebox_stream) : M errf_t ebox_stream_chunk unit :=
  let! esc := cget in
  let! cipher := lift (chunk_cipher es) in
  let! iv := lift (chunk_iv cipher (esc_seqnr esc)) in
  let! am := lift (chunk_alg es cipher) in
  let! key := lift (chunk_key es cipher) in
  let enc := default [] (esc_enc esc) in
  let enclen := zlen enc in
  let authlen := cipher_authlen cipher in
  let maclen := snd am in
  guard (negb (enclen <? authlen + cipher_blocksize cipher)) LengthError ;!
  lift (chunk_check am key enc) ;!
  let plainlen := enclen - authlen - maclen in
  let! cctx := lift (must (cipher_init cipher key iv false)) in
  let! plain := lift (match cipher_crypt tmp cctx (esc_seqnr esc) enc plainlen 0 authlen with
                      | Ok p => Ok p
                      | Er rc => Er (ssherrf rc)
                      | Panic => Panic
                      | Fault => Fault
                      end) in
  let! data := lift (chunk_unpad (cipher_blocksize cipher) plain) in
  cput (Chunk (esc_seqnr esc) (esc_enc esc) (Some data)).

Definition ebox_stream_chunk_data (esc : ebox_stream_chunk) : list Z := default [] (esc_plain esc).

(** The sequence number is a [size_t] that goes into a [uint32_t]. *)
Definition ebox_stream_chunk_new (data : list Z) (seqnr : Z) : ebox_stream_chunk := Chunk (u32 seqnr) None (Some data).

Definition ebox_stream_ebox (es : ebox_stream) : ebox := es_ebox es.
Definition ebox_stream_cipher (es : ebox_stream) : list Z := es_cipher es.
Definition ebox_stream_mac (es : ebox_stream) : list Z := es_mac es.
Definition ebox_stream_chunk_size (es : ebox_stream) : Z := es_chunklen es.
End Stream.

(** ** Chunks *)

Section Chunks.
Context {C : Crypto} {L : CryptoLaws C} {KB : KeyBlobs} {DB : DigestBlocks} {DL : DigestLaws DB} {E : Evp} {EL : EvpLaws E}.

(** A stream whose key is at hand, with the cipher [c] and the digest [alg]. *)
Record stream_open (es : ebox_stream) (c : sshcipher) (alg : Z) (key : list Z) : Prop := {
  so_cipher : cipher_by_name (es_cipher es) = Some c;
  so_mac : ssh_digest_alg_by_name (es_mac es) = alg /\ alg <> -1;
  so_key : e_key (es_ebox es) = Some key /\ bytes key /\ cipher_keylen c <= zlen key
}.

Lemma iv_lens name c : cipher_by_name name = Some c -> cipher_ivlen c = 0 \/ 4 <= cipher_ivlen c.
Proof.
  unfold cipher_by_name. intros [Hin _]%find_some.
  assert (forallb (fun c => (cipher_ivlen c =? 0) || (4 <=? cipher_ivlen c)) ciphers = true) as H by by vm_compute.
  rewrite forallb_forall in H. specialize (H c Hin). lia.
Qed.

Lemma chunk_iv_ok name c seqnr : cipher_by_name name = Some c ->
  exists n iv, chunk_iv c seqnr = Ok n /\ (n = Some iv \/ n = None /\ iv = []) /\ zlen iv = cipher_ivlen c.
Proof.
  intros Hc. pose proof (iv_lens _ _ Hc) as Hi. unfold chunk_iv. destruct (Z.ltb_spec 0 (cipher_ivlen c)).
  - replace (4 <=? cipher_ivlen c) with true by lia. eexists _, _. split; [reflexivity|]. split; [by left|].
    rewrite zlen_zsplice; [by apply zlen_zrepeat; lia|lia|]. rewrite zlen_be_bytes, zlen_zrepeat by lia. lia.
  - exists None, []. split; [done|]. split; [by right|]. change (zlen (@nil Z)) with 0. lia.
Qed.

Lemma chunk_mac_ok alg key data : alg_known alg = true ->
  chunk_mac alg key data (ssh_digest_bytes alg) = Ok (hmac alg key data).
Proof.
  intros Ha. unfold chunk_mac. rewrite (hmac_start_ok alg Ha).
  destruct (hmac_init_key alg key _ Ha (hmac_start_ok alg Ha)) as (c1 & E1 & H1). rewrite (cbind_ok _ _ _ _ _ E1).
  destruct (hmac_update_ok alg key [] data c1 H1) as (c2 & E2 & H2). rewrite (cbind_ok _ _ _ _ _ E2).
  pose proof (block_nonneg alg Ha). pose proof (block_len alg Ha).
  destruct (hmac_final_ok alg key _ (ssh_digest_bytes alg) c2 Ha ltac:(lia) H2) as (c3 & E3 & _). by rewrite E3.
Qed.

Lemma chunk_unpad_padded blk data : 1 <= blk <= 16 -> zlen data < 2 ^ 63 -> chunk_unpad blk (padded blk data) = Ok data.
Proof.
  intros Hb Hl. pose proof (unpad_padded blk data Hb Hl) as H. unfold unpad, chunk_unpad in *.
  destruct (zget _ _); [|done]. destruct (_ || _); [done|]. destruct (forallb _ _); [|done]. injection H as ->.
  f_equal. unfold padded, zlen. by rewrite Nat2Z.id, take_app_length.
Qed.

(** What a chunk is encrypted to: at most 81 bytes more than the data and never empty. *)
Definition chunk_room (c : sshcipher) (alg : Z) (data : list Z) : Z :=
  zlen (padded (cipher_blocksize c) data) + cipher_authlen c + (if cipher_authlen c =? 0 then ssh_digest_bytes alg else 0).

Section Open.
Context (es : ebox_stream) (c : sshcipher) (alg : Z) (key : list Z) (Hes : stream_open es c alg key).

(** The MAC algorithm in use and its length, the key in use, the MAC. *)
Definition used_mac : Z * Z := if cipher_authlen c =? 0 then (alg, ssh_digest_bytes alg) else (-1, 0).
Definition used_key : list Z := take (Z.to_nat (cipher_keylen c)) key.
Definition mac_of (e : list Z) : list Z := if cipher_authlen c =? 0 then hmac alg used_key e else [].

Lemma open_known : cipher_ok c = true /\ alg_known alg = true.
Proof.
  destruct Hes as [Hc [Hm Hm1] _]. split; [by eapply cipher_by_name_ok|]. subst alg. by apply alg_by_name_known.
Qed.
Lemma open_cipher : chunk_cipher es = Ok c.
Proof. unfold chunk_cipher. by rewrite (so_cipher _ _ _ _ Hes). Qed.
Lemma open_alg : chunk_alg es c = Ok used_mac.
Proof.
  destruct (so_mac _ _ _ _ Hes) as [Hm H1]. unfold chunk_alg, used_mac. rewrite Hm.
  replace (alg =? -1) with false by lia. by destruct (cipher_authlen c =? 0).
Qed.
Lemma open_key : chunk_key es c = Ok used_key.
Proof.
  destruct (so_key _ _ _ _ Hes) as (Hk & _ & Hl). unfold chunk_key. rewrite Hk. change (default [] (Some key)) with key.
  by replace (cipher_keylen c <=? zlen key) with true by lia.
Qed.
Lemma open_key_fits : key_fits c used_key.
Proof.
  destruct (so_key _ _ _ _ Hes) as (_ & Hb & Hl), open_known as [Hok _]. destruct (cipher_lens c Hok) as (_ & Hk & _).
  split; [by apply Forall_take|]. unfold used_key, zlen in *. rewrite length_take. lia.
Qed.

Lemma mac_of_ok e : bytes (mac_of e) /\ zlen (mac_of e) = snd used_mac.
Proof.
  destruct open_known as [_ Ha]. unfold mac_of, used_mac, hmac.
  destruct (cipher_authlen c =? 0); [split; [apply digest_bytes|by apply digest_len]|split; [apply Forall_nil_2|done]].
Qed.
Lemma mac_made e : (if fst used_mac =? -1 then Ok [] else chunk_mac (fst used_mac) used_key e (snd used_mac)) = Ok (mac_of e).
Proof.
  destruct open_known as [_ Ha], (so_mac _ _ _ _ Hes) as [_ H1]. unfold mac_of, used_mac.
  destruct (cipher_authlen c =? 0); cbn [fst snd]; [|done]. replace (alg =? -1) with false by lia. by apply chunk_mac_ok.
Qed.
(** The check passes on what the encryption appended, and on nothing else of that length. *)
Lemma mac_checked e m : zlen m = snd used_mac -> zlen e < 2 ^ 63 ->
  chunk_check used_mac used_key (e ++ m) = if bool_decide (m = mac_of e) then Ok tt else Er MACError.
Proof.
  intros Hm He. destruct open_known as [_ Ha], (so_mac _ _ _ _ Hes) as [_ H1]. unfold mac_of, used_mac, chunk_check in *.
  destruct (cipher_authlen c =? 0); cbn [fst snd] in *.
  - replace (alg =? -1) with false by lia. rewrite zlen_app, Hm. pose proof (zlen_nonneg e). pose proof (zlen_nonneg m).
    replace (zlen e + ssh_digest_bytes alg - ssh_digest_bytes alg) with (zlen e) by lia.
    rewrite wrap_small by lia. replace (_ <? _) with false by lia. rewrite zslice_app_l, chunk_mac_ok by done.
    pose proof (zslice_app_r e m []) as Z1. rewrite app_nil_r, Hm in Z1. rewrite Z1.
    destruct (decide (m = hmac alg used_key e)) as [->|Hne]; [by rewrite !bool_decide_true|].
    rewrite !bool_decide_false; congruence.
  - change (-1 =? -1) with true. cbv iota. destruct m; [by rewrite bool_decide_true|].
    rewrite zlen_cons in Hm. pose proof (zlen_nonneg m). lia.
Qed.
End Open.

(** Bytes after those [cipher_crypt] is to look at do not matter. *)
Lemma crypt_tail0 tmp cc seqnr e m : cipher_ok (cc_cipher cc) = true -> cc_encrypt cc = false -> cipher_authlen (cc_cipher cc) = 0 ->
  cipher_crypt tmp cc seqnr (e ++ m) (zlen e) 0 0 = cipher_crypt tmp cc seqnr e (zlen e) 0 0.
Proof.
  intros Hok Hd Ha. unfold cipher_crypt. rewrite Hd. destruct (is_chachapoly (cc_cipher cc)) eqn:Hc.
  { destruct (chachapoly_lens _ Hok Hc). lia. }
  rewrite Z.add_0_r. pose proof (zslice_app_l e []) as Z1. rewrite app_nil_r in Z1. by rewrite zslice_app_l, Z1.
Qed.

(** A chunk's data encrypted, before the MAC. *)
Lemma chunk_args es c alg key seqnr data : stream_open es c alg key -> bytes data ->
  exists n iv, chunk_iv c seqnr = Ok n /\ (n = Some iv \/ n = None /\ iv = [])
    /\ cipher_args c (used_key c key) iv (padded (cipher_blocksize c) data).
Proof.
  intros Hes Hd. destruct (open_known _ _ _ _ Hes) as [Hok _]. destruct (cipher_lens c Hok) as (Hb & _).
  destruct (chunk_iv_ok _ c seqnr (so_cipher _ _ _ _ Hes)) as (n & iv & Ei & Hn & Hl). exists n, iv. split; [done|]. split; [done|].
  split; [by eapply open_key_fits|]. split; [done|]. split; [by apply padded_bytes|by apply padded_blocks].
Qed.

Lemma encrypt_run tmp es c alg key seqnr data n e : stream_open es c alg key -> chunk_iv c seqnr = Ok n ->
  crypt tmp c (used_key c key) n true seqnr (padded (cipher_blocksize c) data) (zlen (padded (cipher_blocksize c) data)) 0
    (cipher_authlen c) = Ok e ->
  ebox_stream_encrypt_chunk tmp es (Chunk seqnr None (Some data))
  = (Ok tt, Chunk seqnr (Some (e ++ mac_of c alg key e)) (Some data)).
Proof.
  intros Hes Ei Ec. destruct (open_known _ _ _ _ Hes) as [Hok _]. destruct (cipher_lens c Hok) as (Hb & _).
  unfold ebox_stream_encrypt_chunk. rewrite (cbind_ok cget _ (Chunk seqnr None (Some data)) _ _ eq_refl).
  rewrite (open_cipher _ _ _ _ Hes). unfold lift at 1. unfold cbind at 1. cbn [esc_seqnr esc_plain]. rewrite Ei. unfold cbind at 1, lift at 1.
  rewrite (open_alg _ _ _ _ Hes). unfold cbind at 1, lift at 1. rewrite (open_key _ _ _ _ Hes). unfold cbind at 1, lift at 1.
  change (default [] (Some data)) with data. fold (pad_len (cipher_blocksize c) (zlen data)).
  pose proof (pad_len_range (cipher_blocksize c) (zlen data) ltac:(lia)). replace (_ && _) with true by lia. cbn [verify].
  rewrite cbind_ret_l. fold (padded (cipher_blocksize c) data).
  unfold crypt in Ec. destruct (cipher_init c _ n true) as [cc| | |]; try done. cbn [must]. unfold cbind at 1, lift at 1.
  rewrite Ec. cbn [must]. unfold cbind at 1, lift at 1. pose proof (mac_made _ _ _ _ Hes e) as Hm.
  destruct (fst (used_mac c alg) =? -1).
  - injection Hm as <-. rewrite cbind_ret_l. done.
  - rewrite Hm. unfold cbind, lift. done.
Qed.

Lemma decrypt_run tmp es c alg key seqnr data n e : stream_open es c alg key -> chunk_iv c seqnr = Ok n ->
  zlen data < 2 ^ 62 -> zlen e = zlen (padded (cipher_blocksize c) data) + cipher_authlen c ->
  crypt tmp c (used_key c key) n false seqnr e (zlen (padded (cipher_blocksize c) data)) 0 (cipher_authlen c)
    = Ok (padded (cipher_blocksize c) data) ->
  ebox_stream_decrypt_chunk tmp es (Chunk seqnr (Some (e ++ mac_of c alg key e)) None)
  = (Ok tt, Chunk seqnr (Some (e ++ mac_of c alg key e)) (Some data)).
Proof.
  intros Hes Ei Hd Hl Ec. destruct (open_known _ _ _ _ Hes) as [Hok _]. destruct (cipher_lens c Hok) as (Hb & _ & _ & Ha).
  pose proof (zlen_padded (cipher_blocksize c) data ltac:(lia)) as Hp. pose proof (pad_len_range (cipher_blocksize c) (zlen data) ltac:(lia)).
  pose proof (zlen_nonneg data). destruct (mac_of_ok _ _ _ _ Hes e) as [_ Hm].
  assert (cipher_blocksize c <= zlen (padded (cipher_blocksize c) data)) as Hmin.
  { rewrite Hp. unfold pad_len. pose proof (Z.mod_le (zlen data) (cipher_blocksize c) (zlen_nonneg _) ltac:(lia)). lia. }
  set (m := mac_of c alg key e) in *. pose proof (zlen_nonneg m).
  unfold ebox_stream_decrypt_chunk. rewrite (cbind_ok cget _ (Chunk seqnr (Some (e ++ m)) None) _ _ eq_refl).
  rewrite (open_cipher _ _ _ _ Hes). unfold lift at 1. unfold cbind at 1. cbn [esc_seqnr esc_enc]. rewrite Ei. unfold cbind at 1, lift at 1.
  rewrite (open_alg _ _ _ _ Hes). unfold cbind at 1, lift at 1. rewrite (open_key _ _ _ _ Hes). unfold cbind at 1, lift at 1.
  change (default [] (Some (e ++ m))) with (e ++ m). rewrite zlen_app at 1.
  replace (zlen e + zlen m <? _) with false by lia. cbn [negb guard]. rewrite cbind_ret_l.
  rewrite (mac_checked _ _ _ _ Hes e m Hm) by lia. rewrite bool_decide_true by done. unfold cbind at 1, lift at 1.
  rewrite zlen_app, <- Hm. replace (zlen e + zlen m - cipher_authlen c - zlen m) with (zlen (padded (cipher_blocksize c) data)) by lia.
  unfold crypt in Ec. destruct (cipher_init c _ n false) as [cc| | |] eqn:Ecc; try done. cbn [must]. unfold cbind at 1, lift at 1.
  assert (cc_cipher cc = c /\ cc_encrypt cc = false) as [Hcc Hce].
  { unfold cipher_init in Ecc. destruct (_ || _); [done|]. destruct (is_chachapoly c); [|by injection Ecc as <-].
    destruct (chachapoly_init _); try done. by injection Ecc as <-. }
  assert (cipher_crypt tmp cc seqnr (e ++ m) (zlen (padded (cipher_blocksize c) data)) 0 (cipher_authlen c)
    = Ok (padded (cipher_blocksize c) data)) as ->.
  { destruct (Z.eqb_spec (cipher_authlen c) 0) as [Hz|Hz].
    - rewrite Hz in *. replace (zlen (padded (cipher_blocksize c) data)) with (zlen e) in * by lia.
      rewrite crypt_tail0; try rewrite Hcc; done.
    - unfold m, mac_of. rewrite (proj2 (Z.eqb_neq _ _) Hz), app_nil_r. exact Ec. }
  unfold cbind at 1, lift at 1. rewrite chunk_unpad_padded by lia. unfold cbind, lift. done.
Qed.

Lemma chunk_crypt tmp tmp' es es' c alg key seqnr data : tmp_ok tmp -> tmp_ok tmp' ->
  stream_open es c alg key -> stream_open es' c alg key -> bytes data -> zlen data < 2 ^ 62 ->
  exists enc, ebox_stream_encrypt_chunk tmp es (Chunk seqnr None (Some data)) = (Ok tt, Chunk seqnr (Some enc) (Some data))
    /\ bytes enc /\ zlen enc = chunk_room c alg data
    /\ ebox_stream_decrypt_chunk tmp' es' (Chunk seqnr (Some enc) None) = (Ok tt, Chunk seqnr (Some enc) (Some data)).
Proof.
  intros Ht Ht' Hes Hes' Hd Hz. destruct (open_known _ _ _ _ Hes) as [Hok _].
  destruct (chunk_args es c alg key seqnr data Hes Hd) as (n & iv & Ei & Hn & Hargs).
  destruct (crypt_pair tmp tmp' c (used_key c key) iv n seqnr [] _ Ht Ht' Hok Hargs (Forall_nil_2 _) Hn) as (e & E1 & El & Eb & E2).
  change (@nil Z ++ padded (cipher_blocksize c) data) with (padded (cipher_blocksize c) data) in *.
  change (zlen (@nil Z)) with 0 in *. rewrite Z.add_0_l in El. destruct (mac_of_ok _ _ _ _ Hes e) as [Mb Ml].
  exists (e ++ mac_of c alg key e). split; [by eapply encrypt_run|]. split; [by apply Forall_app|]. split; [|by eapply decrypt_run].
  rewrite zlen_app, El, Ml. unfold chunk_room, used_mac. by destruct (cipher_authlen c =? 0).
Qed.

Lemma chunk_room_bounds c alg data : cipher_ok c = true -> alg_known alg = true ->
  0 < chunk_room c alg data <= zlen data + 96.
Proof.
  intros Hok Ha. destruct (cipher_lens c Hok) as (Hb & _ & _ & Hau). unfold chunk_room.
  rewrite zlen_padded by lia. pose proof (pad_len_range (cipher_blocksize c) (zlen data) ltac:(lia)). pose proof (zlen_nonneg data).
  assert (0 <= ssh_digest_bytes alg <= 64).
  { unfold alg_known in Ha. change (zlen digests) with 6 in Ha.
    assert (alg = 0 \/ alg = 1 \/ alg = 2 \/ alg = 3 \/ alg = 4 \/ alg = 5) as Hx by lia.
    destruct Hx as [-> | [-> | [-> | [-> | [-> | ->]]]]]; vm_compute; split; congruence. }
  destruct (cipher_authlen c =? 0); lia.
Qed.

(** *** On the wire *)

Definition chunk_bytes (seqnr : Z) (enc : list Z) : list Z := be_bytes 4 seqnr ++ str32 enc.

Lemma puts_chunk seqnr enc p : bytes enc -> zlen enc <= SSHBUF_SIZE_MAX - 4 ->
  puts (sshbuf_put_ebox_stream_chunk (Chunk seqnr (Some enc) p)) (chunk_bytes seqnr enc).
Proof.
  intros Hb Hl. unfold sshbuf_put_ebox_stream_chunk. cbn [esc_enc esc_seqnr].
  apply puts_seq; apply puts_ssh; [apply puts_u32|by apply puts_string].
Qed.
Lemma gets_chunk seqnr enc : 0 <= seqnr < 2 ^ 32 -> zlen enc <= SSHBUF_SIZE_MAX - 4 ->
  gets sshbuf_get_ebox_stream_chunk (chunk_bytes seqnr enc) (Chunk seqnr (Some enc) None).
Proof.
  intros Hs Hl. unfold sshbuf_get_ebox_stream_chunk. eapply gets_bind; [apply gets_maperr; by apply gets_u32|].
  eapply gets_last; [apply gets_maperr; by apply gets_string|apply gets_ret].
Qed.

(** *** The header *)

Definition stream_bytes (w : ebox_wire) (es : ebox_stream) : list Z :=
  ew_bytes w ++ be_bytes 8 (es_chunklen es) ++ str8 (es_cipher es) ++ str8 (es_mac es).

(** A stream that can be written, with the wire form of its ebox. *)
Record stream_wire (es : ebox_stream) (w : ebox_wire) : Prop := {
  sw_ebox : ebox_written (es_ebox es) w /\ ew_ok w /\ ew_type w = EBOX_STREAM;
  sw_chunk : 0 <= es_chunklen es < 2 ^ 64;
  sw_cipher : field_ok (FCstr8 (es_cipher es)) /\ exists c, cipher_by_name (es_cipher es) = Some c;
  sw_mac : field_ok (FCstr8 (es_mac es)) /\ ssh_digest_alg_by_name (es_mac es) <> -1
}.

Context {KL : KeyBlobLaws KB}.

Lemma puts_stream es w : stream_wire es w -> puts (sshbuf_put_ebox_stream es) (stream_bytes w es).
Proof.
  intros [(Hw & Hok & _) Hc [Hf _] [Hg _]]. unfold sshbuf_put_ebox_stream, stream_bytes.
  apply puts_seq; [by apply puts_ebox|]. apply puts_seq; [apply puts_ssh, puts_u64|].
  apply puts_seq; apply puts_ssh; [exact (puts_field (FCstr8 (es_cipher es)) Hf)|exact (puts_field (FCstr8 (es_mac es)) Hg)].
Qed.
Lemma gets_stream es w : stream_wire es w ->
  gets sshbuf_get_ebox_stream (stream_bytes w es) (Stream (ebox_of_wire w) (es_cipher es) (es_mac es) (es_chunklen es)).
Proof.
  intros [(Hw & Hok & Hty) Hc [Hf [c Hcn]] [Hg Hm]]. pose proof Hf as (F1 & F2 & F3). pose proof Hg as (G1 & G2 & G3).
  unfold sshbuf_get_ebox_stream, stream_bytes. eapply gets_bind; [by apply gets_ebox|].
  apply gets_guard; [cbn [ebox_of_wire e_type]; rewrite Hty; reflexivity|].
  eapply gets_bind; [apply gets_ssh; by apply gets_u64|].
  eapply gets_bind; [apply gets_ssh, gets_cstring8; [lia|by apply no_nul_c_str]|].
  eapply gets_last; [apply gets_ssh, gets_cstring8; [lia|by apply no_nul_c_str]|].
  rewrite (c_str_ok _ Hf), (c_str_ok _ Hg), Hcn. apply gets_guard; [lia|apply gets_ret].
Qed.

(** Tampering with a stream. In a stream whose cipher has no tag of its own, a chunk at least as long as the HMAC
    ([stream_short_chunk_overread] is a shorter one) whose last bytes are not the HMAC of the rest under the stream's key is refused with
    MACError before anything is decrypted, and is left as it was. *)
Theorem stream_chunk_authentic tmp es c alg key seqnr e m p :
  stream_open es c alg key -> cipher_authlen c = 0 -> zlen m = ssh_digest_bytes alg ->
  cipher_blocksize c <= zlen e + zlen m < 2 ^ 63 -> m <> hmac alg (used_key c key) e ->
  ebox_stream_decrypt_chunk tmp es (Chunk seqnr (Some (e ++ m)) p) = (Er MACError, Chunk seqnr (Some (e ++ m)) p).
Proof.
  intros Hes Ha Hm Hl Hne. destruct (chunk_iv_ok _ c seqnr (so_cipher _ _ _ _ Hes)) as (n & iv & Ei & _).
  unfold ebox_stream_decrypt_chunk. rewrite (cbind_ok cget _ (Chunk seqnr (Some (e ++ m)) p) _ _ eq_refl).
  rewrite (open_cipher _ _ _ _ Hes). unfold lift at 1. unfold cbind at 1. cbn [esc_seqnr esc_enc]. rewrite Ei. unfold cbind at 1, lift at 1.
  rewrite (open_alg _ _ _ _ Hes). unfold cbind at 1, lift at 1. rewrite (open_key _ _ _ _ Hes). unfold cbind at 1, lift at 1.
  change (default [] (Some (e ++ m))) with (e ++ m). rewrite zlen_app at 1. rewrite Ha.
  replace (zlen e + zlen m <? _) with false by lia. cbn [negb guard]. rewrite cbind_ret_l.
  pose proof (zlen_nonneg m).
  rewrite (mac_checked _ _ _ _ Hes e m) by (unfold used_mac; rewrite ?Ha; cbn; lia).
  rewrite bool_decide_false; [done|]. unfold mac_of. rewrite Ha. exact Hne.
Qed.
End Chunks.

(** * An instance *)

Module ToyStream.
(** A stream with a key of [n] bytes at hand. *)
Definition es (n : Z) (cipher : string) : ebox_stream :=
  Stream (with_key ToyEbox.box (Some (Toy.random n))) (zs cipher) (zs "sha256") EBOX_STREAM_DEFAULT_CHUNK.
Definition sha256 : Z := ssh_digest_alg_by_name (zs "sha256").
Definition ctr : sshcipher := default (Cipher [] 0 0 0 0 0 0 0) (cipher_by_name (zs "aes256-ctr")).
Definition chunk (seqnr : Z) (enc : list Z) : ebox_stream_chunk := Chunk seqnr (Some enc) None.
End ToyStream.

Lemma toy_stream_open : stream_open (ToyStream.es 32 "aes256-ctr") ToyStream.ctr ToyStream.sha256 (Toy.random 32).
Proof.
  constructor; [reflexivity|split; [reflexivity|by vm_compute]|].
  split; [reflexivity|]. split; [apply bytesb_spec; reflexivity|by vm_compute].
Qed.

Lemma stream_chunk_authentic_witness :
  ebox_stream_decrypt_chunk ToyEvp.junk (ToyStream.es 32 "aes256-ctr") (ToyStream.chunk 1 (zrepeat 16 5 ++ zrepeat 32 0))
  = (Er MACError, ToyStream.chunk 1 (zrepeat 16 5 ++ zrepeat 32 0)).
Proof.
  apply (stream_chunk_authentic ToyEvp.junk (ToyStream.es 32 "aes256-ctr") ToyStream.ctr ToyStream.sha256 (Toy.random 32) 1
    (zrepeat 16 5) (zrepeat 32 0) None toy_stream_open).
  - reflexivity.
  - reflexivity.
  - vm_compute. split; congruence.
  - vm_compute. congruence.
Defined.

(** ** Behaviours that differ from what the code means to do *)

(** The minimum length leaves the MAC out: a chunk of 16 to 31 bytes passes the check, the length
    of what the MAC covers wraps, and bytes far past the chunk are hashed. *)
Lemma stream_short_chunk_overread :
  fst (ebox_stream_decrypt_chunk ToyEvp.junk (ToyStream.es 32 "aes256-ctr") (ToyStream.chunk 1 (zrepeat 16 0))) = Fault.
Proof. vm_compute. reflexivity. Qed.

(** The MAC does not cover the sequence number: a chunk that is given another number passes
    the MAC check. *)
Lemma stream_seqnr_not_in_mac :
  let es := ToyStream.es 32 "aes256-ctr" in
  match snd (ebox_stream_encrypt_chunk ToyEvp.junk es (ebox_stream_chunk_new [1; 2; 3] 1)) with
  | Chunk _ (Some enc) _ => chunk_check (ToyStream.sha256, 32) (Toy.random 32) enc = Ok tt /\
      fst (ebox_stream_decrypt_chunk ToyEvp.junk es (ToyStream.chunk 2 enc)) <> Er MACError
  | _ => False
  end.
Proof. vm_compute. split; [reflexivity|congruence]. Qed.

(** The cipher of a stream is read from its header and the length of the key from the box: a header that names
    a cipher with a longer key makes decryption abort. *)
Lemma stream_short_key_abort :
  fst (ebox_stream_decrypt_chunk ToyEvp.junk (ToyStream.es 32 "chacha20-poly1305") (ToyStream.chunk 1 (zrepeat 64 0))) = Panic.
Proof. vm_compute. reflexivity. Qed.
