(* ===== verification/StreamCmd.v ===== *)
(** * Encrypting and decrypting streams (pivy-box.c)

    [pivy-box stream encrypt] and [pivy-box stream decrypt], as functions of the bytes on
    standard input and with the bytes they write. The loops read until the end of the input and take
    fuel; running out of it is [Starved], which is not an outcome of the code. Standard input ends with the end of the file or with a read
    error; standard output takes everything or nothing. An early exit of the program is [Exited]. The
    tokens and agents at hand are the argument [local_unlock]; the questions of the interactive
    recovery mode are not modelled, so decryption is that of the batch option [-b]. *)
From stdpp Require Import base list strings.
From Stdlib Require Import ZArith Lia.
From S2P Require Import Prelude Errf Sshbuf Algs Sss SssShare PivBox EboxTpl Ebox EboxWire EboxRecover Words Poly1305 ChaCha Cipher Hmac EboxKey EboxStream.

Local Open Scope string_scope.
Local Open Scope list_scope.
Local Open Scope Z_scope.
Local Open Scope c_scope.

Inductive halt :=
| Returned (e : errf_t)
| Exited
| Starved.

Record stdio := Stdio {
  in_data : list Z;
  in_fails : bool;
  in_eof : bool;
  in_err : bool;
  out_full : bool;
  out : list Z
}.

Local Abbreviation T := (M halt (stdio * sshbuf)).

(** [fread] of [n] bytes; at the end of the data the end-of-file or the error indicator is set. *)
Definition fread (n : Z) : T (list Z) :=
  fun s =>
    let (io, b) := s in
    let d := take (Z.to_nat n) (in_data io) in
    let short := zlen d <? n in
    (Ok d, (Stdio (drop (Z.to_nat n) (in_data io)) (in_fails io) (in_eof io || (short && negb (in_fails io)))
              (in_err io || (short && in_fails io)) (out_full io) (out io), b)).
Definition feof : T bool := cgets (fun s => in_eof (fst s)).
Definition ferror : T bool := cgets (fun s => in_err (fst s)).
(** The number of bytes written. *)
Definition fwrite (d : list Z) : T Z :=
  fun s =>
    let (io, b) := s in
    if out_full io then (Ok 0, s)
    else (Ok (zlen d), (Stdio (in_data io) (in_fails io) (in_eof io) (in_err io) (out_full io) (out io ++ d), b)).

(** A call on the buffer whose error is returned, is ignored or fails a [VERIFY0]; the error as a value. *)
Definition on_buf {A} (m : M errf_t sshbuf A) : T A :=
  fun s => let (r, b) := m (snd s) in
           (match r with Ok a => Ok a | Er e => Er (Returned e) | Panic => Panic | Fault => Fault end, (fst s, b)).
Definition buf_void (m : B unit) : T unit :=
  fun s => let (r, b) := m (snd s) in
           (match r with Ok _ | Er _ => Ok tt | Panic => Panic | Fault => Fault end, (fst s, b)).
Definition buf_must {A} (m : B A) : T A :=
  fun s => let (r, b) := m (snd s) in
           (match r with Ok a => Ok a | Er _ | Panic => Panic | Fault => Fault end, (fst s, b)).
Definition buf_try {A} (m : M errf_t sshbuf A) : T (errf_t + A) :=
  fun s => let (r, b) := m (snd s) in
           (match r with Ok a => Ok (inr a) | Er e => Ok (inl e) | Panic => Panic | Fault => Fault end, (fst s, b)).
(** A call on a value of its own. *)
Definition on_own {S A} (m : M errf_t S A) (s : S) : T S :=
  fun w => let (r, s') := m s in
           (match r with Ok _ => Ok s' | Er e => Er (Returned e) | Panic => Panic | Fault => Fault end, w).

(** [ibuf->off = poff] *)
Definition set_off (poff : Z) (b : sshbuf) : sshbuf := with_range b (sb_data b) poff (sb_size b) (sb_alloc b).

Section Cmd.
Context {C : Crypto} {KB : KeyBlobs} {DB : DigestBlocks} {E : Evp}.
Context (fuel : nat) (tmp : nat -> list Z).

Fixpoint write_loop (n : nat) : T unit :=
  match n with
  | O => craise Starved
  | S n =>
      let! len := buf_must sshbuf_len in
      if 0 <? len then
        let! d := cgets (fun s => sb_contents (snd s)) in
        let! nwrote := fwrite d in
        buf_void (sshbuf_consume nwrote) ;! write_loop n
      else cret tt
  end.
Definition write_out : T unit := write_loop fuel ;! buf_void sshbuf_reset.

Fixpoint encrypt_loop (es : ebox_stream) (n : nat) (seq : Z) : T unit :=
  match n with
  | O => craise Starved
  | S n =>
      let! eof := feof in
      let! er := ferror in
      if eof || er then cret tt
      else
        let! ibuf := fread (ebox_stream_chunk_size es) in
        if zlen ibuf <? 1 then encrypt_loop es n seq
        else
          let seq := usize (seq + 1) in
          let! esc := on_own (ebox_stream_encrypt_chunk tmp es) (ebox_stream_chunk_new ibuf seq) in
          on_buf (sshbuf_put_ebox_stream_chunk esc) ;!
          write_out ;!
          encrypt_loop es n seq
  end.

(** From an empty buffer. *)
Definition cmd_stream_encrypt (rnd : randoms) (rkey : Z -> list Z) (tpl : ebox_tpl) : T unit :=
  let! es := cmaperr Returned (lift (ebox_stream_new rnd rkey tpl)) in
  on_buf (sshbuf_put_ebox_stream es) ;!
  write_out ;!
  encrypt_loop es fuel 0.

(** After a message that could not be read: try again with more input, or give up. *)
Definition retry {A} (poff : Z) (e : errf_t) (again : T A) : T A :=
  if errf_caused_by (Some e) "IncompleteMessageError" then
    let! eof := feof in
    if eof then craise Exited
    else cmodify (fun s => (fst s, set_off poff (snd s))) ;! again
  else craise (Returned e).

Fixpoint header_loop (n : nat) : T ebox_stream :=
  match n with
  | O => craise Starved
  | S n =>
      let! buf := fread 8192 in
      let! er := ferror in
      guard (negb ((zlen buf <? 1) && er)) Exited ;!
      buf_must (sshbuf_put buf) ;!
      let! poff := cgets (fun s => sb_off (snd s)) in
      let! r := buf_try sshbuf_get_ebox_stream in
      match r with inr es => cret es | inl e => retry poff e (header_loop n) end
  end.

(** The bytes left over, in a buffer of their own. *)
Definition renew_buf : T unit :=
  let! len := buf_must sshbuf_len in
  if 0 <? len then
    let! d := cgets (fun s => sb_contents (snd s)) in
    cmodify (fun s => (fst s, sshbuf_new)) ;! buf_must (sshbuf_put d)
  else cret tt.

Definition decrypt_one (es : ebox_stream) (esc : ebox_stream_chunk) : T unit :=
  let! esc := on_own (ebox_stream_decrypt_chunk tmp es) esc in
  let data := ebox_stream_chunk_data esc in
  let! nwrote := fwrite data in
  guard (negb (nwrote <? zlen data)) Exited ;!
  renew_buf.

Fixpoint decrypt_loop (es : ebox_stream) (n : nat) : T unit :=
  match n with
  | O => craise Starved
  | S n =>
      let! buf := fread 8192 in
      let! er := ferror in
      let! eof := feof in
      let! len := buf_must sshbuf_len in
      if (zlen buf <? 1) && er then craise Exited
      else if (zlen buf <? 1) && eof && (len =? 0) then cret tt
      else
        buf_must (sshbuf_put buf) ;!
        let! poff := cgets (fun s => sb_off (snd s)) in
        let! r := buf_try sshbuf_get_ebox_stream_chunk in
        match r with
        | inr esc => decrypt_one es esc ;! decrypt_loop es n
        | inl e => retry poff e (decrypt_loop es n)
        end
  end.

Definition InteractiveError : errf_t := errf "InteractiveError" None.
Definition with_configs (b : ebox) (cs : list ebox_config) : ebox :=
  Ebox (e_version b) (e_tpl b) cs (e_type b) (e_ephemkeys b) (e_key b) (e_rcv_cipher b)
    (e_rcv_key b) (e_rcv_iv b) (e_rcv_enc b) (e_rcv_plain b) (e_token b).

Context (local_unlock : ebox_part -> res errf_t ebox_part).

(** The primary configurations [cs] after those in [front]: the first whose first part a token opens. *)
Fixpoint unlock_primaries (box : ebox) (front cs : list ebox_config) : res errf_t (option ebox) :=
  match cs with
  | [] => Ok None
  | c :: r =>
      if etc_type (ec_tpl c) =? EBOX_PRIMARY then
        match ec_parts c with
        | [] => Fault
        | p :: ps =>
            match local_unlock p with
            | Ok p =>
                match ebox_unlock (box, EboxConfig (ec_tpl c) (p :: ps) (ec_nonce c)) with
                | (Ok _, (box, c)) => Ok (Some (with_configs box (front ++ c :: r)))
                | (Er e, _) => Er e
                | (Panic, _) => Panic
                | (Fault, _) => Fault
                end
            | Er e => if errf_caused_by (Some e) "NotFoundError" then unlock_primaries box (front ++ [c]) r else Er e
            | Panic => Panic
            | Fault => Fault
            end
        end
      else unlock_primaries box (front ++ [c]) r
  end.
(** With [ebox_batch] set. *)
Definition interactive_unlock_ebox (box : ebox) : res errf_t ebox :=
  match unlock_primaries box [] (e_configs box) with
  | Ok (Some box) => Ok box
  | Ok None => Er InteractiveError
  | Er e => Er e
  | Panic => Panic
  | Fault => Fault
  end.

Definition with_ebox (es : ebox_stream) (box : ebox) : ebox_stream :=
  Stream box (es_cipher es) (es_mac es) (es_chunklen es).

Definition cmd_stream_decrypt : T unit :=
  let! es := header_loop fuel in
  let! box := cmaperr Returned (lift (interactive_unlock_ebox (ebox_stream_ebox es))) in
  decrypt_loop (with_ebox es box) fuel.

(** What a command writes for an input. *)
Definition stdin (d : list Z) : stdio := Stdio d false false false false [].
Definition writes (cmd : T unit) (d o : list Z) : Prop :=
  exists io b, cmd (stdin d, sshbuf_new) = (Ok tt, (io, b)) /\ out io = o.
End Cmd.

(** ** Reading and writing *)

Definition emit (io : stdio) (d : list Z) : stdio :=
  Stdio (in_data io) (in_fails io) (in_eof io) (in_err io) (out_full io) (out io ++ d).

(** A buffer of its own with the contents [d]. *)
Definition holds (b : sshbuf) (d : list Z) : Prop :=
  sb_ok b /\ abs b = Queue d SSHBUF_SIZE_MAX false.

Lemma holds_new : holds sshbuf_new [].
Proof. split; [apply new_ok|reflexivity]. Qed.
Lemma holds_inv b d : holds b d -> sb_ok b /\ sb_contents b = d /\ sb_max_size b = SSHBUF_SIZE_MAX /\ shared b = false.
Proof. intros [Hk (H1 & H2 & H3)%abs_inv]. by split_and!. Qed.

Lemma holds_puts {E} (m : M E sshbuf unit) bs b d : puts m bs -> holds b d -> zlen d + zlen bs <= SSHBUF_SIZE_MAX ->
  exists b', m b = (Ok tt, b') /\ holds b' (d ++ bs).
Proof.
  intros Hm (Hk & Hc & Hx & Hs)%holds_inv Hl. destruct (Hm b Hk Hs) as (b' & E1 & K & A); [rewrite Hc, Hx; lia|].
  exists b'. rewrite Hc, Hx in A. by split; [|split].
Qed.
Lemma holds_gets {E A} (m : M E sshbuf A) bs v b d : gets m bs v -> holds b (bs ++ d) ->
  exists b', m b = (Ok v, b') /\ holds b' d.
Proof.
  intros Hm (Hk & Hc & Hx & Hs)%holds_inv. destruct (Hm b d Hk Hc) as (b' & E1 & K & Ab). exists b'. rewrite Hx, Hs in Ab.
  by split; [|split].
Qed.
Lemma holds_len b d : holds b d -> sshbuf_len b = (Ok (zlen d), b).
Proof. intros (Hk & Hc & _)%holds_inv. rewrite <- Hc. by apply len_ok. Qed.

Lemma fwrite_ok d io b : out_full io = false -> fwrite d (io, b) = (Ok (zlen d), (emit io d, b)).
Proof. intros Ho. unfold fwrite. by rewrite Ho at 1. Qed.

Lemma write_out_ok fuel io b d : (2 <= fuel)%nat -> holds b d -> out_full io = false ->
  exists b', write_out fuel (io, b) = (Ok tt, (emit io d, b')) /\ holds b' [].
Proof.
  intros Hf Hb Ho. pose proof (holds_inv b d Hb) as (Hk & Hc & Hx & Hs). destruct fuel as [|[|n]]; try lia.
  assert (forall b', holds b' [] -> write_loop (S n) (emit io d, b') = (Ok tt, (emit io d, b'))) as Hend.
  { intros b' Hb'. cbn [write_loop]. unfold cbind at 1, buf_must. cbn [snd fst]. by rewrite (holds_len b' [] Hb'). }
  assert (exists b', write_loop (S (S n)) (io, b) = (Ok tt, (emit io d, b')) /\ holds b' []) as (b1 & E1 & H1).
  { change (write_loop (S (S n))) with (let! len := buf_must sshbuf_len in
      if 0 <? len then let! d := cgets (fun s : stdio * sshbuf => sb_contents (snd s)) in
        let! nwrote := fwrite d in buf_void (sshbuf_consume nwrote) ;! write_loop (S n) else cret tt).
    unfold cbind at 1, buf_must. cbn [snd fst]. rewrite (holds_len b d Hb). destruct (Z.ltb_spec 0 (zlen d)) as [Hd|Hd].
    - assert (holds (advance b (zlen d)) []) as Ha.
      { split; [apply advance_ok; [done|rewrite Hc; lia]|]. rewrite abs_advance; [|done|rewrite Hc; lia].
        rewrite Hc, Hx, Hs. unfold zlen. by rewrite Nat2Z.id, drop_all. }
      unfold cbind at 1, cgets. cbn [snd]. rewrite Hc, (cbind_ok _ _ _ _ _ (fwrite_ok d io b Ho)). unfold cbind at 1, buf_void. cbn [snd fst].
      rewrite consume_ok by (done || lia). rewrite Hc, Z.ltb_irrefl. rewrite (Hend _ Ha). by eexists.
    - pose proof (zlen_nonneg d). destruct d; [|rewrite zlen_cons in Hd; pose proof (zlen_nonneg d); lia].
      exists b. split; [|done]. unfold emit. rewrite app_nil_r. by destruct io. }
  unfold write_out. rewrite (cbind_ok _ _ _ _ _ E1). pose proof (holds_inv _ _ H1) as (Hk1 & Hc1 & Hx1 & Hs1).
  destruct (reset_empties b1 Hk1) as (b2 & E2 & K2 & R2); [rewrite Hx1; by vm_compute|].
  exists b2. unfold buf_void. cbn [snd fst]. rewrite E2. split; [done|]. split; [done|].
  apply (f_equal snd) in R2. unfold q_reset, cmodify in R2. cbn [snd] in R2. rewrite <- R2.
  cbn [abs q_max q_ro]. by rewrite Hx1, Hs1.
Qed.

(** ** Encryption *)

Section Loops.
Context {C : Crypto} {L : CryptoLaws C} {KB : KeyBlobs} {KL : KeyBlobLaws KB} {DB : DigestBlocks} {DL : DigestLaws DB}
  {E : Evp} {EL : EvpLaws E}.
Context (c : sshcipher) (alg : Z) (key : list Z).

(** A chunk that opens to [d] with the key of the stream. *)
Definition opens (seqnr : Z) (enc d : list Z) : Prop :=
  forall tmp es, tmp_ok tmp -> stream_open es c alg key ->
    ebox_stream_decrypt_chunk tmp es (Chunk seqnr (Some enc) None) = (Ok tt, Chunk seqnr (Some enc) (Some d)).

(** Chunks that open to the pieces of [d]; only the last may be short. *)
Inductive sealed : list (Z * list Z) -> list Z -> Prop :=
| sealed_nil : sealed [] []
| sealed_cons seqnr enc p cs d :
    0 <= seqnr < 2 ^ 32 -> p <> [] -> bytes enc -> zlen enc <= 2 ^ 20 -> 8192 <= zlen enc \/ cs = [] ->
    opens seqnr enc p -> sealed cs d -> sealed ((seqnr, enc) :: cs) (p ++ d).
Definition wire (cs : list (Z * list Z)) : list Z := flat_map (fun c => chunk_bytes (fst c) (snd c)) cs.

Lemma sealed_empty cs d : sealed cs d -> d = [] -> cs = [].
Proof. intros [|seqnr enc p cs' d' _ Hp _ _ _ _ _] Hd; [done|]. by apply app_eq_nil in Hd as [? _]. Qed.

Lemma seal_chunk tmp es seqnr d : tmp_ok tmp -> stream_open es c alg key -> bytes d -> zlen d < 2 ^ 62 ->
  exists enc, ebox_stream_encrypt_chunk tmp es (Chunk seqnr None (Some d)) = (Ok tt, Chunk seqnr (Some enc) (Some d))
    /\ bytes enc /\ zlen enc = chunk_room c alg d /\ opens seqnr enc d.
Proof.
  intros Ht Hes Hd Hl. destruct (chunk_crypt tmp tmp es es c alg key seqnr d Ht Ht Hes Hes Hd Hl) as (enc & E1 & Eb & El & _).
  exists enc. split; [done|]. split; [done|]. split; [done|]. intros tmp' es' Ht' Hes'.
  destruct (chunk_crypt tmp tmp' es es' c alg key seqnr d Ht Ht' Hes Hes' Hd Hl) as (enc' & E1' & _ & _ & E2).
  rewrite E1 in E1'. injection E1' as <-. exact E2.
Qed.

Lemma zlen_take_drop (k : Z) (d : list Z) : 0 < k ->
  zlen (take (Z.to_nat k) d) = Z.min k (zlen d) /\ (zlen (take (Z.to_nat k) d) < k -> drop (Z.to_nat k) d = []).
Proof.
  intros Hk. unfold zlen. rewrite length_take. split; [lia|]. intros Hl. apply drop_ge. lia.
Qed.

Lemma zlen_chunk seqnr enc : zlen (chunk_bytes seqnr enc) = 8 + zlen enc.
Proof. unfold chunk_bytes, str32. rewrite !zlen_app, !zlen_be_bytes. lia. Qed.

(** Input that has not failed, and whose end has been seen only when nothing is left. *)
Definition feeds (io : stdio) (d : list Z) : Prop :=
  in_data io = d /\ in_fails io = false /\ in_err io = false /\ out_full io = false /\ (in_eof io = true -> d = []).
Definition read_on (io : stdio) (k : Z) : stdio :=
  Stdio (drop (Z.to_nat k) (in_data io)) (in_fails io) (in_eof io || ((zlen (take (Z.to_nat k) (in_data io)) <? k) && negb (in_fails io)))
    (in_err io || ((zlen (take (Z.to_nat k) (in_data io)) <? k) && in_fails io)) (out_full io) (out io).
Lemma fread_ok io d k b : feeds io d -> 0 < k ->
  fread k (io, b) = (Ok (take (Z.to_nat k) d), (read_on io k, b)) /\ feeds (read_on io k) (drop (Z.to_nat k) d) /\
  (drop (Z.to_nat k) d = [] -> zlen d < k -> in_eof (read_on io k) = true).
Proof.
  intros (Hd & Hf & He & Ho & Hz) Hk. split; [unfold fread, read_on; rewrite Hd; reflexivity|]. unfold feeds, read_on. cbn. rewrite Hd, Hf, He, Ho.
  destruct (zlen_take_drop k d Hk) as [Hl Hs]. split.
  - split; [done|]. split; [done|]. split; [by rewrite andb_false_r|]. split; [done|].
    rewrite andb_true_r. intros [Hi|Hi]%orb_true_iff; [rewrite (Hz Hi); apply drop_nil|apply Hs; lia].
  - intros _ Hz'. replace (_ <? k) with true by lia. apply orb_true_r.
Qed.

Lemma encrypt_loop_ok fuel tmp es : tmp_ok tmp -> stream_open es c alg key -> 8192 <= es_chunklen es <= 2 ^ 19 -> (2 <= fuel)%nat ->
  forall n d seq io b, feeds io d -> bytes d -> holds b [] ->
  (length d + (if in_eof io then 1 else 2) <= n)%nat ->
  exists cs io' b', encrypt_loop fuel tmp es n seq (io, b) = (Ok tt, (io', b')) /\ out io' = out io ++ wire cs /\ sealed cs d.
Proof.
  intros Ht Hes Hcl Hfu. destruct (open_known _ _ _ _ Hes) as [Hok Ha].
  induction n as [|n IH]; intros d seq io b Hio Hd Hb Hn; [destruct (in_eof io); lia|].
  pose proof Hio as (Hdat & _ & He & Ho & Hz). cbn [encrypt_loop]. unfold cbind at 1, feof, cgets. cbn [fst].
  unfold cbind at 1, ferror, cgets. cbn [fst]. rewrite He, orb_false_r. destruct (in_eof io) eqn:Hef.
  { rewrite (Hz eq_refl). exists [], io, b. split; [done|]. split; [by rewrite app_nil_r|constructor]. }
  change (ebox_stream_chunk_size es) with (es_chunklen es). set (k := es_chunklen es) in *.
  destruct (fread_ok io d k b Hio ltac:(lia)) as (Er & Hio' & Hend). rewrite (cbind_ok _ _ _ _ _ Er).
  destruct (zlen_take_drop k d ltac:(lia)) as [Hl Hs]. set (p := take (Z.to_nat k) d) in *. pose proof (zlen_nonneg d).
  destruct (Z.ltb_spec (zlen p) 1) as [Hp|Hp].
  { destruct d; [|rewrite zlen_cons in *; pose proof (zlen_nonneg d); lia].
    destruct (IH [] seq (read_on io k) b) as (cs & io' & b' & E1 & E2 & E3); try done.
    - by rewrite drop_nil in Hio'.
    - rewrite drop_nil in Hend. rewrite Hend by (done || lia). cbn in *. lia.
    - exists cs, io', b'. by split. }
  assert (bytes p) as Hpb by by apply Forall_take.
  destruct (seal_chunk tmp es (u32 (usize (seq + 1))) p Ht Hes Hpb ltac:(lia)) as (enc & Ee & Eb & El & Eo).
  unfold cbind at 1, on_own. unfold ebox_stream_chunk_new at 1. rewrite Ee.
  destruct (chunk_room_bounds c alg p Hok Ha) as [_ Hr]. destruct (cipher_lens c Hok) as (Hbs & _ & _ & Hau).
  assert (zlen p <= chunk_room c alg p) as Hr'.
  { unfold chunk_room. rewrite zlen_padded by lia. pose proof (pad_len_range (cipher_blocksize c) (zlen p) ltac:(lia)).
    assert (0 <= (if cipher_authlen c =? 0 then ssh_digest_bytes alg else 0)); [|lia].
    destruct (cipher_authlen c =? 0); [|lia]. rewrite <- (digest_len alg [] Ha). apply zlen_nonneg. }
  destruct (holds_puts _ _ b [] (puts_chunk (u32 (usize (seq + 1))) enc (Some p) Eb ltac:(rewrite size_max_eq; lia)) Hb)
    as (b1 & E1 & H1).
  { rewrite zlen_chunk, size_max_eq. change (zlen (@nil Z)) with 0. lia. }
  unfold cbind at 1, on_buf. cbn [snd fst]. rewrite E1.
  destruct Hio' as (Hdat' & Hf' & He' & Ho' & Hz').
  destruct (write_out_ok fuel (read_on io k) b1 _ Hfu H1 Ho') as (b2 & E2 & H2). rewrite (cbind_ok _ _ _ _ _ E2).
  destruct (IH (drop (Z.to_nat k) d) (usize (seq + 1)) (emit (read_on io k) ([] ++ chunk_bytes (u32 (usize (seq + 1))) enc)) b2)
    as (cs & io' & b' & E3 & E4 & E5); [done|by apply Forall_drop|done|..].
  { cbn [emit in_eof]. rewrite length_drop. unfold zlen in *. destruct (in_eof (read_on io k)); lia. }
  exists ((u32 (usize (seq + 1)), enc) :: cs), io', b'. split; [exact E3|]. split.
  - rewrite E4. cbn [emit out read_on wire flat_map fst snd app]. by rewrite <- app_assoc.
  - rewrite <- (take_drop (Z.to_nat k) d). fold p. constructor; [apply Z.mod_pos_bound; lia|by intros Hpn; rewrite Hpn in Hp|done|lia| |done|done].
    rewrite El. destruct (Z.ltb_spec (zlen p) k); [right|left; lia].
    eapply sealed_empty; [exact E5|]. by apply Hs.
Qed.

(** ** Decryption *)

(** On less than a chunk the reader finds the message incomplete and moves nothing but the offset. *)
Lemma get_u32_at b d : holds b d -> sshbuf_get_u32 b =
  if zlen d <? 4 then (Er SSH_ERR_MESSAGE_INCOMPLETE, b) else (Ok (PEEK_U 32 (take 4 d)), advance b 4).
Proof.
  intros (Hk & Hc & _)%holds_inv. unfold sshbuf_get_u32. rewrite (cbind_ok _ _ _ _ _ (ptr_ok b Hk)). unfold cbind at 1.
  rewrite consume_ok by (done || lia). rewrite Hc. destruct (Z.ltb_spec (zlen d) 4); [done|].
  replace (sb_off b) with (sb_off b + 0) by lia. unfold cbind. rewrite peek_contents by (rewrite ?Hc; done || lia). by rewrite Hc, zslice_0.
Qed.
Lemma get_string_short b d (enc : list Z) : holds b d -> (4 <= zlen d -> take 4 d = be_bytes 4 (zlen enc)) ->
  zlen enc <= 2 ^ 20 -> zlen d < 4 + zlen enc -> sshbuf_get_string b = (Er SSH_ERR_MESSAGE_INCOMPLETE, b).
Proof.
  intros Hb Ht He Hd. pose proof (holds_inv b d Hb) as (Hk & Hc & _). destruct (peek_string_ok 4 b ltac:(lia) Hk) as [Hp _].
  assert (fst (q_string 4 (abs b)) = Er SSH_ERR_MESSAGE_INCOMPLETE) as Hq.
  { clear Hp. unfold q_string, cbind, cget, guard. cbn [q_bytes abs fst]. rewrite Hc. destruct (Z.ltb_spec (zlen d) (Z.of_nat 4)) as [Hl|Hl]; [done|].
    cbn [negb cret]. rewrite Ht by lia.
    pose proof (zlen_nonneg enc). rewrite be_val_be_bytes, Z.mod_small, size_max_eq by lia.
    rewrite (proj2 (Z.ltb_ge (134217728 - Z.of_nat 4) (zlen enc))) by (change (2 ^ 20) with 1048576 in He; lia). cbn [negb cret]. change (Z.of_nat 4) with 4 in *. clear Ht He Hl. by rewrite (proj2 (Z.ltb_lt (zlen d - 4) (zlen enc))) by lia. }
  rewrite Hq in Hp. change (peek_string_k (Z.of_nat 4) (8 * Z.of_nat 4)) with sshbuf_peek_string_direct in Hp.
  unfold sshbuf_get_string, sshbuf_get_string_direct. rewrite cbind_assoc. unfold cbind. by rewrite Hp.
Qed.

Lemma chunk_incomplete b d seqnr enc i r : holds b d -> d ++ i = chunk_bytes seqnr enc ++ r ->
  zlen enc <= 2 ^ 20 -> zlen d < zlen (chunk_bytes seqnr enc) ->
  exists e b', sshbuf_get_ebox_stream_chunk b = (Er e, b') /\
    errf_caused_by (Some e) "IncompleteMessageError" = true /\ set_off (sb_off b) b' = b.
Proof.
  intros Hb Hd He Hl. pose proof (holds_inv b d Hb) as (Hk & Hc & Hx & Hs). rewrite zlen_chunk in Hl.
  exists (boxderrf (ssherrf SSH_ERR_MESSAGE_INCOMPLETE)). unfold sshbuf_get_ebox_stream_chunk, sshget, cmaperr, cbind at 1.
  rewrite (get_u32_at b d Hb). destruct (Z.ltb_spec (zlen d) 4) as [H4|H4].
  { exists b. split; [done|]. split; [reflexivity|]. by destruct b. }
  exists (advance b 4). assert (holds (advance b 4) (drop 4 d)) as Ha.
  { split; [apply advance_ok; [done|rewrite Hc; lia]|]. rewrite abs_advance; [|done|rewrite Hc; lia]. by rewrite Hc, Hx, Hs. }
  assert (drop 4 d ++ i = str32 enc ++ r) as Hd'.
  { apply (f_equal (drop 4)) in Hd. rewrite drop_app_le in Hd by (unfold zlen in *; lia). rewrite Hd. unfold chunk_bytes.
    rewrite <- app_assoc. apply drop_app_length'. by rewrite length_be_bytes. }
  unfold cbind. rewrite (get_string_short (advance b 4) (drop 4 d) enc Ha).
  - split; [done|]. split; [reflexivity|]. by destruct b.
  - intros H8. apply (f_equal (take 4)) in Hd'. rewrite take_app_le in Hd' by (unfold zlen in *; lia). rewrite Hd'. unfold str32.
    rewrite <- app_assoc. apply take_app_length'. by rewrite length_be_bytes.
  - done.
  - unfold zlen in *. rewrite length_drop. lia.
Qed.

Lemma decrypt_one_ok tmp es seqnr enc p io b rest : tmp_ok tmp -> stream_open es c alg key -> opens seqnr enc p ->
  holds b rest -> out_full io = false ->
  exists b', decrypt_one tmp es (Chunk seqnr (Some enc) None) (io, b) = (Ok tt, (emit io p, b')) /\ holds b' rest.
Proof.
  intros Ht Hes Ho Hb Hf. unfold decrypt_one. unfold cbind at 1, on_own. rewrite (Ho tmp es Ht Hes).
  change (ebox_stream_chunk_data _) with p. rewrite (cbind_ok _ _ _ _ _ (fwrite_ok p io b Hf)). rewrite Z.ltb_irrefl. cbn [negb guard].
  rewrite cbind_ret_l. unfold renew_buf, cbind at 1, buf_must at 1. cbn [snd fst]. rewrite (holds_len b rest Hb).
  pose proof (holds_inv b rest Hb) as (Hk & Hc & Hx & _). destruct (0 <? zlen rest); [|by exists b].
  unfold cbind at 1, cgets. cbn [snd]. rewrite Hc. unfold cbind, cmodify, buf_must. cbn [snd fst].
  pose proof (contents_bytes b Hk) as Hby. rewrite Hc in Hby. pose proof (zlen_contents b Hk) as Hl. rewrite Hc in Hl.
  destruct (holds_puts _ rest sshbuf_new [] (puts_bytes rest Hby) holds_new) as (b' & E1 & H1).
  { sb_facts Hk. rewrite <- Hx. change (zlen (@nil Z)) with 0. lia. }
  exists b'. rewrite E1. by split.
Qed.

(** What the input and the buffer hold together starts with a chunk: it is read when it is complete. *)
Lemma read_chunk b d i seqnr enc r : holds b d -> 0 <= seqnr < 2 ^ 32 -> zlen enc <= 2 ^ 20 ->
  d ++ i = chunk_bytes seqnr enc ++ r -> zlen (chunk_bytes seqnr enc) <= zlen d ->
  exists d' b', d = chunk_bytes seqnr enc ++ d' /\ r = d' ++ i /\
    sshbuf_get_ebox_stream_chunk b = (Ok (Chunk seqnr (Some enc) None), b') /\ holds b' d'.
Proof.
  intros Hb Hs He Hd Hl. set (h := chunk_bytes seqnr enc) in *.
  assert (take (length h) d = h) as Ht.
  { apply (f_equal (take (length h))) in Hd. rewrite take_app_le in Hd by (unfold zlen in *; lia). by rewrite take_app_length in Hd. }
  assert (d = h ++ drop (length h) d) as Hdd by (rewrite <- Ht at 1; by rewrite take_drop).
  destruct (holds_gets _ h (Chunk seqnr (Some enc) None) b (drop (length h) d)
    (gets_chunk seqnr enc Hs ltac:(rewrite size_max_eq; lia))) as (b' & E1 & H1); [by rewrite <- Hdd|].
  exists (drop (length h) d), b'. split; [done|]. split; [|done].
  rewrite Hdd, <- app_assoc in Hd. by apply app_inv_head in Hd.
Qed.

Lemma decrypt_loop_ok tmp es : tmp_ok tmp -> stream_open es c alg key ->
  forall n cs d bd i io b, sealed cs d -> holds b bd -> feeds io i -> bytes i -> bd ++ i = wire cs -> zlen bd <= 2 ^ 21 ->
  (length i + length cs + 1 <= n)%nat ->
  exists io' b', decrypt_loop tmp es n (io, b) = (Ok tt, (io', b')) /\ out io' = out io ++ d.
Proof.
  intros Ht Hes. induction n as [|n IH]; intros cs d bd i io b Hcs Hb Hio Hi Hw Hl Hn; [lia|].
  cbn [decrypt_loop]. destruct (fread_ok io i 8192 b Hio ltac:(lia)) as (Er & Hio' & Hend). rewrite (cbind_ok _ _ _ _ _ Er).
  destruct (zlen_take_drop 8192 i ltac:(lia)) as [Hz _]. set (q := take (Z.to_nat 8192) i) in *. set (i' := drop (Z.to_nat 8192) i) in *.
  assert (q ++ i' = i) as Hqi by apply take_drop. pose proof Hio' as (_ & _ & He' & Ho' & Hz').
  unfold cbind at 1, ferror, cgets. cbn [fst]. rewrite He', andb_false_r. unfold cbind at 1, feof, cgets. cbn [fst].
  unfold cbind at 1, buf_must at 1. cbn [snd fst]. rewrite (holds_len b bd Hb).
  destruct Hcs as [|seqnr enc p cs d Hs Hp Hby He Hlast Ho Hcs].
  { apply app_eq_nil in Hw as [-> ->]. subst q i'. change (zlen (@nil Z)) with 0 in *. rewrite Hend by (done || reflexivity).
    eexists _, _. split; [reflexivity|]. by rewrite app_nil_r. }
  cbn [wire flat_map fst snd] in Hw. fold (wire cs) in Hw.
  pose proof (zlen_chunk seqnr enc) as Hzc. pose proof (zlen_nonneg enc) as Hze.
  assert ((zlen q <? 1) && in_eof (read_on io 8192) && (zlen bd =? 0) = false) as ->.
  { destruct (Z.ltb_spec (zlen q) 1); [|done]. destruct (Z.eqb_spec (zlen bd) 0); [|apply andb_false_r].
    apply (f_equal zlen) in Hw. rewrite !zlen_app in Hw. pose proof (zlen_nonneg (wire cs)). lia. }
  assert (bytes q) as Hq by by apply Forall_take.
  destruct (holds_puts _ q b bd (puts_bytes q Hq) Hb) as (b1 & E1 & H1); [rewrite size_max_eq; lia|].
  unfold cbind at 1, buf_must at 1. cbn [snd fst]. rewrite E1. unfold cbind at 1, cgets. cbn [snd]. unfold cbind at 1, buf_try. cbn [snd fst].
  assert ((bd ++ q) ++ i' = chunk_bytes seqnr enc ++ wire cs) as Hw' by by rewrite <- app_assoc, Hqi.
  assert (bytes i') as Hib by by apply Forall_drop.
  destruct (Z.leb_spec (zlen (chunk_bytes seqnr enc)) (zlen (bd ++ q))) as [Hfull|Hpart].
  - destruct (read_chunk b1 (bd ++ q) i' seqnr enc (wire cs) H1 Hs He Hw' Hfull) as (d' & b2 & Ed & Er2 & E2 & H2). rewrite E2.
    destruct (decrypt_one_ok tmp es seqnr enc p (read_on io 8192) b2 d' Ht Hes Ho H2 Ho') as (b3 & E3 & H3). rewrite (cbind_ok _ _ _ _ _ E3).
    destruct (IH cs d d' i' (emit (read_on io 8192) p) b3) as (io' & b' & E4 & E5); try done.
    + apply (f_equal zlen) in Ed. rewrite !zlen_app in Ed. destruct Hlast as [Hlast| ->]; [lia|].
      cbn in Er2. symmetry in Er2. apply app_eq_nil in Er2 as [-> _]. by vm_compute.
    + subst i'. rewrite length_drop. cbn [length] in Hn. lia.
    + exists io', b'. split; [exact E4|]. rewrite E5. cbn [emit out read_on]. by rewrite <- app_assoc.
  - destruct (chunk_incomplete b1 (bd ++ q) seqnr enc i' (wire cs) H1 Hw' He Hpart) as (e & b2 & E2 & Ee & Eo). rewrite E2.
    unfold retry. rewrite Ee. unfold cbind at 1, feof, cgets. cbn [fst].
    assert (i' <> []) as Hi'. { intros Hnil. rewrite Hnil, app_nil_r in Hw'. rewrite Hw', zlen_app in Hpart. pose proof (zlen_nonneg (wire cs)). lia. }
    destruct (in_eof (read_on io 8192)) eqn:Heof; [by destruct Hi'; apply Hz'|].
    unfold cbind at 1, cmodify. cbn [fst snd]. rewrite Eo.
    destruct (IH ((seqnr, enc) :: cs) (p ++ d) (bd ++ q) i' (read_on io 8192) b1) as (io' & b' & E4 & E5); try done.
    + by constructor.
    + lia.
    + assert (length i' < length i)%nat; [|lia]. destruct i as [|x i]; [by destruct Hi'|]. subst i'. rewrite length_drop. cbn [length]. lia.
    + exists io', b'. by split.
Qed.
End Loops.

(** ** The commands *)

Section Commands.
Context {C : Crypto} {L : CryptoLaws C} {KB : KeyBlobs} {KL : KeyBlobLaws KB} {DB : DigestBlocks} {DL : DigestLaws DB}
  {E : Evp} {EL : EvpLaws E}.
Context (rnd : randoms) (eph : Z -> scalar) (Hrnd : rnd_ok rnd eph) (secret : Z -> point -> scalar).
Context (local_unlock : ebox_part -> res errf_t ebox_part).

(** The tokens open a part with its private key, or are not there. *)
Definition tokens_ok : Prop :=
  forall p, local_unlock p = Ok (open_part secret p) \/
    exists e, local_unlock p = Er e /\ errf_caused_by (Some e) "NotFoundError" = true.
(** The token of the first part of the primary configuration [tc] is there. *)
Definition token_here (tc : ebox_tpl_config) : Prop :=
  etc_type tc = EBOX_PRIMARY /\ exists tp tps, etc_parts tc = tp :: tps /\
    forall p, ep_tpl p = tp -> local_unlock p = Ok (open_part secret p).

Lemma open_first p ps : open_parts secret (true :: map (fun _ => false) ps) (p :: ps) = open_part secret p :: ps.
Proof. cbn. f_equal. induction ps as [|x ps IH]; [done|]. cbn. by f_equal. Qed.

Lemma unlock_primaries_ok rcv_key key box tcs cs : tokens_ok ->
  Forall2 (config_made eph rcv_key key) tcs cs -> Forall (tconfig_ok eph secret) tcs -> Exists token_here tcs ->
  forall front, exists box', unlock_primaries local_unlock box front cs = Ok (Some box') /\ e_key box' = Some key.
Proof.
  intros Hloc H2. induction H2 as [|tc c tcs cs Hc _ IH]; intros Htc Hex front; [by apply Exists_nil in Hex|].
  apply Forall_cons in Htc as [Ht1 Ht2]. cbn [unlock_primaries].
  destruct Hc as (Hty & _ & _ & datas & nonce & Hp & Hd & _ & Hmade). rewrite Hty.
  destruct (Z.eqb_spec (etc_type tc) EBOX_PRIMARY) as [Hpr|Hpr].
  2:{ apply Exists_cons in Hex as [[Hx _]|Hex]; [done|]. by apply IH. }
  destruct Ht1 as ([_ _ [_ Hm] _] & Htp & _). rewrite Hpr in Hmade. destruct Hmade as [_ Hk].
  destruct (etc_parts tc) as [|tp tps] eqn:Etc; [change (zlen (@nil ebox_tpl_part)) with 0 in Hm; lia|].
  apply Forall3_cons_inv_l in Hp as (dt & dts & p & ps & -> & Hps & Hp1 & Hps3).
  rewrite Hps. destruct (Hloc p) as [Hl|(e & Hl & He)]; rewrite Hl.
  - pose proof (unlock_opened eph secret _ _ _ (true :: map (fun _ => false) ps) key (Forall3_cons _ _ _ _ _ _ _ Hp1 Hps3) Htp Hd Hk) as Hu.
    rewrite open_first in Hu. cbn [marked Nat.leb Nat.add] in Hu. destruct Hu as (ps' & Hu); [cbn; by rewrite length_map|].
    unfold ebox_unlock. cbn [ec_parts ec_tpl ec_nonce]. rewrite Hu. by eexists.
  - rewrite He. apply Exists_cons in Hex as [(_ & tp' & tps' & Htps & Hh)|Hex]; [|by apply IH].
    rewrite Etc in Htps. injection Htps as <- <-. rewrite (Hh p) in Hl by apply Hp1. done.
Qed.

Definition ctr_cipher : sshcipher := Cipher (zs "aes256-ctr") SSH_CIPHER_SSH2 16 32 0 0 0 0.
Definition sha256 : Z := 3.

(** The stream made for a template, the wire form of its ebox, and what reading gives. *)
Lemma stream_new_ok rkey tpl : creatable eph secret tpl (rkey 32) None -> zlen (rkey 32) = 32 ->
  exists es w, ebox_stream_new rnd rkey tpl = Ok es /\ stream_wire es w /\
    stream_open es ctr_cipher sha256 (rkey 32) /\ es_chunklen es = EBOX_STREAM_DEFAULT_CHUNK /\
    es_cipher es = zs "aes256-ctr" /\ es_mac es = zs "sha256" /\
    ebox_made rnd eph tpl (rkey 32) None (ebox_of_wire w) /\ zlen (stream_bytes w es) <= SSHBUF_SIZE_MAX.
Proof.
  intros Hc Hl. destruct (create_wire rnd eph Hrnd secret tpl (rkey 32) None Hc) as (box & w & Ec & Hw & Hty & Hok & Hbl).
  destruct (Hok EBOX_STREAM (or_intror eq_refl)) as [Hwok Hm].
  assert (cipher_by_name (zs "aes256-ctr") = Some ctr_cipher) as Hcn by reflexivity.
  unfold ebox_stream_new. rewrite Hcn. change (cipher_keylen ctr_cipher) with 32. cbv zeta. rewrite Ec.
  eexists _, (wire_type EBOX_STREAM w). split; [reflexivity|]. split; [|split; [|split_and!; try done]].
  - constructor; cbn [es_ebox es_chunklen es_cipher es_mac].
    + split; [|by split]. destruct Hw as (W1 & W2 & W3 & W4 & W5 & W6 & W7). by split_and!.
    + by vm_compute.
    + split; [|by eexists]. split_and!; [apply bytesb_spec; reflexivity|by vm_compute|reflexivity].
    + split; [|by vm_compute]. split_and!; [apply bytesb_spec; reflexivity|by vm_compute|reflexivity].
  - constructor; cbn [es_ebox es_cipher es_mac]; [exact Hcn|split; [reflexivity|done]|].
    split; [reflexivity|]. split; [apply Hc|]. rewrite Hl. by vm_compute.
  - unfold stream_bytes, ew_bytes in *. cbn [wire_type ew_type ew_cipher ew_iv ew_enc ew_eeks ew_configs es_chunklen es_cipher es_mac].
    rewrite !zlen_app, !zlen_be_bytes, !zlen_str8 in *. change (zlen (zs "aes256-ctr")) with 10. change (zlen (zs "sha256")) with 6.
    rewrite size_max_eq in *. lia.
Qed.

Lemma length_wire cs : (length cs <= length (wire cs))%nat.
Proof.
  induction cs as [|[seqnr enc] cs IH]; [cbn; lia|]. cbn [wire flat_map fst snd length]. fold (wire cs). rewrite length_app.
  pose proof (zlen_chunk seqnr enc). pose proof (zlen_nonneg enc). unfold zlen in *. lia.
Qed.

Lemma wire_bytes c alg key cs d : sealed c alg key cs d -> bytes (wire cs).
Proof.
  induction 1 as [|seqnr enc p cs d _ _ Hb _ _ _ _ IH]; [apply Forall_nil_2|]. apply Forall_app. split; [|done].
  unfold chunk_bytes, str32. cbn [fst snd]. apply Forall_app. split; [apply be_bytes_bytes|]. apply Forall_app. split; [apply be_bytes_bytes|done].
Qed.

Lemma stdin_feeds d : feeds (stdin d) d.
Proof. by split_and!. Qed.
Lemma emit_stdin d x : feeds (emit (stdin d) x) d /\ in_eof (emit (stdin d) x) = false /\ out (emit (stdin d) x) = x.
Proof. by split_and!. Qed.

(** The header is read when it is in the first block. *)
Lemma header_loop_ok es w n i io : stream_wire es w -> feeds io (stream_bytes w es ++ i) -> bytes (stream_bytes w es ++ i) ->
  zlen (stream_bytes w es) <= 8192 ->
  exists q b, header_loop (S n) (io, sshbuf_new)
    = (Ok (Stream (ebox_of_wire w) (es_cipher es) (es_mac es) (es_chunklen es)), (read_on io 8192, b)) /\
    holds b q /\ zlen q <= 8192 /\ q ++ drop (Z.to_nat 8192) (stream_bytes w es ++ i) = i.
Proof.
  intros Hw Hio Hb Hl. set (h := stream_bytes w es) in *. cbn [header_loop].
  destruct (fread_ok io (h ++ i) 8192 sshbuf_new Hio ltac:(lia)) as (Er & Hio' & _). rewrite (cbind_ok _ _ _ _ _ Er).
  destruct (zlen_take_drop 8192 (h ++ i) ltac:(lia)) as [Hz _].
  assert (take (Z.to_nat 8192) (h ++ i) = h ++ take (Z.to_nat 8192 - length h) i) as Ht.
  { rewrite take_app_ge; [done|]. unfold zlen in Hl. lia. }
  assert (drop (Z.to_nat 8192) (h ++ i) = drop (Z.to_nat 8192 - length h) i) as Hd.
  { rewrite drop_app_ge; [done|]. unfold zlen in Hl. lia. }
  rewrite Ht in *. set (q := take (Z.to_nat 8192 - length h) i) in *. pose proof Hio' as (_ & _ & He' & _).
  unfold cbind at 1, ferror, cgets. cbn [fst]. rewrite He', andb_false_r. cbn [negb guard]. rewrite cbind_ret_l.
  assert (bytes (h ++ q)) as Hq by (rewrite <- Ht; by apply Forall_take).
  destruct (holds_puts _ (h ++ q) sshbuf_new [] (puts_bytes _ Hq) holds_new) as (b1 & E1 & H1).
  { rewrite size_max_eq. change (zlen (@nil Z)) with 0. lia. }
  unfold cbind at 1, buf_must at 1. cbn [snd fst]. rewrite E1. unfold cbind at 1, cgets. cbn [snd]. unfold cbind at 1, buf_try. cbn [snd fst].
  destruct (holds_gets _ h _ b1 q (gets_stream es w Hw) H1) as (b2 & E2 & H2). rewrite E2.
  exists q, b2. split; [done|]. split; [done|]. split; [rewrite zlen_app in Hz; pose proof (zlen_nonneg h); lia|].
  rewrite Hd. apply take_drop.
Qed.

(** C24: a stream written by [pivy-box stream encrypt] for a template is decrypted by
    [pivy-box stream decrypt] to exactly the input, of any length: header, chunks, HMACs and padding included, whatever
    the block boundaries at which it is read, when a token of a primary configuration is there. Both commands
    end; the header has to fit the first block of 8192 bytes. *)
Theorem stream_commands_roundtrip tmp tmp' rkey tpl d fuel :
  tmp_ok tmp -> tmp_ok tmp' -> creatable eph secret tpl (rkey 32) None -> zlen (rkey 32) = 32 ->
  tokens_ok -> Exists token_here (et_configs tpl) -> bytes d ->
  (forall es, ebox_stream_new rnd rkey tpl = Ok es ->
     zlen (sb_contents (snd (sshbuf_put_ebox_stream es sshbuf_new))) <= 8192) ->
  (length d + 2 <= fuel)%nat ->
  exists o, writes (cmd_stream_encrypt fuel tmp rnd rkey tpl) d o /\
    forall fuel', (2 * length o + 1 <= fuel')%nat -> writes (cmd_stream_decrypt fuel' tmp' local_unlock) o d.
Proof.
  intros Ht Ht' Hc Hkl Hloc Hex Hd Hsmall Hf.
  destruct (stream_new_ok rkey tpl Hc Hkl) as (es & w & Een & Hsw & Hso & Hcl & Hci & Hma & Hm & Hbl).
  specialize (Hsmall es Een). destruct (holds_puts _ _ _ _ (puts_stream es w Hsw) holds_new Hbl) as (b0 & E0 & H0).
  rewrite E0 in Hsmall. cbn [snd] in Hsmall. rewrite (proj1 (proj2 (holds_inv _ _ H0))) in Hsmall. cbn [app] in *.
  destruct (write_out_ok fuel (stdin d) b0 _ ltac:(lia) H0 eq_refl) as (b1 & E1 & H1).
  destruct (emit_stdin d (stream_bytes w es)) as (Hfe & Hef & Hou). set (io1 := emit (stdin d) (stream_bytes w es)) in *. clearbody io1.
  assert (8192 <= es_chunklen es <= 2 ^ 19) as Hcl' by (rewrite Hcl; unfold EBOX_STREAM_DEFAULT_CHUNK; lia).
  destruct (encrypt_loop_ok ctr_cipher sha256 (rkey 32) fuel tmp es Ht Hso Hcl' ltac:(lia) fuel d 0 io1 b1 Hfe Hd H1)
    as (cs & io2 & b2 & E2 & Eo & Hcs); [by rewrite Hef|]. rewrite Hou in Eo. exists (out io2). split.
  { exists io2, b2. split; [|done]. unfold cmd_stream_encrypt, cmaperr, lift. unfold cbind at 1. rewrite Een.
    unfold cbind at 1, on_buf. cbn [snd fst]. rewrite E0, (cbind_ok _ _ _ _ _ E1). exact E2. }
  intros fuel' Hf'. rewrite Eo in *. set (o := stream_bytes w es ++ wire cs) in *.
  pose proof (holds_inv _ _ H0) as (Hk0 & Hc0 & _). pose proof (contents_bytes _ Hk0) as Hhb. rewrite Hc0 in Hhb.
  assert (bytes o) as Hob by (apply Forall_app; split; [done|by eapply wire_bytes]).
  destruct fuel' as [|n]; [lia|].
  destruct (header_loop_ok es w n (wire cs) (stdin o) Hsw (stdin_feeds o) Hob Hsmall) as (q & b3 & E3 & H3 & Hq & Hqi).
  fold o in Hqi. destruct (unlock_primaries_ok _ _ (ebox_of_wire w) _ _ Hloc (em_configs _ _ _ _ _ _ Hm) (ct_each _ _ _ _ _ Hc) Hex [])
    as (box & Eu & Hbk).
  destruct (fread_ok (stdin o) o 8192 b3 (stdin_feeds o) ltac:(lia)) as (_ & Hfeed & _).
  set (es' := Stream box (es_cipher es) (es_mac es) (es_chunklen es)).
  assert (stream_open es' ctr_cipher sha256 (rkey 32)) as Hso'.
  { destruct Hso as [S1 S2 (_ & S3 & S4)]. constructor; [exact S1|exact S2|]. exact (conj Hbk (conj S3 S4)). }
  destruct (decrypt_loop_ok _ _ _ tmp' es' Ht' Hso' (S n) cs d q _ _ b3 Hcs H3 Hfeed ltac:(by apply Forall_drop) Hqi ltac:(lia))
    as (io4 & b4 & E4 & Eo4).
  { rewrite length_drop. pose proof (length_wire cs) as Hlw. unfold o in *. rewrite length_app in *. lia. }
  exists io4, b4. split; [|exact Eo4]. unfold cmd_stream_decrypt. rewrite (cbind_ok _ _ _ _ _ E3).
  unfold cbind at 1, cmaperr, lift, interactive_unlock_ebox, ebox_stream_ebox. cbn [es_ebox]. rewrite Eu. exact E4.
Qed.
End Commands.

(** * An instance *)

Module ToyCmd.
Definition rkey (n : Z) : list Z := Toy.random n.
Definition local_unlock (p : ebox_part) : res errf_t ebox_part := Ok (open_part ToyKey.secret p).
Definition input : list Z := [1; 2; 3].
End ToyCmd.

Lemma toy_stream_creatable : creatable ToyKey.eph ToyKey.secret ToyBlobs.tpl (ToyCmd.rkey 32) None.
Proof.
  destruct toy_creatable as [H1 H2 _ _ _]. constructor; [exact H1|exact H2| |done|by vm_compute].
  split; [apply bytesb_spec; reflexivity|by vm_compute].
Qed.
Lemma toy_header_small es : ebox_stream_new ToyKey.rnd ToyCmd.rkey ToyBlobs.tpl = Ok es ->
  zlen (sb_contents (snd (sshbuf_put_ebox_stream es sshbuf_new))) <= 8192.
Proof.
  assert (match ebox_stream_new ToyKey.rnd ToyCmd.rkey ToyBlobs.tpl with
          | Ok es => zlen (sb_contents (snd (sshbuf_put_ebox_stream es sshbuf_new))) <=? 8192
          | _ => true
          end = true) as H by (vm_compute; reflexivity).
  intros Hes. rewrite Hes in H. by apply Z.leb_le.
Qed.

Lemma stream_commands_roundtrip_witness :
  exists o, writes (cmd_stream_encrypt 5 ToyEvp.junk ToyKey.rnd ToyCmd.rkey ToyBlobs.tpl) ToyCmd.input o /\
    forall fuel', (2 * length o + 1 <= fuel')%nat -> writes (cmd_stream_decrypt fuel' ToyEvp.junk ToyCmd.local_unlock) o ToyCmd.input.
Proof.
  apply (stream_commands_roundtrip ToyKey.rnd ToyKey.eph toy_rnd_ok ToyKey.secret ToyCmd.local_unlock ToyEvp.junk ToyEvp.junk
    ToyCmd.rkey ToyBlobs.tpl ToyCmd.input 5 ToyEvp.junk_ok ToyEvp.junk_ok toy_stream_creatable eq_refl).
  - intros p. left. reflexivity.
  - apply Exists_cons_hd. split; [reflexivity|]. eexists _, _. split; [reflexivity|]. reflexivity.
  - apply bytesb_spec. reflexivity.
  - exact toy_header_small.
  - apply le_n.
Defined.

(** ** Behaviours that differ from what the code means to do *)

(** When standard output takes nothing the loop that writes never ends, whatever the buffer holds. *)
Lemma write_loop_spins n io b d : holds b d -> d <> [] -> out_full io = true -> write_loop n (io, b) = (Er Starved, (io, b)).
Proof.
  intros Hb Hd Ho. induction n as [|n IH]; [done|]. cbn [write_loop]. unfold cbind at 1, buf_must. cbn [snd fst].
  rewrite (holds_len b d Hb). destruct d as [|x d]; [done|]. rewrite zlen_cons. pose proof (zlen_nonneg d).
  replace (0 <? 1 + zlen d) with true by lia. unfold cbind at 1, cgets. unfold cbind at 1, fwrite. rewrite Ho.
  unfold cbind at 1, buf_void. cbn [snd fst]. destruct (holds_inv _ _ Hb) as (Hk & Hc & _). rewrite consume_ok by (done || lia).
  rewrite Hc, zlen_cons. replace (1 + zlen d <? 0) with false by lia. replace (advance b 0) with b; [exact IH|].
  unfold advance. rewrite Z.add_0_r. by destruct b.
Qed.

(** A read error ends encryption as the end of the file does: what was read so far is written out as a whole stream
    and the command succeeds. *)
Lemma encrypt_read_error :
  let run fails := cmd_stream_encrypt 5 ToyEvp.junk ToyKey.rnd ToyCmd.rkey ToyBlobs.tpl
    (Stdio ToyCmd.input fails false false false [], sshbuf_new) in
  fst (run true) = Ok tt /\ out (fst (snd (run true))) = out (fst (snd (run false))).
Proof. vm_compute. split; reflexivity. Qed.

(** Nothing marks the end of a stream: a stream cut off after its header decrypts to nothing, without an error. *)
Lemma decrypt_truncated :
  let es := match ebox_stream_new ToyKey.rnd ToyCmd.rkey ToyBlobs.tpl with Ok es => es | _ => ToyStream.es 32 "aes256-ctr" end in
  let header := sb_contents (snd (sshbuf_put_ebox_stream es sshbuf_new)) in
  fst (cmd_stream_decrypt 3 ToyEvp.junk ToyCmd.local_unlock (stdin header, sshbuf_new)) = Ok tt.
Proof. vm_compute. reflexivity. Qed.
