(* ===== verification/EboxChal.v ===== *)
(** * Recovery challenges (ebox.c)

    To recover an ebox with a token that is somewhere else, a challenge is made for a part: the box of the part and a
    fresh public key, in a box sealed to the part's key. The holder of the token opens both
    boxes and answers with what the part's box holds, in a box sealed to the fresh key. The fresh key is the field [ec_chalkey]
    of the configuration; it is the state of [ebox_gen_challenge] here, and the challenge, which the code stores in
    [ep_chal], its result. *)
From stdpp Require Import base list strings.
From Stdlib Require Import ZArith Lia.
From S2P Require Import Prelude Errf Sshbuf Algs Sss PivBox EboxTpl Ebox EboxWire EboxRecover.

Local Open Scope string_scope.
Local Open Scope list_scope.
Local Open Scope Z_scope.
Local Open Scope c_scope.

Definition CHAL_RECOVERY : Z := 1.
Definition CTAG_HOSTNAME : Z := 1.
Definition CTAG_CTIME : Z := 2.
Definition CTAG_DESCRIPTION : Z := 3.
Definition CTAG_WORDS : Z := 4.
Definition RTAG_ID : Z := 1.
Definition RTAG_KEYPIECE : Z := 2.

Section Chal.
Context {C : Crypto}.
Local Abbreviation W := (M errf_t sshbuf).

Record ebox_challenge := Challenge {
  c_version : Z;
  c_type : Z;
  c_id : Z;
  c_description : option (list Z);
  c_hostname : option (list Z);
  c_ctime : Z;
  c_words : list Z;
  c_destkey : sshkey;
  c_keybox : piv_ecdh_box
}.

(** What the system answers: the host name, the time and the formatted description, or [errno] on failure; the key that
    [sshkey_generate] makes for a size in bits, and random bytes. *)
Record chal_inputs := ChalInputs {
  ci_host : option (list Z);
  ci_time : Z;
  ci_desc : option (list Z);
  ci_errno : Z;
  ci_gen : Z -> res Z sshkey;
  ci_words : list Z
}.
(** What sealing draws: the ephemeral key, nonce and IV bytes. *)
Record seal_inputs := SealInputs {
  si_gen : res Z sshkey;
  si_nonce : Z -> list Z;
  si_iv : Z -> list Z
}.

Definition errfno {S A} (eno : Z) : M errf_t S A := craise (_errfno eno "" "" 0 (Some "") (Some "")).

(** The key of the configuration, made for the first challenge. *)
Definition challenge_key (gen : Z -> res Z sshkey) (pub : option sshkey) : M errf_t (option sshkey) sshkey :=
  match pub with
  | None => cfault
  | Some (OtherKey _) => cpanic
  | Some (EcKey nid _ _) =>
      let! chalkey := cget in
      match chalkey with
      | None =>
          let! k := cmaperr ssherrf (lift (gen (sshkey_curve_nid_to_bits nid))) in
          cput (Some k) ;! cret k
      | Some (EcKey cnid _ _ as k) => verify (cnid =? nid) ;! cret k
      | Some (OtherKey _) => cpanic
      end
  end.

Definition ebox_gen_challenge (i : chal_inputs) (part : ebox_part) : M errf_t (option sshkey) ebox_challenge :=
  let! hostname := match ci_host i with None => errfno (ci_errno i) | Some h => cret (c_str h) end in
  (if u64 (ci_time i) =? u64 (-1) then errfno (ci_errno i) else cret tt) ;!
  let! keybox := lift (fst (piv_box_clone (ep_box part))) in
  let! chalkey := challenge_key (ci_gen i) (pdb_pub (ep_box part)) in
  let! desc := match ci_desc i with None => errfno (ci_errno i) | Some d => cret d end in
  guard (negb (255 <=? zlen desc)) (errf "LengthError" None) ;!
  cret (Challenge 1 CHAL_RECOVERY (ep_id part) (Some (c_str desc)) (Some hostname) (u64 (ci_time i)) (ci_words i)
          (sshkey_demote chalkey) keybox).

(** ** On the wire *)

Definition put_eckey (k : option sshkey) : W unit :=
  match k with
  | Some (EcKey nid p _) => sshput (sshbuf_put_eckey8 nid p)
  | _ => cfault
  end.
Definition put_buf8 (b : apdubuf) : W unit :=
  let! d := buf_raw b in sshput (sshbuf_put_string8 d).
(** One of the four words. *)
Definition word_at (chal : ebox_challenge) (i : nat) : Z := default 0 (c_words chal !! i).

Definition sshbuf_put_ebox_challenge_raw (chal : ebox_challenge) : W unit :=
  let kb := c_keybox chal in
  sshput (sshbuf_put_u8 (c_version chal)) ;!
  sshput (sshbuf_put_u8 (c_type chal)) ;!
  sshput (sshbuf_put_u8 (c_id chal)) ;!
  put_eckey (Some (c_destkey chal)) ;!
  put_eckey (pdb_ephem_pub kb) ;!
  put_buf8 (pdb_nonce kb) ;!
  put_buf8 (pdb_iv kb) ;!
  put_buf8 (pdb_enc kb) ;!
  sshput (sshbuf_put_u8 CTAG_HOSTNAME) ;!
  sshput (sshbuf_put_cstring8 (c_hostname chal)) ;!
  sshput (sshbuf_put_u8 CTAG_CTIME) ;!
  sshput (sshbuf_put_u8 8) ;!
  sshput (sshbuf_put_u64 (c_ctime chal)) ;!
  sshput (sshbuf_put_u8 CTAG_DESCRIPTION) ;!
  sshput (sshbuf_put_cstring8 (c_description chal)) ;!
  sshput (sshbuf_put_u8 CTAG_WORDS) ;!
  sshput (sshbuf_put_u8 4) ;!
  sshput (sshbuf_put_u8 (word_at chal 0)) ;!
  sshput (sshbuf_put_u8 (word_at chal 1)) ;!
  sshput (sshbuf_put_u8 (word_at chal 2)) ;!
  sshput (sshbuf_put_u8 (word_at chal 3)).

(** Data sealed to [pub] in the box [b] and written out. *)
Definition put_sealed (si : seal_inputs) (pub : option sshkey) (b : piv_ecdh_box) (data : sshbuf) : W unit :=
  let! b := lift (match piv_box_set_datab (b, data) with
                  | (Ok _, (b, _)) => Ok b | (Er e, _) => Er e | (Panic, _) => Panic | (Fault, _) => Fault end) in
  match pub with
  | None => cfault
  | Some pub =>
      let! b := lift (match piv_box_seal_offline pub (si_gen si) (si_nonce si) (si_iv si) b with
                      | (Ok _, b) => Ok b | (Er e, _) => Er e | (Panic, _) => Panic | (Fault, _) => Fault end) in
      sshbuf_put_piv_box b
  end.

(** A call on a fresh buffer: the buffer it leaves. *)
Definition fresh_buf (m : W unit) : W sshbuf :=
  lift (match m sshbuf_new with
        | (Ok _, b) => Ok b | (Er e, _) => Er e | (Panic, _) => Panic | (Fault, _) => Fault end).

Definition sshbuf_put_ebox_challenge (si : seal_inputs) (chal : ebox_challenge) : W unit :=
  let kb := c_keybox chal in
  let! cbuf := fresh_buf (sshbuf_put_ebox_challenge_raw chal) in
  match pdb_cipher kb, pdb_kdf kb with
  | Some cipher, Some kdf =>
      put_sealed si (pdb_pub kb)
        (Box (pdb_version piv_box_new) (pdb_guidslot_valid kb) (pdb_guid kb) (pdb_slot kb) None None false
           (Some cipher) (Some kdf) null_buf null_buf null_buf null_buf None) cbuf
  | _, _ => cfault
  end.

(** ** Reading a challenge *)

Local Abbreviation W2 := (M errf_t (sshbuf * sshbuf)).
Definition ssh2 {A} (m : M Z (sshbuf * sshbuf) A) : W2 A := cmaperr ssherrf m.

Definition set_ctags (c : ebox_challenge) (host desc : option (list Z)) (ctime : Z) (words : list Z) : ebox_challenge :=
  Challenge (c_version c) (c_type c) (c_id c) desc host ctime words (c_destkey c) (c_keybox c).

(** The value of one tag, from the second buffer. *)
Definition chal_tag (tag : Z) (c : ebox_challenge) : W2 ebox_challenge :=
  if tag =? CTAG_HOSTNAME then
    let! s := ssh2 (on_snd sshbuf_dup_string) in
    match s with
    | None => craise errf_nomem
    | Some h => cret (set_ctags c (Some h) (c_description c) (c_ctime c) (c_words c))
    end
  else if tag =? CTAG_CTIME then
    let! t := ssh2 (on_snd sshbuf_get_u64) in
    cret (set_ctags c (c_hostname c) (c_description c) t (c_words c))
  else if tag =? CTAG_DESCRIPTION then
    let! s := ssh2 (on_snd sshbuf_dup_string) in
    match s with
    | None => craise errf_nomem
    | Some d => cret (set_ctags c (c_hostname c) (Some d) (c_ctime c) (c_words c))
    end
  else if tag =? CTAG_WORDS then
    let! w0 := ssh2 (on_snd sshbuf_get_u8) in
    let! w1 := ssh2 (on_snd sshbuf_get_u8) in
    let! w2 := ssh2 (on_snd sshbuf_get_u8) in
    let! w3 := ssh2 (on_snd sshbuf_get_u8) in
    cret (set_ctags c (c_hostname c) (c_description c) (c_ctime c) [w0; w1; w2; w3])
  else cret c.

(** Each round reads two bytes at least, so the bytes left bound the number of rounds. *)
Fixpoint chal_tags (fuel : nat) (c : ebox_challenge) : W2 ebox_challenge :=
  let! len := ssh2 (on_fst sshbuf_len) in
  if 0 <? len then
    match fuel with
    | O => cfault
    | S f =>
        ssh2 (on_snd sshbuf_reset) ;!
        let! tag := ssh2 (on_fst sshbuf_get_u8) in
        ssh2 sshbuf_get_stringb8 ;!
        let! c := chal_tag tag c in
        chal_tags f c
    end
  else cret c.

Definition get_eckey (nid : Z) : W sshkey :=
  let! p := sshput (sshbuf_get_eckey8 nid) in
  guard (ec_validate nid p =? 0) (ssherrf (ec_validate nid p)) ;!
  cret (EcKey nid p None).

(** The challenge in the data of the box [box]; its tags come after it. *)
Definition get_challenge_head (box : piv_ecdh_box) : W ebox_challenge :=
  let! version := sshput sshbuf_get_u8 in
  guard (version =? 1) (boxverrf VersionError) ;!
  let! type := sshput sshbuf_get_u8 in
  let! id := sshput sshbuf_get_u8 in
  match pdb_pub box with
  | None => cfault
  | Some (OtherKey _) => craise errf_nomem
  | Some (EcKey nid pub _) =>
      let! destkey := get_eckey nid in
      match pdb_cipher box, pdb_kdf box with
      | Some cipher, Some kdf =>
          let! ephem := get_eckey nid in
          let! nonce := sshput sshbuf_get_string8 in
          let! iv := sshput sshbuf_get_string8 in
          let! enc := sshput sshbuf_get_string8 in
          cret (Challenge version type id None None 0 [0; 0; 0; 0] destkey
                  (Box (pdb_version piv_box_new) (pdb_guidslot_valid box) (pdb_guid box) (pdb_slot box)
                     (Some ephem) (Some (EcKey nid pub None)) true (Some cipher) (Some kdf)
                     (whole_buf nonce) (whole_buf iv) (whole_buf enc) null_buf None))
      | _, _ => cfault
      end
  end.

Definition sshbuf_get_ebox_challenge : M errf_t piv_ecdh_box ebox_challenge :=
  let! box := cget in
  let! buf := (fun b => match piv_box_take_datab b with
                        | (Er _, b) => (Panic, b)
                        | r => r
                        end) in
  lift (match get_challenge_head box buf with
        | (Ok c, buf) => fst (chal_tags (S (length (sb_contents buf))) c (buf, sshbuf_new))
        | (Er e, _) => Er e
        | (Panic, _) => Panic
        | (Fault, _) => Fault
        end).

Definition ebox_challenge_id (c : ebox_challenge) : Z := c_id c.
Definition ebox_challenge_type (c : ebox_challenge) : Z := c_type c.
Definition ebox_challenge_desc (c : ebox_challenge) : option (list Z) := c_description c.
Definition ebox_challenge_hostname (c : ebox_challenge) : option (list Z) := c_hostname c.
Definition ebox_challenge_ctime (c : ebox_challenge) : Z := c_ctime c.
Definition ebox_challenge_words (c : ebox_challenge) : list Z * Z := (c_words c, 4).
Definition ebox_challenge_destkey (c : ebox_challenge) : sshkey := c_destkey c.
Definition ebox_challenge_box (c : ebox_challenge) : piv_ecdh_box := c_keybox c.

(** ** Responses *)

(** The rounds read a byte each at least. An unknown tag is passed over, its value is not. *)
Fixpoint resp_tags (fuel : nat) (id : option Z) (keypiece : option (list Z)) : W (option Z * option (list Z)) :=
  let! len := sshput sshbuf_len in
  if 0 <? len then
    match fuel with
    | O => cfault
    | S f =>
        let! tag := sshput sshbuf_get_u8 in
        if tag =? RTAG_ID then
          let! id := sshput sshbuf_get_u8 in resp_tags f (Some id) keypiece
        else if tag =? RTAG_KEYPIECE then
          let! k := sshput sshbuf_get_string8_conceal in resp_tags f id (Some k)
        else resp_tags f id keypiece
    end
  else cret (id, keypiece).

Definition InvalidDataError : errf_t := errf "InvalidDataError" None.

(** The first part with the number [id] gets the share. *)
Fixpoint give_share (id : Z) (share : list Z) (ps : list ebox_part) : option (list ebox_part) :=
  match ps with
  | [] => None
  | p :: r =>
      if ep_id p =? id then Some (EboxPart (ep_tpl p) (ep_box p) (ep_id p) (Some share) :: r)
      else option_map (cons p) (give_share id share r)
  end.

(** With the key [chalkey] of the configuration, on the box [rbox]; the number of the part is the result. *)
Definition ebox_challenge_response (chalkey : option sshkey) (rbox : piv_ecdh_box) : M errf_t ebox_config Z :=
  match chalkey with
  | None => cpanic
  | Some chalkey =>
      let! buf := lift (fst ((piv_box_open_offline chalkey ;! piv_box_take_datab) rbox)) in
      let! (id, keypiece) := lift (fst (resp_tags (S (length (sb_contents buf))) None None buf)) in
      match id, keypiece with
      | Some id, Some keypiece =>
          let! c := cget in
          match give_share id keypiece (ec_parts c) with
          | None => craise InvalidDataError
          | Some ps => cput (EboxConfig (ec_tpl c) ps (ec_nonce c)) ;! cret id
          end
      | _, _ => craise InvalidDataError
      end
  end.

Definition with_keybox (c : ebox_challenge) (b : piv_ecdh_box) : ebox_challenge :=
  Challenge (c_version c) (c_type c) (c_id c) (c_description c) (c_hostname c) (c_ctime c) (c_words c) (c_destkey c) b.

(** The data is taken out of the key box of the challenge. *)
Definition sshbuf_put_ebox_challenge_response (si : seal_inputs) : M errf_t (ebox_challenge * sshbuf) unit :=
  fun s =>
    let (chal, dbuf) := s in
    match piv_box_take_data (c_keybox chal) with
    | (Ok keypiece, kb) =>
        let (r, dbuf) :=
          (let! buf := fresh_buf (sshput (sshbuf_put_u8 RTAG_ID) ;! sshput (sshbuf_put_u8 (c_id chal)) ;!
                                  sshput (sshbuf_put_u8 RTAG_KEYPIECE) ;! sshput (sshbuf_put_string8 keypiece)) in
           put_sealed si (Some (c_destkey chal)) piv_box_new buf) dbuf in
        (r, (with_keybox chal kb, dbuf))
    | (Er e, kb) => (Er e, (with_keybox chal kb, dbuf))
    | (Panic, kb) => (Panic, (with_keybox chal kb, dbuf))
    | (Fault, kb) => (Fault, (with_keybox chal kb, dbuf))
    end.
End Chal.

(** * Facts *)

Section Facts.
Context {C : Crypto} {L : CryptoLaws C}.

(** ** Sealed messages *)

Lemma set_datab_ok b buf : no_plain b = true -> sb_ok buf ->
  exists buf', piv_box_set_datab (b, buf) = (Ok tt, (set_plain b (whole_buf (sb_contents buf)), buf')).
Proof.
  intros Hb Hk. unfold piv_box_set_datab, on_box, on_buf. unfold cbind at 1, cget. cbn [fst snd]. unfold cbind at 1. rewrite Hb. cbn [verify cret fst snd].
  unfold cbind at 1, verify0 at 1. cbn [fst snd]. rewrite (len_ok buf Hk). unfold cbind at 1, verify0. cbn [fst snd].
  destruct (refines_get (zlen (sb_contents buf)) (zlen_nonneg _) buf Hk) as (r & b' & E1 & _ & S1). rewrite E1.
  rewrite q_take_prefix in S1 by (cbn [abs q_bytes]; pose proof (zlen_nonneg (sb_contents buf)); lia).
  apply pair_equal_spec in S1 as [<- _]. cbn [abs q_bytes]. exists b'. unfold cput. cbn. unfold zlen.
  by rewrite Nat2Z.id, firstn_all.
Qed.

Lemma take_datab_opened b blk data : 1 <= blk -> bytes data -> zlen data <= SSHBUF_SIZE_MAX ->
  exists buf, piv_box_take_datab (set_plain b (Apdubuf (Some (padded blk data)) 0 (zlen (padded blk data)) (zlen data)))
    = (Ok buf, set_plain b null_buf) /\ sb_ok buf /\ sb_contents buf = data.
Proof.
  intros Hb Hd Hl. destruct (puts_new _ _ (puts_bytes data Hd) Hl) as (buf & E1 & Hk & Hc & _).
  exists buf. split; [|done]. unfold piv_box_take_datab, cbind at 1, cget. cbn [no_plain pdb_plain b_data set_plain negb guard].
  rewrite cbind_ret_l. unfold buf_read. cbn [b_data b_offset b_len].
  pose proof (zlen_nonneg data). pose proof (zlen_padded blk data Hb). pose proof (pad_len_range blk (zlen data) Hb).
  replace (_ && _) with true by lia. rewrite cbind_ret_l.
  replace (zslice (padded blk data) 0 (zlen data)) with data
    by (rewrite zslice_0; unfold padded, zlen; by rewrite Nat2Z.id, take_app_length).
  rewrite E1. done.
Qed.

(** [w] is a box on the wire for [data] that [s] opens, otherwise like [b]. *)
Record seals (b : piv_ecdh_box) (nid : Z) (s : scalar) (data : list Z) (w : wire) : Prop := {
  se_ok : wire_ok w;
  se_like : w_guidslot w = guidslot_of b /\ w_cipher w = piv_box_cipher b /\ w_kdf w = piv_box_kdf b;
  se_key : w_nid w = nid /\ w_pub w = ec_pub nid s;
  se_opens : forall p, exists blk, 1 <= blk <= 16 /\ piv_box_open_offline (EcKey nid p (Some s)) (box_of_wire w) =
    (Ok tt, set_plain (box_of_wire w) (Apdubuf (Some (padded blk data)) 0 (zlen (padded blk data)) (zlen data)))
}.

Lemma put_sealed_ok si b buf nid s e sec pp : no_plain b = true -> sb_ok buf -> si_gen si = Ok (EcKey nid (ec_pub nid e) (Some e)) ->
  seal_case (set_plain b (whole_buf (sb_contents buf))) (sb_contents buf) nid s e sec (guidslot_of b) (si_nonce si) (si_iv si) ->
  exists w, puts (put_sealed si (Some (EcKey nid (ec_pub nid s) pp)) b buf) (wire_bytes w) /\
    seals b nid s (sb_contents buf) w.
Proof.
  intros Hb Hk Hg Hcase. set (data := sb_contents buf) in *. set (b1 := set_plain b (whole_buf data)) in *.
  pose proof Hcase as [(c & alg & Hsl) _ [Hn0 He0] _ _ (tname & Ht) Hdh _ _ _].
  pose proof (nonce_fresh b1 (si_nonce si 16) Hn0) as (Hn & Hn1 & _). set (n := if _ <=? _ then _ else _) in *.
  pose proof (sealed_wire_ok _ _ _ _ _ _ _ _ _ c alg tname Hcase Hsl Ht) as Hwok.
  pose proof (fun p => proj1 (sealed_opens _ _ _ _ _ _ _ _ _ c alg tname p Hcase Hsl Ht)) as Ho. fold n in Hwok, Ho.
  set (ct := aead_enc c (box_key c alg sec n) (si_iv si (cipher_ivlen c)) (padded (cipher_blocksize c) data)) in *.
  pose proof (sealed_wire_of b1 nid tname (ec_pub nid s) (ec_pub nid e) _ n (si_iv si (cipher_ivlen c)) ct Ht Hn Hn1) as Hwof.
  destruct (cipher_lens c (cipher_by_name_ok _ _ (sl_cipher _ _ _ _ Hsl))) as (Hblk & _).
  exists (sealed_wire b1 (guidslot_of b) tname (ec_pub nid s) (ec_pub nid e) n (si_iv si (cipher_ivlen c)) ct). split.
  - pose proof (puts_piv_box _ _ Hwof Hwok) as Hp. destruct (set_datab_ok b buf Hb Hk) as (buf' & Ed). fold data b1 in Ed.
    unfold put_sealed. rewrite Ed. intros b' Hk' Hs' Hl'. unfold cbind at 1, lift at 1.
    rewrite (seal_ok b1 data c alg nid _ pp (ec_pub nid e) e (si_gen si) (si_nonce si) (si_iv si) n sec Hsl ltac:(by rewrite He0) Hdh Hn).
    fold ct. unfold cbind, lift. exact (Hp b' Hk' Hs' Hl').
  - constructor; [exact Hwok|done|split; [exact (curve_name_roundtrip _ _ Ht)|done]|].
    intros p. exists (cipher_blocksize c). split; [lia|]. exact (Ho p).
Qed.

(** ** The tags of a challenge *)

Lemma private_reset kb : private kb -> exists kb', sshbuf_reset kb = (Ok tt, kb') /\ private kb' /\ sb_contents kb' = [].
Proof.
  intros (Hk & Hs & Hm). destruct (reset_empties kb Hk) as (kb' & E1 & Hk' & R); [rewrite Hm; by vm_compute|].
  apply (f_equal snd) in R. unfold q_reset, cmodify in R. cbn [snd abs q_max q_ro] in R. symmetry in R.
  apply abs_inv in R as (Hc & Hm' & Hs'). exists kb'. split; [done|]. split; [|done]. split; [done|]. by rewrite Hm', Hs', Hm, Hs.
Qed.
Lemma private_gets {A} (m : B A) bs v kb : gets m bs v -> private kb -> sb_contents kb = bs ->
  exists kb', m kb = (Ok v, kb') /\ private kb' /\ sb_contents kb' = [].
Proof.
  intros Hm (Hk & Hs & Hx) Hc. destruct (Hm kb [] Hk) as (kb' & E1 & Hk' & (Hc' & Hx' & Hs')%abs_inv); [by rewrite app_nil_r|].
  exists kb'. split; [done|]. split; [|done]. split; [done|]. by rewrite Hx', Hs', Hs, Hx.
Qed.

Lemma stringb8_ok b kb body rest : sb_ok b -> private kb -> sb_contents kb = [] -> sb_contents b = str8 body ++ rest -> zlen body <= 255 ->
  exists b' kb', sshbuf_get_stringb8 (b, kb) = (Ok tt, (b', kb')) /\ sb_ok b' /\ sb_contents b' = rest /\ private kb' /\ sb_contents kb' = body.
Proof.
  intros Hk Hkb Hc0 Hc Hl.
  pose proof (get_stringb_k_wp 1 sshbuf_get_u8 b kb ltac:(lia) refines_get_u8 Hk Hkb) as Hw.
  assert (q_string 1 (abs b) = (Ok body, abs b)) as Hq.
  { unfold abs. rewrite Hc. unfold str8. rewrite <- app_assoc. pose proof (zlen_nonneg body).
    apply (q_string_app 1 body rest); [change (256 ^ Z.of_nat 1) with 256; lia|apply size_max_small; lia]. }
  change sshbuf_get_stringb8 with (get_stringb_k 1 sshbuf_get_u8). unfold wp in Hw.
  destruct (get_stringb_k 1 sshbuf_get_u8 (b, kb)) as [[[]|e| |] [b' kb']]; try done.
  - destruct Hw as (Hk' & Hp' & str & Es & Ec & Ea). rewrite Hq in Es. injection Es as <-. cbn [fst snd] in *.
    apply abs_inv in Ea as (Hcb & _). exists b', kb'. split; [done|]. split; [done|]. split; [|split; [done|by rewrite Ec, Hc0]].
    rewrite Hcb, Hc. unfold str8, zlen. rewrite <- app_assoc. rewrite (drop_app_length' _ _ 1) by (by rewrite length_be_bytes).
    by rewrite Nat2Z.id, drop_app_length.
  - destruct Hw as (_ & _ & Hf). specialize (Hf body Hq). rewrite Hc0, size_max_eq in Hf. change (zlen (@nil Z)) with 0 in Hf. lia.
Qed.

(** A tag whose value [body] turns [c] into [c']. *)
Definition tag_step (tag : Z) (body : list Z) (c c' : ebox_challenge) : Prop :=
  is_byte tag /\ zlen body <= 255 /\ forall b kb, private kb -> sb_contents kb = body ->
    exists kb', chal_tag tag c (b, kb) = (Ok c', (b, kb')) /\ private kb'.
Definition tag_bytes (tag : Z) (body : list Z) : list Z := be_bytes 1 tag ++ str8 body.

Lemma chal_round f c c' tag body rest b kb : tag_step tag body c c' -> sb_ok b -> private kb ->
  sb_contents b = tag_bytes tag body ++ rest ->
  exists b' kb', chal_tags (S f) c (b, kb) = chal_tags f c' (b', kb') /\ sb_ok b' /\ private kb' /\ sb_contents b' = rest.
Proof.
  intros (Ht & Hl & Hstep) Hk Hkb Hc. pose proof (zlen_nonneg body). pose proof (zlen_nonneg rest).
  assert ((0 <? zlen (sb_contents b)) = true) as Hpos.
  { rewrite Hc. unfold tag_bytes. rewrite !zlen_app, zlen_be_bytes, zlen_str8. apply Z.ltb_lt. lia. }
  cbn [chal_tags]. unfold ssh2, cmaperr, on_fst, on_snd. unfold cbind at 1. cbn [fst snd].
  rewrite (len_ok b Hk), Hpos.
  destruct (private_reset kb Hkb) as (kb1 & E1 & Hkb1 & Hc1). unfold cbind at 1. cbn [fst snd]. rewrite E1.
  unfold tag_bytes in Hc. rewrite <- app_assoc in Hc.
  destruct (gets_u8 tag ltac:(unfold is_byte in Ht; lia) b _ Hk Hc) as (b1 & E2 & Hk1 & (Hcb1 & _)%abs_inv).
  unfold cbind at 1. cbn [fst snd]. rewrite E2.
  destruct (stringb8_ok b1 kb1 body rest Hk1 Hkb1 Hc1 Hcb1 Hl) as (b2 & kb2 & E3 & Hk2 & Hcb2 & Hkb2 & Hc2).
  unfold cbind at 1. rewrite E3. destruct (Hstep b2 kb2 Hkb2 Hc2) as (kb3 & E4 & Hkb3). rewrite (cbind_ok _ _ _ _ _ E4).
  exists b2, kb3. by split_and!.
Qed.
Lemma chal_end f c b kb : sb_ok b -> sb_contents b = [] -> fst (chal_tags f c (b, kb)) = Ok c.
Proof.
  intros Hk Hc. destruct f; cbn [chal_tags]; unfold ssh2, cmaperr, on_fst, cbind at 1; cbn [fst snd]; rewrite (len_ok b Hk), Hc; done.
Qed.

Lemma dup_string_ok kb s : private kb -> sb_contents kb = s -> no_nul s = true -> sshbuf_dup_string kb = (Ok (Some s), kb).
Proof.
  intros (Hk & _) Hc Hn. unfold sshbuf_dup_string. rewrite (cbind_ok _ _ _ _ _ (ptr_ok kb Hk)), (cbind_ok _ _ _ _ _ (len_ok kb Hk)).
  replace (sb_off kb) with (sb_off kb + 0) by lia. unfold cbind.
  rewrite (peek_contents kb) by (done || lia || apply zlen_nonneg). rewrite zslice_all, Hc. unfold no_nul in Hn.
  by destruct (memchr0 s).
Qed.

Lemma step_hostname c s : zlen s <= 255 -> no_nul s = true ->
  tag_step CTAG_HOSTNAME s c (set_ctags c (Some s) (c_description c) (c_ctime c) (c_words c)).
Proof.
  intros Hl Hn. split; [by vm_compute|]. split; [done|]. intros b kb Hp Hc. exists kb. split; [|done].
  unfold chal_tag. change (CTAG_HOSTNAME =? CTAG_HOSTNAME) with true. cbv iota.
  unfold ssh2, cmaperr, on_snd, cbind. cbn [fst snd]. by rewrite (dup_string_ok kb s Hp Hc Hn).
Qed.
Lemma step_description c s : zlen s <= 255 -> no_nul s = true ->
  tag_step CTAG_DESCRIPTION s c (set_ctags c (c_hostname c) (Some s) (c_ctime c) (c_words c)).
Proof.
  intros Hl Hn. split; [by vm_compute|]. split; [done|]. intros b kb Hp Hc. exists kb. split; [|done].
  unfold chal_tag. change (CTAG_DESCRIPTION =? CTAG_HOSTNAME) with false. change (CTAG_DESCRIPTION =? CTAG_CTIME) with false.
  change (CTAG_DESCRIPTION =? CTAG_DESCRIPTION) with true. cbv iota.
  unfold ssh2, cmaperr, on_snd, cbind. cbn [fst snd]. by rewrite (dup_string_ok kb s Hp Hc Hn).
Qed.
Lemma step_ctime c t : 0 <= t < 2 ^ 64 ->
  tag_step CTAG_CTIME (be_bytes 8 t) c (set_ctags c (c_hostname c) (c_description c) t (c_words c)).
Proof.
  intros Ht. split; [by vm_compute|]. split; [rewrite zlen_be_bytes; lia|]. intros b kb Hp Hc.
  destruct (private_gets _ _ t kb (gets_u64 t Ht) Hp Hc) as (kb' & E1 & Hp' & _). exists kb'. split; [|done].
  unfold chal_tag. change (CTAG_CTIME =? CTAG_HOSTNAME) with false. change (CTAG_CTIME =? CTAG_CTIME) with true. cbv iota.
  unfold ssh2, cmaperr, on_snd, cbind. cbn [fst snd]. by rewrite E1.
Qed.
Lemma step_words c w0 w1 w2 w3 : bytes [w0; w1; w2; w3] ->
  tag_step CTAG_WORDS [w0; w1; w2; w3] c (set_ctags c (c_hostname c) (c_description c) (c_ctime c) [w0; w1; w2; w3]).
Proof.
  intros Hw. split; [by vm_compute|]. split; [by vm_compute|]. intros b kb (Hk & Hs & Hx) Hc.
  apply Forall_cons in Hw as [H0 Hw]. apply Forall_cons in Hw as [H1 Hw]. apply Forall_cons in Hw as [H2 Hw]. apply Forall_cons in Hw as [H3 _].
  assert (forall w, is_byte w -> be_bytes 1 w = [w]) as Hbe by (intros w Hw'; cbn; by rewrite Z.mod_small).
  unfold chal_tag. change (CTAG_WORDS =? CTAG_HOSTNAME) with false. change (CTAG_WORDS =? CTAG_CTIME) with false.
  change (CTAG_WORDS =? CTAG_DESCRIPTION) with false. change (CTAG_WORDS =? CTAG_WORDS) with true. cbv iota.
  pose proof (gets_u8 w0 H0 kb [w1; w2; w3] Hk ltac:(by rewrite Hbe)) as (k0 & E0 & K0 & (C0 & M0 & S0)%abs_inv).
  pose proof (gets_u8 w1 H1 k0 [w2; w3] K0 ltac:(by rewrite Hbe)) as (k1 & E1 & K1 & (C1 & M1 & S1)%abs_inv).
  pose proof (gets_u8 w2 H2 k1 [w3] K1 ltac:(by rewrite Hbe)) as (k2 & E2 & K2 & (C2 & M2 & S2)%abs_inv).
  pose proof (gets_u8 w3 H3 k2 [] K2 ltac:(by rewrite Hbe)) as (k3 & E3 & K3 & (C3 & M3 & S3)%abs_inv).
  exists k3. split; [|split; [done|split; congruence]].
  unfold ssh2, cmaperr, on_snd, cbind. cbn [fst snd]. rewrite E0. cbn [fst snd]. rewrite E1. cbn [fst snd]. rewrite E2. cbn [fst snd]. by rewrite E3.
Qed.

(** ** A challenge on the wire *)

Record chal_wire := ChalWire {
  cw_id : Z; cw_nid : Z; cw_dest : point; cw_ephem : point;
  cw_nonce : list Z; cw_iv : list Z; cw_enc : list Z;
  cw_host : list Z; cw_time : Z; cw_desc : list Z; cw_words : list Z
}.
Record cwire_ok (w : chal_wire) : Prop := {
  cw_key : ec_validate (cw_nid w) (cw_dest w) = 0 /\ ec_validate (cw_nid w) (cw_ephem w) = 0;
  cw_byte : is_byte (cw_id w);
  cw_strs : bytes (cw_nonce w) /\ bytes (cw_iv w) /\ bytes (cw_enc w);
  cw_lens : zlen (cw_nonce w) <= 254 /\ zlen (cw_iv w) <= 254 /\ zlen (cw_enc w) <= 254;
  cw_text : field_ok (FCstr8 (cw_host w)) /\ field_ok (FCstr8 (cw_desc w));
  cw_stamp : 0 <= cw_time w < 2 ^ 64;
  cw_four : bytes (cw_words w) /\ length (cw_words w) = 4%nat
}.
Definition head_bytes (w : chal_wire) : list Z :=
  be_bytes 1 1 ++ be_bytes 1 CHAL_RECOVERY ++ be_bytes 1 (cw_id w) ++ str8 (ec_point2oct (cw_nid w) (cw_dest w)) ++
  str8 (ec_point2oct (cw_nid w) (cw_ephem w)) ++ str8 (cw_nonce w) ++ str8 (cw_iv w) ++ str8 (cw_enc w).
Definition tags_bytes (w : chal_wire) : list Z :=
  tag_bytes CTAG_HOSTNAME (cw_host w) ++ tag_bytes CTAG_CTIME (be_bytes 8 (cw_time w)) ++
  tag_bytes CTAG_DESCRIPTION (cw_desc w) ++ tag_bytes CTAG_WORDS (cw_words w).
Definition cwire_bytes (w : chal_wire) : list Z := head_bytes w ++ tags_bytes w.

(** The challenge [c] is written as [w]. *)
Record chal_written (c : ebox_challenge) (w : chal_wire) : Prop := {
  cwr_head : c_version c = 1 /\ c_type c = CHAL_RECOVERY /\ c_id c = cw_id w;
  cwr_dest : c_destkey c = EcKey (cw_nid w) (cw_dest w) None;
  cwr_ephem : exists pr, pdb_ephem_pub (c_keybox c) = Some (EcKey (cw_nid w) (cw_ephem w) pr);
  cwr_bufs : raw (pdb_nonce (c_keybox c)) = Some (cw_nonce w) /\ raw (pdb_iv (c_keybox c)) = Some (cw_iv w) /\
    raw (pdb_enc (c_keybox c)) = Some (cw_enc w);
  cwr_tags : c_hostname c = Some (cw_host w) /\ c_ctime c = cw_time w /\ c_description c = Some (cw_desc w) /\ c_words c = cw_words w
}.

Lemma puts_buf8 b d : raw b = Some d -> bytes d -> zlen d <= 254 -> puts (put_buf8 b) (str8 d).
Proof. intros Hr Hb Hl. unfold put_buf8. apply (puts_raw b d _ _ Hr). apply puts_ssh. by apply puts_string8. Qed.

Lemma puts_chal c w : chal_written c w -> cwire_ok w -> puts (sshbuf_put_ebox_challenge_raw c) (cwire_bytes w).
Proof.
  intros [(Hv & Hty & Hid) Hd [pr He] (Hn & Hi & Hen) (Hh & Hct & Hde & Hws)] [_ _ (Bn & Bi & Be) (Ln & Li & Le) [Fh Fd] _ [Bw Lw]].
  destruct (cw_words w) as [|w0 [|w1 [|w2 [|w3 [|]]]]] eqn:Ew; try done.
  apply Forall_cons in Bw as [B0 Bw]. apply Forall_cons in Bw as [B1 Bw]. apply Forall_cons in Bw as [B2 Bw]. apply Forall_cons in Bw as [B3 _].
  assert (cwire_bytes w = be_bytes 1 1 ++ be_bytes 1 CHAL_RECOVERY ++ be_bytes 1 (cw_id w) ++ str8 (ec_point2oct (cw_nid w) (cw_dest w)) ++
    str8 (ec_point2oct (cw_nid w) (cw_ephem w)) ++ str8 (cw_nonce w) ++ str8 (cw_iv w) ++ str8 (cw_enc w) ++
    be_bytes 1 CTAG_HOSTNAME ++ str8 (cw_host w) ++ be_bytes 1 CTAG_CTIME ++ be_bytes 1 8 ++ be_bytes 8 (cw_time w) ++
    be_bytes 1 CTAG_DESCRIPTION ++ str8 (cw_desc w) ++ be_bytes 1 CTAG_WORDS ++ be_bytes 1 4 ++
    be_bytes 1 w0 ++ be_bytes 1 w1 ++ be_bytes 1 w2 ++ be_bytes 1 w3) as ->.
  { assert (forall v, is_byte v -> be_bytes 1 v = [v]) as Hbe by (intros v Hv'; cbn; by rewrite Z.mod_small).
    unfold cwire_bytes, head_bytes, tags_bytes, tag_bytes, str8 at 7 9. rewrite Ew, !zlen_be_bytes.
    rewrite (Hbe w0), (Hbe w1), (Hbe w2), (Hbe w3) by done. rewrite <- !app_assoc. reflexivity. }
  unfold sshbuf_put_ebox_challenge_raw, word_at. rewrite Hv, Hty, Hid, Hd, He, Hh, Hct, Hde, Hws.
  cbn [put_eckey default lookup list_lookup].
  repeat (apply puts_seq; [first [apply puts_ssh; first [apply puts_u8|apply puts_eckey|by apply puts_cstring8|apply puts_u64]
    |by apply puts_buf8]|]).
  apply puts_ssh, puts_u8.
Qed.

(** What is read of it from a box like [box]. *)
Definition read_keybox (box : piv_ecdh_box) (nid : Z) (pub : point) (w : chal_wire) : piv_ecdh_box :=
  Box (pdb_version piv_box_new) (pdb_guidslot_valid box) (pdb_guid box) (pdb_slot box)
    (Some (EcKey nid (cw_ephem w) None)) (Some (EcKey nid pub None)) true (pdb_cipher box) (pdb_kdf box)
    (whole_buf (cw_nonce w)) (whole_buf (cw_iv w)) (whole_buf (cw_enc w)) null_buf None.
Definition read_head (box : piv_ecdh_box) (pub : point) (w : chal_wire) : ebox_challenge :=
  Challenge 1 CHAL_RECOVERY (cw_id w) None None 0 [0; 0; 0; 0] (EcKey (cw_nid w) (cw_dest w) None) (read_keybox box (cw_nid w) pub w).
Definition read_chal (box : piv_ecdh_box) (pub : point) (w : chal_wire) : ebox_challenge :=
  Challenge 1 CHAL_RECOVERY (cw_id w) (Some (cw_desc w)) (Some (cw_host w)) (cw_time w) (cw_words w)
    (EcKey (cw_nid w) (cw_dest w) None) (read_keybox box (cw_nid w) pub w).

(** A box that a challenge can be read from. *)
Definition chal_box (box : piv_ecdh_box) (nid : Z) (pub : point) : Prop :=
  (exists pr, pdb_pub box = Some (EcKey nid pub pr)) /\ (exists cn, pdb_cipher box = Some cn) /\ exists kn, pdb_kdf box = Some kn.

Lemma gets_eckey_checked nid p : ec_validate nid p = 0 -> gets (get_eckey nid) (str8 (ec_point2oct nid p)) (EcKey nid p None).
Proof.
  intros Hv. unfold get_eckey. eapply gets_last; [apply gets_maperr, gets_eckey|]. apply gets_guard; [lia|apply gets_ret].
Qed.

Lemma gets_head box pub w : chal_box box (cw_nid w) pub -> cwire_ok w -> gets (get_challenge_head box) (head_bytes w) (read_head box pub w).
Proof.
  intros ([pr Hp] & [cn Hc] & [kn Hk]) [[Kd Ke] Bid _ (Ln & Li & Le) _ _ _]. unfold get_challenge_head, head_bytes.
  eapply gets_bind; [apply gets_maperr; apply (gets_u8 1); lia|]. apply gets_guard; [done|].
  eapply gets_bind; [apply gets_maperr; apply (gets_u8 CHAL_RECOVERY); unfold CHAL_RECOVERY; lia|].
  eapply gets_bind; [apply gets_maperr; by apply gets_u8|]. rewrite Hp.
  eapply gets_bind; [by apply gets_eckey_checked|]. rewrite Hc, Hk.
  eapply gets_bind; [by apply gets_eckey_checked|].
  eapply gets_bind; [apply gets_maperr, gets_string8; lia|].
  eapply gets_bind; [apply gets_maperr, gets_string8; lia|].
  eapply gets_last; [apply gets_maperr, gets_string8; lia|].
  unfold read_head, read_keybox. rewrite Hc, Hk. apply gets_ret.
Qed.

Lemma read_tags box pub w b : cwire_ok w -> sb_ok b -> sb_contents b = tags_bytes w ->
  forall f, fst (chal_tags (S (S (S (S f)))) (read_head box pub w) (b, sshbuf_new)) = Ok (read_chal box pub w).
Proof.
  intros [_ _ _ _ [(_ & Lh & Nh) (_ & Ld & Nd)] Ht [Bw Lw]] Hk Hc f. unfold tags_bytes in Hc.
  destruct (cw_words w) as [|w0 [|w1 [|w2 [|w3 [|]]]]] eqn:Ew; try done.
  set (c0 := read_head box pub w). set (c1 := set_ctags c0 (Some (cw_host w)) None 0 [0; 0; 0; 0]).
  set (c2 := set_ctags c0 (Some (cw_host w)) None (cw_time w) [0; 0; 0; 0]).
  set (c3 := set_ctags c0 (Some (cw_host w)) (Some (cw_desc w)) (cw_time w) [0; 0; 0; 0]).
  destruct (chal_round (S (S (S f))) c0 c1 _ _ _ b sshbuf_new (step_hostname c0 (cw_host w) ltac:(lia) Nh) Hk private_new Hc)
    as (b1 & k1 & -> & Hk1 & P1 & C1).
  destruct (chal_round (S (S f)) c1 c2 _ _ _ b1 k1 (step_ctime c1 (cw_time w) Ht) Hk1 P1 C1) as (b2 & k2 & -> & Hk2 & P2 & C2).
  destruct (chal_round (S f) c2 c3 _ _ _ b2 k2 (step_description c2 (cw_desc w) ltac:(lia) Nd) Hk2 P2 C2) as (b3 & k3 & -> & Hk3 & P3 & C3).
  rewrite <- (app_nil_r (tag_bytes CTAG_WORDS _)) in C3.
  destruct (chal_round f c3 _ _ _ _ b3 k3 (step_words c3 w0 w1 w2 w3 Bw) Hk3 P3 C3) as (b4 & k4 & -> & Hk4 & P4 & C4).
  rewrite (chal_end f _ b4 k4 Hk4 C4). unfold read_chal. by rewrite Ew.
Qed.

Lemma get_chal box pub w blk : chal_box box (cw_nid w) pub -> cwire_ok w -> bytes (cwire_bytes w) -> zlen (cwire_bytes w) <= SSHBUF_SIZE_MAX -> 1 <= blk ->
  let opened := set_plain box (Apdubuf (Some (padded blk (cwire_bytes w))) 0 (zlen (padded blk (cwire_bytes w))) (zlen (cwire_bytes w))) in
  sshbuf_get_ebox_challenge opened = (Ok (read_chal box pub w), set_plain box null_buf).
Proof.
  intros Hb Hw Hby Hl Hblk opened. destruct (take_datab_opened box blk _ Hblk Hby Hl) as (buf & E1 & Hk & Hc).
  unfold sshbuf_get_ebox_challenge. unfold cbind at 1, cget. unfold cbind at 1. fold opened in E1. rewrite E1.
  destruct (gets_head opened pub w Hb Hw buf (tags_bytes w) Hk Hc) as (b1 & E2 & Hk1 & (Hc1 & _)%abs_inv). rewrite E2. unfold lift. f_equal.
  change (read_head opened pub w) with (read_head box pub w).
  assert (exists f, length (sb_contents b1) = S (S (S f))) as [f Hf].
  { assert (3 <= length (sb_contents b1))%nat as H3; [|by destruct (length (sb_contents b1)) as [|[|[|f]]]; [lia..|exists f]].
    rewrite Hc1. unfold tags_bytes, tag_bytes. rewrite !length_app, !length_be_bytes. lia. }
  rewrite Hf. by apply read_tags.
Qed.
End Facts.

(** ** Challenge and response *)

Section Exchange.
Context {C : Crypto} {L : CryptoLaws C} (eph : Z -> scalar).

Lemma copy_whole d (b : piv_ecdh_box) : 0 < zlen d -> buf_copy (whole_buf d) b = (Ok (whole_buf d), b).
Proof.
  intros Hd. unfold buf_copy. change (b_len (whole_buf d)) with (zlen d). replace (0 <? zlen d) with true by lia.
  by rewrite (cbind_ok _ _ _ _ _ (read_whole _ _)).
Qed.

(** The copy of the box of a part: the same key, nonce and ciphertext. *)
Lemma clone_made nid pub data b : box_made eph nid pub data b -> data_ok data ->
  exists kb sec n, fst (piv_box_clone b) = Ok kb /\ guidslot_of kb = guidslot_of b /\ pdb_guidslot_valid kb = pdb_guidslot_valid b /\
    pdb_cipher kb = Some BOX_DEFAULT_CIPHER /\ pdb_kdf kb = Some BOX_DEFAULT_KDF /\ pdb_pub kb = Some (EcKey nid pub None) /\
    pdb_ephem_pub kb = Some (EcKey nid (ec_pub nid (eph nid)) None) /\ ec_dh nid (eph nid) pub = Some sec /\
    raw (pdb_nonce kb) = Some n /\ bytes n /\ zlen n = 16 /\ raw (pdb_iv kb) = Some [] /\
    raw (pdb_enc kb) = Some (aead_enc default_cipher (box_key default_cipher default_digest sec n) [] (padded 8 data)).
Proof.
  intros (sec & n & Hc & Hk & Hp & He & Hdh & Hn & Hnb & Hnl & Hi & Henc & Hpl & _) [Hdb Hdl].
  pose proof (box_args default_cipher default_digest sec n [] data eq_refl eq_refl ltac:(by vm_compute) eq_refl Hdb) as Hca.
  assert (0 < zlen (aead_enc default_cipher (box_key default_cipher default_digest sec n) [] (padded 8 data))) as Hel.
  { rewrite aead_len by done. change (cipher_authlen default_cipher) with 16.
    pose proof (zlen_nonneg (padded 8 data)). change (cipher_blocksize default_cipher) with 8. lia. }
  unfold piv_box_clone, demote. unfold cbind at 1, cget. rewrite He, Hp. rewrite !cbind_ret_l. rewrite Hn, Hi, Henc, Hpl.
  rewrite (cbind_ok _ _ _ _ _ (copy_whole n b ltac:(lia))). change (buf_copy (whole_buf [])) with (cret (E:=errf_t) (S:=piv_ecdh_box) null_buf).
  rewrite cbind_ret_l, (cbind_ok _ _ _ _ _ (copy_whole _ b Hel)). change (buf_copy null_buf) with (cret (E:=errf_t) (S:=piv_ecdh_box) null_buf).
  rewrite cbind_ret_l. eexists _, sec, n. split; [reflexivity|]. unfold guidslot_of. cbn [pdb_guidslot_valid pdb_guid pdb_slot pdb_cipher pdb_kdf pdb_pub pdb_ephem_pub pdb_nonce pdb_iv pdb_enc].
  rewrite Hc, Hk, !raw_whole. split_and!; try done. by destruct (pdb_guidslot_valid b).
Qed.

(** The answer of the token's side, as it is read. *)
Definition resp_bytes (id : Z) (share : list Z) : list Z := be_bytes 1 RTAG_ID ++ be_bytes 1 id ++ be_bytes 1 RTAG_KEYPIECE ++ str8 share.

Lemma resp_read id share b : is_byte id -> zlen share <= 254 -> sb_ok b -> sb_contents b = resp_bytes id share ->
  fst (resp_tags (S (length (sb_contents b))) None None b) = Ok (Some id, Some share).
Proof.
  intros Hid Hl Hk Hc. pose proof (zlen_nonneg share).
  assert (exists f, length (sb_contents b) = S (S f)) as [f Hf].
  { rewrite Hc. unfold resp_bytes. rewrite !length_app, !length_be_bytes. eexists. cbn. reflexivity. }
  rewrite Hf. unfold resp_bytes in Hc. cbn [resp_tags].
  unfold sshput at 1, cmaperr at 1, cbind at 1. rewrite (len_ok b Hk), Hc. rewrite (proj2 (Z.ltb_lt 0 _)) by (rewrite !zlen_app, !zlen_be_bytes, zlen_str8; lia).
  destruct (gets_u8 RTAG_ID ltac:(by vm_compute) b _ Hk Hc) as (b1 & E1 & K1 & (C1 & _)%abs_inv).
  unfold sshput at 1, cmaperr at 1, cbind at 1. rewrite E1. change (RTAG_ID =? RTAG_ID) with true. cbv iota.
  destruct (gets_u8 id Hid b1 _ K1 C1) as (b2 & E2 & K2 & (C2 & _)%abs_inv).
  unfold sshput at 1, cmaperr at 1, cbind at 1. rewrite E2.
  unfold sshput at 1, cmaperr at 1, cbind at 1. rewrite (len_ok b2 K2), C2. rewrite (proj2 (Z.ltb_lt 0 _)) by (rewrite !zlen_app, !zlen_be_bytes, zlen_str8; lia).
  destruct (gets_u8 RTAG_KEYPIECE ltac:(by vm_compute) b2 _ K2 C2) as (b3 & E3 & K3 & (C3 & _)%abs_inv).
  unfold sshput at 1, cmaperr at 1, cbind at 1. rewrite E3. change (RTAG_KEYPIECE =? RTAG_ID) with false.
  change (RTAG_KEYPIECE =? RTAG_KEYPIECE) with true. cbv iota.
  assert (gets sshbuf_get_string8_conceal (str8 share) share) as Hgs by exact (gets_string8 share ltac:(lia)).
  destruct (gets_whole _ _ _ b3 Hgs K3 C3) as (b4 & E4 & K4 & C4).
  unfold sshput at 1, cmaperr at 1, cbind at 1. rewrite E4. destruct f; cbn [resp_tags];
  unfold sshput at 1, cmaperr at 1, cbind at 1; by rewrite (len_ok b4 K4), C4.
Qed.

Lemma give_first id share ps j p : ps !! j = Some p -> ep_id p = id -> (forall i q, (i < j)%nat -> ps !! i = Some q -> ep_id q <> id) ->
  give_share id share ps = Some (<[j := EboxPart (ep_tpl p) (ep_box p) (ep_id p) (Some share)]> ps).
Proof.
  revert j. induction ps as [|q ps IH]; intros j Hj Hid Hf; [done|]. cbn [give_share]. destruct j as [|j].
  - injection Hj as ->. by rewrite Hid, Z.eqb_refl.
  - pose proof (Hf O q ltac:(lia) eq_refl). replace (ep_id q =? id) with false by lia.
    rewrite (IH j); [done|done|done|]. intros i q' Hi Hq. apply (Hf (S i) q'); [lia|done].
Qed.

Definition random_ok (si : seal_inputs) : Prop :=
  forall n, 0 <= n -> bytes (si_nonce si n) /\ zlen (si_nonce si n) = n /\ bytes (si_iv si n) /\ zlen (si_iv si n) = n.
(** [si] makes the ephemeral key [e], which agrees with [s]. *)
Definition seal_ready (si : seal_inputs) (nid : Z) (s e : scalar) : Prop :=
  random_ok si /\ si_gen si = Ok (EcKey nid (ec_pub nid e) (Some e)) /\ (exists sec, ec_dh nid e (ec_pub nid s) = Some sec) /\
  ec_validate nid (ec_pub nid s) = 0 /\ ec_validate nid (ec_pub nid e) = 0 /\ exists tname, sshkey_curve_nid_to_name nid = Some tname.

(** A new box with the default algorithms seals what it is given. *)
Lemma seal_default si b buf nid s e pp : seal_ready si nid s e -> sb_ok buf -> 0 < zlen (sb_contents buf) <= 65536 ->
  piv_box_cipher b = BOX_DEFAULT_CIPHER /\ piv_box_kdf b = BOX_DEFAULT_KDF ->
  pdb_version b = PIV_BOX_V2 /\ pdb_nonce b = null_buf /\ pdb_ephem b = None /\ no_plain b = true ->
  (forall g sl, guidslot_of b = Some (g, sl) -> bytes g /\ zlen g = 16 /\ is_byte sl) ->
  exists w, puts (put_sealed si (Some (EcKey nid (ec_pub nid s) pp)) b buf) (wire_bytes w) /\ seals b nid s (sb_contents buf) w.
Proof.
  intros (Hr & Hg & [sec Hdh] & Hvs & Hve & Hcu) Hk Hl [Hc Hkd] (Hv & Hn & He & Hp) Hgs.
  apply (put_sealed_ok si b buf nid s e sec pp Hp Hk Hg). constructor; try done.
  - exists default_cipher, default_digest. constructor; try done.
    + lia.
    + change (piv_box_cipher (set_plain b (whole_buf (sb_contents buf)))) with (piv_box_cipher b). by rewrite Hc.
    + change (piv_box_kdf (set_plain b (whole_buf (sb_contents buf)))) with (piv_box_kdf b). by rewrite Hkd.
  - change (pdb_version (set_plain b (whole_buf (sb_contents buf)))) with (pdb_version b). rewrite Hv. by vm_compute.
  - change (piv_box_kdf (set_plain b (whole_buf (sb_contents buf)))) with (piv_box_kdf b). rewrite Hkd.
    split_and!; [apply bytesb_spec; reflexivity|by vm_compute|reflexivity].
  - split; [by apply contents_bytes|]. rewrite size_max_eq. lia.
Qed.

(** One exchange: the part [p] whose box holds [share] for the key [s] of a token, the fresh key [d], the
    ephemeral keys [e1] and [e2] of the two messages. *)
Record exchange_ok (p : ebox_part) (nid : Z) (share : list Z) (s d e1 e2 : scalar) (i : chal_inputs) (si1 si2 : seal_inputs)
    (chalkey : option sshkey) : Prop := {
  xo_part : box_made eph nid (ec_pub nid s) share (ep_box p) /\ bytes share /\ 0 < zlen share <= 230;
  xo_id : is_byte (ep_id p);
  xo_token : forall g sl, guidslot_of (ep_box p) = Some (g, sl) -> bytes g /\ zlen g = 16 /\ is_byte sl;
  xo_keys : ec_validate nid (ec_pub nid d) = 0 /\ ec_validate nid (ec_pub nid (eph nid)) = 0;
  xo_chalkey : chalkey = Some (EcKey nid (ec_pub nid d) (Some d)) \/
    chalkey = None /\ ci_gen i (sshkey_curve_nid_to_bits nid) = Ok (EcKey nid (ec_pub nid d) (Some d));
  xo_host : exists host, ci_host i = Some host /\ field_ok (FCstr8 host);
  xo_desc : exists desc, ci_desc i = Some desc /\ field_ok (FCstr8 desc);
  xo_time : 0 <= ci_time i < 2 ^ 64 - 1;
  xo_words : bytes (ci_words i) /\ length (ci_words i) = 4%nat;
  xo_ask : seal_ready si1 nid s e1;
  xo_answer : seal_ready si2 nid d e2
}.

(** The challenge that is made, and what it is on the wire. *)
Lemma gen_chal p nid share s d e1 e2 i si1 si2 ck : exchange_ok p nid share s d e1 e2 i si1 si2 ck ->
  exists chal w, ebox_gen_challenge i p ck = (Ok chal, Some (EcKey nid (ec_pub nid d) (Some d))) /\
    chal_written chal w /\ cwire_ok w /\ cw_nid w = nid /\ cw_dest w = ec_pub nid d /\ guidslot_of (c_keybox chal) = guidslot_of (ep_box p) /\
    pdb_pub (c_keybox chal) = Some (EcKey nid (ec_pub nid s) None) /\ pdb_cipher (c_keybox chal) = Some BOX_DEFAULT_CIPHER /\
    pdb_kdf (c_keybox chal) = Some BOX_DEFAULT_KDF /\
    (cw_id w = ep_id p /\ Some (cw_host w) = ci_host i /\ Some (cw_desc w) = ci_desc i /\ cw_time w = ci_time i /\ cw_words w = ci_words i) /\
    forall box, pdb_cipher box = Some BOX_DEFAULT_CIPHER -> pdb_kdf box = Some BOX_DEFAULT_KDF ->
      box_made eph nid (ec_pub nid s) share (read_keybox box nid (ec_pub nid s) w).
Proof.
  intros [(Hbm & Hsb & Hsl) Hid Htok [Hvd Hve] Hck (host & Hh & Fh) (desc & Hde & Fd) Ht Hw _ _].
  destruct (clone_made nid (ec_pub nid s) share (ep_box p) Hbm ltac:(split; [done|lia]))
    as (kb & sec & n & Ecl & Hgs & Hgv & Hc & Hkd & Hp & He & Hdh & Hn & Hnb & Hnl & Hi & Henc).
  pose proof Hbm as (sec0 & n0 & _ & _ & Hpub & _).
  set (enc := aead_enc _ _ _ _) in Henc.
  pose proof (box_args default_cipher default_digest sec n [] share eq_refl eq_refl ltac:(by vm_compute) eq_refl Hsb) as Hca.
  assert (bytes enc /\ zlen enc <= 254) as [Heb Hel].
  { unfold enc. split; [by apply aead_bytes|]. rewrite aead_len by done. rewrite zlen_padded by lia.
    change (cipher_authlen default_cipher) with 16. pose proof (pad_len_range 8 (zlen share) ltac:(lia)). lia. }
  set (w := ChalWire (ep_id p) nid (ec_pub nid d) (ec_pub nid (eph nid)) n [] enc host (ci_time i) desc (ci_words i)).
  set (chal := Challenge 1 CHAL_RECOVERY (ep_id p) (Some desc) (Some host) (ci_time i) (ci_words i) (EcKey nid (ec_pub nid d) None) kb).
  exists chal, w. split.
  { unfold ebox_gen_challenge. rewrite Hh, cbind_ret_l, Hde. rewrite !(wrap_small 64 (ci_time i)) by lia.
    replace (ci_time i =? u64 (-1)) with false by (change (u64 (-1)) with (2 ^ 64 - 1); lia). rewrite cbind_ret_l, Ecl. unfold cbind at 1, lift.
    assert (challenge_key (ci_gen i) (pdb_pub (ep_box p)) ck = (Ok (EcKey nid (ec_pub nid d) (Some d)), Some (EcKey nid (ec_pub nid d) (Some d)))) as Ek.
    { unfold challenge_key. rewrite Hpub. unfold cbind at 1, cget. destruct Hck as [->|[-> Hg]].
      - by rewrite Z.eqb_refl.
      - unfold cmaperr, cbind, lift. by rewrite Hg. }
    rewrite (cbind_ok _ _ _ _ _ Ek), cbind_ret_l. pose proof (c_str_ok _ Fh) as Eh. pose proof (c_str_ok _ Fd) as Ed. destruct Fd as (_ & Hdl & _).
    replace (255 <=? zlen desc) with false by lia. cbn [negb guard]. rewrite cbind_ret_l, Eh, Ed. reflexivity. }
  split_and!; try done.
  - constructor; cbn [chal w c_version c_type c_id c_destkey c_keybox c_hostname c_ctime c_description c_words cw_id cw_nid cw_dest cw_ephem cw_nonce cw_iv cw_enc cw_host cw_time cw_desc cw_words]; try done. by exists None.
  - constructor; cbn [w cw_id cw_nid cw_dest cw_ephem cw_nonce cw_iv cw_enc cw_host cw_time cw_desc cw_words]; try done.
    + split_and!; [lia|by vm_compute|done].
    + lia.
  - intros box Hbc Hbk. exists sec, n. unfold read_keybox. cbn [pdb_cipher pdb_kdf pdb_pub pdb_ephem_pub pdb_nonce pdb_iv pdb_enc pdb_plain pdb_version w cw_ephem cw_nonce cw_iv cw_enc].
    by split_and!.
Qed.

Lemma cwire_len w : cwire_ok w -> 0 < zlen (cwire_bytes w) <= 65536.
Proof.
  intros [_ _ _ (Ln & Li & Le) [(_ & Lh & _) (_ & Ld & _)] _ [_ Lw]]. unfold cwire_bytes, head_bytes, tags_bytes, tag_bytes.
  rewrite !zlen_app, !zlen_be_bytes, !zlen_str8, zlen_be_bytes. assert (zlen (cw_words w) = 4) as -> by (unfold zlen; by rewrite Lw).
  pose proof (oct_len (cw_nid w) (cw_dest w)). pose proof (oct_len (cw_nid w) (cw_ephem w)).
  assert (SSHBUF_MAX_ECPOINT = 133) as Hm by reflexivity. pose proof (zlen_nonneg (cw_nonce w)). pose proof (zlen_nonneg (cw_iv w)).
  pose proof (zlen_nonneg (cw_enc w)). pose proof (zlen_nonneg (cw_host w)). pose proof (zlen_nonneg (cw_desc w)). lia.
Qed.

(** A message: written to a fresh buffer, read back from it. *)
Lemma box_sent {E} (m : M E sshbuf unit) w : puts m (wire_bytes w) -> wire_ok w ->
  exists b r, m sshbuf_new = (Ok tt, b) /\ sshbuf_get_piv_box b = (Ok (box_of_wire w), r).
Proof.
  intros Hm Hw. destruct (puts_new _ _ Hm (wire_bytes_len w Hw)) as (b & E1 & Hk & Hc & _).
  destruct (gets_whole _ _ _ b (gets_piv_box w Hw) Hk Hc) as (r & E2 & _). by exists b, r.
Qed.

Lemma ask_sent p nid share s d e1 e2 i si1 si2 ck chal w : exchange_ok p nid share s d e1 e2 i si1 si2 ck ->
  chal_written chal w -> cwire_ok w -> guidslot_of (c_keybox chal) = guidslot_of (ep_box p) ->
  pdb_pub (c_keybox chal) = Some (EcKey nid (ec_pub nid s) None) ->
  pdb_cipher (c_keybox chal) = Some BOX_DEFAULT_CIPHER -> pdb_kdf (c_keybox chal) = Some BOX_DEFAULT_KDF ->
  bytes (cwire_bytes w) /\ exists b ww, puts (sshbuf_put_ebox_challenge si1 chal) (wire_bytes ww) /\ seals b nid s (cwire_bytes w) ww /\
    piv_box_cipher b = BOX_DEFAULT_CIPHER /\ piv_box_kdf b = BOX_DEFAULT_KDF.
Proof.
  intros Hx Hcw Hwok Hgs Hpub Hci Hkd. pose proof (cwire_len w Hwok) as Hlen.
  destruct (puts_new _ _ (puts_chal chal w Hcw Hwok) ltac:(rewrite size_max_eq; lia)) as (cb & Ec & Hk & Hc & _).
  pose proof (contents_bytes cb Hk) as Hby. rewrite Hc in Hby. split; [done|].
  unfold sshbuf_put_ebox_challenge. rewrite Hci, Hkd, Hpub. set (b := Box _ _ _ _ _ _ _ _ _ _ _ _ _ _).
  destruct (seal_default si1 b cb nid s e1 None (xo_ask _ _ _ _ _ _ _ _ _ _ _ Hx) Hk ltac:(by rewrite Hc)
    ltac:(done) ltac:(done)) as (ww & Hp & Hse).
  { intros g sl Hg. apply (xo_token _ _ _ _ _ _ _ _ _ _ _ Hx). rewrite <- Hgs. exact Hg. }
  rewrite Hc in Hse. exists b, ww. split; [|by split_and!].
  unfold fresh_buf. rewrite Ec. exact Hp.
Qed.

Lemma answer_sent chal nid share d e2 si2 kb b : seal_ready si2 nid d e2 -> is_byte (c_id chal) -> data_ok share ->
  c_destkey chal = EcKey nid (ec_pub nid d) None -> piv_box_take_data (c_keybox chal) = (Ok share, kb) ->
  exists w, seals piv_box_new nid d (resp_bytes (c_id chal) share) w /\
    (sb_ok b -> shared b = false -> zlen (sb_contents b) + zlen (wire_bytes w) <= sb_max_size b ->
     exists b', sshbuf_put_ebox_challenge_response si2 (chal, b) = (Ok tt, (with_keybox chal kb, b')) /\ sb_ok b' /\
       sb_contents b' = sb_contents b ++ wire_bytes w).
Proof.
  intros Hs Hid [Hsb Hsl] Hd Ht.
  assert (puts (sshput (sshbuf_put_u8 RTAG_ID) ;! sshput (sshbuf_put_u8 (c_id chal)) ;! sshput (sshbuf_put_u8 RTAG_KEYPIECE) ;!
    sshput (sshbuf_put_string8 share)) (resp_bytes (c_id chal) share)) as Hp.
  { unfold resp_bytes. repeat (apply puts_seq; [apply puts_ssh, puts_u8|]). apply puts_ssh. apply puts_string8; [done|lia]. }
  assert (0 < zlen (resp_bytes (c_id chal) share) <= 65536) as Hl.
  { unfold resp_bytes. rewrite !zlen_app, !zlen_be_bytes, zlen_str8. lia. }
  destruct (puts_new _ _ Hp ltac:(rewrite size_max_eq; lia)) as (cb & Ec & Hk & Hc & _).
  destruct (seal_default si2 piv_box_new cb nid d e2 None Hs Hk ltac:(by rewrite Hc) ltac:(done) ltac:(done) ltac:(intros ? ? Hx; discriminate Hx)) as (w & Hpw & Hse).
  rewrite Hc in Hse. exists w. split; [done|]. intros Hkb Hsh Hroom.
  destruct (Hpw b Hkb Hsh Hroom) as (b' & E1 & K1 & (C1 & _)%abs_inv). exists b'. split; [|done].
  unfold sshbuf_put_ebox_challenge_response. rewrite Ht, Hd. unfold cbind, fresh_buf. cbv zeta. unfold cbind in Ec. rewrite Ec. unfold lift. by rewrite E1.
Qed.

(** The response, opened with the fresh key, gives its share to the first part with its number. *)
Lemma answer_taken w nid d share conf j p : seals piv_box_new nid d (resp_bytes (ep_id p) share) w -> data_ok share -> is_byte (ep_id p) ->
  ec_parts conf !! j = Some p -> (forall i q, (i < j)%nat -> ec_parts conf !! i = Some q -> ep_id q <> ep_id p) ->
  ebox_challenge_response (Some (EcKey nid (ec_pub nid d) (Some d))) (box_of_wire w) conf
  = (Ok (ep_id p), EboxConfig (ec_tpl conf) (<[j := EboxPart (ep_tpl p) (ep_box p) (ep_id p) (Some share)]> (ec_parts conf)) (ec_nonce conf)).
Proof.
  intros Hse [Hsb Hsl] Hid Hj Hfirst. destruct (se_opens _ _ _ _ _ Hse (ec_pub nid d)) as (blk & Hb & Ho).
  assert (bytes (resp_bytes (ep_id p) share)) as Hby.
  { unfold resp_bytes. do 3 (apply Forall_app; split; [apply be_bytes_bytes|]). by apply str8_bytes. }
  assert (zlen (resp_bytes (ep_id p) share) <= SSHBUF_SIZE_MAX) as Hl.
  { unfold resp_bytes. rewrite !zlen_app, !zlen_be_bytes, zlen_str8, size_max_eq. lia. }
  destruct (take_datab_opened (box_of_wire w) blk _ ltac:(lia) Hby Hl) as (buf & Et & Hk & Hc).
  unfold ebox_challenge_response. rewrite (cbind_ok _ _ _ _ _ Ho), Et. unfold cbind at 1, lift. cbn [fst].
  rewrite (resp_read (ep_id p) share buf Hid ltac:(lia) Hk Hc). unfold cbind. cbv beta iota. unfold cget.
  by rewrite (give_first (ep_id p) share (ec_parts conf) j p Hj eq_refl Hfirst).
Qed.

(** C35: recovery at a distance. A challenge made for a part that has no share yet, on the curve of the configuration's challenge key, written out, read and opened with the key of the part's token
    says what it was made with; with the part's box in it opened too, the response, written out and read back, gives exactly what the
    part's box holds to that part, the first of the configuration with its number, and to no other. The lengths and the random inputs are
    those of [exchange_ok]. *)
Theorem challenge_exchange p nid share s d e1 e2 i si1 si2 chalkey conf j :
  exchange_ok p nid share s d e1 e2 i si1 si2 chalkey -> ep_share p = None ->
  ec_parts conf !! j = Some p -> (forall k q, (k < j)%nat -> ec_parts conf !! k = Some q -> ep_id q <> ep_id p) ->
  let token := EcKey nid (ec_pub nid s) (Some s) in
  exists chal fresh b1 box1 r1 chal1 box1' kb chal2 b2 box2 r2,
    ebox_gen_challenge i p chalkey = (Ok chal, Some fresh) /\
    sshbuf_put_ebox_challenge si1 chal sshbuf_new = (Ok tt, b1) /\
    sshbuf_get_piv_box b1 = (Ok box1, r1) /\
    (piv_box_open_offline token ;! sshbuf_get_ebox_challenge) box1 = (Ok chal1, box1') /\
    (ebox_challenge_id chal1 = ep_id p /\ ebox_challenge_hostname chal1 = ci_host i /\ ebox_challenge_desc chal1 = ci_desc i /\
     ebox_challenge_ctime chal1 = ci_time i /\ fst (ebox_challenge_words chal1) = ci_words i) /\
    piv_box_open_offline token (ebox_challenge_box chal1) = (Ok tt, kb) /\
    sshbuf_put_ebox_challenge_response si2 (with_keybox chal1 kb, sshbuf_new) = (Ok tt, (chal2, b2)) /\
    sshbuf_get_piv_box b2 = (Ok box2, r2) /\
    ebox_challenge_response (Some fresh) box2 conf =
      (Ok (ep_id p), EboxConfig (ec_tpl conf) (<[j := EboxPart (ep_tpl p) (ep_box p) (ep_id p) (Some share)]> (ec_parts conf)) (ec_nonce conf)).
Proof.
  intros Hx _ Hj Hfirst token. destruct (gen_chal _ _ _ _ _ _ _ _ _ _ _ Hx) as (chal & w & Eg & Hcw & Hwok & Hnid & Hdest & Hgs & Hpub & Hci & Hkd
    & (Fid & Fh & Fd & Ft & Fw) & Hmade).
  destruct (ask_sent _ _ _ _ _ _ _ _ _ _ _ chal w Hx Hcw Hwok Hgs Hpub Hci Hkd) as (Hby & b & ww & Hp1 & Hse1 & Hbc & Hbk).
  destruct (box_sent _ ww Hp1 (se_ok _ _ _ _ _ Hse1)) as (b1 & r1 & E1 & E2).
  destruct Hse1 as [_ (_ & Wc & Wk) [Wn Wp] Ho]. destruct (Ho (ec_pub nid s)) as (blk & Hblk & Ho1).
  assert (pdb_cipher (box_of_wire ww) = Some BOX_DEFAULT_CIPHER /\ pdb_kdf (box_of_wire ww) = Some BOX_DEFAULT_KDF) as [Bc Bk].
  { cbn [box_of_wire pdb_cipher pdb_kdf]. by rewrite Wc, Wk, Hbc, Hbk. }
  assert (chal_box (box_of_wire ww) (cw_nid w) (ec_pub nid s)) as Hcb.
  { split; [|split; [by eexists|by eexists]]. exists None. cbn [box_of_wire pdb_pub]. by rewrite Wn, Wp, Hnid. }
  pose proof (cwire_len w Hwok) as Hlen.
  pose proof (get_chal (box_of_wire ww) (ec_pub nid s) w blk Hcb Hwok Hby ltac:(rewrite size_max_eq; lia) ltac:(lia)) as Egc.
  pose proof Hx as [(_ & Hsb & Hsl) Hid _ _ _ _ _ _ _ _ Hans]. assert (data_ok share) as Hdo by (split; [done|lia]).
  pose proof (Hmade (box_of_wire ww) Bc Bk) as Hm.
  pose proof (box_made_opens eph nid s (ec_pub nid s) share _ Hm Hdo) as Ho2.
  set (kb := box_opened _ share) in Ho2. set (chal1 := read_chal (box_of_wire ww) (ec_pub nid s) w) in *.
  assert (c_id (with_keybox chal1 kb) = ep_id p) as Hid1 by exact Fid.
  destruct (answer_sent (with_keybox chal1 kb) nid share d e2 si2
    (set_plain (read_keybox (box_of_wire ww) nid (ec_pub nid s) w) null_buf) sshbuf_new Hans ltac:(by rewrite Hid1) Hdo)
    as (w2 & Hse2 & Hput).
  { cbn [with_keybox c_destkey chal1 read_chal]. by rewrite Hnid, Hdest. }
  { apply (take_opened (read_keybox (box_of_wire ww) nid (ec_pub nid s) w) 8 share). lia. }
  rewrite Hid1 in Hse2. destruct Hput as (b2 & E5 & K5 & C5); [apply new_ok|done|apply wire_bytes_len, Hse2|].
  destruct (gets_whole _ _ _ b2 (gets_piv_box w2 (se_ok _ _ _ _ _ Hse2)) K5 C5) as (r2 & E6 & _).
  eexists chal, _, b1, (box_of_wire ww), r1, chal1, _, kb, _, b2, (box_of_wire w2), r2.
  split; [exact Eg|]. split; [exact E1|]. split; [exact E2|]. split; [rewrite (cbind_ok _ _ _ _ _ Ho1); exact Egc|].
  split; [by split_and!|].
  split; [cbn [ebox_challenge_box chal1 read_chal c_keybox]; rewrite Hnid; exact Ho2|]. split; [exact E5|]. split; [exact E6|]. by apply answer_taken.
Qed.
End Exchange.

(** * An instance *)

Module ToyChal.
Definition nid : Z := NID_X9_62_prime256v1.
Definition eph (_ : Z) : @scalar Toy.toy := true.
Definition share : list Z := Toy.random 33.
Definition box : piv_ecdh_box :=
  Box PIV_BOX_V2 true Toy.guid 0x9d (Some (EcKey nid true None)) (Some (EcKey nid true None)) true
    (Some BOX_DEFAULT_CIPHER) (Some BOX_DEFAULT_KDF) (whole_buf (Toy.random 16)) (whole_buf [])
    (whole_buf (aead_enc default_cipher (box_key default_cipher default_digest [7] (Toy.random 16)) [] (padded 8 share))) null_buf None.
Definition part (id : Z) : ebox_part := EboxPart (ToyBlobs.part 0x9d false) box id None.
Definition config : ebox_config := EboxConfig (TplConfig EBOX_RECOVERY 2 2 []) [part 1; part 2] None.
Definition inputs : chal_inputs :=
  ChalInputs (Some (zs "host")) 1600000000 (Some (zs "recovery")) 0 (fun _ => Ok (EcKey nid true (Some true))) [1; 2; 3; 4].
Definition seal : seal_inputs := SealInputs (Ok (EcKey nid true (Some true))) Toy.random Toy.random.
End ToyChal.

Lemma toy_seal_ready : seal_ready ToyChal.seal ToyChal.nid true true.
Proof.
  split; [|split; [reflexivity|split; [by eexists|split; [reflexivity|split; [reflexivity|by eexists]]]]].
  intros n Hn. cbn [ToyChal.seal si_nonce si_iv]. unfold Toy.random. rewrite zlen_zrepeat by done.
  assert (bytes (zrepeat n 85)) by (apply Forall_replicate; unfold is_byte; lia). auto.
Qed.
Lemma toy_exchange_ok : exchange_ok ToyChal.eph (ToyChal.part 2) ToyChal.nid ToyChal.share true true true true ToyChal.inputs ToyChal.seal ToyChal.seal None.
Proof.
  constructor; try done; try exact toy_seal_ready.
  - split; [|split; [apply bytesb_spec; reflexivity|by vm_compute]].
    exists [7], (Toy.random 16). repeat (split; [try reflexivity; apply bytesb_spec; reflexivity|]). by vm_compute.
  - intros g sl [= <- <-]. split_and!; [apply bytesb_spec; reflexivity|reflexivity|by vm_compute].
  - right. done.
  - eexists. split; [reflexivity|]. split_and!; [apply bytesb_spec; reflexivity|by vm_compute|reflexivity].
  - eexists. split; [reflexivity|]. split_and!; [apply bytesb_spec; reflexivity|by vm_compute|reflexivity].
  - split; [apply bytesb_spec; reflexivity|reflexivity].
Qed.

Lemma challenge_exchange_witness :
  let token := EcKey ToyChal.nid true (Some true) in
  exists chal fresh b1 box1 r1 chal1 box1' kb chal2 b2 box2 r2,
    ebox_gen_challenge ToyChal.inputs (ToyChal.part 2) None = (Ok chal, Some fresh) /\
    sshbuf_put_ebox_challenge ToyChal.seal chal sshbuf_new = (Ok tt, b1) /\
    sshbuf_get_piv_box b1 = (Ok box1, r1) /\
    (piv_box_open_offline token ;! sshbuf_get_ebox_challenge) box1 = (Ok chal1, box1') /\
    (ebox_challenge_id chal1 = 2 /\ ebox_challenge_hostname chal1 = Some (zs "host") /\ ebox_challenge_desc chal1 = Some (zs "recovery") /\
     ebox_challenge_ctime chal1 = 1600000000 /\ fst (ebox_challenge_words chal1) = [1; 2; 3; 4]) /\
    piv_box_open_offline token (ebox_challenge_box chal1) = (Ok tt, kb) /\
    sshbuf_put_ebox_challenge_response ToyChal.seal (with_keybox chal1 kb, sshbuf_new) = (Ok tt, (chal2, b2)) /\
    sshbuf_get_piv_box b2 = (Ok box2, r2) /\
    ebox_challenge_response (Some fresh) box2 ToyChal.config =
      (Ok 2, EboxConfig (ec_tpl ToyChal.config) (<[1%nat := EboxPart (ToyBlobs.part 0x9d false) ToyChal.box 2 (Some ToyChal.share)]>
               (ec_parts ToyChal.config)) None).
Proof.
  apply (challenge_exchange ToyChal.eph (ToyChal.part 2) ToyChal.nid ToyChal.share true true true true ToyChal.inputs ToyChal.seal
    ToyChal.seal None ToyChal.config 1 toy_exchange_ok eq_refl eq_refl).
  intros [|k] q Hk Hq; [|lia]. injection Hq as <-. cbn. lia.
Defined.

(** ** Behaviours that differ from what the code means to do *)

(** A tag of a response that is not known is to be ignored, but its value is not passed over: here the value of tag 9 is
    read as another tag and changes the number of the part. *)
Lemma response_unknown_tag :
  let bs := [RTAG_ID; 5; RTAG_KEYPIECE; 1; 42; 9; 1; 77] in
  fst (resp_tags 9 None None (snd (sshbuf_put bs sshbuf_new))) = Ok (Some 77, Some [42]).
Proof. vm_compute. reflexivity. Qed.

(** The fresh key of a configuration is on the curve of the first part a challenge is made for: a
    challenge for a part on another curve aborts. *)
Lemma challenge_other_curve gen pub pub' :
  fst (challenge_key gen (Some (EcKey NID_secp384r1 pub None)) (Some (EcKey NID_X9_62_prime256v1 pub' None))) = Panic.
Proof. reflexivity. Qed.
