(* ===== verification/PivCert.v ===== *)
(** * Certificates of a card (piv.c)

    A slot's certificate is a data object: the certificate, perhaps compressed, and a byte of flags.
    [piv_read_cert] keeps the certificate, its subject and its key in the list of slots of the handle. Parsing
    of certificates, decompression and the keys in certificates are the parameter [Certs].
    Proved: what [piv_write_cert] stores is what [piv_read_cert] finds, in any handle and without touching
    the other slots. *)
From stdpp Require Import base list strings gmap.
From Stdlib Require Import ZArith Lia.
From S2P Require Import Prelude Errf Algs Tlv PivBox PivToken Apdu ApduChain PivPin PivFiles PivParse PivStore PivObjects.

Local Open Scope string_scope.
Local Open Scope list_scope.
Local Open Scope Z_scope.
Local Open Scope c_scope.

Definition PIV_MAX_CERT_LEN : Z := 16384.
Definition PIV_COMP_GZIP : Z := 1.
Definition PIV_COMP_NONE : Z := 0.
Definition PIV_CI_X509 : Z := 4.
Definition PIV_CI_COMPTYPE : Z := 3.
(** Types of keys (sshkey.h). *)
Definition KEY_RSA : Z := 1.
Definition KEY_ECDSA : Z := 3.

Definition CertFlagError : errf_t := errf "CertFlagError" None.
Definition DecompressionError : errf_t := errf "DecompressionError" None.
Definition sslerrf : errf_t := errf "OpenSSLError" None.
Definition CertAlgorithmError : errf_t := errf "BadAlgorithmError" None.

(** The object that holds the certificate of a slot. *)
Definition cert_tag (slotid : Z) : option Z :=
  if slotid =? PIV_SLOT_9A then Some PIV_TAG_CERT_9A
  else if slotid =? PIV_SLOT_9C then Some PIV_TAG_CERT_9C
  else if slotid =? PIV_SLOT_9D then Some PIV_TAG_CERT_9D
  else if slotid =? PIV_SLOT_9E then Some PIV_TAG_CERT_9E
  else if (PIV_SLOT_RETIRED_1 <=? slotid) && (slotid <=? PIV_SLOT_RETIRED_20)
  then Some (PIV_TAG_CERT_82 + (slotid - PIV_SLOT_82))
  else None.

Section Cert.
Context {X : Certs} {R : Reader}.
Context (fuel : nat).
Local Abbreviation P := (M stop world).
Local Abbreviation Q := (M errf_t pstate).

(** ** Parsers that collect values *)

(** [each_tag] with a value carried along. *)
Fixpoint fold_tags {A} (n : nat) (body : Z -> A -> Q A) (acc : A) : Q A :=
  let! ts := cgets fst in
  if tlv_at_end ts then cret acc
  else match n with
       | O => cfault
       | S n' => let! tag := tl tlv_read_tag in let! acc := body tag acc in fold_tags n' body acc
       end.
(** The members and the end of a template that was entered, and the whole of one. *)
Definition members_fold {A} (body : Z -> A -> Q A) (acc : A) : Q A :=
  let! ts := cgets fst in
  let! acc := fold_tags (length (ts_buf ts)) body acc in
  tl tlv_end ;!
  cret acc.
Definition template_fold {A} (outer : Z) (body : Z -> A -> Q A) (acc : A) : Q A :=
  let! tag := tl tlv_read_tag in
  guard (tag =? outer) tagerrf ;!
  members_fold body acc.

(** [tlv_ptr(tlv)] and [tlv_rem(tlv)]: the contents of the current tag. *)
Definition tlv_view : T (list Z) :=
  fun ts =>
    let n := tlv_rem ts in
    if (0 <=? ts_pos ts) && (ts_pos ts + n <=? zlen (ts_buf ts))
    then (Ok (zslice (ts_buf ts) (ts_pos ts) n), ts)
    else (Fault, ts).

(** ** Writing *)

Definition piv_write_cert (slotid : Z) (data : list Z) (flags : Z) : P unit :=
  in_txn ;!
  match cert_tag slotid with
  | None => fails argerrf
  | Some tag =>
      let! file := tlv_build (tlv_pushl 112 (usize (zlen data + 3)) ;! tlv_write data ;! tlv_pop ;!
                              tlv_push 113 ;! tlv_write_byte (u8 flags) ;! tlv_pop) in
      piv_write_file fuel tag file
  end.

(** ** Reading *)

(** The flags and the bytes of the certificate, as the loop finds them; without tag 0x70 the
    length stays 0. *)
Definition cert_member (tag : Z) (acc : Z * list Z) : Q (Z * list Z) :=
  let (certinfo, data) := acc in
  if tag =? 113 then
    let! certinfo := tl tlv_read_u8 in
    tl tlv_end ;!
    cret (certinfo, data)
  else if tag =? 112 then
    let! data := tl tlv_view in
    tl tlv_skip ;!
    cret (certinfo, data)
  else
    tl tlv_skip ;!
    cret (certinfo, data).

(** The encoded certificate, decompressed if its flags say so. *)
Definition cert_der (certinfo : Z) (data : list Z) : res errf_t (list Z) :=
  if negb (Z.land certinfo PIV_CI_X509 =? 0) then Er CertFlagError
  else if Z.land certinfo PIV_CI_COMPTYPE =? PIV_COMP_GZIP then
    match inflate data PIV_MAX_CERT_LEN with
    | Some der => Ok der
    | None => Er DecompressionError
    end
  else if negb (Z.land certinfo PIV_CI_COMPTYPE =? PIV_COMP_NONE) then Er CertFlagError
  else Ok data.

(** The algorithm of a slot by the key in its certificate. *)
Definition cert_alg (k : certkey) : option Z :=
  if certkey_type k =? KEY_ECDSA then
    if certkey_size k =? 256 then Some PIV_ALG_ECCP256
    else if certkey_size k =? 384 then Some PIV_ALG_ECCP384 else None
  else if certkey_type k =? KEY_RSA then
    if certkey_size k =? 1024 then Some PIV_ALG_RSA1024
    else if certkey_size k =? 2048 then Some PIV_ALG_RSA2048 else None
  else None.

(** [sshkey_free] of a slot's key, whose pointer stays; a second time is a double free. *)
Definition free_pubkey (k : keyref) : Q keyref :=
  match k with NoKey => cret NoKey | HasKey _ => cret FreedKey | FreedKey => cfault end.

Definition upd_slot (slotid : Z) (f : piv_slot -> piv_slot) : Q unit :=
  tk (fun t => set_slots (upsert_slot slotid f (pt_slots t)) t).

(** The slot found or appended takes the certificate, its subject and its key. *)
Definition store_cert (slotid : Z) (cert : x509) : Q unit :=
  let! t := cgets snd in
  let! old := match piv_get_slot t slotid with Some s => free_pubkey (ps_pubkey s) | None => cret NoKey end in
  upd_slot slotid (fun s => Slot slotid (ps_alg s) (Some cert) (Some (X509_subject cert)) old) ;!
  match X509_pubkey cert with
  | None => cpanic
  | Some (inl rv) => craise (ssherrf rv)
  | Some (inr k) =>
      upd_slot slotid (fun s => Slot slotid (ps_alg s) (ps_x509 s) (ps_subj s) (HasKey k)) ;!
      match cert_alg k with
      | Some alg => upd_slot slotid (fun s => Slot slotid alg (ps_x509 s) (ps_subj s) (ps_pubkey s))
      | None => craise CertAlgorithmError
      end
  end.

Definition piv_read_cert (slotid : Z) : P unit :=
  in_txn ;!
  match cert_tag slotid with
  | None => fails argerrf
  | Some tag =>
      let! a := get_data fuel tag in
      if sw_has_data (a_sw a) then
        if b_len (a_reply a) <? 1 then fails (invderrf empty_reply)
        else parse_reply a
               (let! (certinfo, data) := template_fold 83 cert_member (0, []) in
                let! der := lift (cert_der certinfo data) in
                match d2i_X509 der with
                | None => craise sslerrf
                | Some cert => store_cert slotid cert
                end)
      else if a_sw a =? SW_FILE_NOT_FOUND then fails (notfounderrf swerrf)
      else if a_sw a =? SW_SECURITY_STATUS_NOT_SATISFIED then fails (permerrf swerrf)
      else if (a_sw a =? SW_FUNC_NOT_SUPPORTED) || (a_sw a =? SW_WRONG_DATA) then fails (notsuperrf (Some swerrf))
      else fails swerrf
  end.

(** ** All certificates *)

Definition read_all_aborts_on (err : option errf_t) : bool :=
  match err with
  | None => false
  | Some _ => negb (errf_caused_by err "NotFoundError") && negb (errf_caused_by err "PermissionError")
              && negb (errf_caused_by err "NotSupportedError")
  end.

(** [err = m; if (stop(err)) return (err);] *)
Definition unless (stop : option errf_t -> bool) (m : P unit) : P unit :=
  let! r := attempt m in
  match r with
  | inr _ => cret tt
  | inl e => if stop (Some e) then fails e else cret tt
  end.

Fixpoint read_retired (n : nat) (i : Z) : P unit :=
  match n with
  | O => cret tt
  | S n' =>
      unless (fun err => read_all_aborts_on err && negb (errf_caused_by err "APDUError"))
        (piv_read_cert (u32 (PIV_SLOT_RETIRED_1 + i))) ;!
      read_retired n' (i + 1)
  end.

Definition piv_read_all_certs : P unit :=
  in_txn ;!
  unless read_all_aborts_on (piv_read_cert PIV_SLOT_9E) ;!
  unless read_all_aborts_on (piv_read_cert PIV_SLOT_9A) ;!
  unless read_all_aborts_on (piv_read_cert PIV_SLOT_9C) ;!
  unless read_all_aborts_on (piv_read_cert PIV_SLOT_9D) ;!
  let! w := cget in
  read_retired (Z.to_nat (pt_hist_oncard (pt_hist (w_tok w)))) 0.

(** ** Attestation *)

Definition ykpiv_attest (slotid : Z) : P (list Z) :=
  in_txn ;!
  let! w := cget in
  guard (pt_ykpiv (pt_yk (w_tok w))) (Err argerrf) ;!
  let! a := onerr ioerrf (piv_apdu_transceive_chain fuel (piv_apdu_make CLA_ISO INS_ATTEST (u8 slotid) 0)) in
  if sw_has_data (a_sw a) then
    if b_len (a_reply a) <? 1 then fails (notsuperrf (Some (errf "InvalidDataError" None)))
    else piv_apdu_get_reply a
  else if a_sw a =? SW_SECURITY_STATUS_NOT_SATISFIED then fails (permerrf swerrf)
  else if a_sw a =? SW_INS_NOT_SUP then fails (notsuperrf (Some swerrf))
  else fails swerrf.
End Cert.

(** * Reading what was written *)

Section Folds.
Context {X : Certs} {A : Type}.

(** [body] on an object takes the value from [a] to [a']. *)
Definition fold_reads (body : Z -> A -> M errf_t pstate A) (o : object) (a a' : A) : Prop :=
  let '(tag, ml, bs) := o in
  forall ts ts1 rest t, enters ts ts1 bs rest -> ts_pos ts1 + zlen bs = ts_pos ts + zlen (obj_bytes o) ->
    body tag a (ts1, t) = (Ok a', (advance ts (zlen (obj_bytes o)), t)).

Inductive folds (body : Z -> A -> M errf_t pstate A) : list object -> A -> A -> Prop :=
| folds_nil a : folds body [] a a
| folds_cons o os a a1 a2 : obj_ok o -> fold_reads body o a a1 -> folds body os a1 a2 -> folds body (o :: os) a a2.

Lemma folds_ok body os a a' : folds body os a a' -> Forall obj_ok os.
Proof. induction 1; constructor; auto. Qed.

Lemma fold_tags_members body os a a' : folds body os a a' -> forall n ts t,
  (length os <= n)%nat -> reader_ok ts -> tlv_rest ts = objs_bytes os ->
  fold_tags n body a (ts, t) = (Ok a', (advance ts (zlen (objs_bytes os)), t)).
Proof.
  induction 1 as [a|[[tag ml] bs] os a a1 a2 Ho Hm _ IH]; intros n ts t Hn Hok Hr.
  - assert (tlv_at_end ts = true) as He by (by apply at_end_nil).
    destruct n; cbn [fold_tags]; rewrite (cbind_ok (cgets fst) _ (ts, t) ts (ts, t) eq_refl), He;
      change (zlen (objs_bytes [])) with 0; by rewrite advance_0.
  - destruct n as [|n]; [cbn in Hn; lia|]. cbn [fold_tags].
    change (objs_bytes ((tag, ml, bs) :: os)) with (tlv_object tag ml bs ++ objs_bytes os) in *.
    destruct Ho as (Ht & Hwf & Hl).
    rewrite (cbind_ok (cgets fst) _ (ts, t) ts (ts, t) eq_refl).
    destruct (object_nonempty tag ml bs Hwf) as (b & r & Hob).
    rewrite (not_at_end ts b (r ++ objs_bytes os) Hok) by (by rewrite Hr, Hob).
    destruct (read_tag_enters ts tag ml bs (objs_bytes os) Hok Ht Hwf Hl Hr) as (ts1 & E1 & En & Hp).
    rewrite (cbind_ok _ _ _ _ _ (tl_run _ _ t _ _ E1)).
    rewrite (cbind_ok _ _ _ _ _ (Hm ts ts1 (objs_bytes os) t En Hp)).
    destruct (rest_advance ts _ _ Hok Hr) as [Hok1 Hr1]. cbn [obj_bytes].
    rewrite IH; [|cbn in Hn; lia|done|done]. by rewrite advance_advance, zlen_app.
Qed.

(** From inside a template: its members, and out of it. *)
Lemma members_folds body os a a' t ts ts1 rest n :
  folds body os a a' -> enters ts ts1 (objs_bytes os) rest -> ts_pos ts1 + zlen (objs_bytes os) = ts_pos ts + n ->
  members_fold body a (ts1, t) = (Ok a', (advance ts n, t)).
Proof.
  intros Hm En Hp. pose proof En as (Hok1 & Hr1 & _). unfold members_fold.
  rewrite (cbind_ok (cgets fst) _ (ts1, t) ts1 (ts1, t) eq_refl).
  assert (length os <= length (ts_buf ts1))%nat as Hn.
  { pose proof (length_objs os (folds_ok _ _ _ _ Hm)). pose proof (zlen_rest ts1 Hok1) as Hz.
    reader_facts Hok1. rewrite Hr1 in Hz. unfold zlen in *. lia. }
  rewrite (cbind_ok _ _ _ _ _ (fold_tags_members body os a a' Hm _ ts1 t Hn Hok1 Hr1)).
  by rewrite (cbind_ok _ _ _ _ _ (tl_run _ _ t _ _ (end_leaves _ _ _ _ _ En Hp))).
Qed.

Lemma template_folds outer ml body os a a' t ts :
  folds body os a a' -> obj_ok (outer, ml, objs_bytes os) -> reader_ok ts -> ts_stack ts = [] ->
  tlv_rest ts = tlv_object outer ml (objs_bytes os) ->
  exists ts', template_fold outer body a (ts, t) = (Ok a', (ts', t)) /\ ts_stack ts' = [].
Proof.
  intros Hm (Ht & Hwf & Hl) Hok Hst Hr. rewrite <- (app_nil_r (tlv_object _ _ _)) in Hr.
  destruct (read_tag_enters ts outer ml (objs_bytes os) [] Hok Ht Hwf Hl Hr) as (ts1 & E1 & En & Hp).
  unfold template_fold. rewrite (cbind_ok _ _ _ _ _ (tl_run _ _ t _ _ E1)), Z.eqb_refl.
  unfold guard. rewrite cbind_ret_l. eexists. split; [exact (members_folds _ _ _ _ _ _ _ _ _ Hm En Hp)|exact Hst].
Qed.

(** A value read and the end of the context; the contents and a skip. *)
Lemma fold_value {B} (m : T B) (f : B -> A) bs v ts ts1 rest n t :
  decodes_all m bs v -> enters ts ts1 bs rest -> ts_pos ts1 + zlen bs = ts_pos ts + n ->
  (let! x := tl m in tl tlv_end ;! cret (f x)) (ts1, t) = (Ok (f v), (advance ts n, t)).
Proof.
  intros Hd He Hp. pose proof He as (Hok & Hr & _).
  rewrite (cbind_ok _ _ _ _ _ (tl_run _ _ t _ _ (Hd ts1 Hok Hr))).
  by rewrite (cbind_ok _ _ _ _ _ (tl_run _ _ t _ _ (end_leaves _ _ _ _ _ He Hp))).
Qed.

Lemma view_ok ts : reader_ok ts -> tlv_view ts = (Ok (tlv_rest ts), ts).
Proof.
  intros Hok. unfold tlv_view. rewrite tlv_rem_reader by done.
  pose proof (reader_now ts Hok). pose proof (ro_pos _ Hok). pose proof (ro_buf _ Hok).
  by replace (_ && _) with true by lia.
Qed.

Lemma fold_view (f : list Z -> A) bs ts ts1 rest n t :
  enters ts ts1 bs rest -> ts_pos ts1 + zlen bs = ts_pos ts + n ->
  (let! x := tl tlv_view in tl tlv_skip ;! cret (f x)) (ts1, t) = (Ok (f bs), (advance ts n, t)).
Proof.
  intros He Hp. pose proof He as (Hok & <- & _).
  rewrite (cbind_ok _ _ _ _ _ (tl_run _ _ t _ _ (view_ok ts1 Hok))).
  by rewrite (cbind_ok _ _ _ _ _ (tl_run _ _ t _ _ (skip_leaves _ _ _ _ _ He Hp))).
Qed.
End Folds.

Lemma one_limit (b : Z) : zlen [b] < len_limit 127.
Proof. change (1 < 128). lia. Qed.

(** The objects of a certificate file. *)
Definition cert_objs (data : list Z) (flags : Z) : list object := [(112, zlen data + 3, data); (113, 127, [u8 flags])].

Lemma cert_folds {X : Certs} data flags : zlen data + 3 < 2 ^ 16 ->
  folds cert_member (cert_objs data flags) (0, []) (u8 flags, data).
Proof.
  intros Hl. apply (folds_cons _ (112, zlen data + 3, data) _ _ (0, data)).
  { split_and!; [lia|lia|done|]. pose proof (zlen_nonneg data). unfold len_limit. repeat case_match; lia. }
  { intros ts ts1 rest t He Hp. exact (fold_view (fun d => (0, d)) data _ _ _ _ t He Hp). }
  apply (folds_cons _ (113, 127, [u8 flags]) _ _ (u8 flags, data)).
  { split_and!; [lia|lia|done|exact (one_limit _)]. }
  { intros ts ts1 rest t He Hp.
    exact (fold_value tlv_read_u8 (fun c => (c, data)) _ _ _ _ _ _ t (decodes_decodes_all _ _ _ (decodes_read_u8 (u8 flags))) He Hp). }
  apply folds_nil.
Qed.

Section Roundtrip.
Context {X : Certs} (tr : transport) (Htr : transport_ok tr) (fuel : nat).
Local Abbreviation W := (World (R := iso_reader (A := file_applet) tr)).
Local Abbreviation Ic := (Iso (A := file_applet)).

(** A certificate that fits the command buffer with what is around it. *)
Definition cert_fits (data : list Z) : Prop :=
  bytes data /\ zlen data + 20 <= MAX_APDU_SIZE /\ (length data + 30 < fuel)%nat.

Lemma cert_file data flags : cert_fits data ->
  file_ok fuel (objs_bytes (cert_objs data flags)) /\ 4 <= zlen (objs_bytes (cert_objs data flags)) <= zlen data + 9 /\
  emits (tlv_pushl 112 (usize (zlen data + 3)) ;! tlv_write data ;! tlv_pop ;!
         tlv_push 113 ;! tlv_write_byte (u8 flags) ;! tlv_pop) (objs_bytes (cert_objs data flags)).
Proof.
  intros (Hb & Hm & Hf). unfold MAX_APDU_SIZE in Hm. pose proof (zlen_nonneg data).
  assert (zlen data < len_limit (zlen data + 3)) as Hl by (unfold len_limit; repeat case_match; lia).
  assert (objs_bytes (cert_objs data flags) = tlv_object 112 (zlen data + 3) data ++ tlv_object 113 127 [u8 flags]) as ->
    by (unfold objs_bytes, cert_objs; cbn [fmap list_fmap concat obj_bytes]; by rewrite app_nil_r).
  assert (4 <= zlen (tlv_object 112 (zlen data + 3) data ++ tlv_object 113 127 [u8 flags]) <= zlen data + 9) as Hz.
  { rewrite zlen_app. unfold tlv_object. rewrite !zlen_app, !zlen_len_field. change (len_extra 127) with 0.
    change (zlen (short_be 112)) with 1. change (zlen (short_be 113)) with 1. change (zlen [u8 flags]) with 1.
    unfold len_extra. repeat case_match; lia. }
  split_and!; [|lia|lia|].
  - unfold file_ok, MAX_APDU_SIZE. split_and!; [|lia|unfold zlen in *; lia].
    apply Forall_app; split; apply object_bytes; [done|done|apply one_limit|]. apply Forall_cons_2; [apply u8_byte|apply Forall_nil_2].
  - rewrite wrap_small by lia. apply emits_object_then; [lia|lia|done|apply emits_write|].
    unfold tlv_push. apply emits_object; [lia|lia|apply one_limit|].
    replace [u8 flags] with [u8 (u8 flags)]; [apply emits_write_byte|]. f_equal. apply wrap_small, wrap_range. lia.
Qed.
Lemma cert_tag_range slotid tag : cert_tag slotid = Some tag -> 0 <= tag < 2 ^ 32.
Proof.
  unfold cert_tag, PIV_TAG_CERT_9A, PIV_TAG_CERT_9C, PIV_TAG_CERT_9D, PIV_TAG_CERT_9E, PIV_TAG_CERT_82,
    PIV_SLOT_RETIRED_1, PIV_SLOT_RETIRED_20, PIV_SLOT_82, PIV_SLOT_95.
  intros H. repeat case_match; simplify_eq; lia.
Qed.

(** The card after a certificate was written. *)
Definition cert_stored (tag : Z) (data : list Z) (flags : Z) (s : file_state) : file_state :=
  Files (<[short_be tag := file_object (objs_bytes (cert_objs data flags))]> (fs_files s)) true.

Lemma write_cert_exec t s slotid tag data flags out0 sw0 :
  pt_intxn t = true -> fs_admin s = true -> cert_tag slotid = Some tag -> cert_fits data ->
  piv_write_cert fuel slotid data flags (W t (Ic s [] out0 sw0))
  = (Ok tt, W t (Ic (cert_stored tag data flags s) [] [] SW_NO_ERROR)).
Proof.
  intros Ht Ha Hg Hd. destruct (cert_file data flags Hd) as (Hfo & Hz & He). unfold piv_write_cert.
  rewrite (cbind_ok _ _ _ _ _ (in_txn_run (W t (Ic s [] out0 sw0)) Ht)), Hg.
  destruct Hd as (_ & Hm & _). unfold MAX_APDU_SIZE in Hm.
  rewrite (cbind_ok _ _ _ _ _ (tlv_build_ok _ _ _ He ltac:(unfold MAX_APDU_SIZE; lia))).
  rewrite (write_file_exec tr Htr fuel t s tag _ out0 sw0 Ht (cert_tag_range _ _ Hg) Hfo). by rewrite Ha.
Qed.

(** The slot as the certificate leaves it. *)
Definition cert_slot (slotid alg : Z) (cert : x509) (k : certkey) : piv_slot :=
  Slot slotid alg (Some cert) (Some (X509_subject cert)) (HasKey k).

Lemma upsert_upsert slotid f g ss : (forall s, ps_slot (f s) = slotid) ->
  upsert_slot slotid g (upsert_slot slotid f ss) = upsert_slot slotid (fun s => g (f s)) ss.
Proof.
  intros Hf. induction ss as [|s ss IH]; cbn; [by rewrite Hf, Z.eqb_refl|].
  destruct (ps_slot s =? slotid) eqn:E; cbn; [by rewrite Hf, Z.eqb_refl|]. by rewrite E, IH.
Qed.

Lemma store_cert_ok slotid cert k alg ts (t : piv_token) :
  X509_pubkey cert = Some (inr k) -> cert_alg k = Some alg ->
  (forall s, piv_get_slot t slotid = Some s -> ps_pubkey s <> FreedKey) ->
  store_cert slotid cert (ts, t) = (Ok tt, (ts, set_slots (upsert_slot slotid (fun _ => cert_slot slotid alg cert k) (pt_slots t)) t)).
Proof.
  intros Hk Ha Hs. unfold store_cert. rewrite (cbind_ok (cgets snd) _ (ts, t) t (ts, t) eq_refl).
  assert (exists old, match piv_get_slot t slotid with Some s => free_pubkey (ps_pubkey s) | None => cret NoKey end (ts, t)
            = (Ok old, (ts, t))) as (old & E).
  { destruct (piv_get_slot t slotid) as [s|]; [|by eexists]. specialize (Hs s eq_refl).
    destruct (ps_pubkey s); [by eexists..|done]. }
  rewrite (cbind_ok _ _ _ _ _ E). unfold upd_slot, tk. rewrite (cbind_ok (cmodify _) _ _ tt _ eq_refl), Hk.
  rewrite (cbind_ok (cmodify _) _ _ tt _ eq_refl), Ha. unfold cmodify. cbn [fst snd set_slots pt_slots].
  cbn [fst snd]. unfold set_slots. cbn [pt_slots pt_intxn pt_reset pt_chuid pt_algs pt_alg_count pt_hist pt_authinfo pt_yk].
  by rewrite !upsert_upsert.
Qed.

Lemma read_cert_exec t s slotid tag data flags der cert k alg out0 sw0 :
  pt_intxn t = true -> cert_tag slotid = Some tag -> cert_fits data ->
  cert_der (u8 flags) data = Ok der -> d2i_X509 der = Some cert ->
  X509_pubkey cert = Some (inr k) -> cert_alg k = Some alg ->
  (forall s, piv_get_slot t slotid = Some s -> ps_pubkey s <> FreedKey) ->
  piv_read_cert fuel slotid (W t (Ic (cert_stored tag data flags s) [] out0 sw0))
  = (Ok tt, W (set_slots (upsert_slot slotid (fun _ => cert_slot slotid alg cert k) (pt_slots t)) t)
              (Ic (cert_stored tag data flags s) [] [] SW_NO_ERROR)).
Proof.
  intros Ht Hg Hd Hder Hx Hk Hal Hs. unfold piv_read_cert.
  rewrite (cbind_ok _ _ _ _ _ (in_txn_run (W t (Ic _ [] out0 sw0)) Ht)), Hg.
  destruct (cert_file data flags Hd) as (Hfo & Hz & _). set (file := objs_bytes (cert_objs data flags)) in *.
  destruct (file_object_facts fuel file Hfo) as (Hb & Hfz & Hl).
  destruct Hd as (_ & Hm & Hf). unfold MAX_APDU_SIZE in Hm.
  destruct (get_data_exec tr Htr fuel t (cert_stored tag data flags s) tag (file_object file) SW_NO_ERROR out0 sw0 Ht
    (cert_tag_range _ _ Hg)) as (a & Ex & Ha).
  { unfold zlen in *. lia. }
  { unfold zlen in *. lia. }
  { unfold cert_stored. cbn [fs_files]. rewrite lookup_insert_eq. fold file. unfold MAX_APDU_SIZE. split_and!; try done. lia. }
  rewrite (cbind_ok _ _ _ _ _ Ex). pose proof Ha as [-> _]. change (sw_has_data SW_NO_ERROR) with true. cbv iota.
  destruct (answered_reader a _ _ Ha) as (_ & _ & _ & Hlen & _). rewrite Hlen, (proj2 (Z.ltb_ge _ _)) by lia.
  apply (parse_answered a (file_object file) SW_NO_ERROR); [done|].
  intros ts Hok Hst Hr.
  destruct (template_folds 83 (zlen file + 8) cert_member (cert_objs data flags) (0, []) (u8 flags, data) t ts) as (ts' & E & Hst');
    [apply cert_folds; lia|by split_and!|done|done|done|].
  exists ts'. split; [|done]. rewrite (cbind_ok _ _ _ _ _ E). cbv beta iota. rewrite Hder.
  rewrite (cbind_ok (lift (Ok der)) _ (ts', t) der (ts', t) eq_refl), Hx. by apply store_cert_ok.
Qed.
End Roundtrip.

(** C36: a certificate written to a slot with [piv_write_cert], compressed or not, is what
    [piv_read_cert] finds for the slot afterwards, in this or another handle: the slot holds the
    certificate, its subject, its key and the algorithm of the key, the other slots are as they were, and there
    still is at most one entry for each slot. The card is one that stores files for its administrator; the key of the certificate is of a type
    and size that PIV has; and the handle does not keep a freed key in the slot, as it does after a certificate that was refused ([cert_double_free]). *)
Theorem cert_roundtrip {X : Certs} (tr : transport) fuel (t t2 : piv_token) (s : file_state) slotid tag data flags
    der cert k alg (out0 : list Z) (sw0 : Z) :
  transport_ok tr -> pt_intxn t = true -> pt_intxn t2 = true -> fs_admin s = true ->
  cert_tag slotid = Some tag -> cert_fits fuel data ->
  cert_der (u8 flags) data = Ok der -> d2i_X509 der = Some cert ->
  X509_pubkey cert = Some (inr k) -> cert_alg k = Some alg ->
  (forall sl, piv_get_slot t2 slotid = Some sl -> ps_pubkey sl <> FreedKey) ->
  exists s', piv_write_cert (R := iso_reader (A := file_applet) tr) fuel slotid data flags
      (World (R := iso_reader (A := file_applet) tr) t (Iso (A := file_applet) s [] out0 sw0))
    = (Ok tt, World (R := iso_reader (A := file_applet) tr) t (Iso (A := file_applet) s' [] [] SW_NO_ERROR))
    /\ forall out1 sw1, exists t3, piv_read_cert (R := iso_reader (A := file_applet) tr) fuel slotid
         (World (R := iso_reader (A := file_applet) tr) t2 (Iso (A := file_applet) s' [] out1 sw1))
       = (Ok tt, World (R := iso_reader (A := file_applet) tr) t3 (Iso (A := file_applet) s' [] [] SW_NO_ERROR))
       /\ piv_get_slot t3 slotid = Some (cert_slot slotid alg cert k)
       /\ (forall other, other <> slotid -> piv_get_slot t3 other = piv_get_slot t2 other)
       /\ (slots_ok t2 -> slots_ok t3).
Proof.
  intros Htr Ht Ht2 Ha Hg Hd Hder Hx Hk Hal Hs. exists (cert_stored tag data flags s).
  split; [by apply write_cert_exec|]. intros out1 sw1. eexists. split; [by eapply read_cert_exec|].
  split_and!.
  - unfold piv_get_slot. cbn [pt_slots set_slots]. by rewrite find_upsert.
  - intros other Ho. unfold piv_get_slot. cbn [pt_slots set_slots]. by rewrite find_upsert_other.
  - intros H. unfold slots_ok. cbn [pt_slots set_slots]. by apply upsert_nodup.
Qed.

(** ** An instance *)

Module ToyCerts.
(** A certificate is its bytes; the first one says what kind of key it has. *)
#[export] Instance certs : Certs := {|
  x509 := list Z; certkey := Z * Z;
  d2i_X509 := fun d => match d with [] => None | _ => Some d end;
  X509_subject := fun c => drop 1 c;
  X509_pubkey := fun c => match c with
                          | 1 :: _ => Some (inr (KEY_ECDSA, 256))
                          | 2 :: _ => Some (inl (-4))
                          | _ => None
                          end;
  certkey_type := fst; certkey_size := snd;
  inflate := fun d n => match d with 31 :: r => if zlen r <? n then Some r else None | _ => None end
|}.
Definition token : piv_token (X := certs) := set_txn true false piv_token_calloc.
(** A token that has read a certificate for slot 9A. *)
Definition known : piv_token := set_slots [Slot (X := certs) PIV_SLOT_9A PIV_ALG_ECCP256 (Some [1]) (Some []) (HasKey (KEY_ECDSA, 256))] token.
(** A card that answers with a certificate of the given kind, twice. *)
Definition answers (kind : Z) : list (list Z) :=
  [[83; 6; 112; 1; kind; 113; 1; 0; 144; 0]; [83; 6; 112; 1; kind; 113; 1; 0; 144; 0]].
End ToyCerts.

Lemma cert_roundtrip_witness :
  let tr := Transport 256 false in
  let W := World (R := iso_reader (A := file_applet) tr) in
  exists s', piv_write_cert (R := iso_reader (A := file_applet) tr) 100 PIV_SLOT_9A [31; 1; 65; 66] 1
      (W ToyCerts.token (Iso (A := file_applet) (Files ∅ true) [] [] 0))
    = (Ok tt, W ToyCerts.token (Iso (A := file_applet) s' [] [] SW_NO_ERROR))
    /\ forall out1 sw1, exists t3, piv_read_cert (R := iso_reader (A := file_applet) tr) 100 PIV_SLOT_9A
         (W ToyCerts.known (Iso (A := file_applet) s' [] out1 sw1))
       = (Ok tt, W t3 (Iso (A := file_applet) s' [] [] SW_NO_ERROR))
       /\ piv_get_slot t3 PIV_SLOT_9A = Some (cert_slot (X := ToyCerts.certs) PIV_SLOT_9A PIV_ALG_ECCP256 [1; 65; 66] (KEY_ECDSA, 256))
       /\ (forall other, other <> PIV_SLOT_9A -> piv_get_slot t3 other = piv_get_slot ToyCerts.known other)
       /\ (slots_ok ToyCerts.known -> slots_ok t3).
Proof.
  apply (cert_roundtrip (X := ToyCerts.certs) (Transport 256 false) 100 ToyCerts.token ToyCerts.known (Files ∅ true) PIV_SLOT_9A PIV_TAG_CERT_9A [31; 1; 65; 66] 1
           [1; 65; 66] [1; 65; 66] (KEY_ECDSA, 256) PIV_ALG_ECCP256).
  - split; apply Z.leb_le; reflexivity.
  - reflexivity.
  - reflexivity.
  - reflexivity.
  - reflexivity.
  - split; [apply bytesb_spec; reflexivity|]. split; [apply Z.leb_le; reflexivity|]. apply Nat.ltb_lt. reflexivity.
  - reflexivity.
  - reflexivity.
  - reflexivity.
  - reflexivity.
  - intros sl [= <-]. discriminate.
Defined.

(** ** Behaviours that differ from what the code means to do *)

(** A certificate whose key [sshkey_from_evp_pkey] refuses leaves the slot with the key that was freed before; reading
    the slot again frees it a second time. *)
Lemma cert_double_free :
  let w := World (R := script_reader) ToyCerts.known (ToyCerts.answers 2) in
  let (r, w') := piv_read_cert 9 PIV_SLOT_9A w in
  r = Er (Err (invderrf (ssherrf (-4)))) /\ fst (piv_read_cert 9 PIV_SLOT_9A w') = Fault.
Proof. vm_compute. split; reflexivity. Qed.

(** A certificate whose key OpenSSL does not know stops the process. *)
Lemma cert_unknown_key_aborts :
  fst (piv_read_cert 9 PIV_SLOT_9A (World (R := script_reader) ToyCerts.token (ToyCerts.answers 3))) = Panic.
Proof. vm_compute. reflexivity. Qed.

(** A key history of more than 20 keys on the card, which [piv_read_keyhist] accepts, makes [piv_read_all_certs] fail: the slot after
    the last one is an argument error. *)
Lemma read_all_certs_21_keys :
  let t := set_hist (Hist 21 0 None) ToyCerts.token in
  fst (piv_read_all_certs 9 (World (R := script_reader) t (List.repeat [106; 130] 30))) = Er (Err argerrf).
Proof. vm_compute. reflexivity. Qed.
