(* ===== verification/PivKeys.v ===== *)
(** * Key operations of a card (piv.c)

    Authentication with the admin key, generation and import of keys, signatures and ECDH. The commands go through the
    exchange of [Apdu]; the ciphers are those of [Cipher], the digests those of [Hmac]. [KeyOps] and [EcOct]
    stand for the signature formats of libssh and OpenSSL, and for OpenSSL's uncompressed points. *)
From stdpp Require Import base list strings.
From Stdlib Require Import ZArith Lia.
From S2P Require Import Prelude Errf Sshbuf Algs Tlv PivBox PivToken Apdu PivPin PivFiles PivCert Cipher Hmac.

Local Open Scope string_scope.
Local Open Scope list_scope.
Local Open Scope Z_scope.
Local Open Scope c_scope.

Definition INS_IMPORT_ASYM : Z := 254.
Definition GA_TAG_EXP : Z := 133.
Definition PIV_ALG_ECCP256_SHA1 : Z := 240.
Definition PIV_ALG_ECCP256_SHA256 : Z := 241.
Definition PIV_ALG_ECCP384_SHA1 : Z := 242.
Definition PIV_ALG_ECCP384_SHA256 : Z := 243.
Definition PIV_ALG_ECCP384_SHA384 : Z := 244.
Definition SSH_DIGEST_SHA1 : Z := 2.
Definition SSH_DIGEST_SHA384 : Z := 4.
Definition SSH_DIGEST_SHA512 : Z := 5.
Definition YKPIV_PIN_DEFAULT : Z := 0.
Definition YKPIV_TOUCH_CACHED : Z := 3.

(** Signatures, and keys in certificates: [sshkey_equal_public], [sshkey_sig_from_asn1], [sshkey_verify] (0 or
    an SSH_ERR code), and the DER encoding of a DigestInfo, by the number of the digest. *)
Class KeyOps {X : Certs} := {
  certkey_equal : certkey -> certkey -> bool;
  sshkey_sig_from_asn1 : certkey -> Z -> list Z -> Z + list Z;
  sshkey_verify : certkey -> list Z -> list Z -> Z;
  i2d_X509_SIG : Z -> list Z -> list Z
}.
(** [EC_POINT_point2oct] in uncompressed form. *)
Class EcOct {C : Crypto} := { ec_point2oct_unc : Z -> point -> list Z }.

Section Keys.
Context {X : Certs} {R : Reader} {C : Crypto} {EV : Evp} {KO : KeyOps} {EO : EcOct}.
Context (fuel : nat).
Local Abbreviation P := (M stop world).
Local Abbreviation Q := (M errf_t pstate).

(** A command with data. *)
Definition send (ins p1 p2 : Z) (data : list Z) : P apdu :=
  onerr ioerrf (piv_apdu_transceive_chain fuel (with_cmd data (piv_apdu_make CLA_ISO ins p1 p2))).

(** ** The admin key *)

Definition chal_member (tag : Z) (chal : option (list Z)) : Q (option (list Z)) :=
  if tag =? GA_TAG_CHALLENGE then
    let! chal := tl tlv_read_alloc in
    tl tlv_end ;!
    cret (Some chal)
  else tl tlv_skip ;! cret chal.

(** What is encrypted for the card; a [VERIFY] guards both calls. [tmp] is the
    uninitialised memory of [cipher_crypt]. *)
Definition admin_response (tmp : nat -> list Z) (cipher : sshcipher) (key chal : list Z) : P (list Z) :=
  match crypt tmp cipher key (Some (zrepeat (cipher_ivlen cipher) 0)) true 0 chal (zlen chal) 0 0 with
  | Ok resp => cret resp
  | Fault => cfault
  | _ => cpanic
  end.

Definition piv_auth_admin (tmp : nat -> list Z) (key : list Z) : P unit :=
  in_txn ;!
  match cipher_by_name (zs "3des-cbc") with
  | None => cpanic
  | Some cipher =>
      verify (cipher_authlen cipher =? 0) ;!
      guard (cipher_keylen cipher =? zlen key) (Err argerrf) ;!
      let! data := tlv_build (tlv_push 124 ;! tlv_push GA_TAG_CHALLENGE ;! tlv_pop ;! tlv_pop) in
      let! a := send INS_GEN_AUTH PIV_ALG_3DES PIV_SLOT_ADMIN data in
      if a_sw a =? SW_INCORRECT_P1P2 then fails (notfounderrf swerrf)
      else if (a_sw a =? SW_WRONG_DATA) || (a_sw a =? SW_SECURITY_STATUS_NOT_SATISFIED) then fails (permerrf swerrf)
      else if negb (a_sw a =? SW_NO_ERROR) then fails (notsuperrf (Some swerrf))
      else
        let! chal := parse_reply a (template_fold 124 chal_member None) in
        match chal with
        | None => cpanic
        | Some chal =>
            guard (cipher_blocksize cipher =? zlen chal) (Err (invderrf (errf "LengthError" None))) ;!
            let! resp := admin_response tmp cipher key chal in
            let! data := tlv_build (tlv_push 124 ;! tlv_push GA_TAG_RESPONSE ;! tlv_write resp ;! tlv_pop ;! tlv_pop) in
            must_reset ;!
            let! a := send INS_GEN_AUTH PIV_ALG_3DES PIV_SLOT_ADMIN data in
            if a_sw a =? SW_NO_ERROR then cret tt
            else if a_sw a =? SW_INCORRECT_P1P2 then fails (notfounderrf swerrf)
            else if (a_sw a =? SW_WRONG_DATA) || (a_sw a =? SW_SECURITY_STATUS_NOT_SATISFIED) then fails (permerrf swerrf)
            else fails swerrf
        end
  end.

(** ** Generation *)

(** The key that is built from the reply; an EC key has no point until one is read. *)
Inductive gen_key :=
| GenRsa (n e : Z)
| GenEc (ecdsa_nid : Z) (pub : option point).

Definition gen_key_new (alg : Z) : option gen_key :=
  if (alg =? PIV_ALG_RSA1024) || (alg =? PIV_ALG_RSA2048) then Some (GenRsa 0 0)
  else if alg =? PIV_ALG_ECCP256 then Some (GenEc NID_X9_62_prime256v1 None)
  else if alg =? PIV_ALG_ECCP384 then Some (GenEc NID_secp384r1 None)
  else None.

Definition gen_member (tag : Z) (k : gen_key) : Q gen_key :=
  match k with
  | GenRsa n e =>
      if tag =? 129 then let! d := tl tlv_view in tl tlv_skip ;! cret (GenRsa (be_val d) e)
      else if tag =? 130 then let! d := tl tlv_view in tl tlv_skip ;! cret (GenRsa n (be_val d))
      else craise tagerrf
  | GenEc nid _ =>
      if tag =? 134 then
        let! d := tl tlv_view in
        match ec_oct2point nid d with
        | None => craise sslerrf
        | Some p =>
            guard (ec_validate nid p =? 0) (ssherrf (ec_validate nid p)) ;!
            tl tlv_skip ;!
            cret (GenEc nid (Some p))
        end
      else craise tagerrf
  end.

(** An algorithm that is not supported is found only now; the reader is given up and the error not wrapped. *)
Definition gen_reply (alg : Z) : Q (option gen_key) :=
  let! tag := tl tlv_read_tag in
  guard (tag =? 32585) tagerrf ;!
  match gen_key_new alg with
  | None => tl tlv_abort ;! cret None
  | Some k => let! k := members_fold gen_member k in cret (Some k)
  end.

Definition piv_generate_common (alg slotid : Z) (data : list Z) : P gen_key :=
  let! a := send INS_GEN_ASYM 0 slotid data in
  if sw_has_data (a_sw a) then
    let! k := parse_reply a (gen_reply alg) in
    match k with None => fails argerrf | Some k => cret k end
  else if a_sw a =? SW_SECURITY_STATUS_NOT_SATISFIED then fails (permerrf swerrf)
  else fails swerrf.

Definition piv_generate (slotid alg : Z) : P gen_key :=
  in_txn ;!
  let! data := tlv_build (tlv_push 172 ;! tlv_push 128 ;! tlv_write_u8to32 alg ;! tlv_pop ;! tlv_pop) in
  piv_generate_common alg slotid data.

(** An extra tag for a policy that is not the default. *)
Definition policy (tag v dflt : Z) : T unit :=
  if v =? dflt then cret tt else tlv_push tag ;! tlv_write_u8to32 v ;! tlv_pop.

Definition ykpiv_generate (slotid alg pinpolicy touchpolicy : Z) : P gen_key :=
  in_txn ;!
  let! w := cget in
  let yk := pt_yk (w_tok w) in
  guard (pt_ykpiv yk) (Err argerrf) ;!
  let! old := match pt_ykver yk with
              | v0 :: v1 :: _ => cret ((v0 <? 4) || ((v0 =? 4) && (v1 <? 3)))
              | _ => cfault
              end in
  guard (negb ((touchpolicy =? YKPIV_TOUCH_CACHED) && old)) (Err argerrf) ;!
  let! data := tlv_build (tlv_push 172 ;! tlv_push 128 ;! tlv_write_u8to32 alg ;! tlv_pop ;!
                          policy 170 pinpolicy YKPIV_PIN_DEFAULT ;!
                          policy 171 touchpolicy YKPIV_TOUCH_DEFAULT ;!
                          tlv_pop) in
  piv_generate_common alg slotid data.

(** ** Import *)

(** A private key: its size in bits and the numbers that are sent. *)
Inductive private_key :=
| RsaPriv (bits p q dmp1 dmq1 iqmp : Z)
| EcPriv (bits d : Z)
| OtherPriv.

Definition BN_num_bytes (v : Z) : Z := if v =? 0 then 0 else Z.log2 v / 8 + 1.
(** The buffer has room for [SSHBUF_MAX_BIGNUM] bytes. *)
Definition tlv_write_bignum (tag v : Z) : T unit :=
  let len := BN_num_bytes v in
  if SSHBUF_MAX_BIGNUM <? len then cfault
  else tlv_pushl tag len ;! tlv_write (be_bytes (Z.to_nat len) v) ;! tlv_pop.

Definition import_alg (k : private_key) : option Z :=
  match k with
  | RsaPriv bits _ _ _ _ _ =>
      if bits =? 1024 then Some PIV_ALG_RSA1024 else if bits =? 2048 then Some PIV_ALG_RSA2048 else None
  | EcPriv bits _ => if bits =? 256 then Some PIV_ALG_ECCP256 else if bits =? 384 then Some PIV_ALG_ECCP384 else None
  | OtherPriv => None
  end.
Definition import_data (k : private_key) : T unit :=
  match k with
  | RsaPriv _ p q dmp1 dmq1 iqmp =>
      tlv_write_bignum 1 p ;! tlv_write_bignum 2 q ;! tlv_write_bignum 3 dmp1 ;!
      tlv_write_bignum 4 dmq1 ;! tlv_write_bignum 5 iqmp
  | EcPriv _ d => tlv_write_bignum 6 d
  | OtherPriv => cret tt
  end.

(** The policies are arguments that the code does not look at. *)
Definition ykpiv_import (slotid : Z) (key : private_key) (pinpolicy touchpolicy : Z) : P unit :=
  in_txn ;!
  match import_alg key with
  | None => fails argerrf
  | Some alg =>
      let! data := tlv_build (import_data key) in
      let! a := send INS_IMPORT_ASYM alg slotid data in
      if a_sw a =? SW_NO_ERROR then cret tt
      else if a_sw a =? SW_OUT_OF_MEMORY then fails (errf "DeviceOutOfMemoryError" (Some swerrf))
      else if a_sw a =? SW_SECURITY_STATUS_NOT_SATISFIED then fails (permerrf swerrf)
      else if a_sw a =? SW_FUNC_NOT_SUPPORTED then fails (notsuperrf (Some swerrf))
      else fails swerrf
  end.

(** ** GENERAL AUTHENTICATE with a key of the card *)

(** An empty RESPONSE and the data the card is to work on. *)
Definition ga_data (tag : Z) (data : list Z) : T unit :=
  tlv_pushl 124 (usize (zlen data + 16)) ;!
  tlv_push GA_TAG_RESPONSE ;! tlv_pop ;!
  tlv_pushl tag (zlen data) ;! tlv_write data ;! tlv_pop ;!
  tlv_pop.
(** The RESPONSE in a template. *)
Definition ga_response : Q (list Z) :=
  let! tag := tl tlv_read_tag in
  guard (tag =? GA_TAG_RESPONSE) tagerrf ;!
  let! data := tl tlv_read_alloc in
  tl tlv_end ;!
  cret data.
Definition ga_reply : Q (list Z) :=
  let! tag := tl tlv_read_tag in
  guard (tag =? 124) tagerrf ;!
  let! data := ga_response in
  tl tlv_end ;!
  cret data.

(** ** Signatures *)

(** With the algorithm and the number of the slot. *)
Definition piv_sign_prehash (alg slotid : Z) (hash : list Z) : P (list Z) :=
  in_txn ;!
  let! data := tlv_build (ga_data GA_TAG_CHALLENGE hash) in
  let! a := send INS_GEN_AUTH alg slotid data in
  if sw_has_data (a_sw a) then parse_reply a ga_reply
  else if a_sw a =? SW_SECURITY_STATUS_NOT_SATISFIED then fails (permerrf swerrf)
  else if (a_sw a =? SW_WRONG_DATA) || (a_sw a =? SW_INCORRECT_P1P2) then fails (notsuperrf (Some swerrf))
  else fails swerrf.

(** What [piv_sign] settles before it hashes: the length of the input, the digest, its length, whether the card does the hashing
    and the algorithm the card is given. *)
Record sign_plan := SignPlan { sp_inplen : Z; sp_hash : Z; sp_dglen : Z; sp_cardhash : bool; sp_alg : Z }.

Definition has_alg (algs : list Z) (a : Z) : bool := existsb (Z.eqb a) algs.

Definition plan_p256 (algs : list Z) (hashalgo : Z) : sign_plan :=
  let ch_sha256 := has_alg algs PIV_ALG_ECCP256_SHA256 in
  let cardhash := ch_sha256 || has_alg algs PIV_ALG_ECCP256_SHA1 in
  if hashalgo =? SSH_DIGEST_SHA1 then
    SignPlan 32 hashalgo 20 cardhash (if cardhash then PIV_ALG_ECCP256_SHA1 else PIV_ALG_ECCP256)
  else if cardhash && ch_sha256 then SignPlan 32 SSH_DIGEST_SHA256 32 true PIV_ALG_ECCP256_SHA256
  else if cardhash then SignPlan 32 SSH_DIGEST_SHA1 20 true PIV_ALG_ECCP256_SHA1
  else SignPlan 32 SSH_DIGEST_SHA256 32 false PIV_ALG_ECCP256.

Definition plan_p384 (algs : list Z) (hashalgo : Z) : sign_plan :=
  let ch_sha384 := has_alg algs PIV_ALG_ECCP384_SHA384 in
  let ch_sha256 := has_alg algs PIV_ALG_ECCP384_SHA256 in
  let cardhash := ch_sha384 || ch_sha256 || has_alg algs PIV_ALG_ECCP384_SHA1 in
  if hashalgo =? SSH_DIGEST_SHA1 then
    SignPlan 48 hashalgo 20 cardhash (if cardhash then PIV_ALG_ECCP384_SHA1 else PIV_ALG_ECCP384)
  else if hashalgo =? SSH_DIGEST_SHA256 then
    if cardhash && ch_sha256 then SignPlan 48 hashalgo 32 true PIV_ALG_ECCP384_SHA256
    else if cardhash then SignPlan 48 SSH_DIGEST_SHA1 20 true PIV_ALG_ECCP384_SHA1
    else SignPlan 48 hashalgo 32 false PIV_ALG_ECCP384
  else if cardhash && ch_sha384 then SignPlan 48 SSH_DIGEST_SHA384 48 true PIV_ALG_ECCP384_SHA384
  else if cardhash && ch_sha256 then SignPlan 48 SSH_DIGEST_SHA256 32 true PIV_ALG_ECCP384_SHA256
  else if cardhash then SignPlan 48 SSH_DIGEST_SHA1 20 true PIV_ALG_ECCP384_SHA1
  else SignPlan 48 SSH_DIGEST_SHA384 48 false PIV_ALG_ECCP384.

(** [algs] are the algorithms the card advertises. *)
Definition sign_plan_of (algs : list Z) (alg hashalgo : Z) : option sign_plan :=
  if alg =? PIV_ALG_RSA1024 then
    Some (if hashalgo =? SSH_DIGEST_SHA1 then SignPlan 128 hashalgo 20 false alg
          else SignPlan 128 SSH_DIGEST_SHA256 32 false alg)
  else if alg =? PIV_ALG_RSA2048 then
    Some (if hashalgo =? SSH_DIGEST_SHA1 then SignPlan 256 hashalgo 20 false alg
          else if hashalgo =? SSH_DIGEST_SHA512 then SignPlan 256 hashalgo 64 false alg
          else SignPlan 256 SSH_DIGEST_SHA256 32 false alg)
  else if alg =? PIV_ALG_ECCP256 then Some (plan_p256 algs hashalgo)
  else if alg =? PIV_ALG_ECCP384 then Some (plan_p384 algs hashalgo)
  else None.

(** A write of [bs] at [i] in a buffer. *)
Definition buf_store (buf : list Z) (i : Z) (bs : list Z) : P (list Z) :=
  if (0 <=? i) && (i + zlen bs <=? zlen buf) then cret (zsplice buf i bs) else cfault.

(** The digest at the front of a zeroed buffer of [inplen] bytes. *)
Definition sign_digest (hash inplen dglen : Z) (data : list Z) : P (list Z) :=
  let! d := (match ssh_digest_start hash with
             | None => cpanic
             | Some hctx =>
                 match ssh_digest_update hctx data with
                 | Ok hctx => match ssh_digest_final hctx dglen with
                              | Ok (d, _) => cret d
                              | Fault => cfault
                              | _ => cpanic
                              end
                 | Fault => cfault
                 | _ => cpanic
                 end
             end) in
  buf_store (zrepeat inplen 0) 0 d.

(** The padding of PKCS #1 around the encoded digest, in place of it. *)
Definition rsa_pad (hash inplen dglen : Z) (buf : list Z) : P (list Z) :=
  verify ((hash =? SSH_DIGEST_SHA1) || (hash =? SSH_DIGEST_SHA256) || (hash =? SSH_DIGEST_SHA512)) ;!
  let out := i2d_X509_SIG hash (zslice buf 0 dglen) in
  let nread := zlen out in
  let! buf := buf_store (zrepeat inplen 255) 0 [0] in
  let! buf := buf_store buf 1 [1] in
  let! buf := buf_store buf (usize (inplen - nread - 1)) [0] in
  buf_store buf (usize (inplen - nread)) out.

Definition NotSupportedAlg : errf_t := notsuperrf None.

(** For the slot with the number [slotid] and the algorithm [alg]; the digest that was used is returned with the signature. The
    slot's algorithm is replaced for the call and put back. *)
Definition piv_sign (alg slotid hashalgo : Z) (data : list Z) : P (Z * list Z) :=
  in_txn ;!
  let! w := cget in
  let t := w_tok w in
  match sign_plan_of (take (Z.to_nat (pt_alg_count t)) (pt_algs t)) alg hashalgo with
  | None => fails NotSupportedAlg
  | Some p =>
      (if ((alg =? PIV_ALG_ECCP256) || (alg =? PIV_ALG_ECCP384)) && (zlen (pt_algs t) <? pt_alg_count t) then cfault else cret tt) ;!
      let! input := (if sp_cardhash p then cret data else sign_digest (sp_hash p) (sp_inplen p) (sp_dglen p) data) in
      let! input := (if (sp_alg p =? PIV_ALG_RSA1024) || (sp_alg p =? PIV_ALG_RSA2048)
                     then rsa_pad (sp_hash p) (sp_inplen p) (sp_dglen p) input else cret input) in
      let! sig := piv_sign_prehash (sp_alg p) slotid input in
      cret (sp_hash p, sig)
  end.

(** [chal] is the random challenge. *)
Definition piv_auth_key (slot : piv_slot) (pubkey : certkey) (chal : list Z) : P unit :=
  in_txn ;!
  let! same := match ps_pubkey slot with
               | NoKey => cret false
               | HasKey k => cret (certkey_equal pubkey k)
               | FreedKey => cfault
               end in
  guard same (Err (errf "KeyAuthError" (Some (errf "KeysNotEqualError" None)))) ;!
  let! (hashalg, sig) := piv_sign (ps_alg slot) (ps_slot slot) 0 chal in
  match sshkey_sig_from_asn1 pubkey hashalg sig with
  | inl rv => fails (notsuperrf (Some (ssherrf rv)))
  | inr b =>
      let rv := sshkey_verify pubkey b chal in
      guard (rv =? 0) (Err (errf "KeyAuthError" (Some (ssherrf rv))))
  end.

(** ** ECDH *)

Definition piv_ecdh (alg slotid : Z) (pubkey : sshkey) : P (list Z) :=
  in_txn ;!
  match pubkey with
  | OtherKey _ => cpanic
  | EcKey nid p _ =>
      let pt := ec_point2oct_unc nid p in
      verify (zlen pt <=? SSHBUF_MAX_ECPOINT) ;!
      match pt with
      | [] => cfault
      | b :: _ =>
          verify (b =? 4) ;!
          let! data := tlv_build (ga_data GA_TAG_EXP pt) in
          let! a := send INS_GEN_AUTH alg slotid data in
          if sw_has_data (a_sw a) then parse_reply a ga_reply
          else if a_sw a =? SW_SECURITY_STATUS_NOT_SATISFIED then fails (permerrf swerrf)
          else fails swerrf
      end
  end.

(** [piv_box_open] with the token: the box and the world side by side. *)
Definition of_box {A} (m : M errf_t piv_ecdh_box A) : M stop (piv_ecdh_box * world) A :=
  fun s => let '(r, b) := cmaperr Err m (fst s) in (r, (b, snd s)).
Definition of_world {A} (f : errf_t -> errf_t) (m : P A) : M stop (piv_ecdh_box * world) A :=
  fun s => let '(r, w) := onerr f m (snd s) in (r, (fst s, w)).

Definition piv_box_open_token (alg slotid : Z) : M stop (piv_ecdh_box * world) unit :=
  let! (cipher, dgalg) := of_box box_algs in
  let! s := cget in
  match pdb_ephem_pub (fst s) with
  | None => cpanic
  | Some ephem =>
      let! sec := of_world (fun e => errf "BoxKeyError" (Some e)) (piv_ecdh alg slotid ephem) in
      of_box (box_decrypt cipher dgalg sec)
  end.
End Keys.
