(* ===== verification/PivKeyCard.v ===== *)
(** * Key operations on a card that keeps keys (piv.c)

    [key_applet] is the part of a PIV card that SP 800-73-4 describes for keys: the admin key and its challenge, generation of
    EC keys for an authenticated administrator, ECDH and signatures for an authenticated user. Proved for such a card
    behind any conforming transport: [piv_auth_admin] authenticates with the right key and only with it;
    a box sealed to a key that [piv_generate] returned opens through the card; [piv_sign] returns the card's signature of
    what PKCS #1 and ECDSA say is to be signed. *)
From stdpp Require Import base list strings gmap.
From Stdlib Require Import ZArith Lia.
From S2P Require Import Prelude Errf Sshbuf Algs Tlv PivBox PivToken Apdu ApduChain PivPin PivFiles PivParse PivStore PivObjects.
From S2P Require Import PivCert Cipher Hmac PivKeys.

Local Open Scope string_scope.
Local Open Scope list_scope.
Local Open Scope Z_scope.
Local Open Scope c_scope.

(** ** BER as the card reads it *)

Definition ber_len (bs : list Z) : option (Z * list Z) :=
  match bs with
  | [] => None
  | n :: r =>
      if n <? 128 then Some (n, r)
      else if n =? 129 then match r with m :: r => Some (m, r) | [] => None end
      else if n =? 130 then match r with h :: l :: r => Some (256 * h + l, r) | _ => None end
      else None
  end.
(** Tag, value and what follows. *)
Definition ber (bs : list Z) : option (Z * list Z * list Z) :=
  match bs with
  | [] => None
  | tag :: r =>
      match ber_len r with
      | Some (n, r) => if n <=? zlen r then Some (tag, take (Z.to_nat n) r, drop (Z.to_nat n) r) else None
      | None => None
      end
  end.
(** One object and nothing else. *)
Definition ber_only (tag : Z) (bs : list Z) : option (list Z) :=
  match ber bs with
  | Some (t, v, []) => if t =? tag then Some v else None
  | _ => None
  end.

Lemma ber_object tag ml body rest : short_be tag = [tag] -> ml < 2 ^ 16 -> zlen body < len_limit ml ->
  ber (tlv_object tag ml body ++ rest) = Some (tag, body, rest).
Proof.
  intros Ht Hm Hl. unfold tlv_object. rewrite Ht, <- !app_assoc. cbn [Datatypes.app ber].
  assert (ber_len (len_field ml (zlen body) ++ body ++ rest) = Some (zlen body, body ++ rest)) as ->.
  { pose proof (zlen_nonneg body). unfold len_field, len_limit in *.
    destruct (Z.ltb_spec ml (2 ^ 7)); [cbn; by rewrite (proj2 (Z.ltb_lt _ _)) by lia|].
    destruct (Z.ltb_spec ml (2 ^ 8)); [done|]. rewrite (proj2 (Z.ltb_lt _ _)) in * by lia.
    cbn. rewrite (Z.mod_small (zlen body / 256)) by (split; [apply Z.div_pos; lia|apply Z.div_lt_upper_bound; lia]).
    by rewrite <- Z.div_mod by lia. }
  rewrite zlen_app. pose proof (zlen_nonneg rest). rewrite (proj2 (Z.leb_le _ _)) by lia.
  assert (Z.to_nat (zlen body) = length body) as -> by (unfold zlen; lia).
  by rewrite take_app_length, drop_app_length.
Qed.
Lemma ber_only_object tag ml body : short_be tag = [tag] -> ml < 2 ^ 16 -> zlen body < len_limit ml ->
  ber_only tag (tlv_object tag ml body) = Some body.
Proof.
  intros Ht Hm Hl. unfold ber_only. rewrite <- (app_nil_r (tlv_object _ _ _)), ber_object by done. by rewrite Z.eqb_refl.
Qed.

(** ** The card *)

(** The card's signature with a key, by algorithm. *)
Class CardSigns {C : Crypto} := { card_sign : Z -> scalar -> list Z -> list Z }.

Section Card.
Context {C : Crypto} {EV : Evp} {EO : EcOct} {CS : CardSigns}.

(** [ks_chals] are the challenges the card draws, [ks_fresh] the private keys it generates. *)
Record key_state := KeyCard {
  ks_admin_key : list Z;
  ks_chals : list (list Z);
  ks_pending : option (list Z);
  ks_admin : bool;
  ks_user : bool;
  ks_keys : gmap Z (Z * scalar);
  ks_fresh : list scalar
}.
Definition set_admin (s : key_state) (chals : list (list Z)) (pending : option (list Z)) (admin : bool) : key_state :=
  KeyCard (ks_admin_key s) chals pending admin (ks_user s) (ks_keys s) (ks_fresh s).
Definition add_key (s : key_state) (slot alg : Z) (d : scalar) (fresh : list scalar) : key_state :=
  KeyCard (ks_admin_key s) (ks_chals s) (ks_pending s) (ks_admin s) (ks_user s) (<[slot := (alg, d)]> (ks_keys s)) fresh.

Definition des : sshcipher := Cipher (zs "3des-cbc") SSH_CIPHER_SSH2 8 24 0 0 0 1.
(** A challenge encrypted under an admin key. *)
Definition admin_answer (key chal : list Z) : list Z := evp_seal des key (zrepeat 8 0) [] 0 chal.

(** An object as short as its contents allow. *)
Definition short_object (tag : Z) (v : list Z) : list Z := tlv_object tag (zlen v) v.
Definition ga_object (tag : Z) (v : list Z) : list Z := short_object 124 (short_object tag v).

Definition answer_sw (sw : Z) (s : key_state) : (list Z * Z) * key_state := (([], sw), s).

Definition admin_exec (body : list Z) (s : key_state) : (list Z * Z) * key_state :=
  match ber_only GA_TAG_CHALLENGE body, ber_only GA_TAG_RESPONSE body with
  | Some [], _ =>
      match ks_chals s with
      | c :: r => ((ga_object GA_TAG_CHALLENGE c, SW_NO_ERROR), set_admin s r (Some c) (ks_admin s))
      | [] => answer_sw SW_CONDITIONS_NOT_SATISFIED s
      end
  | _, Some resp =>
      match ks_pending s with
      | Some c =>
          if bool_decide (resp = admin_answer (ks_admin_key s) c)
          then answer_sw SW_NO_ERROR (set_admin s (ks_chals s) None true)
          else answer_sw SW_SECURITY_STATUS_NOT_SATISFIED (set_admin s (ks_chals s) None (ks_admin s))
      | None => answer_sw SW_CONDITIONS_NOT_SATISFIED s
      end
  | _, _ => answer_sw SW_WRONG_DATA s
  end.

Definition alg_nid (alg : Z) : option Z :=
  if alg =? PIV_ALG_ECCP256 then Some NID_X9_62_prime256v1
  else if alg =? PIV_ALG_ECCP384 then Some NID_secp384r1 else None.
(** The key an algorithm works with: those that hash on the card use an EC key too. *)
Definition alg_base (alg : Z) : Z :=
  if (alg =? PIV_ALG_ECCP256_SHA1) || (alg =? PIV_ALG_ECCP256_SHA256) then PIV_ALG_ECCP256
  else if (alg =? PIV_ALG_ECCP384_SHA1) || (alg =? PIV_ALG_ECCP384_SHA256) || (alg =? PIV_ALG_ECCP384_SHA384) then PIV_ALG_ECCP384
  else alg.

(** The secret shared with a point. *)
Definition card_ecdh (alg : Z) (d : scalar) (pt : list Z) : option (list Z) :=
  match alg_nid alg with
  | Some nid => match ec_oct2point nid pt with Some p => ec_dh nid d p | None => None end
  | None => None
  end.

Definition use_exec (alg slot : Z) (body : list Z) (s : key_state) : (list Z * Z) * key_state :=
  match ks_keys s !! slot with
  | None => answer_sw SW_INCORRECT_P1P2 s
  | Some (kalg, d) =>
      if negb (kalg =? alg_base alg) then answer_sw SW_INCORRECT_P1P2 s
      else if negb (ks_user s) then answer_sw SW_SECURITY_STATUS_NOT_SATISFIED s
      else match ber body with
           | Some (tag, [], rest) =>
               if tag =? GA_TAG_RESPONSE then
                 match ber_only GA_TAG_EXP rest, ber_only GA_TAG_CHALLENGE rest with
                 | Some pt, _ =>
                     match card_ecdh alg d pt with
                     | Some sec => ((ga_object GA_TAG_RESPONSE sec, SW_NO_ERROR), s)
                     | None => answer_sw SW_WRONG_DATA s
                     end
                 | _, Some input => ((ga_object GA_TAG_RESPONSE (card_sign alg d input), SW_NO_ERROR), s)
                 | _, _ => answer_sw SW_WRONG_DATA s
                 end
               else answer_sw SW_WRONG_DATA s
           | _ => answer_sw SW_WRONG_DATA s
           end
  end.

Definition gen_exec (slot : Z) (body : list Z) (s : key_state) : (list Z * Z) * key_state :=
  if negb (ks_admin s) then answer_sw SW_SECURITY_STATUS_NOT_SATISFIED s
  else match ber_only 128 body with
       | Some [alg] =>
           match alg_nid alg, ks_fresh s with
           | Some nid, d :: fresh =>
               ((tlv_object 32585 255 (short_object 134 (ec_point2oct_unc nid (ec_pub nid d))), SW_NO_ERROR), add_key s slot alg d fresh)
           | _, _ => answer_sw SW_WRONG_DATA s
           end
       | _ => answer_sw SW_WRONG_DATA s
       end.

Definition key_exec (cla ins p1 p2 : Z) (data : list Z) (s : key_state) : (list Z * Z) * key_state :=
  if ins =? INS_GEN_AUTH then
    match ber_only 124 data with
    | Some body => if p2 =? PIV_SLOT_ADMIN then admin_exec body s else use_exec p1 p2 body s
    | None => answer_sw SW_WRONG_DATA s
    end
  else if ins =? INS_GEN_ASYM then
    match ber_only 172 data with
    | Some body => gen_exec p2 body s
    | None => answer_sw SW_WRONG_DATA s
    end
  else answer_sw SW_INS_NOT_SUP s.

#[global] Instance key_applet : Applet := {|
  app := key_state;
  app_exec := key_exec;
  app_reset := fun s => KeyCard (ks_admin_key s) (ks_chals s) None false false (ks_keys s) (ks_fresh s)
|}.
End Card.

(** What is relied on of OpenSSL's points and secrets, and of the card's signatures. A [point] is one of the curve other than the point at infinity, which
    [sshkey_ec_validate_public] refuses and which would be encoded without the leading 04. *)
Class EcOctLaws {C : Crypto} (EO : EcOct) := {
  unc_round : forall nid p, ec_oct2point nid (ec_point2oct_unc nid p) = Some p;
  unc_bytes : forall nid p, bytes (ec_point2oct_unc nid p);
  unc_form : forall nid p, exists r, ec_point2oct_unc nid p = 4 :: r;
  unc_len : forall nid p, zlen (ec_point2oct_unc nid p) <= SSHBUF_MAX_ECPOINT;
  dh_secret : forall nid d p sec, ec_dh nid d p = Some sec -> bytes sec /\ zlen sec <= 66
}.
Class CardSignsLaws {C : Crypto} (CS : CardSigns) := {
  sign_bytes : forall alg d m, bytes (card_sign alg d m) /\ zlen (card_sign alg d m) <= 512
}.

Lemma hint_limit (n ml : Z) : n <= ml -> n < 2 ^ 16 -> n < len_limit ml.
Proof. unfold len_limit. repeat case_match; lia. Qed.

Lemma zlen_object tag ml v : short_be tag = [tag] -> zlen v + 2 <= zlen (tlv_object tag ml v) <= zlen v + 5.
Proof. intros Ht. unfold tlv_object. rewrite !zlen_app, zlen_len_field, Ht. change (zlen [tag]) with 1. unfold len_extra. repeat case_match; lia. Qed.

Lemma object_ne tag ml v : short_be tag = [tag] -> tlv_object tag ml v <> [].
Proof. intros Ht E. pose proof (zlen_object tag ml v Ht). rewrite E, zlen_nil in *. pose proof (zlen_nonneg v). lia. Qed.

Lemma short_object_bytes tag v : bytes v -> zlen v < 2 ^ 16 -> bytes (short_object tag v).
Proof. intros Hb Hl. apply object_bytes; [|done]. by apply hint_limit. Qed.

Lemma ga_object_facts tag v : short_be tag = [tag] -> bytes v -> zlen v <= 1000 ->
  bytes (ga_object tag v) /\ zlen v + 4 <= zlen (ga_object tag v) <= zlen v + 10.
Proof.
  intros Ht Hb Hl. unfold ga_object. pose proof (zlen_object tag (zlen v) v Ht) as Hz. fold (short_object tag v) in Hz.
  pose proof (zlen_object 124 (zlen (short_object tag v)) (short_object tag v) eq_refl) as Hz2. fold (short_object 124 (short_object tag v)) in Hz2.
  split; [|lia]. apply short_object_bytes; [apply short_object_bytes; [done|lia]|lia].
Qed.

Section Exec.
Context {X : Certs} {C : Crypto} {EV : Evp} {EO : EcOct} {CS : CardSigns} {KO : KeyOps}.
Context (tr : transport) (Htr : transport_ok tr) (fuel : nat).
Local Abbreviation W := (World (R := iso_reader (A := key_applet) tr)).
Local Abbreviation Ic := (Iso (A := key_applet)).

(** A command to the card and its answer. *)
Lemma send_exec t s s' ins p1 p2 data reply sw out0 sw0 :
  pt_intxn t = true -> ins = INS_GEN_AUTH \/ ins = INS_GEN_ASYM -> is_byte p1 -> is_byte p2 ->
  data <> [] -> zlen data < 2 ^ 63 -> key_exec CLA_ISO ins p1 p2 data s = ((reply, sw), s') -> final_sw sw -> bytes reply ->
  zlen reply + 2 <= MAX_APDU_SIZE -> (length data + 1 < fuel)%nat -> (length reply + 1 < fuel)%nat ->
  exists a', send (R := iso_reader (A := key_applet) tr) fuel ins p1 p2 data (W t (Ic s [] out0 sw0))
             = (Ok a', W t (Ic s' [] [] sw)) /\ answered a' reply sw.
Proof.
  intros Ht Hi Hp1 Hp2 Hne Hd He Hsw Hb Hm Hf1 Hf2. unfold send. rewrite <- command_cons by done.
  destruct (chain_exec (A := key_applet) tr Htr t ins p1 p2 data s s' reply sw Ht Hsw Hm Hb He) with (fuel := fuel)
    (out0 := out0) (sw0 := sw0) as (a' & Hx & Ha); try done; try (destruct Hi as [-> | ->]; done).
  exists a'. split; [by apply onerr_ok|done].
Qed.

Lemma final_no_error : final_sw SW_NO_ERROR.
Proof. unfold final_sw. split_and!; vm_compute; congruence. Qed.
Lemma final_security : final_sw SW_SECURITY_STATUS_NOT_SATISFIED.
Proof. unfold final_sw. split_and!; vm_compute; congruence. Qed.

(** ** Reading the answers *)

Lemma read_one ts t tag v : short_be tag = [tag] -> tag_wf [tag] = true -> 0 <= tag < 2 ^ 32 -> reader_ok ts -> ts_stack ts = [] ->
  zlen v < 2 ^ 16 -> tlv_rest ts = ga_object tag v ->
  exists ts1 ts2, tl (X := X) tlv_read_tag (ts, t) = (Ok 124, (ts1, t)) /\ tl (X := X) tlv_read_tag (ts1, t) = (Ok tag, (ts2, t)) /\
    reader_ok ts2 /\ tlv_rest ts2 = v /\
    exists ts3, tl (X := X) tlv_end (advance ts2 (zlen v), t) = (Ok tt, (ts3, t)) /\
      exists ts4, tl (X := X) tlv_end (ts3, t) = (Ok tt, (ts4, t)) /\ ts_stack ts4 = [].
Proof.
  intros Ht Hwf Hr Hok Hst Hl Hrest. pose proof (zlen_object tag (zlen v) v Ht) as Hz. fold (short_object tag v) in Hz.
  unfold ga_object in Hrest. unfold short_object at 1 in Hrest.
  assert (zlen (short_object tag v) < len_limit (zlen (short_object tag v))) as Hl1.
  { unfold len_limit. repeat case_match; lia. }
  rewrite <- (app_nil_r (tlv_object 124 _ _)) in Hrest.
  destruct (read_tag_enters ts 124 _ _ [] Hok ltac:(lia) eq_refl Hl1 Hrest) as (ts1 & E1 & En1 & Hp1).
  pose proof En1 as (Hok1 & Hr1 & _). unfold short_object in Hr1. rewrite <- (app_nil_r (tlv_object tag _ _)) in Hr1.
  destruct (read_tag_enters ts1 tag (zlen v) v [] Hok1 Hr ltac:(by rewrite Ht) (hint_limit (zlen v) (zlen v) (Z.le_refl _) Hl) Hr1) as (ts2 & E2 & En2 & Hp2).
  pose proof En2 as (Hok2 & Hr2 & _).
  exists ts1, ts2. split; [by apply tl_run|]. split; [by apply tl_run|]. split; [done|]. split; [done|].
  eexists. split; [apply tl_run; exact (end_leaves _ _ _ _ _ En2 Hp2)|].
  eexists. split; [apply tl_run; exact (end_leaves _ _ _ _ _ En1 Hp1)|]. exact Hst.
Qed.

Lemma ga_reply_ok ts (t : piv_token) v : reader_ok ts -> ts_stack ts = [] -> zlen v < 2 ^ 16 -> tlv_rest ts = ga_object GA_TAG_RESPONSE v ->
  exists ts', ga_reply (ts, t) = (Ok v, (ts', t)) /\ ts_stack ts' = [].
Proof.
  intros Hok Hst Hl Hr. destruct (read_one ts t GA_TAG_RESPONSE v eq_refl eq_refl ltac:(unfold GA_TAG_RESPONSE; lia) Hok Hst Hl Hr)
    as (ts1 & ts2 & E1 & E2 & Hok2 & Hr2 & ts3 & E3 & ts4 & E4 & Hst4).
  assert (ga_response (ts1, t) = (Ok v, (ts3, t))) as Ei.
  { unfold ga_response. rewrite (cbind_ok _ _ _ _ _ E2), Z.eqb_refl. cbn [guard]. rewrite cbind_ret_l.
    rewrite (cbind_ok _ _ _ _ _ (tl_run _ _ t _ _ (decodes_read_alloc v ts2 Hok2 Hr2))).
    by rewrite (cbind_ok _ _ _ _ _ E3). }
  exists ts4. split; [|done]. unfold ga_reply. rewrite (cbind_ok _ _ _ _ _ E1). cbn [guard Z.eqb Pos.eqb]. rewrite cbind_ret_l.
  by rewrite (cbind_ok _ _ _ _ _ Ei), (cbind_ok _ _ _ _ _ E4).
Qed.

Lemma chal_reply_ok ts (t : piv_token) v : reader_ok ts -> ts_stack ts = [] -> zlen v <= 1000 -> tlv_rest ts = ga_object GA_TAG_CHALLENGE v ->
  exists ts', template_fold 124 chal_member None (ts, t) = (Ok (Some v), (ts', t)) /\ ts_stack ts' = [].
Proof.
  intros Hok Hst Hl Hr. pose proof (zlen_object GA_TAG_CHALLENGE (zlen v) v eq_refl) as Hz.
  set (o := (GA_TAG_CHALLENGE, zlen v, v) : object).
  assert (short_object GA_TAG_CHALLENGE v = objs_bytes [o]) as Hb
    by (unfold objs_bytes; cbn [fmap list_fmap concat obj_bytes o]; by rewrite app_nil_r).
  assert (obj_ok o) as Ho by (split_and!; [done|done|done|apply hint_limit; lia]).
  apply (template_folds 124 (zlen (objs_bytes [o])) chal_member [o]); try done.
  - apply (folds_cons _ o [] None (Some v)); [done| |apply folds_nil].
    intros ts0 ts1 rest t0 He Hp. exact (fold_value tlv_read_alloc Some v v _ _ _ _ t0 (decodes_read_alloc v) He Hp).
  - split_and!; [lia|lia|done|]. apply hint_limit; [lia|]. rewrite <- Hb. unfold short_object. lia.
  - rewrite <- Hb. exact Hr.
Qed.

(** ** The admin key *)

Lemma des_by_name : cipher_by_name (zs "3des-cbc") = Some des.
Proof. vm_compute. reflexivity. Qed.

Lemma emits_nested tag tag2 m bs : 0 <= tag < 2 ^ 32 -> 0 <= tag2 < 2 ^ 32 -> zlen bs < 100 -> zlen (short_be tag2) = 1 -> emits m bs ->
  emits (tlv_push tag ;! tlv_push tag2 ;! m ;! tlv_pop ;! tlv_pop) (tlv_object tag 127 (tlv_object tag2 127 bs)).
Proof.
  intros Ht Ht2 Hl H1 He. unfold tlv_push.
  apply (emits_ext _ (tlv_pushl tag 127 ;! (tlv_pushl tag2 127 ;! m ;! tlv_pop) ;! tlv_pop)).
  - intros ts. unfold cbind. destruct (tlv_pushl tag 127 ts) as [[] ts1]; try done.
    destruct (tlv_pushl tag2 127 ts1) as [[] ts2]; try done. by destruct (m ts2) as [[] ?].
  - apply emits_object; [done|lia| |apply emits_object; [done|lia| |done]].
    + unfold tlv_object. rewrite !zlen_app, zlen_len_field, H1. change (len_limit 127) with 128. change (len_extra 127) with 0. lia.
    + change (len_limit 127) with 128. lia.
Qed.

Lemma emits_empty tag tag2 : 0 <= tag < 2 ^ 32 -> 0 <= tag2 < 2 ^ 32 -> zlen (short_be tag2) = 1 ->
  emits (tlv_push tag ;! tlv_push tag2 ;! tlv_pop ;! tlv_pop) (tlv_object tag 127 (tlv_object tag2 127 [])).
Proof.
  intros Ht Ht2 H1. apply (emits_ext _ (tlv_push tag ;! tlv_push tag2 ;! cret tt ;! tlv_pop ;! tlv_pop)); [done|].
  apply emits_nested; [done|done|done|done|apply emits_ret].
Qed.

Context {EL : EvpLaws EV}.

Lemma admin_response_ok tmp (w : world) key chal : zlen key = 24 -> zlen chal = 8 ->
  admin_response (R := iso_reader (A := key_applet) tr) tmp des key chal w = (Ok (admin_answer key chal), w).
Proof.
  intros Hk Hc. unfold admin_response, crypt, cipher_init.
  change (cipher_keylen des) with 24. change (cipher_ivlen des) with 8. change (is_chachapoly des) with false.
  rewrite Hk. change (zlen (zrepeat 8 0)) with 8. cbn [Z.ltb Z.compare Pos.compare Pos.compare_cont orb].
  unfold cipher_crypt. cbn [cc_cipher cc_encrypt cc_key cc_iv]. change (is_chachapoly des) with false. cbn [Z.eqb negb andb].
  rewrite Hc. change (8 mod cipher_blocksize des =? 0) with true. cbn [negb]. rewrite !zslice_0.
  change (take (Z.to_nat 0) chal) with (@nil Z). cbn [Datatypes.app default].
  rewrite take_ge by (unfold zlen in Hc; lia). reflexivity.
Qed.

Lemma admin_args key chal : bytes key -> zlen key = 24 -> bytes chal -> zlen chal = 8 -> cipher_args des key (zrepeat 8 0) chal.
Proof. intros Hk Hl Hc Hcl. split_and!; [split; [done|by rewrite Hl]|done|done|by rewrite Hcl]. Qed.

Lemma admin_answer_facts key chal : bytes key -> zlen key = 24 -> bytes chal -> zlen chal = 8 ->
  bytes (admin_answer key chal) /\ zlen (admin_answer key chal) = 8.
Proof.
  intros Hk Hl Hc Hcl. pose proof (admin_args key chal Hk Hl Hc Hcl) as Ha. unfold admin_answer. split.
  - apply (evp_bytes des key (zrepeat 8 0) [] chal eq_refl Ha).
  - pose proof (evp_len des key (zrepeat 8 0) [] chal eq_refl Ha) as E. change (cipher_authlen des) with 0 in E. lia.
Qed.

Lemma admin_ask s c r : ks_chals s = c :: r ->
  key_exec CLA_ISO INS_GEN_AUTH PIV_ALG_3DES PIV_SLOT_ADMIN (tlv_object 124 127 (tlv_object GA_TAG_CHALLENGE 127 [])) s
  = ((ga_object GA_TAG_CHALLENGE c, SW_NO_ERROR), set_admin s r (Some c) (ks_admin s)).
Proof.
  intros Hc. unfold key_exec. change (INS_GEN_AUTH =? INS_GEN_AUTH) with true. cbv iota.
  rewrite ber_only_object by done. change (PIV_SLOT_ADMIN =? PIV_SLOT_ADMIN) with true. cbv iota.
  unfold admin_exec. rewrite ber_only_object by done. by rewrite Hc.
Qed.

Lemma admin_reply s c resp : ks_pending s = Some c -> zlen resp = 8 ->
  key_exec CLA_ISO INS_GEN_AUTH PIV_ALG_3DES PIV_SLOT_ADMIN (tlv_object 124 127 (tlv_object GA_TAG_RESPONSE 127 resp)) s
  = if bool_decide (resp = admin_answer (ks_admin_key s) c)
    then answer_sw SW_NO_ERROR (set_admin s (ks_chals s) None true)
    else answer_sw SW_SECURITY_STATUS_NOT_SATISFIED (set_admin s (ks_chals s) None (ks_admin s)).
Proof.
  intros Hc Hl. unfold key_exec. change (INS_GEN_AUTH =? INS_GEN_AUTH) with true. cbv iota.
  assert (zlen resp < len_limit 127) as H1 by (rewrite Hl; done).
  rewrite ber_only_object; [|done|done|]; cycle 1.
  { pose proof (zlen_object GA_TAG_RESPONSE 127 resp eq_refl) as Hz. rewrite Hl in Hz. change (len_limit 127) with 128. lia. }
  change (PIV_SLOT_ADMIN =? PIV_SLOT_ADMIN) with true. cbv iota. unfold admin_exec.
  unfold ber_only at 1. rewrite <- (app_nil_r (tlv_object _ _ _)), ber_object by done. cbn [Z.eqb Pos.eqb].
  change (GA_TAG_RESPONSE =? GA_TAG_CHALLENGE) with false. cbv iota.
  rewrite app_nil_r, ber_only_object by done. by rewrite Hc.
Qed.

Lemma ask_len : zlen (tlv_object 124 127 (tlv_object GA_TAG_CHALLENGE 127 [])) = 4.
Proof. vm_compute. reflexivity. Qed.
Lemma ask_fits : zlen (tlv_object 124 127 (tlv_object GA_TAG_CHALLENGE 127 [])) <= MAX_APDU_SIZE.
Proof. rewrite ask_len. unfold MAX_APDU_SIZE. lia. Qed.
Lemma des_byte : is_byte PIV_ALG_3DES.
Proof. unfold is_byte, PIV_ALG_3DES. lia. Qed.
Lemma slot_byte : is_byte PIV_SLOT_ADMIN.
Proof. unfold is_byte, PIV_SLOT_ADMIN, PIV_SLOT_9B. lia. Qed.
Lemma nil_fits : zlen (@nil Z) + 2 <= MAX_APDU_SIZE.
Proof. apply Z.leb_le. reflexivity. Qed.

Lemma auth_admin_exec tmp t s key c r out0 sw0 : pt_intxn t = true -> (40 <= fuel)%nat -> bytes key -> zlen key = 24 ->
  ks_chals s = c :: r -> bytes c -> zlen c = 8 ->
  piv_auth_admin (R := iso_reader (A := key_applet) tr) fuel tmp key (W t (Ic s [] out0 sw0)) =
    if bool_decide (admin_answer key c = admin_answer (ks_admin_key s) c)
    then (Ok tt, W (set_txn true true t) (Ic (set_admin s r None true) [] [] SW_NO_ERROR))
    else (Er (Err (permerrf swerrf)), W (set_txn true true t) (Ic (set_admin s r None (ks_admin s)) [] [] SW_SECURITY_STATUS_NOT_SATISFIED)).
Proof.
  intros Ht Hf Hk Hkl Hcs Hc Hcl. unfold piv_auth_admin.
  rewrite (cbind_ok _ _ _ _ _ (in_txn_run (W t (Ic s [] out0 sw0)) Ht)), des_by_name.
  change (cipher_authlen des =? 0) with true. cbn [verify]. rewrite cbind_ret_l, Hkl.
  change (cipher_keylen des =? 24) with true. cbn [guard]. rewrite cbind_ret_l.
  rewrite (cbind_ok _ _ _ _ _ (tlv_build_ok _ _ _ (emits_empty 124 GA_TAG_CHALLENGE ltac:(lia) ltac:(unfold GA_TAG_CHALLENGE; lia) eq_refl) ask_fits)).
  destruct (ga_object_facts GA_TAG_CHALLENGE c eq_refl Hc ltac:(lia)) as [Hgb Hgz].
  pose proof ask_len as Hask.
  destruct (send_exec t s _ INS_GEN_AUTH PIV_ALG_3DES PIV_SLOT_ADMIN _ _ _ out0 sw0 Ht (or_introl eq_refl) des_byte slot_byte
    (object_ne 124 127 (tlv_object GA_TAG_CHALLENGE 127 []) eq_refl) ltac:(lia) (admin_ask s c r Hcs) final_no_error Hgb) as (a & E1 & Ha).
  { unfold MAX_APDU_SIZE. lia. }
  { unfold zlen in *. lia. }
  { unfold zlen in *. lia. }
  rewrite (cbind_ok _ _ _ _ _ E1). pose proof Ha as [-> _]. cbn [Z.eqb].
  change (SW_NO_ERROR =? SW_INCORRECT_P1P2) with false. change (SW_NO_ERROR =? SW_WRONG_DATA) with false.
  change (SW_NO_ERROR =? SW_SECURITY_STATUS_NOT_SATISFIED) with false. change (SW_NO_ERROR =? SW_NO_ERROR) with true. cbn [orb negb].
  erewrite cbind_ok; [|apply (parse_answered a (ga_object GA_TAG_CHALLENGE c) SW_NO_ERROR); [exact Ha|];
    intros ts Hok Hst Hr; apply (chal_reply_ok ts _ c); [done|done|lia|done]].
  cbv iota beta. rewrite Hcl. change (cipher_blocksize des =? 8) with true. cbn [guard]. rewrite cbind_ret_l.
  rewrite (cbind_ok _ _ _ _ _ (admin_response_ok _ _ key c Hkl Hcl)).
  destruct (admin_answer_facts key c Hk Hkl Hc Hcl) as [Hab Hal].
  assert (zlen (tlv_object 124 127 (tlv_object GA_TAG_RESPONSE 127 (admin_answer key c))) <= 20) as Hz.
  { pose proof (zlen_object 124 127 (tlv_object GA_TAG_RESPONSE 127 (admin_answer key c)) eq_refl).
    pose proof (zlen_object GA_TAG_RESPONSE 127 (admin_answer key c) eq_refl). lia. }
  assert (emits (tlv_push 124 ;! tlv_push GA_TAG_RESPONSE ;! tlv_write (admin_answer key c) ;! tlv_pop ;! tlv_pop)
            (tlv_object 124 127 (tlv_object GA_TAG_RESPONSE 127 (admin_answer key c)))) as He.
  { apply emits_nested; [lia|unfold GA_TAG_RESPONSE; lia|lia|done|apply emits_write]. }
  assert (zlen (tlv_object 124 127 (tlv_object GA_TAG_RESPONSE 127 (admin_answer key c))) <= MAX_APDU_SIZE) as Hzm by (unfold MAX_APDU_SIZE; lia).
  assert (zlen (tlv_object 124 127 (tlv_object GA_TAG_RESPONSE 127 (admin_answer key c))) < 2 ^ 63) as Hz63 by lia.
  rewrite (cbind_ok _ _ _ _ _ (tlv_build_ok _ _ _ He Hzm)).
  unfold must_reset, upd_tok. rewrite (cbind_ok (cmodify _) _ _ tt _ eq_refl). cbn [w_tok w_card]. rewrite Ht.
  set (s1 := set_admin s r (Some c) (ks_admin s)).
  pose proof (admin_reply s1 c (admin_answer key c) eq_refl Hal) as Hx. cbn [s1 ks_admin_key set_admin ks_chals ks_admin] in Hx.
  destruct (bool_decide (admin_answer key c = admin_answer (ks_admin_key s) c)).
  - destruct (send_exec (set_txn true true t) s1 _ INS_GEN_AUTH PIV_ALG_3DES PIV_SLOT_ADMIN _ _ _ [] SW_NO_ERROR eq_refl (or_introl eq_refl) des_byte slot_byte
      (object_ne 124 127 (tlv_object GA_TAG_RESPONSE 127 (admin_answer key c)) eq_refl) Hz63 Hx final_no_error (Forall_nil_2 _) nil_fits) as (a2 & E2 & Ha2 & _);
      [unfold zlen in *; lia|cbn; lia|]. by rewrite (cbind_ok _ _ _ _ _ E2), Ha2.
  - destruct (send_exec (set_txn true true t) s1 _ INS_GEN_AUTH PIV_ALG_3DES PIV_SLOT_ADMIN _ _ _ [] SW_NO_ERROR eq_refl (or_introl eq_refl) des_byte slot_byte
      (object_ne 124 127 (tlv_object GA_TAG_RESPONSE 127 (admin_answer key c)) eq_refl) Hz63 Hx final_security (Forall_nil_2 _) nil_fits) as (a2 & E2 & Ha2 & _);
      [unfold zlen in *; lia|cbn; lia|]. by rewrite (cbind_ok _ _ _ _ _ E2), Ha2.
Qed.

(** ** Using a key *)

Definition ga_request (tag : Z) (v : list Z) : list Z :=
  tlv_object 124 (zlen v + 16) (tlv_object GA_TAG_RESPONSE 127 [] ++ tlv_object tag (zlen v) v).

Lemma ga_request_len tag v : short_be tag = [tag] -> zlen v + 6 <= zlen (ga_request tag v) <= zlen v + 14.
Proof.
  intros Ht. unfold ga_request. set (body := _ ++ _). pose proof (zlen_object 124 (zlen v + 16) body eq_refl) as H1.
  assert (zlen body = 2 + zlen (tlv_object tag (zlen v) v)) as H2 by (unfold body; rewrite zlen_app; done).
  pose proof (zlen_object tag (zlen v) v Ht). lia.
Qed.

Lemma ga_emits tag v : short_be tag = [tag] -> 0 <= tag < 2 ^ 32 -> zlen v <= 16000 -> emits (ga_data tag v) (ga_request tag v).
Proof.
  intros Hs Ht Hl. pose proof (zlen_nonneg v). unfold ga_data, ga_request, tlv_push. rewrite wrap_small by lia.
  apply (emits_ext _ (tlv_pushl 124 (zlen v + 16) ;!
    ((tlv_pushl GA_TAG_RESPONSE 127 ;! cret tt ;! tlv_pop) ;! (tlv_pushl tag (zlen v) ;! tlv_write v ;! tlv_pop)) ;! tlv_pop)).
  - intros ts. unfold cbind, cret. destruct (tlv_pushl 124 _ ts) as [[] ts1]; try done.
    destruct (tlv_pushl GA_TAG_RESPONSE 127 ts1) as [[] ts2]; try done. destruct (tlv_pop ts2) as [[] ts3]; try done.
    destruct (tlv_pushl tag (zlen v) ts3) as [[] ts4]; try done. by destruct (tlv_write v ts4) as [[] ?].
  - apply emits_object; [lia|lia| |apply emits_seq; apply emits_object; [done|lia|done|apply emits_ret|done|lia|apply hint_limit; lia|apply emits_write]].
    rewrite zlen_app. change (zlen (tlv_object GA_TAG_RESPONSE 127 [])) with 2. pose proof (zlen_object tag (zlen v) v Hs).
    apply hint_limit; lia.
Qed.

Lemma use_request alg slot tag v s : slot <> PIV_SLOT_ADMIN -> zlen v <= 16000 ->
  key_exec CLA_ISO INS_GEN_AUTH alg slot (ga_request tag v) s
  = use_exec alg slot (tlv_object GA_TAG_RESPONSE 127 [] ++ tlv_object tag (zlen v) v) s.
Proof.
  intros Hs Hl. unfold key_exec. change (INS_GEN_AUTH =? INS_GEN_AUTH) with true. cbv iota.
  unfold ga_request. rewrite ber_only_object; [by rewrite (proj2 (Z.eqb_neq _ _) Hs)|done|lia|].
  rewrite zlen_app. change (zlen (tlv_object GA_TAG_RESPONSE 127 [])) with 2. unfold tlv_object. rewrite !zlen_app, zlen_len_field.
  pose proof (zlen_short_be tag). pose proof (zlen_nonneg v). unfold len_extra. repeat case_match; apply hint_limit; lia.
Qed.

(** What the card does with a request for a slot that holds a key of the right kind. *)
Definition used (alg : Z) (d : scalar) (tag : Z) (v : list Z) : option (list Z) :=
  if tag =? GA_TAG_EXP then card_ecdh alg d v else Some (card_sign alg d v).

Lemma use_known alg slot d tag v s : ks_keys s !! slot = Some (alg_base alg, d) -> tag = GA_TAG_EXP \/ tag = GA_TAG_CHALLENGE -> zlen v <= 16000 ->
  use_exec alg slot (tlv_object GA_TAG_RESPONSE 127 [] ++ tlv_object tag (zlen v) v) s
  = if ks_user s
    then match used alg d tag v with
         | Some out => ((ga_object GA_TAG_RESPONSE out, SW_NO_ERROR), s)
         | None => answer_sw SW_WRONG_DATA s
         end
    else answer_sw SW_SECURITY_STATUS_NOT_SATISFIED s.
Proof.
  intros Hk Htag Hl. unfold use_exec. rewrite Hk, Z.eqb_refl. cbn [negb]. destruct (ks_user s); [|done]. cbn [negb].
  rewrite ber_object by done. rewrite Z.eqb_refl.
  assert (zlen v < len_limit (zlen v)) as Hv by (apply hint_limit; lia).
  destruct Htag as [-> | ->].
  - by rewrite ber_only_object by (done || lia).
  - unfold ber_only at 1. rewrite <- (app_nil_r (tlv_object GA_TAG_CHALLENGE _ _)), ber_object by (done || lia).
    change (GA_TAG_CHALLENGE =? GA_TAG_EXP) with false. cbv iota. rewrite app_nil_r, ber_only_object by (done || lia). done.
Qed.

(** The request and the parsed answer, or the refusal. *)
Lemma use_exec_run alg slot d tag v out s t out0 sw0 :
  pt_intxn t = true -> is_byte alg -> is_byte slot -> slot <> PIV_SLOT_ADMIN ->
  ks_keys s !! slot = Some (alg_base alg, d) -> tag = GA_TAG_EXP \/ tag = GA_TAG_CHALLENGE -> short_be tag = [tag] ->
  zlen v <= 16000 -> used alg d tag v = Some out -> bytes out -> zlen out <= 1000 ->
  (length v + 30 < fuel)%nat -> (length out + 30 < fuel)%nat ->
  exists a, send (R := iso_reader (A := key_applet) tr) fuel INS_GEN_AUTH alg slot (ga_request tag v) (W t (Ic s [] out0 sw0))
    = (Ok a, W t (Ic s [] [] (if ks_user s then SW_NO_ERROR else SW_SECURITY_STATUS_NOT_SATISFIED))) /\
    a_sw a = (if ks_user s then SW_NO_ERROR else SW_SECURITY_STATUS_NOT_SATISFIED) /\
    (ks_user s = true -> parse_reply a ga_reply (W t (Ic s [] [] SW_NO_ERROR)) = (Ok out, W t (Ic s [] [] SW_NO_ERROR))).
Proof.
  intros Ht Hab Hsb Hsl Hk Htag Hst Hl Hu Hob Hol Hf1 Hf2.
  pose proof (ga_request_len tag v Hst) as Hz. pose proof (zlen_nonneg v).
  pose proof (use_request alg slot tag v s Hsl Hl) as Hx. rewrite (use_known alg slot d tag v s Hk Htag Hl), Hu in Hx.
  assert (ga_request tag v <> []) as Hne by (intros E; rewrite E, zlen_nil in Hz; lia).
  destruct (ks_user s).
  - destruct (ga_object_facts GA_TAG_RESPONSE out eq_refl Hob Hol) as [Hgb Hgz].
    destruct (send_exec t s s INS_GEN_AUTH alg slot _ _ _ out0 sw0 Ht (or_introl eq_refl) Hab Hsb Hne ltac:(lia) Hx final_no_error Hgb)
      as (a & E & Ha); [unfold MAX_APDU_SIZE; lia|unfold zlen in *; lia|unfold zlen in *; lia|].
    exists a. split; [done|]. split; [apply Ha|]. intros _.
    apply (parse_answered a (ga_object GA_TAG_RESPONSE out) SW_NO_ERROR); [done|].
    intros ts Hok Hs0 Hr. apply (ga_reply_ok ts t out); [done|done|lia|done].
  - destruct (send_exec t s s INS_GEN_AUTH alg slot _ _ _ out0 sw0 Ht (or_introl eq_refl) Hab Hsb Hne ltac:(lia) Hx final_security (Forall_nil_2 _) nil_fits)
      as (a & E & Ha); [unfold zlen in *; lia|cbn; lia|].
    exists a. split; [done|]. split; [apply Ha|done].
Qed.

Context {OL : EcOctLaws EO}.

Lemma alg_nid_cases alg nid : alg_nid alg = Some nid ->
  (alg = PIV_ALG_ECCP256 /\ nid = NID_X9_62_prime256v1) \/ (alg = PIV_ALG_ECCP384 /\ nid = NID_secp384r1).
Proof.
  unfold alg_nid. destruct (Z.eqb_spec alg PIV_ALG_ECCP256); [intros [= <-]; by left|].
  destruct (Z.eqb_spec alg PIV_ALG_ECCP384); [intros [= <-]; by right|done].
Qed.

Lemma ecdh_exec alg slot nid d p pv sec s t out0 sw0 :
  pt_intxn t = true -> is_byte slot -> slot <> PIV_SLOT_ADMIN -> (200 <= fuel)%nat ->
  ks_keys s !! slot = Some (alg, d) -> alg_nid alg = Some nid -> ec_dh nid d p = Some sec ->
  piv_ecdh (R := iso_reader (A := key_applet) tr) fuel alg slot (EcKey nid p pv) (W t (Ic s [] out0 sw0))
  = if ks_user s then (Ok sec, W t (Ic s [] [] SW_NO_ERROR))
    else (Er (Err (permerrf swerrf)), W t (Ic s [] [] SW_SECURITY_STATUS_NOT_SATISFIED)).
Proof.
  intros Ht Hsb Hsl Hf Hk Hn Hdh. destruct (dh_secret _ _ _ _ Hdh) as [Hb Hl].
  pose proof (unc_bytes nid p) as Hpb. pose proof (unc_len nid p) as Hpl. destruct (unc_form nid p) as (r & Hr).
  assert (SSHBUF_MAX_ECPOINT = 133) as Hmax by reflexivity.
  assert (is_byte alg /\ alg_base alg = alg) as [Hab Hba].
  { destruct (alg_nid_cases alg nid Hn) as [[-> _]|[-> _]]; split; [by vm_compute|done|by vm_compute|done]. }
  unfold piv_ecdh. rewrite (cbind_ok _ _ _ _ _ (in_txn_run (W t (Ic s [] out0 sw0)) Ht)).
  rewrite (proj2 (Z.leb_le _ _) Hpl). cbn [verify]. rewrite cbind_ret_l, Hr. cbn [Z.eqb Pos.eqb verify]. rewrite cbind_ret_l, <- Hr.
  pose proof (ga_request_len GA_TAG_EXP (ec_point2oct_unc nid p) eq_refl) as Hz.
  assert (emits (ga_data GA_TAG_EXP (ec_point2oct_unc nid p)) (ga_request GA_TAG_EXP (ec_point2oct_unc nid p))) as He.
  { apply ga_emits; [done|unfold GA_TAG_EXP; lia|lia]. }
  assert (zlen (ga_request GA_TAG_EXP (ec_point2oct_unc nid p)) <= MAX_APDU_SIZE) as Hzm by (unfold MAX_APDU_SIZE; lia).
  rewrite (cbind_ok _ _ _ _ _ (tlv_build_ok _ _ _ He Hzm)).
  destruct (use_exec_run alg slot d GA_TAG_EXP (ec_point2oct_unc nid p) sec s t out0 sw0 Ht Hab Hsb Hsl) as (a & E & Hsw & Hp);
    [by rewrite Hba|by left|done|lia| |done|lia|unfold zlen in *; lia|unfold zlen in *; lia|].
  { unfold used, card_ecdh. by rewrite Hn, unc_round. }
  rewrite (cbind_ok _ _ _ _ _ E), Hsw. destruct (ks_user s); [|done]. change (sw_has_data SW_NO_ERROR) with true. cbv iota. by apply Hp.
Qed.

(** A box opens with what [piv_ecdh] answers. *)
Lemma open_token_ok {R : Reader} alg slot b ephem sec (w w' : world) b' : pdb_ephem_pub b = Some ephem ->
  piv_ecdh fuel alg slot ephem w = (Ok sec, w') -> piv_box_open (fun _ => Ok sec) b = (Ok tt, b') ->
  piv_box_open_token fuel alg slot (b, w) = (Ok tt, (b', w')).
Proof.
  intros He Hs Ho. unfold piv_box_open in Ho. apply cbind_inv in Ho as ([c dg] & b1 & Ha & Ho).
  apply cbind_inv in Ho as (b2 & b3 & [= <- <-] & Ho).
  assert (b1 = b) as ->.
  { clear -Ha. unfold box_algs in Ha. unfold cbind, cget, verify, guard, cret, craise, cpanic in Ha. repeat case_match; naive_solver. }
  rewrite He in Ho. unfold lift in Ho. unfold cbind in Ho.
  unfold piv_box_open_token, cbind at 1, of_box at 1, cmaperr. cbn [fst snd]. rewrite Ha. cbv beta iota. cbn [fst].
  unfold cbind at 1, cget. cbn [fst]. rewrite He. unfold cbind at 1, of_world. cbn [snd fst].
  rewrite (onerr_ok _ _ _ _ _ Hs). unfold of_box, cmaperr. cbn [fst snd]. by rewrite Ho.
Qed.
Lemma open_token_refused {R : Reader} alg slot b ephem e sec (w w' : world) b' : pdb_ephem_pub b = Some ephem ->
  piv_ecdh fuel alg slot ephem w = (Er (Err e), w') -> piv_box_open (fun _ => Ok sec) b = (Ok tt, b') ->
  piv_box_open_token fuel alg slot (b, w) = (Er (Err (errf "BoxKeyError" (Some e))), (b, w')).
Proof.
  intros He Hs Ho. unfold piv_box_open in Ho. apply cbind_inv in Ho as ([c dg] & b1 & Ha & Ho).
  assert (b1 = b) as ->.
  { clear -Ha. unfold box_algs in Ha. unfold cbind, cget, verify, guard, cret, craise, cpanic in Ha. repeat case_match; naive_solver. }
  unfold piv_box_open_token, cbind at 1, of_box at 1, cmaperr. cbn [fst snd]. rewrite Ha. cbv beta iota. cbn [fst].
  unfold cbind at 1, cget. cbn [fst]. rewrite He. unfold cbind at 1, of_world, onerr, cmaperr. cbn [snd fst]. by rewrite Hs.
Qed.

(** ** Generation *)

Definition gen_request (alg : Z) : list Z := tlv_object 172 127 (tlv_object 128 127 (short_be alg)).
Definition gen_answer (nid : Z) (p : point) : list Z := tlv_object 32585 255 (short_object 134 (ec_point2oct_unc nid p)).

Lemma generate_exec alg nid slot d fresh s t out0 sw0 :
  pt_intxn t = true -> is_byte slot -> (200 <= fuel)%nat -> alg_nid alg = Some nid ->
  ks_admin s = true -> ks_fresh s = d :: fresh -> ec_validate nid (ec_pub nid d) = 0 ->
  piv_generate (R := iso_reader (A := key_applet) tr) fuel slot alg (W t (Ic s [] out0 sw0))
  = (Ok (GenEc nid (Some (ec_pub nid d))), W t (Ic (add_key s slot alg d fresh) [] [] SW_NO_ERROR)).
Proof.
  intros Ht Hsb Hf Hn Ha Hfr Hv. pose proof (unc_bytes nid (ec_pub nid d)) as Hpb. pose proof (unc_len nid (ec_pub nid d)) as Hpl.
  assert (SSHBUF_MAX_ECPOINT = 133) as Hmax by reflexivity.
  assert (short_be alg = [alg] /\ 0 <= alg < 256 /\ gen_key_new alg = Some (GenEc nid None)) as (Hsa & Hra & Hnew).
  { destruct (alg_nid_cases alg nid Hn) as [[-> ->]|[-> ->]]; split_and!; done. }
  unfold piv_generate. rewrite (cbind_ok _ _ _ _ _ (in_txn_run (W t (Ic s [] out0 sw0)) Ht)).
  assert (zlen (gen_request alg) = 5) as Hzr by (unfold gen_request, tlv_object; rewrite Hsa; done).
  assert (emits (tlv_push 172 ;! tlv_push 128 ;! tlv_write_u8to32 alg ;! tlv_pop ;! tlv_pop) (gen_request alg)) as He.
  { apply emits_nested; [lia|lia|rewrite Hsa; done|done|]. apply emits_write_u8to32. lia. }
  assert (zlen (gen_request alg) <= MAX_APDU_SIZE) as Hzm by (unfold MAX_APDU_SIZE; lia).
  rewrite (cbind_ok _ _ _ _ _ (tlv_build_ok _ _ _ He Hzm)).
  pose proof (zlen_object 134 (zlen (ec_point2oct_unc nid (ec_pub nid d))) (ec_point2oct_unc nid (ec_pub nid d)) eq_refl) as Hzo.
  fold (short_object 134 (ec_point2oct_unc nid (ec_pub nid d))) in Hzo. set (o := short_object 134 _) in *.
  assert (bytes (gen_answer nid (ec_pub nid d)) /\ zlen (gen_answer nid (ec_pub nid d)) = zlen o + 4) as [Hgb Hgz].
  { unfold gen_answer. fold o. split.
    - apply object_bytes; [change (len_limit 255) with 256; lia|]. apply short_object_bytes; [done|lia].
    - unfold tlv_object. rewrite !zlen_app, zlen_len_field. change (zlen (short_be 32585)) with 2. change (len_extra 255) with 1. lia. }
  assert (key_exec CLA_ISO INS_GEN_ASYM 0 slot (gen_request alg) s = ((gen_answer nid (ec_pub nid d), SW_NO_ERROR), add_key s slot alg d fresh)) as Hx.
  { unfold key_exec. change (INS_GEN_ASYM =? INS_GEN_AUTH) with false. change (INS_GEN_ASYM =? INS_GEN_ASYM) with true. cbv iota.
    unfold gen_request. rewrite ber_only_object; [|done|done|by rewrite Hsa]. unfold gen_exec. rewrite Ha. cbn [negb].
    rewrite ber_only_object; [|done|done|by rewrite Hsa]. by rewrite Hsa, Hn, Hfr. }
  unfold piv_generate_common.
  destruct (send_exec t s _ INS_GEN_ASYM 0 slot (gen_request alg) _ _ out0 sw0 Ht (or_intror eq_refl) ltac:(unfold is_byte; lia) Hsb
    ltac:(intros E0; rewrite E0, zlen_nil in Hzr; lia) ltac:(lia) Hx final_no_error Hgb) as (a & E & Ha1);
    [unfold MAX_APDU_SIZE; lia|unfold zlen in *; lia|unfold zlen in *; lia|].
  rewrite (cbind_ok _ _ _ _ _ E). pose proof Ha1 as [-> _]. change (sw_has_data SW_NO_ERROR) with true. cbv iota.
  erewrite cbind_ok; [|apply (parse_answered a (gen_answer nid (ec_pub nid d)) SW_NO_ERROR _ (Some (GenEc nid (Some (ec_pub nid d)))) t t); [exact Ha1|]];
    [reflexivity|].
  intros ts Hok Hst Hr. unfold gen_answer in Hr. fold o in Hr. rewrite <- (app_nil_r (tlv_object _ _ _)) in Hr.
  destruct (read_tag_enters ts 32585 255 o [] Hok ltac:(lia) eq_refl ltac:(change (len_limit 255) with 256; lia) Hr) as (ts1 & E1 & En & Hp).
  set (ob := (134, zlen (ec_point2oct_unc nid (ec_pub nid d)), ec_point2oct_unc nid (ec_pub nid d)) : object).
  assert (o = objs_bytes [ob]) as Hob by (unfold objs_bytes; cbn [fmap list_fmap concat obj_bytes ob]; by rewrite app_nil_r).
  rewrite Hob in En, Hp.
  assert (folds gen_member [ob] (GenEc nid None) (GenEc nid (Some (ec_pub nid d)))) as Hfold.
  { apply (folds_cons _ ob [] _ (GenEc nid (Some (ec_pub nid d)))); [|clear -Hv OL|apply folds_nil].
    - split_and!; [lia|lia|done|apply hint_limit; lia].
    - intros ts0 ts2 rest t0 Hent Hpos. unfold gen_member. change (134 =? 134) with true. cbv iota.
      pose proof Hent as (Hok2 & Hr2 & _). rewrite (cbind_ok _ _ _ _ _ (tl_run _ _ t0 _ _ (view_ok ts2 Hok2))), Hr2, unc_round, Hv.
      cbn [Z.eqb guard]. rewrite cbind_ret_l. by rewrite (cbind_ok _ _ _ _ _ (tl_run _ _ t0 _ _ (skip_leaves _ _ _ _ _ Hent Hpos))). }
  eexists. split; [|shelve]. unfold gen_reply. rewrite (cbind_ok _ _ _ _ _ (tl_run _ _ t _ _ E1)). change (32585 =? 32585) with true.
  cbn [guard]. rewrite cbind_ret_l, Hnew. rewrite (cbind_ok _ _ _ _ _ (members_folds _ _ _ _ t _ _ _ _ Hfold En Hp)). reflexivity.
  Unshelve. exact Hst.
Qed.
End Exec.

(** ** What is signed *)

(** EMSA-PKCS1-v1_5 (RFC 8017, section 9.2): [k] bytes around the encoded digest. *)
Definition emsa_pkcs1 (k : Z) (T : list Z) : list Z := 0 :: 1 :: zrepeat (k - zlen T - 3) 255 ++ 0 :: T.

Definition is_rsa (alg : Z) : bool := (alg =? PIV_ALG_RSA1024) || (alg =? PIV_ALG_RSA2048).

(** The data itself where the card hashes; the encoded digest for RSA; the digest and zeros up to the size of the curve for ECDSA. *)
Definition signed_input {X : Certs} {C : Crypto} {KO : KeyOps} (p : sign_plan) (data : list Z) : list Z :=
  let dg := digest (sp_hash p) data in
  if sp_cardhash p then data
  else if is_rsa (sp_alg p) then emsa_pkcs1 (sp_inplen p) (i2d_X509_SIG (sp_hash p) dg)
  else dg ++ zrepeat (sp_inplen p - zlen dg) 0.

(** *** How a signature is to be made, for a type of key, a digest that is asked for and the algorithms a card lists *)

(** The identifier under which a card hashes itself. *)
Definition card_hash_id (alg hash : Z) : option Z :=
  if alg =? PIV_ALG_ECCP256 then
    if hash =? SSH_DIGEST_SHA1 then Some PIV_ALG_ECCP256_SHA1
    else if hash =? SSH_DIGEST_SHA256 then Some PIV_ALG_ECCP256_SHA256 else None
  else if alg =? PIV_ALG_ECCP384 then
    if hash =? SSH_DIGEST_SHA1 then Some PIV_ALG_ECCP384_SHA1
    else if hash =? SSH_DIGEST_SHA256 then Some PIV_ALG_ECCP384_SHA256
    else if hash =? SSH_DIGEST_SHA384 then Some PIV_ALG_ECCP384_SHA384 else None
  else None.
Definition card_lists (algs : list Z) (alg hash : Z) : bool :=
  match card_hash_id alg hash with Some a => bool_decide (a ∈ algs) | None => false end.

(** The digests that can stand for the one asked for, the best one first. *)
Definition preferred (alg hashalgo : Z) : list Z :=
  if hashalgo =? SSH_DIGEST_SHA1 then [SSH_DIGEST_SHA1]
  else if alg =? PIV_ALG_RSA1024 then [SSH_DIGEST_SHA256]
  else if alg =? PIV_ALG_RSA2048 then [if hashalgo =? SSH_DIGEST_SHA512 then SSH_DIGEST_SHA512 else SSH_DIGEST_SHA256]
  else if (alg =? PIV_ALG_ECCP256) || (hashalgo =? SSH_DIGEST_SHA256) then [SSH_DIGEST_SHA256; SSH_DIGEST_SHA1]
  else [SSH_DIGEST_SHA384; SSH_DIGEST_SHA256; SSH_DIGEST_SHA1].
Definition key_size (alg : Z) : option Z :=
  if alg =? PIV_ALG_RSA1024 then Some 128 else if alg =? PIV_ALG_RSA2048 then Some 256
  else if alg =? PIV_ALG_ECCP256 then Some 32 else if alg =? PIV_ALG_ECCP384 then Some 48 else None.

(** The digest, the identifier the card is given, and what it is given to sign. A card that hashes for this type of key does so with the first of the
    preferred digests that it lists; for other cards the host makes the first of them. No answer for what piv.c gets wrong: a card that hashes but lists none
    of the preferred digests ([unlisted_alg_used]), and an ECDSA digest shorter than the curve ([short_digest_shifted]). *)
Definition sign_spec {X : Certs} {C : Crypto} {KO : KeyOps} (algs : list Z) (alg hashalgo : Z) (data : list Z) : option (Z * Z * list Z) :=
  match key_size alg with
  | None => None
  | Some size =>
      if existsb (card_lists algs alg) [SSH_DIGEST_SHA1; SSH_DIGEST_SHA256; SSH_DIGEST_SHA384] then
        match List.find (card_lists algs alg) (preferred alg hashalgo) with
        | Some h => match card_hash_id alg h with Some a => Some (h, a, data) | None => None end
        | None => None
        end
      else
        match preferred alg hashalgo with
        | h :: _ =>
            if is_rsa alg then Some (h, alg, emsa_pkcs1 size (i2d_X509_SIG h (digest h data)))
            else if ssh_digest_bytes h =? size then Some (h, alg, digest h data) else None
        | [] => None
        end
  end.

Lemma has_alg_elem algs a : has_alg algs a = bool_decide (a ∈ algs).
Proof.
  unfold has_alg. apply eq_true_iff_eq. rewrite existsb_exists, bool_decide_eq_true. split.
  - intros (x & Hx & ->%Z.eqb_eq). by apply list_elem_of_In.
  - intros H%list_elem_of_In. exists a. split; [done|apply Z.eqb_refl].
Qed.

(** piv.c makes it so. *)
Lemma sign_spec_plan {X : Certs} {C : Crypto} {L : CryptoLaws C} {KO : KeyOps} algs alg hashalgo data h a input :
  sign_spec algs alg hashalgo data = Some (h, a, input) ->
  exists p, sign_plan_of algs alg hashalgo = Some p /\ sp_hash p = h /\ sp_alg p = a /\ signed_input p data = input.
Proof.
  assert (forall k dg, zlen dg = k -> dg ++ zrepeat (k - zlen dg) 0 = dg) as Hfull.
  { intros k dg <-. rewrite Z.sub_diag. apply app_nil_r. }
  unfold sign_spec, key_size, sign_plan_of, plan_p256, plan_p384, signed_input, preferred. rewrite !has_alg_elem. cbn [existsb List.find].
  destruct (Z.eqb_spec alg PIV_ALG_RSA1024) as [->|_]; [|destruct (Z.eqb_spec alg PIV_ALG_RSA2048) as [->|_];
    [|destruct (Z.eqb_spec alg PIV_ALG_ECCP256) as [->|_]; [|destruct (Z.eqb_spec alg PIV_ALG_ECCP384) as [->|_]; [|done]]]];
  destruct (Z.eqb_spec hashalgo SSH_DIGEST_SHA1) as [->|_];
  try (destruct (Z.eqb_spec hashalgo SSH_DIGEST_SHA256) as [->|_]);
  try (destruct (Z.eqb_spec hashalgo SSH_DIGEST_SHA512) as [->|_]);
  unfold card_lists, card_hash_id; intros H; cbn in H |- *;
  repeat (match goal with _ : context [bool_decide (?x ∈ algs)] |- _ => destruct (bool_decide (x ∈ algs)) end; cbn in H |- *);
  try discriminate H; injection H as <- <- <-;
  repeat (match goal with |- context [bool_decide (?x ∈ algs)] => destruct (bool_decide (x ∈ algs)) end; cbn);
  eexists; split_and!; try reflexivity; cbn; apply Hfull, digest_len; reflexivity.
Qed.

(** An encoded digest is the digest and at most 19 bytes before it. *)
Class KeyOpsLaws {X : Certs} (KO : KeyOps) := {
  sig_len : forall h d, zlen (i2d_X509_SIG h d) <= zlen d + 19
}.

Record plan_ok (alg : Z) (p : sign_plan) : Prop := {
  po_alg : alg_base (sp_alg p) = alg /\ is_byte (sp_alg p);
  po_hash : alg_known (sp_hash p) = true /\ sp_dglen p = ssh_digest_bytes (sp_hash p) /\ 20 <= sp_dglen p <= sp_inplen p /\ sp_inplen p <= 256;
  po_rsa : is_rsa (sp_alg p) = true -> sp_cardhash p = false /\ sp_dglen p + 30 <= sp_inplen p /\
    ((sp_hash p =? SSH_DIGEST_SHA1) || (sp_hash p =? SSH_DIGEST_SHA256) || (sp_hash p =? SSH_DIGEST_SHA512)) = true
}.

Lemma sign_plan_ok algs alg hashalgo p : sign_plan_of algs alg hashalgo = Some p -> plan_ok alg p.
Proof.
  unfold sign_plan_of, plan_p256, plan_p384. intros H.
  destruct (Z.eqb_spec alg PIV_ALG_RSA1024) as [->|_]; [|destruct (Z.eqb_spec alg PIV_ALG_RSA2048) as [->|_];
    [|destruct (Z.eqb_spec alg PIV_ALG_ECCP256) as [->|_]; [|destruct (Z.eqb_spec alg PIV_ALG_ECCP384) as [->|_]; [|done]]]];
  destruct (Z.eqb_spec hashalgo SSH_DIGEST_SHA1) as [->|_];
  try (destruct (Z.eqb_spec hashalgo SSH_DIGEST_SHA256) as [->|_]);
  try (destruct (Z.eqb_spec hashalgo SSH_DIGEST_SHA512) as [->|_]);
  repeat match goal with H : context [has_alg ?l ?a] |- _ => destruct (has_alg l a) end; injection H as <-;
  (split; [split; [reflexivity|]| |]); try (by vm_compute).
Qed.

Section Sign.
Context {X : Certs} {C : Crypto} {L : CryptoLaws C} {EV : Evp} {EO : EcOct} {CS : CardSigns} {SL : CardSignsLaws CS} {KO : KeyOps} {KL : KeyOpsLaws KO}.

Lemma store_run {R : Reader} buf i bs (w : world) : 0 <= i -> i + zlen bs <= zlen buf -> buf_store buf i bs w = (Ok (zsplice buf i bs), w).
Proof. intros H1 H2. unfold buf_store. by replace (_ && _) with true by lia. Qed.

Lemma pkcs1_splices k (T : list Z) : zlen T + 11 <= k ->
  zsplice (zsplice (zsplice (zsplice (zrepeat k 255) 0 [0]) 1 [1]) (k - zlen T - 1) [0]) (k - zlen T) T = emsa_pkcs1 k T.
Proof.
  intros Hk. pose proof (zlen_nonneg T). assert (zlen (zrepeat k 255) = k) as Hz by (apply zlen_zrepeat; lia).
  change 1 with (0 + zlen [0]) at 1. rewrite zsplice_zsplice by (rewrite ?Hz; change (zlen [0]) with 1; change (zlen [1]) with 1; lia).
  cbn [Datatypes.app]. replace (k - zlen T) with (k - zlen T - 1 + zlen [0]) at 2 by (change (zlen [0]) with 1; lia).
  assert (zlen (zsplice (zrepeat k 255) 0 [0; 1]) = k) as Hz2 by (rewrite zlen_zsplice; rewrite ?Hz; change (zlen [0; 1]) with 2; lia).
  rewrite zsplice_zsplice by (rewrite ?Hz2; change (zlen [0]) with 1; lia).
  unfold zsplice. change (Z.to_nat 0) with 0%nat. cbn [Datatypes.app length Nat.add].
  unfold emsa_pkcs1. unfold zrepeat, zlen in *. rewrite drop_replicate.
  destruct (Z.to_nat (k - Z.of_nat (length T) - 1)) as [|[|m]] eqn:Em; [lia|lia|].
  change (take 0 (replicate (Z.to_nat k) 255)) with (@nil Z). cbn [Datatypes.app take].
  rewrite take_replicate, (drop_ge (0 :: 1 :: _)); [|cbn [length]; rewrite length_replicate; lia].
  rewrite app_nil_r. repeat f_equal. lia.
Qed.

Lemma rsa_pad_ok {R : Reader} hash inplen dglen buf dg (w : world) :
  ((hash =? SSH_DIGEST_SHA1) || (hash =? SSH_DIGEST_SHA256) || (hash =? SSH_DIGEST_SHA512)) = true ->
  zslice buf 0 dglen = dg -> zlen dg = dglen -> dglen + 30 <= inplen -> inplen <= 256 ->
  rsa_pad hash inplen dglen buf w = (Ok (emsa_pkcs1 inplen (i2d_X509_SIG hash dg)), w).
Proof.
  intros Hh Hd Hl Hi Hm. unfold rsa_pad. rewrite Hh. cbn [verify]. rewrite cbind_ret_l, Hd.
  set (T := i2d_X509_SIG hash dg). assert (zlen T + 11 <= inplen) as HT by (pose proof (sig_len hash dg); subst T; lia).
  pose proof (zlen_nonneg T). assert (zlen (zrepeat inplen 255) = inplen) as Hz by (apply zlen_zrepeat; lia).
  rewrite (cbind_ok _ _ _ _ _ (store_run _ 0 [0] w ltac:(lia) ltac:(rewrite Hz; change (zlen [0]) with 1; lia))).
  set (b1 := zsplice _ 0 [0]). assert (zlen b1 = inplen) as Hz1 by (subst b1; rewrite zlen_zsplice; rewrite ?Hz; change (zlen [0]) with 1; lia).
  rewrite (cbind_ok _ _ _ _ _ (store_run b1 1 [1] w ltac:(lia) ltac:(rewrite Hz1; change (zlen [1]) with 1; lia))).
  set (b2 := zsplice b1 1 [1]). assert (zlen b2 = inplen) as Hz2 by (subst b2; rewrite zlen_zsplice; rewrite ?Hz1; change (zlen [1]) with 1; lia).
  rewrite !wrap_small by lia.
  rewrite (cbind_ok _ _ _ _ _ (store_run b2 (inplen - zlen T - 1) [0] w ltac:(lia) ltac:(rewrite Hz2; change (zlen [0]) with 1; lia))).
  set (b3 := zsplice b2 _ [0]). assert (zlen b3 = inplen) as Hz3 by (subst b3; rewrite zlen_zsplice; rewrite ?Hz2; change (zlen [0]) with 1; lia).
  rewrite store_run by (rewrite ?Hz3; lia). by rewrite <- pkcs1_splices.
Qed.

Lemma sign_digest_ok {R : Reader} hash inplen data (w : world) : alg_known hash = true -> ssh_digest_bytes hash <= inplen -> inplen <= 256 ->
  sign_digest hash inplen (ssh_digest_bytes hash) data w
  = (Ok (digest hash data ++ zrepeat (inplen - zlen (digest hash data)) 0), w).
Proof.
  intros Hk Hl Hm. unfold sign_digest, ssh_digest_start. rewrite Hk. unfold ssh_digest_update. cbn [dc_data dc_alg Datatypes.app].
  unfold ssh_digest_final. cbn [dc_alg dc_data]. rewrite Z.ltb_irrefl. replace (2 ^ 32 - 1 <? ssh_digest_bytes hash) with false by lia. cbn [orb].
  rewrite cbind_ret_l. pose proof (digest_len hash data Hk) as Hd. pose proof (zlen_nonneg (digest hash data)).
  assert (zlen (zrepeat inplen 0) = inplen) as Hz by (apply zlen_zrepeat; lia).
  rewrite store_run by (rewrite ?Hz; lia). unfold zsplice, zrepeat, zlen in *. change (Z.to_nat 0) with 0%nat.
  change (take 0 (replicate (Z.to_nat inplen) 0)) with (@nil Z). cbn [Datatypes.app Nat.add]. rewrite drop_replicate.
  by replace (Z.to_nat (inplen - Z.of_nat (length (digest hash data)))) with (Z.to_nat inplen - length (digest hash data))%nat by lia.
Qed.

Context (tr : transport) (Htr : transport_ok tr) (fuel : nat).
Local Abbreviation W := (World (R := iso_reader (A := key_applet) tr)).
Local Abbreviation Ic := (Iso (A := key_applet)).

Lemma prehash_exec alg slot d input s t out0 sw0 :
  pt_intxn t = true -> is_byte alg -> is_byte slot -> slot <> PIV_SLOT_ADMIN -> ks_keys s !! slot = Some (alg_base alg, d) ->
  zlen input <= 16000 -> (length input + 600 < fuel)%nat ->
  piv_sign_prehash (R := iso_reader (A := key_applet) tr) fuel alg slot input (W t (Ic s [] out0 sw0))
  = if ks_user s then (Ok (card_sign alg d input), W t (Ic s [] [] SW_NO_ERROR))
    else (Er (Err (permerrf swerrf)), W t (Ic s [] [] SW_SECURITY_STATUS_NOT_SATISFIED)).
Proof.
  intros Ht Hab Hsb Hsl Hk Hl Hf. destruct (sign_bytes alg d input) as [Hb Hz]. unfold piv_sign_prehash.
  rewrite (cbind_ok _ _ _ _ _ (in_txn_run (W t (Ic s [] out0 sw0)) Ht)).
  pose proof (ga_request_len GA_TAG_CHALLENGE input eq_refl) as Hzr.
  assert (emits (ga_data GA_TAG_CHALLENGE input) (ga_request GA_TAG_CHALLENGE input)) as He.
  { apply ga_emits; [done|unfold GA_TAG_CHALLENGE; lia|lia]. }
  assert (zlen (ga_request GA_TAG_CHALLENGE input) <= MAX_APDU_SIZE) as Hzm by (unfold MAX_APDU_SIZE; lia).
  rewrite (cbind_ok _ _ _ _ _ (tlv_build_ok _ _ _ He Hzm)).
  destruct (use_exec_run tr Htr fuel alg slot d GA_TAG_CHALLENGE input (card_sign alg d input) s t out0 sw0 Ht Hab Hsb Hsl Hk) as (a & E & Hsw & Hp);
    [by right|done|lia|done|done|lia|lia|unfold zlen in *; lia|].
  rewrite (cbind_ok _ _ _ _ _ E), Hsw. destruct (ks_user s); [|done]. change (sw_has_data SW_NO_ERROR) with true. cbv iota. by apply Hp.
Qed.

Lemma emsa_len k T : zlen T + 11 <= k -> zlen (emsa_pkcs1 k T) = k.
Proof.
  intros H. unfold emsa_pkcs1. rewrite !zlen_cons, zlen_app, zlen_cons, zlen_zrepeat by (pose proof (zlen_nonneg T); lia). lia.
Qed.

(** The input the card is given, made step by step. *)
Lemma sign_input_ok {R : Reader} alg p data (w : world) : plan_ok alg p ->
  (let! input := (if sp_cardhash p then cret data else sign_digest (sp_hash p) (sp_inplen p) (sp_dglen p) data) in
   if (sp_alg p =? PIV_ALG_RSA1024) || (sp_alg p =? PIV_ALG_RSA2048)
   then rsa_pad (sp_hash p) (sp_inplen p) (sp_dglen p) input else cret input) w = (Ok (signed_input p data), w)
  /\ zlen (signed_input p data) <= Z.max 256 (zlen data).
Proof.
  intros [_ (Hk & Hd & Hl & Hm) Hr]. fold (is_rsa (sp_alg p)). unfold signed_input.
  pose proof (digest_len (sp_hash p) data Hk) as Hdl. destruct (sp_cardhash p) eqn:Hc.
  - rewrite cbind_ret_l. destruct (is_rsa (sp_alg p)); [destruct (Hr eq_refl); done|]. split; [done|lia].
  - assert (ssh_digest_bytes (sp_hash p) <= sp_inplen p) as Hle by lia.
    rewrite Hd, (cbind_ok _ _ _ _ _ (sign_digest_ok _ _ data w Hk Hle Hm)).
    destruct (is_rsa (sp_alg p)).
    + destruct (Hr eq_refl) as (_ & Hlen & Hh). split.
      * apply rsa_pad_ok; [done| |done|lia|lia]. rewrite zslice_0, <- Hdl. unfold zlen. by rewrite Nat2Z.id, take_app_length.
      * pose proof (sig_len (sp_hash p) (digest (sp_hash p) data)). rewrite emsa_len by lia. lia.
    + split; [done|]. rewrite zlen_app, zlen_zrepeat by lia. lia.
Qed.
End Sign.

(** C37: authentication with the admin key, on a card that keeps one. [piv_auth_admin] succeeds, and the card then
    takes the caller for its administrator, exactly when the given key encrypts the card's challenge as the card's own key does; otherwise it fails with
    PermissionError and the card stays as it was. In both cases the keys of the card are untouched and the end of the
    transaction takes the authentication back. *)
Theorem admin_auth_refines {X : Certs} {C : Crypto} {EV : Evp} {EO : EcOct} {CS : CardSigns} (EL : EvpLaws EV)
    (tr : transport) fuel tmp (t : piv_token) (s : key_state) key c r (out0 : list Z) (sw0 : Z) :
  transport_ok tr -> (40 <= fuel)%nat -> pt_intxn t = true -> bytes key -> zlen key = 24 ->
  ks_chals s = c :: r -> bytes c -> zlen c = 8 ->
  exists res s1 w1 w2, piv_auth_admin fuel tmp key
      (World (R := iso_reader (A := key_applet) tr) t (Iso (A := key_applet) s [] out0 sw0)) = (res, w1) /\
    ic_app (w_card w1) = s1 /\ ks_keys s1 = ks_keys s /\
    (if bool_decide (admin_answer key c = admin_answer (ks_admin_key s) c)
     then res = Ok tt /\ ks_admin s1 = true
     else res = Er (Err (permerrf swerrf)) /\ ks_admin s1 = ks_admin s) /\
    piv_txn_end w1 = (Ok tt, w2) /\ pt_intxn (w_tok w2) = false /\ ks_admin (ic_app (w_card w2)) = false.
Proof.
  intros Htr Hf Ht Hk Hkl Hcs Hc Hcl.
  pose proof (auth_admin_exec tr Htr fuel tmp t s key c r out0 sw0 Ht Hf Hk Hkl Hcs Hc Hcl) as E.
  destruct (bool_decide _); eexists _, _, _, _; (split; [exact E|]); by split_and!.
Qed.

(** C38: a key made on the card opens what is sealed to it. The public key that [piv_generate] returns belongs to the key
    the card made; a box sealed to it for the slot, written out and read back, opens with the token to exactly the data, as long
    as the card keeps the key and the user has shown the PIN; without the PIN opening fails with BoxKeyError over PermissionError and
    leaves the box sealed. *)
Theorem generated_key_opens {X : Certs} {C : Crypto} {EV : Evp} {EO : EcOct} {CS : CardSigns}
    (L : CryptoLaws C) (OL : EcOctLaws EO) (tr : transport) fuel (t : piv_token) (s : key_state) slot alg nid d fresh fromb (out0 : list Z) (sw0 : Z) :
  transport_ok tr -> (200 <= fuel)%nat -> pt_intxn t = true -> is_byte slot -> slot <> PIV_SLOT_ADMIN ->
  alg_nid alg = Some nid -> ks_admin s = true -> ks_fresh s = d :: fresh -> ec_validate nid (ec_pub nid d) = 0 ->
  let W := World (R := iso_reader (A := key_applet) tr) in
  exists s1, piv_generate fuel slot alg (W t (Iso (A := key_applet) s [] out0 sw0))
      = (Ok (GenEc nid (Some (ec_pub nid d))), W t (Iso (A := key_applet) s1 [] [] SW_NO_ERROR)) /\
    forall b data e sec guid nonce iv, seal_case b data nid d e sec (Some (guid, slot)) nonce iv ->
    exists sealed bs box opened final,
      piv_box_seal guid slot (EcKey nid (ec_pub nid d) None) (Ok (EcKey nid (ec_pub nid e) (Some e))) nonce iv b = (Ok tt, sealed) /\
      piv_box_to_binary sealed = Ok bs /\ piv_box_from_binary fromb bs = Ok box /\ piv_box_sealed box = true /\
      piv_box_take_data opened = (Ok data, final) /\
      forall s2 out1 sw1, ks_keys s2 = ks_keys s1 ->
      exists w', piv_box_open_token fuel alg slot (box, W t (Iso (A := key_applet) s2 [] out1 sw1))
        = if ks_user s2 then (Ok tt, (opened, w'))
          else (Er (Err (errf "BoxKeyError" (Some (permerrf swerrf)))), (box, w')).
Proof.
  intros Htr Hf Ht Hsb Hsl Hn Ha Hfr Hv W. exists (add_key s slot alg d fresh). split; [by apply generate_exec|].
  intros b data e sec guid nonce iv Hcase. pose proof (sc_dh _ _ _ _ _ _ _ _ _ Hcase) as Hdh. rewrite dh_comm in Hdh.
  destruct (sealed_sent fromb _ _ _ _ _ _ _ _ _ _ Hcase) as (sealed & bs & box & blk & Es & _ & Eto & Efrom & (Hsd & _) & Hep & Hblk & _ & Ho).
  eexists sealed, bs, box, _, (set_plain box null_buf). split_and!; try done; [by apply (take_opened box blk)|].
  intros s2 out1 sw1 Hks.
  pose proof (ecdh_exec tr Htr fuel alg slot nid d (ec_pub nid e) None sec s2 t out1 sw1 Ht Hsb Hsl Hf) as Hec.
  rewrite Hks in Hec. cbn [add_key ks_keys] in Hec. rewrite lookup_insert_eq in Hec. specialize (Hec eq_refl Hn Hdh).
  destruct (ks_user s2).
  - eexists. exact (open_token_ok fuel alg slot box _ sec _ _ _ Hep Hec Ho).
  - eexists. exact (open_token_refused fuel alg slot box _ _ sec _ _ _ Hep Hec Ho).
Qed.

(** C39: [piv_sign] on a card with the key: with the PIN shown it returns the card's signature, by the identifier of [sign_spec], over exactly what is to be
    signed, and the digest that was used. [sign_spec] says, for the type of the key, the digest asked for and the algorithms the card lists, which digest is used, which identifier the card is
    given, and the input: the data itself for a card that hashes, EMSA-PKCS1-v1_5 of the digest for RSA, the digest for ECDSA.
    Without the PIN it fails with PermissionError. Not covered, because the code does not do it right: a card that hashes but
    lists no digest that can stand for the one asked for, and ECDSA with a digest shorter than the curve. Data of up to 16000 bytes. *)
Theorem piv_sign_refines {X : Certs} {C : Crypto} {EV : Evp} {EO : EcOct} {CS : CardSigns} {KO : KeyOps}
    (L : CryptoLaws C) (SL : CardSignsLaws CS) (KL : KeyOpsLaws KO)
    (tr : transport) fuel (t : piv_token) (s : key_state) slot alg d hashalgo data hash ident input (out0 : list Z) (sw0 : Z) :
  transport_ok tr -> pt_intxn t = true -> is_byte slot -> slot <> PIV_SLOT_ADMIN -> ks_keys s !! slot = Some (alg, d) ->
  pt_alg_count t <= zlen (pt_algs t) -> zlen data <= 16000 -> (length data + 1000 < fuel)%nat ->
  sign_spec (take (Z.to_nat (pt_alg_count t)) (pt_algs t)) alg hashalgo data = Some (hash, ident, input) ->
  let W := World (R := iso_reader (A := key_applet) tr) in
  piv_sign fuel alg slot hashalgo data (W t (Iso (A := key_applet) s [] out0 sw0))
  = if ks_user s then (Ok (hash, card_sign ident d input), W t (Iso (A := key_applet) s [] [] SW_NO_ERROR))
    else (Er (Err (permerrf swerrf)), W t (Iso (A := key_applet) s [] [] SW_SECURITY_STATUS_NOT_SATISFIED)).
Proof.
  intros Htr Ht Hsb Hsl Hk Hal Hl Hf Hp W. destruct (sign_spec_plan _ _ _ _ _ _ _ Hp) as (p & Hpl & <- & <- & <-). clear Hp. rename Hpl into Hp.
  pose proof (sign_plan_ok _ _ _ _ Hp) as Hpo. unfold piv_sign.
  rewrite (cbind_ok _ _ _ _ _ (in_txn_run (W t (Iso (A := key_applet) s [] out0 sw0)) Ht)).
  rewrite (cbind_ok cget _ _ _ _ eq_refl). cbv zeta. assert (forall c, w_tok (W t c) = t) as Hwt by done. rewrite !Hwt, Hp.
  replace (zlen (pt_algs t) <? pt_alg_count t) with false by lia. rewrite andb_false_r, cbind_ret_l.
  destruct (sign_input_ok alg p data (W t (Iso (A := key_applet) s [] out0 sw0)) Hpo) as [Ein Hz].
  rewrite <- cbind_assoc, (cbind_ok _ _ _ _ _ Ein). destruct Hpo as [[Hb Hab] _ _].
  pose proof (prehash_exec tr Htr fuel (sp_alg p) slot d (signed_input p data) s t out0 sw0 Ht Hab Hsb Hsl) as E.
  rewrite Hb in E. specialize (E Hk ltac:(lia) ltac:(unfold zlen in *; lia)).
  unfold cbind. fold W in E. rewrite E. by destruct (ks_user s).
Qed.

(** ** An instance *)

Module ToyKeys.
(** A cipher that adds a checksum of the key to every byte. *)
Definition shift (n : Z) (p : list Z) : list Z := List.map (fun b => (b + n) mod 256) p.
Definition tag (n : Z) (k iv aad p : list Z) : list Z := zrepeat n (Toy.sum (k ++ iv ++ aad ++ p)).
Definition evp : Evp := {|
  evp_seal := fun _ k iv aad n p => shift (Toy.sum k) p ++ tag n k iv aad p;
  evp_open := fun _ k iv aad n e =>
    let p := shift (- Toy.sum k) (take (Z.to_nat (zlen e - n)) e) in
    if (0 <=? zlen e - n) && bool_decide (drop (Z.to_nat (zlen e - n)) e = tag n k iv aad p) then Some p else None
|}.
Lemma shift_back n p : bytes p -> shift (- n) (shift n p) = p.
Proof.
  unfold shift. induction 1 as [|b p Hb _ IH]; [done|]. cbn. rewrite IH, Zplus_mod_idemp_l. f_equal.
  replace (b + n + - n) with b by lia. apply Z.mod_small. exact Hb.
Qed.
Lemma zlen_shift n p : zlen (shift n p) = zlen p.
Proof. unfold zlen, shift. by rewrite length_map. Qed.
Lemma toy_tag_len c k iv aad p : cipher_ok c = true -> zlen (tag (cipher_authlen c) k iv aad p) = cipher_authlen c.
Proof. intros Hc. apply zlen_zrepeat. destruct (cipher_lens c Hc) as (_ & _ & _ & []); lia. Qed.
Lemma evp_laws : EvpLaws evp.
Proof.
  constructor.
  - intros c k iv aad p Hc (_ & _ & Hp & _). cbn. rewrite zlen_app, toy_tag_len, zlen_shift by done.
    replace (_ - _) with (zlen p) by lia.
    assert (Z.to_nat (zlen p) = length (shift (Toy.sum k) p)) as -> by (unfold shift; rewrite length_map; unfold zlen; lia).
    rewrite take_app_length, drop_app_length, shift_back by done. rewrite bool_decide_true by done.
    pose proof (zlen_nonneg p). by replace (0 <=? zlen p) with true by lia.
  - intros c k iv aad p Hc _. cbn. by rewrite zlen_app, toy_tag_len, zlen_shift.
  - intros c k iv aad p Hc _. cbn. apply Forall_app. split.
    + apply Forall_map, Forall_forall. intros x _. apply Z.mod_pos_bound. lia.
    + apply Forall_replicate. unfold is_byte, Toy.sum. apply Z.mod_pos_bound. lia.
  - intros c k iv aad e p Hc. cbn. destruct (_ && _) eqn:H; [|done]. intros [= <-]. apply andb_true_iff in H as [H _].
    rewrite zlen_shift. destruct (cipher_lens c Hc) as (_ & _ & _ & Ha). unfold zlen in *. rewrite length_take. lia.
Qed.

Definition ecoct : EcOct (C := Toy.toy) := {| ec_point2oct_unc := fun _ (p : @point Toy.toy) => [4; if p : bool then 1 else 0] |}.
Lemma ecoct_laws : EcOctLaws ecoct.
Proof.
  constructor.
  - by intros nid [].
  - intros nid []; apply bytesb_spec; reflexivity.
  - intros nid p. by eexists.
  - intros nid p. apply Z.leb_le. reflexivity.
  - intros nid [] [] sec [= <-]; (split; [apply bytesb_spec; reflexivity|apply Z.leb_le; reflexivity]).
Qed.
Definition signs : CardSigns (C := Toy.toy) := {| card_sign := fun alg d m => [Toy.sum (alg :: m)] |}.
Lemma signs_laws : CardSignsLaws signs.
Proof.
  constructor. intros alg d m. split; [|apply Z.leb_le; reflexivity].
  apply Forall_cons_2; [|apply Forall_nil_2]. apply Z.mod_pos_bound. lia.
Qed.
Definition keyops : KeyOps (X := ToyCerts.certs) := {|
  certkey_equal := fun _ _ => true; sshkey_sig_from_asn1 := fun _ _ s => inr s; sshkey_verify := fun _ _ _ => 0;
  i2d_X509_SIG := fun h d => 48 :: h :: d
|}.
Lemma keyops_laws : KeyOpsLaws keyops.
Proof. constructor. intros h d. cbn. rewrite !zlen_cons. lia. Qed.

Definition admin_key : list Z := zrepeat 24 7.
Definition card : key_state (C := Toy.toy) :=
  KeyCard admin_key [[1; 2; 3; 4; 5; 6; 7; 8]] None true true {[ 0x9a := (PIV_ALG_RSA1024, false) ]} [true].
Definition tr : transport := Transport 256 false.
End ToyKeys.

Lemma toy_transport : transport_ok ToyKeys.tr.
Proof. split; apply Z.leb_le; reflexivity. Qed.

(** With the right key; a key of zeros would be refused. *)
Lemma admin_auth_refines_witness :
  let applet := key_applet (EV := ToyKeys.evp) (EO := ToyKeys.ecoct) (CS := ToyKeys.signs) in
  bool_decide (admin_answer (EV := ToyKeys.evp) (zrepeat 24 0) [1; 2; 3; 4; 5; 6; 7; 8]
               = admin_answer (EV := ToyKeys.evp) ToyKeys.admin_key [1; 2; 3; 4; 5; 6; 7; 8]) = false /\
  exists res s1 w1 w2, piv_auth_admin (EV := ToyKeys.evp) 40 (fun _ => []) ToyKeys.admin_key
      (World (R := iso_reader (A := applet) ToyKeys.tr) ToyCerts.token (Iso (A := applet) ToyKeys.card [] [] 0)) = (res, w1) /\
    ic_app (w_card w1) = s1 /\ ks_keys s1 = ks_keys ToyKeys.card /\
    (if bool_decide (admin_answer (EV := ToyKeys.evp) ToyKeys.admin_key [1; 2; 3; 4; 5; 6; 7; 8]
                     = admin_answer (EV := ToyKeys.evp) (ks_admin_key ToyKeys.card) [1; 2; 3; 4; 5; 6; 7; 8])
     then res = Ok tt /\ ks_admin s1 = true
     else res = Er (Err (permerrf swerrf)) /\ ks_admin s1 = ks_admin ToyKeys.card) /\
    piv_txn_end w1 = (Ok tt, w2) /\ pt_intxn (w_tok w2) = false /\ ks_admin (ic_app (w_card w2)) = false.
Proof.
  split; [vm_compute; reflexivity|].
  apply (admin_auth_refines (EV := ToyKeys.evp) (EO := ToyKeys.ecoct) (CS := ToyKeys.signs) ToyKeys.evp_laws ToyKeys.tr 40 (fun _ => [])
    ToyCerts.token ToyKeys.card ToyKeys.admin_key [1; 2; 3; 4; 5; 6; 7; 8] []).
  - exact toy_transport.
  - lia.
  - reflexivity.
  - apply bytesb_spec. reflexivity.
  - reflexivity.
  - reflexivity.
  - apply bytesb_spec. reflexivity.
  - reflexivity.
Defined.

Lemma generated_key_opens_witness :
  let applet := key_applet (EV := ToyKeys.evp) (EO := ToyKeys.ecoct) (CS := ToyKeys.signs) in
  let W := World (R := iso_reader (A := applet) ToyKeys.tr) in
  (exists s1, piv_generate 200 0x9d PIV_ALG_ECCP256 (W ToyCerts.token (Iso (A := applet) ToyKeys.card [] [] 0))
      = (Ok (GenEc NID_X9_62_prime256v1 (Some true)), W ToyCerts.token (Iso (A := applet) s1 [] [] SW_NO_ERROR)) /\
    forall b data e sec guid nonce iv, seal_case b data NID_X9_62_prime256v1 true e sec (Some (guid, 0x9d)) nonce iv ->
    exists sealed bs box opened final,
      piv_box_seal guid 0x9d (EcKey NID_X9_62_prime256v1 true None) (Ok (EcKey NID_X9_62_prime256v1 e (Some e))) nonce iv b = (Ok tt, sealed) /\
      piv_box_to_binary sealed = Ok bs /\ piv_box_from_binary Toy.fromb bs = Ok box /\ piv_box_sealed box = true /\
      piv_box_take_data opened = (Ok data, final) /\
      forall s2 out1 sw1, ks_keys s2 = ks_keys s1 ->
      exists w', piv_box_open_token (EO := ToyKeys.ecoct) 200 PIV_ALG_ECCP256 0x9d (box, W ToyCerts.token (Iso (A := applet) s2 [] out1 sw1))
        = if ks_user s2 then (Ok tt, (opened, w'))
          else (Er (Err (errf "BoxKeyError" (Some (permerrf swerrf)))), (box, w'))) /\
  seal_case Toy.box [104; 105; 33] NID_X9_62_prime256v1 true true [7] (Some (Toy.guid, 0x9d)) Toy.random Toy.random.
Proof.
  split; [|exact toy_seal_case].
  apply (generated_key_opens (EV := ToyKeys.evp) (EO := ToyKeys.ecoct) (CS := ToyKeys.signs) Toy.toy_laws ToyKeys.ecoct_laws ToyKeys.tr 200
    ToyCerts.token ToyKeys.card 0x9d PIV_ALG_ECCP256 NID_X9_62_prime256v1 true [] Toy.fromb).
  - exact toy_transport.
  - lia.
  - reflexivity.
  - unfold is_byte. lia.
  - discriminate.
  - reflexivity.
  - reflexivity.
  - reflexivity.
  - reflexivity.
Defined.

Lemma piv_sign_refines_witness :
  let applet := key_applet (EV := ToyKeys.evp) (EO := ToyKeys.ecoct) (CS := ToyKeys.signs) in
  let W := World (R := iso_reader (A := applet) ToyKeys.tr) in
  piv_sign (KO := ToyKeys.keyops) 1010 PIV_ALG_RSA1024 0x9a 0 [1; 2; 3] (W ToyCerts.token (Iso (A := applet) ToyKeys.card [] [] 0))
  = if ks_user ToyKeys.card
    then (Ok (SSH_DIGEST_SHA256, card_sign (CardSigns := ToyKeys.signs) PIV_ALG_RSA1024 false
                (emsa_pkcs1 128 (i2d_X509_SIG (KeyOps := ToyKeys.keyops) SSH_DIGEST_SHA256 (digest SSH_DIGEST_SHA256 [1; 2; 3])))),
          W ToyCerts.token (Iso (A := applet) ToyKeys.card [] [] SW_NO_ERROR))
    else (Er (Err (permerrf swerrf)), W ToyCerts.token (Iso (A := applet) ToyKeys.card [] [] SW_SECURITY_STATUS_NOT_SATISFIED)).
Proof.
  apply (piv_sign_refines (EV := ToyKeys.evp) (EO := ToyKeys.ecoct) (CS := ToyKeys.signs) (KO := ToyKeys.keyops) Toy.toy_laws ToyKeys.signs_laws ToyKeys.keyops_laws
    ToyKeys.tr 1010 ToyCerts.token ToyKeys.card 0x9a PIV_ALG_RSA1024 false 0 [1; 2; 3] SSH_DIGEST_SHA256 PIV_ALG_RSA1024).
  - exact toy_transport.
  - reflexivity.
  - unfold is_byte. lia.
  - discriminate.
  - reflexivity.
  - apply Z.leb_le. reflexivity.
  - apply Z.leb_le. reflexivity.
  - cbn. lia.
  - reflexivity.
Defined.

(** ** Behaviours that differ from what the code means to do *)

(** The PIN and touch policies given to [ykpiv_import] are not sent to the card. *)
Lemma import_ignores_policies {X : Certs} {R : Reader} fuel slot key pin touch pin' touch' :
  ykpiv_import fuel slot key pin touch = ykpiv_import fuel slot key pin' touch'.
Proof. reflexivity. Qed.

(** A card whose answer holds no challenge stops the process. *)
Lemma admin_no_challenge_aborts :
  fst (piv_auth_admin (EV := ToyKeys.evp) 9 (fun _ => []) ToyKeys.admin_key
         (World (R := script_reader) ToyCerts.token [[124; 0; 144; 0]])) = Panic.
Proof. vm_compute. reflexivity. Qed.

(** An answer without a point gives an EC key without one, and no error. *)
Lemma generate_without_point :
  fst (piv_generate (C := Toy.toy) 9 0x9a PIV_ALG_ECCP256 (World (R := script_reader) ToyCerts.token [[127; 73; 0; 144; 0]]))
  = Ok (GenEc NID_X9_62_prime256v1 None).
Proof. vm_compute. reflexivity. Qed.

(** For ECDSA a digest that is shorter than the curve is followed by zeros. As a number, which is what is signed, it is then
    another one than the digest. *)
Lemma short_digest_shifted {X : Certs} {C : Crypto} {L : CryptoLaws C} {KO : KeyOps} data :
  sign_plan_of [] PIV_ALG_ECCP256 SSH_DIGEST_SHA1 = Some (SignPlan 32 SSH_DIGEST_SHA1 20 false PIV_ALG_ECCP256) /\
  signed_input (SignPlan 32 SSH_DIGEST_SHA1 20 false PIV_ALG_ECCP256) data = digest SSH_DIGEST_SHA1 data ++ zrepeat 12 0.
Proof. split; [reflexivity|]. unfold signed_input. cbn [sp_hash sp_cardhash sp_alg sp_inplen]. by rewrite (digest_len SSH_DIGEST_SHA1 data eq_refl). Qed.

(** A card that lists only ECDSA with SHA-256 is sent the identifier of ECDSA with SHA-1. *)
Lemma unlisted_alg_used :
  sign_plan_of [PIV_ALG_ECCP256_SHA256] PIV_ALG_ECCP256 SSH_DIGEST_SHA1
  = Some (SignPlan 32 SSH_DIGEST_SHA1 20 true PIV_ALG_ECCP256_SHA1).
Proof. reflexivity. Qed.
