(* ===== verification/PivKeySafe.v ===== *)
(** * Certificate and key operations against any card (piv.c)

    Whatever a card answers to the operations of PivCert.v and PivKeys.v, nothing is read or written
    out of bounds and no [VERIFY] fails, and the handle stays well formed: at most one slot for each
    number, no slot with a freed key, the arrays at their size. Certificates are
    taken to hold keys that OpenSSL and libssh accept; PivCert.v shows what happens otherwise. [piv_auth_admin] is left out, because
    it aborts on an answer without a challenge (PivKeyCard.v). *)
From stdpp Require Import base list strings.
From Stdlib Require Import ZArith Lia.
From S2P Require Import Prelude Errf Sshbuf Algs Tlv PivBox PivToken Apdu ApduChain PivPin PivFiles PivParse PivStore PivObjects.
From S2P Require Import PivCert Cipher Hmac PivKeys PivKeyCard.

Local Open Scope string_scope.
Local Open Scope list_scope.
Local Open Scope Z_scope.
Local Open Scope c_scope.

(** Every certificate that parses has a key that is accepted. *)
Definition certs_accepted {X : Certs} : Prop := forall der cert, d2i_X509 der = Some cert -> exists k, X509_pubkey cert = Some (inr k).

Section Safe.
Context {X : Certs} {R : Reader}.

#[local] Existing Instance same_txn_po.

(** ** Parsers *)

(** A parser that does not touch the token. *)
Definition pure_tok {A} (m : M errf_t pstate A) : Prop := forall s, snd (snd (m s)) = snd s.

Lemma pure_bind {A B} (m : M errf_t pstate A) (f : A -> M errf_t pstate B) :
  pure_tok m -> (forall a, pure_tok (f a)) -> pure_tok (cbind m f).
Proof.
  intros Hm Hf s. unfold cbind. specialize (Hm s). destruct (m s) as [[a|e| |] s']; cbn in *; try done.
  rewrite Hf. exact Hm.
Qed.
Lemma pure_tl {A} (m : T A) : pure_tok (tl m).
Proof. intros [ts t]. unfold tl. cbn. by destruct (m ts). Qed.
Lemma pure_ret {A} (a : A) : pure_tok (cret a).
Proof. done. Qed.
Lemma pure_raise {A} e : pure_tok (craise (A := A) e).
Proof. done. Qed.
Lemma pure_gets {A} (f : pstate -> A) : pure_tok (cgets f).
Proof. done. Qed.
Lemma pure_guard b e : pure_tok (guard b e).
Proof. by destruct b. Qed.
Lemma pure_fold {A} (body : Z -> A -> M errf_t pstate A) n : (forall tag a, pure_tok (body tag a)) -> forall a, pure_tok (fold_tags n body a).
Proof.
  intros Hb. induction n as [|n IH]; intros a; cbn [fold_tags]; apply pure_bind; try apply pure_gets; intros ts; destruct (tlv_at_end ts); try done.
  apply pure_bind; [apply pure_tl|]. intros tag. by apply pure_bind.
Qed.
Create HintDb pure discriminated.
#[local] Hint Resolve pure_tl pure_ret pure_raise pure_gets pure_guard pure_fold : pure.
Ltac pure_tac := repeat first [progress auto with pure | apply pure_bind; [|intros ?]
  | match goal with
    | |- pure_tok (if ?b then _ else _) => destruct b
    | |- pure_tok (match ?x with _ => _ end) => destruct x
    end].

Lemma pure_members {A} (body : Z -> A -> M errf_t pstate A) a : (forall tag a, pure_tok (body tag a)) -> pure_tok (members_fold body a).
Proof. intros Hb. unfold members_fold. pure_tac. Qed.
#[local] Hint Resolve pure_members : pure.

Lemma wp_pure {A} (m : M errf_t pstate A) s (Q : A -> pstate -> Prop) (E : errf_t -> pstate -> Prop) :
  pure_tok m -> wp m s Q E -> wp m s (fun v s' => Q v s' /\ snd s' = snd s) (fun e s' => E e s' /\ snd s' = snd s).
Proof. intros Hp. specialize (Hp s). unfold wp. destruct (m s) as [[] ?]; cbn in *; auto. Qed.

(** The token after parsing an answer: in [I] if the parser leaves it there. *)
Lemma parse_reply_inv {A} a (m : M errf_t pstate A) (w : world) (I : piv_token -> Prop) :
  reply_ok (a_reply a) ->
  (forall ts, reader_ok ts -> ts_stack ts = [] ->
     wp m (ts, w_tok w) (fun v s => parsed ts (w_tok w) [] v s /\ I (snd s)) (fun e s => refused ts (w_tok w) e s /\ I (snd s))) ->
  wp (parse_reply a m) w (fun _ w' => I (w_tok w')) (fun _ w' => I (w_tok w')).
Proof.
  intros [(d & Hd & Hb & Hz & Hs & Ho & Ho2) [Hl Hl2]] Hm. unfold wp, parse_reply. rewrite Hd.
  assert (reader_ok (tlv_init d (b_offset (a_reply a)) (b_len (a_reply a)))) as Hok
    by (apply tlv_init_reader; done || lia).
  specialize (Hm _ Hok eq_refl). unfold wp in Hm.
  destruct (m _) as [[v|e| |] [ts t]]; try done.
  - destruct Hm as [((_ & _ & _ & Hst) & _) Ht]. destruct (tlv_free_empty ts Hst) as (ts' & ->). done.
  - destruct Hm as [((st & (Hok' & _)) & _) Ht]. pose proof (safe_tlv_abort ts Hok') as Hab.
    unfold wp in Hab. unfold cbind. destruct (tlv_abort ts) as [[[]|?| |] ts1]; try done.
    destruct (tlv_free_empty ts1) as (ts' & ->); [apply Hab|done].
Qed.

Lemma parse_reply_pure {A} a (m : M errf_t pstate A) (w : world) : reply_ok (a_reply a) -> pure_tok m ->
  (forall ts t, reader_ok ts -> ts_stack ts = [] -> wp m (ts, t) (parsed ts t []) (refused ts t)) ->
  wp (parse_reply a m) w (same_tok w) (same_tok w).
Proof.
  intros Hr Hp Hm. apply (parse_reply_inv a m w (fun t => t = w_tok w)); [done|]. intros ts Hok Hst.
  exact (wp_pure m (ts, w_tok w) _ _ Hp (Hm ts (w_tok w) Hok Hst)).
Qed.

(** A member of a template that carries a value reads its contents and leaves them. *)
Definition fold_safe {A} (body : Z -> A -> M errf_t pstate A) : Prop :=
  forall tag a ts t tc st, reader_ok ts -> ts_stack ts = tc :: st ->
    wp (body tag a) (ts, t) (parsed ts t st) (refused ts t).

Lemma fold_tags_safe {A} (body : Z -> A -> M errf_t pstate A) n : fold_safe body -> forall a ts t,
  reader_ok ts -> tc_end (ts_now ts) - ts_pos ts <= Z.of_nat n ->
  wp (fold_tags n body a) (ts, t) (parsed ts t (ts_stack ts)) (refused ts t).
Proof.
  intros Hb. induction n as [|n IH]; intros a ts t Hok Hn; cbn [fold_tags];
    wp_step; apply wp_gets; cbn [fst]; (destruct (tlv_at_end ts) eqn:He;
      [apply wp_ret; split_and!; [by apply reads_to_refl|done|done]|]);
    rewrite tlv_at_end_reader in He by done; [lia|].
  apply wp_assoc. wp_step. eapply wp_mono; [apply step_tag; [done|]|..].
  - intros tag tc ts1 Hr1 _. pose proof Hr1 as (Hok1 & _ & _ & Hst1). by apply (Hb tag a ts1 t tc).
  - intros a2 [ts2 t2] ((Hr & _ & Ht2) & Hp). cbn [fst snd] in *. pose proof Hr as (Hok2 & _ & _ & Hst2).
    eapply wp_mono; [apply IH; [done|rewrite (now_same _ _ Hr); lia]|..].
    + intros a3 [ts3 t3] (Hr3 & Hp3 & Ht3). cbn [fst snd] in *. rewrite Hst2 in Hr3.
      split_and!; [by apply (reads_to_trans _ _ _ _ _ Hr)|cbn; lia|by etrans].
    + intros e s. by apply (refused_trans _ _ _ _ _ _ _ Hr).
  - done.
Qed.

Lemma members_fold_safe {A} (body : Z -> A -> M errf_t pstate A) a ts t tc st : fold_safe body -> reader_ok ts -> ts_stack ts = tc :: st ->
  wp (members_fold body a) (ts, t) (parsed ts t st) (refused ts t).
Proof.
  intros Hb Hok Hst. unfold members_fold. wp_step. apply wp_gets. cbn [fst]. wp_step.
  eapply wp_mono; [apply fold_tags_safe; [done|done|]|..].
  - reader_facts Hok. unfold zlen in *. lia.
  - intros a2 [ts2 t2] (Hr2 & Hp2 & Ht2). cbn [fst snd] in *. wp_step.
    eapply wp_mono; [apply (step_leave tlv_end ts t ts2 t2 tc st); [by left|done|done|done|done]|..]; [|done].
    intros [] s Hs. by apply wp_ret.
  - done.
Qed.

Lemma template_fold_safe {A} outer (body : Z -> A -> M errf_t pstate A) a ts t : fold_safe body -> reader_ok ts ->
  wp (template_fold outer body a) (ts, t) (parsed ts t (ts_stack ts)) (refused ts t).
Proof.
  intros Hb Hok. unfold template_fold. eapply wp_mono; [apply step_tag; [done|]|by intros ? ? []|done].
  intros tag tc ts1 Hr1 _. pose proof Hr1 as (Hok1 & _ & _ & Hst1).
  wp_step. apply wp_guard; [intros _|intros _; split; [eexists; by apply reads_to_refl|done]].
  by apply (members_fold_safe body a ts1 t tc).
Qed.

Lemma safe_view : safe_read tlv_view.
Proof. intros ts Hok. unfold wp. rewrite view_ok by done. by apply reads_to_refl. Qed.
Lemma fwd_view : fwd tlv_view.
Proof. intros ts v ts' H. unfold tlv_view in H. destruct (_ && _); [|done]. injection H as _ <-. lia. Qed.
Lemma fwd_read_u8 : fwd tlv_read_u8.
Proof. unfold tlv_read_u8. apply fwd_bind; [apply fwd_get|]. intros ts. apply fwd_bind; [apply fwd_guard|]. intros []. apply fwd_getc. Qed.

(** The end of a member: [tlv_end] or [tlv_skip], and a value. *)
Lemma leave_with {A} (m : T unit) (v : A) ts0 t ts tc st : m = tlv_end \/ m = tlv_skip -> ts_stack ts0 = tc :: st ->
  reads_to ts0 (ts_stack ts0) ts -> ts_pos ts0 <= ts_pos ts ->
  wp (tl m ;! cret v) (ts, t) (parsed ts0 t st) (refused ts0 t).
Proof.
  intros Hm Hst Hr Hp. wp_step. eapply wp_mono; [by apply (step_leave m ts0 t ts t tc st)|..]; [|done].
  intros [] s Hs. by apply wp_ret.
Qed.
Lemma member_refused ts (t : piv_token) ts' e : reads_to ts (ts_stack ts) ts' -> refused ts t e (ts', t).
Proof. intros Hr. split; [by eexists|done]. Qed.

(** A read, then the rest of the member. *)
Lemma member_read {A B} (m : T A) (k : A -> M errf_t pstate B) ts t Q : safe_read m -> fwd m -> reader_ok ts ->
  (forall v ts', reads_to ts (ts_stack ts) ts' -> ts_pos ts <= ts_pos ts' -> wp (k v) (ts', t) Q (refused ts t)) ->
  wp (let! v := tl m in k v) (ts, t) Q (refused ts t).
Proof. intros Hs Hf Hok Hk. by apply step_read; [..|by apply reads_to_refl|lia|done|]. Qed.

Lemma cert_member_safe : fold_safe cert_member.
Proof.
  intros tag [ci data] ts t tc st Hok Hst. unfold cert_member. case_match; [|case_match].
  - apply member_read; [apply safe_read_u8|apply fwd_read_u8|done|]. intros v ts' Hr Hp. by apply (leave_with _ _ _ _ _ tc); [left|..].
  - apply member_read; [apply safe_view|apply fwd_view|done|]. intros v ts' Hr Hp. by apply (leave_with _ _ _ _ _ tc); [right|..].
  - by apply (leave_with _ _ _ _ _ tc); [right|..|apply reads_to_refl|lia].
Qed.

Lemma gen_member_safe {C : Crypto} : fold_safe gen_member.
Proof.
  intros tag k ts t tc st Hok Hst. unfold gen_member.
  assert (forall f : list Z -> gen_key, wp (let! d := tl tlv_view in tl tlv_skip ;! cret (f d)) (ts, t) (parsed ts t st) (refused ts t)) as Hv.
  { intros f. apply member_read; [apply safe_view|apply fwd_view|done|]. intros v ts' Hr Hp. by apply (leave_with _ _ _ _ _ tc); [right|..]. }
  destruct k as [n e|nid p]; [case_match; [apply Hv|case_match; [apply Hv|]]|case_match].
  - apply member_refused. by apply reads_to_refl.
  - apply member_read; [apply safe_view|apply fwd_view|done|]. intros d ts' Hr Hp.
    destruct (ec_oct2point nid d) as [q|]; [|by apply member_refused].
    wp_step. apply wp_guard; intros _; [|by apply member_refused]. by apply (leave_with _ _ _ _ _ tc); [right|..].
  - apply member_refused. by apply reads_to_refl.
Qed.

Lemma abort_moves ts ts' : reader_ok ts -> tlv_abort ts = (Ok tt, ts') -> ts_pos ts <= ts_pos ts'.
Proof.
  intros Hok H. unfold tlv_abort in H. apply cbind_inv in H as (s & s1 & [= <- <-] & H).
  apply cbind_inv in H as ([] & s2 & H1 & H). unfold verify in H1. destruct (abort_loop _ _ _); [|done]. injection H1 as <-.
  injection H as <-. cbn. reader_facts Hok. lia.
Qed.

Lemma gen_reply_safe {C : Crypto} alg ts (t : piv_token) : reader_ok ts -> ts_stack ts = [] ->
  wp (gen_reply alg) (ts, t) (parsed ts t []) (refused ts t).
Proof.
  intros Hok Hst. unfold gen_reply. rewrite <- Hst. eapply wp_mono; [apply step_tag; [done|]|by intros ? ? []|done].
  intros tag tc ts1 Hr1 _. pose proof Hr1 as (Hok1 & _ & _ & Hst1).
  wp_step. apply wp_guard; [intros _|intros _; apply member_refused; by apply reads_to_refl].
  destruct (gen_key_new alg) as [k|].
  - wp_step. eapply wp_mono; [by apply (members_fold_safe gen_member k ts1 t tc (ts_stack ts) gen_member_safe)|..]; [|done].
    intros k' s Hs. by apply wp_ret.
  - wp_step. apply wp_tl. pose proof (safe_tlv_abort ts1 Hok1) as Ha. pose proof (abort_moves ts1) as Hm. unfold wp in Ha |- *.
    destruct (tlv_abort ts1) as [[[]|e| |] ts2]; try done. cbn. rewrite Hst. by split_and!; [|apply Hm|].
Qed.

Lemma pure_gen {C : Crypto} alg : pure_tok (gen_reply alg).
Proof. unfold gen_reply. pure_tac. apply pure_fold. intros tag k. unfold gen_member. pure_tac. Qed.

Lemma ga_response_safe ts (t : piv_token) : reader_ok ts ->
  wp ga_response (ts, t) (parsed ts t (ts_stack ts)) (refused ts t).
Proof.
  intros Hok. unfold ga_response. eapply wp_mono; [apply step_tag; [done|]|by intros ? ? []|done].
  intros tag tc ts1 Hr1 _. pose proof Hr1 as (Hok1 & _ & _ & Hst1).
  wp_step. apply wp_guard; [intros _|intros _; apply member_refused; by apply reads_to_refl].
  apply member_read; [apply safe_read_alloc|apply fwd_read_alloc|done|]. intros v ts' Hr Hp. by apply (leave_with _ _ _ _ _ tc); [left|..].
Qed.

Lemma ga_reply_safe ts (t : piv_token) : reader_ok ts -> ts_stack ts = [] -> wp ga_reply (ts, t) (parsed ts t []) (refused ts t).
Proof.
  intros Hok Hst. unfold ga_reply. rewrite <- Hst. eapply wp_mono; [apply step_tag; [done|]|by intros ? ? []|done].
  intros tag tc ts1 Hr1 _. pose proof Hr1 as (Hok1 & _ & _ & Hst1).
  wp_step. apply wp_guard; [intros _|intros _; apply member_refused; by apply reads_to_refl].
  wp_step. eapply wp_mono; [by apply ga_response_safe|..]; [|done].
  intros v [ts2 t2] (Hr2 & Hp2 & Ht2). cbn [fst snd] in *. wp_step.
  eapply wp_mono; [by apply (step_leave tlv_end ts1 t ts2 t2 tc (ts_stack ts)); [left|..]|..]; [|done].
  intros [] s Hs. by apply wp_ret.
Qed.
Lemma pure_ga : pure_tok ga_reply.
Proof. unfold ga_reply, ga_response. pure_tac. Qed.

(** ** The handle *)

Record tok_ok (t : piv_token) : Prop := {
  tk_txn : pt_intxn t = true;
  tk_slots : slots_ok t;
  tk_keys : Forall (fun s => ps_pubkey s <> FreedKey) (pt_slots t);
  tk_algs : zlen (pt_algs t) = 32 /\ pt_alg_count t <= 32;
  tk_ver : zlen (pt_ykver (pt_yk t)) = 3
}.
Definition stays_ok {A} : A -> world -> Prop := fun _ w => tok_ok (w_tok w).

Lemma same_ok {A} (m : M stop world A) (w : world) : tok_ok (w_tok w) -> wp m w (same_tok w) (same_tok w) -> wp m w stays_ok stays_ok.
Proof. intros Ht H. eapply wp_mono; [exact H|..]; intros ? ? E; unfold stays_ok, same_tok in *; by rewrite E. Qed.

Lemma upsert_keys slotid f ss : (forall s, ps_pubkey s <> FreedKey -> ps_pubkey (f s) <> FreedKey) ->
  Forall (fun s => ps_pubkey s <> FreedKey) ss -> Forall (fun s => ps_pubkey s <> FreedKey) (upsert_slot slotid f ss).
Proof.
  intros Hf. induction 1 as [|s ss Hs Hss IH]; cbn; [by constructor; [apply Hf|]|].
  destruct (ps_slot s =? slotid); constructor; auto.
Qed.

Lemma tok_ok_upsert (t : piv_token) slotid f : tok_ok t ->
  (forall s, ps_slot (f s) = slotid /\ (ps_pubkey s <> FreedKey -> ps_pubkey (f s) <> FreedKey)) ->
  tok_ok (set_slots (upsert_slot slotid f (pt_slots t)) t).
Proof.
  intros [H1 H2 H3 H4 H5] Hf. split; try done; cbn [pt_slots set_slots].
  - apply upsert_nodup; [by intros s; destruct (Hf s)|done].
  - apply upsert_keys; [by intros s; destruct (Hf s)|done].
Qed.

(** ** Certificates *)

Context (Hcerts : certs_accepted).

Lemma store_cert_run slotid cert ts (t : piv_token) : tok_ok t -> (exists k, X509_pubkey cert = Some (inr k)) ->
  exists r t', store_cert slotid cert (ts, t) = (r, (ts, t')) /\ (r = Ok tt \/ exists e, r = Er e) /\ tok_ok t' /\ same_txn t t'.
Proof.
  intros Ht (k & Hk). unfold store_cert. rewrite (cbind_ok (cgets snd) _ (ts, t) t (ts, t) eq_refl).
  assert (exists old, match piv_get_slot t slotid with Some s => free_pubkey (ps_pubkey s) | None => cret NoKey end (ts, t)
            = (Ok old, (ts, t))) as (old & E).
  { destruct (piv_get_slot t slotid) as [s|] eqn:Hs; [|by eexists]. unfold piv_get_slot in Hs. apply find_some in Hs as [Hin _].
    pose proof (tk_keys t Ht) as Hf. rewrite List.Forall_forall in Hf. specialize (Hf s Hin).
    destruct (ps_pubkey s); [by eexists..|done]. }
  rewrite (cbind_ok _ _ _ _ _ E). unfold upd_slot, tk. rewrite (cbind_ok (cmodify _) _ _ tt _ eq_refl), Hk.
  rewrite (cbind_ok (cmodify _) _ _ tt _ eq_refl). cbn [fst snd].
  set (t2 := set_slots (upsert_slot slotid _ (pt_slots (set_slots _ t))) _).
  assert (t2 = set_slots (upsert_slot slotid (fun s => Slot slotid (ps_alg s) (Some cert) (Some (X509_subject cert)) (HasKey k)) (pt_slots t)) t) as E2.
  { unfold t2, set_slots. cbn [pt_slots pt_intxn pt_reset pt_chuid pt_algs pt_alg_count pt_hist pt_authinfo pt_yk]. by rewrite upsert_upsert. }
  assert (tok_ok t2) as H2 by (rewrite E2; by apply tok_ok_upsert).
  destruct (cert_alg k) as [alg|].
  - unfold cmodify. cbn [fst snd]. eexists _, _. split; [reflexivity|]. split; [by left|]. split; [by apply tok_ok_upsert|by rewrite E2].
  - eexists _, t2. split; [reflexivity|]. split; [by right; eexists|]. split; [done|]. by rewrite E2.
Qed.

Lemma cert_reply_safe slotid ts (t : piv_token) : tok_ok t -> reader_ok ts -> ts_stack ts = [] ->
  wp (let! (certinfo, data) := template_fold 83 cert_member (0, []) in
      let! der := lift (cert_der certinfo data) in
      match d2i_X509 der with None => craise sslerrf | Some cert => store_cert slotid cert end) (ts, t)
    (fun v s => parsed ts t [] v s /\ tok_ok (snd s)) (fun e s => refused ts t e s /\ tok_ok (snd s)).
Proof.
  intros Ht Hok Hst. wp_step.
  assert (pure_tok (template_fold 83 cert_member (0, []))) as Hp.
  { unfold template_fold. pure_tac. apply pure_fold. intros tag [ci d]. unfold cert_member. pure_tac. }
  eapply wp_mono; [exact (wp_pure _ (ts, t) _ _ Hp (template_fold_safe 83 cert_member (0, []) ts t cert_member_safe Hok))|..].
  - intros [ci d] [ts1 t1] [(Hr & Hpos & _) E]. cbn [fst snd] in *. subst t1. rewrite Hst in Hr.
    assert (refused ts t tagerrf (ts1, t)) as Href by (split; [by eexists|done]).
    wp_step. unfold lift, wp. destruct (cert_der ci d) as [der|e| |] eqn:Ec; cbn.
    2: by split.
    2,3: exfalso; unfold cert_der in Ec; by repeat case_match.
    destruct (d2i_X509 der) as [cert|] eqn:Ed; [|by split].
    destruct (store_cert_run slotid cert ts1 t Ht (Hcerts _ _ Ed)) as (r & t' & E & Hres & Ht' & Hsm). rewrite E.
    destruct Hres as [->|(e & ->)]; (split; [|done]); [by split_and!|]. split; [by eexists|done].
  - intros e [ts1 t1] [Href E]. cbn [fst snd] in *. by subst t1.
Qed.

(** ** Commands *)

Context {L : ReaderLaws R} (fuel : nat).

Lemma chain_ok a f (w : world) : tok_ok (w_tok w) -> apdu_ready a ->
  wp (onerr f (piv_apdu_transceive_chain fuel a)) w (fun a' w' => tok_ok (w_tok w') /\ reply_ok (a_reply a')) stays_ok.
Proof.
  intros Ht Ha. apply wp_onerr. eapply wp_mono; [apply chain_safe; [apply Ht|done]|..].
  - intros a' w' [E Hr]. by rewrite E.
  - intros e w' E e'. unfold stays_ok. by rewrite E.
Qed.

Lemma after_chain_ok {A} a f (k : apdu -> M stop world A) (w : world) : tok_ok (w_tok w) -> apdu_ready a ->
  (forall a' w', tok_ok (w_tok w') -> reply_ok (a_reply a') -> wp (k a') w' stays_ok stays_ok) ->
  wp (let! a' := onerr f (piv_apdu_transceive_chain fuel a) in k a') w stays_ok stays_ok.
Proof. intros Ht Ha Hk. wp_step. eapply wp_mono; [by apply chain_ok| |done]. intros a' w' []. by apply Hk. Qed.

Lemma build_then {A} m bs (k : list Z -> M stop world A) (w : world) Q E :
  emits m bs -> zlen bs <= MAX_APDU_SIZE -> wp (k bs) w Q E -> wp (let! d := tlv_build m in k d) w Q E.
Proof. intros He Hl Hk. wp_step. eapply wp_runs; [by apply tlv_build_ok|done]. Qed.

(** Data that a [tlv_state] built, sent as a command. *)
Lemma after_send {A} m bs ins p1 p2 (k : apdu -> M stop world A) (w : world) : tok_ok (w_tok w) ->
  emits m bs -> 0 < zlen bs <= MAX_APDU_SIZE ->
  (forall a w', tok_ok (w_tok w') -> reply_ok (a_reply a) -> wp (k a) w' stays_ok stays_ok) ->
  wp (let! d := tlv_build m in let! a := send fuel ins p1 p2 d in k a) w stays_ok stays_ok.
Proof.
  intros Ht He Hl Hk. unfold MAX_APDU_SIZE in *. eapply build_then; [exact He|unfold MAX_APDU_SIZE; lia|].
  apply after_chain_ok; [done| |done]. apply with_cmd_ready; [|lia]. intros ->. change (zlen []) with 0 in Hl. lia.
Qed.

Lemma reply_pure_ok {A} a (m : M errf_t pstate A) (w : world) : tok_ok (w_tok w) -> reply_ok (a_reply a) -> pure_tok m ->
  (forall ts t, reader_ok ts -> ts_stack ts = [] -> wp m (ts, t) (parsed ts t []) (refused ts t)) ->
  wp (parse_reply a m) w stays_ok stays_ok.
Proof. intros Ht Hr Hp Hm. apply same_ok; [done|]. by apply parse_reply_pure. Qed.

Lemma enter_txn {A} (k : M stop world A) (w : world) Q E : tok_ok (w_tok w) -> wp k w Q E -> wp (in_txn ;! k) w Q E.
Proof. intros Ht Hk. wp_step. apply wp_in_txn; [apply Ht|done]. Qed.

Ltac settle := repeat first [wp_step | assumption | apply wp_ret; assumption | match goal with |- stays_ok _ _ => assumption end].

(** ** Certificate operations *)

Lemma get_data_ok tag (w : world) : tok_ok (w_tok w) -> 0 <= tag < 2 ^ 32 ->
  wp (get_data fuel tag) w (fun a w' => tok_ok (w_tok w') /\ reply_ok (a_reply a)) stays_ok.
Proof.
  intros Ht Hg. unfold get_data. apply enter_txn; [done|]. pose proof (zlen_tag_list tag) as Hz.
  eapply build_then; [by apply tag_list_emits|unfold MAX_APDU_SIZE; lia|].
  apply chain_ok; [done|]. apply with_cmd_ready; [|lia]. intros E. rewrite E, zlen_nil in Hz. lia.
Qed.

Lemma read_cert_ok slotid (w : world) : tok_ok (w_tok w) -> wp (piv_read_cert fuel slotid) w stays_ok stays_ok.
Proof.
  intros Ht. unfold piv_read_cert. apply enter_txn; [done|]. destruct (cert_tag slotid) as [tag|] eqn:Hg; [|done].
  wp_step. eapply wp_mono; [apply get_data_ok; [done|exact (cert_tag_range _ _ Hg)]| |done].
  intros a w' [Ht' Hr]. wp_step; [|settle]. wp_step; [done|].
  apply (parse_reply_inv a _ w' tok_ok); [done|]. intros ts Hok Hst. by apply cert_reply_safe.
Qed.

Lemma unless_ok stop m (w : world) : wp m w stays_ok stays_ok -> wp (unless stop m) w stays_ok stays_ok.
Proof.
  intros Hm. unfold unless. wp_step. apply wp_attempt. eapply wp_mono; [exact Hm|done|].
  intros e w' Hw. split; [done|]. intros e'. settle.
Qed.

Lemma read_retired_ok n : forall i (w : world), tok_ok (w_tok w) -> wp (read_retired fuel n i) w stays_ok stays_ok.
Proof.
  induction n as [|n IH]; intros i w Ht; cbn [read_retired]; [done|]. wp_step.
  eapply wp_mono; [by apply unless_ok, read_cert_ok| |done]. intros [] w' Ht'. by apply IH.
Qed.

Lemma read_all_ok (w : world) : tok_ok (w_tok w) -> wp (piv_read_all_certs fuel) w stays_ok stays_ok.
Proof.
  intros Ht. unfold piv_read_all_certs. apply enter_txn; [done|].
  do 4 (wp_step; eapply wp_mono; [by apply unless_ok, read_cert_ok| |done]; clear w Ht; intros [] w Ht).
  wp_step. wp_step. by apply read_retired_ok.
Qed.

Lemma write_file_ok tag data (w : world) : tok_ok (w_tok w) -> 0 <= tag < 2 ^ 32 -> zlen data + 11 <= MAX_APDU_SIZE ->
  wp (piv_write_file fuel tag data) w stays_ok stays_ok.
Proof.
  intros Ht Hg Hd. unfold piv_write_file, MAX_APDU_SIZE in *. apply enter_txn; [done|].
  pose proof (zlen_nonneg data). rewrite wrap_small by lia. destruct (write_file_emits tag data Hg ltac:(lia)) as [He Hz].
  eapply after_send; [done|exact He|unfold MAX_APDU_SIZE; lia|]. intros a w' Ht' Hr. settle.
Qed.

Lemma write_cert_ok slotid data flags (w : world) : tok_ok (w_tok w) -> bytes data -> zlen data + 20 <= MAX_APDU_SIZE ->
  wp (piv_write_cert fuel slotid data flags) w stays_ok stays_ok.
Proof.
  intros Ht Hb Hd. unfold piv_write_cert. apply enter_txn; [done|]. destruct (cert_tag slotid) as [tag|] eqn:Hg; [|done].
  destruct (cert_file (length data + 31) data flags) as (_ & Hz & He); [by split_and!; [..|lia]|]. unfold MAX_APDU_SIZE in Hd.
  eapply build_then; [exact He|unfold MAX_APDU_SIZE; lia|].
  apply write_file_ok; [done|exact (cert_tag_range _ _ Hg)|unfold MAX_APDU_SIZE; lia].
Qed.

Lemma attest_ok slotid (w : world) : tok_ok (w_tok w) -> wp (ykpiv_attest fuel slotid) w stays_ok stays_ok.
Proof.
  intros Ht. unfold ykpiv_attest. apply enter_txn; [done|]. wp_step. wp_step. wp_step. wp_step; [|done].
  apply after_chain_ok; [done|apply make_ready|]. intros a w' Ht' Hr. wp_step; [|settle]. wp_step; [done|].
  by apply reply_read.
Qed.

(** ** Key operations *)

Section KeyOperations.
Context {C : Crypto} {CL : CryptoLaws C} {KO : KeyOps} {KL : KeyOpsLaws KO} {EO : EcOct} {OL : EcOctLaws EO}.

Lemma generate_common_ok m bs alg slotid (w : world) : tok_ok (w_tok w) -> emits m bs -> 0 < zlen bs <= MAX_APDU_SIZE ->
  wp (let! d := tlv_build m in piv_generate_common fuel alg slotid d) w stays_ok stays_ok.
Proof.
  intros Ht He Hl. unfold piv_generate_common. eapply after_send; [done|exact He|done|].
  intros a w' Ht' Hr. wp_step; [|settle]. wp_step.
  eapply wp_mono; [apply reply_pure_ok; [done|done|apply pure_gen|intros ts t Hok Hst; by apply gen_reply_safe]| |done].
  intros [k|] w2 Ht2; done.
Qed.

Lemma generate_ok slotid alg (w : world) : tok_ok (w_tok w) -> 0 <= alg < 2 ^ 32 -> wp (piv_generate fuel slotid alg) w stays_ok stays_ok.
Proof.
  intros Ht Ha. unfold piv_generate. apply enter_txn; [done|]. pose proof (zlen_short_be alg).
  eapply generate_common_ok; [done|apply (emits_nested 172 128 _ (short_be alg)); [lia|lia|lia|done|by apply emits_write_u8to32]|].
  pose proof (zlen_object 128 127 (short_be alg) eq_refl). pose proof (zlen_object 172 127 (tlv_object 128 127 (short_be alg)) eq_refl).
  pose proof (zlen_nonneg (short_be alg)). unfold MAX_APDU_SIZE. lia.
Qed.

Definition policy_bytes (tag v dflt : Z) : list Z := if v =? dflt then [] else tlv_object tag 127 (short_be v).

Lemma policy_emits tag v dflt : short_be tag = [tag] -> 0 <= tag < 2 ^ 32 -> 0 <= v < 2 ^ 32 ->
  emits (policy tag v dflt) (policy_bytes tag v dflt) /\ zlen (policy_bytes tag v dflt) <= 9.
Proof.
  intros Hs Ht Hv. unfold policy, policy_bytes, tlv_push. pose proof (zlen_short_be v).
  destruct (v =? dflt); [split; [apply emits_ret|done]|]. pose proof (zlen_object tag 127 (short_be v) Hs). split; [|lia].
  apply emits_object; [done|lia|change (len_limit 127) with 128; lia|by apply emits_write_u8to32].
Qed.

Lemma yk_generate_ok slotid alg pin touch (w : world) : tok_ok (w_tok w) ->
  0 <= alg < 2 ^ 32 -> 0 <= pin < 2 ^ 32 -> 0 <= touch < 2 ^ 32 -> wp (ykpiv_generate fuel slotid alg pin touch) w stays_ok stays_ok.
Proof.
  intros Ht Ha Hp Hto. unfold ykpiv_generate. apply enter_txn; [done|]. wp_step. wp_step. wp_step. wp_step; [|done].
  pose proof (tk_ver _ Ht) as Hv. destruct (pt_ykver (pt_yk (w_tok w))) as [|v0 [|v1 r]]; [done|done|].
  wp_step. wp_step. wp_step. wp_step; [|done].
  destruct (policy_emits 170 pin YKPIV_PIN_DEFAULT eq_refl ltac:(lia) Hp) as [E1 Z1].
  destruct (policy_emits 171 touch YKPIV_TOUCH_DEFAULT eq_refl ltac:(lia) Hto) as [E2 Z2].
  pose proof (zlen_short_be alg). pose proof (zlen_object 128 127 (short_be alg) eq_refl) as Z3.
  set (body := tlv_object 128 127 (short_be alg) ++ policy_bytes 170 pin YKPIV_PIN_DEFAULT ++ policy_bytes 171 touch YKPIV_TOUCH_DEFAULT).
  assert (zlen body <= 27) as Hb by (unfold body; rewrite !zlen_app; lia).
  pose proof (zlen_object 172 127 body eq_refl). pose proof (zlen_nonneg body).
  apply (generate_common_ok _ (tlv_object 172 127 body)); [done| |unfold MAX_APDU_SIZE; lia].
  apply (emits_ext _ (tlv_pushl 172 127 ;! (tlv_pushl 128 127 ;! tlv_write_u8to32 alg ;! tlv_pop ;!
    policy 170 pin YKPIV_PIN_DEFAULT ;! policy 171 touch YKPIV_TOUCH_DEFAULT) ;! tlv_pop)).
  - intros ts. unfold tlv_push, cbind. repeat (match goal with |- context [match ?m ?s with _ => _ end] => destruct (m s) as [[[]| | |] ?] end; try done).
  - apply emits_object; [lia|lia|change (len_limit 127) with 128; lia|].
    apply emits_object_then; [lia|lia|change (len_limit 127) with 128; lia|by apply emits_write_u8to32|by apply emits_seq].
Qed.

(** Numbers of an import are at most [SSHBUF_MAX_BIGNUM] bytes long. *)
Definition bignum_ok (v : Z) : Prop := 0 <= v /\ BN_num_bytes v <= SSHBUF_MAX_BIGNUM.
Definition bignum_object (tag v : Z) : list Z := tlv_object tag (BN_num_bytes v) (be_bytes (Z.to_nat (BN_num_bytes v)) v).
Definition private_ok (k : private_key) : Prop :=
  match k with
  | RsaPriv _ p q dmp1 dmq1 iqmp => Forall bignum_ok [p; q; dmp1; dmq1; iqmp]
  | EcPriv _ d => bignum_ok d
  | OtherPriv => True
  end.

Lemma bignum_emits tag v : short_be tag = [tag] -> 0 <= tag < 2 ^ 32 -> bignum_ok v ->
  emits (tlv_write_bignum tag v) (bignum_object tag v) /\ 2 <= zlen (bignum_object tag v) <= 2053.
Proof.
  intros Hs Ht [Hv Hl]. change SSHBUF_MAX_BIGNUM with 2048 in Hl. unfold tlv_write_bignum, bignum_object.
  assert (0 <= BN_num_bytes v) as H0.
  { unfold BN_num_bytes. destruct (v =? 0); [lia|]. pose proof (Z.log2_nonneg v). pose proof (Z.div_pos (Z.log2 v) 8). lia. }
  change SSHBUF_MAX_BIGNUM with 2048. rewrite (proj2 (Z.ltb_ge _ _)) by done.
  assert (zlen (be_bytes (Z.to_nat (BN_num_bytes v)) v) = BN_num_bytes v) as Hz by (rewrite zlen_be_bytes; lia).
  pose proof (zlen_object tag (BN_num_bytes v) (be_bytes (Z.to_nat (BN_num_bytes v)) v) Hs). split; [|lia].
  apply emits_object; [done|lia|apply hint_limit; lia|apply emits_write].
Qed.

Lemma import_emits k alg : import_alg k = Some alg -> private_ok k ->
  exists bs, emits (import_data k) bs /\ 0 < zlen bs <= MAX_APDU_SIZE.
Proof.
  intros Ha Hk. unfold MAX_APDU_SIZE. destruct k as [bits p q dp dq qi|bits d|]; [|cbn in Hk|done].
  - apply Forall_cons in Hk as [Hp Hk]. apply Forall_cons in Hk as [Hq Hk]. apply Forall_cons in Hk as [Hdp Hk].
    apply Forall_cons in Hk as [Hdq Hk]. apply Forall_cons in Hk as [Hqi _].
    destruct (bignum_emits 1 p eq_refl ltac:(lia) Hp) as [E1 Z1]. destruct (bignum_emits 2 q eq_refl ltac:(lia) Hq) as [E2 Z2].
    destruct (bignum_emits 3 dp eq_refl ltac:(lia) Hdp) as [E3 Z3]. destruct (bignum_emits 4 dq eq_refl ltac:(lia) Hdq) as [E4 Z4].
    destruct (bignum_emits 5 qi eq_refl ltac:(lia) Hqi) as [E5 Z5].
    eexists. split; [exact (emits_seq _ _ _ _ E1 (emits_seq _ _ _ _ E2 (emits_seq _ _ _ _ E3 (emits_seq _ _ _ _ E4 E5))))|].
    rewrite !zlen_app. lia.
  - destruct (bignum_emits 6 d eq_refl ltac:(lia) Hk) as [E Hz]. exists (bignum_object 6 d). split; [exact E|lia].
Qed.

Lemma import_ok slotid k pin touch (w : world) : tok_ok (w_tok w) -> private_ok k -> wp (ykpiv_import fuel slotid k pin touch) w stays_ok stays_ok.
Proof.
  intros Ht Hk. unfold ykpiv_import. apply enter_txn; [done|]. destruct (import_alg k) as [alg|] eqn:Ha; [|done].
  destruct (import_emits k alg Ha Hk) as (bs & He & Hz). eapply after_send; [done|exact He|done|]. intros a w' Ht' Hr. settle.
Qed.

(** Data for a key of the card, and the RESPONSE. *)
Lemma ga_ok tag v alg slotid (k : apdu -> M stop world (list Z)) (w : world) : tok_ok (w_tok w) ->
  short_be tag = [tag] -> 0 <= tag < 2 ^ 32 -> zlen v <= 16000 ->
  (forall a w', tok_ok (w_tok w') -> reply_ok (a_reply a) -> wp (k a) w' stays_ok stays_ok) ->
  wp (let! d := tlv_build (ga_data tag v) in let! a := send fuel INS_GEN_AUTH alg slotid d in k a) w stays_ok stays_ok.
Proof.
  intros Ht Hs Hr Hv Hk. pose proof (ga_request_len tag v Hs). pose proof (zlen_nonneg v).
  eapply after_send; [done|by apply ga_emits|unfold MAX_APDU_SIZE; lia|done].
Qed.

Lemma ga_reply_ok' a (w : world) : tok_ok (w_tok w) -> reply_ok (a_reply a) -> wp (parse_reply a ga_reply) w stays_ok stays_ok.
Proof. intros Ht Hr. apply reply_pure_ok; [done|done|apply pure_ga|]. intros ts t Hok Hst. by apply ga_reply_safe. Qed.

Lemma prehash_ok alg slotid hash (w : world) : tok_ok (w_tok w) -> zlen hash <= 16000 ->
  wp (piv_sign_prehash fuel alg slotid hash) w stays_ok stays_ok.
Proof.
  intros Ht Hl. unfold piv_sign_prehash. apply enter_txn; [done|].
  apply ga_ok; [done|done|done|done|]. intros a w' Ht' Hr. wp_step; [by apply ga_reply_ok'|settle].
Qed.

Lemma sign_ok alg slotid hashalgo data (w : world) : tok_ok (w_tok w) -> zlen data <= 16000 ->
  wp (piv_sign fuel alg slotid hashalgo data) w stays_ok stays_ok.
Proof.
  intros Ht Hl. unfold piv_sign. apply enter_txn; [done|]. wp_step. wp_step.
  destruct (sign_plan_of _ alg hashalgo) as [p|] eqn:Hp; [|done]. apply sign_plan_ok in Hp.
  destruct (tk_algs _ Ht) as [Ha Hc]. rewrite Ha, (proj2 (Z.ltb_ge 32 _)), andb_false_r by done. wp_step. wp_step.
  destruct (sign_input_ok alg p data w Hp) as [E Hz]. unfold wp. rewrite <- cbind_assoc, (cbind_ok _ _ _ _ _ E).
  match goal with |- context [(cbind ?m ?f) ?w0] => change (wp (cbind m f) w0 stays_ok stays_ok) end.
  wp_step. eapply wp_mono; [apply prehash_ok; [done|lia]| |done]. intros sig w' Hw. by wp_step.
Qed.

Lemma ecdh_ok alg slotid nid p d (w : world) : tok_ok (w_tok w) -> wp (piv_ecdh fuel alg slotid (EcKey nid p d)) w stays_ok stays_ok.
Proof.
  intros Ht. unfold piv_ecdh. apply enter_txn; [done|]. pose proof (unc_len nid p) as Hl. destruct (unc_form nid p) as (r & Hf).
  rewrite (proj2 (Z.leb_le _ _)) by done. change SSHBUF_MAX_ECPOINT with 133 in Hl. rewrite Hf in *. cbn [verify Z.eqb Pos.eqb].
  wp_step. wp_step. wp_step. wp_step. apply ga_ok; [done|done|done|lia|].
  intros a w' Ht' Hr. wp_step; [by apply ga_reply_ok'|settle].
Qed.

Lemma auth_key_ok slot pubkey chal (w : world) : tok_ok (w_tok w) -> slot ∈ pt_slots (w_tok w) -> zlen chal <= 16000 ->
  wp (piv_auth_key fuel slot pubkey chal) w stays_ok stays_ok.
Proof.
  intros Ht Hs Hl. unfold piv_auth_key. apply enter_txn; [done|].
  pose proof (proj1 (Forall_forall _ _) (tk_keys _ Ht) slot Hs) as Hk. cbv beta in Hk. wp_step.
  assert (forall same, wp (guard same (Err (errf "KeyAuthError" (Some (errf "KeysNotEqualError" None)))) ;!
    let! (hashalg, sig) := piv_sign fuel (ps_alg slot) (ps_slot slot) 0 chal in
    match sshkey_sig_from_asn1 pubkey hashalg sig with
    | inl rv => fails (notsuperrf (Some (ssherrf rv)))
    | inr b => guard (sshkey_verify pubkey b chal =? 0) (Err (errf "KeyAuthError" (Some (ssherrf (sshkey_verify pubkey b chal)))))
    end) w stays_ok stays_ok) as Hrest; [|destruct (ps_pubkey slot); [apply wp_ret, Hrest..|done]].
  intros same. wp_step. wp_step; [|done]. wp_step. eapply wp_mono; [by apply sign_ok| |done].
  intros [hashalg sig] w' Hw. destruct (sshkey_sig_from_asn1 pubkey hashalg sig) as [rv|b]; [done|]. wp_step; done.
Qed.

(** ** Sessions *)

Inductive key_op :=
| KReadCert (slotid : Z) | KReadAll | KWriteCert (slotid : Z) (data : list Z) (flags : Z) | KAttest (slotid : Z)
| KGenerate (slotid alg : Z) | KYkGenerate (slotid alg pin touch : Z) | KImport (slotid : Z) (key : private_key) (pin touch : Z)
| KSign (alg slotid hashalgo : Z) (data : list Z) | KEcdh (alg slotid nid : Z) (p : point)
| KAuthKey (slotid : Z) (pubkey : certkey) (chal : list Z).

Definition run_key_op (op : key_op) : M stop world unit :=
  match op with
  | KReadCert slotid => piv_read_cert fuel slotid
  | KReadAll => piv_read_all_certs fuel
  | KWriteCert slotid data flags => piv_write_cert fuel slotid data flags
  | KAttest slotid => ykpiv_attest fuel slotid ;! cret tt
  | KGenerate slotid alg => piv_generate fuel slotid alg ;! cret tt
  | KYkGenerate slotid alg pin touch => ykpiv_generate fuel slotid alg pin touch ;! cret tt
  | KImport slotid key pin touch => ykpiv_import fuel slotid key pin touch
  | KSign alg slotid hashalgo data => piv_sign fuel alg slotid hashalgo data ;! cret tt
  | KEcdh alg slotid nid p => piv_ecdh fuel alg slotid (EcKey nid p None) ;! cret tt
  | KAuthKey slotid pubkey chal =>
      let! w := cget in
      match piv_get_slot (w_tok w) slotid with
      | None => cret tt
      | Some slot => piv_auth_key fuel slot pubkey chal
      end
  end.

(** What a caller has to respect: enumerations in range, and data that fit a command buffer. *)
Definition key_op_ok (op : key_op) : Prop :=
  match op with
  | KWriteCert _ data _ => bytes data /\ zlen data + 20 <= MAX_APDU_SIZE
  | KGenerate _ alg => 0 <= alg < 2 ^ 32
  | KYkGenerate _ alg pin touch => 0 <= alg < 2 ^ 32 /\ 0 <= pin < 2 ^ 32 /\ 0 <= touch < 2 ^ 32
  | KImport _ key _ _ => private_ok key
  | KSign _ _ _ data | KAuthKey _ _ data => zlen data <= 16000
  | _ => True
  end.

Lemma drop_result {A} (m : M stop world A) (w : world) : wp m w stays_ok stays_ok -> wp (m ;! cret tt) w stays_ok stays_ok.
Proof. intros Hm. wp_step. eapply wp_mono; [exact Hm|by intros; apply wp_ret|done]. Qed.

Lemma key_op_safe op (w : world) : tok_ok (w_tok w) -> key_op_ok op -> wp (run_key_op op) w stays_ok stays_ok.
Proof.
  intros Ht Hop. destruct op; cbn [run_key_op key_op_ok] in *.
  - by apply read_cert_ok.
  - by apply read_all_ok.
  - destruct Hop. by apply write_cert_ok.
  - by apply drop_result, attest_ok.
  - by apply drop_result, generate_ok.
  - destruct Hop as (? & ? & ?). by apply drop_result, yk_generate_ok.
  - by apply import_ok.
  - by apply drop_result, sign_ok.
  - by apply drop_result, ecdh_ok.
  - wp_step. wp_step. destruct (piv_get_slot (w_tok w) slotid) as [slot|] eqn:Hs; [|done].
    apply auth_key_ok; [done| |done]. unfold piv_get_slot in Hs. apply find_some in Hs as [Hin _]. by apply list_elem_of_In.
Qed.

(** A caller that performs operations one after the other and carries on after errors. *)
Fixpoint run_key_ops (ops : list key_op) : M stop world unit :=
  match ops with [] => cret tt | op :: ops' => attempt (run_key_op op) ;! run_key_ops ops' end.

Lemma key_ops_safe ops : forall w : world, tok_ok (w_tok w) -> Forall key_op_ok ops -> wp (run_key_ops ops) w stays_ok stays_ok.
Proof.
  induction ops as [|op ops IH]; intros w Ht Hops; cbn [run_key_ops]; [done|].
  apply Forall_cons in Hops as [Hop Hops]. wp_step. apply wp_attempt.
  eapply wp_mono; [by apply key_op_safe|..]; intros ? w' Ht'; [by apply IH|]. split; [done|]. intros ?. by apply IH.
Qed.
End KeyOperations.
End Safe.

(** The handle of a token stays well formed, whatever the card answers, byte by byte, to any sequence of certificate and key
    operations in a transaction (reading one or all certificates, writing one, attestation, generating and
    importing keys, signing, proof of a key, ECDH). After each of them, failed or not, there is at most one slot
    for each number, no slot keeps a freed key, the tables are within their size and the transaction is still open; and no
    operation reads or writes outside its buffers or fails a [VERIFY]. Certificates that parse are
    taken to hold a key that OpenSSL and libssh accept; [cert_unknown_key_aborts] and [cert_double_free] are what happens otherwise. *)
Theorem key_session_safe {X : Certs} {R : Reader} {C : Crypto} {KO : KeyOps} {EO : EcOct}
    (L : ReaderLaws R) (CL : CryptoLaws C) (KL : KeyOpsLaws KO) (OL : EcOctLaws EO) fuel (ops : list key_op) (w : world) :
  certs_accepted -> tok_ok (w_tok w) -> Forall key_op_ok ops ->
  wp (run_key_ops fuel ops) w (fun _ w' => tok_ok (w_tok w')) (fun _ w' => tok_ok (w_tok w')).
Proof. intros Hc. exact (key_ops_safe Hc fuel ops w). Qed.

Module GoodCerts.
(** Certificates that all have a key of NIST P-256. *)
Definition certs : Certs := {|
  x509 := list Z; certkey := Z * Z;
  d2i_X509 := fun d => match d with [] => None | _ => Some d end;
  X509_subject := fun c => c;
  X509_pubkey := fun _ => Some (inr (KEY_ECDSA, 256));
  certkey_type := fst; certkey_size := snd;
  inflate := fun _ _ => None
|}.
Definition keyops : KeyOps (X := certs) := {|
  certkey_equal := fun _ _ => true; sshkey_sig_from_asn1 := fun _ _ s => inr s; sshkey_verify := fun _ _ _ => 0;
  i2d_X509_SIG := fun h d => 48 :: h :: d
|}.
Lemma good_keyops : KeyOpsLaws keyops.
Proof. constructor. intros h d. cbn. rewrite !zlen_cons. lia. Qed.
Lemma good_accepted : certs_accepted (X := certs).
Proof. intros der cert _. by eexists. Qed.
Definition token : piv_token (X := certs) := set_txn true false piv_token_calloc.
Lemma token_ok : tok_ok token.
Proof. by split; [|constructor|constructor|split|]. Qed.
End GoodCerts.

(** Two certificates for the same slot, a signature that is cut short and a key with a stray tag. *)
Lemma key_session_safe_witness :
  let w := World (R := script_reader) GoodCerts.token
             [[83; 6; 112; 1; 9; 113; 1; 0; 144; 0]; [83; 6; 112; 1; 8; 113; 1; 0; 144; 0]; [124; 9; 130; 7; 1; 144; 0]; [127; 73; 3; 133; 1; 0; 144; 0]] in
  let ops := [KReadCert PIV_SLOT_9A; KReadCert PIV_SLOT_9A; KSign PIV_ALG_ECCP256 PIV_SLOT_9A 0 [1; 2; 3]; KGenerate PIV_SLOT_9A PIV_ALG_ECCP256] in
  wp (run_key_ops (KO := GoodCerts.keyops) (EO := ToyKeys.ecoct) 9 ops) w (fun _ w' => tok_ok (w_tok w')) (fun _ w' => tok_ok (w_tok w')).
Proof.
  apply (key_session_safe (KO := GoodCerts.keyops) script_laws Toy.toy_laws GoodCerts.good_keyops ToyKeys.ecoct_laws 9
    [KReadCert PIV_SLOT_9A; KReadCert PIV_SLOT_9A; KSign PIV_ALG_ECCP256 PIV_SLOT_9A 0 [1; 2; 3]; KGenerate PIV_SLOT_9A PIV_ALG_ECCP256]).
  - exact GoodCerts.good_accepted.
  - exact GoodCerts.token_ok.
  - repeat (apply Forall_cons_2; [try exact I|]); [apply Z.leb_le; reflexivity|split; [apply Z.leb_le|apply Z.ltb_lt]; reflexivity|apply Forall_nil_2].
Defined.
