(* ===== verification/PivEnum.v ===== *)
(** * Finding tokens (piv.c)

    [piv_enumerate] lists the tokens in all readers, [piv_find] looks for the one with a GUID, [piv_release] lets them go and
    [piv_box_find_token] chooses the token that opens a box. The state is the list of readers, each with the
    number of connections that are open; connecting and disconnecting are the parameter [Pcsc].
    Proved: the loops find exactly the tokens that answer, and every connection that is not handed out is closed. *)
From stdpp Require Import base list strings.
From Stdlib Require Import ZArith Lia.
From S2P Require Import Prelude Errf Algs Tlv PivBox EboxTpl PivToken Apdu ApduChain PivPin PivFiles PivParse PivCert.

Local Open Scope string_scope.
Local Open Scope list_scope.
Local Open Scope Z_scope.
Local Open Scope c_scope.

Definition SCARD_PROTOCOL_T0 : Z := 1.
Definition SCARD_PROTOCOL_T1 : Z := 2.

(** [SCardConnect] gives an error code or the active protocol. [SCardDisconnect] gets its disposition. *)
Class Pcsc {R : Reader} := {
  SCardConnect : card -> (Z + Z) * card;
  SCardDisconnect : Z -> card -> card
}.
(** [sshkey_equal_public] of the key in a certificate and the key of a box; a null key is equal to none. *)
Class SameKey {X : Certs} {C : Crypto} := { same_public : certkey -> option sshkey -> bool }.

Section Enum.
Context {X : Certs} {R : Reader} {PS : Pcsc} {C : Crypto}.
Context (fuel : nat).
Local Abbreviation P := (M stop world).

(** ** Readers *)

(** A reader, its open connections and its card. *)
Record reader := Rdr { rd_name : list Z; rd_open : Z; rd_card : card }.
(** A token that was allocated: the reader it is connected to, [pt_proto] and the rest. *)
Record tkn := Tkn { tk_rdr : nat; tk_proto : Z; tk_tok : piv_token }.
Local Abbreviation E := (M stop (list reader)).

Definition connect (i : nat) : E (Z + Z) :=
  fun rs => match rs !! i with
            | None => (Fault, rs)
            | Some r =>
                let '(v, c) := SCardConnect (rd_card r) in
                (Ok v, <[i := Rdr (rd_name r) (match v with inl _ => rd_open r | inr _ => rd_open r + 1 end) c]> rs)
            end.
Definition disconnect (i : nat) (disposition : Z) : E unit :=
  fun rs => match rs !! i with
            | None => (Fault, rs)
            | Some r => (Ok tt, <[i := Rdr (rd_name r) (rd_open r - 1) (SCardDisconnect disposition (rd_card r))]> rs)
            end.
(** [err = m(key)]: the call works on the token and on the card in its reader. *)
Definition call {A} (key : tkn) (m : P A) : E ((errf_t + A) * tkn) :=
  fun rs => match rs !! tk_rdr key with
            | None => (Fault, rs)
            | Some r =>
                let '(v, w) := attempt m (World (tk_tok key) (rd_card r)) in
                (match v with
                 | Ok a => Ok (a, Tkn (tk_rdr key) (tk_proto key) (w_tok w))
                 | Er e => Er e
                 | Panic => Panic
                 | Fault => Fault
                 end, <[tk_rdr key := Rdr (rd_name r) (rd_open r) (w_card w)]> rs)
            end.
(** A call whose error is not looked at. *)
Definition call_ {A} (key : tkn) (m : P A) : E tkn := let! (_, key) := call key m in cret key.

(** ** What is read of a token *)

(** [err = m; if (errf_caused_by(err, ...)) { err = ERRF_OK; fallback }] *)
Definition tolerate (names : list string) (fallback m : P unit) : P unit :=
  let! r := attempt m in
  match r with
  | inr _ => cret tt
  | inl e => if existsb (errf_caused_by (Some e)) names then fallback else fails e
  end.

Definition no_chuid : P unit :=
  upd_tok (fun t => let c := pt_chuid t in
                    set_chuid (Chuid (pt_guid c) true (pt_signedchuid c) (pt_fascn c) (pt_fascn_len c)
                                 (pt_expiry c) (pt_haschuuid c) (pt_chuuid c)) t).
Definition app_pin : P unit :=
  upd_tok (fun t => let a := pt_authinfo t in set_auth (Auth PIV_PIN (pt_pin_global a) true (pt_occ a) (pt_vci a)) t).

(** The discovery object, the key history, and version and serial number. *)
Definition read_rest : P unit :=
  tolerate ["NotFoundError"; "NotSupportedError"] app_pin (piv_read_discov fuel) ;!
  tolerate ["NotFoundError"; "NotSupportedError"] (cret tt) (piv_read_keyhist fuel) ;!
  tolerate ["NotSupportedError"] (cret tt) (ykpiv_get_version fuel ;! ykpiv_read_serial fuel).

Definition probe : P unit :=
  piv_select fuel ;!
  tolerate ["NotFoundError"] no_chuid (piv_read_chuid fuel) ;!
  read_rest.

Definition known_proto (proto : Z) : bool := (proto =? SCARD_PROTOCOL_T0) || (proto =? SCARD_PROTOCOL_T1).

(** ** Enumeration *)

(** The readers from the one with number [i]; [ks] are the tokens so far. When the transaction cannot be begun the
    connection is not closed. *)
Fixpoint enum_loop (n i : nat) (ks : list tkn) : E (list tkn) :=
  match n with
  | O => cret ks
  | S n' =>
      let! c := connect i in
      match c with
      | inl _ => enum_loop n' (S i) ks
      | inr proto =>
          verify (known_proto proto) ;!
          let! (err, key) := call (Tkn i proto piv_token_calloc) (piv_txn_begin fuel) in
          match err with
          | inl _ => enum_loop n' (S i) ks
          | inr _ =>
              let! (err, key) := call key probe in
              let! key := call_ key piv_txn_end in
              match err with
              | inr _ => enum_loop n' (S i) (key :: ks)
              | inl _ => disconnect i SCARD_RESET_CARD ;! enum_loop n' (S i) ks
              end
          end
      end
  end.

(** [listed]: whether both calls of [SCardListReaders] succeed. *)
Definition piv_enumerate (listed : bool) : E (list tkn) :=
  guard listed (Err pcscerrf) ;!
  let! rs := cget in
  enum_loop (length rs) 0 [].

(** ** Search *)

(** [*token] of a successful search: a token, or a pointer to one that was freed. *)
Inductive found_token := Found (k : tkn) | FreedToken.

(** [bcmp(guid, pt_guid, guidlen) == 0] *)
Definition guid_prefix (guid : list Z) (t : piv_token) : bool :=
  bool_decide (take (length guid) (pt_guid (pt_chuid t)) = guid).

Definition DuplicateError : errf_t := errf "DuplicateError" None.
Definition NoTokenError : errf_t := errf "NotFoundError" None.

(** Gives up a token: out of its transaction, its card reset and disconnected. *)
Definition let_go (key : tkn) : E unit := call_ key piv_txn_end ;! disconnect (tk_rdr key) SCARD_RESET_CARD.

(** A token that matches. *)
Definition take_found (found : option tkn) (key : tkn) (k : option tkn -> E (option tkn)) : E (option tkn) :=
  match found with
  | Some f => let_go key ;! let_go f ;! craise (Err DuplicateError)
  | None => k (Some key)
  end.

Fixpoint find_loop (guid : list Z) (n i : nat) (found : option tkn) : E (option tkn) :=
  match n with
  | O => cret found
  | S n' =>
      let next := find_loop guid n' (S i) in
      let! c := connect i in
      match c with
      | inl _ => next found
      | inr proto =>
          verify (known_proto proto) ;!
          let! (err, key) := call (Tkn i proto piv_token_calloc) (piv_txn_begin fuel) in
          match err with
          | inl _ => disconnect i SCARD_RESET_CARD ;! next found
          | inr _ =>
              let! (err, key) := call key (piv_select fuel) in
              match err with
              | inl _ => let_go key ;! next found
              | inr _ =>
                  let! (err, key) := call key (piv_read_chuid fuel) in
                  match err with
                  | inl e =>
                      if errf_caused_by (Some e) "NotFoundError" && bool_decide (guid = [])
                      then let! key := call_ key no_chuid in take_found found key next
                      else let_go key ;! next found
                  | inr _ =>
                      if GUID_LEN <? zlen guid then cfault
                      else if bool_decide (guid = []) || negb (guid_prefix guid (tk_tok key)) then let_go key ;! next found
                      else take_found found key next
                  end
              end
          end
      end
  end.

Definition piv_find (listed : bool) (guid : list Z) : E found_token :=
  guard listed (Err pcscerrf) ;!
  let! rs := cget in
  let! found := find_loop guid (length rs) 0 None in
  match found with
  | None => craise (Err NoTokenError)
  | Some key =>
      let! (err, key) := call key read_rest in
      let! key := call_ key piv_txn_end in
      match err with
      | inr _ => cret (Found key)
      | inl _ => disconnect (tk_rdr key) SCARD_RESET_CARD ;! cret FreedToken
      end
  end.

(** ** Release *)

Definition freed_key (s : piv_slot) : bool := match ps_pubkey s with FreedKey => true | _ => false end.

Fixpoint piv_release (ks : list tkn) : E unit :=
  match ks with
  | [] => cret tt
  | key :: ks' =>
      verify (negb (pt_intxn (tk_tok key))) ;!
      disconnect (tk_rdr key) SCARD_LEAVE_CARD ;!
      (if existsb freed_key (pt_slots (tk_tok key)) then cfault else cret tt) ;!
      piv_release ks'
  end.

(** ** The token of a box *)

Context {SK : SameKey}.

(** The slot, whose certificate is read when it is not known yet. The token is returned as the calls leave it. *)
Definition load_slot (key : tkn) (slotid : Z) : E ((errf_t + piv_slot) * tkn) :=
  match piv_get_slot (tk_tok key) slotid with
  | Some s => cret (inr s, key)
  | None =>
      let! (err, key) := call key (piv_txn_begin fuel) in
      match err with
      | inl e => cret (inl e, key)
      | inr _ =>
          let! (err, key) := call key (piv_select fuel ;! piv_read_cert fuel slotid) in
          let! key := call_ key piv_txn_end in
          match err with
          | inl e => cret (inl e, key)
          | inr _ => match piv_get_slot (tk_tok key) slotid with Some s => cret (inr s, key) | None => cfault end
          end
      end
  end.

Definition slot_opens (s : piv_slot) (pub : option sshkey) : E bool :=
  match ps_pubkey s with NoKey => cret false | HasKey k => cret (same_public k pub) | FreedKey => cfault end.

(** The second loop: any token with the key in the slot; [seen] are the tokens before, in reverse. The result is the list of
    tokens as the calls leave them, and the position of the token with its slot. *)
Fixpoint find_by_key (seen tks : list tkn) (slotid : Z) (pub : option sshkey) : E (list tkn * (errf_t + nat * piv_slot)) :=
  match tks with
  | [] => cret (rev seen, inl NoTokenError)
  | key :: tks' =>
      let! (r, key) := load_slot key slotid in
      match r with
      | inl _ => find_by_key (key :: seen) tks' slotid pub
      | inr s =>
          let! same := slot_opens s pub in
          if same : bool then cret (rev seen ++ key :: tks', inr (length seen, s)) else find_by_key (key :: seen) tks' slotid pub
      end
  end.

(** The position of the token with the GUID. *)
Definition guid_index (guid : list Z) (tks : list tkn) : option (nat * tkn) :=
  list_find (fun key => pt_guid (pt_chuid (tk_tok key)) = guid) tks.

Definition piv_box_find_token (tks : list tkn) (box : piv_ecdh_box) : E (list tkn * (errf_t + nat * piv_slot)) :=
  match guid_index (pdb_guid box) tks with
  | None =>
      let slotid := if (pdb_slot box =? 0) || (pdb_slot box =? 255) then PIV_SLOT_KEY_MGMT else pdb_slot box in
      find_by_key [] tks slotid (pdb_pub box)
  | Some (i, key) =>
      let! (r, key) := load_slot key (pdb_slot box) in
      let tks := <[i := key]> tks in
      match r with
      | inl e => cret (tks, inl e)
      | inr s =>
          let! same := slot_opens s (pdb_pub box) in
          cret (tks, if same : bool then inr (i, s) else inl NoTokenError)
      end
  end.
End Enum.

(** * What calls leave alone *)

Section Frame.
Context {S B : Type} (f : S -> B).

(** [f] of the state is the same after [m], however it ends. *)
Definition keeps {E A} (m : M E S A) : Prop := forall s, f (snd (m s)) = f s.

Lemma keeps_bind {E A A'} (m : M E S A) (k : A -> M E S A') : keeps m -> (forall a, keeps (k a)) -> keeps (cbind m k).
Proof.
  intros Hm Hk s. unfold cbind. specialize (Hm s). destruct (m s) as [[a|e| |] s']; cbn in *; try done. by rewrite Hk.
Qed.
Lemma keeps_modify {E} (g : S -> S) : (forall s, f (g s) = f s) -> keeps (cmodify (E := E) g).
Proof. intros Hg s. apply Hg. Qed.
Lemma keeps_verify {E} b : keeps (verify (E := E) b).
Proof. by destruct b. Qed.
Lemma keeps_guard {E} b (e : E) : keeps (guard b e).
Proof. by destruct b. Qed.
End Frame.

Ltac keeps_tac := repeat first
  [ match goal with
    | |- keeps _ (cbind _ _) => apply keeps_bind; [|intros ?]
    | |- keeps _ (verify _) => apply keeps_verify
    | |- keeps _ (guard _ _) => apply keeps_guard
    end
  | solve [auto with keeps] | by intros ?
  | match goal with
    | |- keeps _ (if ?b then _ else _) => destruct b
    | |- keeps _ (match ?x with _ => _ end) => destruct x
    end ].
Create HintDb keeps discriminated.

Section Frames.
Context {X : Certs} {R : Reader} {C : Crypto} {B : Type} (obs : piv_token -> B).
Local Abbreviation fw := (fun w : world => obs (w_tok w)).
Local Abbreviation fq := (fun s : pstate => obs (snd s)).

Lemma keeps_transmit cmd room : keeps fw (transmit cmd room).
Proof. intros w. unfold transmit. by destruct (SCardTransmit _ _ _). Qed.
Lemma keeps_buffer a : keeps fw (apdu_to_buffer (E := stop) a).
Proof. unfold apdu_to_buffer. keeps_tac. Qed.
Lemma keeps_recv a r bs : keeps fw (reply_recv a r bs).
Proof. unfold reply_recv. keeps_tac. Qed.
#[local] Hint Resolve keeps_transmit keeps_buffer keeps_recv : keeps.
Lemma keeps_exchange a : keeps fw (piv_apdu_transceive a).
Proof. unfold piv_apdu_transceive, in_txn. keeps_tac. Qed.
#[local] Hint Resolve keeps_exchange : keeps.
Lemma keeps_send n : forall rem a, keeps fw (send_loop n rem a).
Proof. induction n as [|n IH]; intros rem a; cbn [send_loop]; keeps_tac. Qed.
Lemma keeps_recvs n : forall g a, keeps fw (recv_loop n g a).
Proof. induction n as [|n IH]; intros g a; cbn [recv_loop]; keeps_tac. Qed.
#[local] Hint Resolve keeps_send keeps_recvs : keeps.
Lemma keeps_chain n a : keeps fw (piv_apdu_transceive_chain n a).
Proof. unfold piv_apdu_transceive_chain, in_txn. keeps_tac. Qed.
Lemma keeps_onerr {A} g (m : M stop world A) : keeps fw m -> keeps fw (onerr g m).
Proof. intros Hm w. unfold onerr, cmaperr. specialize (Hm w). by destruct (m w) as [[] ?]. Qed.
Lemma keeps_build m : keeps fw (tlv_build m).
Proof. intros w. unfold tlv_build. by destruct (m tlv_init_write) as [[] ?]. Qed.
Lemma keeps_attempt {A} (m : M stop world A) : keeps fw m -> keeps fw (attempt m).
Proof. intros Hm w. unfold attempt. specialize (Hm w). by destruct (m w) as [[|[]| |] ?]. Qed.
Lemma keeps_parse {A} a (m : M errf_t pstate A) : keeps fq m -> keeps fw (parse_reply a m).
Proof.
  intros Hm w. unfold parse_reply. destruct (b_data (a_reply a)) as [d|]; [|done].
  specialize (Hm (tlv_init d (b_offset (a_reply a)) (b_len (a_reply a)), w_tok w)). destruct (m _) as [r [ts t]]. cbn in Hm.
  destruct r; repeat case_match; done.
Qed.
Lemma keeps_tl {A} (m : T A) : keeps fq (tl m).
Proof. intros [ts t]. unfold tl. cbn. by destruct (m ts). Qed.
#[local] Hint Resolve keeps_chain keeps_onerr keeps_build keeps_attempt keeps_parse keeps_tl : keeps.
Lemma keeps_each n body : (forall tag, keeps fq (body tag)) -> keeps fq (each_tag n body).
Proof. intros Hb. induction n as [|n IH]; cbn [each_tag]; keeps_tac. Qed.
Lemma keeps_template outer body : (forall tag, keeps fq (body tag)) -> keeps fq (template outer body).
Proof. intros Hb. unfold template, tags. keeps_tac. by apply keeps_each. Qed.
#[local] Hint Resolve keeps_each keeps_template : keeps.
Lemma keeps_get n tag : keeps fw (get_data n tag).
Proof. unfold get_data, in_txn. keeps_tac. Qed.
#[local] Hint Resolve keeps_get : keeps.

Context (Hhist : forall v t, obs (set_hist v t) = obs t) (Hauth : forall v t, obs (set_auth v t) = obs t)
  (Hyk : forall v t, obs (set_yk v t) = obs t).

Lemma keeps_tolerate names m1 m2 : keeps fw m1 -> keeps fw m2 -> keeps fw (tolerate names m1 m2).
Proof. intros H1 H2. unfold tolerate. keeps_tac. Qed.
#[local] Hint Resolve keeps_tolerate : keeps.
Lemma keeps_discov n : keeps fw (piv_read_discov n).
Proof.
  unfold piv_read_discov. keeps_tac. apply keeps_parse, keeps_template. intros tag. unfold discov_member, tk. keeps_tac.
  - intros s. unfold aid_matches. by case_match.
  - apply keeps_modify. intros s. apply Hauth.
Qed.
Lemma keeps_keyhist n : keeps fw (piv_read_keyhist n).
Proof.
  unfold piv_read_keyhist. keeps_tac. apply keeps_parse, keeps_template. intros tag. unfold hist_member, tk. keeps_tac;
    apply keeps_modify; intros s; apply Hhist.
Qed.
Lemma keeps_reply a : keeps fw (piv_apdu_get_reply (E := stop) a).
Proof. intros w. unfold piv_apdu_get_reply. by repeat case_match. Qed.
#[local] Hint Resolve keeps_reply : keeps.
Lemma keeps_version n : keeps fw (ykpiv_get_version n).
Proof. unfold ykpiv_get_version, in_txn, upd_tok. keeps_tac. apply keeps_modify. intros w. apply Hyk. Qed.
Lemma keeps_serial n : keeps fw (ykpiv_read_serial n).
Proof. unfold ykpiv_read_serial, in_txn, upd_tok. keeps_tac. apply keeps_modify. intros w. apply Hyk. Qed.
#[local] Hint Resolve keeps_discov keeps_keyhist keeps_version keeps_serial : keeps.
Lemma keeps_rest n : keeps fw (read_rest n).
Proof. unfold read_rest, app_pin, upd_tok. keeps_tac; apply keeps_tolerate; keeps_tac. apply keeps_modify. intros w. apply Hauth. Qed.

Context (Hchuid : forall v t, obs (set_chuid v t) = obs t) (Halgs : forall v n t, obs (set_algs v n t) = obs t).

Lemma keeps_no_chuid : keeps fw no_chuid.
Proof. apply keeps_modify. intros w. apply Hchuid. Qed.
Lemma keeps_chuid_of g : keeps fq (chuid_of g).
Proof. apply keeps_modify. intros s. apply Hchuid. Qed.
#[local] Hint Resolve keeps_no_chuid keeps_chuid_of keeps_rest : keeps.
Lemma keeps_chuid n : keeps fw (piv_read_chuid n).
Proof. unfold piv_read_chuid. keeps_tac. apply keeps_parse. keeps_tac. apply keeps_template. intros tag. unfold chuid_member. keeps_tac. Qed.
Lemma keeps_algs g : (forall t, exists v n, g t = set_algs v n t) -> keeps fq (tk g).
Proof. intros Hg. apply keeps_modify. intros s. cbn. destruct (Hg (snd s)) as (v & n & ->). apply Halgs. Qed.
Lemma keeps_select n : keeps fw (piv_select n).
Proof.
  unfold piv_select, in_txn. keeps_tac. apply keeps_parse, keeps_template. intros tag. unfold select_member, tags. keeps_tac.
  apply keeps_each. intros tag'. unfold alg_member, store_alg. keeps_tac; apply keeps_algs; intros t; by eexists _, _.
Qed.
#[local] Hint Resolve keeps_chuid keeps_select : keeps.
Lemma keeps_probe n : keeps fw (probe n).
Proof. unfold probe. keeps_tac. Qed.
End Frames.

(** * The loops, reader by reader *)

Section Loops.
Context {X : Certs} {R : Reader} {PS : Pcsc} {C : Crypto} (fuel : nat).
Local Abbreviation opens rs := (rd_open <$> rs).

(** The token and the card after [piv_txn_end]. *)
Definition ended (w : world) : world := snd (piv_txn_end w).

Lemma end_run (w : world) : pt_intxn (w_tok w) = true -> piv_txn_end w = (Ok tt, ended w) /\ w_tok (ended w) = set_txn false false (w_tok w).
Proof.
  intros Ht. unfold ended, piv_txn_end, in_txn, end_txn, cbind, cget, verify. rewrite Ht. cbn.
  destruct (SCardEndTransaction _ _) as [rv c]. by cbn.
Qed.
Lemma begin_run n (w w' : world) : piv_txn_begin n w = (Ok tt, w') -> pt_intxn (w_tok w') = true /\ pt_slots (w_tok w') = pt_slots (w_tok w).
Proof.
  assert (keeps (fun w : world => w_tok w) (begin_loop n)) as Hb.
  { induction n as [|n IH]; cbn [begin_loop]; keeps_tac; intros v; unfold begin_txn, reconnect;
      [destruct (SCardBeginTransaction _)|destruct (SCardReconnect _)]; done. }
  unfold piv_txn_begin, cbind, cget, verify. intros H. destruct (pt_intxn (w_tok w)); [done|]. cbn in H. specialize (Hb w).
  destruct (begin_loop n w) as [[rv|e| |] w1]; try done. cbn in Hb. destruct (rv =? SCARD_S_SUCCESS); [|done]. injection H as <-. cbn. by rewrite Hb.
Qed.

(** ** Calls *)

Lemma call_ok {A} (key : tkn) (m : M stop world A) rs r a w :
  rs !! tk_rdr key = Some r -> m (World (tk_tok key) (rd_card r)) = (Ok a, w) ->
  call key m rs = (Ok (inr a, Tkn (tk_rdr key) (tk_proto key) (w_tok w)), <[tk_rdr key := Rdr (rd_name r) (rd_open r) (w_card w)]> rs).
Proof. intros Hr Hm. unfold call, attempt. by rewrite Hr, Hm. Qed.
Lemma call_er {A} (key : tkn) (m : M stop world A) rs r e w :
  rs !! tk_rdr key = Some r -> m (World (tk_tok key) (rd_card r)) = (Er (Err e), w) ->
  call key m rs = (Ok (inl e, Tkn (tk_rdr key) (tk_proto key) (w_tok w)), <[tk_rdr key := Rdr (rd_name r) (rd_open r) (w_card w)]> rs).
Proof. intros Hr Hm. unfold call, attempt. by rewrite Hr, Hm. Qed.
Lemma call_end (key : tkn) rs r : rs !! tk_rdr key = Some r -> pt_intxn (tk_tok key) = true ->
  let w := ended (World (tk_tok key) (rd_card r)) in
  call_ key piv_txn_end rs = (Ok (Tkn (tk_rdr key) (tk_proto key) (w_tok w)), <[tk_rdr key := Rdr (rd_name r) (rd_open r) (w_card w)]> rs).
Proof.
  intros Hr Ht w. unfold call_. by rewrite (cbind_ok _ _ _ _ _ (call_ok _ _ _ _ _ _ Hr (proj1 (end_run (World (tk_tok key) (rd_card r)) Ht)))).
Qed.
Lemma disconnect_ok i d rs r : rs !! i = Some r ->
  disconnect i d rs = (Ok tt, <[i := Rdr (rd_name r) (rd_open r - 1) (SCardDisconnect d (rd_card r))]> rs).
Proof. intros Hr. unfold disconnect. by rewrite Hr. Qed.
Lemma connect_ok i rs r v c : rs !! i = Some r -> SCardConnect (rd_card r) = (v, c) ->
  connect i rs = (Ok v, <[i := Rdr (rd_name r) (match v with inl _ => rd_open r | inr _ => rd_open r + 1 end) c]> rs).
Proof. intros Hr Hc. unfold connect. by rewrite Hr, Hc. Qed.
Lemma at_insert (rs : list reader) i (r r' : reader) : rs !! i = Some r -> <[i := r']> rs !! i = Some r'.
Proof. intros H. apply list_lookup_insert_eq. by apply lookup_lt_Some in H. Qed.

Lemma let_go_ok (key : tkn) rs r : rs !! tk_rdr key = Some r -> pt_intxn (tk_tok key) = true ->
  let_go key rs = (Ok tt, <[tk_rdr key := Rdr (rd_name r) (rd_open r - 1)
                       (SCardDisconnect SCARD_RESET_CARD (w_card (ended (World (tk_tok key) (rd_card r)))))]> rs).
Proof.
  intros Hr Ht. unfold let_go. rewrite (cbind_ok _ _ _ _ _ (call_end _ _ _ Hr Ht)).
  erewrite disconnect_ok by (by eapply at_insert). cbn [rd_name rd_open rd_card]. by rewrite list_insert_insert_eq.
Qed.

(** ** One reader of an enumeration *)

Inductive visit := Away (c : card) | Listed (proto : Z) (w : world) | Refused (c : card).

(** What the loop does with a card: it is not there, it answers as a PIV card, or it is refused. The remaining cases are a
    transaction that cannot begin, a card that never completes an answer and one that lists too many algorithms. *)
Inductive visits (c : card) : visit -> Prop :=
| visit_away e c1 : SCardConnect c = (inl e, c1) -> visits c (Away c1)
| visit_listed proto c1 w2 w3 :
    SCardConnect c = (inr proto, c1) -> known_proto proto = true ->
    piv_txn_begin fuel (World piv_token_calloc c1) = (Ok tt, w2) -> probe fuel w2 = (Ok tt, w3) -> visits c (Listed proto (ended w3))
| visit_refused proto c1 w2 e w3 :
    SCardConnect c = (inr proto, c1) -> known_proto proto = true ->
    piv_txn_begin fuel (World piv_token_calloc c1) = (Ok tt, w2) -> probe fuel w2 = (Er (Err e), w3) ->
    visits c (Refused (SCardDisconnect SCARD_RESET_CARD (w_card (ended w3)))).

Definition after (r : reader) (v : visit) : reader :=
  match v with
  | Away c | Refused c => Rdr (rd_name r) (rd_open r) c
  | Listed _ w => Rdr (rd_name r) (rd_open r + 1) (w_card w)
  end.
Definition add_token (i : nat) (v : visit) (ks : list tkn) : list tkn :=
  match v with Listed proto w => Tkn i proto (w_tok w) :: ks | _ => ks end.

Definition slots_txn (t : piv_token) : list piv_slot * bool := (pt_slots t, pt_intxn t).
Lemma probe_keeps w r w' : probe fuel w = (r, w') -> slots_txn (w_tok w') = slots_txn (w_tok w).
Proof. intros E. pose proof (keeps_probe slots_txn ltac:(done) ltac:(done) ltac:(done) ltac:(done) ltac:(done) fuel w) as H. cbn in H. by rewrite E in H. Qed.
Lemma probed_end n (w w2 w3 : world) r : piv_txn_begin n w = (Ok tt, w2) -> probe fuel w2 = (r, w3) ->
  pt_intxn (w_tok w3) = true /\ pt_slots (w_tok w3) = pt_slots (w_tok w).
Proof.
  intros [Ht Hs]%begin_run [= Hs' Ht']%probe_keeps. by rewrite Ht', Hs', Ht, Hs.
Qed.

Lemma enum_step n i ks rs r v : rs !! i = Some r -> visits (rd_card r) v ->
  enum_loop fuel (S n) i ks rs = enum_loop fuel n (S i) (add_token i v ks) (<[i := after r v]> rs).
Proof.
  intros Hr Hv. cbn [enum_loop]. destruct Hv as [e c1 Hc|proto c1 w2 w3 Hc Hp Hb Hpr|proto c1 w2 e w3 Hc Hp Hb Hpr];
    rewrite (cbind_ok _ _ _ _ _ (connect_ok _ _ _ _ _ Hr Hc)); [done|..]; rewrite Hp; cbn [verify]; rewrite cbind_ret_l;
    (erewrite cbind_ok; [|apply (call_ok (Tkn i proto piv_token_calloc)); [by eapply at_insert|exact Hb]]); cbn [tk_rdr tk_proto tk_tok rd_name rd_open rd_card];
    rewrite list_insert_insert_eq; destruct (probed_end _ _ _ _ _ Hb Hpr) as [Ht _]; destruct w2 as [t2 c2]; destruct w3 as [t3 c3]; cbn [w_tok w_card] in *.
  - erewrite cbind_ok; [|apply (call_ok (Tkn i proto t2)); [by eapply at_insert|exact Hpr]]. cbn [tk_rdr tk_proto tk_tok rd_name rd_open rd_card].
    rewrite list_insert_insert_eq.
    erewrite cbind_ok; [|apply (call_end (Tkn i proto t3)); [by eapply at_insert|exact Ht]]. cbn [tk_rdr tk_proto tk_tok rd_name rd_open rd_card].
    by rewrite list_insert_insert_eq.
  - erewrite cbind_ok; [|apply (call_er (Tkn i proto t2)); [by eapply at_insert|exact Hpr]]. cbn [tk_rdr tk_proto tk_tok rd_name rd_open rd_card].
    rewrite list_insert_insert_eq.
    erewrite cbind_ok; [|apply (call_end (Tkn i proto t3)); [by eapply at_insert|exact Ht]]. cbn [tk_rdr tk_proto tk_tok rd_name rd_open rd_card].
    rewrite list_insert_insert_eq. erewrite cbind_ok; [|apply disconnect_ok; by eapply at_insert]. cbn [rd_name rd_open rd_card].
    rewrite list_insert_insert_eq. cbn [after add_token]. by replace (rd_open r + 1 - 1) with (rd_open r) by lia.
Qed.

Fixpoint tokens_from (i : nat) (vs : list visit) (ks : list tkn) : list tkn :=
  match vs with [] => ks | v :: vs' => tokens_from (S i) vs' (add_token i v ks) end.

(** One more connection, or one less, for the reader of a token. *)
Definition one_more (k : tkn) (o : list Z) : list Z := alter Z.succ (tk_rdr k) o.
Definition one_less (o : list Z) (k : tkn) : list Z := alter Z.pred (tk_rdr k) o.

Lemma opens_insert (rs : list reader) i r : rd_open <$> <[i := r]> rs = <[i := rd_open r]> (opens rs).
Proof. apply list_fmap_insert. Qed.
Lemma insert_alter (o : list Z) i v f : o !! i = Some v -> <[i := f v]> o = alter f i o.
Proof. intros H. apply list_eq. intros j. destruct (decide (j = i)) as [->|Hj].
  - rewrite list_lookup_alter_eq, list_lookup_insert_eq by (by eapply lookup_lt_Some). by rewrite H.
  - by rewrite list_lookup_insert_ne, list_lookup_alter_ne by done.
Qed.
Lemma opens_same (rs : list reader) i r r' : rs !! i = Some r -> rd_open r' = rd_open r -> opens (<[i := r']> rs) = opens rs.
Proof. intros Hr Hr'. rewrite opens_insert, Hr'. apply list_insert_id. by rewrite list_lookup_fmap, Hr. Qed.
Lemma opens_after (rs : list reader) i r v : rs !! i = Some r -> opens (<[i := after r v]> rs) = foldr one_more (opens rs) (add_token i v []).
Proof.
  intros Hr. destruct v as [c|proto w|c]; cbn [after add_token foldr]; [by eapply opens_same| |by eapply opens_same].
  rewrite opens_insert. cbn [rd_open]. change (rd_open r + 1) with (Z.succ (rd_open r)). apply (insert_alter (opens rs) i (rd_open r) Z.succ). by rewrite list_lookup_fmap, Hr.
Qed.
Lemma names_after (rs : list reader) i r r' : rs !! i = Some r -> rd_name r' = rd_name r -> rd_name <$> <[i := r']> rs = rd_name <$> rs.
Proof. intros Hr Hr'. rewrite list_fmap_insert, Hr'. apply list_insert_id. by rewrite list_lookup_fmap, Hr. Qed.

Lemma drop_insert_next {A} (l : list A) i x : drop (S i) (<[i := x]> l) = drop (S i) l.
Proof. apply drop_insert_lt. lia. Qed.

(** A token that an enumeration hands out: out of its transaction and without slots. *)
Definition fresh_token (k : tkn) : Prop := pt_intxn (tk_tok k) = false /\ pt_slots (tk_tok k) = [].

Lemma visit_fresh c v i : visits c v -> Forall fresh_token (add_token i v []).
Proof.
  intros [| proto c1 w2 w3 _ _ Hb Hp|]; cbn [add_token]; [apply Forall_nil_2| |apply Forall_nil_2].
  apply Forall_cons_2; [|apply Forall_nil_2]. destruct (probed_end _ _ _ _ _ Hb Hp) as [Ht Hs]. unfold fresh_token. cbn [tk_tok].
  destruct (end_run w3 Ht) as [_ ->]. by split.
Qed.
Lemma add_token_app i v ks : add_token i v ks = add_token i v [] ++ ks.
Proof. by destruct v. Qed.

Lemma enum_loop_ok n : forall i ks (rs : list reader) vs, length rs = (i + n)%nat -> Forall2 (fun r v => visits (rd_card r) v) (drop i rs) vs ->
  exists rs' new, enum_loop fuel n i ks rs = (Ok (tokens_from i vs ks), rs') /\ tokens_from i vs ks = new ++ ks /\
    opens rs' = foldr one_more (opens rs) new /\ Forall (fun k => fresh_token k /\ (tk_rdr k < length rs)%nat) new /\
    rd_name <$> rs' = rd_name <$> rs.
Proof.
  induction n as [|n IH]; intros i ks rs vs Hl Hv.
  - rewrite drop_ge in Hv by lia. apply Forall2_nil_inv_l in Hv as ->. exists rs, []. by split_and!.
  - destruct (lookup_lt_is_Some_2 rs i) as [r Hr]; [lia|]. rewrite (drop_S rs r i Hr) in Hv.
    apply Forall2_cons_inv_l in Hv as (v & vs' & Hv & Hvs & ->). rewrite (enum_step n i ks rs r v Hr Hv).
    destruct (IH (S i) (add_token i v ks) (<[i := after r v]> rs) vs') as (rs' & new & E & Hnew & Ho & Hf & Hn).
    { rewrite length_insert. lia. }
    { by rewrite drop_insert_next. }
    exists rs', (new ++ add_token i v []). cbn [tokens_from]. split_and!.
    + exact E.
    + by rewrite Hnew, (add_token_app i v ks), app_assoc.
    + by rewrite Ho, foldr_app, (opens_after _ _ _ _ Hr).
    + rewrite length_insert in Hf. apply Forall_app. split; [done|]. pose proof (visit_fresh _ _ i Hv) as Hfr.
      destruct v; cbn [add_token] in *; [apply Forall_nil_2| |apply Forall_nil_2].
      apply Forall_cons in Hfr as [Hfr _]. apply Forall_cons_2; [|apply Forall_nil_2]. split; [done|]. cbn [tk_rdr]. lia.
    + rewrite Hn. eapply names_after; [exact Hr|]. by destruct v.
Qed.

Lemma more_less k o : one_less (one_more k o) k = o.
Proof.
  unfold one_less, one_more. generalize (tk_rdr k). induction o as [|z o IH]; intros [|i]; cbn; try done; f_equal; [lia|apply IH].
Qed.

Lemma release_ok ks : forall (rs : list reader) (o : list Z), Forall fresh_token ks -> opens rs = foldr one_more o ks -> Forall (fun k => (tk_rdr k < length rs)%nat) ks ->
  exists rs', piv_release ks rs = (Ok tt, rs') /\ opens rs' = o.
Proof.
  induction ks as [|k ks IH]; intros rs o Hf Ho Hin; cbn [piv_release]; [by exists rs|].
  apply Forall_cons in Hf as [[Ht Hs] Hf]. apply Forall_cons in Hin as [Hk Hin]. rewrite Ht. cbn [negb verify]. rewrite cbind_ret_l.
  destruct (lookup_lt_is_Some_2 rs (tk_rdr k) Hk) as [r Hr]. rewrite (cbind_ok _ _ _ _ _ (disconnect_ok _ SCARD_LEAVE_CARD _ _ Hr)), Hs.
  cbn [existsb]. rewrite cbind_ret_l. apply IH; [done| |by rewrite length_insert].
  rewrite opens_insert. cbn [rd_open]. change (rd_open r - 1) with (Z.pred (rd_open r)).
  rewrite (insert_alter (opens rs) (tk_rdr k) (rd_open r) Z.pred) by (by rewrite list_lookup_fmap, Hr).
  change (one_less (opens rs) k = foldr one_more o ks). rewrite Ho. cbn [foldr]. apply more_less.
Qed.

(** ** One reader of a search *)

Inductive seek := Miss (c : card) | Hit (proto : Z) (w : world).

(** The card is not there, is let go again, or answers with a CHUID that matches (or without one, when none is asked for). *)
Inductive seeks (guid : list Z) (c : card) : seek -> Prop :=
| seek_away e c1 : SCardConnect c = (inl e, c1) -> seeks guid c (Miss c1)
| seek_no_txn proto c1 e w2 : SCardConnect c = (inr proto, c1) -> known_proto proto = true ->
    piv_txn_begin fuel (World piv_token_calloc c1) = (Er (Err e), w2) -> seeks guid c (Miss (SCardDisconnect SCARD_RESET_CARD (w_card w2)))
| seek_no_piv proto c1 w2 e w3 : SCardConnect c = (inr proto, c1) -> known_proto proto = true ->
    piv_txn_begin fuel (World piv_token_calloc c1) = (Ok tt, w2) -> piv_select fuel w2 = (Er (Err e), w3) ->
    seeks guid c (Miss (SCardDisconnect SCARD_RESET_CARD (w_card (ended w3))))
| seek_chuid proto c1 w2 w3 w4 : SCardConnect c = (inr proto, c1) -> known_proto proto = true ->
    piv_txn_begin fuel (World piv_token_calloc c1) = (Ok tt, w2) -> piv_select fuel w2 = (Ok tt, w3) -> piv_read_chuid fuel w3 = (Ok tt, w4) ->
    seeks guid c (if bool_decide (guid = []) || negb (guid_prefix guid (w_tok w4))
                  then Miss (SCardDisconnect SCARD_RESET_CARD (w_card (ended w4))) else Hit proto w4)
| seek_no_chuid proto c1 w2 w3 e w4 : SCardConnect c = (inr proto, c1) -> known_proto proto = true ->
    piv_txn_begin fuel (World piv_token_calloc c1) = (Ok tt, w2) -> piv_select fuel w2 = (Ok tt, w3) -> piv_read_chuid fuel w3 = (Er (Err e), w4) ->
    seeks guid c (if errf_caused_by (Some e) "NotFoundError" && bool_decide (guid = []) then Hit proto (snd (no_chuid w4))
                  else Miss (SCardDisconnect SCARD_RESET_CARD (w_card (ended w4)))).

Lemma select_keeps w r w' : piv_select fuel w = (r, w') -> pt_intxn (w_tok w') = pt_intxn (w_tok w).
Proof. intros E. pose proof (keeps_select pt_intxn ltac:(done) fuel w) as H. cbn in H. by rewrite E in H. Qed.
Lemma chuid_keeps w r w' : piv_read_chuid fuel w = (r, w') -> pt_intxn (w_tok w') = pt_intxn (w_tok w).
Proof. intros E. pose proof (keeps_chuid pt_intxn ltac:(done) fuel w) as H. cbn in H. by rewrite E in H. Qed.

Definition seek_reader (r : reader) (s : seek) : reader :=
  match s with Miss c => Rdr (rd_name r) (rd_open r) c | Hit _ w => Rdr (rd_name r) (rd_open r + 1) (w_card w) end.

Ltac reader_fields := cbn [tk_rdr tk_proto tk_tok rd_name rd_open rd_card w_tok w_card].
Tactic Notation "next_call" uconstr(L) := erewrite cbind_ok; [|apply L; [by eapply at_insert|eassumption]]; reader_fields; rewrite list_insert_insert_eq.

Lemma let_go_step (key : tkn) rs r (f : unit -> M stop (list reader) (option tkn)) : rs !! tk_rdr key = Some r -> pt_intxn (tk_tok key) = true ->
  (let! u := let_go key in f u) rs = f tt (<[tk_rdr key := Rdr (rd_name r) (rd_open r - 1)
     (SCardDisconnect SCARD_RESET_CARD (w_card (ended (World (tk_tok key) (rd_card r)))))]> rs).
Proof. intros Hr Ht. by rewrite (cbind_ok _ _ _ _ _ (let_go_ok _ _ _ Hr Ht)). Qed.

Lemma find_step guid n i found (rs : list reader) r s : zlen guid <= GUID_LEN -> rs !! i = Some r -> seeks guid (rd_card r) s ->
  match s with
  | Miss _ => find_loop fuel guid (S n) i found rs = find_loop fuel guid n (S i) found (<[i := seek_reader r s]> rs)
  | Hit proto w => find_loop fuel guid (S n) i found rs
      = take_found found (Tkn i proto (w_tok w)) (find_loop fuel guid n (S i)) (<[i := seek_reader r s]> rs) /\ pt_intxn (w_tok w) = true
  end.
Proof.
  intros Hg Hr Hs. cbn [find_loop]. assert (rd_open r + 1 - 1 = rd_open r) as Ho by lia.
  destruct Hs as [e c1 Hc|proto c1 e w2 Hc Hp Hb|proto c1 w2 e w3 Hc Hp Hb Hsel|proto c1 w2 w3 w4 Hc Hp Hb Hsel Hch|proto c1 w2 w3 e w4 Hc Hp Hb Hsel Hch];
    rewrite (cbind_ok _ _ _ _ _ (connect_ok _ _ _ _ _ Hr Hc)); [done|..]; rewrite Hp; cbn [verify]; rewrite cbind_ret_l.
  - next_call (call_er (Tkn i proto piv_token_calloc)). erewrite cbind_ok; [|apply disconnect_ok; by eapply at_insert].
    reader_fields. by rewrite list_insert_insert_eq, Ho.
  - destruct (begin_run _ _ _ Hb) as [Ht _]. rewrite <- (select_keeps _ _ _ Hsel) in Ht. destruct w2 as [t2 c2], w3 as [t3 c3].
    next_call (call_ok (Tkn i proto piv_token_calloc)). next_call (call_er (Tkn i proto t2)).
    erewrite let_go_step; [|by eapply at_insert|exact Ht]. reader_fields. by rewrite list_insert_insert_eq, Ho.
  - destruct (begin_run _ _ _ Hb) as [Ht _]. rewrite <- (select_keeps _ _ _ Hsel), <- (chuid_keeps _ _ _ Hch) in Ht.
    destruct w2 as [t2 c2], w3 as [t3 c3], w4 as [t4 c4]. reader_fields.
    next_call (call_ok (Tkn i proto piv_token_calloc)). next_call (call_ok (Tkn i proto t2)). next_call (call_ok (Tkn i proto t3)).
    rewrite (proj2 (Z.ltb_ge _ _)) by done. destruct (bool_decide (guid = []) || negb (guid_prefix guid t4)); [|done].
    erewrite let_go_step; [|by eapply at_insert|exact Ht]. reader_fields. by rewrite list_insert_insert_eq, Ho.
  - destruct (begin_run _ _ _ Hb) as [Ht _]. rewrite <- (select_keeps _ _ _ Hsel), <- (chuid_keeps _ _ _ Hch) in Ht.
    destruct w2 as [t2 c2], w3 as [t3 c3], w4 as [t4 c4]. reader_fields.
    next_call (call_ok (Tkn i proto piv_token_calloc)). next_call (call_ok (Tkn i proto t2)). next_call (call_er (Tkn i proto t3)).
    destruct (errf_caused_by (Some e) "NotFoundError" && bool_decide (guid = [])).
    + split; [|exact Ht]. unfold call_ at 1.
      rewrite (cbind_ok _ _ _ (Tkn i proto (w_tok (snd (no_chuid (World t4 c4))))) (<[i := Rdr (rd_name r) (rd_open r + 1) c4]> rs)); [done|].
      erewrite cbind_ok; [|apply (call_ok (Tkn i proto t4)); [by eapply at_insert|reflexivity]]. reader_fields. by rewrite list_insert_insert_eq.
    + erewrite let_go_step; [|by eapply at_insert|exact Ht]. reader_fields. by rewrite list_insert_insert_eq, Ho.
Qed.

(** The readers that match: their numbers, and the tokens and cards in their transactions. *)
Fixpoint hits (i : nat) (ss : list seek) : list (nat * Z * world) :=
  match ss with
  | [] => []
  | Miss _ :: ss' => hits (S i) ss'
  | Hit proto w :: ss' => (i, proto, w) :: hits (S i) ss'
  end.
Definition all_seek (guid : list Z) (rs : list reader) (ss : list seek) : Prop := Forall2 (fun r s => seeks guid (rd_card r) s) rs ss.

Section Find.
Context (guid : list Z) (Hguid : zlen guid <= GUID_LEN).

(** The next reader and those after it. *)
Lemma seek_cons n i (rs : list reader) ss : length rs = (i + S n)%nat -> all_seek guid (drop i rs) ss ->
  exists r s ss', ss = s :: ss' /\ rs !! i = Some r /\ seeks guid (rd_card r) s /\ forall r',
    length (<[i := r']> rs) = (S i + n)%nat /\ all_seek guid (drop (S i) (<[i := r']> rs)) ss'.
Proof.
  intros Hl Hs. destruct (lookup_lt_is_Some_2 rs i) as [r Hr]; [lia|]. rewrite (drop_S rs r i Hr) in Hs.
  apply Forall2_cons_inv_l in Hs as (s & ss' & Hs & Hss & ->). exists r, s, ss'. split_and!; try done.
  intros r'. rewrite length_insert, drop_insert_next. split; [lia|done].
Qed.
Lemma seek_nil i (rs : list reader) ss : length rs = (i + 0)%nat -> all_seek guid (drop i rs) ss -> ss = [].
Proof. intros Hl Hs. unfold all_seek in Hs. rewrite drop_ge in Hs by lia. by apply Forall2_nil_inv_l in Hs. Qed.

Lemma find_misses n : forall i found (rs : list reader) ss, length rs = (i + n)%nat -> all_seek guid (drop i rs) ss -> hits i ss = [] ->
  exists rs', find_loop fuel guid n i found rs = (Ok found, rs') /\ opens rs' = opens rs /\ forall j, (j < i)%nat -> rs' !! j = rs !! j.
Proof.
  induction n as [|n IH]; intros i found rs ss Hl Hs Hh; [by exists rs|].
  destruct (seek_cons n i rs ss Hl Hs) as (r & s & ss' & -> & Hr & Hsk & Hnext). pose proof (find_step guid n i found rs r s Hguid Hr Hsk) as E.
  destruct s as [c|]; [|done]. cbn [hits] in Hh. rewrite E. destruct (Hnext (seek_reader r (Miss c))) as [Hl' Hs'].
  destruct (IH (S i) found _ ss' Hl' Hs' Hh) as (rs' & E' & Ho & Hj). exists rs'. split_and!; [done| |].
  - rewrite Ho. by eapply opens_same.
  - intros j Hij. rewrite Hj by lia. apply list_lookup_insert_ne. lia.
Qed.

Lemma find_second n : forall i f (rs : list reader) ss, length rs = (i + n)%nat -> all_seek guid (drop i rs) ss -> hits i ss <> [] ->
  (tk_rdr f < i)%nat -> pt_intxn (tk_tok f) = true ->
  exists rs', find_loop fuel guid n i (Some f) rs = (Er (Err DuplicateError), rs') /\ opens rs' = one_less (opens rs) f.
Proof.
  induction n as [|n IH]; intros i f rs ss Hl Hs Hh Hf Ht; [by rewrite (seek_nil i rs ss Hl Hs) in Hh|].
  destruct (seek_cons n i rs ss Hl Hs) as (r & s & ss' & -> & Hr & Hsk & Hnext). pose proof (find_step guid n i (Some f) rs r s Hguid Hr Hsk) as E.
  destruct s as [c|proto w]; cbn [hits] in Hh.
  - rewrite E. destruct (Hnext (seek_reader r (Miss c))) as [Hl' Hs'].
    destruct (IH (S i) f _ ss' Hl' Hs' Hh) as (rs' & E' & Ho); [lia|done|]. exists rs'. split; [done|].
    rewrite Ho. f_equal. by eapply opens_same.
  - destruct E as [-> Hti]. destruct (lookup_lt_is_Some_2 rs (tk_rdr f)) as [rf Hrf]; [lia|]. cbn [take_found seek_reader].
    erewrite let_go_step; [|by eapply at_insert|exact Hti]. reader_fields. rewrite list_insert_insert_eq.
    erewrite let_go_step; [|rewrite list_lookup_insert_ne by lia; exact Hrf|exact Ht]. eexists. split; [reflexivity|].
    rewrite opens_insert. reader_fields. change (rd_open rf - 1) with (Z.pred (rd_open rf)).
    assert (opens (<[i := Rdr (rd_name r) (rd_open r + 1 - 1) (SCardDisconnect SCARD_RESET_CARD (w_card (ended (World (w_tok w) (w_card w)))))]> rs) = opens rs) as ->
      by (eapply opens_same; [exact Hr|reader_fields; lia]).
    apply (insert_alter (opens rs) (tk_rdr f) (rd_open rf) Z.pred). by rewrite list_lookup_fmap, Hrf.
Qed.

Lemma find_hits n : forall i (rs : list reader) ss j proto w more, length rs = (i + n)%nat -> all_seek guid (drop i rs) ss ->
  hits i ss = (j, proto, w) :: more ->
  pt_intxn (w_tok w) = true /\ exists rs',
  if decide (more = []) then
    find_loop fuel guid n i None rs = (Ok (Some (Tkn j proto (w_tok w))), rs') /\ opens rs' = alter Z.succ j (opens rs) /\
    exists r, rs' !! j = Some r /\ rd_card r = w_card w
  else find_loop fuel guid n i None rs = (Er (Err DuplicateError), rs') /\ opens rs' = opens rs.
Proof.
  induction n as [|n IH]; intros i rs ss j proto w more Hl Hs Hh; [by rewrite (seek_nil i rs ss Hl Hs) in Hh|].
  destruct (seek_cons n i rs ss Hl Hs) as (r & s & ss' & -> & Hr & Hsk & Hnext). pose proof (find_step guid n i None rs r s Hguid Hr Hsk) as E.
  destruct (Hnext (seek_reader r s)) as [Hl' Hs']. assert (rd_open <$> rs !! i = Some (rd_open r)) as Hro by (by rewrite Hr).
  destruct s as [c|proto' w']; cbn [hits] in Hh.
  - rewrite E. destruct (IH (S i) _ ss' j proto w more Hl' Hs' Hh) as (Ht & rs' & Hrs). split; [done|]. exists rs'.
    assert (opens (<[i := seek_reader r (Miss c)]> rs) = opens rs) as Ho by (by eapply opens_same). by rewrite Ho in Hrs.
  - injection Hh as <- <- <- <-. destruct E as [-> Ht]. split; [done|]. cbn [take_found].
    assert (opens (<[i := seek_reader r (Hit proto' w')]> rs) = alter Z.succ i (opens rs)) as Ho.
    { rewrite opens_insert. cbn [seek_reader rd_open]. change (rd_open r + 1) with (Z.succ (rd_open r)).
      apply (insert_alter (opens rs) i (rd_open r) Z.succ). by rewrite list_lookup_fmap. }
    destruct (decide (hits (S i) ss' = [])) as [Hm|Hm].
    + destruct (find_misses n (S i) (Some (Tkn i proto' (w_tok w'))) _ ss' Hl' Hs' Hm) as (rs' & -> & Ho' & Hj). exists rs'.
      split_and!; [done|by rewrite Ho'|]. rewrite (Hj i) by lia. eexists. split; [by eapply at_insert|done].
    + destruct (find_second n (S i) (Tkn i proto' (w_tok w')) _ ss' Hl' Hs' Hm) as (rs' & -> & Ho'); [cbn; lia|done|]. exists rs'.
      split; [done|]. rewrite Ho', Ho. exact (more_less (Tkn i proto' (w_tok w')) (opens rs)).
Qed.

Lemma hit_guid (rs : list reader) ss : all_seek guid rs ss -> forall i h, h ∈ hits i ss -> guid = [] \/ guid_prefix guid (w_tok (snd h)) = true.
Proof.
  induction 1 as [|r s rs ss Hsk _ IH]; intros i h Hh; [by apply not_elem_of_nil in Hh|].
  destruct s as [c|proto w]; cbn [hits] in Hh; [by eapply IH|]. apply elem_of_cons in Hh as [->|Hh]; [|by eapply IH]. cbn [snd].
  inversion Hsk as [| | |? ? ? ? w4 _ _ _ _ _ Heq|? ? ? ? e w4 _ _ _ _ _ Heq].
  - destruct (decide (guid = [])) as [->|Hne]; [by left|]. rewrite (bool_decide_false _ Hne) in Heq. right.
    destruct (guid_prefix guid (w_tok w4)) eqn:Hgp; [|done]. by injection Heq as <- <-.
  - left. destruct (bool_decide (guid = [])) eqn:Hd; [by apply bool_decide_eq_true in Hd|]. by rewrite andb_false_r in Heq.
Qed.
End Find.

Lemma rest_keeps w r w' : read_rest fuel w = (r, w') -> (pt_chuid (w_tok w'), pt_intxn (w_tok w')) = (pt_chuid (w_tok w), pt_intxn (w_tok w)).
Proof.
  intros E. pose proof (keeps_rest (fun t => (pt_chuid t, pt_intxn t)) ltac:(done) ltac:(done) ltac:(done) fuel w) as H. cbn in H. by rewrite E in H.
Qed.
End Loops.

(** ** The token of a box *)

Section BoxToken.
Context {X : Certs} {R : Reader} {PS : Pcsc} {C : Crypto} {SK : SameKey} (fuel : nat).

Lemma load_slot_inv key slotid rs s key' rs' : load_slot fuel key slotid rs = (Ok (inr s, key'), rs') -> s ∈ pt_slots (tk_tok key').
Proof.
  unfold load_slot. assert (forall t, piv_get_slot t slotid = Some s -> s ∈ pt_slots t) as Hin.
  { intros t H. unfold piv_get_slot in H. apply find_some in H as [H _]. by apply list_elem_of_In. }
  destruct (piv_get_slot (tk_tok key) slotid) as [s0|] eqn:Hs; [intros [= <- <- <-]; by apply Hin|].
  intros ([[e|[]] k1] & rs1 & _ & H)%cbind_inv; [done|]. apply cbind_inv in H as ([err k2] & rs2 & _ & H).
  apply cbind_inv in H as (k3 & rs3 & _ & H). destruct err as [e|[]]; [done|].
  destruct (piv_get_slot (tk_tok k3) slotid) as [s0|] eqn:Hs3; [|done]. injection H as <- <- <-. by apply Hin.
Qed.
Lemma slot_opens_inv s pub rs rs' : slot_opens s pub rs = (Ok true, rs') -> exists k, ps_pubkey s = HasKey k /\ same_public k pub = true.
Proof. unfold slot_opens. destruct (ps_pubkey s) as [|k|]; try done. intros [= H _]. by exists k. Qed.

(** A slot of the token, with the key of the box. *)
Definition opens_box (tks : list tkn) (box : piv_ecdh_box) (i : nat) (s : piv_slot) : Prop :=
  exists key k, tks !! i = Some key /\ s ∈ pt_slots (tk_tok key) /\ ps_pubkey s = HasKey k /\ same_public k (pdb_pub box) = true.

Lemma find_by_key_inv slotid box tks : forall seen rs tks' i s rs',
  find_by_key fuel seen tks slotid (pdb_pub box) rs = (Ok (tks', inr (i, s)), rs') -> opens_box tks' box i s.
Proof.
  induction tks as [|key tks IH]; intros seen rs tks' i s rs'; cbn [find_by_key]; [done|].
  intros ([r key'] & rs1 & Hl & H)%cbind_inv. destruct r as [e|s0]; [by eapply IH|].
  apply cbind_inv in H as (same & rs2 & Ho & H). destruct same; [|by eapply IH]. injection H as <- <- <- <-.
  apply slot_opens_inv in Ho as (k & Hk & Hp). exists key', k. split_and!; [|by eapply load_slot_inv|done|done].
  rewrite <- (length_rev seen). apply list_lookup_middle. done.
Qed.

(** [piv_box_find_token] answers with a slot that belongs to the token it names and that holds the key the box is sealed for,
    and when a token has the GUID of the box it is that token. *)
Lemma box_token_sound tks (box : piv_ecdh_box) rs tks' i s rs' :
  piv_box_find_token fuel tks box rs = (Ok (tks', inr (i, s)), rs') ->
  opens_box tks' box i s /\ forall j key, guid_index (pdb_guid box) tks = Some (j, key) -> i = j.
Proof.
  unfold piv_box_find_token. destruct (guid_index (pdb_guid box) tks) as [[j key]|] eqn:Hg.
  - intros ([r key'] & rs1 & Hl & H)%cbind_inv. destruct r as [e|s0]; [done|]. apply cbind_inv in H as (same & rs2 & Ho & H).
    destruct same; [|done]. injection H as <- <- <- <-. split; [|by intros j' key0 [= <- <-]].
    apply slot_opens_inv in Ho as (k & Hk & Hp). exists key', k. split_and!; [|by eapply load_slot_inv|done|done].
    apply list_find_Some in Hg as [Hg _]. apply list_lookup_insert_eq. by apply lookup_lt_Some in Hg.
  - intros H. split; [by eapply find_by_key_inv|done].
Qed.
End BoxToken.

(** C40: enumeration and release. On every reader the card cannot be connected to, or the transaction begins and the card completes its answers and lists
    at most 32 algorithms ([visits]; where the transaction cannot begin [piv_enumerate] leaks the connection, [enumerate_leaks_connection]). Then [piv_enumerate] returns exactly the tokens of the readers whose cards answer as PIV cards, the last reader
    first, each out of its transaction and each with one connection of its own; the connections to the other readers are closed again. Whatever
    is done with the cards afterwards, [piv_release] of the list does not fail and leaves every reader with the connections it had before. *)
Theorem piv_enumerate_release {X : Certs} {R : Reader} {PS : Pcsc} {C : Crypto} fuel (rs : list reader) vs :
  Forall2 (fun r v => visits fuel (rd_card r) v) rs vs ->
  let ks := tokens_from 0 vs [] in
  exists rs1, piv_enumerate fuel true rs = (Ok ks, rs1) /\ rd_name <$> rs1 = rd_name <$> rs
    /\ Forall (fun k => pt_intxn (tk_tok k) = false) ks
    /\ rd_open <$> rs1 = foldr one_more (rd_open <$> rs) ks
    /\ forall rs2, rd_open <$> rs2 = rd_open <$> rs1 -> exists rs3, piv_release ks rs2 = (Ok tt, rs3) /\ rd_open <$> rs3 = rd_open <$> rs.
Proof.
  intros Hv ks. destruct (enum_loop_ok fuel (length rs) 0 [] rs vs eq_refl Hv) as (rs1 & new & E & Hnew & Ho & Hf & Hn).
  rewrite app_nil_r in Hnew. subst ks. rewrite Hnew in *. exists rs1. split_and!; [exact E|done| |exact Ho|].
  - eapply Forall_impl; [exact Hf|]. by intros k [[] _].
  - intros rs2 Ho2. apply release_ok; [|by rewrite Ho2|].
    + eapply Forall_impl; [exact Hf|]. by intros k [].
    + assert (length rs2 = length rs) as Hlen.
      { rewrite <- (length_fmap rd_open rs2), Ho2, (length_fmap rd_open rs1), <- (length_fmap rd_name rs1), Hn. apply length_fmap. }
      eapply Forall_impl; [exact Hf|]. intros k [_ Hk]. by rewrite Hlen.
Qed.

(** The search for a GUID. Among readers whose cards answer, [piv_find] fails with NotFoundError when none has a GUID
    that begins with the bytes asked for, and with DuplicateError when several have; in both cases every connection it made is closed.
    When there is exactly one and the rest of it can be read ([find_returns_freed] otherwise), that token is returned, with a GUID that begins so (if bytes were given), out of its transaction and with the
    only connection left open. *)
Theorem piv_find_exact {X : Certs} {R : Reader} {PS : Pcsc} {C : Crypto} fuel guid (rs : list reader) ss :
  zlen guid <= GUID_LEN -> all_seek fuel guid rs ss ->
  match hits 0 ss with
  | [] => exists rs', piv_find fuel true guid rs = (Er (Err NoTokenError), rs') /\ rd_open <$> rs' = rd_open <$> rs
  | [(i, proto, w)] => forall w2, read_rest fuel w = (Ok tt, w2) ->
      exists rs' t, piv_find fuel true guid rs = (Ok (Found (Tkn i proto t)), rs') /\ rd_open <$> rs' = alter Z.succ i (rd_open <$> rs)
        /\ pt_intxn t = false /\ (guid = [] \/ guid_prefix guid t = true)
  | _ => exists rs', piv_find fuel true guid rs = (Er (Err DuplicateError), rs') /\ rd_open <$> rs' = rd_open <$> rs
  end.
Proof.
  intros Hg Hs. unfold piv_find. cbn [guard]. rewrite cbind_ret_l, (cbind_ok cget _ rs rs rs eq_refl).
  destruct (hits 0 ss) as [|[[i proto] w] more] eqn:Hh.
  - destruct (find_misses fuel guid Hg (length rs) 0 None rs ss eq_refl Hs Hh) as (rs' & E & Ho & _). exists rs'. by rewrite (cbind_ok _ _ _ _ _ E).
  - destruct (find_hits fuel guid Hg (length rs) 0 rs ss i proto w more eq_refl Hs Hh) as (Ht & rs' & Hrs).
    destruct more as [|m more]; [rewrite decide_True in Hrs by done|rewrite decide_False in Hrs by done].
    + destruct Hrs as (E & Ho & r & Hr & Hc). intros w2 Hw2. rewrite (cbind_ok _ _ _ _ _ E). destruct w as [t c]. cbn [w_tok w_card] in *. subst c.
      rewrite (cbind_ok _ _ _ _ _ (call_ok (Tkn i proto t) _ _ _ _ _ Hr Hw2)). cbn [tk_rdr tk_proto tk_tok].
      pose proof (rest_keeps _ _ _ _ Hw2) as Hk. injection Hk as Hch Hin. cbn [w_tok] in *. rewrite Ht in Hin.
      erewrite cbind_ok; [|apply (call_end (Tkn i proto (w_tok w2))); [by eapply at_insert|exact Hin]]. cbn [tk_rdr tk_proto tk_tok rd_name rd_open rd_card].
      eexists _, _. split; [reflexivity|]. destruct (end_run (World (w_tok w2) (w_card w2)) Hin) as [_ Hend]. cbn [w_tok] in Hend. split_and!.
      * rewrite list_insert_insert_eq, <- Ho. by eapply opens_same.
      * by rewrite Hend.
      * destruct (hit_guid fuel guid Hg rs ss Hs 0 (i, proto, World t (rd_card r))) as [Hn|Hp]; [rewrite Hh; by apply list_elem_of_here|by left|right].
        unfold guid_prefix in *. rewrite Hend. cbn [pt_chuid set_txn]. by rewrite Hch.
    + destruct Hrs as [E Ho]. exists rs'. by rewrite (cbind_er _ _ _ _ _ E).
Qed.

(** ** An instance *)

Module ToyEnum.
(** Cards that play back their answers; an empty reader cannot be connected to. *)
Definition pcsc : Pcsc (R := script_reader) := {|
  SCardConnect := fun c : @card script_reader => match c with [] => (inl 1, c) | _ => (inr SCARD_PROTOCOL_T1, c) end;
  SCardDisconnect := fun _ c => c
|}.
Definition guid (g : Z) : list Z := g :: zrepeat 15 7.
(** A PIV card without discovery object, key history and YubicoPIV. *)
Definition piv_card (g : Z) : @card script_reader :=
  [[97; 0; 144; 0]; [83; 18; 52; 16] ++ guid g ++ [144; 0]; [106; 130]; [106; 130]; [109; 0]].
(** A card that does not know the applet. *)
Definition other_card : @card script_reader := [[106; 130]].
Definition readers : list (reader (R := script_reader)) :=
  [Rdr (R := script_reader) [65] 0 (piv_card 1); Rdr (R := script_reader) [66] 0 []; Rdr (R := script_reader) [67] 3 other_card;
   Rdr (R := script_reader) [68] 0 (piv_card 2)].
Definition begun (c : @card script_reader) : world := snd (piv_txn_begin (X := no_certs) 9 (World piv_token_calloc c)).
Definition probed (c : @card script_reader) : world := ended (snd (probe (C := Toy.toy) 9 (begun c))).
Definition seen : list (visit (X := no_certs) (R := script_reader)) :=
  [Listed SCARD_PROTOCOL_T1 (probed (piv_card 1)); Away (R := script_reader) []; Refused (R := script_reader) (w_card (probed other_card)); Listed SCARD_PROTOCOL_T1 (probed (piv_card 2))].
Definition asked (c : @card script_reader) : world := snd ((piv_select 9 ;! piv_read_chuid (C := Toy.toy) 9) (begun c)).
(** The first card has another GUID, the last one the GUID that is asked for. *)
Definition looked : list (seek (X := no_certs) (R := script_reader)) :=
  [Miss (R := script_reader) (w_card (ended (asked (piv_card 1)))); Miss (R := script_reader) [];
   Miss (R := script_reader) (w_card (ended (snd (piv_select 9 (begun other_card))))); Hit SCARD_PROTOCOL_T1 (asked (piv_card 2))].
(** Cards that stop answering: before SELECT is done, and after the CHUID. *)
Definition busy_pcsc : Reader := {|
  card := list (list Z);
  SCardTransmit := @SCardTransmit script_reader;
  SCardBeginTransaction := fun c => (1, c);
  SCardReconnect := @SCardReconnect script_reader;
  SCardEndTransaction := @SCardEndTransaction script_reader
|}.
Definition busy : Pcsc (R := busy_pcsc) := {| SCardConnect := fun c => (inr SCARD_PROTOCOL_T1, c); SCardDisconnect := fun _ c => c |}.
Definition broken_card (g : Z) : @card script_reader := take 2 (piv_card g).
End ToyEnum.

(** Two tokens, an empty reader and a card of another kind. *)
Lemma piv_enumerate_release_witness :
  length (tokens_from 0 ToyEnum.seen []) = 2%nat /\
  exists rs1, piv_enumerate (PS := ToyEnum.pcsc) (C := Toy.toy) 9 true ToyEnum.readers = (Ok (tokens_from 0 ToyEnum.seen []), rs1)
    /\ rd_name <$> rs1 = rd_name <$> ToyEnum.readers
    /\ Forall (fun k => pt_intxn (tk_tok k) = false) (tokens_from 0 ToyEnum.seen [])
    /\ rd_open <$> rs1 = foldr one_more (rd_open <$> ToyEnum.readers) (tokens_from 0 ToyEnum.seen [])
    /\ forall rs2, rd_open <$> rs2 = rd_open <$> rs1 ->
         exists rs3, piv_release (PS := ToyEnum.pcsc) (tokens_from 0 ToyEnum.seen []) rs2 = (Ok tt, rs3) /\ rd_open <$> rs3 = rd_open <$> ToyEnum.readers.
Proof.
  split; [reflexivity|]. apply (piv_enumerate_release (PS := ToyEnum.pcsc) (C := Toy.toy) 9 ToyEnum.readers ToyEnum.seen).
  constructor; [|constructor; [|constructor; [|constructor; [|constructor]]]].
  - eapply (visit_listed (PS := ToyEnum.pcsc) (C := Toy.toy) 9 _ SCARD_PROTOCOL_T1); [reflexivity|reflexivity|vm_compute; reflexivity|vm_compute; reflexivity].
  - eapply (visit_away (PS := ToyEnum.pcsc)). reflexivity.
  - eapply (visit_refused (PS := ToyEnum.pcsc) (C := Toy.toy) 9 _ SCARD_PROTOCOL_T1); [reflexivity|reflexivity|vm_compute; reflexivity|vm_compute; reflexivity].
  - eapply (visit_listed (PS := ToyEnum.pcsc) (C := Toy.toy) 9 _ SCARD_PROTOCOL_T1); [reflexivity|reflexivity|vm_compute; reflexivity|vm_compute; reflexivity].
Defined.

Lemma piv_find_exact_witness :
  hits 0 ToyEnum.looked = [(3%nat, SCARD_PROTOCOL_T1, ToyEnum.asked (ToyEnum.piv_card 2))] /\
  forall w2, read_rest (X := no_certs) 9 (ToyEnum.asked (ToyEnum.piv_card 2)) = (Ok tt, w2) ->
  exists rs' (t : piv_token (X := no_certs)), piv_find (X := no_certs) (PS := ToyEnum.pcsc) (C := Toy.toy) 9 true [2; 7] ToyEnum.readers = (Ok (Found (Tkn 3 SCARD_PROTOCOL_T1 t)), rs')
    /\ rd_open <$> rs' = alter Z.succ 3%nat (rd_open <$> ToyEnum.readers)
    /\ pt_intxn t = false /\ ([2; 7] = [] \/ guid_prefix [2; 7] t = true).
Proof.
  split; [reflexivity|].
  apply (piv_find_exact (PS := ToyEnum.pcsc) (C := Toy.toy) 9 [2; 7] ToyEnum.readers ToyEnum.looked); [apply Z.leb_le; reflexivity|].
  constructor; [|constructor; [|constructor; [|constructor; [|constructor]]]].
  - apply (seek_chuid (PS := ToyEnum.pcsc) (C := Toy.toy) 9 [2; 7] (ToyEnum.piv_card 1) SCARD_PROTOCOL_T1 (ToyEnum.piv_card 1)
      (ToyEnum.begun (ToyEnum.piv_card 1)) (snd (piv_select 9 (ToyEnum.begun (ToyEnum.piv_card 1)))) (ToyEnum.asked (ToyEnum.piv_card 1))); vm_compute; reflexivity.
  - eapply (seek_away (PS := ToyEnum.pcsc)). reflexivity.
  - eapply (seek_no_piv (PS := ToyEnum.pcsc) (C := Toy.toy) 9 [2; 7] ToyEnum.other_card SCARD_PROTOCOL_T1); [reflexivity|reflexivity|reflexivity|vm_compute; reflexivity].
  - apply (seek_chuid (PS := ToyEnum.pcsc) (C := Toy.toy) 9 [2; 7] (ToyEnum.piv_card 2) SCARD_PROTOCOL_T1 (ToyEnum.piv_card 2)
      (ToyEnum.begun (ToyEnum.piv_card 2)) (snd (piv_select 9 (ToyEnum.begun (ToyEnum.piv_card 2)))) (ToyEnum.asked (ToyEnum.piv_card 2))); vm_compute; reflexivity.
Defined.

(** ** Behaviours that differ from what the code means to do *)

(** A card that stops answering after its CHUID: the search frees the token and then returns it. *)
Lemma find_returns_freed :
  fst (piv_find (X := no_certs) (PS := ToyEnum.pcsc) (C := Toy.toy) 9 true (ToyEnum.guid 1) [Rdr (R := script_reader) [65] 0 (ToyEnum.broken_card 1)]) = Ok FreedToken.
Proof. vm_compute. reflexivity. Qed.

(** A reader whose card is in use: the enumeration drops the token and leaves the connection open. *)
Lemma enumerate_leaks_connection :
  exists rs', piv_enumerate (X := no_certs) (PS := ToyEnum.busy) (C := Toy.toy) 9 true [Rdr (R := ToyEnum.busy_pcsc) [65] 0 []] = (Ok [], rs')
    /\ rd_open <$> rs' = [1].
Proof. eexists. split; [vm_compute; reflexivity|reflexivity]. Qed.
