(* ===== verification/Base64.v ===== *)
(** * Base 64 (libssh/base64.c, sshbuf.c, ebox-cmd.c, pivy-box.c)

    The encoder and the decoder, their use on buffers, and the text the command-line tools
    print and read. A string is the list of its characters, without the NUL at its end.
    Proved: the decoder accepts exactly the encodings of RFC 4648, with white space anywhere, and what the tools print they
    read back. *)
From stdpp Require Import base list strings.
From Stdlib Require Import ZArith Lia.
From S2P Require Import Prelude Errf Sshbuf Algs.

Local Open Scope string_scope.
Local Open Scope list_scope.
Local Open Scope Z_scope.
Local Open Scope c_scope.

Definition Base64 : list Z := zs "ABCDEFGHIJKLMNOPQRSTUVWXYZabcdefghijklmnopqrstuvwxyz0123456789+/".
Definition Pad64 : Z := 61.

(** [Base64[i]] *)
Definition digit (i : Z) : Z := default 0 (zget Base64 i).

(** ** Encoding *)

(** The text so far is [out]; [None] stands for -1. *)
Fixpoint ntop_loop (src out : list Z) (targsize : Z) : option (list Z) :=
  match src with
  | in0 :: in1 :: in2 :: src' =>
      let out0 := Z.shiftr in0 2 in
      let out1 := Z.shiftl (Z.land in0 3) 4 + Z.shiftr in1 4 in
      let out2 := Z.shiftl (Z.land in1 15) 2 + Z.shiftr in2 6 in
      let out3 := Z.land in2 63 in
      if targsize <? zlen out + 4 then None
      else ntop_loop src' (out ++ [digit out0; digit out1; digit out2; digit out3]) targsize
  | [] => if targsize <=? zlen out then None else Some out
  | [in0] =>
      let out0 := Z.shiftr in0 2 in
      let out1 := Z.shiftl (Z.land in0 3) 4 in
      if targsize <? zlen out + 4 then None
      else let out := out ++ [digit out0; digit out1; Pad64; Pad64] in
           if targsize <=? zlen out then None else Some out
  | [in0; in1] =>
      let out0 := Z.shiftr in0 2 in
      let out1 := Z.shiftl (Z.land in0 3) 4 + Z.shiftr in1 4 in
      let out2 := Z.shiftl (Z.land in1 15) 2 in
      if targsize <? zlen out + 4 then None
      else let out := out ++ [digit out0; digit out1; digit out2; Pad64] in
           if targsize <=? zlen out then None else Some out
  end.
Definition b64_ntop (src : list Z) (targsize : Z) : option (list Z) := ntop_loop src [] targsize.

(** ** Decoding *)

Definition isspace (ch : Z) : bool := (ch =? 32) || ((9 <=? ch) && (ch <=? 13)).
(** [strchr(Base64, ch)] as a position *)
Definition strchr64 (ch : Z) : option Z := (fun p => Z.of_nat (fst p)) <$> list_find (fun c => c = ch) Base64.

(** [state], [tarindex] and the bytes at [target]. *)
Record pton := Pton { pt_state : Z; pt_index : nat; pt_target : list Z }.

(** One character with the value [v]; [None] is the return of -1. A [target] that is not null has [targsize] bytes. *)
Definition pton_step (v : Z) (s : pton) : option pton :=
  let t := pt_target s in
  let i := pt_index s in
  let n := length t in
  if pt_state s =? 0 then
    if (n <=? i)%nat then None else Some (Pton 1 i (<[i := u8 (Z.shiftl v 2)]> t))
  else if pt_state s =? 1 then
    if (n <=? i + 1)%nat then None
    else Some (Pton 2 (S i) (<[S i := u8 (Z.shiftl (Z.land v 15) 4)]> (alter (fun x => Z.lor x (Z.shiftr v 4)) i t)))
  else if pt_state s =? 2 then
    if (n <=? i + 1)%nat then None
    else Some (Pton 3 (S i) (<[S i := u8 (Z.shiftl (Z.land v 3) 6)]> (alter (fun x => Z.lor x (Z.shiftr v 2)) i t)))
  else
    if (n <=? i)%nat then None else Some (Pton 0 (S i) (alter (fun x => Z.lor x v) i t)).

(** The loop, to the end of the string or to the first pad character with what follows it. *)
Fixpoint pton_loop (src : list Z) (s : pton) : option (pton * option (list Z)) :=
  match src with
  | [] => Some (s, None)
  | ch :: src' =>
      if isspace ch then pton_loop src' s
      else if ch =? Pad64 then Some (s, Some src')
      else match strchr64 ch with
           | None => None
           | Some v => match pton_step v s with None => None | Some s' => pton_loop src' s' end
           end
  end.

Fixpoint skip_spaces (src : list Z) : list Z :=
  match src with ch :: src' => if isspace ch then skip_spaces src' else src | [] => [] end.
Definition only_spaces (src : list Z) : bool := match skip_spaces src with [] => true | _ => false end.

(** "Make sure the extra bits were zeros." *)
Definition pton_done (s : pton) : option (list Z) :=
  match pt_target s !! pt_index s with
  | Some x => if x =? 0 then Some (take (pt_index s) (pt_target s)) else None
  | None => None
  end.

(** What follows the loop: the text has ended, or a pad character has been read and [rest] follows it. *)
Definition pton_end (r : pton * option (list Z)) : option (list Z) :=
  match r with
  | (s, None) => if pt_state s =? 0 then Some (take (pt_index s) (pt_target s)) else None
  | (s, Some rest) =>
      if (pt_state s =? 0) || (pt_state s =? 1) then None
      else if pt_state s =? 2 then
        match skip_spaces rest with
        | ch :: rest' => if (ch =? Pad64) && only_spaces rest' then pton_done s else None
        | [] => None
        end
      else if only_spaces rest then pton_done s else None
  end.

(** The bytes that are stored at the target, whose memory is [target]. *)
Definition b64_pton (src target : list Z) : option (list Z) := pton_loop src (Pton 0 0 target) ≫= pton_end.

(** ** Buffers *)

(** [None] for a null pointer. *)
Definition sshbuf_dtob64 (buf : list Z) : option (list Z) :=
  let len := zlen buf in
  if len =? 0 then Some []
  else if SIZE_MAX / 2 <=? len then None
  else b64_ntop buf ((len + 2) / 3 * 4 + 1).

(** [mem] is what [malloc] returns. *)
Definition sshbuf_b64tod (mem : nat -> list Z) (b64 : list Z) : M Z queue unit :=
  if zlen b64 =? 0 then cret tt
  else match b64_pton b64 (mem (length b64)) with
       | None => craise SSH_ERR_INVALID_FORMAT
       | Some p => q_append p
       end.

(** ** Text *)

Definition BASE64_LINE_LEN : Z := 65.
Definition TPL_MAX_SIZE : Z := 4096.
Definition EBOX_MAX_SIZE : Z := 16384.
Definition newline : Z := 10.

(** [printwrap]: what is printed of the text from the offset on. *)
Fixpoint printwrap_loop (n : nat) (data : list Z) (col : Z) : list Z :=
  match n, data with
  | S n', _ :: _ => take (Z.to_nat col) data ++ newline :: printwrap_loop n' (drop (Z.to_nat col) data) col
  | _, _ => []
  end.
Definition printwrap (data : list Z) (col : Z) : list Z := printwrap_loop (length data) data col.

(** [read_stdin_b64] on input that is [file]; a message and an exit are an error. The end of the file is seen only when less than [limit] bytes are
    there, and the string ends at the first NUL. *)
Inductive exit_error := TooLong | NotBase64 (rc : Z).

Definition read_stdin_b64 (mem : nat -> list Z) (limit : Z) (raw_in : bool) (file : list Z) : res exit_error (list Z) :=
  if limit <=? zlen file then Er TooLong
  else
    let load := if raw_in then q_append file else sshbuf_b64tod mem (c_str file) in
    match load (Queue [] SSHBUF_SIZE_MAX false) with
    | (Ok _, q) => Ok (q_bytes q)
    | (Er rc, _) => Er (NotBase64 rc)
    | (Panic, _) => Panic
    | (Fault, _) => Fault
    end.

(** ** The encoding of RFC 4648 *)

(** Twenty-four bits as four digits, the most significant first. *)
Definition sextets (w : Z) : list Z := [w / 262144 mod 64; w / 4096 mod 64; w / 64 mod 64; w mod 64].
Fixpoint b64 (bs : list Z) : list Z :=
  match bs with
  | a :: b :: c :: bs' => map digit (sextets (a * 65536 + b * 256 + c)) ++ b64 bs'
  | [a; b] => map digit (take 3 (sextets (a * 65536 + b * 256))) ++ [Pad64]
  | [a] => map digit (take 2 (sextets (a * 65536))) ++ [Pad64; Pad64]
  | [] => []
  end.
(** A text without its white space. *)
Definition strip (text : list Z) : list Z := filter (fun ch => isspace ch = false) text.

(** Induction by groups of three. *)
Lemma thirds_ind (P : list Z -> Prop) :
  P [] -> (forall a, P [a]) -> (forall a b, P [a; b]) -> (forall a b c l, P l -> P (a :: b :: c :: l)) -> forall l, P l.
Proof.
  intros H0 H1 H2 H3 l. assert (H : P l /\ (forall a, P (a :: l)) /\ (forall a b, P (a :: b :: l))); [|tauto].
  induction l as [|x l (IH0 & IH1 & IH2)]; split; auto.
Qed.

Lemma length_b64 bs : zlen (b64 bs) = (zlen bs + 2) / 3 * 4.
Proof.
  induction bs as [|a|a b|a b c l IH] using thirds_ind; [done..|].
  cbn [b64 map sextets app]. rewrite !zlen_cons, IH.
  replace (1 + (1 + (1 + zlen l)) + 2) with (1 * 3 + (zlen l + 2)) by lia. rewrite Z.div_add_l by lia. lia.
Qed.

Ltac bits :=
  repeat rewrite Z.shiftr_div_pow2 by lia; repeat rewrite Z.shiftl_mul_pow2 by lia;
  change (Z.land ?x 3) with (Z.land x (Z.ones 2)); change (Z.land ?x 15) with (Z.land x (Z.ones 4));
  change (Z.land ?x 63) with (Z.land x (Z.ones 6)); repeat rewrite Z.land_ones by lia;
  change (2 ^ 2) with 4; change (2 ^ 4) with 16; change (2 ^ 6) with 64.

Lemma ntop_loop_b64 bs out n :
  bytes bs ->
  ntop_loop bs out n = if n <=? zlen out + zlen (b64 bs) then None else Some (out ++ b64 bs).
Proof.
  revert out. induction bs as [|a|a b|a b c l IH] using thirds_ind; intros out Hb; cbn [ntop_loop b64 sextets map take app];
    rewrite ?app_nil_r, ?zlen_cons, ?zlen_app, ?zlen_cons, ?zlen_nil.
  - now rewrite Z.add_0_r.
  - apply Forall_cons in Hb as [Ha _]. unfold is_byte in Ha. bits.
    replace (a * 65536 / 262144 mod 64) with (a / 4) by (Z.to_euclidean_division_equations; lia).
    replace (a * 65536 / 4096 mod 64) with (a mod 4 * 16) by (Z.to_euclidean_division_equations; lia).
    repeat case_match; try done; lia.
  - apply Forall_cons in Hb as [Ha Hb]. apply Forall_cons in Hb as [Hb _]. unfold is_byte in *. bits.
    replace ((a * 65536 + b * 256) / 262144 mod 64) with (a / 4) by (Z.to_euclidean_division_equations; lia).
    replace ((a * 65536 + b * 256) / 4096 mod 64) with (a mod 4 * 16 + b / 16) by (Z.to_euclidean_division_equations; lia).
    replace ((a * 65536 + b * 256) / 64 mod 64) with (b mod 16 * 4) by (Z.to_euclidean_division_equations; lia).
    repeat case_match; try done; lia.
  - apply Forall_cons in Hb as [Ha Hb]. apply Forall_cons in Hb as [Hb Hc]. apply Forall_cons in Hc as [Hc Hl]. unfold is_byte in *.
    rewrite IH by done. bits.
    replace ((a * 65536 + b * 256 + c) / 262144 mod 64) with (a / 4) by (Z.to_euclidean_division_equations; lia).
    replace ((a * 65536 + b * 256 + c) / 4096 mod 64) with (a mod 4 * 16 + b / 16) by (Z.to_euclidean_division_equations; lia).
    replace ((a * 65536 + b * 256 + c) / 64 mod 64) with (b mod 16 * 4 + c / 64) by (Z.to_euclidean_division_equations; lia).
    replace ((a * 65536 + b * 256 + c) mod 64) with (c mod 64) by (Z.to_euclidean_division_equations; lia).
    rewrite zlen_app, !zlen_cons, zlen_nil, <- app_assoc. pose proof (zlen_nonneg (b64 l)). cbn [app].
    repeat case_match; try done; lia.
Qed.

Lemma b64_ntop_spec bs n : bytes bs -> b64_ntop bs n = if n <=? zlen (b64 bs) then None else Some (b64 bs).
Proof. intros H. unfold b64_ntop. now rewrite ntop_loop_b64. Qed.

Lemma sshbuf_dtob64_spec bs : bytes bs -> zlen bs < SIZE_MAX / 2 -> sshbuf_dtob64 bs = Some (b64 bs).
Proof.
  intros H Hn. unfold sshbuf_dtob64. destruct (Z.eqb_spec (zlen bs) 0) as [E|].
  - destruct bs; [done|]. rewrite zlen_cons in E. pose proof (zlen_nonneg bs). lia.
  - replace (_ <=? _) with false by lia. rewrite b64_ntop_spec, length_b64 by done.
    now replace (_ <=? _) with false by lia.
Qed.

(** ** The decoder and white space *)

Lemma skip_spaces_strip l :
  match skip_spaces l with [] => strip l = [] | ch :: r => isspace ch = false /\ strip l = ch :: strip r end.
Proof.
  unfold strip. induction l as [|ch l IH]; [done|]. cbn [skip_spaces]. rewrite filter_cons.
  destruct (isspace ch) eqn:E; [rewrite decide_False by done; exact IH|now rewrite decide_True by done].
Qed.
Lemma skip_spaces_strip' l : skip_spaces (strip l) = strip l.
Proof.
  unfold strip. induction l as [|ch l IH]; [done|]. rewrite filter_cons.
  case_decide as E; [|done]. cbn [skip_spaces]. now rewrite E.
Qed.
Lemma only_spaces_strip l : only_spaces l = match strip l with [] => true | _ => false end.
Proof. unfold only_spaces. pose proof (skip_spaces_strip l). case_match; [now rewrite H|destruct H as [_ ->]]. done. Qed.
Lemma strip_strip l : strip (strip l) = strip l.
Proof. unfold strip. apply list_filter_filter_l. auto. Qed.
Lemma strip_app a b : strip (a ++ b) = strip a ++ strip b.
Proof. apply filter_app. Qed.

Lemma pton_loop_strip src s :
  pton_loop (strip src) s = (fun r : pton * option (list Z) => (r.1, strip <$> r.2)) <$> pton_loop src s.
Proof.
  unfold strip. revert s. induction src as [|ch src IH]; intros s; [done|]. rewrite filter_cons. cbn [pton_loop].
  destruct (isspace ch) eqn:E; [rewrite decide_False by done; apply IH|rewrite decide_True by done].
  cbn [pton_loop]. rewrite E. case_match; [done|]. case_match; [|done]. case_match; [apply IH|done].
Qed.

Lemma pton_end_strip s rest : pton_end (s, strip <$> rest) = pton_end (s, rest).
Proof.
  destruct rest as [rest|]; [|done]. cbn [pton_end fmap option_fmap option_map].
  rewrite skip_spaces_strip', !only_spaces_strip, strip_strip. pose proof (skip_spaces_strip rest) as H.
  destruct (skip_spaces rest) as [|ch r]; [now rewrite H|]. destruct H as [_ ->].
  now rewrite !only_spaces_strip, strip_strip.
Qed.

Lemma b64_pton_strip src target : b64_pton (strip src) target = b64_pton src target.
Proof.
  unfold b64_pton. rewrite pton_loop_strip. destruct (pton_loop src _) as [[s rest]|]; [|done].
  cbn [fmap option_fmap option_map mbind option_bind fst snd]. apply pton_end_strip.
Qed.

(** ** Digits *)

Definition digits_ok : bool :=
  forallb (fun i => negb (isspace (digit i)) && negb (digit i =? Pad64) &&
                    match strchr64 (digit i) with Some v => v =? i | None => false end) (seqZ 0 64).
Lemma digit_facts v :
  0 <= v < 64 -> isspace (digit v) = false /\ digit v =? Pad64 = false /\ strchr64 (digit v) = Some v.
Proof.
  intros H. assert (D : digits_ok = true) by (vm_compute; reflexivity). unfold digits_ok in D.
  rewrite forallb_forall in D. specialize (D v). rewrite <- list_elem_of_In, elem_of_seqZ in D. specialize (D ltac:(lia)).
  apply andb_prop in D as [D D3]. apply andb_prop in D as [D1 D2]. apply negb_true_iff in D1, D2.
  destruct (strchr64 (digit v)); [|done]. apply Z.eqb_eq in D3 as ->. auto.
Qed.

Lemma strchr64_digit ch v : strchr64 ch = Some v -> 0 <= v < 64 /\ ch = digit v.
Proof.
  unfold strchr64, digit, zget. intros H. apply fmap_Some in H as ([i c] & H & ->). apply list_find_Some in H as (H & <- & _).
  cbn [fst]. pose proof (lookup_lt_Some _ _ _ H) as Hi. change (length Base64) with 64%nat in Hi. split; [lia|].
  rewrite Nat2Z.id. replace (0 <=? Z.of_nat i) with true by lia. now rewrite H.
Qed.

(** Reading a digit is one step. *)
Lemma pton_loop_digit v src s :
  0 <= v < 64 -> pton_loop (digit v :: src) s = pton_step v s ≫= pton_loop src.
Proof.
  intros Hv. destruct (digit_facts v Hv) as (E1 & E2 & E3). cbn [pton_loop]. rewrite E1, E2, E3. now case_match.
Qed.

(** ** One step on a target of which [pre] is decoded *)

Section steps.
Context (pre post : list Z).
Implicit Types x y v : Z.

Lemma pton_step0 v x :
  pton_step v (Pton 0 (length pre) (pre ++ x :: post)) = Some (Pton 1 (length pre) (pre ++ u8 (v * 4) :: post)).
Proof.
  unfold pton_step. cbn [pt_state pt_index pt_target Z.eqb Pos.eqb]. rewrite length_app. cbn [length].
  replace (_ <=? _)%nat with false by (symmetry; apply Nat.leb_gt; lia). rewrite insert_app_r_alt, Nat.sub_diag by lia.
  cbn. now rewrite Z.shiftl_mul_pow2 by lia.
Qed.
Lemma pton_step1 v x y :
  pton_step v (Pton 1 (length pre) (pre ++ x :: y :: post)) =
  Some (Pton 2 (S (length pre)) (pre ++ Z.lor x (v / 16) :: u8 (v mod 16 * 16) :: post)).
Proof.
  unfold pton_step. cbn [pt_state pt_index pt_target Z.eqb Pos.eqb]. rewrite length_app. cbn [length].
  replace (_ <=? _)%nat with false by (symmetry; apply Nat.leb_gt; lia). rewrite alter_app_r_alt, Nat.sub_diag by lia.
  rewrite insert_app_r_alt by lia. replace (S (length pre) - length pre)%nat with 1%nat by lia. cbn. now bits.
Qed.
Lemma pton_step2 v x y :
  pton_step v (Pton 2 (length pre) (pre ++ x :: y :: post)) =
  Some (Pton 3 (S (length pre)) (pre ++ Z.lor x (v / 4) :: u8 (v mod 4 * 64) :: post)).
Proof.
  unfold pton_step. cbn [pt_state pt_index pt_target Z.eqb Pos.eqb]. rewrite length_app. cbn [length].
  replace (_ <=? _)%nat with false by (symmetry; apply Nat.leb_gt; lia). rewrite alter_app_r_alt, Nat.sub_diag by lia.
  rewrite insert_app_r_alt by lia. replace (S (length pre) - length pre)%nat with 1%nat by lia. cbn. now bits.
Qed.
Lemma pton_step3 v x :
  pton_step v (Pton 3 (length pre) (pre ++ x :: post)) = Some (Pton 0 (S (length pre)) (pre ++ Z.lor x v :: post)).
Proof.
  unfold pton_step. cbn [pt_state pt_index pt_target Z.eqb Pos.eqb]. rewrite length_app. cbn [length].
  replace (_ <=? _)%nat with false by (symmetry; apply Nat.leb_gt; lia). now rewrite alter_app_r_alt, Nat.sub_diag by lia.
Qed.
End steps.

(** No room is left. *)
Lemma pton_step_full v (st : Z) (i : nat) (t : list Z) :
  (length t <= i)%nat \/ (st = 1 \/ st = 2) /\ (length t <= S i)%nat -> pton_step v (Pton st i t) = None.
Proof.
  intros H. unfold pton_step. cbn [pt_state pt_index pt_target]. rewrite !Nat.add_1_r.
  repeat case_match; try done; exfalso;
    repeat match goal with H : _ = true |- _ => apply Z.eqb_eq in H | H : _ = false |- _ => apply Z.eqb_neq in H || apply Nat.leb_gt in H end; lia.
Qed.

(** ** Groups *)

Lemma u8_small x : 0 <= x < 256 -> u8 x = x.
Proof. exact (wrap_small 8 x). Qed.
Lemma lor_high v w : 0 <= v < 64 -> 0 <= w < 64 -> Z.lor (u8 (v * 4)) (w / 16) = v * 4 + w / 16.
Proof.
  intros Hv Hw. rewrite u8_small by lia. change 4 with (2 ^ 2). rewrite <- Z.shiftl_mul_pow2 by lia.
  rewrite lor_shiftl_add; [now rewrite Z.shiftl_mul_pow2 by lia|lia|Z.to_euclidean_division_equations; lia].
Qed.
Lemma lor_mid v w : 0 <= w < 64 -> Z.lor (u8 (v mod 16 * 16)) (w / 4) = v mod 16 * 16 + w / 4.
Proof.
  intros Hw. rewrite u8_small by (Z.to_euclidean_division_equations; lia). change (_ * 16) with (v mod 16 * 2 ^ 4).
  rewrite <- Z.shiftl_mul_pow2 by lia.
  rewrite lor_shiftl_add; [now rewrite Z.shiftl_mul_pow2 by lia|lia|Z.to_euclidean_division_equations; lia].
Qed.
Lemma lor_low6 v w : 0 <= w < 64 -> Z.lor (u8 (v mod 4 * 64)) w = v mod 4 * 64 + w.
Proof.
  intros Hw. rewrite u8_small by (Z.to_euclidean_division_equations; lia). change (_ * 64) with (v mod 4 * 2 ^ 6).
  rewrite <- Z.shiftl_mul_pow2 by lia.
  rewrite lor_shiftl_add; [now rewrite Z.shiftl_mul_pow2 by lia|lia|lia].
Qed.

(** The steps of a group, on what the digits of it decode to. *)
Section group.
Context (pre post : list Z) (v1 v2 v3 v4 : Z).
Context (H1 : 0 <= v1 < 64) (H2 : 0 <= v2 < 64) (H3 : 0 <= v3 < 64) (H4 : 0 <= v4 < 64).
Let a : Z := v1 * 4 + v2 / 16.
Let b : Z := v2 mod 16 * 16 + v3 / 4.
Let c : Z := v3 mod 4 * 64 + v4.

Lemma pton_two x y :
  (pton_step v1 (Pton 0 (length pre) (pre ++ x :: y :: post)) ≫= pton_step v2) =
  Some (Pton 2 (length (pre ++ [a])) ((pre ++ [a]) ++ u8 (v2 mod 16 * 16) :: post)).
Proof.
  rewrite pton_step0. cbn [mbind option_bind]. rewrite pton_step1, lor_high by done.
  rewrite length_app, <- app_assoc. cbn [length app]. now rewrite Nat.add_1_r.
Qed.
Lemma pton_three y :
  pton_step v3 (Pton 2 (length (pre ++ [a])) ((pre ++ [a]) ++ u8 (v2 mod 16 * 16) :: y :: post)) =
  Some (Pton 3 (length (pre ++ [a; b])) ((pre ++ [a; b]) ++ u8 (v3 mod 4 * 64) :: post)).
Proof.
  rewrite pton_step2, lor_mid by done. rewrite !length_app, <- !app_assoc. cbn [length app].
  now replace (S (length pre + 1)) with (length pre + 2)%nat by lia.
Qed.
Lemma pton_four :
  pton_step v4 (Pton 3 (length (pre ++ [a; b])) ((pre ++ [a; b]) ++ u8 (v3 mod 4 * 64) :: post)) =
  Some (Pton 0 (length (pre ++ [a; b; c])) ((pre ++ [a; b; c]) ++ post)).
Proof.
  rewrite pton_step3, lor_low6 by done. rewrite !length_app, <- !app_assoc. cbn [length app].
  now replace (S (length pre + 2)) with (length pre + 3)%nat by lia.
Qed.

Lemma group_bytes : is_byte a /\ is_byte b /\ is_byte c.
Proof. unfold is_byte, a, b, c. Z.to_euclidean_division_equations; lia. Qed.
Lemma group_sextets : sextets (a * 65536 + b * 256 + c) = [v1; v2; v3; v4].
Proof. unfold sextets, a, b, c. repeat f_equal; Z.to_euclidean_division_equations; lia. Qed.
End group.

Lemma pton_end_pad2 pre x post rest d :
  pton_end (Pton 2 (length pre) (pre ++ x :: post), Some rest) = Some d <-> strip rest = [Pad64] /\ x = 0 /\ d = pre.
Proof.
  cbn [pton_end pt_state Z.eqb Pos.eqb orb]. pose proof (skip_spaces_strip rest) as S.
  destruct (skip_spaces rest) as [|ch r]; [rewrite S; naive_solver|]. destruct S as [_ ->]. rewrite only_spaces_strip.
  unfold pton_done. cbn [pt_target pt_index]. rewrite list_lookup_middle, take_app_length by done.
  destruct (Z.eqb_spec ch Pad64), (strip r); cbn [andb]; destruct (Z.eqb_spec x 0); naive_solver.
Qed.
Lemma pton_end_pad3 pre x post rest d :
  pton_end (Pton 3 (length pre) (pre ++ x :: post), Some rest) = Some d <-> strip rest = [] /\ x = 0 /\ d = pre.
Proof.
  cbn [pton_end pt_state Z.eqb Pos.eqb orb]. rewrite only_spaces_strip.
  unfold pton_done. cbn [pt_target pt_index]. rewrite list_lookup_middle, take_app_length by done.
  destruct (strip rest); destruct (Z.eqb_spec x 0); naive_solver.
Qed.

(** ** The texts the decoder accepts *)

Definition decodes (src : list Z) (s : pton) : option (list Z) := pton_loop src s ≫= pton_end.

Lemma decodes_digit v src s : 0 <= v < 64 -> decodes (digit v :: src) s = pton_step v s ≫= decodes src.
Proof. intros H. unfold decodes. rewrite pton_loop_digit by done. now destruct (pton_step v s). Qed.
Lemma decodes_pad src s : decodes (Pad64 :: src) s = pton_end (s, Some src).
Proof. done. Qed.

(** A text that is accepted goes on with a pad character or with a digit. *)
Lemma decodes_cons ch src s d :
  isspace ch = false -> decodes (ch :: src) s = Some d ->
  (ch = Pad64 /\ pton_end (s, Some src) = Some d) \/
  exists v s', 0 <= v < 64 /\ ch = digit v /\ pton_step v s = Some s' /\ decodes src s' = Some d.
Proof.
  unfold decodes. cbn [pton_loop]. intros -> H. destruct (Z.eqb_spec ch Pad64); [left; auto|right].
  destruct (strchr64 ch) as [v|] eqn:E; [|done]. apply strchr64_digit in E as [Hv ->].
  destruct (pton_step v s) as [s'|] eqn:E'; [|done]. eauto 7.
Qed.

Lemma strip_cons ch l : strip (ch :: l) = ch :: l -> isspace ch = false /\ strip l = l.
Proof.
  unfold strip. rewrite filter_cons. case_decide; [intros [=]; auto|].
  intros E. pose proof (length_filter (fun ch => isspace ch = false) l) as L. rewrite E in L. cbn in L. lia.
Qed.

Ltac no_room := rewrite pton_step_full in * by (rewrite ?length_app; cbn; lia); done.

Lemma decodes_sound n text pre post d :
  (length text <= n)%nat -> strip text = text -> decodes text (Pton 0 (length pre) (pre ++ post)) = Some d ->
  exists d', d = pre ++ d' /\ bytes d' /\ text = b64 d'.
Proof.
  revert text pre post. induction n as [|n IH]; intros text pre post Hn Hs H.
  all: destruct text as [|c1 text]; [exists []; injection H as <-; now rewrite take_app_length, app_nil_r|cbn in Hn; try lia].
  apply strip_cons in Hs as [S1 Hs]. apply decodes_cons in H as [[_ H]|(v1 & s1 & V1 & -> & E1 & H)]; [done| |done].
  destruct post as [|x post]; [no_room|]. destruct text as [|c2 text]; [rewrite pton_step0 in E1; now injection E1 as <-|].
  apply strip_cons in Hs as [S2 Hs].
  apply decodes_cons in H as [[_ H]|(v2 & s2 & V2 & -> & E2 & H)]; [rewrite pton_step0 in E1; now injection E1 as <-| |done].
  destruct post as [|y post]; [rewrite pton_step0 in E1; injection E1 as <-; no_room|].
  pose proof (pton_two pre post v1 v2 V1 V2 x y) as E. rewrite E1 in E. cbn [mbind option_bind] in E. rewrite E2 in E. injection E as ->.
  clear E1 E2 s1. destruct text as [|c3 text]; [done|]. apply strip_cons in Hs as [S3 Hs].
  apply decodes_cons in H as [[-> H]|(v3 & s3 & V3 & -> & E3 & H)]; [| |done].
  { apply pton_end_pad2 in H as (R & Z0 & ->). exists [v1 * 4 + v2 / 16]. rewrite <- Hs, R. 
    rewrite u8_small in Z0 by (Z.to_euclidean_division_equations; lia). split; [done|]. split.
    - constructor; [unfold is_byte; Z.to_euclidean_division_equations; lia|done].
    - cbn. repeat f_equal; Z.to_euclidean_division_equations; lia. }
  destruct post as [|z post]; [no_room|]. rewrite (pton_three pre post v1 v2 v3) in E3 by done. injection E3 as <-.
  destruct text as [|c4 text]; [done|]. apply strip_cons in Hs as [S4 Hs].
  apply decodes_cons in H as [[-> H]|(v4 & s4 & V4 & -> & E4 & H)]; [| |done].
  { apply pton_end_pad3 in H as (R & Z0 & ->). exists [v1 * 4 + v2 / 16; v2 mod 16 * 16 + v3 / 4]. rewrite <- Hs, R.
    rewrite u8_small in Z0 by (Z.to_euclidean_division_equations; lia). split; [done|]. split.
    - repeat constructor; unfold is_byte; Z.to_euclidean_division_equations; lia.
    - cbn. repeat f_equal; Z.to_euclidean_division_equations; lia. }
  rewrite (pton_four pre post v1 v2 v3 v4) in E4 by done. injection E4 as <-.
  apply IH in H as (d' & -> & Hd & ->); [|cbn in Hn; lia|done].
  destruct (group_bytes v1 v2 v3 v4 V1 V2 V3 V4) as (A & B & C).
  eexists (_ :: _ :: _ :: d'). split; [now rewrite <- app_assoc|]. split; [repeat constructor; done || apply A || apply B || apply C|].
  cbn [b64]. now rewrite group_sextets.
Qed.

Lemma sextet_range w k : 0 <= w / k mod 64 < 64.
Proof. apply Z.mod_pos_bound. lia. Qed.
#[local] Hint Resolve sextet_range : core.

Lemma decodes_two v1 v2 src pre x y post :
  0 <= v1 < 64 -> 0 <= v2 < 64 ->
  decodes (digit v1 :: digit v2 :: src) (Pton 0 (length pre) (pre ++ x :: y :: post)) =
  decodes src (Pton 2 (length (pre ++ [v1 * 4 + v2 / 16])) ((pre ++ [v1 * 4 + v2 / 16]) ++ u8 (v2 mod 16 * 16) :: post)).
Proof.
  intros V1 V2. pose proof (pton_two pre post v1 v2 V1 V2 x y) as E. rewrite decodes_digit by done.
  destruct (pton_step v1 _) as [s|]; [|done]. cbn [mbind option_bind] in *. now rewrite decodes_digit, E.
Qed.

Lemma decodes_complete d pre post :
  bytes d -> (length d < length post)%nat ->
  decodes (b64 d) (Pton 0 (length pre) (pre ++ post)) = Some (pre ++ d).
Proof.
  revert pre post. induction d as [|a|a b|a b c d IH] using thirds_ind; intros pre post Hb Hl; cbn in Hl.
  - cbn. now rewrite take_app_length, app_nil_r.
  - destruct post as [|x [|y post]]; [cbn in Hl; lia..|]. apply Forall_cons in Hb as [Ha _]. unfold is_byte in Ha.
    cbn [b64 sextets map take app]. rewrite decodes_two by done. rewrite decodes_pad. apply pton_end_pad2.
    split; [done|]. split; [|f_equal; f_equal; Z.to_euclidean_division_equations; lia].
    rewrite u8_small; Z.to_euclidean_division_equations; lia.
  - destruct post as [|x [|y [|z post]]]; [cbn in Hl; lia..|].
    apply Forall_cons in Hb as [Ha Hb]. apply Forall_cons in Hb as [Hb _]. unfold is_byte in Ha, Hb.
    cbn [b64 sextets map take app]. rewrite decodes_two by done. rewrite decodes_digit, pton_three by done. cbn [mbind option_bind]. rewrite decodes_pad.
    apply pton_end_pad3. split; [done|]. split; [|repeat f_equal; Z.to_euclidean_division_equations; lia].
    rewrite u8_small; Z.to_euclidean_division_equations; lia.
  - destruct post as [|x [|y [|z post]]]; [cbn in Hl; lia..|].
    apply Forall_cons in Hb as [Ha Hb]. apply Forall_cons in Hb as [Hb Hc]. apply Forall_cons in Hc as [Hc Hd]. unfold is_byte in Ha, Hb, Hc.
    assert (R : 0 <= (a * 65536 + b * 256 + c) mod 64 < 64) by (apply Z.mod_pos_bound; lia).
    cbn [b64 sextets map take app]. rewrite decodes_two by done. rewrite decodes_digit, pton_three by done. cbn [mbind option_bind].
    rewrite decodes_digit, pton_four by done. cbn [mbind option_bind]. rewrite IH by (done || (cbn in Hl; lia)).
    rewrite <- app_assoc. cbn [app]. repeat f_equal; Z.to_euclidean_division_equations; lia.
Qed.

Lemma pton_exact (text target d : list Z) :
  length target = length text -> text <> [] ->
  b64_pton text target = Some d <-> bytes d /\ strip text = b64 d.
Proof.
  intros Ht Hne. rewrite <- b64_pton_strip. split.
  - intros H. apply (decodes_sound (length (strip text)) _ [] target) in H as (d' & -> & H); [exact H|done|apply strip_strip].
  - intros [Hd E]. rewrite E. apply (decodes_complete d [] target Hd). rewrite Ht.
    pose proof (length_filter (fun ch => isspace ch = false) text) as L. fold (strip text) in L. rewrite E in L.
    pose proof (length_b64 d). destruct d; [destruct text; [done|cbn; lia]|]. unfold zlen in *.
    cbn [length] in *. Z.to_euclidean_division_equations; lia.
Qed.

(** C28: the decoder decodes exactly the encodings of RFC 4648, with white space at any place:
    it accepts a text if and only if the text without its white space is the encoding of some bytes, and then these are what it stores (so no
    two texts that differ in more than white space decode to the same bytes, and bits past the end are not ignored), whatever the
    target memory holds, provided that it is as large as the text is long. *)
Theorem b64_pton_exact (text target d : list Z) :
  length target = length text -> text <> [] ->
  b64_pton text target = Some d <-> bytes d /\ strip text = b64 d.
Proof. exact (pton_exact text target d). Qed.

Lemma b64_pton_exact_witness :
  b64_pton (zs "cGl2 eQ==") (zrepeat 9 7) = Some (zs "pivy").
Proof. apply (proj2 (b64_pton_exact (zs "cGl2 eQ==") (zrepeat 9 7) (zs "pivy") eq_refl ltac:(done))). split; [apply bytesb_spec; reflexivity|reflexivity]. Defined.

(** ** Armour *)

Lemma strip_b64 d : bytes d -> strip (b64 d) = b64 d.
Proof.
  intros Hd. assert (D : forall v, 0 <= v < 64 -> isspace (digit v) = false) by (intros; now apply digit_facts).
  unfold strip. induction d as [|a|a b|a b c d IH] using thirds_ind; cbn [b64 sextets map take app];
    rewrite ?filter_cons, ?decide_True by (done || apply D, Z.mod_pos_bound; lia); try done.
  do 3 apply Forall_inv_tail in Hd. now rewrite IH.
Qed.

Lemma strip_printwrap_loop n data col :
  0 < col -> (length data <= n)%nat -> strip (printwrap_loop n data col) = strip data.
Proof.
  intros Hc. revert data. induction n as [|n IH]; intros [|x data] Hn; [done|cbn in Hn; lia|done|].
  cbn [printwrap_loop]. change (?a ++ newline :: ?b) with (a ++ [newline] ++ b).
  rewrite !strip_app, IH by (rewrite length_drop; cbn in *; lia).
  change (strip [newline]) with (@nil Z). cbn [app]. now rewrite <- strip_app, take_drop.
Qed.

Lemma b64_no_nul d : Forall (fun ch => ch <> 0) (b64 d).
Proof.
  assert (D : forall v, digit (v mod 64) <> 0).
  { intros v E. pose proof (digit_facts (v mod 64) (Z.mod_pos_bound v 64 ltac:(lia))) as (_ & _ & F). now rewrite E in F. }
  induction d as [|a|a b|a b c d IH] using thirds_ind; cbn [b64 sextets map take app]; repeat constructor; done || apply D.
Qed.
Lemma printwrap_no_nul n data col :
  Forall (fun ch => ch <> 0) data -> Forall (fun ch => ch <> 0) (printwrap_loop n data col).
Proof.
  revert data. induction n as [|n IH]; intros [|x data] H; cbn [printwrap_loop]; try constructor.
  apply Forall_app. split; [now apply Forall_take|]. constructor; [done|]. apply IH. now apply Forall_drop.
Qed.
Lemma c_str_no_nul s : Forall (fun ch => ch <> 0) s -> c_str s = s.
Proof.
  intros H. apply no_nul_c_str. unfold no_nul. enough (memchr0 s = None) as -> by done.
  induction H as [|x l Hx _ IH]; [done|]. cbn. rewrite IH. destruct (Z.eqb_spec x 0); done.
Qed.

Lemma sshbuf_b64tod_ok mem text d q :
  (forall n, length (mem n) = n) -> bytes d -> strip text = b64 d -> q_ro q = false -> zlen (q_bytes q) + zlen d <= q_max q ->
  sshbuf_b64tod mem text q = (Ok tt, Queue (q_bytes q ++ d) (q_max q) false).
Proof.
  intros Hm Hd E Hr Hq. unfold sshbuf_b64tod. destruct text as [|ch text].
  - change (strip []) with (@nil Z) in E. destruct d as [|? [|? [|? ?]]]; [|discriminate E..]. cbn. rewrite app_nil_r, <- Hr. now destruct q.
  - rewrite zlen_cons. pose proof (zlen_nonneg text). replace (_ =? 0) with false by lia.
    assert (N : ch :: text <> []) by done. rewrite (proj2 (pton_exact _ (mem _) d (Hm _) N) (conj Hd E)).
    unfold q_append, cbind, cget, guard, cput. rewrite Hr. cbn. now replace (_ <=? _) with true by lia.
Qed.

(** what the tools print they read back: the text of a template or box in base 64, wrapped to lines of 65 characters,
    is read from the standard input as the same bytes, as long as it is shorter than the limit. *)
Theorem armour_roundtrip (mem : nat -> list Z) (limit : Z) (bs text : list Z) :
  (forall n, length (mem n) = n) -> bytes bs -> zlen bs <= SSHBUF_SIZE_MAX ->
  sshbuf_dtob64 bs = Some text -> zlen (printwrap text BASE64_LINE_LEN) < limit ->
  read_stdin_b64 mem limit false (printwrap text BASE64_LINE_LEN) = Ok bs.
Proof.
  intros Hm Hb Hn Ht Hl. assert (SSHBUF_SIZE_MAX < SIZE_MAX / 2) by reflexivity. rewrite sshbuf_dtob64_spec in Ht by (done || lia).
  injection Ht as <-. unfold read_stdin_b64. replace (_ <=? _) with false by lia.
  rewrite c_str_no_nul by apply printwrap_no_nul, b64_no_nul.
  rewrite (sshbuf_b64tod_ok mem _ bs); [done|done|done| |done|cbn [q_bytes q_max]; rewrite zlen_nil; lia].
  unfold printwrap. rewrite strip_printwrap_loop; [now apply strip_b64|done|lia].
Qed.

Lemma armour_roundtrip_witness :
  exists text, sshbuf_dtob64 (zrepeat 100 200) = Some text /\
    read_stdin_b64 (fun n => replicate n 3) TPL_MAX_SIZE false (printwrap text BASE64_LINE_LEN) = Ok (zrepeat 100 200).
Proof.
  eexists. split; [vm_compute; reflexivity|].
  apply (armour_roundtrip (fun n => replicate n 3) TPL_MAX_SIZE (zrepeat 100 200)).
  - intros n; apply length_replicate.
  - apply bytesb_spec. reflexivity.
  - vm_compute. discriminate.
  - vm_compute. reflexivity.
  - vm_compute. reflexivity.
Defined.
