(* ===== verification/Agent.v ===== *)
(** * The agent (pivy-agent.c)

    The daemon that answers the ssh-agent protocol with the keys of one PIV token: its session with the card, the PIN it keeps in
    memory, the requests, the connections and the main loop. The state is a record of the static variables; a function
    is a computation on it, whose error is the [errf_t] it returns. [Panic] is the end of the process, by VERIFY,
    [fatal] or [exit]. Buffers are the queues that the functions of sshbuf.c refine (Sshbuf.v).
    What the agent asks of its surroundings (the clock, random bytes, the list of readers) is numbered by
    the questions before it. Log messages, and the process ids and program names that only they show, are left out. *)
From stdpp Require Import base list strings.
From Stdlib Require Import ZArith Lia.
From S2P Require Import Prelude Errf Sshbuf Algs Tlv PivBox EboxTpl PivToken Apdu ApduChain PivPin PivFiles PivParse PivCert.
From S2P Require Import Cipher PivKeys PivEnum.

Local Open Scope string_scope.
Local Open Scope list_scope.
Local Open Scope Z_scope.
Local Open Scope c_scope.

Definition SSH_AGENT_FAILURE : Z := 5.
Definition SSH_AGENT_SUCCESS : Z := 6.
Definition SSH2_AGENTC_REQUEST_IDENTITIES : Z := 11.
Definition SSH2_AGENT_IDENTITIES_ANSWER : Z := 12.
Definition SSH2_AGENTC_SIGN_REQUEST : Z := 13.
Definition SSH2_AGENT_SIGN_RESPONSE : Z := 14.
Definition SSH2_AGENTC_REMOVE_ALL_IDENTITIES : Z := 19.
Definition SSH_AGENTC_LOCK : Z := 22.
Definition SSH_AGENTC_UNLOCK : Z := 23.
Definition SSH2_AGENTC_EXTENSION : Z := 27.
Definition SSH2_AGENT_EXT_FAILURE : Z := 28.
Definition SSH_AGENT_RSA_SHA2_256 : Z := 2.
Definition SSH_AGENT_RSA_SHA2_512 : Z := 4.
Definition AGENT_MAX_LEN : Z := 256 * 1024.
Definition card_probe_interval_nopin : Z := 120.
Definition card_probe_interval_pin : Z := 30.
Definition card_probe_limit : Z := 3.
Definition PIV_TAG_CERT_YK_ATTESTATION : Z := 6291201.   (* 0x5FFF01 *)

Definition parserrf (rc : Z) : errf_t := errf "ParseError" (Some (ssherrf rc)).
Definition nopinerrf (cause : errf_t) : errf_t := errf "NoPINError" (Some cause).
Definition flagserrf : errf_t := errf "FlagsError" None.
Definition caused_by (e : errf_t) (name : string) : bool := errf_caused_by (Some e) name.

(** [sshkey_equal] of the key in a slot and a key of a request, and the blob of a key in a slot. *)
Class AgentKeys {X : Certs} {C : Crypto} := {
  sshkey_equal : certkey -> sshkey -> bool;
  certkey_putb : certkey -> res Z (list Z)
}.

(** ** Data *)

(** Of the request a connection is working on and of its output; a listening socket has them too. *)
Inductive sock_type := AUTH_UNUSED | AUTH_SOCKET | AUTH_CONNECTION.
Record SocketEntry := Sock { e_fd : Z; e_type : sock_type; e_input : queue; e_output : queue; e_request : queue }.
Definition new_queue : queue := Queue [] SSHBUF_SIZE_MAX false.

Section Agent.
Context {X : Certs} {R : Reader} {PS : Pcsc} {C : Crypto} {EV : Evp} {KO : KeyOps} {EO : EcOct} {SK : SameKey} {KB : KeyBlobs} {AK : AgentKeys}.
Context (fuel : nat).

(** The command line, and what surrounds the agent. [clock] is in milliseconds. *)
Record surroundings := Around {
  guid : list Z; sign_9d : bool; check_client_uid : bool; parent_alive_interval : Z; getuid : Z;
  clock : nat -> Z; challenge : nat -> list Z; readers_listed : nat -> bool;
  generated : nat -> res Z sshkey; nonces : nat -> Z -> list Z; ivs : nat -> Z -> list Z
}.
Context (env : surroundings).

(** [ks], and whether [selk] points to it or is null; [s_age] counts the tokens that were found. *)
Record session := Session {
  s_ks : option tkn; s_selk : bool; s_age : nat; s_txnopen : bool; s_txntimeout : Z; s_last_update : Z; s_cak : option certkey
}.
(** The page for the PIN, [pin_len], and the interval that goes with it. *)
Record pin_store := PinStore { p_mem : list Z; p_len : Z; p_interval : Z }.
Record agent := Agent {
  a_readers : list reader; a_session : session; a_pin : pin_store;
  a_last_op : Z; a_probe_fails : Z; a_tick : nat; a_sockets : list SocketEntry
}.
Abbreviation Ag := (M stop agent).

Definition set_readers (v : list reader) (s : agent) : agent :=
  Agent v (a_session s) (a_pin s) (a_last_op s) (a_probe_fails s) (a_tick s) (a_sockets s).
Definition set_session (v : session) (s : agent) : agent :=
  Agent (a_readers s) v (a_pin s) (a_last_op s) (a_probe_fails s) (a_tick s) (a_sockets s).
Definition set_pin (v : pin_store) (s : agent) : agent :=
  Agent (a_readers s) (a_session s) v (a_last_op s) (a_probe_fails s) (a_tick s) (a_sockets s).
Definition set_last_op (v : Z) (s : agent) : agent :=
  Agent (a_readers s) (a_session s) (a_pin s) v (a_probe_fails s) (a_tick s) (a_sockets s).
Definition set_fails (v : Z) (s : agent) : agent :=
  Agent (a_readers s) (a_session s) (a_pin s) (a_last_op s) v (a_tick s) (a_sockets s).
Definition set_tick (v : nat) (s : agent) : agent :=
  Agent (a_readers s) (a_session s) (a_pin s) (a_last_op s) (a_probe_fails s) v (a_sockets s).
Definition set_sockets (v : list SocketEntry) (s : agent) : agent :=
  Agent (a_readers s) (a_session s) (a_pin s) (a_last_op s) (a_probe_fails s) (a_tick s) v.

Definition with_token (ks : option tkn) (selk : bool) (age : nat) (s : session) : session :=
  Session ks selk age (s_txnopen s) (s_txntimeout s) (s_last_update s) (s_cak s).
Definition with_txn (txnopen : bool) (txntimeout : Z) (s : session) : session :=
  Session (s_ks s) (s_selk s) (s_age s) txnopen txntimeout (s_last_update s) (s_cak s).
Definition with_update (v : Z) (s : session) : session :=
  Session (s_ks s) (s_selk s) (s_age s) (s_txnopen s) (s_txntimeout s) v (s_cak s).
Definition with_cak (v : option certkey) (s : session) : session :=
  Session (s_ks s) (s_selk s) (s_age s) (s_txnopen s) (s_txntimeout s) (s_last_update s) v.
Definition upd_session (f : session -> session) : Ag unit := cmodify (fun s => set_session (f (a_session s)) s).

(** ** Effects *)

Definition fail {A} (e : errf_t) : Ag A := craise (Err e).
(** [if ((err = m)) h(err)]: what is done about an error. *)
Definition catch {A} (m : Ag A) (h : errf_t -> Ag A) : Ag A :=
  fun s => match m s with (Er (Err e), s') => h e s' | r => r end.
(** The next question. *)
Definition ask {A} (f : nat -> A) : Ag A :=
  let! s := cget in cput (set_tick (S (a_tick s)) s) ;! cret (f (a_tick s)).
Definition monotime : Ag Z := ask (fun i => u64 (clock env i)).

Definition on_readers {A} (m : M stop (list reader) A) : Ag A :=
  fun s => let '(r, rs) := m (a_readers s) in (r, set_readers rs s).
(** A call with [selk], which must not be null. *)
Definition on_selk {A} (m : M stop world A) : Ag (errf_t + A) :=
  let! s := cget in
  match s_ks (a_session s), s_selk (a_session s) with
  | Some key, true =>
      let! (r, key) := on_readers (call key m) in
      upd_session (fun ss => with_token (Some key) true (s_age ss) ss) ;!
      cret r
  | _, _ => cfault
  end.
(** The same, when the error is returned. *)
Definition selk_do {A} (m : M stop world A) : Ag A :=
  let! r := on_selk m in match r with inl e => fail e | inr a => cret a end.
Definition selk_token : Ag piv_token :=
  let! s := cget in
  match s_ks (a_session s), s_selk (a_session s) with Some key, true => cret (tk_tok key) | _, _ => cfault end.

(** ** The session with the card *)

Definition end_txn_selk : Ag unit := on_selk piv_txn_end ;! cret tt.

Definition agent_piv_close (force : bool) : Ag unit :=
  let! now := monotime in
  let! s := cget in
  verify (s_txnopen (a_session s)) ;!
  if force || (s_txntimeout (a_session s) <=? now) then
    end_txn_selk ;! upd_session (fun ss => with_txn false (s_txntimeout ss) ss)
  else cret tt.

Definition drop_pin : Ag unit :=
  cmodify (fun s => let p := a_pin s in
                    set_pin (PinStore (if p_len p =? 0 then p_mem p else zsplice (p_mem p) 0 (zrepeat (p_len p) 0)) 0
                               card_probe_interval_nopin) s).

Definition CAKAuthError (cause : option errf_t) : errf_t := errf "CAKAuthError" cause.
Definition auth_cak : Ag unit :=
  let! t := selk_token in
  match piv_get_slot t PIV_SLOT_9E with
  | None => fail (CAKAuthError None)
  | Some slot =>
      let! s := cget in
      match s_cak (a_session s) with
      | None => cfault
      | Some cak =>
          let! chal := ask (challenge env) in
          let! r := on_selk (piv_auth_key fuel slot cak chal) in
          match r with inl e => fail (CAKAuthError (Some e)) | inr _ => cret tt end
      end
  end.

(** An error while the transaction is open ends it. *)
Definition or_end {A} (m : Ag A) : Ag A := catch m (fun e => end_txn_selk ;! fail e).
Definition has_cak : Ag bool := let! s := cget in cret (match s_cak (a_session s) with None => false | Some _ => true end).

(** The part of [agent_piv_open] that looks for the token. [piv_find] reports a token that is missing as an error, so that the
    branch for a null [ks] after it is never taken; a token that [piv_find] has freed is used at once. *)
Definition agent_piv_find : Ag unit :=
  upd_session (fun ss => with_token (s_ks ss) false (s_age ss) ss) ;!
  let! s := cget in
  match s_ks (a_session s) with Some key => on_readers (piv_release [key]) | None => cret tt end ;!
  let! listed := ask (readers_listed env) in
  let! found := catch (on_readers (piv_find fuel listed (guid env)))
                  (fun e => upd_session (fun ss => with_token None false (s_age ss) ss) ;! fail (errf "EnumerationError" (Some e))) in
  match found with
  | FreedToken => cfault
  | Found key =>
      upd_session (fun ss => with_token (Some key) true (S (s_age ss)) ss) ;!
      selk_do (piv_txn_begin fuel) ;!
      or_end (selk_do (piv_select fuel)) ;!
      or_end (catch (selk_do (piv_read_all_certs fuel))
                (fun e => if caused_by e "NotFoundError" || caused_by e "NotSupportedError" then cret tt else fail e)) ;!
      let! cak := has_cak in
      (if cak : bool then catch auth_cak (fun e => end_txn_selk ;! drop_pin ;! fail e) else cret tt) ;!
      let! now := monotime in
      upd_session (with_update now)
  end.

(** The first key in the card authentication slot is trusted. *)
Definition trust_cak : Ag unit :=
  let! cak := has_cak in
  if cak : bool then cret tt
  else
    let! t := selk_token in
    match piv_get_slot t PIV_SLOT_9E with
    | None => cret tt
    | Some slot => match ps_pubkey slot with
                   | NoKey => cpanic
                   | FreedKey => cfault
                   | HasKey k => upd_session (with_cak (Some k))
                   end
    end.

Definition agent_piv_open : Ag unit :=
  let! s := cget in
  if s_txnopen (a_session s) then
    let! now := monotime in upd_session (fun ss => with_txn true (u64 (now + 2000)) ss)
  else
    let! begun := (if s_selk (a_session s)
                   then let! r := on_selk (piv_txn_begin fuel) in cret (match r with inl _ => false | inr _ => true end)
                   else cret false) in
    (if begun : bool then or_end (selk_do (piv_select fuel)) else agent_piv_find) ;!
    trust_cak ;!
    upd_session (fun ss => with_txn true (s_txntimeout ss) ss) ;!
    let! now := monotime in
    upd_session (fun ss => with_txn true (u64 (now + 2000)) ss) ;!
    cmodify (set_fails 0).

Definition forget_selk : Ag unit := upd_session (fun ss => with_token (s_ks ss) false (s_age ss) ss).

Definition probe_card : Ag unit :=
  let! s := cget in
  if card_probe_limit <? a_probe_fails s then cret tt
  else
    let! now := monotime in
    cmodify (set_last_op now) ;!
    let! opened := catch (agent_piv_open ;! cret true)
      (fun _ =>
         let! s := cget in
         cmodify (set_fails (u32 (a_probe_fails s + 1))) ;!
         (if 0 <? a_probe_fails s then drop_pin else cret tt) ;!
         forget_selk ;! cret false) in
    if opened : bool then
      let! cak := has_cak in
      let! genuine := (if cak : bool then catch (auth_cak ;! cret true)
        (fun _ => agent_piv_close true ;! drop_pin ;! forget_selk ;!
                  cmodify (fun s => set_fails (u32 (a_probe_fails s + 1)) s) ;! cret false) else cret true) in
      if genuine : bool then agent_piv_close false ;! cmodify (set_fails 0) else cret tt
    else cret tt.

(** ** The PIN *)

Definition TokenLocked (cause : errf_t) : errf_t := errf "TokenLocked" (Some cause).
Definition InvalidPIN (cause : option errf_t) : errf_t := errf "InvalidPIN" cause.

Definition wrap_pin_error (err : option errf_t) (retries : Z) : Ag unit :=
  match err with
  | None => cret tt
  | Some e =>
      if caused_by e "PermissionError" then
        if retries =? 0 then fail (TokenLocked e) else drop_pin ;! fail (InvalidPIN (Some e))
      else if caused_by e "MinRetriesError" then drop_pin ;! fail (TokenLocked e)
      else fail e
  end.

(** [piv_verify_pin] with the default PIN and [retries] at 1, as the token's own error. *)
Definition verify_selk (pin : list Z) (canskip : bool) : Ag (option errf_t * Z) :=
  let! t := selk_token in
  let! r := on_selk (piv_verify_pin fuel (piv_token_default_auth t) (Some pin) (Some 1) canskip) in
  match r with
  | inl e => cret (Some e, 1)
  | inr (err, retries) => cret (err, default 1 retries)
  end.

Definition agent_piv_try_pin (canskip : bool) : Ag unit :=
  let! s := cget in
  if p_len (a_pin s) =? 0 then cret tt
  else let! (err, retries) := verify_selk (c_str (p_mem (a_pin s))) canskip in wrap_pin_error err retries.

(** [valid_pin]: six to eight letters and digits *)
Definition pin_char (c : Z) : bool :=
  ((48 <=? c) && (c <=? 57)) || ((97 <=? c) && (c <=? 122)) || ((65 <=? c) && (c <=? 90)).
Definition valid_pin (pin : list Z) : bool := (6 <=? zlen pin) && (zlen pin <=? 8) && forallb pin_char pin.

(** ** Sockets and buffers *)

(** A buffer operation whose failure is fatal, and one whose error code is looked at. *)
Definition on_entry {A} (e : nat) (get : SocketEntry -> queue) (set : queue -> SocketEntry -> SocketEntry) (m : M Z queue A) : Ag (Z + A) :=
  fun s => match a_sockets s !! e with
           | None => (Panic, s)
           | Some ent =>
               let '(r, q) := m (get ent) in
               (match r with Ok a => Ok (inr a) | Er rc => Ok (inl rc) | Panic => Panic | Fault => Fault end,
                set_sockets (<[e := set q ent]> (a_sockets s)) s)
           end.
Definition set_input (q : queue) (e : SocketEntry) : SocketEntry := Sock (e_fd e) (e_type e) q (e_output e) (e_request e).
Definition set_output (q : queue) (e : SocketEntry) : SocketEntry := Sock (e_fd e) (e_type e) (e_input e) q (e_request e).
Definition set_request (q : queue) (e : SocketEntry) : SocketEntry := Sock (e_fd e) (e_type e) (e_input e) (e_output e) q.
Definition or_fatal {A} (m : Ag (Z + A)) : Ag A := let! r := m in match r with inl _ => cpanic | inr a => cret a end.
Definition or_parserrf {A} (m : Ag (Z + A)) : Ag A := let! r := m in match r with inl rc => fail (parserrf rc) | inr a => cret a end.

Definition output {A} (e : nat) (m : M Z queue A) : Ag A := or_fatal (on_entry e e_output set_output m).
Definition request {A} (e : nat) (m : M Z queue A) : Ag A := or_parserrf (on_entry e e_request set_request m).

Definition put_u8 (v : Z) : M Z queue unit := q_append [u8 v].
Definition put_u32 (v : Z) : M Z queue unit := q_append (be_bytes 4 v).
Definition put_string (v : list Z) : M Z queue unit := q_put_string 4 (SSHBUF_SIZE_MAX - 4) v.
Definition get_string : M Z queue (list Z) := q_get_string 4.
Definition get_cstring : M Z queue (list Z) := q_read_string 4 cstring_check (fun s => s).
Definition get_key : M Z queue sshkey :=
  let! d := get_string in fun q => (sshkey_fromb d, q).

(** [msg = sshbuf_new(); m; sshbuf_put_stringb(e->output, msg)] *)
Definition new_msg (m : M Z queue unit) : Ag (list Z) :=
  match m new_queue with
  | (Ok _, q) => cret (q_bytes q)
  | (Er _, _) | (Panic, _) => cpanic
  | (Fault, _) => cfault
  end.
Definition reply (e : nat) (m : M Z queue unit) : Ag unit :=
  let! msg := new_msg m in output e (put_string msg).

Definition send_status (e : nat) (success : bool) : Ag unit :=
  output e (put_u32 1 ;! put_u8 (if success then SSH_AGENT_SUCCESS else SSH_AGENT_FAILURE)).
Definition send_extfail (e : nat) : Ag unit := output e (put_u32 1 ;! put_u8 SSH2_AGENT_EXT_FAILURE).

(** ** Requests *)

(** The first slot whose key is the one asked for. *)
Fixpoint find_slot (key : sshkey) (slots : list piv_slot) : Ag (option piv_slot) :=
  match slots with
  | [] => cret None
  | slot :: slots' =>
      match ps_pubkey slot with
      | FreedKey => cfault
      | NoKey => find_slot key slots'
      | HasKey k => if sshkey_equal k key then cret (Some slot) else find_slot key slots'
      end
  end.
Definition KeyNotFound : errf_t := errf "NotFoundError" None.
Definition selk_slot (key : sshkey) : Ag piv_slot :=
  let! t := selk_token in
  let! slot := find_slot key (pt_slots t) in
  match slot with
  | None => agent_piv_close false ;! fail KeyNotFound
  | Some slot => cret slot
  end.

(** [PIV_slot_%02X %s] in a buffer of 256 bytes *)
Definition hex_digit (d : Z) : Z := if d <? 10 then 48 + d else 55 + d.
Definition hex2 (v : Z) : list Z := [hex_digit (v / 16); hex_digit (v mod 16)].
Definition slot_comment (slotid : Z) (subject : list Z) : list Z :=
  take 255 (zs "PIV_slot_" ++ hex2 slotid ++ [32] ++ c_str subject).

Definition put_identity (slot : piv_slot) : M Z queue unit :=
  match ps_pubkey slot, ps_subj slot with
  | FreedKey, _ => cfault
  | NoKey, _ => craise SSH_ERR_INVALID_ARGUMENT
  | HasKey k, subject =>
      let! blob := (fun q => (certkey_putb k, q)) in
      put_string blob ;!
      match subject with None => cfault | Some subj => put_string (slot_comment (ps_slot slot) subj) end
  end.
Fixpoint put_identities (slots : list piv_slot) : M Z queue unit :=
  match slots with
  | [] => cret tt
  | slot :: slots' =>
      (if ps_slot slot =? PIV_SLOT_KEY_MGMT then cret tt else put_identity slot) ;! put_identities slots'
  end.
(** The key management slot comes last. *)
Definition identities (t : piv_token) : M Z queue unit :=
  put_u8 SSH2_AGENT_IDENTITIES_ANSWER ;!
  put_u32 (zlen (pt_slots t)) ;!
  put_identities (pt_slots t) ;!
  match piv_get_slot t PIV_SLOT_KEY_MGMT with None => cret tt | Some slot => put_identity slot end.

(** [true] when the error of [piv_read_all_certs] is freed and kept: it is returned, and then used. *)
Definition refresh : Ag bool :=
  let! now := monotime in
  let! s := cget in
  if p_interval (a_pin s) * 1000 <=? u64 (now - s_last_update (a_session s)) then
    upd_session (with_update now) ;!
    let! r := on_selk (piv_read_all_certs fuel) in
    let! cak := has_cak in
    if cak : bool then catch auth_cak (fun e => agent_piv_close true ;! drop_pin ;! fail e) ;! cret false
    else cret (match r with inl _ => true | inr _ => false end)
  else cret false.

Definition process_request_identities (e : nat) : Ag unit :=
  agent_piv_open ;!
  let! dangling := refresh in
  agent_piv_close false ;!
  let! t := selk_token in
  reply e (identities t) ;!
  if dangling : bool then cfault else cret tt.

(** The digest for a key; not set for other types of keys. *)
Definition sign_hash (key : sshkey) (flags : Z) : option Z :=
  match key with
  | OtherKey type =>
      if type =? KEY_RSA then
        Some (if Z.testbit flags 1 then SSH_DIGEST_SHA256 else if Z.testbit flags 2 then SSH_DIGEST_SHA512 else SSH_DIGEST_SHA1)
      else None
  | EcKey nid _ _ =>
      let bits := sshkey_curve_nid_to_bits nid in
      Some (if bits =? 256 then SSH_DIGEST_SHA256 else if bits =? 384 then SSH_DIGEST_SHA384
            else if bits =? 521 then SSH_DIGEST_SHA512 else SSH_DIGEST_SHA256)
  end.

(** From [pin_again] to the end of the transaction. A slot that always wants the PIN is tried again with it, once. *)
Definition pin_round {A} (canskip : bool) (again : Ag A) (op : M stop world A) : Ag A :=
  catch (agent_piv_try_pin canskip) (fun e => agent_piv_close true ;! fail e) ;!
  let! r := on_selk op in
  match r with
  | inr a => agent_piv_close false ;! cret a
  | inl e =>
      let! s := cget in
      let! t := selk_token in
      if caused_by e "PermissionError" && negb (p_len (a_pin s) =? 0) && piv_token_is_ykpiv t && canskip then again
      else agent_piv_close true ;! fail (if caused_by e "PermissionError" then nopinerrf e else e)
  end.
Definition pin_rounds {A} (slot : piv_slot) (op : M stop world A) : Ag A :=
  if ps_slot slot =? PIV_SLOT_9C then pin_round false cfault op else pin_round true (pin_round false cfault op) op.

Definition HashMismatch : errf_t := errf "HashMismatch" None.
Definition Sign9dError : errf_t := errf "PermissionError" None.

Definition process_sign_request2 (e : nat) : Ag unit :=
  let! key := request e get_key in
  let! data := request e get_string in
  let! flags := request e (q_get_u 4) in
  agent_piv_open ;!
  let! slot := selk_slot key in
  guard (negb ((ps_slot slot =? PIV_SLOT_KEY_MGMT) && negb (sign_9d env))) (Err Sign9dError) ;!
  let! (hashalg, rawsig) := pin_rounds slot
    (match sign_hash key flags with
     | None => cfault
     | Some h => piv_sign fuel (ps_alg slot) (ps_slot slot) h data
     end) in
  guard (bool_decide (sign_hash key flags = Some hashalg)) (Err HashMismatch) ;!
  match ps_pubkey slot with
  | HasKey k =>
      match sshkey_sig_from_asn1 k hashalg rawsig with
      | inl _ => cpanic
      | inr signature => reply e (put_u8 SSH2_AGENT_SIGN_RESPONSE ;! put_string signature)
      end
  | _ => cfault
  end.

Definition process_remove_all_identities (e : nat) : Ag unit := drop_pin ;! send_status e true.

(** ** Extensions *)

(** A handler reads [buf], which is a part of the request. *)
Definition parse {A} (buf : queue) (m : M Z queue A) : Ag (A * queue) :=
  match m buf with
  | (Ok a, q) => cret (a, q)
  | (Er rc, _) => fail (parserrf rc)
  | (Panic, _) => cpanic
  | (Fault, _) => cfault
  end.

Definition is_ec (k : sshkey) : bool := match k with EcKey _ _ _ => true | OtherKey _ => false end.
Definition InvalidKeysError : errf_t := errf "InvalidKeysError" None.

Definition process_ext_ecdh (e : nat) (buf : queue) : Ag unit :=
  let! (key, buf) := parse buf get_key in
  let! (partner, buf) := parse buf get_key in
  let! (flags, buf) := parse buf (q_get_u 4) in
  guard (flags =? 0) (Err flagserrf) ;!
  agent_piv_open ;!
  let! slot := selk_slot key in
  (if is_ec key && is_ec partner then cret tt else agent_piv_close false ;! fail InvalidKeysError) ;!
  let! secret := pin_rounds slot (piv_ecdh fuel (ps_alg slot) (ps_slot slot) partner) in
  reply e (put_u8 SSH_AGENT_SUCCESS ;! put_string secret).

(** [piv_box_find_token] with the list that starts at [selk]. *)
Definition selk_find_token (box : piv_ecdh_box) : Ag piv_slot :=
  let! s := cget in
  match s_ks (a_session s), s_selk (a_session s) with
  | Some key, true =>
      let! (tks, r) := on_readers (piv_box_find_token fuel [key] box) in
      match tks with
      | [key] => upd_session (fun ss => with_token (Some key) true (s_age ss) ss)
      | _ => cfault
      end ;!
      match r with inl err => fail err | inr (_, slot) => cret slot end
  | _, _ =>
      let! (_, r) := on_readers (piv_box_find_token fuel [] box) in
      match r with inl err => fail err | inr (_, slot) => cret slot end
  end.

(** [piv_box_open(selk, slot, box)]: the box and the token side by side. *)
Definition selk_box_open (slot : piv_slot) (box : piv_ecdh_box) : Ag piv_ecdh_box :=
  selk_do (fun w => let '(r, (b, w')) := piv_box_open_token fuel (ps_alg slot) (ps_slot slot) (box, w) in
                    (match r with Ok _ => Ok b | Er x => Er x | Panic => Panic | Fault => Fault end, w')).
Definition on_box {A} (m : M errf_t piv_ecdh_box A) (box : piv_ecdh_box) : Ag (A * piv_ecdh_box) :=
  match m box with
  | (Ok a, b) => cret (a, b)
  | (Er err, _) => fail err
  | (Panic, _) => cpanic
  | (Fault, _) => cfault
  end.
(** [VERIFY0] *)
Definition sure {A} (m : Ag A) : Ag A := catch m (fun _ => cpanic).

(** [guidb] is followed by the rest of the request, which is read when the GUID is shorter than 16 bytes. The slot belongs to the
    token that was there before [agent_piv_open]. *)
Definition process_ext_rebox (e : nat) (buf : queue) : Ag unit :=
  let! (boxbuf, buf) := parse buf get_string in
  let! (guidb, buf) := parse buf get_string in
  let after_guid := q_bytes buf in
  let! (slotid, buf) := parse buf (q_get_u 1) in
  let! (partner, buf) := parse buf get_key in
  let! (flags, buf) := parse buf (q_get_u 4) in
  guard (flags =? 0) (Err flagserrf) ;!
  let! box := match sshbuf_from boxbuf with
              | None => cpanic
              | Some b => match fst (sshbuf_get_piv_box b) with
                          | Ok box => cret box | Er err => fail err | Panic => cpanic | Fault => cfault
                          end
              end in
  let! slot := selk_find_token box in
  let! s := cget in
  agent_piv_open ;!
  let! s' := cget in
  catch (agent_piv_try_pin false) (fun err => agent_piv_close true ;! fail err) ;!
  (if Nat.eqb (s_age (a_session s)) (s_age (a_session s')) then cret tt else cfault) ;!
  let! box := catch (selk_box_open slot box) (fun err => agent_piv_close true ;! fail err) in
  let! (secret, _) := sure (on_box piv_box_take_data box) in
  agent_piv_close false ;!
  let given := take (Z.to_nat GUID_LEN) (guidb ++ after_guid) in
  (if (0 <? zlen guidb) && negb (zlen given =? GUID_LEN) then cfault else cret tt) ;!
  let! (_, newbox) := on_box ((if 0 <? zlen guidb then piv_box_set_guid given ;! piv_box_set_slot slotid else cret tt) ;!
                              piv_box_set_data secret) piv_box_new in
  let! i := ask (fun i => i) in
  let! (_, newbox) := on_box (piv_box_seal_offline partner (generated env i) (nonces env i) (ivs env i)) newbox in
  match piv_box_to_binary newbox with
  | Ok out => reply e (put_u8 SSH_AGENT_SUCCESS ;! put_string out)
  | Er _ | Panic => cpanic
  | Fault => cfault
  end.

Definition process_ext_x509_certs (e : nat) (buf : queue) : Ag unit := fail (errf "NotImplementedError" None).

(** The first object in the file is the certificate. The reader is freed on every path, without [tlv_abort]. *)
Definition attest_chain (chain : list Z) : Ag (list Z) :=
  let '(r, ts) := (let! tag := tlv_read_tag in
                   guard (tag =? 112) (errf "InvalidDataError" None) ;!
                   let! v := tlv_view in
                   tlv_skip ;! cret v) (tlv_init chain 0 (zlen chain)) in
  match r, fst (tlv_free ts) with
  | Ok v, Ok _ => cret v
  | Er err, Ok _ => fail err
  | Fault, _ => cfault
  | _, _ => cpanic
  end.

Definition process_ext_attest (e : nat) (buf : queue) : Ag unit :=
  let! (key, buf) := parse buf get_key in
  let! (flags, buf) := parse buf (q_get_u 4) in
  guard (flags =? 0) (Err flagserrf) ;!
  agent_piv_open ;!
  let! slot := selk_slot key in
  let close {A} (m : Ag A) : Ag A := catch m (fun err => agent_piv_close true ;! fail err) in
  let! cert := close (selk_do (ykpiv_attest fuel (ps_slot slot))) in
  let! chain := close (selk_do (piv_read_file fuel PIV_TAG_CERT_YK_ATTESTATION)) in
  agent_piv_close false ;!
  let! ptr := attest_chain chain in
  reply e (put_u8 SSH_AGENT_SUCCESS ;! put_u32 2 ;! put_string cert ;! put_string ptr).

(** The names of the handlers, in the order of the table. *)
Definition exthandlers : list string :=
  ["query"; "ecdh@joyent.com"; "ecdh-rebox@joyent.com"; "x509-certs@joyent.com"; "ykpiv-attest@joyent.com"].
Fixpoint put_names (names : list string) : M Z queue unit :=
  match names with [] => cret tt | n :: names' => put_string (zs n) ;! put_names names' end.
Definition process_ext_query (e : nat) (buf : queue) : Ag unit :=
  reply e (put_u8 SSH_AGENT_SUCCESS ;! put_u32 (zlen exthandlers) ;! put_names exthandlers).

(** [strcmp] of the name with the entries of [exthandlers] *)
Definition exthandler (name : list Z) : option (nat -> queue -> Ag unit) :=
  if bool_decide (name = zs "query") then Some process_ext_query
  else if bool_decide (name = zs "ecdh@joyent.com") then Some process_ext_ecdh
  else if bool_decide (name = zs "ecdh-rebox@joyent.com") then Some process_ext_rebox
  else if bool_decide (name = zs "x509-certs@joyent.com") then Some process_ext_x509_certs
  else if bool_decide (name = zs "ykpiv-attest@joyent.com") then Some process_ext_attest
  else None.
Definition UnknownExtension : errf_t := errf "UnknownExtension" None.

Definition process_extension (e : nat) : Ag unit :=
  let! extname := request e get_cstring in
  let! inner := request e get_string in
  match exthandler (c_str extname) with
  | None => fail UnknownExtension
  | Some eh_handler => catch (eh_handler e (Queue inner SSHBUF_SIZE_MAX true)) (fun _ => send_extfail e)
  end.

(** ** Locking *)

(** [passwd] is the string as sent: it may end in a NUL, which [pwlen] counts. *)
Definition store_pin (passwd : list Z) : Ag unit :=
  let! s := cget in
  let p := a_pin s in
  let mem := if p_len p =? 0 then p_mem p else zsplice (p_mem p) 0 (zrepeat (p_len p) 0) in
  if zlen mem <? zlen passwd + 1 then cfault
  else cput (set_pin (PinStore (zsplice mem 0 (passwd ++ [0])) (zlen passwd) (p_interval p)) s).

Definition process_lock_agent (e : nat) (lock : bool) : Ag unit :=
  let! passwd := or_fatal (on_entry e e_request set_request get_cstring) in
  if lock then drop_pin ;! send_status e true
  else
    guard (valid_pin (c_str passwd)) (Err (InvalidPIN None)) ;!
    agent_piv_open ;!
    let! (err, retries) := verify_selk (c_str passwd) false in
    match err with
    | None =>
        agent_piv_close false ;!
        store_pin passwd ;!
        send_status e true ;!
        cmodify (fun s => let p := a_pin s in set_pin (PinStore (p_mem p) (p_len p) card_probe_interval_pin) s)
    | Some _ => agent_piv_close true ;! wrap_pin_error err retries
    end.

(** ** Messages *)

Definition UnknownMessageError : errf_t := errf "UnknownMessageError" None.
Definition dispatch (e : nat) (type : Z) : Ag unit :=
  if (type =? SSH_AGENTC_LOCK) || (type =? SSH_AGENTC_UNLOCK) then process_lock_agent e (type =? SSH_AGENTC_LOCK)
  else if type =? SSH2_AGENTC_SIGN_REQUEST then process_sign_request2 e
  else if type =? SSH2_AGENTC_REQUEST_IDENTITIES then process_request_identities e
  else if type =? SSH2_AGENTC_REMOVE_ALL_IDENTITIES then process_remove_all_identities e
  else if type =? SSH2_AGENTC_EXTENSION then process_extension e
  else fail UnknownMessageError.

Definition reset_request (e : nat) : Ag unit :=
  or_fatal (on_entry e e_request set_request (cmodify (fun q => Queue [] (q_max q) (q_ro q)))).

(** 0 or -1 *)
Definition process_message (e : nat) : Ag Z :=
  let! s := cget in
  match a_sockets s !! e with
  | None => cpanic
  | Some ent =>
      let input := q_bytes (e_input ent) in
      let msg_len := be_val (take 4 input) in
      if zlen input <? 5 then cret 0
      else if AGENT_MAX_LEN <? msg_len then cret (-1)
      else if zlen input <? msg_len + 4 then cret 0
      else
        reset_request e ;!
        let! r := on_entry e e_input set_input get_string in
        let! r := match r with
                  | inl rc => cret (inl rc)
                  | inr body => on_entry e e_request set_request (q_append body ;! q_get_u 1)
                  end in
        match r with
        | inl rc => if (rc =? SSH_ERR_MESSAGE_INCOMPLETE) || (rc =? SSH_ERR_STRING_TOO_LARGE) then cret (-1) else cpanic
        | inr type =>
            let! now := monotime in
            cmodify (set_last_op now) ;!
            catch (dispatch e type) (fun _ => reset_request e ;! send_status e false) ;!
            cret 0
        end
  end.

(** ** Connections *)

(** A new entry; the others of a new block are not read before they are set. *)
Definition free_entry : SocketEntry := Sock 0 AUTH_UNUSED new_queue new_queue new_queue.
Definition unused (e : SocketEntry) : bool := match e_type e with AUTH_UNUSED => true | _ => false end.
Definition new_socket (type : sock_type) (fd : Z) : Ag unit :=
  let! s := cget in
  let ent := Sock fd type new_queue new_queue new_queue in
  match list_find (fun e => unused e = true) (a_sockets s) with
  | Some (i, _) => cput (set_sockets (<[i := ent]> (a_sockets s)) s)
  | None => cput (set_sockets (a_sockets s ++ ent :: replicate 9 free_entry) s)
  end.
Definition close_socket (e : nat) : Ag unit :=
  cmodify (fun s => set_sockets (alter (fun ent => Sock (-1) AUTH_UNUSED (e_input ent) (e_output ent) (e_request ent)) e (a_sockets s)) s).

(** What the system calls give. [Accepted]: a descriptor and the effective user of the peer. [Refused]: [accept]
    or the request for the credentials fails. [ReadEnd]: the end of the stream, or an error other than EAGAIN and EINTR. *)
Inductive accept_result := Accepted (fd euid : Z) | Refused.
Inductive read_result := Read (buf : list Z) | ReadAgain | ReadEnd.
Inductive write_result := Written (len : Z) | WriteAgain | WriteEnd.

(** [false] stands for -1. *)
Definition handle_socket_read (a : accept_result) : Ag bool :=
  match a with
  | Refused => cret false
  | Accepted fd euid =>
      if check_client_uid env && negb (euid =? 0) && negb (getuid env =? euid) then cret false
      else new_socket AUTH_CONNECTION fd ;! cret true
  end.
(** The result of [process_message] is not looked at. *)
Definition handle_conn_read (e : nat) (r : read_result) : Ag bool :=
  match r with
  | ReadAgain => cret true
  | ReadEnd => cret false
  | Read buf =>
      or_fatal (on_entry e e_input set_input (q_append buf)) ;!
      process_message e ;!
      cret true
  end.
Definition handle_conn_write (e : nat) (r : write_result) : Ag bool :=
  let! s := cget in
  match a_sockets s !! e with
  | None => cfault
  | Some ent =>
      if zlen (q_bytes (e_output ent)) =? 0 then cret true
      else match r with
           | WriteAgain => cret true
           | WriteEnd => cret false
           | Written len => output e (q_take len) ;! cret true
           end
  end.

(** A descriptor with events: POLLIN or POLLERR, POLLOUT or POLLHUP, and what the calls on it will give. *)
Record pollfd := Pollfd { pfd_fd : Z; pfd_in : bool; pfd_out : bool; pfd_accept : accept_result; pfd_read : read_result; pfd_write : write_result }.

Definition after_event (p : pollfd) : Ag unit :=
  let! s := cget in
  match list_find (fun e => unused e = false /\ e_fd e = pfd_fd p) (a_sockets s) with
  | None => cret tt
  | Some (i, ent) =>
      let step (wanted : bool) (m : Ag bool) : Ag bool :=
        if wanted then let! ok := m in (if ok : bool then cret true else close_socket i ;! cret false) else cret true in
      match e_type ent with
      | AUTH_SOCKET => step (pfd_in p) (handle_socket_read (pfd_accept p)) ;! cret tt
      | _ =>
          let! ok := step (pfd_in p) (handle_conn_read i (pfd_read p)) in
          if ok : bool then step (pfd_out p) (handle_conn_write i (pfd_write p)) ;! cret tt else cret tt
      end
  end.
Fixpoint after_poll (pfd : list pollfd) : Ag unit :=
  match pfd with [] => cret tt | p :: pfd' => after_event p ;! after_poll pfd' end.

Definition INT_MAX : Z := 2147483647.
(** The descriptors, whether there is output for them, and the timeout; differences of times are unsigned. *)
Definition poll_deadline (s : agent) (now : Z) : Z :=
  let deadline := if s_txnopen (a_session s) then u64 (s_txntimeout (a_session s) - now) else 0 in
  let sooner (deadline interval : Z) : Z :=
    if interval =? 0 then deadline
    else if deadline =? 0 then interval * 1000 else Z.min deadline (interval * 1000) in
  sooner (sooner deadline (parent_alive_interval env)) (p_interval (a_pin s)).
Definition prepare_poll : Ag (list (Z * bool) * Z) :=
  let! s := cget in
  let pfd := (fun e => (e_fd e, 0 <? zlen (q_bytes (e_output e)))) <$> filter (fun e => unused e = false) (a_sockets s) in
  let! now := monotime in
  let deadline := poll_deadline s now in
  cret (pfd, if deadline =? 0 then -1 else if INT_MAX <? deadline then INT_MAX else deadline).

(** ** The main loop *)

Inductive poll_result := Events (pfd : list pollfd) | NoEvents | Interrupted | PollFailed.

(** A transaction whose time is over is closed. *)
Definition expire (now : Z) : Ag unit :=
  let! s := cget in
  if s_txnopen (a_session s) && (s_txntimeout (a_session s) <=? now) then agent_piv_close true else cret tt.

(** One turn; [poll] answers as [answer] says, given the descriptors and the timeout. [orphaned]: the parent has exited. *)
Definition agent_turn (answer : list (Z * bool) * Z -> poll_result) (orphaned : bool) : Ag unit :=
  let! p := prepare_poll in
  let result := answer p in
  (if negb (parent_alive_interval env =? 0) && orphaned then cpanic else cret tt) ;!
  let! now := monotime in
  let! s := cget in
  (if negb (p_interval (a_pin s) =? 0) && (p_interval (a_pin s) * 1000 <=? u64 (now - a_last_op s)) then probe_card else cret tt) ;!
  expire now ;!
  match result with
  | Events pfd => after_poll pfd
  | NoEvents | Interrupted => cret tt
  | PollFailed => cpanic
  end.

(** The state before the loop; the page for the PIN is zero, [sock] is the listening socket. *)
Definition agent_init (rs : list reader) (pgsz : Z) (cak : option certkey) (sock : Z) : agent :=
  Agent rs (Session None false 0 false 0 0 cak) (PinStore (zrepeat pgsz 0) 0 card_probe_interval_nopin) 0 0 0
    (Sock sock AUTH_SOCKET new_queue new_queue new_queue :: replicate 9 free_entry).
Definition agent_start : Ag unit :=
  let! opened := catch (agent_piv_open ;! cret true) (fun _ => cret false) in
  (if opened : bool then agent_piv_close true else cret tt) ;!
  let! now := monotime in cmodify (set_last_op now).
End Agent.
