(* ===== verification/AgentSafe.v ===== *)
(** * The agent: its invariant, its replies and its policies (pivy-agent.c)

    Proved of the definitions of Agent.v: the session and the token agree on the open transaction and the page for the PIN holds a PIN or
    zeros, at every turn of the main loop; a complete message gets one reply; only keys that may sign do, with the digest that was asked for;
    a lock forgets the PIN; the loop never waits without end. *)
From stdpp Require Import base list strings.
From Stdlib Require Import ZArith Lia.
From S2P Require Import Prelude Errf Sshbuf Algs Tlv PivBox EboxTpl PivToken Apdu ApduChain PivPin PivFiles PivParse PivCert.
From S2P Require Import Cipher PivKeys PivEnum Agent.

Local Open Scope string_scope.
Local Open Scope list_scope.
Local Open Scope Z_scope.
Local Open Scope c_scope.

(** ** What operations on a token keep *)

Section Keep.
Context {X : Certs} {R : Reader} {C : Crypto} {EV : Evp} {KO : KeyOps} {EO : EcOct} (fuel : nat).
Local Abbreviation fw := (fun w : world => pt_intxn (w_tok w)).
Local Abbreviation fq := (fun s : pstate => pt_intxn (snd s)).

#[local] Hint Resolve keeps_transmit keeps_buffer keeps_recv keeps_exchange keeps_send keeps_recvs keeps_chain keeps_onerr keeps_build
  keeps_attempt keeps_parse keeps_tl keeps_each keeps_template keeps_get keeps_reply : keeps.

Lemma keeps_upd f : (forall t, pt_intxn (f t) = pt_intxn t) -> keeps fw (upd_tok f).
Proof. intros H. apply keeps_modify. intros w. apply H. Qed.
Lemma keeps_pin_verify type pin retries canskip : keeps fw (piv_verify_pin fuel type pin retries canskip).
Proof. unfold piv_verify_pin, verify_try, pin_copy, in_txn. keeps_tac. Qed.
Lemma keeps_folds {A} n (body : Z -> A -> M errf_t pstate A) : (forall tag a, keeps fq (body tag a)) -> forall acc, keeps fq (fold_tags n body acc).
Proof. intros Hb. induction n as [|n IH]; intros acc; cbn [fold_tags]; keeps_tac. Qed.
Lemma keeps_template_fold {A} outer (body : Z -> A -> M errf_t pstate A) acc :
  (forall tag a, keeps fq (body tag a)) -> keeps fq (template_fold outer body acc).
Proof. intros Hb. unfold template_fold, members_fold. keeps_tac. now apply keeps_folds. Qed.
Lemma keeps_upd_slot slotid f : keeps fq (upd_slot slotid f).
Proof. apply keeps_modify. by intros [ts t]. Qed.
#[local] Hint Resolve keeps_upd_slot : keeps.
Lemma keeps_read_cert slotid : keeps fw (piv_read_cert fuel slotid).
Proof.
  unfold piv_read_cert, in_txn. keeps_tac. apply keeps_parse. keeps_tac.
  - apply keeps_template_fold. intros tag [? ?]. unfold cert_member. keeps_tac.
  - unfold store_cert, free_pubkey. keeps_tac.
Qed.
#[local] Hint Resolve keeps_read_cert : keeps.
Lemma keeps_unless stop m : keeps fw m -> keeps fw (unless stop m).
Proof. intros H. unfold unless. keeps_tac. Qed.
Lemma keeps_retired n : forall i, keeps fw (read_retired fuel n i).
Proof. induction n as [|n IH]; intros i; cbn [read_retired]; keeps_tac. apply keeps_unless. keeps_tac. Qed.
#[local] Hint Resolve keeps_unless keeps_retired : keeps.
Lemma keeps_all_certs : keeps fw (piv_read_all_certs fuel).
Proof. unfold piv_read_all_certs, in_txn. keeps_tac. Qed.
Lemma keeps_sign alg slotid h data : keeps fw (piv_sign fuel alg slotid h data).
Proof.
  unfold piv_sign, piv_sign_prehash, send, ga_reply, ga_response, sign_digest, rsa_pad, buf_store, in_txn. keeps_tac.
  all: try (apply keeps_parse; keeps_tac).
Qed.
#[local] Hint Resolve keeps_sign : keeps.
Lemma keeps_auth_key slot k chal : keeps fw (piv_auth_key fuel slot k chal).
Proof. unfold piv_auth_key, in_txn. keeps_tac. Qed.
Lemma keeps_ecdh alg slotid k : keeps fw (piv_ecdh fuel alg slotid k).
Proof. unfold piv_ecdh, send, ga_reply, ga_response, in_txn. keeps_tac. all: try (apply keeps_parse; keeps_tac). Qed.
Lemma keeps_attest slotid : keeps fw (ykpiv_attest fuel slotid).
Proof. unfold ykpiv_attest, in_txn. keeps_tac. Qed.
Lemma keeps_file tag : keeps fw (piv_read_file fuel tag).
Proof. unfold piv_read_file. keeps_tac. apply keeps_parse. keeps_tac. Qed.
End Keep.

(** ** Triples: what holds when an operation returns, with a value or with an error *)

Section Triple.
Context {S : Type}.

Definition triple {A} (pre : S -> Prop) (m : M stop S A) (post : A -> S -> Prop) (err : S -> Prop) : Prop :=
  forall s, pre s -> match m s with (Ok a, s') => post a s' | (Er (Err _), s') => err s' | _ => True end.

Lemma triple_bind {A B} pre (m : M stop S A) (f : A -> M stop S B) mid post err :
  triple pre m mid err -> (forall a, triple (mid a) (f a) post err) -> triple pre (cbind m f) post err.
Proof.
  intros Hm Hf s H. specialize (Hm s H). unfold cbind. destruct (m s) as [[a|[e|]| |] s']; try done. now apply Hf.
Qed.
Lemma triple_weaken {A} pre pre' (m : M stop S A) post post' (err err' : S -> Prop) :
  triple pre m post err -> (forall s, pre' s -> pre s) -> (forall a s, post a s -> post' a s) -> (forall s, err s -> err' s) ->
  triple pre' m post' err'.
Proof.
  intros H Hp Hq He s Hs. specialize (H s (Hp s Hs)). destruct (m s) as [[a|[e|]| |] s']; auto.
Qed.
Lemma triple_pre {A} pre pre' (m : M stop S A) post err : triple pre m post err -> (forall s, pre' s -> pre s) -> triple pre' m post err.
Proof. intros H Hp. eapply triple_weaken; eauto. Qed.
Lemma triple_post {A} pre (m : M stop S A) post post' err : triple pre m post err -> (forall a s, post a s -> post' a s) -> triple pre m post' err.
Proof. intros H Hp. eapply triple_weaken; eauto. Qed.
Lemma triple_ret {A} (a : A) (pre : S -> Prop) (post : A -> S -> Prop) err : (forall s, pre s -> post a s) -> triple pre (cret a) post err.
Proof. intros H s. apply H. Qed.
Lemma triple_modify g (pre : S -> Prop) (post : unit -> S -> Prop) err : (forall s, pre s -> post tt (g s)) -> triple pre (cmodify g) post err.
Proof. intros H s. apply H. Qed.
(** The state that is read satisfies the precondition. *)
Lemma triple_get {B} (f : S -> M stop S B) (pre : S -> Prop) post err :
  (forall s, pre s -> triple pre (f s) post err) -> triple pre (cbind cget f) post err.
Proof. intros H s Hs. now apply (H s Hs s). Qed.
Lemma triple_noerr {A} pre (m : M stop S A) post err : triple pre m post (fun _ => False) -> triple pre m post err.
Proof. intros H. eapply triple_weaken; eauto. done. Qed.
Lemma triple_pure {A} (φ : Prop) pre (m : M stop S A) post err : (φ -> triple pre m post err) -> triple (fun s => φ /\ pre s) m post err.
Proof. intros H s [Hφ Hs]. now apply H. Qed.
Lemma triple_verify b (pre : S -> Prop) err : triple pre (verify b) (fun _ => pre) err.
Proof. intros s Hs. now destruct b. Qed.
Lemma triple_guard b e (pre : S -> Prop) : triple pre (guard b (Err e)) (fun _ => pre) pre.
Proof. intros s Hs. now destruct b. Qed.
Lemma triple_panic {A} pre (post : A -> S -> Prop) err : triple pre cpanic post err.
Proof. done. Qed.
Lemma triple_fault {A} pre (post : A -> S -> Prop) err : triple pre cfault post err.
Proof. done. Qed.
End Triple.

Section Session.
Context {X : Certs} {R : Reader} {PS : Pcsc} {C : Crypto} {EV : Evp} {KO : KeyOps} {EO : EcOct} {SK : SameKey} {KB : KeyBlobs} {AK : AgentKeys}.
Context (fuel : nat) (env : surroundings).
Context (P : pin_store -> Prop).
Local Abbreviation Ag := (M stop agent).
Local Abbreviation fw := (fun w : world => pt_intxn (w_tok w)).

Lemma triple_catch {A} pre (m : Ag A) h post mid err :
  triple pre m post mid -> (forall e, triple mid (h e) post err) -> triple pre (catch m h) post err.
Proof.
  intros Hm Hh s H. specialize (Hm s H). unfold catch. destruct (m s) as [[a|[e|]| |] s']; try done. now apply Hh.
Qed.
Lemma triple_fail {A} e (post : A -> agent -> Prop) (err : agent -> Prop) : triple err (fail e) post err.
Proof. intros s H. exact H. Qed.

(** The token is in a transaction, or it is not; in a transaction [selk] points to it. *)
Definition token_in (b : bool) (ss : session) : Prop :=
  match s_ks ss with
  | None => b = false /\ s_selk ss = false
  | Some k => pt_intxn (tk_tok k) = b /\ (b = true -> s_selk ss = true)
  end.
(** [txnopen] is [a], and the token is in a transaction if [b]. *)
Definition inv (a b : bool) (s : agent) : Prop := s_txnopen (a_session s) = a /\ token_in b (a_session s) /\ P (a_pin s).
Definition synced (s : agent) : Prop := exists b, inv b b s.

(** What does not touch the session and the PIN keeps it all. *)
Definition core (s : agent) : session * pin_store := (a_session s, a_pin s).
Lemma triple_core {A} (m : Ag A) (pre : agent -> Prop) :
  keeps core m -> (forall s s', core s' = core s -> pre s -> pre s') -> triple pre m (fun _ => pre) pre.
Proof. intros K H s Hs. specialize (K s). destruct (m s) as [[a|[e|]| |] s']; cbn in *; try done; eapply H; eauto. Qed.
Lemma inv_core a b s s' : core s' = core s -> inv a b s -> inv a b s'.
Proof. intros [= E1 E2]. unfold inv. now rewrite E1, E2. Qed.
Lemma synced_core s s' : core s' = core s -> synced s -> synced s'.
Proof. intros E [b H]. exists b. eapply inv_core; eauto. Qed.

Lemma on_selk_inv {A} (m : M stop world A) a b (f : errf_t + A -> bool) :
  (forall w r w', pt_intxn (w_tok w) = b -> attempt m w = (Ok r, w') -> pt_intxn (w_tok w') = f r) ->
  triple (inv a b) (on_selk m) (fun r => inv a (f r)) (fun _ => False).
Proof.
  intros Hm s (Ha & Ht & Hp). unfold on_selk, cbind, cget, on_readers, call.
  destruct (s_ks (a_session s)) as [key|] eqn:Ek; [|done]. destruct (s_selk (a_session s)) eqn:Es; [|done].
  destruct (a_readers s !! tk_rdr key) as [rd|]; [|done]. unfold token_in in Ht. rewrite Ek in Ht. destruct Ht as [Ht _].
  pose proof (Hm (World (tk_tok key) (rd_card rd))) as H. unfold attempt in H |- *.
  destruct (m (World (tk_tok key) (rd_card rd))) as [[r|[e|]| |] w'] eqn:Em; try done; specialize (H _ w' Ht eq_refl);
    (split_and!; [exact Ha|cbn; auto|exact Hp]).
Qed.
Lemma on_selk_keeps {A} (m : M stop world A) a b : keeps fw m -> triple (inv a b) (on_selk m) (fun _ => inv a b) (fun _ => False).
Proof.
  intros K. apply (on_selk_inv m a b (fun _ => b)). intros w r w' Hw E. pose proof (keeps_attempt pt_intxn m K w) as H. cbn in H. rewrite E in H. now rewrite <- Hw.
Qed.
Lemma selk_do_keeps {A} (m : M stop world A) a b : keeps fw m -> triple (inv a b) (selk_do m) (fun _ => inv a b) (inv a b).
Proof.
  intros K. eapply triple_bind; [now apply triple_noerr, on_selk_keeps|]. intros [e|x]; [apply triple_fail|now apply triple_ret].
Qed.
Definition begun {A B} (r : A + B) : bool := match r with inl _ => false | inr _ => true end.
(** [piv_txn_begin] starts outside a transaction; its result says whether it is in one. *)
Lemma begin_attempt w r w' : attempt (piv_txn_begin fuel) w = (Ok r, w') -> pt_intxn (w_tok w) = false /\ pt_intxn (w_tok w') = begun r.
Proof.
  unfold attempt. intros E. assert (K : keeps (fun w : world => w_tok w) (begin_loop fuel)).
  { clear. induction fuel as [|n IH]; cbn [begin_loop]; keeps_tac; intros v; unfold begin_txn, reconnect;
      [destruct (SCardBeginTransaction _)|destruct (SCardReconnect _)]; done. }
  specialize (K w). destruct (piv_txn_begin fuel w) as [[[]|[e|]| |] w1] eqn:Eb; try done; injection E as <- <-; cbn [begun].
  - pose proof (begin_run _ _ _ Eb) as [H _]. split; [|done]. unfold piv_txn_begin, cbind, cget, verify in Eb. now destruct (pt_intxn (w_tok w)).
  - unfold piv_txn_begin, cbind, cget, verify in Eb. destruct (pt_intxn (w_tok w)) eqn:Hw; [done|]. cbn in Eb. split; [done|].
    destruct (begin_loop fuel w) as [[rv|[]| |] w2]; try done; cbn in K.
    + destruct (rv =? SCARD_S_SUCCESS); [done|]. injection Eb as <- <-. now rewrite K.
    + injection Eb as <- <-. now rewrite K.
Qed.
Lemma begin_inv a : triple (inv a false) (on_selk (piv_txn_begin fuel)) (fun r => inv a (begun r)) (fun _ => False).
Proof. apply on_selk_inv. intros w r w' _ E. now apply begin_attempt in E. Qed.
Lemma end_inv a : triple (inv a true) end_txn_selk (fun _ => inv a false) (fun _ => False).
Proof.
  unfold end_txn_selk. apply (triple_bind _ _ _ (fun _ => inv a false)); [|intros x; now apply triple_ret].
  apply (on_selk_inv piv_txn_end a true (fun _ => false)).
  intros w r w' Hw E. destruct (end_run w Hw) as [Er Et]. unfold attempt in E. rewrite Er in E. injection E as <- <-. now rewrite Et.
Qed.

(** Steps: reading the state, asking, and what keeps the core. *)
Lemma keeps_ask {A} (f : nat -> A) : keeps core (ask f).
Proof. by intros s. Qed.
Lemma keeps_token : keeps core selk_token.
Proof. intros s. unfold selk_token, cbind, cget. destruct (s_ks _); [|done]. now destruct (s_selk _). Qed.
Lemma keeps_has_cak : keeps core has_cak.
Proof. by intros s. Qed.
Lemma triple_same {A} (m : Ag A) a b : keeps core m -> triple (inv a b) m (fun _ => inv a b) (inv a b).
Proof. intros K. apply triple_core; [done|]. intros s s'. apply inv_core. Qed.
Lemma triple_ask {A} (f : nat -> A) (pre : agent -> Prop) err :
  (forall s s', core s' = core s -> pre s -> pre s') -> triple pre (ask f) (fun _ => pre) err.
Proof. intros H s Hs. eapply H; [|exact Hs]. done. Qed.
Lemma triple_token (pre : agent -> Prop) err : triple pre selk_token (fun _ => pre) err.
Proof. intros s Hs. unfold selk_token, cbind, cget. destruct (s_ks _); [|done]. now destruct (s_selk _). Qed.
Lemma triple_has_cak (pre : agent -> Prop) err : triple pre has_cak (fun _ => pre) err.
Proof. by intros s Hs. Qed.
Lemma upd_inv a b a' b' f err :
  (forall ss, s_txnopen ss = a -> token_in b ss -> s_txnopen (f ss) = a' /\ token_in b' (f ss)) ->
  triple (inv a b) (upd_session f) (fun _ => inv a' b') err.
Proof. intros H. apply triple_modify. intros s (Ha & Ht & Hp). destruct (H _ Ha Ht). split_and!; done. Qed.

Tactic Notation "tbind" uconstr(m) := eapply (triple_bind _ _ _ m); [|intros ?].
Tactic Notation "tbind" uconstr(m) "as" simple_intropattern(p) := eapply (triple_bind _ _ _ m); [|intros p].

Lemma close_forced err : triple (inv true true) (agent_piv_close env true) (fun _ => inv false false) err.
Proof.
  unfold agent_piv_close, monotime. tbind (fun _ : Z => inv true true); [apply triple_ask, inv_core|].
  apply triple_get. intros s Hs. tbind (fun _ : unit => inv true true); [apply triple_verify|].
  cbn [orb]. tbind (fun _ : unit => inv true false); [apply triple_noerr, end_inv|]. now apply upd_inv.
Qed.
Lemma close_inv err : triple (inv true true) (agent_piv_close env false) (fun _ => synced) err.
Proof.
  unfold agent_piv_close, monotime. tbind (fun _ : Z => inv true true); [apply triple_ask, inv_core|].
  apply triple_get. intros s Hs. tbind (fun _ : unit => inv true true); [apply triple_verify|].
  cbn [orb]. destruct (_ <=? _).
  - tbind (fun _ : unit => inv true false); [apply triple_noerr, end_inv|].
    eapply triple_post; [apply (upd_inv true false false false); done|]. intros ? s' H. now exists false.
  - apply triple_ret. intros s' H. now exists true.
Qed.

(** What is asked of [P]: it holds when the PIN is dropped and when another is stored. *)
Definition cleared (p : pin_store) : list Z := if p_len p =? 0 then p_mem p else zsplice (p_mem p) 0 (zrepeat (p_len p) 0).
Context (Hdrop : forall p, P p -> P (PinStore (cleared p) 0 card_probe_interval_nopin)).
Context (Hstore : forall p passwd, P p -> cstring_check passwd = None -> valid_pin (c_str passwd) = true -> zlen passwd + 1 <= zlen (cleared p) ->
  P (PinStore (zsplice (cleared p) 0 (passwd ++ [0])) (zlen passwd) card_probe_interval_pin)).

Lemma drop_inv a b err : triple (inv a b) drop_pin (fun _ => inv a b) err.
Proof. apply triple_modify. intros s (Ha & Ht & Hp). split_and!; try done. now apply Hdrop. Qed.

(** A step that keeps [pre], by one of the lemmas for it. *)
Tactic Notation "tkeep" constr(pre) uconstr(L) := eapply (triple_bind _ _ _ (fun _ => pre)); [first [apply L | apply triple_noerr, L]|intros ?].

Lemma auth_cak_inv a : triple (inv a true) (auth_cak fuel env) (fun _ => inv a true) (inv a true).
Proof.
  unfold auth_cak. tkeep (inv a true) triple_token. destruct (piv_get_slot _ _) as [slot|]; [|apply triple_fail].
  apply triple_get. intros s Hs. destruct (s_cak _) as [cak|]; [|done].
  tbind (fun _ : list Z => inv a true); [apply triple_ask, inv_core|].
  eapply triple_bind; [apply triple_noerr, on_selk_keeps, keeps_auth_key|]. intros [e|u]; [apply triple_fail|now apply triple_ret].
Qed.

(** An error ends the transaction. *)
Lemma or_end_inv {A} (m : Ag A) a : triple (inv a true) m (fun _ => inv a true) (inv a true) ->
  triple (inv a true) (or_end m) (fun _ => inv a true) (inv a false).
Proof.
  intros H. eapply triple_catch; [exact H|]. intros e. eapply triple_bind; [apply triple_noerr, end_inv|]. intros ?. apply triple_fail.
Qed.

Lemma call_end_closed key rs k rs' : call_ (X := X) (R := R) key piv_txn_end rs = (Ok k, rs') -> pt_intxn (tk_tok k) = false.
Proof.
  unfold call_. intros ([v k3] & rs7 & E & [= <- _])%cbind_inv. unfold call in E. destruct (rs !! tk_rdr key) as [rd|]; [|done].
  destruct (pt_intxn (tk_tok key)) eqn:Hi.
  - destruct (end_run (World (tk_tok key) (rd_card rd)) Hi) as [Er Et]. unfold attempt in E. rewrite Er in E. injection E as <- <- <-. cbn. now rewrite Et.
  - unfold attempt, piv_txn_end, in_txn, cbind, cget, verify in E. cbn in E. now rewrite Hi in E.
Qed.
Lemma found_closed listed g rs key rs' : piv_find fuel listed g rs = (Ok (Found key), rs') -> pt_intxn (tk_tok key) = false.
Proof.
  unfold piv_find. intros (u & rs1 & _ & H)%cbind_inv. apply cbind_inv in H as (rs2 & rs3 & _ & H).
  apply cbind_inv in H as (found & rs4 & _ & H). destruct found as [k|]; [|done].
  apply cbind_inv in H as ([r k1] & rs5 & _ & H). apply cbind_inv in H as (k2 & rs6 & E & H).
  apply call_end_closed in E.
  destruct r as [e|u']; [|now injection H as <- _]. apply cbind_inv in H as (? & ? & _ & H). done.
Qed.

Lemma on_readers_core {A} (m : M stop (list reader) A) : keeps core (on_readers m).
Proof. intros s. unfold on_readers. now destruct (m _). Qed.

(** The session without the token that was let go. *)
Lemma find_inv : triple (inv false false) (agent_piv_find fuel env) (fun _ => inv false true) (inv false false).
Proof.
  unfold agent_piv_find.
  tbind (fun _ : unit => inv false false).
  { apply upd_inv. intros ss Ha Ht. split; [done|]. unfold token_in in *. cbn. destruct (s_ks ss); naive_solver. }
  apply triple_get. intros s Hs. tbind (fun _ : unit => inv false false).
  { destruct (s_ks (a_session s)); [apply triple_same, on_readers_core|now apply triple_ret]. }
  tbind (fun _ : bool => inv false false); [apply triple_ask, inv_core|].
  tbind (fun (r : found_token) s => inv false false s /\ forall key, r = Found key -> pt_intxn (tk_tok key) = false) as [key|].
  { eapply (triple_catch _ _ _ _ (inv false false)).
    - intros s0 H0. unfold on_readers. destruct (piv_find fuel _ _ _) as [[r|[e|]| |] rs'] eqn:E; try done.
      split; [eapply inv_core; [|exact H0]; done|]. intros key ->. eapply found_closed, E.
    - intros e. tbind (fun _ : unit => inv false false); [apply upd_inv; intros ss Ha _; now split_and!|].
      intros s0 H0. exact H0. }
  2: { done. }
  tbind (fun _ : unit => inv false false).
  { apply triple_modify. intros s0 [(Ha & _ & Hp) Hk]. split_and!; try done. cbn. specialize (Hk key eq_refl). now split. }
  tbind (fun _ : unit => inv false true).
  { eapply triple_bind; [apply triple_noerr, begin_inv|]. intros [e|u]; [apply triple_fail|now apply triple_ret]. }
  tbind (fun _ : unit => inv false true); [apply or_end_inv, selk_do_keeps, keeps_select; done|].
  tbind (fun _ : unit => inv false true).
  { apply or_end_inv. eapply triple_catch; [apply selk_do_keeps, keeps_all_certs|]. intros e. cbn beta.
    destruct (_ || _); [now apply triple_ret|apply triple_fail]. }
  tbind (fun _ : bool => inv false true) as cak; [apply triple_has_cak|]. tbind (fun _ : unit => inv false true).
  { destruct cak; [|now apply triple_ret]. eapply triple_catch; [apply auth_cak_inv|]. intros e.
    tbind (fun _ : unit => inv false false); [apply triple_noerr, end_inv|]. tkeep (inv false false) drop_inv. apply triple_fail. }
  tbind (fun _ : Z => inv false true); [apply triple_ask, inv_core|]. now apply upd_inv.
Qed.

Lemma trust_inv err : triple (inv false true) trust_cak (fun _ => inv false true) err.
Proof.
  unfold trust_cak. tbind (fun _ : bool => inv false true) as cak; [apply triple_has_cak|].
  destruct cak; [now apply triple_ret|]. tkeep (inv false true) triple_token.
  destruct (piv_get_slot _ _) as [slot|]; [|now apply triple_ret]. destruct (ps_pubkey slot); [done| |done]. now apply upd_inv.
Qed.

Lemma triple_synced {A} (m : Ag A) post err : (forall b, triple (inv b b) m post err) -> triple synced m post err.
Proof. intros H s [b Hs]. now apply (H b). Qed.

(** [agent_piv_open] opens the transaction, or leaves none open. *)
Lemma open_inv : triple synced (agent_piv_open fuel env) (fun _ => inv true true) (inv false false).
Proof.
  apply triple_synced. intros b. unfold agent_piv_open. apply triple_get. intros s (-> & _ & _). destruct b.
  - tbind (fun _ : Z => inv true true); [apply triple_ask, inv_core|]. now apply upd_inv.
  - tbind (fun r : bool => inv false r) as begun.
    { destruct (s_selk _); [|now apply triple_ret]. eapply triple_bind; [apply triple_noerr, begin_inv|]. intros [e|u]; now apply triple_ret. }
    tbind (fun _ : unit => inv false true).
    { destruct begun; [apply or_end_inv, selk_do_keeps, keeps_select; done|apply find_inv]. }
    tbind (fun _ : unit => inv false true); [apply trust_inv|].
    tbind (fun _ : unit => inv true true); [now apply upd_inv|].
    tbind (fun _ : Z => inv true true); [apply triple_ask, inv_core|].
    tbind (fun _ : unit => inv true true); [now apply upd_inv|]. now apply triple_modify.
Qed.

Lemma forget_inv err : triple (inv false false) forget_selk (fun _ => inv false false) err.
Proof. apply upd_inv. intros ss Ha Ht. split; [done|]. unfold token_in in *. cbn. destruct (s_ks ss); naive_solver. Qed.
Lemma modify_core (f : agent -> agent) (pre : agent -> Prop) err :
  (forall s s', core s' = core s -> pre s -> pre s') -> (forall s, core (f s) = core s) -> triple pre (cmodify f) (fun _ => pre) err.
Proof. intros H Hf. apply triple_modify. intros s. apply H, Hf. Qed.

Lemma probe_inv err : triple synced (probe_card fuel env) (fun _ => synced) err.
Proof.
  unfold probe_card. apply triple_get. intros s _. destruct (_ <? _); [now apply triple_ret|].
  tbind (fun _ : Z => synced); [apply triple_ask, synced_core|]. tbind (fun _ : unit => synced); [apply modify_core; [apply synced_core|done]|].
  tbind (fun r : bool => inv r r) as opened.
  { eapply triple_catch; [eapply triple_bind; [apply open_inv|intros ?; now apply triple_ret]|]. intros e. apply triple_get. intros s' _.
    tbind (fun _ : unit => inv false false); [apply modify_core; [apply inv_core|done]|].
    tbind (fun _ : unit => inv false false); [destruct (_ <? _); [apply drop_inv|now apply triple_ret]|].
    tkeep (inv false false) forget_inv. now apply triple_ret. }
  destruct opened; [|apply triple_ret; intros s' H; now exists false].
  tbind (fun _ : bool => inv true true) as cak; [apply triple_has_cak|]. tbind (fun r : bool => inv r r) as genuine.
  { destruct cak; [|now apply triple_ret]. eapply triple_catch; [eapply triple_bind; [apply auth_cak_inv|intros ?; now apply triple_ret]|]. intros e.
    tbind (fun _ : unit => inv false false); [apply close_forced|]. tkeep (inv false false) drop_inv. tkeep (inv false false) forget_inv.
    tbind (fun _ : unit => inv false false); [apply modify_core; [apply inv_core|done]|]. now apply triple_ret. }
  destruct genuine; [|apply triple_ret; intros s' H; now exists false].
  tbind (fun _ : unit => synced); [apply close_inv|]. apply modify_core; [apply synced_core|done].
Qed.

Lemma wrap_inv err' retries a b : triple (inv a b) (wrap_pin_error err' retries) (fun _ => inv a b) (inv a b).
Proof.
  unfold wrap_pin_error. destruct err' as [e|]; [|now apply triple_ret]. repeat case_match; try apply triple_fail.
  all: tkeep (inv a b) drop_inv; apply triple_fail.
Qed.
Lemma verify_selk_inv pin canskip a b err : triple (inv a b) (verify_selk fuel pin canskip) (fun _ => inv a b) err.
Proof.
  unfold verify_selk. tkeep (inv a b) triple_token. eapply triple_bind; [apply triple_noerr, on_selk_keeps, keeps_pin_verify|].
  intros [e|[e r]]; now apply triple_ret.
Qed.
Lemma try_pin_inv canskip a b : triple (inv a b) (agent_piv_try_pin fuel canskip) (fun _ => inv a b) (inv a b).
Proof.
  unfold agent_piv_try_pin. apply triple_get. intros s _. destruct (_ =? _); [now apply triple_ret|].
  tbind (fun _ : option errf_t * Z => inv a b) as [e r]; [apply verify_selk_inv|]. apply wrap_inv.
Qed.

(** ** Handlers: they start and end in step with the card *)

Lemma keeps_entry {A} e get set (m : M Z queue A) : keeps core (on_entry e get set m).
Proof. intros s. unfold on_entry. destruct (_ !! _); [|done]. now destruct (m _) as [[] ?]. Qed.
Lemma keeps_find_slot key slots : keeps core (find_slot key slots).
Proof. induction slots as [|slot slots IH]; cbn [find_slot]; keeps_tac. Qed.
#[local] Hint Resolve keeps_entry keeps_ask keeps_token keeps_has_cak on_readers_core keeps_find_slot : keeps.
Lemma keeps_output {A} e (m : M Z queue A) : keeps core (output e m).
Proof. unfold output, or_fatal. keeps_tac. Qed.
Lemma keeps_request {A} e (m : M Z queue A) : keeps core (request e m).
Proof. unfold request, or_parserrf, fail. keeps_tac. Qed.
Lemma keeps_reply_ e m : keeps core (reply e m).
Proof. unfold reply, new_msg, output, or_fatal. keeps_tac. Qed.
Lemma keeps_parse_ {A} buf (m : M Z queue A) : keeps core (parse buf m).
Proof. unfold parse, fail. keeps_tac. Qed.
Lemma keeps_on_box {A} (m : M errf_t piv_ecdh_box A) b : keeps core (on_box m b).
Proof. unfold on_box, fail. keeps_tac. Qed.
#[local] Hint Resolve keeps_output keeps_request keeps_reply_ keeps_parse_ keeps_on_box : keeps.

Lemma synced_keep {A} (m : Ag A) : keeps core m -> triple synced m (fun _ => synced) synced.
Proof. intros K. apply triple_core; [done|apply synced_core]. Qed.
Lemma is_synced b s : inv b b s -> synced s.
Proof. now exists b. Qed.
#[local] Hint Resolve is_synced : core.
Lemma open_synced : triple synced (agent_piv_open fuel env) (fun _ => inv true true) synced.
Proof. eapply triple_weaken; [apply open_inv|..]; eauto. Qed.
Lemma close_synced err : triple (inv true true) (agent_piv_close env true) (fun _ => synced) err.
Proof. eapply triple_post; [apply close_forced|]. intros ? s. apply is_synced. Qed.
(** [if ((err = m)) { agent_piv_close(B_TRUE); goto out; }] *)
Lemma or_close_inv {A} (m : Ag A) : triple (inv true true) m (fun _ => inv true true) (inv true true) ->
  triple (inv true true) (catch m (fun e => agent_piv_close env true ;! fail e)) (fun _ => inv true true) synced.
Proof.
  intros H. eapply triple_catch; [exact H|]. intros e. tkeep synced close_synced. apply triple_fail.
Qed.
Lemma selk_slot_inv key : triple (inv true true) (selk_slot env key) (fun _ => inv true true) synced.
Proof.
  unfold selk_slot. tkeep (inv true true) triple_token. tbind (fun _ : option piv_slot => inv true true) as [slot|].
  - eapply triple_weaken; [apply triple_same, keeps_find_slot|..]; eauto.
  - now apply triple_ret.
  - tkeep synced close_inv. apply triple_fail.
Qed.

Lemma pin_round_inv {A} canskip (again : Ag A) (op : M stop world A) : keeps fw op ->
  triple (inv true true) again (fun _ => synced) synced -> triple (inv true true) (pin_round fuel env canskip again op) (fun _ => synced) synced.
Proof.
  intros K H. unfold pin_round. tbind (fun _ : unit => inv true true); [apply or_close_inv, try_pin_inv|].
  tbind (fun _ : errf_t + A => inv true true) as [e|x]; [apply triple_noerr, on_selk_keeps, K| |].
  - apply triple_get. intros s _. tkeep (inv true true) triple_token. destruct (_ && canskip); [exact H|].
    tkeep synced close_synced. apply triple_fail.
  - tkeep synced close_inv. now apply triple_ret.
Qed.
Lemma pin_rounds_inv {A} slot (op : M stop world A) : keeps fw op ->
  triple (inv true true) (pin_rounds fuel env slot op) (fun _ => synced) synced.
Proof. intros K. unfold pin_rounds. destruct (_ =? _); repeat apply pin_round_inv; done. Qed.

Lemma refresh_inv : triple (inv true true) (refresh fuel env) (fun _ => inv true true) synced.
Proof.
  unfold refresh. tbind (fun _ : Z => inv true true); [apply triple_ask, inv_core|]. apply triple_get. intros s _.
  destruct (_ <=? _); [|now apply triple_ret]. tbind (fun _ : unit => inv true true); [now apply upd_inv|].
  tbind (fun _ : errf_t + unit => inv true true); [apply triple_noerr, on_selk_keeps, keeps_all_certs|].
  tbind (fun _ : bool => inv true true) as cak; [apply triple_has_cak|]. destruct cak; [|now apply triple_ret].
  tbind (fun _ : unit => inv true true); [|now apply triple_ret]. eapply triple_catch; [apply auth_cak_inv|]. intros e.
  tbind (fun _ : unit => inv false false); [apply close_forced|]. tkeep (inv false false) drop_inv.
  intros s' H'. exact (is_synced false s' H').
Qed.

Lemma identities_inv e : triple synced (process_request_identities fuel env e) (fun _ => synced) synced.
Proof.
  unfold process_request_identities. tbind (fun _ : unit => inv true true); [apply open_synced|].
  tbind (fun _ : bool => inv true true) as d; [apply refresh_inv|]. tkeep synced close_inv. tkeep synced triple_token.
  tbind (fun _ : unit => synced); [apply synced_keep; auto with keeps|]. destruct d; [done|now apply triple_ret].
Qed.
Lemma sign_inv e : triple synced (process_sign_request2 fuel env e) (fun _ => synced) synced.
Proof.
  unfold process_sign_request2. do 3 (tbind (fun _ => synced); [apply synced_keep; auto with keeps|]).
  tbind (fun _ : unit => inv true true); [apply open_synced|]. tbind (fun _ : piv_slot => inv true true) as slot; [apply selk_slot_inv|].
  tbind (fun _ : unit => inv true true); [eapply triple_weaken; [apply triple_guard|..]; eauto|].
  tbind (fun _ => synced) as [h raw].
  { apply pin_rounds_inv. destruct (sign_hash _ _); [apply keeps_sign|done]. }
  tkeep synced triple_guard. destruct (ps_pubkey slot); try done. destruct (sshkey_sig_from_asn1 _ _ _); [done|]. apply synced_keep; auto with keeps.
Qed.
Lemma ecdh_inv e buf : triple synced (process_ext_ecdh fuel env e buf) (fun _ => synced) synced.
Proof.
  unfold process_ext_ecdh. do 3 (tbind (fun _ => synced) as [? ?]; [apply synced_keep; auto with keeps|]).
  tkeep synced triple_guard.
  tbind (fun _ : unit => inv true true); [apply open_synced|]. tbind (fun _ : piv_slot => inv true true) as slot; [apply selk_slot_inv|].
  tbind (fun _ : unit => inv true true). { destruct (_ && _); [now apply triple_ret|]. tkeep synced close_inv. apply triple_fail. }
  tbind (fun _ => synced); [apply pin_rounds_inv, keeps_ecdh|]. apply synced_keep; auto with keeps.
Qed.
Lemma attest_inv e buf : triple synced (process_ext_attest fuel env e buf) (fun _ => synced) synced.
Proof.
  unfold process_ext_attest. do 2 (tbind (fun _ => synced) as [? ?]; [apply synced_keep; auto with keeps|]).
  tkeep synced triple_guard. cbv zeta.
  tbind (fun _ : unit => inv true true); [apply open_synced|]. tbind (fun _ : piv_slot => inv true true) as slot; [apply selk_slot_inv|].
  tbind (fun _ => inv true true); [apply or_close_inv, selk_do_keeps, keeps_attest|].
  tbind (fun _ => inv true true); [apply or_close_inv, selk_do_keeps, keeps_file|]. tkeep synced close_inv.
  tbind (fun _ => synced); [|apply synced_keep; auto with keeps]. apply synced_keep. unfold attest_chain, fail. keeps_tac.
Qed.

(** *** Boxes *)

Lemma call_txn {A} key (m : M stop world A) rs r key' rs' (f : bool -> errf_t + A -> bool) :
  (forall w v w', attempt m w = (Ok v, w') -> pt_intxn (w_tok w') = f (pt_intxn (w_tok w)) v) ->
  call key m rs = (Ok (r, key'), rs') -> pt_intxn (tk_tok key') = f (pt_intxn (tk_tok key)) r.
Proof.
  intros Hm. unfold call. destruct (rs !! tk_rdr key) as [rd|]; [|done]. specialize (Hm (World (tk_tok key) (rd_card rd))).
  destruct (attempt m _) as [[v|[]| |] w]; try done. intros [= <- <- <-]. now apply (Hm v w).
Qed.
Lemma call_keeps {A} key (m : M stop world A) rs r key' rs' :
  keeps fw m -> call key m rs = (Ok (r, key'), rs') -> pt_intxn (tk_tok key') = pt_intxn (tk_tok key).
Proof.
  intros K. apply (call_txn key m rs r key' rs' (fun b _ => b)). intros w v w' E.
  pose proof (keeps_attempt pt_intxn m K w) as H. cbn in H. now rewrite E in H.
Qed.
Lemma load_slot_txn key slotid rs r key' rs' :
  load_slot fuel key slotid rs = (Ok (r, key'), rs') -> pt_intxn (tk_tok key') = pt_intxn (tk_tok key).
Proof.
  unfold load_slot. destruct (piv_get_slot _ _); [now intros [= _ <- _]|]. intros ([v k1] & rs1 & E1 & H)%cbind_inv.
  assert (pt_intxn (tk_tok key) = false /\ pt_intxn (tk_tok k1) = begun v) as [Hk H1].
  { unfold call in E1. destruct (rs !! tk_rdr key) as [rd|]; [|done]. destruct (attempt _ _) as [[u|[]| |] w] eqn:Ea; try done.
    injection E1 as <- <- <-. now apply begin_attempt in Ea. }
  rewrite Hk. destruct v as [e|u]; [now injection H as _ <- _|].
  apply cbind_inv in H as ([v k2] & rs2 & E2 & H). apply cbind_inv in H as (k3 & rs3 & E3 & H). apply call_end_closed in E3.
  destruct v; [now injection H as _ <- _|]. destruct (piv_get_slot _ _); [now injection H as _ <- _|done].
Qed.
Lemma box_token_txn key box rs tks r rs' :
  piv_box_find_token fuel [key] box rs = (Ok (tks, r), rs') -> exists key', tks = [key'] /\ pt_intxn (tk_tok key') = pt_intxn (tk_tok key).
Proof.
  unfold piv_box_find_token. destruct (guid_index _ _) as [[i k]|] eqn:Eg.
  - apply list_find_Some in Eg as (Ei & _ & _). destruct i as [|[]]; [|done..]. injection Ei as <-.
    intros ([v k1] & rs1 & E1 & H)%cbind_inv. apply load_slot_txn in E1. destruct v; [injection H as <- _ _; eauto|].
    apply cbind_inv in H as (b & rs2 & _ & [= <- _ _]). eauto.
  - cbn [find_by_key]. intros ([v k1] & rs1 & E1 & H)%cbind_inv. apply load_slot_txn in E1. destruct v; [injection H as <- _ _; eauto|].
    apply cbind_inv in H as (b & rs2 & _ & H). destruct b; injection H as <- _ _; eauto.
Qed.
Lemma find_token_inv box : triple synced (selk_find_token fuel box) (fun _ => synced) synced.
Proof.
  apply triple_synced. intros b s (Ha & Ht & Hp). unfold selk_find_token, cbind, cget.
  assert (I0 : forall rs', synced (set_readers rs' s)) by (now exists b).
  destruct (s_ks (a_session s)) as [key|] eqn:Ek; [destruct (s_selk (a_session s)) eqn:Es|].
  - unfold on_readers at 1. destruct (piv_box_find_token fuel [key] box (a_readers s)) as [[[tks r]|[]| |] rs'] eqn:E; try done.
    apply box_token_txn in E as (key' & -> & Hk). unfold token_in in Ht. rewrite Ek in Ht. destruct Ht as [Ht _]. cbn.
    assert (I : synced (set_session (with_token (Some key') true (s_age (a_session s)) (a_session s)) (set_readers rs' s))).
    { exists b. split_and!; [done| |done]. cbn. split; [congruence|done]. }
    destruct r as [e|[i slot]]; exact I.
  - unfold on_readers. destruct (piv_box_find_token fuel [] box (a_readers s)) as [[[tks r]|[]| |] rs'] eqn:E; try done.
    destruct r as [e|[i slot]]; apply I0.
  - unfold on_readers. destruct (piv_box_find_token fuel [] box (a_readers s)) as [[[tks r]|[]| |] rs'] eqn:E; try done.
    destruct r as [e|[i slot]]; apply I0.
Qed.

Lemma keeps_box_open slot box : keeps fw (fun w => let '(r, (b, w')) := piv_box_open_token fuel (ps_alg slot) (ps_slot slot) (box, w) in
    (match r with Ok _ => Ok b | Er x => Er x | Panic => Panic | Fault => Fault end, w')).
Proof.
  assert (K : keeps (fun s : piv_ecdh_box * world => fw (snd s)) (piv_box_open_token fuel (ps_alg slot) (ps_slot slot))).
  { assert (Kb : forall A (m : M errf_t piv_ecdh_box A), keeps (fun s : piv_ecdh_box * world => fw (snd s)) (of_box m)).
    { intros A m s. unfold of_box. now destruct (cmaperr Err m (fst s)). }
    unfold piv_box_open_token. keeps_tac; try apply Kb. intros s'. unfold of_world.
    match goal with |- context [piv_ecdh _ _ _ ?k] =>
      pose proof (keeps_onerr pt_intxn (fun e => errf "BoxKeyError" (Some e)) _ (keeps_ecdh fuel (ps_alg slot) (ps_slot slot) k) (snd s')) as H end. cbn in H.
    now destruct (onerr _ _ _). }
  intros w. specialize (K (box, w)). now destruct (piv_box_open_token _ _ _ (box, w)) as [[] [b w']].
Qed.
Lemma rebox_inv e buf : triple synced (process_ext_rebox fuel env e buf) (fun _ => synced) synced.
Proof.
  unfold process_ext_rebox. do 2 (tbind (fun _ => synced) as [? ?]; [apply synced_keep; auto with keeps|]). cbv zeta.
  do 3 (tbind (fun _ => synced) as [? ?]; [apply synced_keep; auto with keeps|]). tkeep synced triple_guard.
  tbind (fun _ : piv_ecdh_box => synced) as box; [apply synced_keep; unfold fail; keeps_tac|].
  tbind (fun _ : piv_slot => synced) as slot; [apply find_token_inv|]. apply triple_get. intros st _.
  tbind (fun _ : unit => inv true true); [apply open_synced|]. apply triple_get. intros st' _.
  tbind (fun _ : unit => inv true true); [apply or_close_inv, try_pin_inv|].
  tbind (fun _ : unit => inv true true); [destruct (Nat.eqb _ _); [now apply triple_ret|done]|].
  tbind (fun _ : piv_ecdh_box => inv true true) as box'; [apply or_close_inv, selk_do_keeps, keeps_box_open|].
  tbind (fun _ => inv true true) as [secret b1]; [eapply triple_catch; [apply triple_same; auto with keeps|done]|].
  tkeep synced close_inv. tbind (fun _ : unit => synced); [destruct (_ && _); [done|now apply triple_ret]|].
  tbind (fun _ => synced) as [? newbox]; [apply synced_keep; auto with keeps|]. tbind (fun _ : nat => synced); [apply triple_ask, synced_core|].
  tbind (fun _ => synced) as [? sealed]; [apply synced_keep; auto with keeps|].
  destruct (piv_box_to_binary sealed); try done. apply synced_keep; auto with keeps.
Qed.

Lemma extension_inv e : triple synced (process_extension fuel env e) (fun _ => synced) synced.
Proof.
  unfold process_extension. do 2 (tbind (fun _ => synced); [apply synced_keep; auto with keeps|]).
  destruct (exthandler _ _ _) as [h|] eqn:Eh; [|apply triple_fail]. eapply triple_catch; [|intros ?; apply synced_keep; unfold send_extfail; auto with keeps].
  unfold exthandler in Eh. repeat case_match; simplify_eq; [|apply ecdh_inv|apply rebox_inv|apply triple_fail|apply attest_inv].
  apply synced_keep. unfold process_ext_query. auto with keeps.
Qed.

(** *** Locking *)

Lemma triple_entry {A} e get set (m : M Z queue A) (pre : agent -> Prop) err : (forall s s', core s' = core s -> pre s -> pre s') ->
  triple pre (or_fatal (on_entry e get set m)) (fun a s => pre s /\ exists q q', m q = (Ok a, q')) err.
Proof.
  intros H s Hs. unfold or_fatal, cbind, on_entry. destruct (a_sockets s !! e) as [ent|]; [|done].
  destruct (m (get ent)) as [[a|rc| |] q] eqn:E; try done. split; [eapply H; [|exact Hs]; done|eauto].
Qed.
Lemma output_noerr {A} e (m : M Z queue A) (pre : agent -> Prop) err : (forall s s', core s' = core s -> pre s -> pre s') ->
  triple pre (output e m) (fun _ => pre) err.
Proof. intros H. eapply triple_post; [now apply triple_entry|]. now intros a s [? _]. Qed.
Lemma get_cstring_checked q p q' : get_cstring q = (Ok p, q') -> cstring_check p = None.
Proof.
  unfold get_cstring, q_read_string. intros (s & q1 & _ & H)%cbind_inv. apply cbind_inv in H as (u & q2 & E & H).
  apply cbind_inv in H as (u' & q3 & _ & [= <- _]). now destruct (cstring_check s).
Qed.

(** The PIN is in memory, and the interval is about to be set. *)
Definition stored (s : agent) : Prop :=
  exists b, s_txnopen (a_session s) = b /\ token_in b (a_session s) /\ P (PinStore (p_mem (a_pin s)) (p_len (a_pin s)) card_probe_interval_pin).
Lemma store_inv passwd err : cstring_check passwd = None -> valid_pin (c_str passwd) = true ->
  triple synced (store_pin passwd) (fun _ => stored) err.
Proof.
  intros Hc Hv. apply triple_synced. intros b s (Ha & Ht & Hp). unfold store_pin, cbind, cget. fold (cleared (a_pin s)).
  destruct (Z.ltb_spec (zlen (cleared (a_pin s))) (zlen passwd + 1)); [done|]. exists b. split_and!; [done|done|]. now apply Hstore.
Qed.

Lemma lock_inv e lock : triple synced (process_lock_agent fuel env e lock) (fun _ => synced) synced.
Proof.
  unfold process_lock_agent. eapply triple_bind; [apply triple_entry, synced_core|]. intros passwd. cbn beta.
  apply (triple_pre (fun s => cstring_check passwd = None /\ synced s)); [|intros s (Hs & q & q' & E); split; [eapply get_cstring_checked, E|done]].
  apply triple_pure. intros Hc. destruct lock.
  - tbind (fun _ : unit => synced); [|apply synced_keep; unfold send_status; auto with keeps].
    apply triple_synced. intros b. eapply triple_post; [apply drop_inv|]. intros ? s. apply is_synced.
  - tbind (fun _ s => valid_pin (c_str passwd) = true /\ synced s); [intros s Hs; now destruct (valid_pin _)|]. apply triple_pure. intros Hv.
    tbind (fun _ : unit => inv true true); [apply open_synced|].
    tbind (fun _ : option errf_t * Z => inv true true) as [[err|] retries]; [apply verify_selk_inv| |].
    + tbind (fun _ : unit => inv false false); [apply close_forced|].
      eapply triple_weaken; [apply wrap_inv|..]; [intros s H; exact H|intros ? s; apply is_synced|intros s; apply is_synced].
    + tkeep synced close_inv. tbind (fun _ : unit => stored); [now apply store_inv|].
      tbind (fun _ : unit => stored).
      { apply output_noerr. intros s s' [= E1 E2] (b & H). exists b. now rewrite E1, E2. }
      apply triple_modify. intros s (b & Ha & Ht & Hp). now exists b.
Qed.

(** *** Messages, connections and the loop *)

Lemma dispatch_inv e type : triple synced (dispatch fuel env e type) (fun _ => synced) synced.
Proof.
  unfold dispatch. repeat case_match; [apply lock_inv|apply sign_inv|apply identities_inv| |apply extension_inv|apply triple_fail].
  tbind (fun _ : unit => synced); [|apply synced_keep; unfold send_status; auto with keeps].
  apply triple_synced. intros b. eapply triple_post; [apply drop_inv|]. intros ? s. apply is_synced.
Qed.
Lemma entry_inv {A} e get set (m : M Z queue A) err : triple synced (on_entry e get set m) (fun _ => synced) err.
Proof.
  intros s Hs. unfold on_entry. destruct (a_sockets s !! e) as [ent|]; [|done].
  destruct (m (get ent)) as [[a|rc| |] q]; try done; (eapply synced_core; [|exact Hs]; done).
Qed.
Lemma fatal_inv {A} e get set (m : M Z queue A) err : triple synced (or_fatal (on_entry e get set m)) (fun _ => synced) err.
Proof. unfold or_fatal. tkeep synced entry_inv. case_match; [done|now apply triple_ret]. Qed.
Lemma message_inv e err : triple synced (process_message fuel env e) (fun _ => synced) err.
Proof.
  unfold process_message. apply triple_get. intros s _. destruct (_ !! _) as [ent|]; [|done]. cbv zeta.
  do 3 (destruct (_ <? _); [now apply triple_ret|]). tkeep synced fatal_inv.
  tkeep synced entry_inv. tbind (fun _ : Z + Z => synced) as r.
  { case_match; [now apply triple_ret|apply entry_inv]. }
  destruct r as [rc|type]; [case_match; [now apply triple_ret|done]|].
  tbind (fun _ : Z => synced); [apply triple_ask, synced_core|]. tbind (fun _ : unit => synced); [apply modify_core; [apply synced_core|done]|].
  tbind (fun _ : unit => synced); [|now apply triple_ret]. eapply triple_catch; [apply dispatch_inv|]. intros e0.
  tkeep synced fatal_inv. apply output_noerr, synced_core.
Qed.

Lemma new_socket_inv type fd err : triple synced (new_socket type fd) (fun _ => synced) err.
Proof. intros s Hs. unfold new_socket, cbind, cget. destruct (list_find _ _) as [[i ?]|]; (eapply synced_core; [|exact Hs]; done). Qed.
Lemma event_inv p err : triple synced (after_event fuel env p) (fun _ => synced) err.
Proof.
  unfold after_event. apply triple_get. intros s _. destruct (list_find _ _) as [[i ent]|]; [|now apply triple_ret]. cbv zeta.
  assert (Hstep : forall (w : bool) (m : Ag bool), triple synced m (fun _ => synced) err ->
    triple synced (if w then let! ok := m in (if ok : bool then cret true else close_socket i ;! cret false) else cret true) (fun _ => synced) err).
  { intros w m Hm. destruct w; [|now apply triple_ret]. tbind (fun _ : bool => synced) as ok; [exact Hm|]. destruct ok; [now apply triple_ret|].
    tbind (fun _ : unit => synced); [apply modify_core; [apply synced_core|done]|now apply triple_ret]. }
  assert (Hr : triple synced (handle_conn_read fuel env i (pfd_read p)) (fun _ => synced) err).
  { unfold handle_conn_read. destruct (pfd_read p); try now apply triple_ret. tkeep synced fatal_inv. tkeep synced message_inv. now apply triple_ret. }
  assert (Hw : triple synced (handle_conn_write i (pfd_write p)) (fun _ => synced) err).
  { unfold handle_conn_write. apply triple_get. intros s' _. destruct (_ !! _); [|done]. destruct (_ =? _); [now apply triple_ret|].
    destruct (pfd_write p); try now apply triple_ret. tkeep synced fatal_inv. now apply triple_ret. }
  assert (Ha : triple synced (handle_socket_read env (pfd_accept p)) (fun _ => synced) err).
  { unfold handle_socket_read. destruct (pfd_accept p); [|now apply triple_ret]. destruct (_ && _); [now apply triple_ret|].
    tkeep synced new_socket_inv. now apply triple_ret. }
  destruct (e_type ent); [|tbind (fun _ : bool => synced); [now apply Hstep|now apply triple_ret]|].
  all: tbind (fun _ : bool => synced) as ok; [now apply Hstep|]; destruct ok; [|now apply triple_ret];
    (tbind (fun _ : bool => synced); [now apply Hstep|now apply triple_ret]).
Qed.
Lemma poll_inv pfd err : triple synced (after_poll fuel env pfd) (fun _ => synced) err.
Proof. induction pfd as [|p pfd IH]; cbn [after_poll]; [now apply triple_ret|]. tkeep synced event_inv. exact IH. Qed.

Lemma expire_inv now err : triple synced (expire env now) (fun _ => synced) err.
Proof.
  apply triple_synced. intros b. unfold expire. apply triple_get. intros s (-> & _ & _). destruct b; cbn [andb].
  - destruct (_ <=? _); [apply close_synced|apply triple_ret; intros s'; apply is_synced].
  - apply triple_ret. intros s'. apply is_synced.
Qed.

Lemma turn_inv answer orphaned err : triple synced (agent_turn fuel env answer orphaned) (fun _ => synced) err.
Proof.
  unfold agent_turn. tbind (fun _ => synced).
  { unfold prepare_poll. apply triple_get. intros s _. tbind (fun _ : Z => synced); [apply triple_ask, synced_core|now apply triple_ret]. }
  cbv zeta. tbind (fun _ : unit => synced); [destruct (_ && _); [done|now apply triple_ret]|].
  tbind (fun _ : Z => synced) as now; [apply triple_ask, synced_core|]. apply triple_get. intros s _.
  tbind (fun _ : unit => synced); [destruct (_ && _); [apply probe_inv|now apply triple_ret]|].
  tkeep synced expire_inv. destruct (answer _); [apply poll_inv|now apply triple_ret..|done].
Qed.
Lemma start_inv err : triple synced (agent_start fuel env) (fun _ => synced) err.
Proof.
  unfold agent_start. tbind (fun r : bool => inv r r) as opened.
  { eapply triple_catch; [eapply triple_bind; [apply open_inv|intros ?; now apply triple_ret]|]. intros e. now apply triple_ret. }
  tbind (fun _ : unit => synced).
  { destruct opened; [apply close_synced|apply triple_ret; intros s; apply is_synced]. }
  tbind (fun _ : Z => synced); [apply triple_ask, synced_core|]. apply modify_core; [apply synced_core|done].
Qed.
End Session.

(** ** The page for the PIN *)

(** Zeros, or a valid PIN and zeros after it; the card is asked more often for its key while there is a PIN. A PIN
    that is sent with a NUL at its end is counted with it. *)
Definition pin_ok (pgsz : Z) (p : pin_store) : Prop :=
  zlen (p_mem p) = pgsz /\
  (p_len p = 0 /\ p_interval p = card_probe_interval_nopin /\ p_mem p = zrepeat pgsz 0 \/
   exists pin, valid_pin pin = true /\ p_mem p = pin ++ zrepeat (pgsz - zlen pin) 0 /\
     zlen pin <= p_len p <= zlen pin + 1 /\ p_interval p = card_probe_interval_pin).

Lemma zrepeat_app {A} (x : A) a b : 0 <= a -> 0 <= b -> zrepeat a x ++ zrepeat b x = zrepeat (a + b) x.
Proof. intros Ha Hb. unfold zrepeat. rewrite <- replicate_add. f_equal. lia. Qed.
Lemma drop_zrepeat {A} (x : A) n k : drop k (zrepeat n x) = zrepeat (n - Z.of_nat k) x.
Proof. unfold zrepeat. rewrite drop_replicate. f_equal. lia. Qed.
Lemma zsplice_front {A} (l bs : list A) : zsplice l 0 bs = bs ++ drop (length bs) l.
Proof. done. Qed.
Lemma valid_pin_len pin : valid_pin pin = true -> 6 <= zlen pin <= 8.
Proof. unfold valid_pin. rewrite !andb_true_iff, !Z.leb_le. lia. Qed.
Lemma length_zrepeat {A} (x : A) n : length (zrepeat n x) = Z.to_nat n.
Proof. apply length_replicate. Qed.

Lemma cleared_zero pgsz p : 16 <= pgsz -> pin_ok pgsz p -> cleared p = zrepeat pgsz 0.
Proof.
  intros Hg [Hl [(E & _ & Em)|(pin & Hv & Em & Hn & _)]]; unfold cleared; [now rewrite E|].
  pose proof (valid_pin_len pin Hv). replace (p_len p =? 0) with false by lia.
  rewrite zsplice_front, length_zrepeat, Em, drop_app, drop_zrepeat, (drop_ge pin) by (unfold zlen in *; lia). rewrite app_nil_l.
  rewrite zrepeat_app by (unfold zlen in *; lia). f_equal. unfold zlen in *. lia.
Qed.
Lemma pin_ok_drop pgsz p : 16 <= pgsz -> pin_ok pgsz p -> pin_ok pgsz (PinStore (cleared p) 0 card_probe_interval_nopin).
Proof.
  intros Hg H. rewrite (cleared_zero pgsz) by done. split; [cbn; now rewrite zlen_zrepeat by lia|]. now left.
Qed.

(** A string that passes is its C string, and perhaps a NUL. *)
Lemma checked_cstr s : cstring_check s = None -> s = c_str s \/ s = c_str s ++ [0].
Proof.
  unfold cstring_check, inner_nul, c_str. intros H. destruct (memchr0 s) as [z|] eqn:E; [|now left].
  assert (z = zlen s - 1 /\ s !! Z.to_nat z = Some 0) as [Hz H0].
  { pose proof (memchr0_bound _ _ E) as Hb. split; [destruct (Z.ltb_spec z (zlen s - 1)), (Z.ltb_spec 0 (zlen s)); cbn in H; done || lia|].
    clear H. revert z E Hb. induction s as [|c s IH]; intros z E Hb; [done|]. cbn in E. destruct (Z.eqb_spec c 0) as [->|]; [now injection E as <-|].
    destruct (memchr0 s) as [y|] eqn:Ey; [|done]. injection E as <-. pose proof (memchr0_bound _ _ Ey).
    replace (Z.to_nat (Z.succ y)) with (S (Z.to_nat y)) by lia. cbn. now apply IH. }
  right. apply take_S_r in H0. rewrite <- H0. rewrite take_ge; [done|]. unfold zlen in *. lia.
Qed.
Lemma pin_ok_store pgsz p passwd : 16 <= pgsz -> pin_ok pgsz p -> cstring_check passwd = None -> valid_pin (c_str passwd) = true ->
  zlen passwd + 1 <= zlen (cleared p) ->
  pin_ok pgsz (PinStore (zsplice (cleared p) 0 (passwd ++ [0])) (zlen passwd) card_probe_interval_pin).
Proof.
  intros Hg H Hc Hv _. rewrite (cleared_zero pgsz) by done. pose proof (valid_pin_len _ Hv) as Hn.
  rewrite zsplice_front, drop_zrepeat. apply checked_cstr in Hc. generalize dependent (c_str passwd). intros pin Hc Hv Hn.
  assert (E : (passwd ++ [0]) ++ zrepeat (pgsz - Z.of_nat (length (passwd ++ [0]))) 0 = pin ++ zrepeat (pgsz - zlen pin) 0).
  { change [0] with (zrepeat 1 (0 : Z)). destruct Hc as [->| ->]; rewrite <- !app_assoc; f_equal; change [0] with (zrepeat 1 (0 : Z));
      rewrite !length_app, !length_zrepeat; rewrite !zrepeat_app by (unfold zlen in *; lia); f_equal; unfold zlen; lia. }
  rewrite E. split; cbn [p_mem p_len p_interval].
  - rewrite zlen_app, zlen_zrepeat; lia.
  - right. exists pin. split_and!; try done; destruct Hc as [Hc|Hc]; rewrite Hc; rewrite ?zlen_app; unfold zlen in *; cbn; lia.
Qed.

(** ** Every state of the main loop *)

Section Reach.
Context {X : Certs} {R : Reader} {PS : Pcsc} {C : Crypto} {EV : Evp} {KO : KeyOps} {EO : EcOct} {SK : SameKey} {KB : KeyBlobs} {AK : AgentKeys}.
Context (fuel : nat) (env : surroundings).

(** The states at the top of the loop, from any start. *)
Inductive reachable (pgsz : Z) : agent -> Prop :=
| reach_start rs cak sock s : agent_start fuel env (agent_init rs pgsz cak sock) = (Ok tt, s) -> reachable pgsz s
| reach_turn answer orphaned s s' : reachable pgsz s -> agent_turn fuel env answer orphaned s = (Ok tt, s') -> reachable pgsz s'.

Lemma reachable_synced pgsz s : 16 <= pgsz -> reachable pgsz s -> synced (pin_ok pgsz) s.
Proof.
  intros Hg. assert (Hd := fun p => pin_ok_drop pgsz p Hg). assert (Hs := fun p w => pin_ok_store pgsz p w Hg).
  induction 1 as [rs cak sock s E|answer orphaned s s' _ IH E].
  - assert (I : synced (pin_ok pgsz) (agent_init rs pgsz cak sock)).
    { exists false. split_and!; [done|done|]. split; [cbn; rewrite zlen_zrepeat; lia|]. now left. }
    pose proof (start_inv fuel env (pin_ok pgsz) Hd (fun _ => True) _ I) as H. now rewrite E in H.
  - pose proof (turn_inv fuel env (pin_ok pgsz) Hd Hs answer orphaned (fun _ => True) s IH) as H. now rewrite E in H.
Qed.
End Reach.
