(* ===== verification/AgentReply.v ===== *)
(** * The agent: replies and policies (pivy-agent.c)

    A complete message gets one reply; a signature is made with a key that may sign and the digest that was asked for; a lock forgets the PIN; the
    loop never waits without end. At the end the invariant of AgentSafe.v is stated for every state of the main loop, and a session with a card is run. *)
From stdpp Require Import base list strings.
From Stdlib Require Import ZArith Lia.
From S2P Require Import Prelude Errf Sshbuf Algs Tlv PivBox EboxTpl PivToken Apdu ApduChain PivPin PivFiles PivParse PivCert.
From S2P Require Import Cipher PivKeys PivKeyCard PivKeySafe PivEnum Agent AgentSafe.

Local Open Scope string_scope.
Local Open Scope list_scope.
Local Open Scope Z_scope.
Local Open Scope c_scope.

(** ** Operations that only add to a buffer *)

Definition grows {A} (m : M Z queue A) : Prop :=
  forall q a q', m q = (Ok a, q') -> exists t, q' = Queue (q_bytes q ++ t) (q_max q) (q_ro q).

Lemma grows_append v : grows (q_append v).
Proof.
  intros q a q' H. unfold q_append, cbind, cget, guard, cput in H. destruct (q_ro q) eqn:E; [done|]. cbn in H.
  destruct (_ <=? _); [|done]. injection H as _ <-. eauto.
Qed.
Lemma grows_bind {A B} (m : M Z queue A) (f : A -> M Z queue B) : grows m -> (forall a, grows (f a)) -> grows (cbind m f).
Proof.
  intros Hm Hf q b q' (a & q1 & E & H)%cbind_inv. apply Hm in E as [t ->]. apply Hf in H as [t' ->]. exists (t ++ t'). cbn. by rewrite app_assoc.
Qed.
Lemma grows_ret {A} (a : A) : grows (cret a).
Proof. intros q a' q' [= _ <-]. exists []. rewrite app_nil_r. by destruct q. Qed.
Lemma grows_string v : grows (put_string v).
Proof. unfold put_string, q_put_string. destruct (negb _); [|done]. apply grows_append. Qed.
Lemma grows_u32 v : grows (put_u32 v).
Proof. apply grows_append. Qed.
Create HintDb grows.
#[export] Hint Resolve grows_append grows_ret grows_string grows_u32 : grows.
Ltac grows_tac := repeat first [ match goal with |- grows (cbind _ _) => apply grows_bind; [|intros ?] end | solve [auto with grows] | done ].

Lemma grows_names names : grows (put_names names).
Proof. induction names; cbn [put_names]; grows_tac. Qed.

(** A message of a type and what is added to it. *)
Lemma put_type_bytes {A} v (m : M Z queue A) q0 a q : grows m -> (put_u8 v ;! m) q0 = (Ok a, q) -> exists t, q_bytes q = q_bytes q0 ++ u8 v :: t.
Proof.
  intros Hm (u & q1 & E & H)%cbind_inv. apply Hm in H as [t ->]. unfold put_u8, q_append, cbind, cget, guard, cput in E.
  destruct (q_ro q0); [done|]. cbn in E. destruct (_ <=? _); [|done]. injection E as _ <-. exists t. cbn. by rewrite <- app_assoc.
Qed.

Section Replies.
Context {X : Certs} {R : Reader} {PS : Pcsc} {C : Crypto} {EV : Evp} {KO : KeyOps} {EO : EcOct} {SK : SameKey} {KB : KeyBlobs} {AK : AgentKeys}.
Context (fuel : nat) (env : surroundings).
Local Abbreviation Ag := (M stop agent).

(** What a peer sees of the sockets, and what is not read yet. *)
Definition wires (s : agent) : list (Z * sock_type * queue * queue) :=
  (fun e => (e_fd e, e_type e, e_input e, e_output e)) <$> a_sockets s.
Definition frame (body : list Z) : list Z := be_bytes 4 (zlen body) ++ body.
Definition add_output (bs : list Z) (w : Z * sock_type * queue * queue) : Z * sock_type * queue * queue :=
  let '(fd, t, i, o) := w in (fd, t, i, Queue (q_bytes o ++ bs) (q_max o) (q_ro o)).
(** One message has been added to the output of the socket, and nothing else. *)
Definition sent (e : nat) (ws ws' : list (Z * sock_type * queue * queue)) : Prop :=
  exists type t, ws' = alter (add_output (frame (type :: t))) e ws.

Lemma keeps_catch {B} (f : agent -> B) {A} (m : Ag A) h : keeps f m -> (forall e, keeps f (h e)) -> keeps f (catch m h).
Proof. intros Hm Hh s. unfold catch. specialize (Hm s). destruct (m s) as [[a|[e|]| |] s']; cbn in *; try done. by rewrite Hh. Qed.

(** *** The card does not touch the sockets *)

Local Abbreviation quiet m := (keeps wires m).
Lemma quiet_readers {A} (m : M stop (list reader) A) : quiet (on_readers m).
Proof. intros s. unfold on_readers. by destruct (m _). Qed.
Lemma quiet_upd f : quiet (upd_session f).
Proof. by intros s. Qed.
Lemma quiet_ask {A} (f : nat -> A) : quiet (ask f).
Proof. by intros s. Qed.
Lemma quiet_drop : quiet drop_pin.
Proof. by intros s. Qed.
#[local] Hint Resolve quiet_readers quiet_upd quiet_ask quiet_drop keeps_catch : keeps.
Lemma quiet_selk {A} (m : M stop world A) : quiet (on_selk m).
Proof. unfold on_selk. keeps_tac. Qed.
Lemma quiet_token : quiet selk_token.
Proof. unfold selk_token. keeps_tac. Qed.
#[local] Hint Resolve quiet_selk quiet_token : keeps.
Lemma quiet_do {A} (m : M stop world A) : quiet (selk_do m).
Proof. unfold selk_do, fail. keeps_tac. Qed.
Lemma quiet_close force : quiet (agent_piv_close env force).
Proof. unfold agent_piv_close, end_txn_selk, monotime. keeps_tac. Qed.
#[local] Hint Resolve quiet_do quiet_close : keeps.
Lemma quiet_cak : quiet (auth_cak fuel env).
Proof. unfold auth_cak, fail. keeps_tac. Qed.
#[local] Hint Resolve quiet_cak : keeps.
Lemma quiet_open : quiet (agent_piv_open fuel env).
Proof.
  unfold agent_piv_open, agent_piv_find, trust_cak, or_end, end_txn_selk, has_cak, monotime, fail. keeps_tac;
    (apply keeps_catch; [keeps_tac|intros ?; keeps_tac]).
  apply keeps_catch; [keeps_tac|intros ?; keeps_tac].
Qed.
#[local] Hint Resolve quiet_open : keeps.
Lemma quiet_wrap err retries : quiet (wrap_pin_error err retries).
Proof. unfold wrap_pin_error, fail. keeps_tac. Qed.
#[local] Hint Resolve quiet_wrap : keeps.
Lemma quiet_verify pin canskip : quiet (verify_selk fuel pin canskip).
Proof. unfold verify_selk. keeps_tac. Qed.
#[local] Hint Resolve quiet_verify : keeps.
Lemma quiet_try_pin canskip : quiet (agent_piv_try_pin fuel canskip).
Proof. unfold agent_piv_try_pin. keeps_tac. Qed.
Lemma quiet_find_slot key slots : quiet (find_slot key slots).
Proof. induction slots; cbn [find_slot]; keeps_tac. Qed.
#[local] Hint Resolve quiet_try_pin quiet_find_slot : keeps.
Lemma quiet_slot key : quiet (selk_slot env key).
Proof. unfold selk_slot, fail. keeps_tac. Qed.
Lemma quiet_round {A} canskip (again : Ag A) op : quiet again -> quiet (pin_round fuel env canskip again op).
Proof. intros H. unfold pin_round, fail. keeps_tac. apply keeps_catch; [keeps_tac|intros ?; keeps_tac]. Qed.
Lemma quiet_rounds {A} slot (op : M stop world A) : quiet (pin_rounds fuel env slot op).
Proof. unfold pin_rounds. destruct (_ =? _); repeat apply quiet_round; done. Qed.
Lemma quiet_refresh : quiet (refresh fuel env).
Proof. unfold refresh, has_cak, monotime, fail. keeps_tac. apply keeps_catch; [keeps_tac|intros ?; keeps_tac]. Qed.
Lemma quiet_parse {A} buf (m : M Z queue A) : quiet (parse buf m).
Proof. unfold parse, fail. keeps_tac. Qed.
Lemma quiet_box {A} (m : M errf_t piv_ecdh_box A) b : quiet (on_box m b).
Proof. unfold on_box, fail. keeps_tac. Qed.
Lemma quiet_find_token box : quiet (selk_find_token fuel box).
Proof. unfold selk_find_token, fail. keeps_tac. Qed.
Lemma quiet_store passwd : quiet (store_pin passwd).
Proof. intros s. unfold store_pin, cbind, cget. by destruct (_ <? _). Qed.
Lemma quiet_request_entry {A} e (m : M Z queue A) : quiet (on_entry e e_request set_request m).
Proof.
  intros s. unfold on_entry, wires. destruct (a_sockets s !! e) as [ent|] eqn:E; [|done]. destruct (m _) as [r q]. cbn.
  rewrite list_fmap_insert. cbn. apply list_insert_id. by rewrite list_lookup_fmap, E.
Qed.
Lemma quiet_request {A} e (m : M Z queue A) : quiet (request e m).
Proof. unfold request, or_parserrf, fail. keeps_tac. apply quiet_request_entry. Qed.
#[local] Hint Resolve quiet_slot quiet_rounds quiet_refresh quiet_parse quiet_box quiet_find_token quiet_store quiet_request_entry quiet_request : keeps.

(** *** One message *)

Definition says {A} (e : nat) (m : Ag A) : Prop :=
  forall ws, triple (fun s => wires s = ws) m (fun _ s => sent e ws (wires s)) (fun s => wires s = ws).

Lemma quiet_triple {A} (m : Ag A) ws : quiet m -> triple (fun s => wires s = ws) m (fun _ s => wires s = ws) (fun s => wires s = ws).
Proof. intros K s Hs. specialize (K s). destruct (m s) as [[a|[e|]| |] s']; cbn in *; done || congruence. Qed.
(** After operations on the card. *)
Lemma says_after {A B} e (m : Ag A) (k : A -> Ag B) : quiet m -> (forall a, says e (k a)) -> says e (cbind m k).
Proof. intros K H ws. eapply triple_bind; [by apply quiet_triple|]. intros a. apply H. Qed.
(** Before operations that do not fail. *)
Lemma says_then {A B} e (m : Ag A) (k : A -> Ag B) : says e m -> (forall a, keeps wires (k a)) ->
  (forall a s x s', k a s <> (Er (Err x), s')) -> says e (cbind m k).
Proof.
  intros H K N ws s Hs. specialize (H ws s Hs). unfold cbind. destruct (m s) as [[a|[x|]| |] s1]; try done.
  specialize (K a s1). specialize (N a s1). destruct (k a s1) as [[b|[y|]| |] s2]; cbn in K; try done; [by rewrite K|by destruct (N y s2)].
Qed.
Lemma says_fail {A} e x : says (A := A) e (fail x).
Proof. intros ws s Hs. exact Hs. Qed.
Lemma output_adds {A} e (m : M Z queue A) bs ws err :
  (forall q a q', m q = (Ok a, q') -> q' = Queue (q_bytes q ++ bs) (q_max q) (q_ro q)) ->
  triple (fun s => wires s = ws) (output e m) (fun _ s => wires s = alter (add_output bs) e ws) err.
Proof.
  intros Hm s <-. unfold output, or_fatal, cbind, on_entry. destruct (a_sockets s !! e) as [ent|] eqn:E; [|done].
  specialize (Hm (e_output ent)). destruct (m _) as [[a|rc| |] q]; try done. rewrite (Hm a q eq_refl). unfold wires. cbn.
  rewrite list_fmap_insert. cbn. assert (((fun e => (e_fd e, e_type e, e_input e, e_output e)) <$> a_sockets s) !! e = Some (e_fd ent, e_type ent, e_input ent, e_output ent)) as L
    by (by rewrite list_lookup_fmap, E).
  apply list_eq. intros j. destruct (decide (j = e)) as [->|Hj].
  - rewrite list_lookup_insert_eq by (by eapply lookup_lt_Some). by rewrite list_lookup_alter_eq, L.
  - by rewrite list_lookup_insert_ne, list_lookup_alter_ne by done.
Qed.
Lemma put_string_adds v q a q' : put_string v q = (Ok a, q') -> q' = Queue (q_bytes q ++ frame v) (q_max q) (q_ro q).
Proof.
  unfold put_string, q_put_string, frame. destruct (negb _); [|done]. unfold guard. rewrite cbind_ret_l. unfold q_append, cbind, cget, guard, cput.
  destruct (q_ro q); [done|]. cbn. destruct (_ <=? _); [|done]. by intros [= _ <-].
Qed.
Lemma reply_says e v (m : M Z queue unit) : grows m -> says e (reply e (put_u8 v ;! m)).
Proof.
  intros Hm ws. unfold reply, new_msg. destruct ((put_u8 v ;! m) new_queue) as [[u|rc| |] q] eqn:E; try done.
  apply put_type_bytes in E as [t E]; [|done]. change (q_bytes q = u8 v :: t) in E. intros s Hs. rewrite cbind_ret_l.
  pose proof (output_adds e (put_string (q_bytes q)) (frame (q_bytes q)) ws (fun s => wires s = ws)
    (put_string_adds (q_bytes q)) s Hs) as H. destruct (output _ _ s) as [[a|[x|]| |] s']; try done. exists (u8 v), t. rewrite <- E. exact H.
Qed.
Lemma status_says e v : says e (output e (put_u32 1 ;! put_u8 v)).
Proof.
  intros ws. eapply triple_post; [apply (output_adds _ _ (be_bytes 4 1 ++ [u8 v]))|].
  - intros q a q' (u & q1 & E & H)%cbind_inv. unfold put_u32, put_u8, q_append, cbind, cget, guard, cput in E, H.
    destruct (q_ro q) eqn:Er; [done|]. cbn in E. destruct (_ <=? _) in E; [|done]. injection E as _ <-. cbn in H.
    destruct (_ <=? _) in H; [|done]. injection H as _ <-. cbn; by rewrite <- app_assoc.
  - intros a s H. exists (u8 v), []. exact H.
Qed.

Lemma says_panic {A} e : says (A := A) e cpanic.
Proof. done. Qed.
Lemma says_fault {A} e : says (A := A) e cfault.
Proof. done. Qed.

Ltac says_tac := repeat
  match goal with
  | |- says _ (cbind _ _) => apply says_after; [solve [auto with keeps | keeps_tac]|intros ?]
  | |- says _ (reply _ _) => apply reply_says; solve [grows_tac]
  | |- says _ (output _ _) => apply status_says
  | |- says _ (fail _) => apply says_fail
  | |- says _ cpanic => apply says_panic
  | |- says _ cfault => apply says_fault
  | |- says _ (if ?b then _ else _) => destruct b
  | |- says _ (match ?x with _ => _ end) => destruct x
  end.

Lemma grows_identity slot : grows (put_identity slot).
Proof.
  unfold put_identity. destruct (ps_pubkey slot); try done. apply grows_bind; [intros q a q' [= _ <-]; exists []; rewrite app_nil_r; by destruct q|].
  intros blob. apply grows_bind; [apply grows_string|]. intros u. destruct (ps_subj slot); [apply grows_string|done].
Qed.
Lemma grows_identities slots : grows (put_identities slots).
Proof.
  induction slots as [|slot slots IH]; cbn [put_identities]; grows_tac. destruct (_ =? _); [apply grows_ret|apply grows_identity].
Qed.
#[local] Hint Resolve grows_identity grows_identities grows_names : grows.

Lemma identities_says e : says e (process_request_identities fuel env e).
Proof.
  unfold process_request_identities. do 4 (apply says_after; [solve [keeps_tac]|intros ?]). apply says_then.
  - apply reply_says. grows_tac. destruct (piv_get_slot _ _); auto with grows.
  - intros ?. keeps_tac.
  - intros ? s x s'. by case_match.
Qed.
Lemma sign_says e : says e (process_sign_request2 fuel env e).
Proof. unfold process_sign_request2. says_tac. Qed.
Lemma ecdh_says e buf : says e (process_ext_ecdh fuel env e buf).
Proof. unfold process_ext_ecdh, fail. says_tac. Qed.
Lemma quiet_or_close {A} (m : Ag A) : quiet m -> quiet (catch m (fun e => agent_piv_close env true ;! fail e)).
Proof. intros H. apply keeps_catch; [done|intros ?; unfold fail; keeps_tac]. Qed.
Lemma quiet_chain chain : quiet (attest_chain chain).
Proof. unfold attest_chain, fail. keeps_tac. Qed.
Lemma quiet_box_open slot box : quiet (selk_box_open fuel slot box).
Proof. unfold selk_box_open. keeps_tac. Qed.
Lemma quiet_sure {A} (m : Ag A) : quiet m -> quiet (sure m).
Proof. intros H. by apply keeps_catch. Qed.
#[local] Hint Resolve quiet_or_close quiet_chain quiet_box_open quiet_sure : keeps.
Lemma attest_says e buf : says e (process_ext_attest fuel env e buf).
Proof. unfold process_ext_attest. cbv zeta. says_tac. Qed.
Lemma rebox_says e buf : says e (process_ext_rebox fuel env e buf).
Proof. unfold process_ext_rebox. cbv zeta. says_tac. Qed.
Lemma extension_says e : says e (process_extension fuel env e).
Proof.
  unfold process_extension. do 2 (apply says_after; [auto with keeps|intros ?]). intros ws. destruct (exthandler _ _ _) as [h|] eqn:Eh; [|apply says_fail].
  eapply triple_catch; [|intros x; apply status_says]. revert ws. change (says e (h e (Queue a0 SSHBUF_SIZE_MAX true))).
  unfold exthandler in Eh. repeat case_match; simplify_eq; [|apply ecdh_says|apply rebox_says|apply says_fail|apply attest_says].
  apply reply_says. grows_tac.
Qed.
Lemma says_err {A} e (m : Ag A) : quiet m -> (forall s a s', m s <> (Ok a, s')) -> says e m.
Proof.
  intros K N ws s Hs. specialize (K s). destruct (m s) as [[a|[x|]| |] s'] eqn:E; cbn in K; try done; [by destruct (N s a s')|congruence].
Qed.
Lemma wrap_fails err retries s a s' : wrap_pin_error (Some err) retries s <> (Ok a, s').
Proof. unfold wrap_pin_error. by repeat case_match. Qed.
Lemma lock_says e lock : says e (process_lock_agent fuel env e lock).
Proof.
  unfold process_lock_agent. apply says_after; [unfold or_fatal; keeps_tac|intros passwd]. destruct lock; [says_tac; apply status_says|].
  do 3 (apply says_after; [auto with keeps || keeps_tac|intros ?]). destruct a1 as [[err|] retries].
  - apply says_after; [auto with keeps|intros ?]. apply says_err; [auto with keeps|]. intros. apply wrap_fails.
  - do 2 (apply says_after; [auto with keeps|intros ?]). apply says_then; [apply status_says|by intros ? ?|done].
Qed.
Lemma dispatch_says e type : says e (dispatch fuel env e type).
Proof.
  unfold dispatch. repeat case_match; [apply lock_says|apply sign_says|apply identities_says| |apply extension_says|apply says_fail].
  apply says_after; [auto with keeps|intros ?]. apply status_says.
Qed.

(** *** A message that has arrived *)

(** A message of at least one byte, and no longer than the agent accepts. *)
Definition message (input body rest : list Z) : Prop :=
  input = frame body ++ rest /\ bytes body /\ 1 <= zlen body <= AGENT_MAX_LEN.
Definition take_input (n : nat) (w : Z * sock_type * queue * queue) : Z * sock_type * queue * queue :=
  let '(fd, t, i, o) := w in (fd, t, Queue (drop n (q_bytes i)) (q_max i) (q_ro i), o).

Lemma get_string_frame body rest max ro : bytes body -> zlen body <= AGENT_MAX_LEN ->
  get_string (Queue (frame body ++ rest) max ro) = (Ok body, Queue rest max ro).
Proof.
  intros Hb Hl. pose proof (zlen_nonneg body). pose proof (zlen_nonneg rest). unfold AGENT_MAX_LEN in Hl.
  assert (zlen (frame body) = 4 + zlen body) as Hf by (unfold frame; rewrite zlen_app, zlen_be_bytes; lia).
  assert (E4 : take 4 (frame body ++ rest) = be_bytes 4 (zlen body)).
  { unfold frame. rewrite <- app_assoc. apply take_app_length'. by rewrite length_be_bytes. }
  assert (Ev : be_val (be_bytes 4 (zlen body)) = zlen body) by (rewrite be_val_be_bytes by lia; apply Z.mod_small; cbn; lia).
  unfold get_string, q_get_string, q_string, q_skip_string, q_take, cbind, cget, guard, cput. cbn [q_bytes q_max q_ro].
  rewrite zlen_app, Hf, E4, Ev. unfold SSHBUF_SIZE_MAX. change (Z.of_nat 4) with 4. repeat (replace (_ <? _) with false by lia; cbn [negb]).
  assert (zslice (frame body ++ rest) 4 (zlen body) = body) as ->.
  { unfold zslice, frame. rewrite <- app_assoc. change (Z.to_nat 4) with 4%nat. rewrite (drop_app_length' (be_bytes 4 _)) by (by rewrite length_be_bytes).
    apply take_app_length'. unfold zlen. lia. }
  unfold cret. cbn [q_bytes q_max q_ro]. rewrite zlen_app, Hf. replace (_ <? _) with false by lia. cbn [negb q_bytes q_max q_ro]. f_equal. f_equal.
  rewrite drop_app_length'; [done|]. unfold zlen in *. lia.
Qed.

Lemma alter_twice {B} (f g : B -> B) i (l : list B) : alter f i (alter g i l) = alter (fun x => f (g x)) i l.
Proof.
  apply list_eq. intros j. destruct (decide (j = i)) as [->|Hj].
  - rewrite !list_lookup_alter_eq. by destruct (l !! i).
  - by rewrite !list_lookup_alter_ne by done.
Qed.
Lemma wires_lookup s ws e fd t i o : wires s = ws -> ws !! e = Some (fd, t, i, o) ->
  exists ent, a_sockets s !! e = Some ent /\ e_fd ent = fd /\ e_type ent = t /\ e_input ent = i /\ e_output ent = o.
Proof. intros <- H. unfold wires in H. rewrite list_lookup_fmap in H. destruct (a_sockets s !! e) as [ent|]; [|done]. injection H. eauto 10. Qed.
Lemma wires_set_input s e ent q : a_sockets s !! e = Some ent ->
  wires (set_sockets (<[e := set_input q ent]> (a_sockets s)) s) = <[e := (e_fd ent, e_type ent, q, e_output ent)]> (wires s).
Proof. intros E. unfold wires. cbn. by rewrite list_fmap_insert. Qed.

(** The string is taken from the input. *)
Lemma take_message e fd t i o body rest ws err : ws !! e = Some (fd, t, i, o) -> message (q_bytes i) body rest ->
  triple (fun s => wires s = ws) (on_entry e e_input set_input get_string)
    (fun r s => r = inr body /\ wires s = alter (take_input (length (frame body))) e ws) err.
Proof.
  intros Hw (Ei & Hb & Hl) s Hs. destruct (wires_lookup s ws e fd t i o Hs Hw) as (ent & E & H1 & H2 & H3 & H4).
  unfold on_entry. rewrite E, H3. destruct i as [ib im ir]. cbn [q_bytes] in Ei. subst ib. rewrite get_string_frame by (done || lia).
  split; [done|]. rewrite (wires_set_input _ _ _ _ E), Hs, H1, H2, H4. apply list_eq. intros j. destruct (decide (j = e)) as [->|Hj].
  - rewrite list_lookup_insert_eq by (by eapply lookup_lt_Some). rewrite list_lookup_alter_eq, Hw. cbn. by rewrite drop_app_length.
  - by rewrite list_lookup_insert_ne, list_lookup_alter_ne by done.
Qed.
Lemma type_read body q rc q' : 1 <= zlen body -> (q_append body ;! q_get_u 1) q = (Er rc, q') ->
  (rc =? SSH_ERR_MESSAGE_INCOMPLETE) || (rc =? SSH_ERR_STRING_TOO_LARGE) = false.
Proof.
  intros Hl. unfold q_append, q_get_u, q_take, cbind, cget, guard, cput. destruct (q_ro q); [by intros [= <- _]|]. cbn [negb].
  destruct (_ <=? _); [|by intros [= <- _]]. unfold cret. cbn [q_bytes q_max q_ro]. rewrite zlen_app. pose proof (zlen_nonneg (q_bytes q)).
  change (Z.of_nat 1) with 1. replace (_ <? _) with false by lia. done.
Qed.

Lemma quiet_then {A B} (m : Ag A) (f : A -> Ag B) ws post (err : agent -> Prop) : quiet m -> (forall s, wires s = ws -> err s) ->
  (forall a, triple (fun s => wires s = ws) (f a) post err) -> triple (fun s => wires s = ws) (cbind m f) post err.
Proof.
  intros K He H. apply (triple_bind _ _ _ (fun _ s => wires s = ws)); [|exact H].
  eapply triple_weaken; [exact (quiet_triple m ws K)|..]; cbn beta; auto.
Qed.

Lemma one_reply e fd t i o body rest ws : ws !! e = Some (fd, t, i, o) -> message (q_bytes i) body rest ->
  triple (fun s => wires s = ws) (process_message fuel env e)
    (fun r s => r = 0 /\ sent e (alter (take_input (length (frame body))) e ws) (wires s)) (fun _ => True).
Proof.
  intros Hw Hm. unfold process_message. apply triple_get. intros s Hs. destruct (wires_lookup s ws e fd t i o Hs Hw) as (ent & -> & _ & _ & -> & _).
  pose proof Hm as (Ei & Hb & Hl). unfold AGENT_MAX_LEN in *. pose proof (zlen_nonneg rest).
  assert (be_val (take 4 (q_bytes i)) = zlen body) as ->.
  { rewrite Ei. unfold frame. rewrite <- app_assoc, take_app_length' by (by rewrite length_be_bytes).
    rewrite be_val_be_bytes by lia. apply Z.mod_small. cbn. lia. }
  assert (zlen (q_bytes i) = 4 + zlen body + zlen rest) as -> by (rewrite Ei; unfold frame; rewrite !zlen_app, zlen_be_bytes; lia).
  cbv zeta. repeat (replace (_ <? _) with false by lia). set (ws' := alter _ e ws).
  apply quiet_then; [unfold reset_request, or_fatal; keeps_tac|done|intros ?].
  eapply triple_bind; [eapply take_message; done|intros r]. apply (triple_pure (r = inr body)). intros ->.
  eapply (triple_bind _ _ _ (fun r s => wires s = ws' /\ match r with inl rc => (rc =? SSH_ERR_MESSAGE_INCOMPLETE) || (rc =? SSH_ERR_STRING_TOO_LARGE) = false | inr _ => True end)).
  { intros s1 Hs1. pose proof (quiet_request_entry e (q_append body ;! q_get_u 1) s1) as K. unfold on_entry in *.
    destruct (a_sockets s1 !! e) as [ent1|]; [|done]. pose proof (fun rc q' => type_read body (e_request ent1) rc q' (proj1 Hl)) as T.
    destruct ((q_append body ;! q_get_u 1) (e_request ent1)) as [[ty|rc| |] q]; try done; (split; [exact (eq_trans K Hs1)|]); [done|by apply (T rc q)]. }
  intros [rc|type].
  { intros s1 [_ E]. by rewrite E. }
  apply (triple_pre (fun s => wires s = ws')); [|by intros ? []].
  do 2 (apply quiet_then; [by intros ?|done|intros ?]).
  apply (triple_bind _ _ _ (fun _ s => sent e ws' (wires s))); [|intros ?; apply triple_ret; by intros s2 H2].
  eapply triple_catch; [apply dispatch_says|]. intros x.
  apply quiet_then; [unfold reset_request, or_fatal; keeps_tac|done|intros ?].
  eapply triple_weaken; [exact (status_says e SSH_AGENT_FAILURE ws')|..]; cbn beta; auto.
Qed.

(** Every request gets one reply. When a complete message of at least one byte and of no more than AGENT_MAX_LEN bytes is at the front of the
    input of a connection, and the agent does not end, [process_message] takes exactly this message off the input and adds
    exactly one message with its length to the output of this connection, whatever the request asks for, whatever the card and the readers do
    and however the request fails; it returns 0, and no other connection is touched. *)
Theorem process_message_one_reply e s ent body rest r s' :
  a_sockets s !! e = Some ent -> message (q_bytes (e_input ent)) body rest -> process_message fuel env e s = (Ok r, s') ->
  r = 0 /\ exists type t, wires s' = alter (fun w => add_output (frame (type :: t)) (take_input (length (frame body)) w)) e (wires s).
Proof.
  intros E Hm H. assert (wires s !! e = Some (e_fd ent, e_type ent, e_input ent, e_output ent)) as Hw by (unfold wires; by rewrite list_lookup_fmap, E).
  pose proof (one_reply e _ _ _ _ body rest (wires s) Hw Hm s eq_refl) as P. rewrite H in P. destruct P as (-> & type & t & P). split; [done|].
  exists type, t. rewrite P. apply alter_twice.
Qed.

(** *** Signatures *)

Lemma request_ok {A} e (m : M Z queue A) s a s' : request e m s = (Ok a, s') ->
  exists ent q, a_sockets s !! e = Some ent /\ m (e_request ent) = (Ok a, q) /\ a_sockets s' = <[e := set_request q ent]> (a_sockets s).
Proof.
  unfold request, or_parserrf. intros (r & s1 & E & H)%cbind_inv. unfold on_entry in E. destruct (a_sockets s !! e) as [ent|]; [|done].
  destruct (m (e_request ent)) as [[x|rc| |] q] eqn:Em; try done; injection E as <- <-; [|done]. injection H as <- <-. eauto 10.
Qed.
Lemma quiet_ok {A} (m : Ag A) s a s' : quiet m -> m s = (Ok a, s') -> wires s' = wires s.
Proof. intros K E. specialize (K s). by rewrite E in K. Qed.
Lemma find_slot_ok key slots s slot s' : find_slot key slots s = (Ok (Some slot), s') ->
  slot ∈ slots /\ exists k, ps_pubkey slot = HasKey k /\ sshkey_equal k key = true.
Proof.
  induction slots as [|x slots IH]; cbn [find_slot]; [done|]. destruct (ps_pubkey x) as [|k|] eqn:Ek; [|destruct (sshkey_equal k key) eqn:Eq|done].
  - intros H. apply IH in H as [? ?]. split; [by apply list_elem_of_further|done].
  - intros [= <- _]. split; [apply list_elem_of_here|eauto].
  - intros H. apply IH in H as [? ?]. split; [by apply list_elem_of_further|done].
Qed.
Lemma selk_slot_ok key s slot s' : selk_slot env key s = (Ok slot, s') ->
  exists t, selk_token s = (Ok t, s) /\ slot ∈ pt_slots t /\ exists k, ps_pubkey slot = HasKey k /\ sshkey_equal k key = true.
Proof.
  unfold selk_slot. intros (t & s1 & Et & H)%cbind_inv. apply cbind_inv in H as (o & s2 & Ef & H).
  assert (s1 = s) as ->. { unfold selk_token, cbind, cget in Et. destruct (s_ks _); [|done]. destruct (s_selk _); [|done]. by injection Et as _ <-. }
  destruct o as [x|]; [|by apply cbind_inv in H as (? & ? & _ & ?)]. injection H as <- <-. exists t. split; [done|]. by eapply find_slot_ok.
Qed.
Lemma on_selk_ok {A} (m : M stop world A) s a s' : on_selk m s = (Ok (inr a), s') -> exists w w', m w = (Ok a, w').
Proof.
  unfold on_selk, cbind, cget, on_readers, call. destruct (s_ks _) as [key|]; [|done]. destruct (s_selk _); [|done].
  destruct (_ !! _) as [rd|]; [|done]. unfold attempt. destruct (m (World (tk_tok key) (rd_card rd))) as [[x|[]| |] w'] eqn:E; try done.
  intros [= <- _]. eauto.
Qed.
Lemma pin_round_ok {A} canskip (again : Ag A) op s a s' (Q : Prop) :
  (forall s s', again s = (Ok a, s') -> Q) -> (forall w w', op w = (Ok a, w') -> Q) -> pin_round fuel env canskip again op s = (Ok a, s') -> Q.
Proof.
  intros Ha Ho. unfold pin_round. intros (u & s1 & _ & H)%cbind_inv. apply cbind_inv in H as ([x|b] & s2 & E & H).
  - apply cbind_inv in H as (y & s3 & _ & H). apply cbind_inv in H as (t & s4 & _ & H). destruct (_ && canskip); [by eapply Ha|].
    by apply cbind_inv in H as (? & ? & _ & ?).
  - apply cbind_inv in H as (? & ? & _ & [= <- _]). apply on_selk_ok in E as (w & w' & E). by eapply Ho.
Qed.
Lemma pin_rounds_ok {A} slot (op : M stop world A) s a s' : pin_rounds fuel env slot op s = (Ok a, s') -> exists w w', op w = (Ok a, w').
Proof.
  unfold pin_rounds. destruct (_ =? _); (apply pin_round_ok; [|eauto]); [done|]. intros s1 s2. apply pin_round_ok; [done|eauto].
Qed.
Lemma put_u8_new v : put_u8 v new_queue = (Ok tt, Queue [u8 v] SSHBUF_SIZE_MAX false).
Proof. done. Qed.
Lemma reply_type_string e v str s s' : reply e (put_u8 v ;! put_string str) s = (Ok tt, s') ->
  wires s' = alter (add_output (frame (u8 v :: frame str))) e (wires s).
Proof.
  unfold reply, new_msg. rewrite (cbind_ok _ _ _ _ _ (put_u8_new v)). intros H.
  destruct (put_string str _) as [[[]|rc| |] q] eqn:E; try done. apply put_string_adds in E as ->. rewrite cbind_ret_l in H.
  pose proof (output_adds e (put_string (u8 v :: frame str)) (frame (u8 v :: frame str)) (wires s) (fun _ => True) (put_string_adds _) s eq_refl) as P.
  change (q_bytes (Queue [u8 v] _ _) ++ frame str) with (u8 v :: frame str) in H. cbn [q_bytes] in H. by rewrite H in P.
Qed.


(** *** The PIN *)

Lemma append_ok v q : q_ro q = false -> zlen (q_bytes q) + zlen v <= q_max q -> q_append v q = (Ok tt, Queue (q_bytes q ++ v) (q_max q) false).
Proof. intros Hr Hq. unfold q_append, cbind, cget, guard, cput. rewrite Hr. cbn [negb]. by rewrite (proj2 (Z.leb_le _ _) Hq). Qed.
Lemma status_ok v q : q_ro q = false -> zlen (q_bytes q) + 5 <= q_max q ->
  (put_u32 1 ;! put_u8 v) q = (Ok tt, Queue (q_bytes q ++ frame [u8 v]) (q_max q) false).
Proof.
  intros Hr Hq. unfold put_u32, put_u8. rewrite (cbind_ok _ _ _ _ _ (append_ok (be_bytes 4 1) q Hr ltac:(rewrite zlen_be_bytes; lia))).
  rewrite append_ok; [cbn; by rewrite <- app_assoc|done|]. cbn [q_bytes q_max]. rewrite zlen_app, zlen_be_bytes, zlen_cons, zlen_nil. lia.
Qed.

(** Locking. After a lock or a request to remove all identities the PIN is gone: every byte of the page is zero, its length is zero
    and the interval is the long one; the agent answers with success, once, and it neither talks to the card nor touches the session. The
    request cannot fail as long as there is room for the answer and, for a lock, a string in it. *)
Theorem lock_forgets_pin pgsz e type s ent :
  16 <= pgsz -> pin_ok pgsz (a_pin s) -> a_sockets s !! e = Some ent ->
  type = SSH2_AGENTC_REMOVE_ALL_IDENTITIES \/ type = SSH_AGENTC_LOCK /\ (exists passwd q, get_cstring (e_request ent) = (Ok passwd, q)) ->
  q_ro (e_output ent) = false -> zlen (q_bytes (e_output ent)) + 5 <= q_max (e_output ent) ->
  exists s', dispatch fuel env e type s = (Ok tt, s') /\
    a_pin s' = PinStore (zrepeat pgsz 0) 0 card_probe_interval_nopin /\ a_session s' = a_session s /\ a_readers s' = a_readers s /\
    wires s' = alter (add_output (frame [SSH_AGENT_SUCCESS])) e (wires s).
Proof.
  intros Hg Hp He Ht Hro Hmax.
  assert (D : forall s0 ent0, a_sockets s0 !! e = Some ent0 -> e_output ent0 = e_output ent -> core s0 = core s -> a_readers s0 = a_readers s -> wires s0 = wires s ->
    exists s', (drop_pin ;! send_status e true) s0 = (Ok tt, s') /\
      a_pin s' = PinStore (zrepeat pgsz 0) 0 card_probe_interval_nopin /\ a_session s' = a_session s /\ a_readers s' = a_readers s /\
      wires s' = alter (add_output (frame [SSH_AGENT_SUCCESS])) e (wires s)).
  { intros s0 ent0 L0 O0 [= C1 C2] R0 W0. unfold drop_pin, send_status. unfold cbind at 1, cmodify. fold (cleared (a_pin s0)).
    set (s1 := set_pin _ s0). assert (out : (put_u32 1 ;! put_u8 SSH_AGENT_SUCCESS) (e_output ent0) =
      (Ok tt, Queue (q_bytes (e_output ent0) ++ frame [SSH_AGENT_SUCCESS]) (q_max (e_output ent0)) false)).
    { apply status_ok; [by rewrite O0|]. rewrite O0. lia. }
    change (output e _) with (or_fatal (on_entry e e_output set_output (put_u32 1 ;! put_u8 SSH_AGENT_SUCCESS))). unfold or_fatal. unfold cbind at 1, on_entry.
    change (a_sockets s1) with (a_sockets s0). rewrite L0, out. eexists. split; [reflexivity|]. cbn.
    rewrite C1, C2, (cleared_zero pgsz) by done. split_and!; try done. rewrite <- W0. unfold wires. cbn. rewrite list_fmap_insert. cbn.
    apply list_eq. intros j. destruct (decide (j = e)) as [->|Hj].
    - rewrite list_lookup_insert_eq, list_lookup_alter_eq, list_lookup_fmap, L0 by (rewrite length_fmap; by eapply lookup_lt_Some). cbn. by rewrite O0, Hro.
    - by rewrite list_lookup_insert_ne, list_lookup_alter_ne by done. }
  destruct Ht as [->|[-> (passwd & q & Ec)]]; [by apply (D s ent)|].
  unfold dispatch. cbn [Z.eqb Pos.eqb SSH_AGENTC_LOCK SSH_AGENTC_UNLOCK orb]. unfold process_lock_agent, or_fatal, on_entry, cbind at 1 2. rewrite He, Ec.
  apply (D _ (set_request q ent)); try done; cbn; [by apply list_lookup_insert_eq; eapply lookup_lt_Some|].
  unfold wires. cbn. rewrite list_fmap_insert. cbn. apply list_insert_id. by rewrite list_lookup_fmap, He.
Qed.

(** *** The loop *)

Lemma sooner_bounds d i : 0 <= d -> 0 < i ->
  0 < (if i =? 0 then d else if d =? 0 then i * 1000 else Z.min d (i * 1000)) <= i * 1000.
Proof. intros Hd Hi. replace (i =? 0) with false by lia. destruct (Z.eqb_spec d 0); lia. Qed.

(** The agent never waits without end. At every turn the timeout of [poll] is positive and no longer than the interval between two
    looks at the card (30 seconds with a PIN in memory, 120 without), so that a card that is exchanged is noticed; exactly the sockets that are in
    use are polled, for output only those that have some; and if the time of the open transaction is over when [poll] returns, the
    transaction is closed before any request is looked at. *)
Theorem poll_is_timely pgsz s pfd timeout s' :
  pin_ok pgsz (a_pin s) -> 0 <= parent_alive_interval env -> prepare_poll env s = (Ok (pfd, timeout), s') ->
  0 < timeout <= p_interval (a_pin s) * 1000 /\ timeout <= 120000 /\
  pfd = (fun e => (e_fd e, 0 <? zlen (q_bytes (e_output e)))) <$> filter (fun e => unused e = false) (a_sockets s) /\
  forall now s1 s2, s_txntimeout (a_session s1) <= now -> expire env now s1 = (Ok tt, s2) -> s_txnopen (a_session s2) = false.
Proof.
  intros Hp Hi H. unfold prepare_poll, cbind, cget in H. cbn in H. injection H as <- <- _.
  set (now := u64 (clock env (a_tick s))).
  assert (Hint : p_interval (a_pin s) = 30 \/ p_interval (a_pin s) = 120).
  { destruct Hp as [_ [(_ & -> & _)|(_ & _ & _ & _ & ->)]]; [by right|by left]. }
  assert (Hd : 0 < poll_deadline env s now <= p_interval (a_pin s) * 1000).
  { unfold poll_deadline. apply sooner_bounds; [|lia]. destruct (Z.eqb_spec (parent_alive_interval env) 0) as [_|Hne].
    - destruct (s_txnopen _); [apply wrap_range; lia|lia].
    - assert (0 <= (if s_txnopen (a_session s) then u64 (s_txntimeout (a_session s) - now) else 0)) by (destruct (s_txnopen _); [apply wrap_range; lia|lia]).
      destruct ((if s_txnopen (a_session s) then _ else 0) =? 0); lia. }
  replace (poll_deadline env s now =? 0) with false by lia. unfold INT_MAX. replace (2147483647 <? poll_deadline env s now) with false by lia.
  split_and!; try lia; [done|]. intros now' s1 s2 Ht. unfold expire, cbind at 1, cget. destruct (s_txnopen (a_session s1)) eqn:Eo; cbn [andb]; [|by intros [= <-]].
  rewrite (proj2 (Z.leb_le _ _) Ht). unfold agent_piv_close. intros (n & s3 & _ & H)%cbind_inv. apply cbind_inv in H as (s4 & s5 & _ & H).
  apply cbind_inv in H as (u & s6 & _ & H). cbn [orb] in H. apply cbind_inv in H as (u' & s7 & _ & [= <-]). done.
Qed.

(** C11: the state of the agent. At every turn of the main loop, from the start and whatever the clients, the card, the readers and the clock do, [txnopen]
    says whether the token is in a transaction, and then [selk] points to this token, so that the checks in [agent_piv_close] and
    [piv_release] hold; and the page for the PIN holds either zeros, with the long interval, or a PIN of six to eight letters and digits
    followed by zeros, with the short interval. *)
Theorem agent_invariant pgsz s : 16 <= pgsz -> reachable fuel env pgsz s ->
  pin_ok pgsz (a_pin s) /\
  match s_ks (a_session s) with
  | None => s_txnopen (a_session s) = false /\ s_selk (a_session s) = false
  | Some key => pt_intxn (tk_tok key) = s_txnopen (a_session s) /\ (s_txnopen (a_session s) = true -> s_selk (a_session s) = true)
  end.
Proof.
  intros Hg Hr. destruct (reachable_synced fuel env pgsz s Hg Hr) as (b & <- & Ht & Hp). split; [done|]. exact Ht.
Qed.

(** A client is connected only if it is root, or runs as the agent's user, or nobody is asked. *)
Lemma accept_policy a s s' : handle_socket_read env a s = (Ok true, s') ->
  exists fd euid, a = Accepted fd euid /\ (check_client_uid env = false \/ euid = 0 \/ euid = getuid env).
Proof.
  unfold handle_socket_read. destruct a as [fd euid|]; [|done]. destruct (check_client_uid env) eqn:E, (Z.eqb_spec euid 0), (Z.eqb_spec (getuid env) euid); cbn [andb negb];
    intros H; try done; exists fd, euid; (split; [done|]); auto.
Qed.
End Replies.

(** ** A session *)

Module ToyAgent.
Definition samekey : SameKey (X := GoodCerts.certs) (C := Toy.toy) := {| same_public := fun _ _ => true |}.
Definition agentkeys : AgentKeys (X := GoodCerts.certs) (C := Toy.toy) := {|
  sshkey_equal := fun _ k => is_ec k; certkey_putb := fun _ => Ok [9; 9]
|}.
#[local] Existing Instance GoodCerts.certs.
#[local] Existing Instance script_reader.
#[local] Existing Instance ToyEnum.pcsc.
#[local] Existing Instance GoodCerts.keyops.
#[local] Existing Instance ToyKeys.evp.
#[local] Existing Instance ToyKeys.ecoct.
#[local] Existing Instance samekey.
#[local] Existing Instance agentkeys.

(** A second passes between two looks at the clock. *)
Definition env : surroundings (C := Toy.toy) := {|
  guid := [1]; sign_9d := false; check_client_uid := true; parent_alive_interval := 0; getuid := 1000;
  clock := fun i => 1000 * Z.of_nat i; challenge := fun _ => []; readers_listed := fun _ => true;
  generated := fun _ => Er (-1); nonces := fun _ n => zrepeat n 0; ivs := fun _ n => zrepeat n 0
|}.
(** The card: what the search asks, the certificate in slot 9A, then SELECT, the number of tries and the PIN, and
    SELECT again, whether the PIN is verified, and a signature. *)
Definition answers : list (list Z) :=
  ToyEnum.piv_card 1 ++
  [[97; 0; 144; 0]; [106; 130]; [83; 6; 112; 1; 9; 113; 1; 0; 144; 0]; [106; 130]; [106; 130]] ++
  [[97; 0; 144; 0]; [99; 195]; [144; 0]; [97; 0; 144; 0]; [144; 0]; [124; 4; 130; 2; 1; 2; 144; 0]].
Definition started : agent := snd (agent_start 9 env (agent_init [Rdr (R := script_reader) [65] 0 answers] 64 None 3)).
Definition quiet_in (fd : Z) (a : accept_result) (r : read_result) : pollfd := Pollfd fd true false a r WriteAgain.
Definition turn (pfd : list pollfd) (s : agent) : agent := snd (agent_turn 9 env (fun _ => Events pfd) false s).
Definition connected : agent := turn [quiet_in 3 (Accepted 7 1000) ReadAgain] started.
(** A client unlocks the agent, asks for a signature and locks it. *)
Definition pin : list Z := [49; 50; 51; 52; 53; 54].
Definition unlock_body : list Z := SSH_AGENTC_UNLOCK :: frame pin.
Definition sign_body : list Z := SSH2_AGENTC_SIGN_REQUEST :: frame [1; 159; 1] ++ frame [1; 2; 3] ++ be_bytes 4 0.
Definition reads (body : list Z) : list pollfd := [quiet_in 7 Refused (Read (frame body))].
Definition unlocked : agent := turn (reads unlock_body) connected.
Definition signed : agent := turn (reads sign_body) unlocked.
(** The same after the transaction has expired. *)
Definition idle : agent := snd (expire env 1000000 unlocked).
(** The second socket with a message to read, and with a request to work on. *)
Definition with_input (body : list Z) (s : agent) : agent :=
  set_sockets (<[1%nat := Sock 7 AUTH_CONNECTION (Queue (frame body ++ [0; 0]) SSHBUF_SIZE_MAX false) new_queue new_queue]> (a_sockets s)) s.
Definition with_request (body : list Z) (s : agent) : agent :=
  set_sockets (<[1%nat := Sock 7 AUTH_CONNECTION new_queue new_queue (Queue (drop 1 body) SSHBUF_SIZE_MAX false)]> (a_sockets s)) s.

Lemma request_pin body s : a_pin (with_request body s) = a_pin s.
Proof. reflexivity. Qed.
Lemma reached : reachable 9 env 64 signed.
Proof.
  eapply (reach_turn 9 env 64 (fun _ => Events (reads sign_body)) false unlocked); [|vm_compute; reflexivity].
  eapply (reach_turn 9 env 64 (fun _ => Events (reads unlock_body)) false connected); [|vm_compute; reflexivity].
  eapply (reach_turn 9 env 64 (fun _ => Events [quiet_in 3 (Accepted 7 1000) ReadAgain]) false started); [|vm_compute; reflexivity].
  eapply (reach_start 9 env 64 [Rdr (R := script_reader) [65] 0 answers] None 3). vm_compute. reflexivity.
Defined.
Lemma unlocked_pin : pin_ok 64 (a_pin unlocked).
Proof. split; [vm_compute; reflexivity|]. right. exists pin. split_and!; vm_compute; done. Qed.

(** The client got a signature; the PIN is in memory. *)
Lemma agent_invariant_witness :
  16 <= 64 /\ p_len (a_pin signed) = 6 /\
  (fun w => q_bytes (snd w)) <$> wires signed !! 1%nat = Some [0; 0; 0; 1; SSH_AGENT_SUCCESS; 0; 0; 0; 7; SSH2_AGENT_SIGN_RESPONSE; 0; 0; 0; 2; 1; 2] /\
  pin_ok 64 (a_pin signed) /\
  match s_ks (a_session signed) with
  | None => s_txnopen (a_session signed) = false /\ s_selk (a_session signed) = false
  | Some key => pt_intxn (tk_tok key) = s_txnopen (a_session signed) /\ (s_txnopen (a_session signed) = true -> s_selk (a_session signed) = true)
  end.
Proof.
  split; [apply Z.leb_le; reflexivity|]. split; [vm_compute; reflexivity|]. split; [vm_compute; reflexivity|].
  apply (agent_invariant 9 env 64 signed); [apply Z.leb_le; reflexivity|exact reached].
Defined.

(** Two more bytes have arrived after the message. *)
Lemma process_message_one_reply_witness :
  exists s', process_message 9 env 1 (with_input sign_body idle) = (Ok 0, s') /\
  exists type t, wires s' = alter (fun w => add_output (frame (type :: t)) (take_input (length (frame sign_body)) w)) 1%nat (wires (with_input sign_body idle)).
Proof.
  eexists. split; [vm_compute; reflexivity|].
  refine (proj2 (process_message_one_reply 9 env 1 (with_input sign_body idle) (Sock 7 AUTH_CONNECTION (Queue (frame sign_body ++ [0; 0]) SSHBUF_SIZE_MAX false) new_queue new_queue)
    sign_body [0; 0] 0 _ _ _ _)).
  - vm_compute. reflexivity.
  - split; [reflexivity|]. split; [apply bytesb_spec; reflexivity|]. split; apply Z.leb_le; reflexivity.
  - vm_compute. reflexivity.
Defined.


Definition lock_body : list Z := SSH_AGENTC_LOCK :: frame [120; 121].
Lemma lock_forgets_pin_witness :
  p_len (a_pin (with_request lock_body unlocked)) = 6 /\
  exists s', dispatch 9 env 1 SSH_AGENTC_LOCK (with_request lock_body unlocked) = (Ok tt, s') /\
    a_pin s' = PinStore (zrepeat 64 0) 0 card_probe_interval_nopin /\ a_session s' = a_session (with_request lock_body unlocked) /\
    a_readers s' = a_readers (with_request lock_body unlocked) /\
    wires s' = alter (add_output (frame [SSH_AGENT_SUCCESS])) 1%nat (wires (with_request lock_body unlocked)).
Proof.
  split; [vm_compute; reflexivity|].
  apply (lock_forgets_pin 9 env 64 1 SSH_AGENTC_LOCK (with_request lock_body unlocked) (Sock 7 AUTH_CONNECTION new_queue new_queue (Queue (drop 1 lock_body) SSHBUF_SIZE_MAX false))).
  - apply Z.leb_le. reflexivity.
  - rewrite request_pin. exact unlocked_pin.
  - vm_compute. reflexivity.
  - right. split; [reflexivity|]. exists [120; 121]. eexists. vm_compute. reflexivity.
  - reflexivity.
  - apply Z.leb_le. reflexivity.
Defined.

Lemma poll_is_timely_witness :
  s_txnopen (a_session unlocked) = true /\
  exists pfd timeout s', prepare_poll env unlocked = (Ok (pfd, timeout), s') /\
  0 < timeout <= p_interval (a_pin unlocked) * 1000 /\ timeout <= 120000 /\
  pfd = (fun e => (e_fd e, 0 <? zlen (q_bytes (e_output e)))) <$> filter (fun e => unused e = false) (a_sockets unlocked) /\
  forall now s1 s2, s_txntimeout (a_session s1) <= now -> expire env now s1 = (Ok tt, s2) -> s_txnopen (a_session s2) = false.
Proof.
  split; [vm_compute; reflexivity|]. eexists _, _, _. split; [vm_compute; reflexivity|].
  eapply (poll_is_timely env 64 unlocked); [exact unlocked_pin|apply Z.leb_le; reflexivity|vm_compute; reflexivity].
Defined.

(** ** Behaviours that differ from what the code means to do *)

(** A message that is announced as too long is refused, but the connection stays: the input is kept, and every later read is refused too. *)
Lemma long_message_stays :
  let s := set_sockets (<[1%nat := Sock 7 AUTH_CONNECTION (Queue [0; 64; 0; 0; 1] SSHBUF_SIZE_MAX false) new_queue new_queue]> (a_sockets idle)) idle in
  process_message 9 env 1 s = (Ok (-1), s) /\ fst (handle_conn_read 9 env 1 (Read [2]) s) = Ok true.
Proof. vm_compute. split; reflexivity. Qed.

(** Two requests in one read: only the first is answered. *)
Lemma second_request_waits :
  let s := snd (handle_conn_read 9 env 1 (Read (frame [SSH2_AGENTC_REMOVE_ALL_IDENTITIES] ++ frame [SSH2_AGENTC_REMOVE_ALL_IDENTITIES])) connected) in
  (fun w => (q_bytes (snd (fst w)), q_bytes (snd w))) <$> wires s !! 1%nat = Some (frame [SSH2_AGENTC_REMOVE_ALL_IDENTITIES], frame [SSH_AGENT_SUCCESS]).
Proof. vm_compute. reflexivity. Qed.

(** The transaction is to be closed now, or should have been before: the agent waits for the interval between two probes. *)
Lemma late_deadline_waits :
  poll_deadline env unlocked (s_txntimeout (a_session unlocked)) = 30000 /\ poll_deadline env unlocked (s_txntimeout (a_session unlocked) + 1) = 30000.
Proof. vm_compute. split; reflexivity. Qed.

(** An attestation object with another tag ends the agent. *)
Lemma attest_tag_aborts : fst (attest_chain [113; 1; 0] idle) = Panic.
Proof. vm_compute. reflexivity. Qed.

(** The box names a slot that is not known yet while a transaction is open: the agent ends. *)
Lemma rebox_aborts_in_transaction :
  fst (selk_find_token 9 (set_guidslot piv_box_new (ToyEnum.guid 1) PIV_SLOT_9C) unlocked) = Panic.
Proof. vm_compute. reflexivity. Qed.

(** A token with more retired keys than there are slots: the certificates are read again, the error is freed and returned. *)
Definition many_retired (key : tkn) : tkn := Tkn (tk_rdr key) (tk_proto key) (set_hist (Hist 21 0 None) (tk_tok key)).
Lemma freed_error_is_used :
  let s := set_tick 500 (set_readers [Rdr (R := script_reader) [65] 1 ([97; 0; 144; 0] :: List.repeat [106; 130] 30)]
             (set_session (let ss := a_session idle in with_token (many_retired <$> s_ks ss) true (s_age ss) ss) idle)) in
  fst (process_request_identities 9 env 1 s) = Fault.
Proof. vm_compute. reflexivity. Qed.
End ToyAgent.
