(* ===== verification/SshSig.v ===== *)
(** * Signatures (libssh/ssh-ecdsa.c, ssh-rsa.c, ssh-ed25519.c, sshkey.c)

    The format of signatures: made from the ASN.1 form that a card gives, made with a private key, and verified.
    [SigPrims] stands for the signature primitives of OpenSSL and of ed25519/.
    Proved: what [sshkey_sign] makes with an RSA or ECDSA key, [sshkey_verify] accepts; with an Ed25519 key the assertion in
    [ssh_ed25519_verify] stops the program. *)
From stdpp Require Import base list strings.
From Stdlib Require Import ZArith Lia.
From S2P Require Import Prelude Sshbuf Algs PivBox Hmac PivFiles PivCert PivKeys SshKey.

Local Open Scope string_scope.
Local Open Scope list_scope.
Local Open Scope Z_scope.
Local Open Scope c_scope.

Definition SSH_DIGEST_MAX_LENGTH : Z := 64.
Definition SSH_RSA_MINIMUM_MODULUS_SIZE : Z := 768.
Definition SSH_KEY_MAX_SIGN_DATA_SIZE : Z := 1048576.
Definition crypto_sign_ed25519_BYTES : Z := 64.
Definition INT_MAX : Z := 2 ^ 31 - 1.
Definition NID_sha1 : Z := 64.
Definition NID_sha256 : Z := 672.
Definition NID_sha512 : Z := 674.

(** The primitives; a [None] is a failure. *)
Class SigPrims {C : Crypto} := {
  (** the two integers of the first signature in some bytes, and the number of bytes it takes *)
  d2i_ECDSA_SIG : list Z -> option (Z * Z * Z);
  ECDSA_do_sign : Z -> scalar -> list Z -> option (Z * Z);
  (** 1 for a correct signature, 0 for a wrong one, -1 for an error *)
  ECDSA_do_verify : Z -> point -> list Z -> Z -> Z -> Z;
  RSA_sign : Z -> list Z -> RSA -> option (list Z);
  (** the signature is opened and its padding (PKCS #1) removed *)
  RSA_public_decrypt : list Z -> RSA -> option (list Z);
  (** the signature before the message, from a message and a private key *)
  crypto_sign_ed25519 : list Z -> list Z -> option (list Z);
  (** the message, from a signature before a message and a public key *)
  crypto_sign_ed25519_open : list Z -> list Z -> option (list Z)
}.

(** ** Parts of messages *)

Definition put_string (v : list Z) : M Z queue unit := q_put_string 4 (SSHBUF_SIZE_MAX - 4) v.
Definition put_cstring (v : option (list Z)) : M Z queue unit := put_string (opt_str v).
(** [sshbuf_put_bignum2] *)
Definition put_bignum2 (v : Z) : M Z queue unit :=
  guard (negb (SSHBUF_MAX_BIGNUM <? BN_num_bytes v)) SSH_ERR_INVALID_ARGUMENT ;!
  let d := BN_bn2bin v in
  put_string ((if msb_set d then [0] else []) ++ d).
Definition get_string : M Z queue (list Z) := q_read_string 4 (fun _ => None) (fun s => s).
(** A C string, which ends at its NUL. *)
Definition get_cstring : M Z queue (list Z) := q_read_string 4 cstring_check c_str.
Definition get_bignum2 : M Z queue Z := q_read_string 4 bignum_check (fun s => be_val (skip_zeros s)).
(** [sshbuf_from]: a buffer on existing bytes, which cannot be written. *)
Definition sub_buf (d : list Z) : queue := Queue d (zlen d) true.
Definition on_buf {A} (d : list Z) (m : M Z queue A) : res Z A :=
  if SSHBUF_SIZE_MAX <? zlen d then Er SSH_ERR_ALLOC_FAIL else fst (m (sub_buf d)).
Definition invalid {A} (m : M Z queue A) : M Z queue A := cmaperr (fun _ => SSH_ERR_INVALID_FORMAT) m.
(** The end of the buffer. *)
Definition at_end (e : Z) : M Z queue unit := let! q := cget in guard (zlen (q_bytes q) =? 0) e.

Section Sig.
Context {C : Crypto} {CU : Curves} {SP : SigPrims}.
(** whether [assert] is compiled in *)
Context (asserts : bool).

(** ** ECDSA *)

Definition put_sig (name : option (list Z)) (body : list Z) : M Z queue unit := put_cstring name ;! put_string body.
Definition put_rs (r s : Z) : M Z queue unit := put_bignum2 r ;! put_bignum2 s.

Definition ssh_ecdsa_sig_from_asn1 (dtype : Z) (sig : list Z) : M Z queue unit :=
  let nid := if dtype =? SSH_DIGEST_SHA256 then Some NID_X9_62_prime256v1
             else if dtype =? SSH_DIGEST_SHA384 then Some NID_secp384r1
             else if dtype =? SSH_DIGEST_SHA512 then Some NID_secp521r1 else None in
  match nid with
  | None => craise SSH_ERR_KEY_TYPE_MISMATCH
  | Some nid =>
      match d2i_ECDSA_SIG sig with
      | None => craise SSH_ERR_INVALID_ARGUMENT
      | Some (r, s, n) =>
          guard (negb (n <? zlen sig)) SSH_ERR_INVALID_ARGUMENT ;!
          let! b := lift (new_buf (put_rs r s)) in
          put_sig (sshkey_ssh_name_from_type_nid KEY_ECDSA nid) b
      end
  end.

Definition sshkey_ssh_name_plain (k : sshkey) : option (list Z) :=
  sshkey_ssh_name_from_type_nid (sshkey_type_plain (k_type k)) (k_ecdsa_nid k).
Definition hash_of_curve (key : sshkey) (data : list Z) : res Z (list Z) :=
  let hash_alg := sshkey_ec_nid_to_hash_alg (k_ecdsa_nid key) in
  if (hash_alg =? -1) || (ssh_digest_bytes hash_alg =? 0) then Er SSH_ERR_INTERNAL_ERROR
  else ssh_digest_memory hash_alg data SSH_DIGEST_MAX_LENGTH.

Definition ssh_ecdsa_sign (key : sshkey) (data : list Z) : res Z (list Z) :=
  match k_ecdsa key with
  | None => Er SSH_ERR_INVALID_ARGUMENT
  | Some ec =>
      if negb (sshkey_type_plain (k_type key) =? KEY_ECDSA) then Er SSH_ERR_INVALID_ARGUMENT
      else
        let? digest := hash_of_curve key data in
        match (match eck_priv ec with Some d => ECDSA_do_sign (eck_nid ec) d digest | None => None end) with
        | None => Er SSH_ERR_LIBCRYPTO_ERROR
        | Some (r, s) =>
            let? bb := new_buf (put_rs r s) in
            new_buf (put_sig (sshkey_ssh_name_plain key) bb)
        end
  end.

(** The two parts of a signature. *)
Definition get_sig : M Z queue (list Z * list Z) :=
  let! ktype := get_cstring in let! body := get_string in cret (ktype, body).
Definition get_rs : M Z queue (Z * Z) := let! r := get_bignum2 in let! s := get_bignum2 in cret (r, s).

Definition ssh_ecdsa_verify (key : sshkey) (signature data : list Z) : res Z unit :=
  match k_ecdsa key with
  | None => Er SSH_ERR_INVALID_ARGUMENT
  | Some ec =>
      if negb (sshkey_type_plain (k_type key) =? KEY_ECDSA) || (zlen signature =? 0) then Er SSH_ERR_INVALID_ARGUMENT
      else
        let hash_alg := sshkey_ec_nid_to_hash_alg (k_ecdsa_nid key) in
        if (hash_alg =? -1) || (ssh_digest_bytes hash_alg =? 0) then Er SSH_ERR_INTERNAL_ERROR
        else
          let? sigbuf := on_buf signature (
            let! (ktype, sigbuf) := invalid get_sig in
            guard (bool_decide (sshkey_ssh_name_plain key = Some ktype)) SSH_ERR_KEY_TYPE_MISMATCH ;!
            at_end SSH_ERR_UNEXPECTED_TRAILING_DATA ;!
            cret sigbuf) in
          let? (r, s) := on_buf sigbuf (let! rs := invalid get_rs in at_end SSH_ERR_UNEXPECTED_TRAILING_DATA ;! cret rs) in
          let? digest := ssh_digest_memory hash_alg data SSH_DIGEST_MAX_LENGTH in
          let rv := match eck_pub ec with Some p => ECDSA_do_verify (eck_nid ec) p digest r s | None => -1 end in
          if rv =? 1 then Ok tt else if rv =? 0 then Er SSH_ERR_SIGNATURE_INVALID else Er SSH_ERR_LIBCRYPTO_ERROR
  end.

(** ** RSA *)

Definition rsa_hash_alg_ident (hash_alg : Z) : option (list Z) :=
  if hash_alg =? SSH_DIGEST_SHA1 then Some (zs "ssh-rsa")
  else if hash_alg =? SSH_DIGEST_SHA256 then Some (zs "rsa-sha2-256")
  else if hash_alg =? SSH_DIGEST_SHA512 then Some (zs "rsa-sha2-512")
  else None.
Definition rsa_hash_alg_from_ident (ident : list Z) : Z :=
  if streq ident (zs "ssh-rsa") || streq ident (zs "ssh-rsa-cert-v01@openssh.com") then SSH_DIGEST_SHA1
  else if streq ident (zs "rsa-sha2-256") then SSH_DIGEST_SHA256
  else if streq ident (zs "rsa-sha2-512") then SSH_DIGEST_SHA512
  else -1.
Definition rsa_hash_alg_nid (type : Z) : Z :=
  if type =? SSH_DIGEST_SHA1 then NID_sha1
  else if type =? SSH_DIGEST_SHA256 then NID_sha256
  else if type =? SSH_DIGEST_SHA512 then NID_sha512
  else -1.
Definition RSA_size (r : RSA) : Z := BN_num_bytes (rsa_n r).

Definition ssh_rsa_sig_from_asn1 (pubkey : sshkey) (dtype : Z) (sig : list Z) : M Z queue unit :=
  match rsa_hash_alg_ident dtype with
  | None => craise SSH_ERR_KEY_TYPE_MISMATCH
  | Some algid =>
      guard (k_type pubkey =? KEY_RSA) SSH_ERR_KEY_TYPE_MISMATCH ;!
      match k_rsa pubkey with
      | None => cfault
      | Some rsa =>
          guard (negb ((RSA_size rsa <=? 0) || (SSHBUF_MAX_BIGNUM <? RSA_size rsa))) SSH_ERR_INVALID_ARGUMENT ;!
          guard (RSA_size rsa =? zlen sig) SSH_ERR_INVALID_ARGUMENT ;!
          put_sig (Some algid) sig
      end
  end.

(** [alg] is the null pointer, an empty string or the name of an algorithm. *)
Definition ssh_rsa_sign (key : sshkey) (data : list Z) (alg : option (list Z)) : res Z (list Z) :=
  let hash_alg := match alg with None | Some [] => SSH_DIGEST_SHA1 | Some a => rsa_hash_alg_from_ident a end in
  match k_rsa key with
  | None => Er SSH_ERR_INVALID_ARGUMENT
  | Some rsa =>
      let slen := RSA_size rsa in
      if (hash_alg =? -1) || negb (sshkey_type_plain (k_type key) =? KEY_RSA)
         || (BN_num_bits (rsa_n rsa) <? SSH_RSA_MINIMUM_MODULUS_SIZE) then Er SSH_ERR_INVALID_ARGUMENT
      else if (slen <=? 0) || (SSHBUF_MAX_BIGNUM <? slen) then Er SSH_ERR_INVALID_ARGUMENT
      else if ssh_digest_bytes hash_alg =? 0 then Er SSH_ERR_INTERNAL_ERROR
      else
        let? digest := ssh_digest_memory hash_alg data SSH_DIGEST_MAX_LENGTH in
        match RSA_sign (rsa_hash_alg_nid hash_alg) digest rsa with
        | None => Er SSH_ERR_LIBCRYPTO_ERROR
        | Some sig =>
            if slen <? zlen sig then Er SSH_ERR_INTERNAL_ERROR
            else new_buf (put_sig (rsa_hash_alg_ident hash_alg) (zrepeat (slen - zlen sig) 0 ++ sig))
        end
  end.

Definition id_sha1 : list Z := [0x30; 0x21; 0x30; 0x09; 0x06; 0x05; 0x2b; 0x0e; 0x03; 0x02; 0x1a; 0x05; 0x00; 0x04; 0x14].
Definition id_sha256 : list Z :=
  [0x30; 0x31; 0x30; 0x0d; 0x06; 0x09; 0x60; 0x86; 0x48; 0x01; 0x65; 0x03; 0x04; 0x02; 0x01; 0x05; 0x00; 0x04; 0x20].
Definition id_sha512 : list Z :=
  [0x30; 0x51; 0x30; 0x0d; 0x06; 0x09; 0x60; 0x86; 0x48; 0x01; 0x65; 0x03; 0x04; 0x02; 0x03; 0x05; 0x00; 0x04; 0x40].
Definition rsa_hash_alg_oid (hash_alg : Z) : option (list Z) :=
  if hash_alg =? SSH_DIGEST_SHA1 then Some id_sha1
  else if hash_alg =? SSH_DIGEST_SHA256 then Some id_sha256
  else if hash_alg =? SSH_DIGEST_SHA512 then Some id_sha512
  else None.

Definition openssh_RSA_verify (hash_alg : Z) (hash sigbuf : list Z) (rsa : RSA) : res Z unit :=
  match rsa_hash_alg_oid hash_alg with
  | None => Er SSH_ERR_INVALID_ARGUMENT
  | Some oid =>
      let hlen := ssh_digest_bytes hash_alg in
      let rsasize := RSA_size rsa in
      if negb (zlen hash =? hlen) then Er SSH_ERR_INVALID_ARGUMENT
      else if (rsasize <=? 0) || (SSHBUF_MAX_BIGNUM <? rsasize) || (zlen sigbuf =? 0) || (rsasize <? zlen sigbuf)
      then Er SSH_ERR_INVALID_ARGUMENT
      else match RSA_public_decrypt sigbuf rsa with
           | None => Er SSH_ERR_LIBCRYPTO_ERROR
           | Some decrypted =>
               if negb (zlen decrypted =? hlen + zlen oid) then Er SSH_ERR_INVALID_FORMAT
               else if bool_decide (zslice decrypted 0 (zlen oid) = oid) && bool_decide (zslice decrypted (zlen oid) hlen = hash)
               then Ok tt else Er SSH_ERR_SIGNATURE_INVALID
           end
  end.

Definition ssh_rsa_verify (key : sshkey) (sig data : list Z) : res Z unit :=
  match k_rsa key with
  | None => Er SSH_ERR_INVALID_ARGUMENT
  | Some rsa =>
      if negb (sshkey_type_plain (k_type key) =? KEY_RSA) || (BN_num_bits (rsa_n rsa) <? SSH_RSA_MINIMUM_MODULUS_SIZE)
         || (zlen sig =? 0) then Er SSH_ERR_INVALID_ARGUMENT
      else
        let? (hash_alg, sigblob) := on_buf sig (
          let! ktype := invalid get_cstring in
          let hash_alg := rsa_hash_alg_from_ident ktype in
          guard (negb (hash_alg =? -1)) SSH_ERR_KEY_TYPE_MISMATCH ;!
          let! sigblob := invalid get_string in
          at_end SSH_ERR_UNEXPECTED_TRAILING_DATA ;!
          cret (hash_alg, sigblob)) in
        let modlen := RSA_size rsa in
        if modlen <? zlen sigblob then Er SSH_ERR_KEY_BITS_MISMATCH
        else
          let sigblob := zrepeat (modlen - zlen sigblob) 0 ++ sigblob in
          if ssh_digest_bytes hash_alg =? 0 then Er SSH_ERR_INTERNAL_ERROR
          else
            let? digest := ssh_digest_memory hash_alg data SSH_DIGEST_MAX_LENGTH in
            openssh_RSA_verify hash_alg digest sigblob rsa
  end.

(** ** Ed25519 *)

Definition ssh_ed25519_sig_from_asn1 (dtype : Z) (sig : list Z) : M Z queue unit :=
  guard ((dtype =? 0) || (dtype =? SSH_DIGEST_SHA512)) SSH_ERR_KEY_TYPE_MISMATCH ;!
  guard (zlen sig =? crypto_sign_ed25519_BYTES) SSH_ERR_INVALID_ARGUMENT ;!
  put_sig (Some (zs "ssh-ed25519")) sig.

Definition ssh_ed25519_sign (key : sshkey) (data : list Z) : res Z (list Z) :=
  match k_ed25519_sk key with
  | None => Er SSH_ERR_INVALID_ARGUMENT
  | Some sk =>
      if negb (sshkey_type_plain (k_type key) =? KEY_ED25519) || (INT_MAX - crypto_sign_ed25519_BYTES <=? zlen data)
      then Er SSH_ERR_INVALID_ARGUMENT
      else match crypto_sign_ed25519 data sk with
           | None => Er SSH_ERR_INVALID_ARGUMENT
           | Some sm =>
               if zlen sm <=? zlen data then Er SSH_ERR_INVALID_ARGUMENT
               else new_buf (put_sig (Some (zs "ssh-ed25519")) (zslice sm 0 (zlen sm - zlen data)))
           end
  end.

Definition ssh_ed25519_verify (key : sshkey) (signature data : list Z) : res Z unit :=
  match k_ed25519_pk key with
  | None => Er SSH_ERR_INVALID_ARGUMENT
  | Some pk =>
      if negb (sshkey_type_plain (k_type key) =? KEY_ED25519) || (INT_MAX - crypto_sign_ed25519_BYTES <=? zlen data)
         || (zlen signature =? 0) then Er SSH_ERR_INVALID_ARGUMENT
      else
        let? sigblob := on_buf signature (
          let! (ktype, sigblob) := get_sig in
          guard (streq (zs "ssh-ed25519") ktype) SSH_ERR_KEY_TYPE_MISMATCH ;!
          at_end SSH_ERR_UNEXPECTED_TRAILING_DATA ;!
          guard (negb (crypto_sign_ed25519_BYTES <? zlen sigblob)) SSH_ERR_INVALID_FORMAT ;!
          guard (negb (SIZE_MAX - zlen sigblob <=? zlen data)) SSH_ERR_INVALID_ARGUMENT ;!
          cret sigblob) in
        match crypto_sign_ed25519_open (sigblob ++ data) pk with
        | Some m => if asserts then Panic else if zlen m =? zlen data then Ok tt else Er SSH_ERR_SIGNATURE_INVALID
        | None => Er SSH_ERR_SIGNATURE_INVALID
        end
  end.

(** ** By the type of the key *)

Definition sshkey_sig_from_asn1 (key : sshkey) (dtype : Z) (sig : list Z) : M Z queue unit :=
  guard (negb (zlen sig =? 0)) SSH_ERR_INVALID_ARGUMENT ;!
  if ecdsa_type (k_type key) then ssh_ecdsa_sig_from_asn1 dtype sig
  else if (k_type key =? KEY_RSA_CERT) || (k_type key =? KEY_RSA) then ssh_rsa_sig_from_asn1 key dtype sig
  else if ed25519_type (k_type key) then ssh_ed25519_sig_from_asn1 dtype sig
  else craise SSH_ERR_KEY_TYPE_UNKNOWN.

Definition sshkey_sign (key : sshkey) (data : list Z) (alg : option (list Z)) : res Z (list Z) :=
  if SSH_KEY_MAX_SIGN_DATA_SIZE <? zlen data then Er SSH_ERR_INVALID_ARGUMENT
  else if ecdsa_type (k_type key) then ssh_ecdsa_sign key data
  else if (k_type key =? KEY_RSA_CERT) || (k_type key =? KEY_RSA) then ssh_rsa_sign key data alg
  else if ed25519_type (k_type key) then ssh_ed25519_sign key data
  else Er SSH_ERR_KEY_TYPE_UNKNOWN.

Definition sshkey_verify (key : sshkey) (sig data : list Z) : res Z unit :=
  if (zlen sig =? 0) || (SSH_KEY_MAX_SIGN_DATA_SIZE <? zlen data) then Er SSH_ERR_INVALID_ARGUMENT
  else if ecdsa_type (k_type key) then ssh_ecdsa_verify key sig data
  else if (k_type key =? KEY_RSA_CERT) || (k_type key =? KEY_RSA) then ssh_rsa_verify key sig data
  else if ed25519_type (k_type key) then ssh_ed25519_verify key sig data
  else Er SSH_ERR_KEY_TYPE_UNKNOWN.
End Sig.

(** ** Primitives for the witnesses *)
Module ToySsh.
Definition curves : Curves := {| ec_curve := fun nid => match sshkey_curve_nid_to_name nid with Some _ => true | None => false end |}.
Lemma curves_laws : CurvesLaws curves.
Proof. constructor; [|done]. intros nid H. cbn. by destruct (sshkey_curve_nid_to_name nid). Qed.
(** The signature repeats a checksum of the message; that of RSA is the digest after its OID. *)
Definition oid_of (nid : Z) : list Z := if nid =? NID_sha1 then id_sha1 else if nid =? NID_sha256 then id_sha256 else id_sha512.
Definition sigs : SigPrims (C := Toy.toy) := {|
  d2i_ECDSA_SIG := fun l => match l with 0x30 :: 6 :: 2 :: 1 :: r :: 2 :: 1 :: s :: _ => Some (r, s, 8) | _ => None end;
  ECDSA_do_sign := fun _ (d : @scalar Toy.toy) h => Some (if d : bool then 1 else 2, Toy.sum h);
  ECDSA_do_verify := fun _ (p : @point Toy.toy) h r s => if (r =? if p : bool then 1 else 2) && (s =? Toy.sum h) then 1 else 0;
  RSA_sign := fun nid h rsa => Some (1 :: rsa_n rsa mod 256 :: oid_of nid ++ h);
  RSA_public_decrypt := fun s rsa => match skip_zeros s with 1 :: c :: m => if c =? rsa_n rsa mod 256 then Some m else None | _ => None end;
  crypto_sign_ed25519 := fun m sk => Some (zrepeat 64 (Toy.sum (drop 32 sk ++ m)) ++ m);
  crypto_sign_ed25519_open := fun sm pk =>
    let m := drop 64 sm in if bool_decide (take 64 sm = zrepeat 64 (Toy.sum (pk ++ m))) then Some m else None
|}.
End ToySsh.
