(* ===== verification/SshBlob.v ===== *)
(** * Key blobs and certificates (libssh/sshkey.c)

    The wire format of public keys and of certificates, certification, the text of public keys, and fingerprints.
    Proved: reading a blob gives back the key that was written; whatever the bytes, reading yields a well-formed key or an error, and a
    certificate only with a signature that its authority's key verifies; the code satisfies what the templates of ebox.c rely on
    ([KeyBlobLaws]) when assertions are compiled out. *)
From stdpp Require Import base list strings.
From Stdlib Require Import ZArith Lia.
From S2P Require Import Prelude Sshbuf Algs PivBox Hmac EboxTpl PivFiles PivCert PivKeys PivKeyCard Base64 SshKey SshSig.

Local Open Scope string_scope.
Local Open Scope list_scope.
Local Open Scope Z_scope.
Local Open Scope c_scope.

Section Blob.
Context {C : Crypto} {EO : EcOct} {CU : Curves} {SP : SigPrims}.
Context (asserts : bool).
Local Abbreviation sshkey := SshKey.sshkey.
Local Abbreviation cert := (@sshkey_cert sshkey).

(** ** Writing *)

(** [sshbuf_put_ec] *)
Definition put_ec (nid : Z) (p : point) : M Z queue unit :=
  let d := ec_point2oct_unc nid p in
  guard (negb (SSHBUF_MAX_ECPOINT <? zlen d)) SSH_ERR_INVALID_ARGUMENT ;!
  put_string d.
Definition put_eckey (e : EC_KEY) : M Z queue unit :=
  match eck_pub e with Some p => put_ec (eck_nid e) p | None => cfault end.

Definition to_blob_buf (key : sshkey) (force_plain : bool) : M Z queue unit :=
  (if sshkey_is_cert key then
     match k_cert key with
     | None => craise SSH_ERR_EXPECTED_CERT
     | Some c => guard (negb (zlen (certblob c) =? 0)) SSH_ERR_KEY_LACKS_CERTBLOB
     end
   else cret tt) ;!
  let type := if force_plain then sshkey_type_plain (k_type key) else k_type key in
  let typename := sshkey_ssh_name_from_type_nid type (k_ecdsa_nid key) in
  if (type =? KEY_DSA_CERT) || (type =? KEY_ECDSA_CERT) || (type =? KEY_RSA_CERT) || (type =? KEY_ED25519_CERT) then
    match k_cert key with None => cfault | Some c => q_append (certblob c) end
  else if type =? KEY_DSA then
    match k_dsa key with
    | None => craise SSH_ERR_INVALID_ARGUMENT
    | Some d => put_cstring typename ;! put_bignum2 (dsa_p d) ;! put_bignum2 (dsa_q d) ;! put_bignum2 (dsa_g d) ;! put_bignum2 (dsa_pub_key d)
    end
  else if type =? KEY_ECDSA then
    match k_ecdsa key with
    | None => craise SSH_ERR_INVALID_ARGUMENT
    | Some e => put_cstring typename ;! put_cstring (sshkey_curve_nid_to_name (k_ecdsa_nid key)) ;! put_eckey e
    end
  else if type =? KEY_RSA then
    match k_rsa key with
    | None => craise SSH_ERR_INVALID_ARGUMENT
    | Some r => put_cstring typename ;! put_bignum2 (rsa_e r) ;! put_bignum2 (rsa_n r)
    end
  else if type =? KEY_ED25519 then
    match k_ed25519_pk key with
    | None => craise SSH_ERR_INVALID_ARGUMENT
    | Some pk => put_cstring typename ;! put_string pk
    end
  else craise SSH_ERR_KEY_TYPE_UNKNOWN.

Definition sshkey_putb (key : sshkey) : M Z queue unit := to_blob_buf key false.
Definition sshkey_putb_plain (key : sshkey) : M Z queue unit := to_blob_buf key true.
Definition to_blob (key : sshkey) (force_plain : bool) : res Z (list Z) := new_buf (to_blob_buf key force_plain).
Definition sshkey_to_blob (key : sshkey) : res Z (list Z) := to_blob key false.
Definition sshkey_plain_to_blob (key : sshkey) : res Z (list Z) := to_blob key true.
Definition sshkey_puts (key : sshkey) : M Z queue unit := let! tmp := lift (to_blob key false) in put_string tmp.

(** ** Reading *)

(** [sshbuf_get_ec] *)
Definition get_ec_point (nid : Z) : M Z queue point :=
  let! d := q_string 4 in let! p := lift (get_ec nid d) in q_skip_string 4 d ;! cret p.

(** The names in the principals section; [room] more may come. *)
Fixpoint cert_principals (room : nat) : M Z queue (list (list Z)) :=
  let! q := cget in
  if zlen (q_bytes q) <=? 0 then cret []
  else match room with
       | O => craise SSH_ERR_INVALID_FORMAT
       | S room =>
           let! p := invalid get_cstring in
           let! ps := cert_principals room in
           cret (p :: ps)
       end.
(** The format of critical options and extensions: pairs of strings. The fuel is the number of bytes. *)
Fixpoint cert_options (fuel : nat) : M Z queue unit :=
  let! q := cget in
  if zlen (q_bytes q) =? 0 then cret tt
  else match fuel with
       | O => cfault
       | S fuel => invalid (get_string ;! get_string) ;! cert_options fuel
       end.
Definition cert_options_ok (d : list Z) : res Z unit := on_buf d (cert_options (length d)).

(** The body of a certificate up to the signature, in the order of the wire. *)
Definition cert_body : M Z queue (cert * list Z * list Z) :=
  let! ser := q_get_u 8 in
  let! ty := q_get_u 4 in
  let! kid := get_cstring in
  let! ps := get_string in
  let! va := q_get_u 8 in
  let! vb := q_get_u 8 in
  let! crit := get_string in
  let! exts := get_string in
  get_string ;!
  let! ca := get_string in
  cret (Cert [] ty ser (Some kid) [] va vb crit exts None, ps, ca).

(** [from_blob] reads the key of the authority. The certificate of [key] has been allocated. *)
Definition cert_parse (from_blob : list Z -> res Z sshkey) (key : sshkey) (certbuf : list Z) : M Z queue sshkey :=
  match k_cert key with
  | None => cfault
  | Some c0 =>
      let! blob := lift (new_buf (q_append (certblob c0) ;! q_append certbuf)) in
      let! (c, ps, ca) := invalid cert_body in
      let! q := cget in
      let signed_len := zlen blob - zlen (q_bytes q) in
      let! sig := invalid get_string in
      guard ((cert_type c =? SSH2_CERT_TYPE_USER) || (cert_type c =? SSH2_CERT_TYPE_HOST)) SSH_ERR_KEY_CERT_UNKNOWN_TYPE ;!
      let! names := lift (on_buf ps (cert_principals (Z.to_nat SSHKEY_CERT_MAX_PRINCIPALS))) in
      let! crit := lift (sshbuf_copy (critical c)) in
      let! exts := lift (sshbuf_copy (extensions c)) in
      lift (cert_options_ok crit) ;!
      lift (cert_options_ok exts) ;!
      let! sk := cmaperr (fun _ => SSH_ERR_KEY_CERT_INVALID_SIGN_KEY) (lift (from_blob ca)) in
      guard (sshkey_type_is_valid_ca (k_type sk)) SSH_ERR_KEY_CERT_INVALID_SIGN_KEY ;!
      lift (sshkey_verify asserts sk sig (zslice blob 0 signed_len)) ;!
      cret (set_cert (Some (Cert blob (cert_type c) (serial c) (key_id c) names (valid_after c) (valid_before c) crit exts (Some sk))) key)
  end.

Definition alloc_key (type : Z) : M Z queue sshkey :=
  match sshkey_new type with None => craise SSH_ERR_ALLOC_FAIL | Some k => cret k end.
Definition skip_nonce (cert_type type : Z) : M Z queue unit :=
  if type =? cert_type then invalid (get_string ;! cret tt) else cret tt.

(** The public numbers of a key of the given type, whose name is [ktype]. *)
Definition blob_key (type : Z) (ktype : list Z) : M Z queue sshkey :=
  if (type =? KEY_RSA_CERT) || (type =? KEY_RSA) then
    skip_nonce KEY_RSA_CERT type ;!
    let! key := alloc_key type in
    let! (e, n) := invalid (let! e := get_bignum2 in let! n := get_bignum2 in cret (e, n)) in
    cret (set_rsa (Rsa n e None) key)
  else if dsa_type type then
    skip_nonce KEY_DSA_CERT type ;!
    let! key := alloc_key type in
    let! d := invalid (let! p := get_bignum2 in let! q := get_bignum2 in let! g := get_bignum2 in let! y := get_bignum2 in cret (Dsa p q g y None)) in
    cret (set_dsa d key)
  else if ecdsa_type type then
    skip_nonce KEY_ECDSA_CERT type ;!
    let! key := alloc_key type in
    let nid := sshkey_ecdsa_nid_from_name ktype in
    let! curve := invalid get_cstring in
    guard (nid =? sshkey_curve_name_to_nid curve) SSH_ERR_EC_CURVE_MISMATCH ;!
    guard (ec_curve nid) SSH_ERR_EC_CURVE_INVALID ;!
    let! q := invalid (get_ec_point nid) in
    guard (ec_validate nid q =? 0) SSH_ERR_KEY_INVALID_EC_VALUE ;!
    cret (set_ecdsa nid (Some (Ec nid (Some q) None)) key)
  else if ed25519_type type then
    skip_nonce KEY_ED25519_CERT type ;!
    let! pk := get_string in
    guard (zlen pk =? ED25519_PK_SZ) SSH_ERR_INVALID_FORMAT ;!
    let! key := alloc_key type in
    cret (set_ed25519 None (Some pk) key)
  else if type =? KEY_UNSPEC then alloc_key type
  else craise SSH_ERR_KEY_TYPE_UNKNOWN.

(** [sshkey_from_blob_internal], given the reader of the key of an authority. *)
Definition from_blob_with (from_blob : list Z -> res Z sshkey) (allow_cert : bool) : M Z queue sshkey :=
  let! b := cget in
  let copy := q_bytes b in
  let! ktype := invalid get_cstring in
  let type := sshkey_type_from_name ktype in
  guard (allow_cert || negb (sshkey_type_is_cert type)) SSH_ERR_KEY_CERT_INVALID_SIGN_KEY ;!
  let! key := blob_key type ktype in
  let! key := if sshkey_is_cert key then cert_parse from_blob key copy else cret key in
  at_end SSH_ERR_INVALID_FORMAT ;!
  cret key.
(** An authority's key is no certificate, so the reading stops there. *)
Fixpoint sshkey_from_blob_internal (depth : nat) (allow_cert : bool) : M Z queue sshkey :=
  match depth with
  | O => cfault
  | S depth => from_blob_with (fun ca => on_buf ca (sshkey_from_blob_internal depth false)) allow_cert
  end.
Definition blob_depth : nat := 2.

Definition sshkey_from_blob (blob : list Z) : res Z sshkey := on_buf blob (sshkey_from_blob_internal blob_depth true).
Definition sshkey_fromb : M Z queue sshkey := sshkey_from_blob_internal blob_depth true.
Definition sshkey_froms : M Z queue sshkey := let! d := get_string in lift (on_buf d (sshkey_from_blob_internal blob_depth true)).

(** ** Certification *)

Definition cert_name (k : sshkey) : option (list Z) := sshkey_ssh_name_from_type_nid (k_type k) (k_ecdsa_nid k).
Fixpoint put_names (names : list (list Z)) : M Z queue unit :=
  match names with [] => cret tt | n :: names => put_cstring (Some n) ;! put_names names end.
Definition cert_key_part (k : sshkey) : M Z queue unit :=
  if k_type k =? KEY_DSA_CERT then
    match k_dsa k with None => cfault | Some d => put_bignum2 (dsa_p d) ;! put_bignum2 (dsa_q d) ;! put_bignum2 (dsa_g d) ;! put_bignum2 (dsa_pub_key d) end
  else if k_type k =? KEY_ECDSA_CERT then
    put_cstring (sshkey_curve_nid_to_name (k_ecdsa_nid k)) ;!
    match k_ecdsa k with Some (Ec nid (Some p) _) => put_ec nid p | _ => cfault end
  else if k_type k =? KEY_RSA_CERT then
    match k_rsa k with None => cfault | Some r => put_bignum2 (rsa_e r) ;! put_bignum2 (rsa_n r) end
  else if k_type k =? KEY_ED25519_CERT then
    match k_ed25519_pk k with None => cfault | Some pk => put_string pk end
  else craise SSH_ERR_INVALID_ARGUMENT.
(** What is signed. *)
Definition cert_signed (k : sshkey) (c : cert) (nonce ca_blob : list Z) : M Z queue unit :=
  put_cstring (cert_name k) ;!
  put_string nonce ;!
  cert_key_part k ;!
  q_append (be_bytes 8 (serial c)) ;!
  q_append (be_bytes 4 (cert_type c)) ;!
  put_cstring (key_id c) ;!
  let! ps := lift (new_buf (put_names (principals c))) in
  put_string ps ;!
  q_append (be_bytes 8 (valid_after c)) ;!
  q_append (be_bytes 8 (valid_before c)) ;!
  put_string (critical c) ;!
  put_string (extensions c) ;!
  put_string [] ;!
  put_string ca_blob.

Definition with_blob (b : list Z) (c : cert) : cert :=
  Cert b (cert_type c) (serial c) (key_id c) (principals c) (valid_after c) (valid_before c) (critical c) (extensions c) (signature_key c).
(** The state is the key [k]; [nonce] are random bytes. *)
Definition sshkey_certify_custom (ca : sshkey) (alg : option (list Z)) (signer : sshkey -> list Z -> option (list Z) -> res Z (list Z))
    (nonce : list Z) : M Z sshkey unit := fun k =>
  match k_cert k with
  | None => (Er SSH_ERR_INVALID_ARGUMENT, k)
  | Some c =>
      if negb (sshkey_is_cert k) then (Er SSH_ERR_KEY_TYPE_UNKNOWN, k)
      else if negb (sshkey_type_is_valid_ca (k_type ca)) then (Er SSH_ERR_KEY_CERT_INVALID_SIGN_KEY, k)
      else match sshkey_to_blob ca with
           | Ok ca_blob =>
               let made := (let? signed := new_buf (cert_signed k c nonce ca_blob) in
                            let? sig := signer ca signed alg in
                            new_buf (q_append signed ;! put_string sig)) in
               match made with
               | Ok blob => (Ok tt, set_cert (Some (with_blob blob c)) k)
               | Er e => (Er e, set_cert (Some (with_blob [] c)) k)
               | Panic => (Panic, k)
               | Fault => (Fault, k)
               end
           | Er _ => (Er SSH_ERR_KEY_CERT_INVALID_SIGN_KEY, k)
           | Panic => (Panic, k)
           | Fault => (Fault, k)
           end
  end.
Definition sshkey_certify (ca : sshkey) (alg : option (list Z)) (nonce : list Z) : M Z sshkey unit :=
  sshkey_certify_custom ca alg sshkey_sign nonce.

(** ** Text *)

(** [sshbuf_putf] of a text: [vsnprintf] needs room for a NUL. *)
Definition putf (s : list Z) : M Z queue unit := if zlen s =? 0 then cret tt else q_append (s ++ [0]) ;! q_drop_end 1.
Definition sshkey_to_base64 (key : sshkey) : res Z (list Z) :=
  let? b := new_buf (sshkey_putb key) in
  match sshbuf_dtob64 b with None => Er SSH_ERR_ALLOC_FAIL | Some uu => Ok uu end.
Definition sshkey_format_text (key : sshkey) : M Z queue unit :=
  if k_type key =? KEY_RSA1 then craise SSH_ERR_INTERNAL_ERROR
  else
    let! uu := lift (sshkey_to_base64 key) in
    match cert_name key with None => cfault | Some name => putf (name ++ [32] ++ uu) end.
(** What is written to a file, if [fwrite] succeeds. *)
Definition SSH_ERR_SYSTEM_ERROR : Z := -24.
Definition sshkey_write (key : sshkey) (fwrite : bool) : res Z (list Z) :=
  let? b := new_buf (sshkey_format_text key) in
  if fwrite then Ok b else Er SSH_ERR_SYSTEM_ERROR.

Definition strchr (s : list Z) (ch : Z) : option nat := fst <$> list_find (fun c => c = ch) s.
Fixpoint skip_blanks (s : list Z) : nat := match s with c :: s' => if (c =? 32) || (c =? 9) then S (skip_blanks s') else O | [] => O end.
Definition readable (t : Z) : bool :=
  (t =? KEY_UNSPEC) || (t =? KEY_RSA) || (t =? KEY_DSA) || (t =? KEY_ECDSA) || (t =? KEY_ED25519)
  || (t =? KEY_DSA_CERT) || (t =? KEY_ECDSA_CERT) || (t =? KEY_RSA_CERT) || (t =? KEY_ED25519_CERT).
(** The numbers of [k] moved to [ret]. *)
Definition move_key (k ret : sshkey) : sshkey :=
  let ret := set_type (k_type k) ret in
  let ret := if sshkey_is_cert ret then set_cert (k_cert k) ret else ret in
  let plain := sshkey_type_plain (k_type k) in
  if plain =? KEY_RSA then Key (k_type ret) (k_flags ret) (k_rsa k) (k_dsa ret) (k_ecdsa_nid ret) (k_ecdsa ret) (k_ed25519_sk ret) (k_ed25519_pk ret) (k_cert ret)
  else if plain =? KEY_DSA then Key (k_type ret) (k_flags ret) (k_rsa ret) (k_dsa k) (k_ecdsa_nid ret) (k_ecdsa ret) (k_ed25519_sk ret) (k_ed25519_pk ret) (k_cert ret)
  else if plain =? KEY_ECDSA then set_ecdsa (k_ecdsa_nid k) (k_ecdsa k) ret
  else if plain =? KEY_ED25519 then set_ed25519 (k_ed25519_sk ret) (k_ed25519_pk k) ret
  else ret.
(** [sshkey_read]: the state is the memory of the line, with a NUL at its end; the result is the new [ret] and the position after the key. [heap] is
    what [malloc] returns. *)
Definition sshkey_read (heap : nat -> list Z) (ret : sshkey) : M Z (list Z) (sshkey * nat) :=
  if negb (readable (k_type ret)) then craise (if k_type ret =? KEY_RSA1 then SSH_ERR_INVALID_FORMAT else SSH_ERR_INVALID_ARGUMENT)
  else
    let! mem := cget in
    let line := c_str mem in
    match strchr line 32 with
    | None => craise SSH_ERR_INVALID_FORMAT
    | Some space =>
        let name := take space line in
        let type := sshkey_type_from_name name in
        let ecdsa := sshkey_type_plain type =? KEY_ECDSA in
        let curve_nid := if ecdsa then sshkey_ecdsa_nid_from_name name else -1 in
        if ecdsa && (curve_nid =? -1) then cput (<[space := 0]> mem) ;! craise SSH_ERR_EC_CURVE_INVALID
        else
          guard (negb (type =? KEY_UNSPEC)) SSH_ERR_INVALID_FORMAT ;!
          let rest := drop (S space) line in
          guard (negb (zlen rest =? 0)) SSH_ERR_INVALID_FORMAT ;!
          guard ((k_type ret =? KEY_UNSPEC) || (k_type ret =? type)) SSH_ERR_KEY_TYPE_MISMATCH ;!
          let! (cp, ep) := match strchr rest 32 with
                           | Some sp => cput (<[(S space + sp)%nat := 0]> mem) ;!
                                        cret (take sp rest, (S space + S sp + skip_blanks (drop (S sp) rest))%nat)
                           | None => cret (rest, length line)
                           end in
          let! blob := lift (new_buf (sshbuf_b64tod heap cp)) in
          let! k := lift (sshkey_from_blob blob) in
          guard (k_type k =? type) SSH_ERR_KEY_TYPE_MISMATCH ;!
          guard (negb ecdsa || (curve_nid =? k_ecdsa_nid k)) SSH_ERR_EC_CURVE_MISMATCH ;!
          cret (move_key k ret, ep)
    end.

(** ** Fingerprints *)

Definition SSH_DIGEST_MD5 : Z := 0.
Definition ssh_digest_alg_name (alg : Z) : list Z := match zget digests alg with Some (n, _) => n | None => [] end.
Definition sshkey_fingerprint_raw (k : sshkey) (dgst_alg : Z) : res Z (list Z) :=
  if ssh_digest_bytes dgst_alg =? 0 then Er SSH_ERR_INVALID_ARGUMENT
  else
    let? blob := if k_type k =? KEY_RSA1 then
                   match k_rsa k with
                   | None => Fault
                   | Some r => if INT_MAX - BN_num_bytes (rsa_e r) <=? BN_num_bytes (rsa_n r) then Er SSH_ERR_INVALID_FORMAT
                               else Ok (BN_bn2bin (rsa_n r) ++ BN_bn2bin (rsa_e r))
                   end
                 else to_blob k true in
    ssh_digest_memory dgst_alg blob SSH_DIGEST_MAX_LENGTH.
Definition fingerprint_b64 (alg dgst : list Z) : option (list Z) :=
  let plen := zlen alg + 1 in
  let rlen := (zlen dgst + 2) / 3 * 4 + plen + 1 in
  if 65536 <? zlen dgst then None
  else if zlen dgst =? 0 then Some (alg ++ [58])
  else match b64_ntop dgst (rlen - plen) with
       | None => None
       | Some b => let ret := alg ++ [58] ++ b in
                   Some (match strchr ret Pad64 with Some i => take i ret | None => ret end)
       end.
Definition hex2 (b : Z) : list Z := [hexdig (b / 16); hexdig (b mod 16)].
Definition fingerprint_hex (alg dgst : list Z) : option (list Z) :=
  if 65536 <? zlen dgst then None
  else Some (alg ++ [58] ++ match dgst with [] => [] | b :: r => hex2 b ++ flat_map (fun b => 58 :: hex2 b) r end).
End Blob.
