(* ===== verification/SshPub.v ===== *)
(** * Public keys in messages

    What a key holds as a value ([pub]), the bytes of its blob, and that the writers and readers of [SshBlob] turn one into the other.
    The combinators [writes] and [reads] do for queues what [puts] and [gets] of [Sshbuf] do for buffers. *)
From stdpp Require Import base list strings.
From Stdlib Require Import ZArith Lia.
From S2P Require Import Prelude Sshbuf Algs PivBox Hmac EboxTpl PivFiles PivCert PivKeys PivKeyCard Base64 SshKey SshSig SshBlob.

Local Open Scope string_scope.
Local Open Scope list_scope.
Local Open Scope Z_scope.
Local Open Scope c_scope.

(** ** Messages on queues *)

Definition writes (m : M Z queue unit) (bs : list Z) : Prop :=
  forall q, q_ro q = false -> zlen (q_bytes q) + zlen bs <= q_max q -> m q = (Ok tt, Queue (q_bytes q ++ bs) (q_max q) false).
Definition reads {A} (m : M Z queue A) (bs : list Z) (v : A) : Prop :=
  forall rest max ro, m (Queue (bs ++ rest) max ro) = (Ok v, Queue rest max ro).

Lemma writes_append v : writes (q_append v) v.
Proof. intros q Hr Hl. unfold q_append, cbind, cget, guard. rewrite Hr. cbn. by rewrite (proj2 (Z.leb_le _ _) Hl). Qed.
Lemma writes_ret : writes (cret tt) [].
Proof. intros [b m r] Hr _. cbn in *. by rewrite app_nil_r, Hr. Qed.
Lemma writes_seq m1 m2 a b : writes m1 a -> writes m2 b -> writes (m1 ;! m2) (a ++ b).
Proof.
  intros H1 H2 q Hr Hl. rewrite zlen_app in Hl. pose proof (zlen_nonneg b).
  rewrite (cbind_ok _ _ _ _ _ (H1 q Hr ltac:(lia))). rewrite H2 by (cbn [q_bytes q_max q_ro]; rewrite ?zlen_app; done || lia).
  cbn. by rewrite app_assoc.
Qed.
Lemma writes_guard c e m bs : c = true -> writes m bs -> writes (guard c e ;! m) bs.
Proof. by intros ->. Qed.
Lemma writes_lift {A} (r : res Z A) a (f : A -> M Z queue unit) bs : r = Ok a -> writes (f a) bs -> writes (let! x := lift r in f x) bs.
Proof. by intros ->. Qed.
Lemma writes_string v : zlen v <= SSHBUF_SIZE_MAX - 4 -> writes (put_string v) (str32 v).
Proof. intros Hl. apply writes_guard; [apply negb_true_iff, Z.ltb_ge; lia|apply writes_append]. Qed.
Lemma new_buf_writes m bs : writes m bs -> zlen bs <= SSHBUF_SIZE_MAX -> new_buf m = Ok bs.
Proof. intros H Hl. unfold new_buf. by rewrite H. Qed.

Lemma rd_bind {A B} (m : M Z queue A) (f : A -> M Z queue B) a b v w :
  reads m a v -> reads (f v) b w -> reads (let! x := m in f x) (a ++ b) w.
Proof. intros H1 H2 rest max ro. rewrite <- app_assoc. rewrite (cbind_ok _ _ _ _ _ (H1 _ _ _)). apply H2. Qed.
Lemma rd_ret {A} (v : A) : reads (cret v) [] v.
Proof. done. Qed.
Lemma reads_last {A B} (m : M Z queue A) (f : A -> M Z queue B) a v w :
  reads m a v -> reads (f v) [] w -> reads (let! x := m in f x) a w.
Proof. intros. rewrite <- (app_nil_r a). by eapply rd_bind. Qed.
Lemma rd_guard {A} c e (m : M Z queue A) bs v : c = true -> reads m bs v -> reads (guard c e ;! m) bs v.
Proof. by intros ->. Qed.
Lemma reads_lift {A B} (r : res Z A) a (f : A -> M Z queue B) bs v : r = Ok a -> reads (f a) bs v -> reads (let! x := lift r in f x) bs v.
Proof. by intros ->. Qed.
Lemma reads_invalid {A} (m : M Z queue A) bs v : reads m bs v -> reads (invalid m) bs v.
Proof. intros H rest max ro. unfold invalid, cmaperr. by rewrite H. Qed.
Lemma reads_str {A} chk (f : list Z -> A) s :
  zlen s <= SSHBUF_SIZE_MAX - 4 -> chk s = None -> reads (q_read_string 4 chk f) (str32 s) (f s).
Proof.
  intros Hl Hc rest max ro. pose proof (zlen_nonneg s). apply q_read_string_app; [|exact Hl|exact Hc].
  change (256 ^ Z.of_nat 4) with 4294967296. rewrite size_max_eq in Hl. lia.
Qed.
Lemma rd_string s : zlen s <= SSHBUF_SIZE_MAX - 4 -> reads get_string (str32 s) s.
Proof. intros. by apply reads_str. Qed.
Lemma reads_cstring s : zlen s <= SSHBUF_SIZE_MAX - 4 -> no_nul s = true -> reads get_cstring (str32 s) s.
Proof.
  intros Hl Hn. destruct (no_nul_c_str s Hn) as [Hc Hi]. unfold get_cstring. rewrite <- Hc at 2. apply reads_str; [done|].
  unfold cstring_check. by rewrite Hi.
Qed.
Lemma reads_u k v : 0 <= v < 256 ^ Z.of_nat k -> reads (q_get_u k) (be_bytes k v) v.
Proof.
  intros Hv rest max ro. unfold q_get_u, cbind. rewrite <- (zlen_be_bytes k v), q_take_app. cbn.
  by rewrite be_val_be_bytes, Z.mod_small by lia.
Qed.
Lemma on_buf_reads {A} (m : M Z queue A) bs v : reads m bs v -> zlen bs <= SSHBUF_SIZE_MAX -> on_buf bs m = Ok v.
Proof.
  intros H Hl. unfold on_buf, sub_buf. replace (_ <? _) with false by lia. rewrite <- (app_nil_r bs) at 1. by rewrite H.
Qed.
(** A message that is the whole of the buffer, and what follows. *)
Lemma on_buf_then {A B} (m : M Z queue A) (f : A -> M Z queue B) bs v :
  reads m bs v -> zlen bs <= SSHBUF_SIZE_MAX -> on_buf bs (let! x := m in f x) = fst (f v (Queue [] (zlen bs) true)).
Proof.
  intros H Hl. unfold on_buf, sub_buf. replace (_ <? _) with false by lia. rewrite <- (app_nil_r bs) at 1.
  by rewrite (cbind_ok _ _ _ _ _ (H [] _ _)).
Qed.

(** ** Integers *)

Definition bn_mpint (v : Z) : list Z := (if msb_set (BN_bn2bin v) then [0] else []) ++ BN_bn2bin v.
Definition bn_ok (v : Z) : Prop := 0 <= v /\ BN_num_bytes v <= SSHBUF_MAX_BIGNUM.
Definition bn_field (v : Z) : list Z := str32 (bn_mpint v).

Lemma BN_num_bytes_nonneg v : 0 <= BN_num_bytes v.
Proof.
  unfold BN_num_bytes, BN_num_bits. apply Z.div_pos; [|lia]. destruct (v =? 0); [lia|]. pose proof (Z.log2_nonneg (Z.abs v)). lia.
Qed.
Lemma BN_bound v : Z.abs v < 256 ^ BN_num_bytes v.
Proof.
  unfold BN_num_bytes, BN_num_bits. destruct (Z.eqb_spec v 0) as [->|Hv]; [done|].
  assert (0 < Z.abs v) as H by lia. pose proof (Z.log2_nonneg (Z.abs v)) as Hl.
  change 256 with (2 ^ 8). rewrite <- Z.pow_mul_r; [|lia|apply Z.div_pos; lia].
  apply Z.log2_lt_pow2; [done|]. pose proof (Z.div_mod (Z.log2 (Z.abs v) + 1 + 7) 8).
  pose proof (Z.mod_pos_bound (Z.log2 (Z.abs v) + 1 + 7) 8). lia.
Qed.
Lemma zlen_bn2bin v : zlen (BN_bn2bin v) = BN_num_bytes v.
Proof. unfold BN_bn2bin. rewrite zlen_be_bytes. pose proof (BN_num_bytes_nonneg v). lia. Qed.
Lemma be_val_bn2bin v : be_val (BN_bn2bin v) = Z.abs v.
Proof.
  unfold BN_bn2bin. rewrite be_val_be_bytes by lia. pose proof (BN_num_bytes_nonneg v). rewrite Z2Nat.id by lia.
  apply Z.mod_small. pose proof (BN_bound v). lia.
Qed.
Lemma bn_mpint_facts v : bn_ok v ->
  zlen (bn_mpint v) <= 2049 /\ bignum_check (bn_mpint v) = None /\ be_val (skip_zeros (bn_mpint v)) = v.
Proof.
  intros [H0 Hn]. change SSHBUF_MAX_BIGNUM with 2048 in Hn. pose proof (zlen_bn2bin v) as Hl. rewrite be_val_skip_zeros.
  unfold bn_mpint, bignum_check. change (SSHBUF_MAX_BIGNUM + 1) with 2049.
  destruct (msb_set (BN_bn2bin v)) eqn:Hm; cbn [app].
  - rewrite zlen_cons. change (msb_set (0 :: BN_bn2bin v)) with false. cbn match. change (negb (0 =? 0)) with false.
    rewrite andb_false_r. replace (_ <? _) with false by lia. split_and!; [lia|done|].
    change (be_val (0 :: BN_bn2bin v)) with (be_val (BN_bn2bin v)). rewrite be_val_bn2bin. lia.
  - rewrite Hm. replace (_ <? _) with false by lia. replace (_ =? _) with false by lia. split_and!; [lia|done|].
    rewrite be_val_bn2bin. lia.
Qed.
Lemma writes_bignum2 v : bn_ok v -> writes (put_bignum2 v) (bn_field v).
Proof.
  intros H. destruct (bn_mpint_facts v H) as (Hl & _). destruct H as [H0 Hn].
  apply writes_guard; [apply negb_true_iff, Z.ltb_ge; lia|]. apply (writes_string (bn_mpint v)). rewrite size_max_eq. lia.
Qed.
Lemma reads_bignum2 v : bn_ok v -> reads get_bignum2 (bn_field v) v.
Proof.
  intros H. destruct (bn_mpint_facts v H) as (Hl & Hc & Hv). unfold get_bignum2. rewrite <- Hv at 2.
  apply (reads_str bignum_check (fun s => be_val (skip_zeros s))); [rewrite size_max_eq; lia|done].
Qed.
Lemma zlen_bn_field v : bn_ok v -> zlen (bn_field v) <= 2053.
Proof. intros H. destruct (bn_mpint_facts v H) as (Hl & _). unfold bn_field. rewrite zlen_str32. lia. Qed.

(** ** What a public key holds *)

Section Pub.
Context {C : Crypto} {EO : EcOct} {CU : Curves}.
Local Abbreviation sshkey := SshKey.sshkey.
Local Abbreviation cert := (@sshkey_cert sshkey).

Inductive pub := PRsa (e n : Z) | PDsa (p q g y : Z) | PEc (nid : Z) (q : point) | PEd (pk : list Z).
Definition pub_typ (certified : bool) (u : pub) : Z :=
  match u with
  | PRsa _ _ => if certified then KEY_RSA_CERT else KEY_RSA
  | PDsa _ _ _ _ => if certified then KEY_DSA_CERT else KEY_DSA
  | PEc _ _ => if certified then KEY_ECDSA_CERT else KEY_ECDSA
  | PEd _ => if certified then KEY_ED25519_CERT else KEY_ED25519
  end.
Definition pub_nid (u : pub) : Z := match u with PEc nid _ => nid | _ => -1 end.
Definition certified (c : option cert) : bool := match c with Some _ => true | None => false end.
(** The key with these numbers, no private ones, and perhaps a certificate. *)
Definition pub_key (c : option cert) (u : pub) : sshkey :=
  Key (pub_typ (certified c) u) 0
    (match u with PRsa e n => Some (Rsa n e None) | _ => None end)
    (match u with PDsa p q g y => Some (Dsa p q g y None) | _ => None end)
    (pub_nid u)
    (match u with PEc nid q => Some (Ec nid (Some q) None) | _ => None end)
    None
    (match u with PEd pk => Some pk | _ => None end) c.
(** [k] holds the numbers [u], whatever else it holds. *)
Definition has_pub (k : sshkey) (u : pub) : Prop :=
  match u with
  | PRsa e n => exists pr, k_rsa k = Some (Rsa n e pr)
  | PDsa p q g y => exists pr, k_dsa k = Some (Dsa p q g y pr)
  | PEc nid q => k_ecdsa_nid k = nid /\ exists pr, k_ecdsa k = Some (Ec nid (Some q) pr)
  | PEd pk => k_ed25519_pk k = Some pk
  end.
Definition pub_ok (u : pub) : Prop :=
  match u with
  | PRsa e n => bn_ok e /\ bn_ok n
  | PDsa p q g y => bn_ok p /\ bn_ok q /\ bn_ok g /\ bn_ok y
  | PEc nid q => sshkey_curve_nid_to_name nid <> None /\ ec_validate nid q = 0
  | PEd pk => zlen pk = ED25519_PK_SZ
  end.

Definition type_name (t nid : Z) : list Z := default [] (sshkey_ssh_name_from_type_nid t nid).
Definition pub_name (certd : bool) (u : pub) : list Z := type_name (pub_typ certd u) (pub_nid u).
Definition pub_body (u : pub) : list Z :=
  match u with
  | PRsa e n => bn_field e ++ bn_field n
  | PDsa p q g y => bn_field p ++ bn_field q ++ bn_field g ++ bn_field y
  | PEc nid q => str32 (default [] (sshkey_curve_nid_to_name nid)) ++ str32 (ec_point2oct_unc nid q)
  | PEd pk => str32 pk
  end.
Definition pub_blob (u : pub) : list Z := str32 (pub_name false u) ++ pub_body u.

Lemma curve_cases nid : sshkey_curve_nid_to_name nid <> None ->
  nid = NID_X9_62_prime256v1 \/ nid = NID_secp384r1 \/ nid = NID_secp521r1.
Proof.
  unfold sshkey_curve_nid_to_name. destruct (Z.eqb_spec nid NID_X9_62_prime256v1); [by left|].
  destruct (Z.eqb_spec nid NID_secp384r1); [by right; left|]. destruct (Z.eqb_spec nid NID_secp521r1); [by right; right|done].
Qed.

Record good_name (certd : bool) (u : pub) (name : list Z) : Prop := {
  gn_some : sshkey_ssh_name_from_type_nid (pub_typ certd u) (pub_nid u) = Some name;
  gn_type : sshkey_type_from_name name = pub_typ certd u;
  gn_nul : no_nul name = true;
  gn_len : zlen name <= 100;
  gn_nid : forall nid q, u = PEc nid q -> sshkey_ecdsa_nid_from_name name = nid
}.
Lemma pub_name_good certd u : pub_ok u -> good_name certd u (pub_name certd u).
Proof.
  intros Hu. destruct u as [e n|p q g y|nid q|pk].
  1, 2, 4: destruct certd; constructor; first [reflexivity | discriminate | by intros].
  destruct Hu as [Hn _]. destruct (curve_cases nid Hn) as [-> | [-> | ->]]; destruct certd; constructor;
    first [reflexivity | discriminate | intros ? ? [= <- _]; reflexivity].
Qed.
Lemma curve_name_facts nid : sshkey_curve_nid_to_name nid <> None ->
  exists name, sshkey_curve_nid_to_name nid = Some name /\ sshkey_curve_name_to_nid name = nid /\ no_nul name = true /\ zlen name <= 100.
Proof.
  intros H. destruct (curve_cases nid H) as [-> | [-> | ->]]; eexists; (split_and!; [reflexivity|reflexivity|reflexivity|discriminate]).
Qed.

Context {OL : EcOctLaws EO} {CL : CurvesLaws CU}.

Lemma str_limit n : n <= 2049 -> n <= SSHBUF_SIZE_MAX - 4.
Proof. rewrite size_max_eq. lia. Qed.
Lemma point_len nid q : zlen (ec_point2oct_unc nid q) <= 2049.
Proof. pose proof (unc_len nid q). change SSHBUF_MAX_ECPOINT with 133 in *. lia. Qed.

Lemma zlen_pub_body u : pub_ok u -> zlen (pub_body u) <= 8300.
Proof.
  destruct u as [e n|p q g y|nid q|pk]; cbn [pub_ok pub_body]; rewrite ?zlen_app.
  - intros [H1 H2]. pose proof (zlen_bn_field e H1). pose proof (zlen_bn_field n H2). lia.
  - intros (H1 & H2 & H3 & H4). pose proof (zlen_bn_field p H1). pose proof (zlen_bn_field q H2).
    pose proof (zlen_bn_field g H3). pose proof (zlen_bn_field y H4). lia.
  - intros [H _]. destruct (curve_name_facts nid H) as (name & -> & _ & _ & Hl). change (default [] (Some name)) with name. rewrite !zlen_str32.
    pose proof (point_len nid q). lia.
  - rewrite zlen_str32. unfold ED25519_PK_SZ. lia.
Qed.

Lemma writes_ec nid q : writes (put_ec nid q) (str32 (ec_point2oct_unc nid q)).
Proof.
  pose proof (unc_len nid q). apply writes_guard; [apply negb_true_iff, Z.ltb_ge; lia|]. apply writes_string, str_limit, point_len.
Qed.
Lemma writes_cstring name : no_nul name = true -> zlen name <= 2049 -> writes (put_cstring (Some name)) (str32 name).
Proof. intros Hn Hl. unfold put_cstring, opt_str. rewrite (proj1 (no_nul_c_str name Hn)). by apply writes_string, str_limit. Qed.

(** The name and the body of a plain key, as the branches of [to_blob_buf] write them. *)
Lemma writes_blob (k : sshkey) (force : bool) u : pub_ok u -> has_pub k u -> k_ecdsa_nid k = pub_nid u ->
  (if force then sshkey_type_plain (k_type k) else k_type k) = pub_typ false u ->
  (sshkey_is_cert k = true -> exists c, k_cert k = Some c /\ zlen (certblob c) <> 0) ->
  writes (to_blob_buf k force) (pub_blob u).
Proof.
  intros Hu Hk Hn Ht Hc. unfold to_blob_buf. rewrite Ht, Hn. pose proof (pub_name_good false u Hu) as G.
  rewrite (gn_some _ _ _ G). change (pub_blob u) with ([] ++ pub_blob u). apply writes_seq.
  { destruct (sshkey_is_cert k); [|apply writes_ret]. destruct (Hc eq_refl) as (c & -> & Hz).
    rewrite (proj2 (Z.eqb_neq _ _) Hz). apply writes_ret. }
  pose proof (writes_cstring (pub_name false u) (gn_nul _ _ _ G) ltac:(pose proof (gn_len _ _ _ G); lia)) as Wn.
  unfold pub_blob. destruct u as [e n|p q g y|nid q|pk]; cbn [has_pub pub_typ pub_ok pub_body pub_nid] in *.
  - destruct Hk as [pr ->]. destruct Hu. apply writes_seq; [exact Wn|]. apply writes_seq; by apply writes_bignum2.
  - destruct Hk as [pr ->]. destruct Hu as (? & ? & ? & ?). apply writes_seq; [exact Wn|].
    do 3 (apply writes_seq; [by apply writes_bignum2|]). by apply writes_bignum2.
  - destruct Hk as [_ [pr ->]]. destruct Hu as [Hu _]. apply writes_seq; [exact Wn|].
    destruct (curve_name_facts nid Hu) as (name & -> & _ & Hnul & Hl). change (default [] (Some name)) with name.
    apply writes_seq; [apply writes_cstring; [done|lia]|apply writes_ec].
  - rewrite Hk. apply writes_seq; [exact Wn|]. apply writes_string. rewrite Hu. done.
Qed.

Lemma reads_ec nid q : reads (get_ec_point nid) (str32 (ec_point2oct_unc nid q)) q.
Proof.
  intros rest max ro. unfold get_ec_point. pose proof (unc_len nid q) as Hl. change SSHBUF_MAX_ECPOINT with 133 in Hl.
  pose proof (zlen_nonneg (ec_point2oct_unc nid q)). unfold str32. rewrite <- app_assoc.
  assert (Hs : 0 <= zlen (ec_point2oct_unc nid q) < 256 ^ Z.of_nat 4) by (change (256 ^ Z.of_nat 4) with 4294967296; lia).
  rewrite (cbind_ok _ _ _ _ _ (q_string_app 4 _ rest max ro Hs (str_limit _ (point_len nid q)))).
  destruct (unc_form nid q) as [r Hr].
  assert (get_ec nid (ec_point2oct_unc nid q) = Ok q) as ->.
  { unfold get_ec. rewrite unc_round, Hr, zlen_cons. pose proof (zlen_nonneg r). rewrite Hr, zlen_cons in Hl. change SSHBUF_MAX_ECPOINT with 133.
    replace (_ =? 0) with false by lia. replace (_ <? _) with false by lia. done. }
  unfold lift. unfold cbind at 1. cbn iota beta. unfold q_skip_string. rewrite cbind_assoc, app_assoc.
  replace (Z.of_nat 4 + zlen (ec_point2oct_unc nid q)) with (zlen (str32 (ec_point2oct_unc nid q))) by by rewrite zlen_str32.
  fold (str32 (ec_point2oct_unc nid q)).
  by rewrite (cbind_ok _ _ _ _ _ (q_take_app (str32 (ec_point2oct_unc nid q)) rest max ro)).
Qed.

Lemma reads_nonce ct t nonce : zlen nonce <= 2049 ->
  reads (skip_nonce ct t) (if t =? ct then str32 nonce else []) tt.
Proof.
  intros Hl. unfold skip_nonce. destruct (t =? ct); [|apply rd_ret].
  apply reads_invalid. eapply reads_last; [by apply rd_string, str_limit|apply rd_ret].
Qed.

Lemma reads_alloc {A} t k (f : sshkey -> M Z queue A) bs v :
  sshkey_new t = Some k -> reads (f k) bs v -> reads (let! key := alloc_key t in f key) bs v.
Proof. intros Hk. unfold alloc_key. by rewrite Hk. Qed.

(** The public numbers are read, of a plain key or of the beginning of a certificate. *)
Lemma reads_blob_key certd u nonce name : pub_ok u -> good_name certd u name -> zlen nonce <= 2049 ->
  reads (blob_key (pub_typ certd u) name) ((if certd then str32 nonce else []) ++ pub_body u)
    (pub_key (if certd then Some cert_new else None) u).
Proof.
  intros Hu G Hl. destruct u as [e n|p q g y|nid q|pk]; cbn [pub_ok pub_body] in *.
  - destruct Hu as [He Hn]. pose proof (reads_nonce KEY_RSA_CERT (pub_typ certd (PRsa e n)) nonce Hl) as Rn.
    destruct certd; (eapply rd_bind; [exact Rn|]; eapply reads_alloc; [reflexivity|];
      eapply reads_last; [apply reads_invalid; eapply rd_bind; [by apply reads_bignum2|];
        eapply reads_last; [by apply reads_bignum2|apply rd_ret]|apply rd_ret]).
  - destruct Hu as (H1 & H2 & H3 & H4). pose proof (reads_nonce KEY_DSA_CERT (pub_typ certd (PDsa p q g y)) nonce Hl) as Rn.
    destruct certd; (eapply rd_bind; [exact Rn|]; eapply reads_alloc; [reflexivity|];
      eapply reads_last; [apply reads_invalid; do 3 (eapply rd_bind; [by apply reads_bignum2|]);
        eapply reads_last; [by apply reads_bignum2|apply rd_ret]|apply rd_ret]).
  - destruct Hu as [Hn Hv]. pose proof (reads_nonce KEY_ECDSA_CERT (pub_typ certd (PEc nid q)) nonce Hl) as Rn.
    destruct (curve_name_facts nid Hn) as (cn & -> & Hcn & Hnul & Hcl). change (default [] (Some cn)) with cn.
    pose proof (gn_nid _ _ _ G nid q eq_refl) as Hnid.
    assert (R : forall key, reads
      (let! curve := invalid get_cstring in
       guard (sshkey_ecdsa_nid_from_name name =? sshkey_curve_name_to_nid curve) SSH_ERR_EC_CURVE_MISMATCH ;!
       guard (ec_curve (sshkey_ecdsa_nid_from_name name)) SSH_ERR_EC_CURVE_INVALID ;!
       let! p := invalid (get_ec_point (sshkey_ecdsa_nid_from_name name)) in
       guard (ec_validate (sshkey_ecdsa_nid_from_name name) p =? 0) SSH_ERR_KEY_INVALID_EC_VALUE ;!
       cret (set_ecdsa (sshkey_ecdsa_nid_from_name name) (Some (Ec (sshkey_ecdsa_nid_from_name name) (Some p) None)) key))
      (str32 cn ++ str32 (ec_point2oct_unc nid q)) (set_ecdsa nid (Some (Ec nid (Some q) None)) key)).
    { intros key. rewrite Hnid. eapply rd_bind; [apply reads_invalid, reads_cstring; [apply str_limit; lia|done]|].
      apply rd_guard; [by rewrite Hcn, Z.eqb_refl|]. apply rd_guard; [by apply curve_named|].
      eapply reads_last; [apply reads_invalid, reads_ec|]. apply rd_guard; [by rewrite Hv|apply rd_ret]. }
    destruct certd; (eapply rd_bind; [exact Rn|]; eapply reads_alloc; [reflexivity|apply R]).
  - pose proof (reads_nonce KEY_ED25519_CERT (pub_typ certd (PEd pk)) nonce Hl) as Rn.
    assert (R : forall t k v, sshkey_new t = Some k -> set_ed25519 None (Some pk) k = v -> reads
      (let! pk := get_string in guard (zlen pk =? ED25519_PK_SZ) SSH_ERR_INVALID_FORMAT ;! let! key := alloc_key t in
       cret (set_ed25519 None (Some pk) key)) (str32 pk) v).
    { intros t k v Hk <-. eapply reads_last; [apply rd_string; rewrite Hu; done|]. apply rd_guard; [by rewrite Hu|].
      eapply reads_alloc; [exact Hk|apply rd_ret]. }
    destruct certd; (eapply rd_bind; [exact Rn|]; eapply R; reflexivity).
Qed.
End Pub.
