(* ===== verification/SshBlobOk.v ===== *)
(** * The correctness of key blobs

    Proofs about [SshBlob]: blobs come back as the keys they were made from; on any bytes reading yields a well-formed key or an error; a
    certificate is signed by the key it names; a certificate that is made is accepted; and [KeyBlobLaws] of [EboxTpl] holds of the code. *)
From stdpp Require Import base list strings.
From Stdlib Require Import ZArith Lia.
From S2P Require Import Prelude Sshbuf Algs PivBox Hmac EboxTpl PivFiles PivCert PivKeys PivKeyCard Base64 SshKey SshSig SshBlob SshPub.

Local Open Scope string_scope.
Local Open Scope list_scope.
Local Open Scope Z_scope.
Local Open Scope c_scope.

(** ** Reading any bytes *)

Section Ends.
Context (asserts : bool).

(** [m] returns with [Q], or fails with an SSH_ERR code, or is stopped by an assertion if there are any. *)
Definition ends {A} (m : M Z queue A) (q : queue) (Q : A -> queue -> Prop) : Prop :=
  match m q with
  | (Ok a, q') => Q a q'
  | (Er e, _) => e < 0
  | (Panic, _) => asserts = true
  | (Fault, _) => False
  end.
Definition ends_res {A} (r : res Z A) (Q : A -> Prop) : Prop :=
  match r with Ok a => Q a | Er e => e < 0 | Panic => asserts = true | Fault => False end.
(** [q'] is what is left of [q] after [pre]. *)
Record after (q : queue) (pre : list Z) (q' : queue) : Prop := {
  af_bytes : q_bytes q = pre ++ q_bytes q';
  af_q : bytes (q_bytes q) /\ q_max q' = q_max q /\ q_ro q' = q_ro q
}.

Lemma ends_bind {A B} (m : M Z queue A) (f : A -> M Z queue B) q Q :
  ends m q (fun a q' => ends (f a) q' Q) -> ends (let! x := m in f x) q Q.
Proof. unfold ends, cbind. by destruct (m q) as [[] ?]. Qed.
Lemma ends_ret {A} (a : A) q (Q : A -> queue -> Prop) : Q a q -> ends (cret a) q Q.
Proof. done. Qed.
Lemma ends_get q (Q : queue -> queue -> Prop) : Q q q -> ends cget q Q.
Proof. done. Qed.
Lemma ends_guard c e q (Q : unit -> queue -> Prop) : e < 0 -> (c = true -> Q tt q) -> ends (guard c e) q Q.
Proof. unfold ends, guard. destruct c; cbn; auto. Qed.
Lemma ends_raise {A} e q (Q : A -> queue -> Prop) : e < 0 -> ends (craise e) q Q.
Proof. done. Qed.
Lemma ends_lift {A} (r : res Z A) q (Q : A -> queue -> Prop) : ends_res r (fun a => Q a q) -> ends (lift r) q Q.
Proof. done. Qed.
Lemma ends_mono {A} (m : M Z queue A) q (Q Q' : A -> queue -> Prop) :
  ends m q Q -> (forall a q', Q a q' -> Q' a q') -> ends m q Q'.
Proof. unfold ends. destruct (m q) as [[] ?]; auto. Qed.
Lemma ends_invalid {A} (m : M Z queue A) q Q : ends m q Q -> ends (invalid m) q Q.
Proof. unfold ends, invalid, cmaperr. by destruct (m q) as [[] ?]. Qed.
Lemma ends_maperr {A} e (m : M Z queue A) q Q : e < 0 -> ends m q Q -> ends (cmaperr (fun _ => e) m) q Q.
Proof. unfold ends, cmaperr. by destruct (m q) as [[] ?]. Qed.
Lemma ends_res_bind {A B} (r : res Z A) (f : A -> res Z B) Q : ends_res r (fun a => ends_res (f a) Q) -> ends_res (rbind r f) Q.
Proof. by destruct r. Qed.
Lemma ends_res_mono {A} (r : res Z A) (Q Q' : A -> Prop) : ends_res r Q -> (forall a, Q a -> Q' a) -> ends_res r Q'.
Proof. destruct r; cbn; auto. Qed.
Lemma ends_on_buf {A} d (m : M Z queue A) Q : bytes d ->
  (zlen d <= SSHBUF_SIZE_MAX -> ends m (sub_buf d) (fun a _ => Q a)) -> ends_res (on_buf d m) Q.
Proof.
  intros Hd H. unfold on_buf. destruct (Z.ltb_spec SSHBUF_SIZE_MAX (zlen d)); [done|]. specialize (H ltac:(lia)).
  unfold ends in H. by destruct (m (sub_buf d)) as [[] ?].
Qed.

Lemma after_refl q : bytes (q_bytes q) -> after q [] q.
Proof. done. Qed.
Lemma after_trans q a q1 b q2 : after q a q1 -> after q1 b q2 -> after q (a ++ b) q2.
Proof.
  intros [H1 (? & H2 & H3)] [H4 (_ & H5 & H6)]. constructor; [by rewrite H1, H4, app_assoc|]. by rewrite H5, H6.
Qed.
Lemma after_bytes q pre q' : after q pre q' -> bytes pre /\ bytes (q_bytes q').
Proof. intros [H (Hb & _)]. rewrite H in Hb. by apply Forall_app in Hb. Qed.

(** Every string reader takes a string and its length. *)
Lemma ends_read_string {A} chk (f : list Z -> A) q (Q : A -> queue -> Prop) :
  bytes (q_bytes q) -> (forall s e, chk s = Some e -> e < 0) ->
  (forall s q', after q (str32 s) q' -> zlen s <= SSHBUF_SIZE_MAX - 4 -> chk s = None -> Q (f s) q') ->
  ends (q_read_string 4 chk f) q Q.
Proof.
  intros Hb Hc HQ. unfold q_read_string. apply ends_bind.
  destruct (q_string 4 q) as [r q1] eqn:E. unfold ends. rewrite E. destruct r as [s|e| |].
  2, 3, 4: revert E; unfold q_string, cbind, cget, guard, cret, craise;
    repeat (destruct (negb _); [|by intros [= <- _]]); by intros [=].
  apply q_string_inv in E as (-> & Hs & H4 & Hl & Hm). set (n := be_val (take 4 (q_bytes q))) in *.
  assert (Hn : 0 <= n) by (apply be_val_range; by apply Forall_take).
  assert (Hz : zlen s = n) by (rewrite Hs; apply zlen_zslice; lia).
  destruct (chk s) as [e|] eqn:Ec; cbn [check]; [by apply (Hc s)|].
  assert (Hp : q_bytes q = str32 s ++ drop (Z.to_nat (4 + n)) (q_bytes q)).
  { unfold str32. rewrite Hz, <- app_assoc. rewrite <- (take_drop 4 (q_bytes q)) at 1. f_equal.
    - unfold n. rewrite <- (be_bytes_be_val (take 4 (q_bytes q))) at 1 by by apply Forall_take. f_equal.
      rewrite length_take. unfold zlen in *. lia.
    - rewrite Hs. change (Z.of_nat 4) with 4. unfold zslice. rewrite <- (take_drop (Z.to_nat n) (drop 4 (q_bytes q))) at 1.
      f_equal. rewrite drop_drop. f_equal. lia. }
  unfold cbind at 1. unfold cret at 1. unfold q_skip_string. rewrite cbind_assoc. rewrite Hz.
  rewrite (cbind_ok _ _ _ _ _ (q_take_prefix (4 + n) q ltac:(lia))).
  apply HQ; [|rewrite Hz; exact Hm|done]. constructor; [exact Hp|done].
Qed.
Lemma cstring_neg s e : cstring_check s = Some e -> e < 0.
Proof. unfold cstring_check. by destruct (inner_nul s); [intros [= <-]|]. Qed.
Lemma bignum_neg s e : bignum_check s = Some e -> e < 0.
Proof. unfold bignum_check. repeat case_match; by intros [= <-]. Qed.
Lemma ends_string q (Q : list Z -> queue -> Prop) : bytes (q_bytes q) ->
  (forall s q', after q (str32 s) q' -> zlen s <= SSHBUF_SIZE_MAX - 4 -> Q s q') -> ends get_string q Q.
Proof. intros Hb HQ. by apply ends_read_string; auto. Qed.
Lemma ends_cstring q (Q : list Z -> queue -> Prop) : bytes (q_bytes q) ->
  (forall s q', after q (str32 s) q' -> Q (c_str s) q') -> ends get_cstring q Q.
Proof. intros Hb HQ. apply ends_read_string; [done|apply cstring_neg|auto]. Qed.
Lemma ends_u k q (Q : Z -> queue -> Prop) : bytes (q_bytes q) ->
  (forall v q', after q (be_bytes k v) q' -> 0 <= v < 256 ^ Z.of_nat k -> Q v q') -> ends (q_get_u k) q Q.
Proof.
  intros Hb HQ. unfold q_get_u. apply ends_bind. unfold ends at 1.
  destruct (Z.ltb_spec (zlen (q_bytes q)) (Z.of_nat k)) as [Hl|Hl].
  { unfold q_take, cbind, cget, guard. by replace (_ <? _) with true by lia. }
  rewrite q_take_prefix by lia. rewrite Nat2Z.id. apply ends_ret.
  assert (Hk : length (take k (q_bytes q)) = k) by (rewrite length_take; unfold zlen in *; lia).
  assert (Ht : bytes (take k (q_bytes q))) by by apply Forall_take.
  apply HQ.
  - constructor; [|done]. cbn [q_bytes]. rewrite <- Hk at 1. rewrite be_bytes_be_val by done. by rewrite take_drop.
  - pose proof (be_val_range _ Ht) as Hr. unfold zlen in Hr. by rewrite Hk in Hr.
Qed.

Lemma BN_num_bytes_le v n : 0 <= n -> 0 <= v < 256 ^ n -> BN_num_bytes v <= n.
Proof.
  intros Hn Hv. unfold BN_num_bytes, BN_num_bits. destruct (Z.eqb_spec v 0) as [->|Hz]; [change ((0 + 7) / 8) with 0; lia|].
  rewrite Z.abs_eq by lia. assert (Z.log2 v < 8 * n).
  { apply Z.log2_lt_pow2; [lia|]. replace (8 * n) with (8 * n) by lia. rewrite Z.pow_mul_r by lia. change (2 ^ 8) with 256. lia. }
  apply Z.lt_succ_r, Z.div_lt_upper_bound; lia.
Qed.
Lemma ends_bignum q (Q : Z -> queue -> Prop) : bytes (q_bytes q) ->
  (forall v pre q', after q pre q' -> bn_ok v -> Q v q') -> ends get_bignum2 q Q.
Proof.
  intros Hb HQ. apply ends_read_string; [done|apply bignum_neg|]. intros s q' Ha Hl Hc. apply (HQ _ _ _ Ha).
  assert (Hs : bytes s) by (destruct (after_bytes _ _ _ Ha) as [Hp _]; unfold str32 in Hp; by apply Forall_app in Hp as [_ Hp]).
  pose proof (be_val_range _ (skip_zeros_bytes _ Hs)) as Hr. pose proof (skip_zeros_length s) as Hz.
  split; [apply Hr|]. etrans; [apply (BN_num_bytes_le _ (zlen (skip_zeros s))); [apply zlen_nonneg|exact Hr]|].
  revert Hc. unfold bignum_check. destruct (msb_set s); [done|]. change (SSHBUF_MAX_BIGNUM + 1) with 2049. change SSHBUF_MAX_BIGNUM with 2048 in *.
  destruct (Z.ltb_spec 2049 (zlen s)); [done|]. cbn [orb]. destruct (Z.eqb_spec (zlen s) 2049) as [E|E]; [|intros _; lia].
  destruct s as [|b s]; [done|]. destruct (Z.eqb_spec b 0) as [->|]; [|done]. intros _. cbn [skip_zeros].
  pose proof (skip_zeros_length s). rewrite zlen_cons in E. change (0 =? 0) with true. cbn iota. lia.
Qed.
End Ends.

(** * What reading yields *)

Section Sound.
Context {C : Crypto} {EO : EcOct} {CU : Curves} {SP : SigPrims}.
Context {OL : EcOctLaws EO} {CL : CurvesLaws CU}.
Context (asserts : bool).
Local Abbreviation sshkey := SshKey.sshkey.
Local Abbreviation cert := (@sshkey_cert sshkey).
Local Abbreviation ends := (ends asserts).
Local Abbreviation ends_res := (ends_res asserts).

Lemma ends_raise_unknown {A} (q : queue) (Q : A -> queue -> Prop) : ends (craise SSH_ERR_KEY_TYPE_UNKNOWN) q Q.
Proof. done. Qed.

Lemma ends_nonce ct t q (Q : unit -> queue -> Prop) : bytes (q_bytes q) ->
  (forall pre q', after q pre q' -> Q tt q') -> ends (skip_nonce ct t) q Q.
Proof.
  intros Hb HQ. unfold skip_nonce. destruct (t =? ct); [|by apply (HQ [] q), after_refl].
  apply ends_invalid, ends_bind, ends_string; [done|]. intros s q' Ha _. by apply (HQ _ _ Ha).
Qed.

(** The key without numbers that is read of a type that is not known. *)
Definition unspec_key : sshkey := Key KEY_UNSPEC 0 None None (-1) None None None None.
Definition numbers_of (t : Z) (k : sshkey) : Prop :=
  (exists certd u, pub_ok u /\ t = pub_typ certd u /\ k = pub_key (if certd then Some cert_new else None) u) \/ k = unspec_key.

Lemma curve_nid_known name : ec_curve (sshkey_curve_name_to_nid name) = true ->
  sshkey_curve_nid_to_name (sshkey_curve_name_to_nid name) <> None.
Proof. unfold sshkey_curve_name_to_nid. repeat (destruct (streq name _); [done|]). by rewrite curve_none. Qed.

Lemma ends_ec_point nid q (Q : point -> queue -> Prop) : bytes (q_bytes q) ->
  (forall p pre q', after q pre q' -> Q p q') -> ends (get_ec_point nid) q Q.
Proof.
  intros Hb HQ. set (ok := fun d => match get_ec nid d with Ok p => Some p | _ => None end).
  (* as a reader of a string that is looked at first *)
  assert (H : ends (q_read_string 4 (fun d => match get_ec nid d with Er e => Some e | _ => None end) ok) q
    (fun r q' => match r with Some p => Q p q' | None => True end)).
  { apply ends_read_string; [done| |].
    - intros s e. unfold get_ec. destruct (_ || _); [by intros [= <-]|]. destruct (_ && _); [by intros [= <-]|].
      by destruct (ec_oct2point nid s); [|intros [= <-]].
    - intros s q' Ha _ _. unfold ok. destruct (get_ec nid s); [by apply (HQ _ _ _ Ha)|done..]. }
  unfold get_ec_point. unfold q_read_string in H. unfold SshBlobOk.ends, cbind in *.
  destruct (q_string 4 q) as [[d|e| |] q1]; try done.
  unfold lift, ok in *. assert (G : match get_ec nid d with Ok _ | Er _ => True | _ => False end) 
    by (unfold get_ec; destruct (_ || _); [done|]; destruct (_ && _); [done|]; by destruct (ec_oct2point nid d)).
  destruct (get_ec nid d) as [p|e| |]; cbn [check] in *; try done.
  unfold cret, craise in *. by destruct (q_skip_string 4 d q1) as [[] ?].
Qed.

Lemma ends_blob_key t name q (Q : sshkey -> queue -> Prop) : bytes (q_bytes q) ->
  (forall k pre q', after q pre q' -> numbers_of t k -> Q k q') -> ends (blob_key t name) q Q.
Proof.
  intros Hb HQ. unfold blob_key.
  assert (HP : forall certd u pre q', t = pub_typ certd u -> pub_ok u -> after q pre q' -> Q (pub_key (if certd then Some cert_new else None) u) q').
  { intros certd u pre q' Ht Hu Ha. apply (HQ _ _ _ Ha). left. by exists certd, u. }
  destruct ((t =? KEY_RSA_CERT) || (t =? KEY_RSA)) eqn:E1; [|destruct (dsa_type t) eqn:E2; [|destruct (ecdsa_type t) eqn:E3;
    [|destruct (ed25519_type t) eqn:E4; [|destruct (t =? KEY_UNSPEC) eqn:E5; [|by apply ends_raise]]]]].
  - apply ends_bind, ends_nonce; [done|]. intros p1 q1 A1. destruct (after_bytes _ _ _ A1) as [_ B1].
    assert (H : forall certd e n pre q', t = pub_typ certd (PRsa e n) -> bn_ok e -> bn_ok n -> after q pre q' ->
      Q (pub_key (if certd then Some cert_new else None) (PRsa e n)) q') by (intros; by eapply HP).
    apply orb_true_iff in E1 as [->%Z.eqb_eq | ->%Z.eqb_eq]; [specialize (H true)|specialize (H false)]; apply ends_bind, ends_ret, ends_bind;
      apply ends_invalid, ends_bind, ends_bignum; try exact B1; intros e p2 q2 A2 He; apply ends_bind, ends_bignum; try apply (after_bytes _ _ _ A2);
      intros n p3 q3 A3 Hn; apply ends_ret, ends_ret; exact (H e n _ q3 eq_refl He Hn (after_trans _ _ _ _ _ A1 (after_trans _ _ _ _ _ A2 A3))).
  - apply ends_bind, ends_nonce; [done|]. intros p1 q1 A1. destruct (after_bytes _ _ _ A1) as [_ B1].
    assert (H : forall certd a b c d pre q', t = pub_typ certd (PDsa a b c d) -> bn_ok a -> bn_ok b -> bn_ok c -> bn_ok d -> after q pre q' ->
      Q (pub_key (if certd then Some cert_new else None) (PDsa a b c d)) q') by (intros; by eapply HP).
    apply orb_true_iff in E2 as [->%Z.eqb_eq | ->%Z.eqb_eq]; [specialize (H false)|specialize (H true)]; apply ends_bind, ends_ret, ends_bind;
      apply ends_invalid, ends_bind, ends_bignum; try exact B1; intros a p2 q2 A2 Ha; apply ends_bind, ends_bignum; try apply (after_bytes _ _ _ A2);
      intros b p3 q3 A3 Hbb; apply ends_bind, ends_bignum; try apply (after_bytes _ _ _ A3);
      intros c p4 q4 A4 Hc; apply ends_bind, ends_bignum; try apply (after_bytes _ _ _ A4);
      intros d p5 q5 A5 Hd; apply ends_ret, ends_ret; exact (H a b c d _ q5 eq_refl Ha Hbb Hc Hd (after_trans _ _ _ _ _ A1 (after_trans _ _ _ _ _ A2
        (after_trans _ _ _ _ _ A3 (after_trans _ _ _ _ _ A4 A5))))).
  - apply ends_bind, ends_nonce; [done|]. intros p1 q1 A1. destruct (after_bytes _ _ _ A1) as [_ B1].
    assert (H : forall certd nid p pre q', t = pub_typ certd (PEc nid p) -> sshkey_curve_nid_to_name nid <> None -> ec_validate nid p = 0 ->
      after q pre q' -> Q (pub_key (if certd then Some cert_new else None) (PEc nid p)) q') by (intros; by eapply HP).
    apply orb_true_iff in E3 as [->%Z.eqb_eq | ->%Z.eqb_eq]; [specialize (H false)|specialize (H true)]; apply ends_bind, ends_ret, ends_bind;
      apply ends_invalid, ends_cstring; try exact B1; intros cn q2 A2; (apply ends_bind, ends_guard; [done|]); intros ->%Z.eqb_eq;
      (apply ends_bind, ends_guard; [done|]); intros Hcv; apply ends_bind, ends_invalid, ends_ec_point; try apply (after_bytes _ _ _ A2);
      intros p p3 q3 A3; (apply ends_bind, ends_guard; [done|]); intros Hv%Z.eqb_eq; apply ends_ret;
      exact (H _ p _ q3 eq_refl (curve_nid_known _ Hcv) Hv (after_trans _ _ _ _ _ A1 (after_trans _ _ _ _ _ A2 A3))).
  - apply ends_bind, ends_nonce; [done|]. intros p1 q1 A1. destruct (after_bytes _ _ _ A1) as [_ B1].
    assert (H : forall certd pk pre q', t = pub_typ certd (PEd pk) -> zlen pk = ED25519_PK_SZ -> after q pre q' ->
      Q (pub_key (if certd then Some cert_new else None) (PEd pk)) q') by (intros; by eapply HP).
    apply orb_true_iff in E4 as [->%Z.eqb_eq | ->%Z.eqb_eq]; [specialize (H false)|specialize (H true)]; apply ends_bind, ends_string; try exact B1;
      intros pk q2 A2 _; (apply ends_bind, ends_guard; [done|]); intros Hl%Z.eqb_eq; apply ends_bind, ends_ret, ends_ret;
      exact (H pk _ q2 eq_refl Hl (after_trans _ _ _ _ _ A1 A2)).
  - apply Z.eqb_eq in E5 as ->. apply ends_ret. apply (HQ _ [] q); [by apply after_refl|by right].
Qed.

(** ** Signatures *)

Lemma ends_at_end e q (Q : unit -> queue -> Prop) : e < 0 -> (q_bytes q = [] -> Q tt q) -> ends (at_end e) q Q.
Proof.
  intros He HQ. unfold at_end. apply ends_bind, ends_get, ends_guard; [done|]. intros Hz%Z.eqb_eq. apply HQ.
  by destruct (q_bytes q).
Qed.
Lemma bytes_str32 s : bytes (str32 s) -> bytes s.
Proof. unfold str32. by intros [_ ?]%Forall_app. Qed.
Lemma ends_get_sig d : bytes d -> ends get_sig (sub_buf d) (fun r q => bytes (snd r) /\ bytes (q_bytes q)).
Proof.
  intros Hd. unfold get_sig. apply ends_bind, ends_cstring; [done|]. intros kt q1 A1. destruct (after_bytes _ _ _ A1) as [_ B1].
  apply ends_bind, ends_string; [done|]. intros body q2 A2 _. destruct (after_bytes _ _ _ A2) as [Hs B2]. apply ends_ret. split; [|done].
  by apply bytes_str32.
Qed.
Lemma ends_get_rs q : bytes (q_bytes q) -> ends get_rs q (fun _ _ => True).
Proof.
  intros Hd. unfold get_rs. apply ends_bind, ends_bignum; [done|]. intros r p1 q1 A1 _. destruct (after_bytes _ _ _ A1) as [_ B1].
  apply ends_bind, ends_bignum; [done|]. by intros.
Qed.
Lemma ends_digest alg d n : ends_res (ssh_digest_memory alg d n) (fun _ => True).
Proof. unfold ssh_digest_memory. by destruct (_ || _ || _). Qed.

Lemma ends_verify_ecdsa k sig d : bytes sig -> ends_res (ssh_ecdsa_verify k sig d) (fun _ => True).
Proof.
  intros Hs. unfold ssh_ecdsa_verify. destruct (k_ecdsa k) as [ec|]; [|done]. destruct (_ || _); [done|]. cbn zeta. destruct (_ || _); [done|].
  apply ends_res_bind. apply (ends_res_mono _ _ bytes).
  - apply ends_on_buf; [done|]. intros _. apply ends_bind, ends_invalid.
    eapply ends_mono; [by apply ends_get_sig|]. intros [kt body] q1 [Hb _]. cbn [snd] in Hb. apply ends_bind, ends_guard; [done|]. intros _.
    apply ends_bind, ends_at_end; [done|]. intros _. by apply ends_ret.
  - intros sigbuf Hb. apply ends_res_bind. apply (ends_res_mono _ _ (fun _ => True)).
    + apply ends_on_buf; [done|]. intros _. apply ends_bind, ends_invalid. eapply ends_mono; [by apply ends_get_rs|]. intros rs q1 _.
      apply ends_bind, ends_at_end; [done|]. intros _. by apply ends_ret.
    + intros [r s] _. apply ends_res_bind. eapply ends_res_mono; [apply ends_digest|]. intros h _. cbn zeta. destruct (_ =? 1); [done|]. by destruct (_ =? 0).
Qed.
Lemma ends_verify_rsa k sig d : bytes sig -> ends_res (ssh_rsa_verify k sig d) (fun _ => True).
Proof.
  intros Hs. unfold ssh_rsa_verify. destruct (k_rsa k) as [rsa|]; [|done]. destruct (_ || _); [done|].
  apply ends_res_bind. apply (ends_res_mono _ _ (fun _ => True)).
  - apply ends_on_buf; [done|]. intros _. apply ends_bind, ends_invalid, ends_cstring; [done|]. intros kt q1 A1.
    destruct (after_bytes _ _ _ A1) as [_ B1]. apply ends_bind, ends_guard; [done|]. intros _.
    apply ends_bind, ends_invalid, ends_string; [done|]. intros b q2 A2 _. apply ends_bind, ends_at_end; [done|]. intros _. by apply ends_ret.
  - intros [alg b] _. cbn zeta. destruct (_ <? _); [done|]. destruct (_ =? _); [done|]. apply ends_res_bind. eapply ends_res_mono; [apply ends_digest|].
    intros h _. unfold openssh_RSA_verify. by repeat case_match.
Qed.
Lemma ends_verify_ed25519 k sig d : bytes sig -> ends_res (ssh_ed25519_verify asserts k sig d) (fun _ => True).
Proof.
  intros Hs. unfold ssh_ed25519_verify. destruct (k_ed25519_pk k) as [pk|]; [|done]. destruct (_ || _); [done|].
  apply ends_res_bind. apply (ends_res_mono _ _ (fun _ => True)).
  - apply ends_on_buf; [done|]. intros _. apply ends_bind. eapply ends_mono; [by apply ends_get_sig|]. intros [kt b] q1 _.
    apply ends_bind, ends_guard; [done|]. intros _. apply ends_bind, ends_at_end; [done|]. intros _.
    apply ends_bind, ends_guard; [done|]. intros _. apply ends_bind, ends_guard; [done|]. intros _. by apply ends_ret.
  - intros b _. destruct (crypto_sign_ed25519_open _ _); [|done]. destruct asserts eqn:E; [done|]. by destruct (_ =? _).
Qed.
Lemma ends_verify k sig d : bytes sig -> ends_res (sshkey_verify asserts k sig d) (fun _ => True).
Proof.
  intros Hs. unfold sshkey_verify. destruct (_ || _); [done|]. destruct (ecdsa_type _); [by apply ends_verify_ecdsa|].
  destruct (_ || _); [by apply ends_verify_rsa|]. destruct (ed25519_type _); [by apply ends_verify_ed25519|done].
Qed.

(** ** Certificates *)

Lemma ends_principals room q : bytes (q_bytes q) -> ends (cert_principals room) q (fun ps _ => zlen ps <= Z.of_nat room).
Proof.
  revert q. induction room as [|room IH]; intros q Hb; cbn [cert_principals]; apply ends_bind, ends_get; (destruct (_ <=? 0); [apply ends_ret; rewrite zlen_nil; lia|]).
  - by apply ends_raise.
  - apply ends_bind, ends_invalid, ends_cstring; [done|]. intros p q1 A1. destruct (after_bytes _ _ _ A1) as [_ B1].
    apply ends_bind. eapply ends_mono; [by apply IH|]. intros ps q2 Hl. apply ends_ret. rewrite zlen_cons, Nat2Z.inj_succ. cbn in Hl. lia.
Qed.
Lemma ends_options fuel q : bytes (q_bytes q) -> zlen (q_bytes q) <= Z.of_nat fuel -> ends (cert_options fuel) q (fun _ _ => True).
Proof.
  revert q. induction fuel as [|fuel IH]; intros q Hb Hl; cbn [cert_options]; apply ends_bind, ends_get; (destruct (Z.eqb_spec (zlen (q_bytes q)) 0); [done|]).
  - pose proof (zlen_nonneg (q_bytes q)). lia.
  - apply ends_bind, ends_invalid, ends_bind, ends_string; [done|]. intros s q1 A1 _. destruct (after_bytes _ _ _ A1) as [_ B1].
    apply ends_string; [done|]. intros s2 q2 A2 _. destruct (after_bytes _ _ _ A2) as [_ B2]. apply IH; [done|].
    pose proof (af_bytes _ _ _ A1) as E1. pose proof (af_bytes _ _ _ A2) as E2. rewrite E1, E2, !zlen_app, !zlen_str32 in Hl.
    pose proof (zlen_nonneg s). pose proof (zlen_nonneg s2). lia.
Qed.

(** What follows the numbers of the key in a certificate, up to the signature. *)
Definition cert_tail (c : cert) (kid ps reserved ca : list Z) : list Z :=
  be_bytes 8 (serial c) ++ be_bytes 4 (cert_type c) ++ str32 kid ++ str32 ps ++ be_bytes 8 (valid_after c) ++ be_bytes 8 (valid_before c) ++
  str32 (critical c) ++ str32 (extensions c) ++ str32 reserved ++ str32 ca.
Record body_ok (q : queue) (r : cert * list Z * list Z) (q' : queue) : Prop := {
  bd_after : exists kid rv, after q (cert_tail (fst (fst r)) kid (snd (fst r)) rv (snd r)) q' /\ key_id (fst (fst r)) = Some (c_str kid);
  bd_bytes : bytes (snd (fst r)) /\ bytes (snd r) /\ bytes (critical (fst (fst r))) /\ bytes (extensions (fst (fst r)))
}.
Lemma ends_cert_body q : bytes (q_bytes q) -> ends cert_body q (body_ok q).
Proof.
  intros Hb. unfold cert_body.
  apply ends_bind, ends_u; [done|]. intros ser q1 A1 _. destruct (after_bytes _ _ _ A1) as [_ B1].
  apply ends_bind, ends_u; [done|]. intros ty q2 A2 _. destruct (after_bytes _ _ _ A2) as [_ B2].
  apply ends_bind, ends_cstring; [done|]. intros kid q3 A3. destruct (after_bytes _ _ _ A3) as [_ B3].
  apply ends_bind, ends_string; [done|]. intros ps q4 A4 _. destruct (after_bytes _ _ _ A4) as [P4 B4].
  apply ends_bind, ends_u; [done|]. intros va q5 A5 _. destruct (after_bytes _ _ _ A5) as [_ B5].
  apply ends_bind, ends_u; [done|]. intros vb q6 A6 _. destruct (after_bytes _ _ _ A6) as [_ B6].
  apply ends_bind, ends_string; [done|]. intros crit q7 A7 _. destruct (after_bytes _ _ _ A7) as [P7 B7].
  apply ends_bind, ends_string; [done|]. intros exts q8 A8 _. destruct (after_bytes _ _ _ A8) as [P8 B8].
  apply ends_bind, ends_string; [done|]. intros rv q9 A9 _. destruct (after_bytes _ _ _ A9) as [_ B9].
  apply ends_bind, ends_string; [done|]. intros ca q10 A10 _. destruct (after_bytes _ _ _ A10) as [P10 _].
  apply ends_ret. constructor; cbn [fst snd critical extensions key_id].
  - exists kid, rv. split; [|done]. unfold cert_tail. cbn [serial cert_type valid_after valid_before critical extensions].
    do 9 (eapply after_trans; [eassumption|]). exact A10.
  - split_and!; by apply bytes_str32.
Qed.

(** A certificate that was read from the bytes [d] of a whole blob: its fields are those of the bytes that were signed, and the key that signed them
    is no certificate. *)
Record cert_ok (d : list Z) (c : cert) : Prop := {
  ck_blob : certblob c = d;
  ck_type : cert_type c = SSH2_CERT_TYPE_USER \/ cert_type c = SSH2_CERT_TYPE_HOST;
  ck_principals : zlen (principals c) <= SSHKEY_CERT_MAX_PRINCIPALS;
  ck_signed : exists signed pre kid ps rv ca_blob ca sig,
    d = signed ++ str32 sig /\ signed = pre ++ cert_tail c kid ps rv ca_blob /\ key_id c = Some (c_str kid) /\
    signature_key c = Some (pub_key None ca) /\ pub_ok ca /\ sshkey_verify asserts (pub_key None ca) sig signed = Ok tt
}.
(** What [from_blob] may give for the key of an authority. *)
Definition plain_result (k : sshkey) : Prop := (exists u, pub_ok u /\ k = pub_key None u) \/ k = unspec_key.

Lemma new_buf_append d : zlen d <= SSHBUF_SIZE_MAX -> new_buf (q_append d) = Ok d.
Proof. apply new_buf_writes, writes_append. Qed.
Lemma new_buf_two d : new_buf (q_append [] ;! q_append d) = if zlen d <=? SSHBUF_SIZE_MAX then Ok d else Er SSH_ERR_NO_BUFFER_SPACE.
Proof.
  destruct (Z.leb_spec (zlen d) SSHBUF_SIZE_MAX) as [Hl|Hl].
  - apply (new_buf_writes _ ([] ++ d)); [|done]. apply writes_seq; apply writes_append.
  - unfold new_buf. assert (E : q_append [] (Queue [] SSHBUF_SIZE_MAX false) = (Ok tt, Queue [] SSHBUF_SIZE_MAX false)) by reflexivity.
    rewrite (cbind_ok _ _ _ _ _ E). unfold q_append, cbind, cget, guard. cbn [q_ro q_bytes q_max negb]. cbn [cret].
    rewrite zlen_nil. by replace (0 + zlen d <=? SSHBUF_SIZE_MAX) with false by lia.
Qed.
Lemma ends_copy d : bytes d -> ends_res (sshbuf_copy d) (fun d' => d' = d).
Proof.
  intros Hd. unfold sshbuf_copy, new_buf, q_append, cbind, cget, guard, cput, cret, craise. cbn. by destruct (_ <=? _).
Qed.

Lemma ends_cert_parse fb u pre q (Q : sshkey -> queue -> Prop) :
  (forall ca, bytes ca -> ends_res (fb ca) plain_result) -> bytes (pre ++ q_bytes q) ->
  (forall c sig q', after q (sig : list Z) q' -> (q_bytes q' = [] -> cert_ok (pre ++ q_bytes q) c) -> Q (pub_key (Some c) u) q') ->
  ends (cert_parse asserts fb (pub_key (Some cert_new) u) (pre ++ q_bytes q)) q Q.
Proof.
  intros Hfb Hd HQ. assert (Hb : bytes (q_bytes q)) by by apply Forall_app in Hd as [_ ?].
  unfold cert_parse. cbn [k_cert pub_key certblob cert_new]. apply ends_bind, ends_lift. rewrite new_buf_two. destruct (_ <=? _); [|done].
  cbn [SshBlobOk.ends_res]. apply ends_bind, ends_invalid. eapply ends_mono; [by apply ends_cert_body|].
  intros [[c ps] ca] q1 [(kid & rv & A1 & Hkid) (Bps & Bca & Bcr & Bex)]. cbn [fst snd] in *.
  destruct (after_bytes _ _ _ A1) as [_ B1]. apply ends_bind, ends_get.
  apply ends_bind, ends_invalid, ends_string; [done|]. intros sig q2 A2 _. destruct (after_bytes _ _ _ A2) as [Bsig%bytes_str32 _].
  apply ends_bind, ends_guard; [done|]. intros Hty%orb_true_iff.
  apply ends_bind, ends_lift. eapply ends_res_mono; [apply ends_on_buf; [exact Bps|]; intros _; by apply ends_principals|]. intros names Hn.
  apply ends_bind, ends_lift. eapply ends_res_mono; [by apply ends_copy|]. intros _ ->.
  apply ends_bind, ends_lift. eapply ends_res_mono; [by apply ends_copy|]. intros _ ->.
  assert (Ho : forall d, bytes d -> ends_res (cert_options_ok d) (fun _ => True)).
  { intros d Bd. apply ends_on_buf; [done|]. intros _. by apply ends_options. }
  apply ends_bind, ends_lift. eapply ends_res_mono; [by apply Ho|]. intros _ _.
  apply ends_bind, ends_lift. eapply ends_res_mono; [by apply Ho|]. intros _ _.
  apply ends_bind, ends_maperr, ends_lift; [done|]. eapply ends_res_mono; [by apply Hfb|]. intros sk Hsk.
  apply ends_bind, ends_guard; [done|]. intros Hca.
  destruct Hsk as [(v & Hv & ->) | ->]; [|discriminate Hca].
  set (signed := zslice (pre ++ q_bytes q) 0 (zlen (pre ++ q_bytes q) - zlen (q_bytes q1))).
  assert (Es : pre ++ q_bytes q = signed ++ q_bytes q1 /\ signed = pre ++ cert_tail c kid ps rv ca).
  { unfold signed. rewrite (af_bytes _ _ _ A1), app_assoc, (zlen_app (_ ++ _)), Z.add_simpl_r, zslice_0. unfold zlen. rewrite Nat2Z.id.
    by rewrite take_app_length. }
  destruct Es as [Ed Es]. apply ends_bind, ends_lift.
  pose proof (ends_verify (pub_key None v) sig signed Bsig) as Hver.
  destruct (sshkey_verify asserts (pub_key None v) sig signed) as [[]|e| |] eqn:Ev; cbn [SshBlobOk.ends_res] in *; try done.
  apply ends_ret. unfold set_cert. cbn [k_type k_flags k_rsa k_dsa k_ecdsa_nid k_ecdsa k_ed25519_sk k_ed25519_pk pub_key certified].
  match goal with |- Q _ _ => idtac end.
  eapply (HQ _ _ q2); [by eapply after_trans|]. intros Hend. constructor; cbn.
  - done.
  - rewrite <- !Z.eqb_eq. exact Hty.
  - exact Hn.
  - exists signed, pre, kid, ps, rv, ca, v, sig. split_and!; try done.
    rewrite Ed at 1. rewrite (af_bytes _ _ _ A2), Hend, app_nil_r. done.
Qed.

(** The result of reading the blob [d]. *)
Definition good_key (d : list Z) (k : sshkey) : Prop :=
  plain_result k \/ exists u c, pub_ok u /\ k = pub_key (Some c) u /\ cert_ok d c.

Lemma type_plain_or_cert certd u : sshkey_type_is_cert (pub_typ certd u) = certd.
Proof. by destruct u, certd. Qed.

Lemma ends_from_blob_with fb (allow : bool) q :
  (allow = true -> forall ca, bytes ca -> ends_res (fb ca) plain_result) -> bytes (q_bytes q) ->
  ends (from_blob_with asserts fb allow) q (fun k q' => (if allow then good_key (q_bytes q) k else plain_result k) /\ q_bytes q' = []).
Proof.
  intros Hfb Hb. unfold from_blob_with. apply ends_bind, ends_get. apply ends_bind, ends_invalid, ends_cstring; [done|].
  intros kt q1 A1. destruct (after_bytes _ _ _ A1) as [_ B1]. apply ends_bind, ends_guard; [done|]. intros Hal.
  apply ends_bind, ends_blob_key; [done|]. intros k pre q2 A2 Hk. pose proof (after_trans _ _ _ _ _ A1 A2) as A.
  destruct Hk as [(certd & u & Hu & Ht & ->) | ->].
  - apply ends_bind. unfold sshkey_is_cert. assert (Hty : k_type (pub_key (if certd then Some cert_new else None) u) = pub_typ certd u) by by destruct certd.
    rewrite Hty, type_plain_or_cert. rewrite Ht, type_plain_or_cert in Hal. destruct certd.
    + rewrite orb_false_r in Hal. rewrite Hal. rewrite (af_bytes _ _ _ A) at 1.
      apply (ends_cert_parse fb u); [by apply Hfb|by rewrite <- (af_bytes _ _ _ A)|].
      intros c sig q3 A3 Hc. apply ends_bind, ends_at_end; [done|]. intros Hend. apply ends_ret. split; [|done].
      right. exists u, c. split_and!; [done|done|]. rewrite (af_bytes _ _ _ A). by apply Hc.
    + apply ends_ret, ends_bind, ends_at_end; [done|]. intros Hend. apply ends_ret. split; [|done].
      assert (plain_result (pub_key None u)) by (left; by exists u). destruct allow; [by left|done].
  - apply ends_bind. change (sshkey_is_cert unspec_key) with false. apply ends_ret, ends_bind, ends_at_end; [done|]. intros Hend. apply ends_ret.
    split; [|done]. destruct allow; [left|]; by right.
Qed.

Lemma ends_from_blob_plain depth d : bytes d -> ends_res (on_buf d (sshkey_from_blob_internal asserts (S depth) false)) plain_result.
Proof.
  intros Hd. apply ends_on_buf; [done|]. intros _. cbn [sshkey_from_blob_internal].
  eapply ends_mono; [by apply ends_from_blob_with|]. by intros k q' [H _].
Qed.
Lemma ends_from_blob d : bytes d -> ends_res (sshkey_from_blob asserts d) (good_key d).
Proof.
  intros Hd. apply ends_on_buf; [done|]. intros _.
  change (sshkey_from_blob_internal asserts blob_depth true)
    with (from_blob_with asserts (fun ca => on_buf ca (sshkey_from_blob_internal asserts 1 false)) true).
  pose proof (ends_from_blob_with (fun ca => on_buf ca (sshkey_from_blob_internal asserts 1 false)) true (sub_buf d)
    (fun _ => ends_from_blob_plain 0) Hd) as H.
  eapply ends_mono; [exact H|]. by intros k q' [Hk _].
Qed.
End Sound.

(** * The theorems *)

Section Blobs.
Context {C : Crypto} {EO : EcOct} {CU : Curves} {SP : SigPrims}.
Context {OL : EcOctLaws EO} {CL : CurvesLaws CU}.
Context (asserts : bool).
Local Abbreviation sshkey := SshKey.sshkey.

(** A plain key with the numbers [u], and perhaps private ones. *)
Record plain_key (k : sshkey) (u : pub) : Prop := {
  pk_type : k_type k = pub_typ false u;
  pk_flags : k_flags k = 0;
  pk_nid : k_ecdsa_nid k = pub_nid u;
  pk_pub : has_pub k u
}.

Lemma zlen_pub_blob u : pub_ok u -> zlen (pub_blob u) <= 8500.
Proof.
  intros Hu. unfold pub_blob. rewrite zlen_app, zlen_str32. pose proof (zlen_pub_body u Hu). pose proof (gn_len _ _ _ (pub_name_good false u Hu)). lia.
Qed.
Lemma small_size n : n <= 70000 -> n <= SSHBUF_SIZE_MAX.
Proof. rewrite size_max_eq. lia. Qed.

Lemma plain_to_blob k u : pub_ok u -> plain_key k u -> sshkey_to_blob k = Ok (pub_blob u).
Proof.
  intros Hu [Ht Hf Hn Hp]. apply new_buf_writes; [|apply small_size; pose proof (zlen_pub_blob u Hu); lia].
  apply writes_blob; try done. unfold sshkey_is_cert. by rewrite Ht, type_plain_or_cert.
Qed.
Lemma plain_from_blob_with fb (allow : bool) u max ro : pub_ok u ->
  from_blob_with asserts fb allow (Queue (pub_blob u) max ro) = (Ok (pub_key None u), Queue [] max ro).
Proof.
  intros Hu. pose proof (pub_name_good false u Hu) as G.
  assert (R1 : reads (invalid get_cstring) (str32 (pub_name false u)) (pub_name false u)).
  { apply reads_invalid, reads_cstring; [apply str_limit; pose proof (gn_len _ _ _ G); lia|apply (gn_nul _ _ _ G)]. }
  assert (R2 : reads (blob_key (pub_typ false u) (pub_name false u)) (pub_body u) (pub_key None u)).
  { apply (reads_blob_key false u [] _ Hu G). by rewrite zlen_nil. }
  unfold from_blob_with, pub_blob. rewrite (cbind_ok cget _ _ _ _ eq_refl). cbn zeta.
  rewrite (cbind_ok _ _ _ _ _ (R1 (pub_body u) max ro)), (gn_type _ _ _ G), type_plain_or_cert.
  rewrite orb_true_r, (cbind_ok (guard true SSH_ERR_KEY_CERT_INVALID_SIGN_KEY) _ _ tt _ eq_refl).
  rewrite <- (app_nil_r (pub_body u)), (cbind_ok _ _ _ _ _ (R2 [] max ro)). unfold sshkey_is_cert.
  change (k_type (pub_key None u)) with (pub_typ false u). by rewrite type_plain_or_cert.
Qed.
Lemma plain_from_blob_internal depth allow u : pub_ok u ->
  on_buf (pub_blob u) (sshkey_from_blob_internal asserts (S depth) allow) = Ok (pub_key None u).
Proof.
  intros Hu. assert (Hl : zlen (pub_blob u) <= SSHBUF_SIZE_MAX) by (apply small_size; pose proof (zlen_pub_blob u Hu); lia).
  unfold on_buf. rewrite (proj2 (Z.ltb_ge _ _) Hl).
  cbn [sshkey_from_blob_internal]. unfold sub_buf. by rewrite plain_from_blob_with.
Qed.

Lemma demote_plain k u : pub_ok u -> plain_key k u -> sshkey_demote k = Ok (pub_key None u).
Proof.
  intros Hu [Ht Hf Hn Hp]. unfold sshkey_demote. rewrite Ht, Hf, Hn. destruct u as [e n|p q g y|nid q|pk]; cbn [has_pub] in Hp.
  - destruct Hp as [pr ->]. reflexivity.
  - destruct Hp as [pr ->]. reflexivity.
  - destruct Hp as [_ [pr ->]]. destruct Hu as [Hu _]. cbn. by rewrite curve_named.
  - rewrite Hp. reflexivity.
Qed.

(** A public key that is written as a blob is read back: for a plain key of any type, with integers of at most 16384 bits or with a
    valid point on one of the three curves, [sshkey_to_blob] gives bytes that do not depend on its private numbers, and
    [sshkey_from_blob] of these bytes is the key that [sshkey_demote] makes, which holds the same public and no private numbers. *)
Theorem key_blob_roundtrip (k : sshkey) u : pub_ok u -> plain_key k u ->
  sshkey_to_blob k = Ok (pub_blob u) /\ sshkey_from_blob asserts (pub_blob u) = sshkey_demote k /\ sshkey_demote k = Ok (pub_key None u).
Proof.
  intros Hu Hk. split; [by apply plain_to_blob|]. rewrite (demote_plain k u Hu Hk). split; [|done]. by apply plain_from_blob_internal.
Qed.


(** ** What ebox.c relies on *)

(** The keys of [PivBox], which keep the numbers of EC keys only, as keys and of keys. *)
Definition to_sshkey (k : PivBox.sshkey) : sshkey :=
  match k with
  | EcKey nid p pr => Key KEY_ECDSA 0 None None nid (Some (Ec nid (Some p) pr)) None None None
  | OtherKey t => Key t 0 None None (-1) None None None None
  end.
Definition of_sshkey (k : sshkey) : PivBox.sshkey :=
  if k_type k =? KEY_ECDSA then
    match k_ecdsa k with Some (Ec nid (Some p) pr) => EcKey nid p pr | _ => OtherKey KEY_ECDSA end
  else OtherKey (k_type k).
Definition map_res {A B} (f : A -> B) (r : res Z A) : res Z B := let? a := r in Ok (f a).
Definition libssh_blobs : KeyBlobs := {|
  EboxTpl.sshkey_putb k := sshkey_to_blob (to_sshkey k);
  EboxTpl.sshkey_fromb d := map_res of_sshkey (sshkey_from_blob asserts d)
|}.

Lemma null_key_no_blob t d : sshkey_to_blob (to_sshkey (OtherKey t)) <> Ok d.
Proof.
  unfold sshkey_to_blob, to_blob, new_buf, to_blob_buf, sshkey_is_cert, to_sshkey. cbn [k_type k_cert k_dsa k_ecdsa k_rsa k_ed25519_pk k_ecdsa_nid].
  destruct (sshkey_type_is_cert t) eqn:Ec; [done|]. rewrite cbind_ret_l. cbn zeta.
  destruct (_ || _) eqn:Et; [|repeat (destruct (t =? _); [done|]); done].
  repeat apply orb_true_iff in Et as [Et | Et]; apply Z.eqb_eq in Et as ->; discriminate Ec.
Qed.
Lemma ec_blob_bytes nid p : sshkey_curve_nid_to_name nid <> None -> bytes (pub_blob (PEc nid p)).
Proof.
  intros Hn. assert (Hs : forall s, bytes s -> bytes (str32 s)) by (intros s Hs; apply Forall_app; split; [apply be_bytes_bytes|done]).
  unfold pub_blob, pub_body. apply Forall_app. split; [|apply Forall_app; split; apply Hs; [|apply unc_bytes]];
    destruct (curve_cases nid Hn) as [-> | [-> | ->]]; try apply Hs; apply bytesb_spec; reflexivity.
Qed.

(** The key blobs of sshkey.c are what the templates, eboxes and boxes rely on, when assertions are compiled out: reading any bytes returns, and
    what is written for a valid EC key, at most 65536 bytes, is read as its public key. *)
Theorem libssh_blob_laws : asserts = false -> KeyBlobLaws libssh_blobs.
Proof.
  intros Ha. constructor.
  - intros d Hd. pose proof (ends_from_blob asserts d Hd) as H. cbn [EboxTpl.sshkey_fromb libssh_blobs]. unfold map_res.
    destruct (sshkey_from_blob asserts d); try done. cbn [ends_res] in H. by rewrite Ha in H.
  - intros [nid p pr|t] d Hk Hd; [|by apply null_key_no_blob in Hd]. destruct Hk as [Hv Hn]. cbn [EboxTpl.sshkey_putb EboxTpl.sshkey_fromb libssh_blobs] in *.
    assert (Hu : pub_ok (PEc nid p)) by done.
    assert (K : plain_key (to_sshkey (EcKey nid p pr)) (PEc nid p)) by (constructor; try done; split; [done|by exists pr]).
    rewrite (plain_to_blob _ _ Hu K) in Hd. injection Hd as <-. split; [by apply ec_blob_bytes|].
    split; [pose proof (zlen_pub_blob _ Hu); lia|]. unfold sshkey_from_blob. by rewrite (plain_from_blob_internal 1 true).
Qed.
End Blobs.

Definition toy_u : pub (C := Toy.toy) := PEc NID_X9_62_prime256v1 true.
Definition toy_ec : PivBox.sshkey (C := Toy.toy) := EcKey NID_X9_62_prime256v1 true None.
Lemma key_blob_roundtrip_witness :
  sshkey_from_blob (CU := ToySsh.curves) (SP := ToySsh.sigs) true (pub_blob (EO := ToyKeys.ecoct) toy_u) =
    Ok (pub_key None toy_u).
Proof.
  destruct (key_blob_roundtrip (OL := ToyKeys.ecoct_laws) (CL := ToySsh.curves_laws) (SP := ToySsh.sigs) true (to_sshkey toy_ec) toy_u) as (_ & E & D).
  - by split.
  - constructor; [reflexivity..|]. by split; [|eexists].
  - rewrite E. exact D.
Defined.

(** A certificate on the EC key, signed by the same key. *)
Definition toy_signed : list Z := Eval vm_compute in
  str32 (zs "ecdsa-sha2-nistp256-cert-v01@openssh.com") ++ str32 (zs "nonce") ++ pub_body (EO := ToyKeys.ecoct) toy_u ++
  cert_tail (Cert [] SSH2_CERT_TYPE_HOST 5 None [] 1 2 [] [] (None : option (sshkey (C := Toy.toy)))) (zs "id") (str32 (zs "host")) []
    (pub_blob (EO := ToyKeys.ecoct) toy_u).
Definition toy_blob : list Z := Eval vm_compute in
  toy_signed ++ str32 (str32 (zs "ecdsa-sha2-nistp256") ++ str32 (bn_field 1 ++ bn_field (Toy.sum (digest (Crypto := Toy.toy) SSH_DIGEST_SHA256 toy_signed)))).

Lemma libssh_blob_laws_witness : KeyBlobLaws (libssh_blobs (EO := ToyKeys.ecoct) (CU := ToySsh.curves) (SP := ToySsh.sigs) false).
Proof. apply (libssh_blob_laws (OL := ToyKeys.ecoct_laws) (CL := ToySsh.curves_laws)). reflexivity. Defined.
