(* ===== verification/SshCert.v ===== *)
(** * Signatures and certificates that are accepted

    [SigLaws] is what is relied on of the signature primitives: a signature verifies with the public key of the key that made it.
    Proved: [sshkey_verify] accepts what [sshkey_sign] makes; a certificate that [sshkey_certify] makes is read back with its fields and
    the key of its authority. With an Ed25519 key the assertion of [ssh_ed25519_verify] is in the way. *)
From stdpp Require Import base list strings.
From Stdlib Require Import ZArith Lia.
From S2P Require Import Prelude Sshbuf Algs PivBox Hmac EboxTpl PivFiles PivCert PivKeys PivKeyCard Base64 SshKey SshSig SshBlob SshPub SshBlobOk.

Local Open Scope string_scope.
Local Open Scope list_scope.
Local Open Scope Z_scope.
Local Open Scope c_scope.

Class SigLaws {C : Crypto} (SP : SigPrims) := {
  ecdsa_round : forall nid d h r s, ECDSA_do_sign nid d h = Some (r, s) ->
    bn_ok r /\ bn_ok s /\ ECDSA_do_verify nid (ec_pub nid d) h r s = 1;
  (** the private half of the key is that of its public half *)
  rsa_pair : RSA -> Prop;
  ed25519_pair : list Z -> Prop;
  rsa_round : forall alg h rsa sig oid, rsa_pair rsa -> RSA_sign (rsa_hash_alg_nid alg) h rsa = Some sig -> rsa_hash_alg_oid alg = Some oid ->
    RSA_public_decrypt (zrepeat (RSA_size rsa - zlen sig) 0 ++ sig) (Rsa (rsa_n rsa) (rsa_e rsa) None) = Some (oid ++ h);
  (** the private key of ed25519/ is a seed and the public key *)
  ed25519_round : forall m sk sm, ed25519_pair sk -> crypto_sign_ed25519 m sk = Some sm ->
    exists sig, sm = sig ++ m /\ zlen sig = crypto_sign_ed25519_BYTES /\ crypto_sign_ed25519_open sm (drop 32 sk) = Some m
}.

Module ToySig.
#[local] Existing Instance Toy.toy.
#[local] Existing Instance ToySsh.sigs.
Lemma small_bn v : 0 <= v < 256 -> bn_ok v.
Proof. intros H. split; [lia|]. etrans; [apply (BN_num_bytes_le v 1); [lia|exact H]|]. done. Qed.
Lemma skip_zeros_pad n b s : b <> 0 -> skip_zeros (zrepeat n 0 ++ b :: s) = b :: s.
Proof.
  intros Hb. unfold zrepeat. induction (Z.to_nat n) as [|k IH]; [|exact IH]. cbn. by destruct b.
Qed.
Definition laws : SigLaws ToySsh.sigs.
Proof.
  refine {| rsa_pair _ := True; ed25519_pair _ := True |}.
  - intros nid d h r s [= <- <-]. assert (0 <= Toy.sum h < 256) by (apply Z.mod_pos_bound; lia).
    split_and!; [apply small_bn; by destruct d|by apply small_bn|]. cbn [ECDSA_do_verify ToySsh.sigs]. destruct d; cbn; by rewrite Z.eqb_refl.
  - intros alg h rsa sig oid _ [= <-] Ho. cbn. rewrite skip_zeros_pad by done. rewrite Z.eqb_refl. do 2 f_equal.
    unfold rsa_hash_alg_oid in Ho. unfold rsa_hash_alg_nid. destruct (alg =? SSH_DIGEST_SHA1); [by injection Ho as <-|].
    destruct (alg =? SSH_DIGEST_SHA256); [by injection Ho as <-|]. destruct (alg =? SSH_DIGEST_SHA512); [by injection Ho as <-|done].
  - intros m sk sm _ E. cbn [crypto_sign_ed25519 crypto_sign_ed25519_open ToySsh.sigs] in *.
    set (t := zrepeat 64 (Toy.sum (drop 32 sk ++ m))) in E. assert (Ht : length t = 64%nat) by apply length_replicate.
    apply (inj Some) in E as <-. exists t. split; [done|]. split; [unfold zlen; by rewrite Ht|].
    rewrite <- Ht, drop_app_length, take_app_length. by rewrite bool_decide_true.
Defined.
End ToySig.

Section Sign.
Context {C : Crypto} {L : CryptoLaws C} {EO : EcOct} {CU : Curves} {SP : SigPrims} {SL : SigLaws SP}.
Context (asserts : bool).
Local Abbreviation sshkey := SshKey.sshkey.
Local Abbreviation cert := (@sshkey_cert sshkey).

(** The private key of [k] belongs to its public key [u]. *)
Definition key_pair (k : sshkey) (u : pub) : Prop :=
  match u with
  | PEc nid q => exists d, k_ecdsa k = Some (Ec nid (Some (ec_pub nid d)) (Some d)) /\ q = ec_pub nid d
  | PEd pk => exists sk, k_ed25519_sk k = Some sk /\ ed25519_pair sk /\ pk = drop 32 sk
  | PRsa _ _ => exists rsa, k_rsa k = Some rsa /\ rsa_pair rsa
  | PDsa _ _ _ _ => True
  end.
(** A verification that an assertion stops. *)
Definition stopped (u : pub) : bool := match u with PEd _ => asserts | _ => false end.

Lemma new_buf_inv m bs r : writes m bs -> zlen bs <= SSHBUF_SIZE_MAX -> new_buf m = Ok r -> r = bs.
Proof. intros H Hl. rewrite (new_buf_writes m bs H Hl). by intros [= <-]. Qed.

Lemma reads_get_sig name body : no_nul name = true -> zlen name <= 2049 -> zlen body <= SSHBUF_SIZE_MAX - 4 ->
  reads get_sig (str32 name ++ str32 body) (name, body).
Proof.
  intros Hn Hl Hb. eapply rd_bind; [apply reads_cstring; [by apply str_limit|done]|]. eapply reads_last; [by apply rd_string|apply rd_ret].
Qed.
Lemma writes_sig name body : no_nul name = true -> zlen name <= 2049 -> zlen body <= SSHBUF_SIZE_MAX - 4 ->
  writes (put_sig (Some name) body) (str32 name ++ str32 body).
Proof. intros. apply writes_seq; [by apply writes_cstring|by apply writes_string]. Qed.
Lemma zlen_sig name body : zlen (str32 name ++ str32 body) = 8 + zlen name + zlen body.
Proof. rewrite zlen_app, !zlen_str32. lia. Qed.

Lemma end_ok {A} (b : A) e n : fst ((at_end e ;! cret b) (Queue [] n true)) = Ok b.
Proof. reflexivity. Qed.
Lemma guard_end {A} (b : A) c e e' n : c = true -> fst ((guard c e ;! at_end e' ;! cret b) (Queue [] n true)) = Ok b.
Proof. by intros ->. Qed.

(** ** ECDSA *)

Lemma curve_hash nid : sshkey_curve_nid_to_name nid <> None ->
  let a := sshkey_ec_nid_to_hash_alg nid in alg_known a = true /\ (a =? -1) = false /\ (ssh_digest_bytes a =? 0) = false /\ ssh_digest_bytes a <= 64.
Proof. intros H. by destruct (curve_cases nid H) as [-> | [-> | ->]]. Qed.
Lemma digest_memory_ok alg m : alg_known alg = true -> ssh_digest_bytes alg <= 64 -> ssh_digest_memory alg m SSH_DIGEST_MAX_LENGTH = Ok (digest alg m).
Proof.
  intros Ha Hl. unfold ssh_digest_memory, SSH_DIGEST_MAX_LENGTH. rewrite Ha. cbn [negb orb]. change (2 ^ 32 - 1 <? 64) with false. cbn [orb].
  by replace (64 <? _) with false by lia.
Qed.
Lemma rs_bytes r s : bn_ok r -> bn_ok s -> zlen (bn_field r ++ bn_field s) <= 4200.
Proof. intros Hr Hs. rewrite zlen_app. pose proof (zlen_bn_field r Hr). pose proof (zlen_bn_field s Hs). lia. Qed.

Lemma ecdsa_sign_verify k nid q data sig : pub_ok (PEc nid q) -> plain_key k (PEc nid q) -> key_pair k (PEc nid q) ->
  ssh_ecdsa_sign k data = Ok sig -> ssh_ecdsa_verify (pub_key None (PEc nid q)) sig data = Ok tt.
Proof.
  intros Hu [Ht _ Hnid _] (d & Hk & Hq). pose proof Hu as [Hn _]. cbn [pub_nid] in Hnid. subst q. unfold ssh_ecdsa_sign. rewrite Hk, Ht.
  change (sshkey_type_plain (pub_typ false (PEc nid (ec_pub nid d))) =? KEY_ECDSA) with true. cbn [negb]. unfold hash_of_curve. rewrite Hnid.
  destruct (curve_hash nid Hn) as (Ha & H1 & H2 & H3). rewrite H1, H2. cbn [orb]. rewrite (digest_memory_ok _ _ Ha H3). cbn [rbind eck_priv eck_nid].
  destruct (ECDSA_do_sign nid d _) as [[r s]|] eqn:Es; [|done]. destruct (ecdsa_round _ _ _ _ _ Es) as (Hr & Hs & Hv).
  pose proof (rs_bytes r s Hr Hs) as Hrs. pose proof (str_limit (zlen (bn_field r ++ bn_field s))) as Hsl.
  assert (Hsm : zlen (bn_field r ++ bn_field s) <= SSHBUF_SIZE_MAX - 4) by (rewrite size_max_eq; lia).
  rewrite (new_buf_writes (put_rs r s) (bn_field r ++ bn_field s)); [|apply writes_seq; by apply writes_bignum2|apply small_size; lia]. cbn [rbind].
  unfold sshkey_ssh_name_plain. rewrite Ht, Hnid. pose proof (pub_name_good false _ Hu) as G.
  change (sshkey_type_plain (pub_typ false (PEc nid (ec_pub nid d)))) with (pub_typ false (PEc nid (ec_pub nid d))).
  pose proof (gn_some _ _ _ G) as Hgs. cbn [pub_nid] in Hgs. rewrite Hgs. set (name := pub_name false (PEc nid (ec_pub nid d))) in *.
  pose proof (gn_len _ _ _ G) as Hl. fold name in Hl. intros E. apply (new_buf_inv _ (str32 name ++ str32 (bn_field r ++ bn_field s))) in E as ->.
  2: { apply writes_sig; [apply (gn_nul _ _ _ G)|lia|done]. }
  2: { rewrite zlen_sig. apply small_size. lia. }
  unfold ssh_ecdsa_verify. cbn [k_ecdsa pub_key k_type certified pub_nid k_ecdsa_nid eck_nid eck_pub].
  change (sshkey_type_plain (pub_typ false (PEc nid (ec_pub nid d))) =? KEY_ECDSA) with true. cbn [negb orb].
  pose proof (zlen_nonneg name). pose proof (zlen_nonneg (bn_field r ++ bn_field s)).
  rewrite zlen_sig. replace (_ =? 0) with false by lia. cbn zeta. rewrite H1, H2. cbn [orb].
  rewrite (on_buf_then _ _ _ (name, bn_field r ++ bn_field s)); [|apply reads_invalid, reads_get_sig; [apply (gn_nul _ _ _ G)|lia|done]|
    rewrite zlen_sig; apply small_size; lia]. cbn iota. unfold sshkey_ssh_name_plain. cbn [k_type k_ecdsa_nid pub_key certified pub_nid].
  change (sshkey_type_plain (pub_typ false (PEc nid (ec_pub nid d)))) with (pub_typ false (PEc nid (ec_pub nid d))). rewrite Hgs.
  rewrite guard_end by by apply bool_decide_true. cbn [rbind].
  rewrite (on_buf_then _ _ _ (r, s)); [|apply reads_invalid; eapply rd_bind; [by apply reads_bignum2|];
    eapply reads_last; [by apply reads_bignum2|apply rd_ret]|apply small_size; lia].
  rewrite end_ok. cbn [rbind]. rewrite (digest_memory_ok _ _ Ha H3). cbn [rbind].
  by rewrite Hv.
Qed.

(** ** RSA *)

Record rsa_alg (h : Z) (name oid : list Z) : Prop := {
  ra_ident : rsa_hash_alg_ident h = Some name;
  ra_oid : rsa_hash_alg_oid h = Some oid;
  ra_from : rsa_hash_alg_from_ident name = h;
  ra_name : no_nul name = true /\ zlen name <= 100;
  ra_known : alg_known h = true /\ (h =? -1) = false;
  ra_len : ssh_digest_bytes h <= 64 /\ (ssh_digest_bytes h =? 0) = false
}.
Lemma rsa_alg_ok h : h = SSH_DIGEST_SHA1 \/ h = SSH_DIGEST_SHA256 \/ h = SSH_DIGEST_SHA512 -> exists name oid, rsa_alg h name oid.
Proof. by intros [-> | [-> | ->]]; eexists _, _; constructor. Qed.
Lemma from_ident_cases a : (rsa_hash_alg_from_ident a =? -1) = false ->
  rsa_hash_alg_from_ident a = SSH_DIGEST_SHA1 \/ rsa_hash_alg_from_ident a = SSH_DIGEST_SHA256 \/ rsa_hash_alg_from_ident a = SSH_DIGEST_SHA512.
Proof. unfold rsa_hash_alg_from_ident. destruct (_ || _); [by left|]. destruct (streq _ _); [by right; left|]. destruct (streq _ _); [by right; right|done]. Qed.

Lemma rsa_verify_padded h name oid rsa digest sigblob : rsa_alg h name oid -> zlen digest = ssh_digest_bytes h ->
  0 < RSA_size rsa <= SSHBUF_MAX_BIGNUM -> zlen sigblob = RSA_size rsa -> RSA_public_decrypt sigblob rsa = Some (oid ++ digest) ->
  openssh_RSA_verify h digest sigblob rsa = Ok tt.
Proof.
  intros A Hd Hs Hz Hp. unfold openssh_RSA_verify. rewrite (ra_oid _ _ _ A). cbn zeta. rewrite Hd, Z.eqb_refl. cbn [negb].
  replace (RSA_size rsa <=? 0) with false by lia. replace (SSHBUF_MAX_BIGNUM <? RSA_size rsa) with false by lia.
  rewrite Hz. replace (RSA_size rsa =? 0) with false by lia. rewrite Z.ltb_irrefl. cbn [orb]. rewrite Hp, zlen_app, Hd.
  replace (_ =? _) with true by lia. cbn [negb].
  rewrite !bool_decide_true; [done| |]; unfold zslice, zlen; rewrite ?Nat2Z.id.
  - rewrite drop_app_length. unfold zlen in Hd. rewrite <- Hd, Nat2Z.id. by apply take_ge.
  - by rewrite drop_0, take_app_length.
Qed.

Lemma rsa_sign_verify k e n data alg sig : plain_key k (PRsa e n) -> key_pair k (PRsa e n) ->
  ssh_rsa_sign k data alg = Ok sig -> ssh_rsa_verify (pub_key None (PRsa e n)) sig data = Ok tt.
Proof.
  intros [Ht _ _ [pr Hk]] (key & Hkey & Hpr). rewrite Hk in Hkey. injection Hkey as <-. unfold ssh_rsa_sign. rewrite Hk, Ht. cbn [rsa_n rsa_e].
  set (h := match alg with None | Some [] => _ | Some a => _ end). change (sshkey_type_plain (pub_typ false (PRsa e n)) =? KEY_RSA) with true. cbn [negb].
  rewrite orb_false_r. destruct (h =? -1) eqn:Eh; [done|]. cbn [orb]. destruct (BN_num_bits n <? _) eqn:Eb; [done|].
  set (rsa := Rsa n e pr). change (RSA_size rsa) with (RSA_size (Rsa n e None)). set (slen := RSA_size (Rsa n e None)).
  destruct (Z.leb_spec slen 0); [done|]. destruct (Z.ltb_spec SSHBUF_MAX_BIGNUM slen) as [|Hm]; [done|]. cbn [orb].
  assert (Hh : exists name oid, rsa_alg h name oid).
  { apply rsa_alg_ok. unfold h in *. destruct alg as [[|c a]|]; [by left|by apply from_ident_cases|by left]. }
  destruct Hh as (name & oid & A). destruct (ra_len _ _ _ A) as [Hl64 Hl0]. destruct (ra_name _ _ _ A) as [Hnul Hnl]. destruct (ra_known _ _ _ A) as [Hkn _].
  rewrite Hl0, (digest_memory_ok _ _ Hkn Hl64). cbn [rbind].
  destruct (RSA_sign _ _ rsa) as [raw|] eqn:Es; [|done]. destruct (Z.ltb_spec slen (zlen raw)) as [|Hraw]; [done|].
  rewrite (ra_ident _ _ _ A). set (body := zrepeat (slen - zlen raw) 0 ++ raw).
  assert (Hbl : zlen body = slen) by (unfold body; rewrite zlen_app, zlen_zrepeat; lia). change SSHBUF_MAX_BIGNUM with 2048 in Hm.
  assert (Hbs : zlen body <= SSHBUF_SIZE_MAX - 4) by (rewrite size_max_eq; lia).
  intros E. apply (new_buf_inv _ (str32 name ++ str32 body)) in E as ->; [|apply writes_sig; [done|lia|done]|rewrite zlen_sig; apply small_size; lia].
  unfold ssh_rsa_verify. cbn [k_rsa pub_key k_type certified rsa_n]. change (sshkey_type_plain (pub_typ false (PRsa e n)) =? KEY_RSA) with true. rewrite Eb.
  change (negb true) with false. rewrite !orb_false_l, zlen_sig. pose proof (zlen_nonneg name). replace (8 + _ + _ =? 0) with false by lia.
  assert (R : on_buf (str32 name ++ str32 body) (
      let! ktype := invalid get_cstring in
      let hash_alg := rsa_hash_alg_from_ident ktype in
      guard (negb (hash_alg =? -1)) SSH_ERR_KEY_TYPE_MISMATCH ;!
      let! sigblob := invalid get_string in
      at_end SSH_ERR_UNEXPECTED_TRAILING_DATA ;!
      cret (hash_alg, sigblob)) = Ok (h, body)).
  { assert (Hz : zlen (str32 name ++ str32 body) <= SSHBUF_SIZE_MAX) by (rewrite zlen_sig; apply small_size; lia).
    unfold on_buf, sub_buf. rewrite (proj2 (Z.ltb_ge _ _) Hz).
    assert (R1 : reads (invalid get_cstring) (str32 name) name) by (apply reads_invalid, reads_cstring; [apply str_limit; lia|done]).
    assert (R2 : reads (invalid get_string) (str32 body) body) by by apply reads_invalid, rd_string.
    rewrite (cbind_ok _ _ _ _ _ (R1 _ _ _)). cbn zeta. rewrite (ra_from _ _ _ A), Eh. cbn [negb].
    rewrite (cbind_ok (guard true _) _ _ tt _ eq_refl). rewrite <- (app_nil_r (str32 body)). by rewrite (cbind_ok _ _ _ _ _ (R2 _ _ _)). }
  cbn zeta in R. rewrite R. cbn [rbind]. cbn zeta. fold slen. rewrite Hbl, Z.ltb_irrefl, Z.sub_diag. change (zrepeat 0 0) with (@nil Z). cbn [app].
  rewrite Hl0, (digest_memory_ok _ _ Hkn Hl64). cbn [rbind]. apply (rsa_verify_padded h name oid); [done|by apply digest_len|by split; [lia|change SSHBUF_MAX_BIGNUM with 2048]|done|].
  apply (rsa_round h _ rsa raw oid Hpr Es (ra_oid _ _ _ A)).
Qed.

(** ** Ed25519 *)

Lemma ed25519_sign_verify k pk data sig : plain_key k (PEd pk) -> key_pair k (PEd pk) -> ssh_ed25519_sign k data = Ok sig ->
  ssh_ed25519_verify asserts (pub_key None (PEd pk)) sig data = if asserts then Panic else Ok tt.
Proof.
  intros [Ht _ _ _] (sk & Hsk & Hpr & ->). unfold ssh_ed25519_sign. rewrite Hsk, Ht. change (sshkey_type_plain (pub_typ false (PEd (drop 32 sk))) =? KEY_ED25519) with true.
  change (negb true) with false. rewrite !orb_false_l. destruct (INT_MAX - crypto_sign_ed25519_BYTES <=? zlen data) eqn:Ed; [done|].
  destruct (crypto_sign_ed25519 data sk) as [sm|] eqn:Es; [|done]. destruct (ed25519_round _ _ _ Hpr Es) as (raw & -> & Hl & Ho).
  change crypto_sign_ed25519_BYTES with 64 in *. rewrite zlen_app, Hl. replace (64 + zlen data <=? zlen data) with false by lia. rewrite Z.add_simpl_r.
  replace (zslice (raw ++ data) 0 64) with raw by (rewrite <- Hl; unfold zslice, zlen; by rewrite Nat2Z.id, drop_0, take_app_length).
  set (name := zs "ssh-ed25519"). change (zlen name) with 11 in *.
  assert (Hn11 : zlen name = 11) by reflexivity. assert (Hbs : zlen raw <= SSHBUF_SIZE_MAX - 4) by (rewrite Hl, size_max_eq; lia).
  intros E. apply (new_buf_inv _ (str32 name ++ str32 raw)) in E as ->; [|apply writes_sig; [reflexivity|rewrite Hn11; lia|done]|rewrite zlen_sig; apply small_size; lia].
  unfold ssh_ed25519_verify. cbn [k_ed25519_pk pub_key k_type certified]. change (sshkey_type_plain (pub_typ false (PEd (drop 32 sk))) =? KEY_ED25519) with true.
  change crypto_sign_ed25519_BYTES with 64. rewrite Ed. change (negb true) with false. rewrite !orb_false_l, zlen_sig, Hn11, Hl. change (8 + 11 + 64 =? 0) with false. cbn iota.
  rewrite (on_buf_then _ _ _ (name, raw)); [|apply reads_get_sig; [reflexivity|rewrite Hn11; lia|done]|rewrite zlen_sig; apply small_size; lia].
  cbn iota. unfold name at 1 2. rewrite streq_refl. rewrite Hl. change (64 <? 64) with false.
  assert (HS : (SIZE_MAX - 64 <=? zlen data) = false) by (unfold INT_MAX in Ed; change SIZE_MAX with (2 ^ 64 - 1); lia).
  rewrite HS. change (fst (cbind (guard true _) _ _)) with (@Ok Z (list Z) raw). cbn [rbind]. rewrite Ho.
  destruct asserts; [done|]. by rewrite Z.eqb_refl.
Qed.

Lemma verify_nonempty k sig data : zlen sig = 0 ->
  (exists e, ssh_ecdsa_verify k sig data = Er e) /\ (exists e, ssh_rsa_verify k sig data = Er e) /\ (exists e, ssh_ed25519_verify asserts k sig data = Er e).
Proof.
  intros Hz. unfold ssh_ecdsa_verify, ssh_rsa_verify, ssh_ed25519_verify. rewrite Hz. change (0 =? 0) with true.
  split_and!; [destruct (k_ecdsa k)|destruct (k_rsa k)|destruct (k_ed25519_pk k)]; rewrite ?orb_true_r; eexists; reflexivity.
Qed.
Lemma sign_verify_ok (k : sshkey) u (data sig : list Z) alg : pub_ok u -> plain_key k u -> key_pair k u ->
  sshkey_sign k data alg = Ok sig ->
  sshkey_verify asserts (pub_key None u) sig data = if stopped u then Panic else Ok tt.
Proof.
  intros Hu Hk Hp. unfold sshkey_sign, sshkey_verify. rewrite (pk_type _ _ Hk). change (k_type (pub_key None u)) with (pub_typ false u).
  destruct (SSH_KEY_MAX_SIGN_DATA_SIZE <? zlen data); [done|]. rewrite orb_false_r. intros Hs.
  destruct (Z.eqb_spec (zlen sig) 0) as [Hz|_].
  { destruct (verify_nonempty (pub_key None u) sig data Hz) as ((e1 & H1) & (e2 & H2) & (e3 & H3)).
    destruct u as [e n|p q g y|nid q|pk]; cbn in Hs; [|done|..].
    - by rewrite (rsa_sign_verify k e n data alg sig Hk Hp Hs) in H2.
    - by rewrite (ecdsa_sign_verify k nid q data sig Hu Hk Hp Hs) in H1.
    - rewrite (ed25519_sign_verify k pk data sig Hk Hp Hs) in H3. by destruct asserts. }
  destruct u as [e n|p q g y|nid q|pk]; cbn in Hs |- *; [|done|..].
  - by apply (rsa_sign_verify k e n data alg).
  - by apply (ecdsa_sign_verify k nid q data).
  - by apply (ed25519_sign_verify k pk data).
Qed.

(** [sshkey_verify] accepts, with the public key alone, what [sshkey_sign] made with the private key, for RSA with any of its digests and ECDSA on any of the
    three curves; a correct Ed25519 signature is accepted when assertions are compiled out and stops the program when they are compiled in. *)
Theorem sign_verify (k : sshkey) u (data sig : list Z) alg : pub_ok u -> plain_key k u -> key_pair k u ->
  sshkey_sign k data alg = Ok sig ->
  sshkey_verify asserts (pub_key None u) sig data = if stopped u then Panic else Ok tt.
Proof. apply sign_verify_ok. Qed.
End Sign.

Definition toy_ed : sshkey (C := Toy.toy) := Key KEY_ED25519 0 None None (-1) None (Some (zrepeat 64 5)) (Some (zrepeat 32 5)) None.
Definition toy_rsa : sshkey (C := Toy.toy) := Key KEY_RSA 0 (Some (Rsa (2 ^ 1023 + 77) 65537 (Some (RsaPrivate 3 0 0 0 0 0)))) None (-1) None None None None.
Lemma sign_verify_witness :
  (exists sig, sshkey_sign (SP := ToySsh.sigs) toy_rsa (zs "data") (Some (zs "rsa-sha2-256")) = Ok sig /\
    sshkey_verify (SP := ToySsh.sigs) true (pub_key None (PRsa 65537 (2 ^ 1023 + 77))) sig (zs "data") = Ok tt) /\
  exists sig, sshkey_sign (SP := ToySsh.sigs) toy_ed (zs "data") None = Ok sig /\
    sshkey_verify (SP := ToySsh.sigs) true (pub_key None (PEd (zrepeat 32 5))) sig (zs "data") = Panic.
Proof.
  split.
  - destruct (sshkey_sign (SP := ToySsh.sigs) toy_rsa (zs "data") (Some (zs "rsa-sha2-256"))) as [sig|e| |] eqn:E; [|vm_compute in E; discriminate E..].
    exists sig. split; [reflexivity|].
    apply (sign_verify (L := Toy.toy_laws) (SL := ToySig.laws) true toy_rsa (PRsa 65537 (2 ^ 1023 + 77)) (zs "data") sig (Some (zs "rsa-sha2-256"))).
    + split; split; vm_compute; discriminate.
    + constructor; try reflexivity. by eexists.
    + eexists. by split.
    + exact E.
  - destruct (sshkey_sign (SP := ToySsh.sigs) toy_ed (zs "data") None) as [sig|e| |] eqn:E; [|vm_compute in E; discriminate E..].
    exists sig. split; [reflexivity|].
    apply (sign_verify (L := Toy.toy_laws) (SL := ToySig.laws) true toy_ed (PEd (zrepeat 32 5)) (zs "data") sig None).
    + reflexivity.
    + constructor; reflexivity.
    + eexists. by split.
    + exact E.
Defined.

(** * Certification *)

Section Certify.
Context {C : Crypto} {L : CryptoLaws C} {EO : EcOct} {OL : EcOctLaws EO} {CU : Curves} {CL : CurvesLaws CU} {SP : SigPrims} {SL : SigLaws SP}.
Context (asserts : bool).
Local Abbreviation sshkey := SshKey.sshkey.
Local Abbreviation cert := (@sshkey_cert sshkey).

Definition names_bytes (ps : list (list Z)) : list Z := flat_map str32 ps.
Record fields_ok (c : cert) (kid : list Z) : Prop := {
  fo_type : cert_type c = SSH2_CERT_TYPE_USER \/ cert_type c = SSH2_CERT_TYPE_HOST;
  fo_numbers : 0 <= serial c < 2 ^ 64 /\ 0 <= valid_after c < 2 ^ 64 /\ 0 <= valid_before c < 2 ^ 64;
  fo_kid : key_id c = Some kid /\ no_nul kid = true;
  fo_names : Forall (fun n => no_nul n = true) (principals c) /\ zlen (principals c) <= SSHKEY_CERT_MAX_PRINCIPALS;
  fo_options : cert_options_ok (critical c) = Ok tt /\ cert_options_ok (extensions c) = Ok tt
}.
(** The bytes that are signed. *)
Definition cert_msg (u : pub) (c : cert) (kid nonce ca_blob : list Z) : list Z :=
  str32 (pub_name true u) ++ str32 nonce ++ pub_body u ++ cert_tail c kid (names_bytes (principals c)) [] ca_blob.
(** A key that is to be certified. *)
Record cert_key (k : sshkey) (u : pub) (c : cert) : Prop := {
  ce_type : k_type k = pub_typ true u;
  ce_nid : k_ecdsa_nid k = pub_nid u;
  ce_pub : has_pub k u;
  ce_cert : k_cert k = Some c
}.

Lemma zlen_tail c kid ps rv ca : zlen (cert_tail c kid ps rv ca) =
  52 + zlen kid + zlen ps + zlen (critical c) + zlen (extensions c) + zlen rv + zlen ca.
Proof. unfold cert_tail. rewrite !zlen_app, !zlen_str32, !zlen_be_bytes. lia. Qed.

Lemma writes_names ps : Forall (fun n => no_nul n = true) ps -> zlen (names_bytes ps) <= SSHBUF_SIZE_MAX - 4 -> writes (put_names ps) (names_bytes ps).
Proof.
  induction 1 as [|n ps Hn _ IH]; cbn [put_names names_bytes flat_map]; [intros; apply writes_ret|].
  rewrite zlen_app, zlen_str32. fold (names_bytes ps). pose proof (zlen_nonneg n). pose proof (zlen_nonneg (names_bytes ps)). intros Hl.
  apply writes_seq; [|apply IH; lia]. unfold put_cstring, opt_str. rewrite (proj1 (no_nul_c_str n Hn)). apply writes_string. lia.
Qed.
Lemma reads_names room ps max ro : Forall (fun n => no_nul n = true) ps -> (length ps <= room)%nat -> zlen (names_bytes ps) <= SSHBUF_SIZE_MAX - 4 ->
  cert_principals room (Queue (names_bytes ps) max ro) = (Ok ps, Queue [] max ro).
Proof.
  intros Hn. revert room. induction Hn as [|n ps Hn _ IH]; intros room Hl Hz; [by destruct room|].
  destruct room as [|room]; [cbn in Hl; lia|]. cbn [cert_principals]. rewrite (cbind_ok cget _ _ _ _ eq_refl). cbn [q_bytes].
  change (names_bytes (n :: ps)) with (str32 n ++ names_bytes ps) in *. rewrite zlen_app, zlen_str32 in Hz. rewrite zlen_app, zlen_str32. pose proof (zlen_nonneg n). pose proof (zlen_nonneg (names_bytes ps)).
  replace (4 + zlen n + zlen (names_bytes ps) <=? 0) with false by lia.
  assert (R : reads (invalid get_cstring) (str32 n) n) by (apply reads_invalid, reads_cstring; [lia|done]).
  rewrite (cbind_ok _ _ _ _ _ (R _ _ _)). rewrite (cbind_ok _ _ _ _ _ (IH room ltac:(cbn in Hl; lia) ltac:(lia))). done.
Qed.

Lemma writes_key_part k u c : pub_ok u -> cert_key k u c -> writes (cert_key_part k) (pub_body u).
Proof.
  intros Hu [Ht Hn Hp _]. unfold cert_key_part. rewrite Ht, Hn. destruct u as [e n|p q g y|nid q|pk]; cbn [pub_typ pub_ok has_pub pub_body pub_nid] in *.
  - destruct Hp as [pr ->]. destruct Hu. apply writes_seq; by apply writes_bignum2.
  - destruct Hp as [pr ->]. destruct Hu as (? & ? & ? & ?). do 3 (apply writes_seq; [by apply writes_bignum2|]). by apply writes_bignum2.
  - destruct Hp as [_ [pr ->]]. destruct Hu as [Hu _]. destruct (curve_name_facts nid Hu) as (cn & -> & _ & Hnul & Hl). change (default [] (Some cn)) with cn.
    apply writes_seq; [apply writes_cstring; [done|lia]|apply writes_ec].
  - rewrite Hp. apply writes_string. rewrite Hu. done.
Qed.

Lemma writes_cert_signed k u c kid nonce ca : pub_ok u -> cert_key k u c -> fields_ok c kid ->
  zlen (cert_msg u c kid nonce ca) <= SSHBUF_SIZE_MAX - 4 -> writes (cert_signed k c nonce ca) (cert_msg u c kid nonce ca).
Proof.
  intros Hu Hk [_ _ [Hkid Hnul] [Hns _] _] Hl. unfold cert_msg in Hl. rewrite !zlen_app, !zlen_str32, zlen_tail, zlen_nil in Hl.
  pose proof (zlen_nonneg (pub_name true u)). pose proof (zlen_nonneg nonce). pose proof (zlen_nonneg (pub_body u)). pose proof (zlen_nonneg kid).
  pose proof (zlen_nonneg (names_bytes (principals c))). pose proof (zlen_nonneg (critical c)). pose proof (zlen_nonneg (extensions c)). pose proof (zlen_nonneg ca).
  pose proof (pub_name_good true u Hu) as G. unfold cert_signed, cert_msg, cert_tail. unfold cert_name. rewrite (ce_type _ _ _ Hk), (ce_nid _ _ _ Hk), (gn_some _ _ _ G).
  assert (Ws : forall v, zlen v <= SSHBUF_SIZE_MAX - 4 -> writes (put_string v) (str32 v)) by apply writes_string.
  apply writes_seq; [apply writes_cstring; [apply (gn_nul _ _ _ G)|pose proof (gn_len _ _ _ G); lia]|].
  apply writes_seq; [apply Ws; lia|]. apply writes_seq; [by eapply writes_key_part|].
  do 2 (apply writes_seq; [apply writes_append|]). rewrite Hkid. unfold put_cstring, opt_str. rewrite (proj1 (no_nul_c_str kid Hnul)).
  apply writes_seq; [apply Ws; lia|]. eapply writes_lift; [apply new_buf_writes; [apply writes_names; [done|lia]|lia]|].
  apply writes_seq; [apply Ws; lia|]. do 2 (apply writes_seq; [apply writes_append|]).
  do 2 (apply writes_seq; [apply Ws; lia|]). apply writes_seq; [by apply Ws|]. apply Ws. lia.
Qed.

Lemma reads_cert_body c kid ps rv ca : fields_ok c kid -> zlen (cert_tail c kid ps rv ca) <= SSHBUF_SIZE_MAX - 4 ->
  reads cert_body (cert_tail c kid ps rv ca)
    (Cert [] (cert_type c) (serial c) (Some kid) [] (valid_after c) (valid_before c) (critical c) (extensions c) None, ps, ca).
Proof.
  intros [Hty (Hs & Ha & Hb) [_ Hnul] _ _] Hl. rewrite zlen_tail in Hl. pose proof (zlen_nonneg kid). pose proof (zlen_nonneg ps). pose proof (zlen_nonneg rv).
  pose proof (zlen_nonneg (critical c)). pose proof (zlen_nonneg (extensions c)). pose proof (zlen_nonneg ca).
  unfold cert_body, cert_tail.
  eapply rd_bind; [apply reads_u; exact Hs|]. eapply rd_bind; [apply reads_u; destruct Hty as [-> | ->]; by vm_compute|].
  eapply rd_bind; [apply reads_cstring; [lia|done]|]. eapply rd_bind; [apply rd_string; lia|].
  eapply rd_bind; [apply reads_u; exact Ha|]. eapply rd_bind; [apply reads_u; exact Hb|]. do 3 (eapply rd_bind; [apply rd_string; lia|]).
  eapply reads_last; [apply rd_string; lia|apply rd_ret].
Qed.

Lemma new_buf_signed a b r : new_buf (q_append a ;! put_string b) = Ok r ->
  r = a ++ str32 b /\ zlen r <= SSHBUF_SIZE_MAX /\ zlen b <= SSHBUF_SIZE_MAX - 4.
Proof.
  unfold new_buf, put_string, q_put_string, q_append, cbind, cget, guard, cput, cret, craise. cbn [q_ro q_bytes q_max negb app].
  destruct (Z.leb_spec (zlen (@nil Z) + zlen a) SSHBUF_SIZE_MAX); [|done]. cbn [q_ro q_bytes q_max negb app].
  destruct (Z.ltb_spec (SSHBUF_SIZE_MAX - 4) (zlen b)); [done|]. cbn [negb]. rewrite <- zlen_app. fold (str32 b).
  cbn [q_ro q_bytes q_max negb]. destruct (Z.leb_spec (zlen (a ++ str32 b)) SSHBUF_SIZE_MAX); [|done]. intros [= <-]. split_and!; [done|done|lia].
Qed.

(** The certificate as it is read. *)
Definition read_back (blob : list Z) (c : cert) (kid : list Z) (ca : pub) : cert :=
  Cert blob (cert_type c) (serial c) (Some kid) (principals c) (valid_after c) (valid_before c) (critical c) (extensions c) (Some (pub_key None ca)).

Lemma copy_ok d : zlen d <= SSHBUF_SIZE_MAX -> sshbuf_copy d = Ok d.
Proof. apply new_buf_append. Qed.

Lemma cert_parse_made (fb : list Z -> res Z sshkey) u cu c kid nonce ca_blob sig max ro :
  let msg := cert_msg u c kid nonce ca_blob in
  fields_ok c kid -> zlen msg <= SSH_KEY_MAX_SIGN_DATA_SIZE -> zlen (msg ++ str32 sig) <= SSHBUF_SIZE_MAX -> zlen sig <= SSHBUF_SIZE_MAX - 4 ->
  fb ca_blob = Ok (pub_key None cu) -> sshkey_verify asserts (pub_key None cu) sig msg = (if stopped asserts cu then Panic else Ok tt) ->
  cert_parse asserts fb (pub_key (Some cert_new) u) (msg ++ str32 sig)
      (Queue (cert_tail c kid (names_bytes (principals c)) [] ca_blob ++ str32 sig) max ro) =
    if stopped asserts cu then (Panic, Queue [] max ro)
    else (Ok (pub_key (Some (read_back (msg ++ str32 sig) c kid cu)) u), Queue [] max ro).
Proof.
  intros msg F Hm Hbl Hsl Hfb Hv. pose proof F as [Hty _ _ [Hns Hnl] [Hcr Hex]].
  assert (Ht : zlen (cert_tail c kid (names_bytes (principals c)) [] ca_blob) <= SSH_KEY_MAX_SIGN_DATA_SIZE).
  { unfold msg, cert_msg in Hm. rewrite !zlen_app in Hm. pose proof (zlen_nonneg (str32 (pub_name true u))). pose proof (zlen_nonneg (str32 nonce)).
    pose proof (zlen_nonneg (pub_body u)). lia. }
  assert (HM : SSH_KEY_MAX_SIGN_DATA_SIZE <= SSHBUF_SIZE_MAX - 4) by done.
  pose proof (reads_cert_body c kid (names_bytes (principals c)) [] ca_blob F ltac:(lia)) as Rb.
  rewrite zlen_tail, zlen_nil in Ht. pose proof (zlen_nonneg kid). pose proof (zlen_nonneg (names_bytes (principals c))).
  pose proof (zlen_nonneg (critical c)). pose proof (zlen_nonneg (extensions c)). pose proof (zlen_nonneg ca_blob).
  unfold cert_parse. cbn [k_cert pub_key certblob cert_new].
  assert (Lf : forall A B (r : res Z A) a (f : A -> M Z queue B) q, r = Ok a -> cbind (lift r) f q = f a q) by by intros; subst.
  rewrite (Lf _ _ _ (msg ++ str32 sig)) by by rewrite new_buf_two, (proj2 (Z.leb_le _ _) Hbl).
  rewrite (cbind_ok _ _ _ _ _ (reads_invalid _ _ _ Rb (str32 sig) max ro)). cbn iota. rewrite (cbind_ok cget _ _ _ _ eq_refl). cbn zeta. cbn [q_bytes].
  rewrite zlen_app, Z.add_simpl_r.
  pose proof (reads_invalid _ _ _ (rd_string sig Hsl) [] max ro) as Rs. rewrite app_nil_r in Rs. rewrite (cbind_ok _ _ _ _ _ Rs).
  cbn [cert_type critical extensions serial key_id valid_after valid_before].
  rewrite (cbind_ok (guard _ _) _ _ tt (Queue [] max ro)) by by destruct Hty as [-> | ->].
  rewrite (Lf _ _ _ (principals c)).
  2: { unfold on_buf, sub_buf. replace (_ <? _) with false by lia. rewrite reads_names; [done|done| |lia].
       change (Z.to_nat SSHKEY_CERT_MAX_PRINCIPALS) with 256%nat. unfold zlen in Hnl. change SSHKEY_CERT_MAX_PRINCIPALS with 256 in Hnl. lia. }
  rewrite (Lf _ _ _ (critical c)) by (apply copy_ok; lia). rewrite (Lf _ _ _ (extensions c)) by (apply copy_ok; lia).
  rewrite (Lf _ _ _ tt) by exact Hcr. rewrite (Lf _ _ _ tt) by exact Hex. rewrite Hfb.
  rewrite (cbind_ok (cmaperr (fun _ => SSH_ERR_KEY_CERT_INVALID_SIGN_KEY) (lift (Ok (pub_key None cu)))) _ _ (pub_key None cu) (Queue [] max ro) eq_refl).
  rewrite (cbind_ok (guard _ _) _ _ tt (Queue [] max ro)) by by destruct cu.
  replace (zslice (msg ++ str32 sig) 0 (zlen msg)) with msg by (rewrite zslice_0; unfold zlen; by rewrite Nat2Z.id, take_app_length).
  rewrite Hv. by destruct (stopped asserts cu).
Qed.

(** C26: a certificate that [sshkey_certify] makes, with any authority but an Ed25519 key, is read by [sshkey_from_blob] as a certificate with all its fields, the
    public key that was certified and the public key of the authority; with an Ed25519 authority reading it stops the program when assertions are compiled in. *)
Theorem certify_accepted (k k' ca : sshkey) u cu c kid nonce alg :
  pub_ok u -> cert_key k u c -> fields_ok c kid -> pub_ok cu -> plain_key ca cu -> key_pair ca cu ->
  zlen nonce <= 2049 -> zlen (cert_msg u c kid nonce (pub_blob cu)) <= SSH_KEY_MAX_SIGN_DATA_SIZE ->
  sshkey_certify ca alg nonce k = (Ok tt, k') ->
  exists blob, k' = set_cert (Some (with_blob blob c)) k /\
    sshkey_from_blob asserts blob = if stopped asserts cu then Panic else Ok (pub_key (Some (read_back blob c kid cu)) u).
Proof.
  intros Hu Hk F Hcu Hca Hpair Hnl Hm. unfold sshkey_certify, sshkey_certify_custom. rewrite (ce_cert _ _ _ Hk).
  destruct (negb (sshkey_is_cert k)); [done|]. destruct (negb _); [done|]. rewrite (plain_to_blob ca cu Hcu Hca).
  set (msg := cert_msg u c kid nonce (pub_blob cu)) in *. assert (HM : SSH_KEY_MAX_SIGN_DATA_SIZE <= SSHBUF_SIZE_MAX - 4) by done.
  assert (Hm4 : zlen msg <= SSHBUF_SIZE_MAX - 4) by lia.
  rewrite (new_buf_writes _ msg); [|by apply (writes_cert_signed k u c kid)|lia]. cbn [rbind].
  destruct (sshkey_sign ca msg alg) as [sig|e| |] eqn:Es; cbn [rbind]; try done.
  destruct (new_buf (q_append msg ;! put_string sig)) as [blob|e| |] eqn:Eb; try done. intros [= <-]. exists blob. split; [done|].
  destruct (new_buf_signed _ _ _ Eb) as (-> & Hbl & Hsl).
  pose proof (sign_verify_ok asserts ca cu msg sig alg Hcu Hca Hpair Es) as Hv.
  unfold sshkey_from_blob, on_buf. rewrite (proj2 (Z.ltb_ge _ _) Hbl).
  change (sshkey_from_blob_internal asserts blob_depth true)
    with (from_blob_with asserts (fun ca => on_buf ca (sshkey_from_blob_internal asserts 1 false)) true).
  pose proof (pub_name_good true u Hu) as G. unfold from_blob_with, sub_buf. rewrite (cbind_ok cget _ _ _ _ eq_refl). cbn zeta. cbn [q_bytes].
  assert (R1 : reads (invalid get_cstring) (str32 (pub_name true u)) (pub_name true u)).
  { apply reads_invalid, reads_cstring; [apply str_limit; pose proof (gn_len _ _ _ G); lia|apply (gn_nul _ _ _ G)]. }
  pose proof (reads_blob_key true u nonce _ Hu G Hnl) as R2. set (max := zlen (msg ++ str32 sig)).
  set (tail := cert_tail c kid (names_bytes (principals c)) [] (pub_blob cu)).
  assert (E1 : invalid get_cstring (Queue (msg ++ str32 sig) max true) =
    (Ok (pub_name true u), Queue ((str32 nonce ++ pub_body u) ++ tail ++ str32 sig) max true)).
  { unfold msg, cert_msg. fold tail. rewrite <- !app_assoc. apply R1. }
  rewrite (cbind_ok _ _ _ _ _ E1), (gn_type _ _ _ G), type_plain_or_cert. cbn [negb orb]. rewrite (cbind_ok (guard true _) _ _ tt _ eq_refl).
  rewrite (cbind_ok _ _ _ _ _ (R2 (tail ++ str32 sig) max true)). unfold sshkey_is_cert at 1.
  change (k_type (pub_key (Some cert_new) u)) with (pub_typ true u). rewrite type_plain_or_cert.
  pose proof (cert_parse_made (fun ca => on_buf ca (sshkey_from_blob_internal asserts 1 false)) u cu c kid nonce (pub_blob cu) sig max true
    F Hm Hbl Hsl (plain_from_blob_internal asserts 0 false cu Hcu) Hv) as Hp. fold msg tail in Hp. unfold cbind at 1. rewrite Hp.
  by destruct (stopped asserts cu).
Qed.
End Certify.

Definition toy_cu : pub (C := Toy.toy) := PEc NID_secp384r1 true.
Definition toy_cert : @sshkey_cert (sshkey (C := Toy.toy)) :=
  Cert [] SSH2_CERT_TYPE_USER 7 (Some (zs "id")) [zs "root"; zs "admin"] 100 200 [] (str32 (zs "permit-pty") ++ str32 []) None.
Definition toy_k : sshkey (C := Toy.toy) := Key KEY_ED25519_CERT 0 None None (-1) None None (Some (zrepeat 32 9)) (Some toy_cert).
Definition toy_ca : sshkey (C := Toy.toy) :=
  Key KEY_ECDSA 0 None None NID_secp384r1 (Some (Ec NID_secp384r1 (Some true) (Some true))) None None None.
Lemma certify_accepted_witness :
  exists k' blob, sshkey_certify (EO := ToyKeys.ecoct) (SP := ToySsh.sigs) toy_ca None (zrepeat 32 4) toy_k = (Ok tt, k') /\
    sshkey_from_blob (CU := ToySsh.curves) (SP := ToySsh.sigs) true blob =
      Ok (pub_key (Some (read_back blob toy_cert (zs "id") toy_cu)) (PEd (zrepeat 32 9))).
Proof.
  assert (E1 : match fst (sshkey_certify (EO := ToyKeys.ecoct) (SP := ToySsh.sigs) toy_ca None (zrepeat 32 4) toy_k) with Ok _ => true | _ => false end = true)
    by (vm_compute; reflexivity).
  destruct (sshkey_certify (EO := ToyKeys.ecoct) (SP := ToySsh.sigs) toy_ca None (zrepeat 32 4) toy_k) as [[[]|e| |] k'] eqn:E; [|discriminate E1..].
  destruct (certify_accepted (L := Toy.toy_laws) (OL := ToyKeys.ecoct_laws) (CL := ToySsh.curves_laws) (SL := ToySig.laws) true
    toy_k k' toy_ca (PEd (zrepeat 32 9)) toy_cu toy_cert (zs "id") (zrepeat 32 4) None) as (blob & _ & Hb).
  - reflexivity.
  - constructor; reflexivity.
  - constructor.
    + by left.
    + cbn [serial valid_after valid_before toy_cert]. lia.
    + split; reflexivity.
    + split; [|cbn [principals toy_cert]; vm_compute; discriminate].
      cbn [principals toy_cert]. repeat (constructor; [reflexivity|]). constructor.
    + split; vm_compute; reflexivity.
  - by split.
  - constructor; [reflexivity..|]. by split; [|eexists].
  - exists true. split; reflexivity.
  - vm_compute. discriminate.
  - vm_compute. discriminate.
  - exact E.
  - exists k', blob. split; [reflexivity|exact Hb].
Defined.
