(* ===== verification/SshText.v ===== *)
(** * The text of public keys

    [sshkey_read] of libssh/sshkey.c reads what [sshkey_write] writes, with or without a comment after it, as pivy-agent and pivy-tool
    print and read lines of authorized keys. *)
From stdpp Require Import base list strings.
From Stdlib Require Import ZArith Lia.
From S2P Require Import Prelude Sshbuf Algs PivBox Hmac EboxTpl PivFiles PivCert PivKeys PivKeyCard Base64 SshKey SshSig SshBlob SshPub SshBlobOk.

Local Open Scope string_scope.
Local Open Scope list_scope.
Local Open Scope Z_scope.
Local Open Scope c_scope.

(** Characters of a word: neither the end of the string nor a space. *)
Definition word (s : list Z) : Prop := Forall (fun ch => ch <> 0 /\ ch <> 32) s.
Definition wordb (s : list Z) : bool := forallb (fun ch => negb (ch =? 0) && negb (ch =? 32)) s.
Lemma wordb_word s : wordb s = true -> word s.
Proof. induction s as [|x s IH]; [constructor|]. cbn. intros [Hx H]%andb_true_iff. constructor; [lia|by apply IH]. Qed.

Lemma c_str_end s : Forall (fun ch => ch <> 0) s -> c_str (s ++ [0]) = s.
Proof.
  intros H. assert (M : memchr0 (s ++ [0]) = Some (zlen s)).
  { induction H as [|x s Hx _ IH]; [done|]. cbn [app memchr0]. rewrite (proj2 (Z.eqb_neq _ _) Hx), IH. cbn. f_equal. rewrite zlen_cons. lia. }
  unfold c_str. rewrite M. unfold zlen. by rewrite Nat2Z.id, take_app_length.
Qed.
Lemma strchr_word s r : word s -> strchr (s ++ 32 :: r) 32 = Some (length s).
Proof. unfold strchr. induction 1 as [|x s [_ Hx] _ IH]; [done|]. cbn. rewrite decide_False by done. by destruct (list_find _ _) as [[? ?]|]; cbn in *; simplify_eq. Qed.
Lemma strchr_none s : word s -> strchr s 32 = None.
Proof. unfold strchr. induction 1 as [|x s [_ Hx] _ IH]; [done|]. cbn. rewrite decide_False by done. by destruct (list_find _ _). Qed.
Lemma b64_word d : bytes d -> word (b64 d).
Proof.
  intros Hd. pose proof (strip_b64 d Hd) as E. apply Forall_forall. intros x Hx. split.
  - by apply (proj1 (Forall_forall _ _) (b64_no_nul d)).
  - intros ->. rewrite <- E in Hx. by apply list_elem_of_filter in Hx as [? _].
Qed.
Lemma word_no_nul s : word s -> Forall (fun ch => ch <> 0) s.
Proof. intros H. eapply Forall_impl; [exact H|]. by intros x []. Qed.

Section Text.
Context {C : Crypto} {EO : EcOct} {OL : EcOctLaws EO} {CU : Curves} {CL : CurvesLaws CU} {SP : SigPrims}.
Context (asserts : bool).
Local Abbreviation sshkey := SshKey.sshkey.

Lemma pub_name_word u : pub_ok u -> word (pub_name false u) /\ pub_name false u <> [].
Proof.
  intros Hu. destruct u as [e n|p q g y|nid q|pk]; [split; [by apply wordb_word|done]..| |split; [by apply wordb_word|done]].
  destruct Hu as [Hn _]. destruct (curve_cases nid Hn) as [-> | [-> | ->]]; (split; [by apply wordb_word|done]).
Qed.
Lemma bytes_to_str32 s : bytes s -> bytes (str32 s).
Proof. intros Hs. apply Forall_app. split; [apply be_bytes_bytes|done]. Qed.
Lemma bn_field_bytes v : bytes (bn_field v).
Proof. apply bytes_to_str32, Forall_app. split; [by destruct (msb_set _); [apply bytesb_spec|]|apply be_bytes_bytes]. Qed.
(** A key whose bytes are bytes. *)
Definition pub_bytes (u : pub) : Prop := match u with PEd pk => bytes pk | _ => True end.
Lemma pub_blob_bytes u : pub_ok u -> pub_bytes u -> bytes (pub_blob u).
Proof.
  intros Hu Hb. destruct u as [e n|p q g y|nid q|pk].
  3: { destruct Hu as [Hn _]. by apply ec_blob_bytes. }
  all: apply Forall_app; split; [apply bytes_to_str32, bytesb_spec; reflexivity|]; cbn [pub_body];
    rewrite ?Forall_app; split_and?; try apply bn_field_bytes. by apply bytes_to_str32.
Qed.

(** The line that is written. *)
Definition key_line (u : pub) : list Z := pub_name false u ++ [32] ++ b64 (pub_blob u).
Lemma key_line_no_nul u : pub_ok u -> pub_bytes u -> Forall (fun ch => ch <> 0) (key_line u).
Proof.
  intros Hu Hb. apply Forall_app. split; [by apply word_no_nul, pub_name_word|]. constructor; [done|]. by apply word_no_nul, b64_word, pub_blob_bytes.
Qed.
Lemma zlen_key_line u : pub_ok u -> zlen (key_line u) <= 12000.
Proof.
  intros Hu. unfold key_line. rewrite !zlen_app, length_b64. pose proof (gn_len _ _ _ (pub_name_good false u Hu)). pose proof (zlen_pub_blob u Hu).
  change (zlen [32]) with 1. pose proof (zlen_nonneg (pub_blob u)). assert ((zlen (pub_blob u) + 2) / 3 <= 2834) by (apply Z.div_le_upper_bound; lia). lia.
Qed.

Lemma key_to_base64 k u : pub_ok u -> pub_bytes u -> plain_key k u -> sshkey_to_base64 k = Ok (b64 (pub_blob u)).
Proof.
  intros Hu Hb Hk. unfold sshkey_to_base64. change (new_buf (sshkey_putb k)) with (sshkey_to_blob k). rewrite (plain_to_blob k u Hu Hk). cbn [rbind].
  rewrite sshbuf_dtob64_spec; [done|by apply pub_blob_bytes|]. pose proof (zlen_pub_blob u Hu). assert (8500 < SIZE_MAX / 2) by reflexivity. lia.
Qed.
Lemma putf_text s q : zlen s <> 0 -> q_ro q = false -> zlen (q_bytes q) + zlen s + 1 <= q_max q ->
  putf s q = (Ok tt, Queue (q_bytes q ++ s) (q_max q) false).
Proof.
  intros Hs Hr Hl. unfold putf. rewrite (proj2 (Z.eqb_neq _ _) Hs). rewrite (cbind_ok _ _ _ _ _ (writes_append (s ++ [0]) q Hr ltac:(rewrite zlen_app; change (zlen [0]) with 1; lia))).
  unfold q_drop_end, cbind, cget, guard. cbn [q_bytes q_max q_ro]. rewrite app_assoc, zlen_app. change (zlen [0]) with 1.
  pose proof (zlen_nonneg (q_bytes q ++ s)). replace (_ <? 1) with false by lia. cbn. unfold zlen. rewrite take_app_length' by lia. done.
Qed.
Lemma key_write k u : pub_ok u -> pub_bytes u -> plain_key k u -> sshkey_write k true = Ok (key_line u).
Proof.
  intros Hu Hb Hk. unfold sshkey_write, new_buf, sshkey_format_text. rewrite (pk_type _ _ Hk).
  replace (pub_typ false u =? KEY_RSA1) with false by by destruct u. rewrite (key_to_base64 k u Hu Hb Hk). unfold cert_name. rewrite (pk_type _ _ Hk), (pk_nid _ _ Hk), (gn_some _ _ _ (pub_name_good false u Hu)).
  pose proof (zlen_key_line u Hu). assert (zlen (key_line u) <> 0).
  { unfold key_line. rewrite !zlen_app. change (zlen [32]) with 1. pose proof (zlen_nonneg (pub_name false u)). pose proof (zlen_nonneg (b64 (pub_blob u))). lia. }
  unfold cbind. cbn [lift]. rewrite putf_text; [done|done|done|]. cbn [q_bytes q_max]. rewrite zlen_nil, size_max_eq. fold (key_line u). lia.
Qed.

(** The line with what follows: a comment after a space, or nothing. *)
Definition after_key (comment : option (list Z)) : list Z := match comment with Some c => 32 :: c | None => [] end.
Definition pos_after (comment : option (list Z)) : nat := match comment with Some c => S (skip_blanks c) | None => O end.
(** The memory of the line afterwards: the space after the key is replaced by a NUL. *)
Definition mem_after (comment : option (list Z)) : list Z := match comment with Some c => 0 :: c | None => [] end.

Lemma new_buf_b64 heap d : (forall n, length (heap n) = n) -> bytes d -> zlen d <= SSHBUF_SIZE_MAX -> new_buf (sshbuf_b64tod heap (b64 d)) = Ok d.
Proof. intros Hh Hd Hl. unfold new_buf. rewrite (sshbuf_b64tod_ok heap (b64 d) d) by (done || by apply strip_b64). done. Qed.
Lemma word_after s c : word s -> strchr (s ++ after_key c) 32 = match c with Some _ => Some (length s) | None => None end.
Proof. intros Hs. destruct c as [c|]; cbn [after_key]; [by apply strchr_word|]. rewrite app_nil_r. by apply strchr_none. Qed.

(** The key is split from its line. *)
Lemma split_line nm b c : word b -> let line := nm ++ 32 :: b ++ after_key c in let rest := b ++ after_key c in
  (match strchr rest 32 with
  | Some sp => cput (<[(S (length nm) + sp)%nat := 0]> (line ++ [0])) ;!
               cret (take sp rest, (S (length nm) + S sp + skip_blanks (drop (S sp) rest))%nat)
  | None => cret (rest, length line)
  end : M Z (list Z) (list Z * nat)) (line ++ [0]) = (Ok (b, (length (nm ++ 32%Z :: b) + pos_after c)%nat), nm ++ 32 :: b ++ mem_after c ++ [0]).
Proof.
  intros Hb line rest. unfold rest at 1. rewrite word_after by done. destruct c as [c|]; cbn [after_key mem_after pos_after] in *.
  - unfold cbind, cput, cret. cbn iota beta. f_equal; [do 2 f_equal|].
    + unfold rest. by rewrite take_app_length.
    + unfold rest. replace (drop (S (length b)) (b ++ 32 :: c)) with c; [rewrite length_app; cbn; lia|].
      change (b ++ 32 :: c) with (b ++ [32] ++ c). rewrite app_assoc. replace (S (length b)) with (length (b ++ [32])) by (rewrite length_app; cbn; lia).
      by rewrite drop_app_length.
    + unfold line. rewrite <- !app_assoc. cbn [app]. rewrite <- app_assoc. cbn [app].
      change (nm ++ 32 :: b ++ 32 :: c ++ [0]) with (nm ++ [32] ++ b ++ 32 :: c ++ [0]). rewrite !app_assoc.
      replace (S (length nm) + length b)%nat with (length ((nm ++ [32%Z]) ++ b) + 0)%nat by (rewrite !length_app; cbn; lia).
      rewrite insert_app_r. cbn. by rewrite <- !app_assoc.
  - unfold cret, line, rest. rewrite app_nil_r, Nat.add_0_r. by rewrite <- app_assoc.
Qed.

Lemma key_read heap u c : pub_ok u -> pub_bytes u -> (forall n, length (heap n) = n) -> Forall (fun ch => ch <> 0) (default [] c) ->
  sshkey_read asserts heap unspec_key (key_line u ++ after_key c ++ [0]) =
    (Ok (pub_key None u, (length (key_line u) + pos_after c)%nat), key_line u ++ mem_after c ++ [0]).
Proof.
  intros Hu Hb Hh Hc. pose proof (pub_name_good false u Hu) as G. destruct (pub_name_word u Hu) as [Hw _].
  pose proof (b64_word _ (pub_blob_bytes u Hu Hb)) as Hbw. pose proof (split_line (pub_name false u) (b64 (pub_blob u)) c Hbw) as Hsp. cbn zeta in Hsp.
  assert (El : key_line u ++ after_key c = pub_name false u ++ 32 :: b64 (pub_blob u) ++ after_key c) by (unfold key_line; by rewrite <- !app_assoc).
  assert (En : Forall (fun ch => ch <> 0) (key_line u ++ after_key c)).
  { apply Forall_app. split; [by apply key_line_no_nul|]. destruct c; cbn in *; [by constructor|constructor]. }
  unfold sshkey_read. change (negb (readable (k_type unspec_key))) with false. cbn iota. rewrite (cbind_ok cget _ _ _ _ eq_refl). cbn zeta.
  rewrite (app_assoc (key_line u) (after_key c)), (c_str_end _ En), El, strchr_word by done. rewrite take_app_length, (gn_type _ _ _ G).
  replace (sshkey_type_plain (pub_typ false u)) with (pub_typ false u) by by destruct u.
  set (ecdsa := pub_typ false u =? KEY_ECDSA). set (nid := if ecdsa then _ else _).
  assert (Hnid : ecdsa && (nid =? -1) = false /\ negb ecdsa || (nid =? pub_nid u) = true).
  { unfold nid, ecdsa. destruct u as [| |nid' q|]; try by split. change (pub_typ false (PEc nid' q) =? KEY_ECDSA) with true. cbn iota. rewrite (gn_nid _ _ _ G nid' q eq_refl).
    destruct Hu as [Hn _]. by destruct (curve_cases nid' Hn) as [-> | [-> | ->]]. }
  destruct Hnid as [-> Hnid]. set (mem := (pub_name false u ++ 32 :: b64 (pub_blob u) ++ after_key c) ++ [0]) in *. rewrite (cbind_ok (guard _ _) _ _ tt mem) by by destruct u.
  assert (Ed : drop (S (length (pub_name false u))) (pub_name false u ++ 32 :: b64 (pub_blob u) ++ after_key c) = b64 (pub_blob u) ++ after_key c).
  { change (32 :: ?l) with ([32] ++ l). rewrite app_assoc. replace (S (length (pub_name false u))) with (length (pub_name false u ++ [32])) by (rewrite length_app; cbn; lia).
    by rewrite drop_app_length. }
  rewrite Ed. rewrite (cbind_ok (guard _ _) _ _ tt mem).
  2: { assert (0 < zlen (b64 (pub_blob u))). { rewrite length_b64. unfold pub_blob. rewrite zlen_app, zlen_str32. pose proof (zlen_nonneg (pub_name false u)). pose proof (zlen_nonneg (pub_body u)).
         assert (1 <= (4 + zlen (pub_name false u) + zlen (pub_body u) + 2) / 3) by (apply Z.div_le_lower_bound; lia). lia. }
       rewrite zlen_app. pose proof (zlen_nonneg (after_key c)). by replace (_ =? 0) with false by lia. }
  rewrite (cbind_ok (guard _ _) _ _ tt mem) by reflexivity. rewrite (cbind_ok _ _ _ _ _ Hsp). cbn iota.
  assert (Hl : zlen (pub_blob u) <= SSHBUF_SIZE_MAX) by (apply small_size; pose proof (zlen_pub_blob u Hu); lia).
  rewrite (new_buf_b64 heap _ Hh (pub_blob_bytes u Hu Hb) Hl).
  unfold sshkey_from_blob. change blob_depth with 2%nat.
  assert (Lf : forall A B (r : res Z A) a (f : A -> M Z (list Z) B) q, r = Ok a -> cbind (lift r) f q = f a q) by by intros; subst.
  rewrite (Lf _ _ _ (pub_blob u) _ _ eq_refl). rewrite (Lf _ _ _ (pub_key None u)) by by apply plain_from_blob_internal.
  change (k_type (pub_key None u)) with (pub_typ false u). change (k_ecdsa_nid (pub_key None u)) with (pub_nid u). rewrite Z.eqb_refl, Hnid.
  rewrite (cbind_ok (guard true _) _ _ tt _ eq_refl), (cbind_ok (guard true _) _ _ tt _ eq_refl).
  unfold cret. replace (move_key (pub_key None u) unspec_key) with (pub_key None u) by by destruct u.
  unfold key_line. cbn [app]. by rewrite <- app_assoc.
Qed.

(** The text of a public key: [sshkey_write] writes the name of the key's type, a space and its blob in base 64, and [sshkey_read] of this line, alone or with
    a comment after it, gives the public key, leaves the position at the comment (blanks skipped) and has cut the line there. *)
Theorem key_text_roundtrip (k : sshkey) u heap (comment : option (list Z)) : pub_ok u -> pub_bytes u -> plain_key k u ->
  (forall n, length (heap n) = n) -> Forall (fun ch => ch <> 0) (default [] comment) ->
  sshkey_write k true = Ok (key_line u) /\
  sshkey_read asserts heap unspec_key (key_line u ++ after_key comment ++ [0]) =
    (Ok (pub_key None u, (length (key_line u) + pos_after comment)%nat), key_line u ++ mem_after comment ++ [0]).
Proof. intros Hu Hb Hk Hh Hc. split; [by apply key_write|by apply key_read]. Qed.
End Text.

Definition toy_plain : sshkey (C := Toy.toy) := Key KEY_ED25519 0 None None (-1) None None (Some (zrepeat 32 9)) None.
Lemma key_text_roundtrip_witness :
  sshkey_write (EO := ToyKeys.ecoct) toy_plain true = Ok (zs "ssh-ed25519 AAAAC3NzaC1lZDI1NTE5AAAAIAkJCQkJCQkJCQkJCQkJCQkJCQkJCQkJCQkJCQkJCQkJ") /\
  sshkey_read (CU := ToySsh.curves) (SP := ToySsh.sigs) true (fun n => zrepeat (Z.of_nat n) 7) unspec_key
      (zs "ssh-ed25519 AAAAC3NzaC1lZDI1NTE5AAAAIAkJCQkJCQkJCQkJCQkJCQkJCQkJCQkJCQkJCQkJCQkJ  me" ++ [0]) =
    (Ok (pub_key None (PEd (zrepeat 32 9)), 82%nat),
     zs "ssh-ed25519 AAAAC3NzaC1lZDI1NTE5AAAAIAkJCQkJCQkJCQkJCQkJCQkJCQkJCQkJCQkJCQkJCQkJ" ++ [0] ++ zs " me" ++ [0]).
Proof.
  apply (key_text_roundtrip (OL := ToyKeys.ecoct_laws) (CL := ToySsh.curves_laws) (SP := ToySsh.sigs) true toy_plain (PEd (zrepeat 32 9))
    (fun n => zrepeat (Z.of_nat n) 7) (Some (zs " me"))).
  - reflexivity.
  - apply bytesb_spec. reflexivity.
  - constructor; reflexivity.
  - intros n. unfold zrepeat. by rewrite length_replicate, Nat2Z.id.
  - repeat (constructor; [discriminate|]). constructor.
Defined.
