(* ===== verification/SshPriv.v ===== *)
(** * Private keys (libssh/sshkey.c, rsa.c)

    The form private keys have inside key files, its reader, which pivy-tool uses to import keys, and the checks on EC keys.
    Proved: what is written for a private key, plain or certified, is read back; whatever the bytes, reading yields a key or an error,
    unless the name in front says that a certificate follows and the key that does is of another type: then a null pointer is followed. *)
From stdpp Require Import base list strings.
From Stdlib Require Import ZArith Lia.
From S2P Require Import Prelude Sshbuf Algs PivBox Hmac EboxTpl PivFiles PivCert PivKeys PivKeyCard Base64 SshKey SshSig SshBlob SshPub SshBlobOk.

Local Open Scope string_scope.
Local Open Scope list_scope.
Local Open Scope Z_scope.
Local Open Scope c_scope.

Class PrivPrims {C : Crypto} := {
  (** private keys as integers, and [EC_KEY_set_private_key]; a [None] is a failure *)
  scalar_bn : scalar -> Z;
  scalar_of : Z -> Z -> option scalar;
  (** [EC_GROUP_get_order] *)
  ec_order : Z -> Z;
  RSA_blinding_on : RSA -> bool
}.
(** [BN_mod], which fails for a divisor of 0 *)
Definition BN_mod (a m : Z) : option Z := if m =? 0 then None else Some (Z.rem a m).

Section Priv.
Context {C : Crypto} {EO : EcOct} {CU : Curves} {SP : SigPrims} {PP : PrivPrims}.
Context (asserts : bool).
Local Abbreviation sshkey := SshKey.sshkey.
Local Abbreviation cert := (@sshkey_cert sshkey).

Definition rsa_generate_additional_parameters (r : RSA) : res Z RSA :=
  match rsa_private r with
  | None => Fault
  | Some p =>
      match BN_mod (rsa_d p) (rsa_q p - 1), BN_mod (rsa_d p) (rsa_p p - 1) with
      | Some dmq1, Some dmp1 => Ok (Rsa (rsa_n r) (rsa_e r) (Some (RsaPrivate (rsa_d p) (rsa_iqmp p) (rsa_p p) (rsa_q p) dmp1 dmq1)))
      | _, _ => Er SSH_ERR_LIBCRYPTO_ERROR
      end
  end.

Definition sshkey_ec_validate_private (nid : Z) (d : scalar) : Z :=
  if BN_num_bits (scalar_bn d) <=? BN_num_bits (ec_order nid) / 2 then SSH_ERR_KEY_INVALID_EC_VALUE
  else if ec_order nid - 1 <=? scalar_bn d then SSH_ERR_KEY_INVALID_EC_VALUE
  else 0.

(** ** Writing *)

Definition put_certblob (k : sshkey) : M Z queue unit :=
  match k_cert k with
  | None => craise SSH_ERR_INVALID_ARGUMENT
  | Some c => guard (negb (zlen (certblob c) =? 0)) SSH_ERR_INVALID_ARGUMENT ;! put_string (certblob c)
  end.
Definition put_rsa_private (r : RSA) : M Z queue unit :=
  match rsa_private r with
  | None => cfault
  | Some p => put_bignum2 (rsa_d p) ;! put_bignum2 (rsa_iqmp p) ;! put_bignum2 (rsa_p p) ;! put_bignum2 (rsa_q p)
  end.
Definition put_dsa_private (d : DSA) : M Z queue unit :=
  match dsa_priv_key d with None => cfault | Some x => put_bignum2 x end.
Definition put_ec_private (e : EC_KEY) : M Z queue unit :=
  match eck_priv e with None => cfault | Some d => put_bignum2 (scalar_bn d) end.
Definition put_ed25519 (k : sshkey) : M Z queue unit :=
  match k_ed25519_pk k, k_ed25519_sk k with
  | Some pk, Some sk => put_string pk ;! put_string sk
  | _, _ => cfault
  end.

Definition sshkey_private_serialize (key : sshkey) : M Z queue unit :=
  put_cstring (cert_name key) ;!
  if k_type key =? KEY_RSA then
    match k_rsa key with None => cfault | Some r => put_bignum2 (rsa_n r) ;! put_bignum2 (rsa_e r) ;! put_rsa_private r end
  else if k_type key =? KEY_RSA_CERT then
    put_certblob key ;! match k_rsa key with None => cfault | Some r => put_rsa_private r end
  else if k_type key =? KEY_DSA then
    match k_dsa key with
    | None => cfault
    | Some d => put_bignum2 (dsa_p d) ;! put_bignum2 (dsa_q d) ;! put_bignum2 (dsa_g d) ;! put_bignum2 (dsa_pub_key d) ;! put_dsa_private d
    end
  else if k_type key =? KEY_DSA_CERT then
    put_certblob key ;! match k_dsa key with None => cfault | Some d => put_dsa_private d end
  else if k_type key =? KEY_ECDSA then
    put_cstring (sshkey_curve_nid_to_name (k_ecdsa_nid key)) ;!
    match k_ecdsa key with None => cfault | Some e => put_eckey e ;! put_ec_private e end
  else if k_type key =? KEY_ECDSA_CERT then
    put_certblob key ;! match k_ecdsa key with None => cfault | Some e => put_ec_private e end
  else if k_type key =? KEY_ED25519 then put_ed25519 key
  else if k_type key =? KEY_ED25519_CERT then put_certblob key ;! put_ed25519 key
  else craise SSH_ERR_INVALID_ARGUMENT.

(** ** Reading *)

Definition alloc_private (type : Z) : M Z queue sshkey :=
  match sshkey_new_private type with None => craise SSH_ERR_ALLOC_FAIL | Some k => cret k end.
(** The key of a certificate, with room for its private part. *)
Definition get_cert_key : M Z queue sshkey := let! k := sshkey_froms asserts in lift (sshkey_add_private k).
Definition get_rsa_private (n e : Z) (k : sshkey) : M Z queue sshkey :=
  let! d := get_bignum2 in
  let! iqmp := get_bignum2 in
  let! p := get_bignum2 in
  let! q := get_bignum2 in
  let! r := lift (rsa_generate_additional_parameters (Rsa n e (Some (RsaPrivate d iqmp p q 0 0)))) in
  cret (set_rsa r k).
Definition set_ec_private (e : EC_KEY) (x : Z) (k : sshkey) : M Z queue sshkey :=
  match scalar_of (eck_nid e) x with
  | None => craise SSH_ERR_LIBCRYPTO_ERROR
  | Some d =>
      match eck_pub e with
      | None => cfault
      | Some p =>
          let r := ec_validate (eck_nid e) p in
          guard (r =? 0) r ;!
          let r := sshkey_ec_validate_private (eck_nid e) d in
          guard (r =? 0) r ;!
          cret (set_ecdsa (k_ecdsa_nid k) (Some (Ec (eck_nid e) (Some p) (Some d))) k)
      end
  end.
Definition get_ed25519 (k : sshkey) : M Z queue sshkey :=
  let! pk := get_string in
  let! sk := get_string in
  guard ((zlen pk =? ED25519_PK_SZ) && (zlen sk =? ED25519_SK_SZ)) SSH_ERR_INVALID_FORMAT ;!
  cret (set_ed25519 (Some sk) (Some pk) k).
(** [type] is what the name [tname] stands for. *)
Definition private_parts (type : Z) (tname : list Z) : M Z queue sshkey :=
  if type =? KEY_DSA then
    let! k := alloc_private type in
    let! p := get_bignum2 in let! q := get_bignum2 in let! g := get_bignum2 in let! y := get_bignum2 in let! x := get_bignum2 in
    cret (set_dsa (Dsa p q g y (Some x)) k)
  else if type =? KEY_DSA_CERT then
    let! k := get_cert_key in
    match k_dsa k with
    | None => cfault
    | Some d => let! x := get_bignum2 in cret (set_dsa (Dsa (dsa_p d) (dsa_q d) (dsa_g d) (dsa_pub_key d) (Some x)) k)
    end
  else if type =? KEY_ECDSA then
    let! k := alloc_private type in
    let nid := sshkey_ecdsa_nid_from_name tname in
    guard (negb (nid =? -1)) SSH_ERR_INVALID_ARGUMENT ;!
    let! curve := get_cstring in
    guard (nid =? sshkey_curve_name_to_nid curve) SSH_ERR_EC_CURVE_MISMATCH ;!
    guard (ec_curve nid) SSH_ERR_LIBCRYPTO_ERROR ;!
    let! p := get_ec_point nid in
    let! x := get_bignum2 in
    set_ec_private (Ec nid (Some p) None) x (set_ecdsa nid None k)
  else if type =? KEY_ECDSA_CERT then
    let! k := get_cert_key in
    let! x := get_bignum2 in
    match k_ecdsa k with None => cfault | Some e => set_ec_private e x k end
  else if type =? KEY_RSA then
    let! k := alloc_private type in
    let! n := get_bignum2 in let! e := get_bignum2 in
    get_rsa_private n e k
  else if type =? KEY_RSA_CERT then
    let! k := get_cert_key in
    match k_rsa k with None => cfault | Some r => get_rsa_private (rsa_n r) (rsa_e r) k end
  else if type =? KEY_ED25519 then let! k := alloc_private type in get_ed25519 k
  else if type =? KEY_ED25519_CERT then let! k := get_cert_key in get_ed25519 k
  else craise SSH_ERR_KEY_TYPE_UNKNOWN.
Definition enable_blinding (k : sshkey) : M Z queue unit :=
  if rsa_type (k_type k) then match k_rsa k with None => cfault | Some r => guard (RSA_blinding_on r) SSH_ERR_LIBCRYPTO_ERROR end
  else cret tt.
Definition sshkey_private_deserialize : M Z queue sshkey :=
  let! tname := get_cstring in
  let! k := private_parts (sshkey_type_from_name tname) tname in
  enable_blinding k ;!
  cret k.

(** ** What is written is read back *)

Inductive prv := VRsa (p : RSA_private) | VDsa (x : Z) | VEc (d : scalar) | VEd (sk : list Z).
(** The key with the public numbers [u], the private ones [v] and perhaps a certificate. *)
Definition full_key (c : option cert) (u : pub) (v : prv) : option sshkey :=
  let k := pub_key c u in
  match u, v with
  | PRsa e n, VRsa p => Some (set_rsa (Rsa n e (Some p)) k)
  | PDsa p q g y, VDsa x => Some (set_dsa (Dsa p q g y (Some x)) k)
  | PEc nid q, VEc d => Some (set_ecdsa nid (Some (Ec nid (Some q) (Some d))) k)
  | PEd pk, VEd sk => Some (set_ed25519 (Some sk) (Some pk) k)
  | _, _ => None
  end.
Definition prv_ok (u : pub) (v : prv) : Prop :=
  match u, v with
  | PRsa e n, VRsa p =>
      bn_ok (rsa_d p) /\ bn_ok (rsa_iqmp p) /\ bn_ok (rsa_p p) /\ bn_ok (rsa_q p) /\
      BN_mod (rsa_d p) (rsa_p p - 1) = Some (rsa_dmp1 p) /\ BN_mod (rsa_d p) (rsa_q p - 1) = Some (rsa_dmq1 p) /\
      RSA_blinding_on (Rsa n e (Some p)) = true
  | PDsa _ _ _ _, VDsa x => bn_ok x
  | PEc nid q, VEc d => bn_ok (scalar_bn d) /\ scalar_of nid (scalar_bn d) = Some d /\ sshkey_ec_validate_private nid d = 0
  | PEd pk, VEd sk => zlen sk = ED25519_SK_SZ
  | _, _ => False
  end.
(** A certificate that [sshkey_from_blob] reads. *)
Definition cert_readable (u : pub) (c : cert) : Prop :=
  0 < zlen (certblob c) <= SSHBUF_SIZE_MAX - 4 /\ sshkey_from_blob asserts (certblob c) = Ok (pub_key (Some c) u).

Definition prv_bytes (v : prv) : list Z :=
  match v with
  | VRsa p => bn_field (rsa_d p) ++ bn_field (rsa_iqmp p) ++ bn_field (rsa_p p) ++ bn_field (rsa_q p)
  | VDsa x => bn_field x
  | VEc d => bn_field (scalar_bn d)
  | VEd sk => str32 sk
  end.
(** Private keys hold n before e. *)
Definition first_bytes (c : option cert) (u : pub) : list Z :=
  match c, u with
  | Some c, PEd pk => str32 (certblob c) ++ str32 pk
  | Some c, _ => str32 (certblob c)
  | None, PRsa e n => bn_field n ++ bn_field e
  | None, _ => pub_body u
  end.
Definition private_bytes (c : option cert) (u : pub) (v : prv) : list Z :=
  str32 (pub_name (certified c) u) ++ first_bytes c u ++ prv_bytes v.

Context {OL : EcOctLaws EO} {CL : CurvesLaws CU}.

Lemma writes_rsa_private n e p : bn_ok (rsa_d p) -> bn_ok (rsa_iqmp p) -> bn_ok (rsa_p p) -> bn_ok (rsa_q p) ->
  writes (put_rsa_private (Rsa n e (Some p))) (prv_bytes (VRsa p)).
Proof. intros. do 3 (apply writes_seq; [by apply writes_bignum2|]). by apply writes_bignum2. Qed.
Lemma writes_certblob k u c : k_cert k = Some c -> cert_readable u c -> writes (put_certblob k) (str32 (certblob c)).
Proof.
  intros Hk [Hl _]. unfold put_certblob. rewrite Hk. apply writes_guard; [apply negb_true_iff, Z.eqb_neq; lia|]. apply writes_string. lia.
Qed.
Lemma writes_pks pk sk : zlen pk = ED25519_PK_SZ -> zlen sk = ED25519_SK_SZ -> writes (put_string pk ;! put_string sk) (str32 pk ++ str32 sk).
Proof. intros Hp Hs. apply writes_seq; apply writes_string; [by rewrite Hp|by rewrite Hs]. Qed.
Lemma writes_cert_name k u certd : pub_ok u -> k_type k = pub_typ certd u -> k_ecdsa_nid k = pub_nid u ->
  writes (put_cstring (cert_name k)) (str32 (pub_name certd u)).
Proof.
  intros Hu Ht Hn. pose proof (pub_name_good certd u Hu) as G. unfold cert_name. rewrite Ht, Hn, (gn_some _ _ _ G).
  apply writes_cstring; [apply (gn_nul _ _ _ G)|pose proof (gn_len _ _ _ G); lia].
Qed.

Lemma writes_private c u v k : pub_ok u -> prv_ok u v -> (forall c', c = Some c' -> cert_readable u c') -> full_key c u v = Some k ->
  writes (sshkey_private_serialize k) (private_bytes c u v).
Proof.
  intros Hu Hv Hc Hk. unfold sshkey_private_serialize. apply writes_seq.
  { apply writes_cert_name; [done|..]; destruct u, v; try done; injection Hk as <-; by destruct c. }
  destruct u as [e n|p q g y|nid q|pk], v as [pr|x|d|sk]; try done; cbn [prv_ok pub_ok] in *; injection Hk as <-; destruct c as [c|].
  all: try (pose proof (Hc c eq_refl) as Hcr).
  - destruct Hv as (? & ? & ? & ? & _). apply writes_seq; [eapply writes_certblob; [reflexivity|exact Hcr]|by apply writes_rsa_private].
  - destruct Hv as (? & ? & ? & ? & _), Hu as [He Hn]. change (first_bytes None (PRsa e n)) with (bn_field n ++ bn_field e). rewrite <- app_assoc.
    do 2 (apply writes_seq; [by apply writes_bignum2|]). by apply writes_rsa_private.
  - apply writes_seq; [eapply writes_certblob; [reflexivity|exact Hcr]|by apply writes_bignum2].
  - destruct Hu as (? & ? & ? & ?). change (first_bytes None (PDsa p q g y)) with (bn_field p ++ bn_field q ++ bn_field g ++ bn_field y). rewrite <- !app_assoc.
    do 4 (apply writes_seq; [by apply writes_bignum2|]). by apply writes_bignum2.
  - destruct Hv as (? & _). apply writes_seq; [eapply writes_certblob; [reflexivity|exact Hcr]|by apply writes_bignum2].
  - destruct Hv as (? & _), Hu as [Hn _]. destruct (curve_name_facts nid Hn) as (name & Hname & _ & Hnul & Hl).
    change (first_bytes None (PEc nid q)) with (str32 (default [] (sshkey_curve_nid_to_name nid)) ++ str32 (ec_point2oct_unc nid q)). rewrite <- app_assoc.
    apply writes_seq; [cbn [k_ecdsa_nid set_ecdsa]; rewrite Hname; change (default [] (Some name)) with name; apply writes_cstring; [done|lia]|].
    apply writes_seq; [apply writes_ec|by apply writes_bignum2].
  - change (first_bytes (Some c) (PEd pk)) with (str32 (certblob c) ++ str32 pk). rewrite <- app_assoc.
    apply writes_seq; [eapply writes_certblob; [reflexivity|exact Hcr]|by apply writes_pks].
  - by apply writes_pks.
Qed.

Lemma reads_alloc_private {A} t k (f : sshkey -> M Z queue A) bs v : sshkey_new_private t = Some k -> reads (f k) bs v ->
  reads (let! k := alloc_private t in f k) bs v.
Proof. intros Hk. unfold alloc_private. by rewrite Hk. Qed.
Lemma rd_bn4 {A} a b c d (f : Z -> Z -> Z -> Z -> M Z queue A) bs v : bn_ok a -> bn_ok b -> bn_ok c -> bn_ok d -> reads (f a b c d) bs v ->
  reads (let! a := get_bignum2 in let! b := get_bignum2 in let! c := get_bignum2 in let! d := get_bignum2 in f a b c d)
    (bn_field a ++ bn_field b ++ bn_field c ++ bn_field d ++ bs) v.
Proof. intros. do 4 (eapply rd_bind; [by apply reads_bignum2|]). done. Qed.
Lemma reads_rsa_private n e p k v : set_rsa (Rsa n e (Some p)) k = v -> bn_ok (rsa_d p) -> bn_ok (rsa_iqmp p) -> bn_ok (rsa_p p) -> bn_ok (rsa_q p) ->
  BN_mod (rsa_d p) (rsa_p p - 1) = Some (rsa_dmp1 p) -> BN_mod (rsa_d p) (rsa_q p - 1) = Some (rsa_dmq1 p) ->
  reads (get_rsa_private n e k) (prv_bytes (VRsa p)) v.
Proof.
  intros <- Hd Hi Hp Hq E1 E2. unfold get_rsa_private, prv_bytes. rewrite <- (app_nil_r (bn_field (rsa_q p))). apply rd_bn4; [done..|].
  eapply reads_lift; [|apply rd_ret]. unfold rsa_generate_additional_parameters. cbn [rsa_private rsa_n rsa_e rsa_d rsa_p rsa_q rsa_iqmp]. rewrite E1, E2.
  by destruct p.
Qed.
Lemma reads_ec_private nid q d k v : set_ecdsa (k_ecdsa_nid k) (Some (Ec nid (Some q) (Some d))) k = v -> ec_validate nid q = 0 -> scalar_of nid (scalar_bn d) = Some d -> sshkey_ec_validate_private nid d = 0 ->
  reads (set_ec_private (Ec nid (Some q) None) (scalar_bn d) k) [] v.
Proof.
  intros <- H1 H2 H3. unfold set_ec_private. cbn [eck_nid eck_pub]. rewrite H2, H1, H3. apply rd_guard; [done|]. apply rd_guard; [done|]. apply rd_ret.
Qed.
Lemma reads_ed25519 pk sk k v : set_ed25519 (Some sk) (Some pk) k = v -> zlen pk = ED25519_PK_SZ -> zlen sk = ED25519_SK_SZ ->
  reads (get_ed25519 k) (str32 pk ++ str32 sk) v.
Proof.
  intros <- Hp Hs. unfold get_ed25519. eapply rd_bind; [apply rd_string; by rewrite Hp|]. eapply reads_last; [apply rd_string; by rewrite Hs|].
  apply rd_guard; [by rewrite Hp, Hs|apply rd_ret].
Qed.
(** The key of a certificate. *)
Lemma reads_cert_key {A} u c k (f : sshkey -> M Z queue A) bs v : cert_readable u c ->
  sshkey_add_private (pub_key (Some c) u) = Ok k -> reads (f k) bs v ->
  reads (let! k := get_cert_key in f k) (str32 (certblob c) ++ bs) v.
Proof.
  intros [Hl Hr] Hk Hf. unfold get_cert_key, sshkey_froms.
  eapply (rd_bind _ f (str32 (certblob c)) bs k); [|exact Hf]. eapply reads_last.
  - eapply reads_last; [apply rd_string; lia|]. unfold sshkey_from_blob in Hr. rewrite Hr. apply (rd_ret (pub_key (Some c) u)).
  - rewrite Hk. apply rd_ret.
Qed.

Lemma reads_private_parts c u v k : pub_ok u -> prv_ok u v -> (forall c', c = Some c' -> cert_readable u c') -> full_key c u v = Some k ->
  reads (private_parts (pub_typ (certified c) u) (pub_name (certified c) u)) (first_bytes c u ++ prv_bytes v) k.
Proof.
  intros Hu Hv Hc Hk. pose proof (pub_name_good (certified c) u Hu) as G.
  destruct u as [e n|p q g y|nid q|pk], v as [pr|x|d|sk]; try done; cbn [prv_ok pub_ok] in *; injection Hk as <-; destruct c as [c|].
  all: try (pose proof (Hc c eq_refl) as Hcr). all: cbn [certified pub_typ first_bytes] in *.
  - destruct Hv as (? & ? & ? & ? & ? & ? & _). eapply (reads_cert_key (PRsa e n)); [exact Hcr|reflexivity|]. by apply reads_rsa_private.
  - destruct Hv as (? & ? & ? & ? & ? & ? & _), Hu as [He Hn]. eapply reads_alloc_private; [reflexivity|]. rewrite <- app_assoc.
    do 2 (eapply rd_bind; [by apply reads_bignum2|]). by apply reads_rsa_private.
  - eapply (reads_cert_key (PDsa p q g y)); [exact Hcr|reflexivity|]. eapply reads_last; [by apply reads_bignum2|apply rd_ret].
  - destruct Hu as (? & ? & ? & ?). eapply reads_alloc_private; [reflexivity|]. cbn [pub_body]. rewrite <- !app_assoc. apply rd_bn4; [done..|].
    eapply reads_last; [by apply reads_bignum2|apply rd_ret].
  - destruct Hv as (? & ? & ?), Hu as [Hn Hval]. eapply (reads_cert_key (PEc nid q)); [exact Hcr|reflexivity|].
    eapply reads_last; [by apply reads_bignum2|]. by apply reads_ec_private.
  - destruct Hv as (? & ? & ?), Hu as [Hn Hval]. destruct (curve_name_facts nid Hn) as (name & Hname & Hcn & Hnul & Hl).
    pose proof (gn_nid _ _ _ G nid q eq_refl) as Hnid.
    apply (reads_alloc_private _ (Key KEY_ECDSA 0 None None (-1) None None None None)); [reflexivity|]. cbn [pub_body]. rewrite Hname, <- app_assoc.
    change (default [] (Some name)) with name. cbn zeta. rewrite Hnid.
    apply rd_guard; [by destruct (curve_cases nid Hn) as [-> | [-> | ->]]|]. eapply rd_bind; [apply reads_cstring; [apply str_limit; lia|done]|].
    apply rd_guard; [by rewrite Hcn, Z.eqb_refl|]. apply rd_guard; [by apply curve_named|]. eapply rd_bind; [apply reads_ec|].
    change (prv_bytes (VEc d)) with (bn_field (scalar_bn d)).
    eapply reads_last; [by apply (reads_bignum2 (scalar_bn d))|].
    by apply reads_ec_private.
  - rewrite <- app_assoc. eapply (reads_cert_key (PEd pk) c); [exact Hcr|reflexivity|]. by apply reads_ed25519.
  - eapply reads_alloc_private; [reflexivity|]. by apply reads_ed25519.
Qed.

(** A private key of any type, plain or with a certificate that [sshkey_from_blob] reads, is written by [sshkey_private_serialize] and read back by
    [sshkey_private_deserialize] as the same key, with the exponents of RSA computed again, whatever follows it in the buffer. *)
Theorem private_key_roundtrip c u v k rest max ro : pub_ok u -> prv_ok u v -> (forall c', c = Some c' -> cert_readable u c') -> full_key c u v = Some k ->
  zlen (private_bytes c u v) <= SSHBUF_SIZE_MAX ->
  new_buf (sshkey_private_serialize k) = Ok (private_bytes c u v) /\
  sshkey_private_deserialize (Queue (private_bytes c u v ++ rest) max ro) = (Ok k, Queue rest max ro).
Proof.
  intros Hu Hv Hc Hk Hl. split; [apply new_buf_writes; [by apply writes_private|done]|].
  pose proof (pub_name_good (certified c) u Hu) as G.
  enough (R : reads sshkey_private_deserialize (private_bytes c u v) k) by apply R.
  unfold sshkey_private_deserialize, private_bytes. eapply rd_bind; [apply reads_cstring; [apply str_limit; pose proof (gn_len _ _ _ G); lia|apply (gn_nul _ _ _ G)]|].
  rewrite (gn_type _ _ _ G). eapply reads_last; [by apply reads_private_parts|].
  intros rest' max' ro'. unfold enable_blinding.
  destruct u as [e n|p q g y|nid q|pk], v as [pr|x|d|sk]; try done; injection Hk as <-; destruct c; try reflexivity.
  - destruct Hv as (_ & _ & _ & _ & _ & _ & Hv). cbn -[RSA_blinding_on]. by rewrite Hv.
  - destruct Hv as (_ & _ & _ & _ & _ & _ & Hv). cbn -[RSA_blinding_on]. by rewrite Hv.
Qed.

(** ** Reading any bytes *)

(** The name says that a certificate follows, and a key of another kind does. *)
Definition confused (q : queue) : Prop :=
  exists tname q1 k q2, get_cstring q = (Ok tname, q1) /\ get_cert_key q1 = (Ok k, q2) /\
    sshkey_type_is_cert (sshkey_type_from_name tname) = true /\ sshkey_type_plain (k_type k) <> sshkey_type_plain (sshkey_type_from_name tname).

(** As [ends], where [P] excuses a memory fault. *)
Definition ends_or {A} (P : Prop) (m : M Z queue A) (q : queue) (Q : A -> queue -> Prop) : Prop :=
  match m q with
  | (Ok a, q') => Q a q'
  | (Er e, _) => e < 0
  | (Panic, _) => asserts = true
  | (Fault, _) => P
  end.
Lemma ends_or_of {A} P (m : M Z queue A) q Q : ends asserts m q Q -> ends_or P m q Q.
Proof. unfold ends, ends_or. by destruct (m q) as [[] ?]. Qed.
Lemma ends_or_bind {A B} P (m : M Z queue A) (f : A -> M Z queue B) q Q0 Q :
  ends asserts m q Q0 -> (forall a q', m q = (Ok a, q') -> Q0 a q' -> ends_or P (f a) q' Q) -> ends_or P (let! x := m in f x) q Q.
Proof. unfold ends, ends_or, cbind. intros H Hf. destruct (m q) as [[a|e| |] q'] eqn:E; try done. by apply Hf. Qed.

Context (validate_code : forall nid p, ec_validate nid p <= 0).

(** A key with all its parts, read from a prefix of [q]. *)
Definition private_ok (q : queue) (k : sshkey) (q' : queue) : Prop :=
  (exists pre, after q pre q') /\ exists c u v, full_key c u v = Some k.
Lemma ends_bn {A} (f : Z -> M Z queue A) q q1 pre (Q : A -> queue -> Prop) : after q pre q1 ->
  (forall v pre q', after q pre q' -> ends asserts (f v) q' Q) -> ends asserts (let! v := get_bignum2 in f v) q1 Q.
Proof.
  intros Ha Hf. destruct (after_bytes _ _ _ Ha) as [_ Hb]. apply ends_bind, ends_bignum; [done|]. intros v p q' A' _.
  exact (Hf v _ _ (after_trans _ _ _ _ _ Ha A')).
Qed.
Lemma ends_rsa_private q q1 pre n e c k : after q pre q1 -> (forall p, set_rsa (Rsa n e (Some p)) k = set_rsa (Rsa n e (Some p)) (pub_key c (PRsa e n))) ->
  ends asserts (get_rsa_private n e k) q1 (private_ok q).
Proof.
  intros Ha Hk. unfold get_rsa_private. eapply ends_bn; [exact Ha|]. intros d p1 q2 A1. eapply ends_bn; [exact A1|]. intros i p2 q3 A2.
  eapply ends_bn; [exact A2|]. intros p p3 q4 A3. eapply ends_bn; [exact A3|]. intros qq p4 q5 A4.
  apply ends_bind, ends_lift. unfold rsa_generate_additional_parameters. cbn [rsa_private rsa_d rsa_q rsa_p rsa_iqmp rsa_n rsa_e].
  destruct (BN_mod d (qq - 1)); [|done]. destruct (BN_mod d (p - 1)); [|done]. apply ends_ret. split; [by eexists|].
  eexists c, (PRsa e n), (VRsa _). cbn [full_key]. f_equal. symmetry. apply Hk.
Qed.
Lemma ends_ec_private q q1 pre nid p pr x c k : after q pre q1 ->
  (forall d, set_ecdsa (k_ecdsa_nid k) (Some (Ec nid (Some p) (Some d))) k = set_ecdsa nid (Some (Ec nid (Some p) (Some d))) (pub_key c (PEc nid p))) ->
  ends asserts (set_ec_private (Ec nid (Some p) pr) x k) q1 (private_ok q).
Proof.
  intros Ha Hk. unfold set_ec_private. cbn [eck_nid eck_pub]. destruct (scalar_of nid x) as [d|]; [|by apply ends_raise].
  assert (Hg : forall r m, r <= 0 -> (r = 0 -> ends asserts m q1 (private_ok q)) -> ends asserts (guard (r =? 0) r ;! m) q1 (private_ok q)).
  { intros r m Hr Hm. destruct (Z.eqb_spec r 0) as [->|Hn]; [by apply Hm|]. unfold ends, cbind, guard, craise. lia. }
  apply Hg; [apply validate_code|]. intros _. apply Hg.
  { unfold sshkey_ec_validate_private. destruct (_ <=? _); [done|]. by destruct (_ <=? _). }
  intros _. apply ends_ret. split; [by eexists|]. exists c, (PEc nid p), (VEc d). cbn [full_key]. f_equal. symmetry. apply Hk.
Qed.
Lemma ends_ed25519 q q1 pre (Q : sshkey -> queue -> Prop) k : after q pre q1 ->
  (forall pk sk pre q', after q pre q' -> Q (set_ed25519 (Some sk) (Some pk) k) q') -> ends asserts (get_ed25519 k) q1 Q.
Proof.
  intros Ha HQ. unfold get_ed25519. destruct (after_bytes _ _ _ Ha) as [_ Hb]. apply ends_bind, ends_string; [done|]. intros pk q2 A1 _.
  destruct (after_bytes _ _ _ A1) as [_ Hb1]. apply ends_bind, ends_string; [done|]. intros sk q3 A2 _.
  apply ends_bind, ends_guard; [done|]. intros _. apply ends_ret. eapply HQ. eapply after_trans; [|exact A2]. by eapply after_trans.
Qed.

(** What [get_cert_key] can return: a key that was read, with room for its private part. *)
Definition roomy_key (c : option cert) (u : pub) : sshkey :=
  match u with
  | PRsa e n => set_rsa (Rsa n e (Some (RsaPrivate 0 0 0 0 0 0))) (pub_key c u)
  | PDsa p q g y => set_dsa (Dsa p q g y (Some 0)) (pub_key c u)
  | _ => pub_key c u
  end.
Lemma add_private_pub c u : sshkey_add_private (pub_key c u) = Ok (roomy_key c u).
Proof. by destruct c, u. Qed.
Lemma roomy_type c u : sshkey_type_plain (k_type (roomy_key c u)) = pub_typ false u.
Proof. by destruct c, u. Qed.
Definition roomy (k : sshkey) : Prop := (exists c u, k = roomy_key c u) \/ k = unspec_key.
Lemma ends_cert_key q : bytes (q_bytes q) -> ends asserts get_cert_key q (fun k q' => (exists pre, after q pre q') /\ roomy k).
Proof.
  intros Hb. unfold get_cert_key, sshkey_froms. apply ends_bind, ends_bind, ends_string; [done|]. intros d q1 A1 _.
  destruct (after_bytes _ _ _ A1) as [Hd _]. apply bytes_str32 in Hd. apply ends_lift. eapply ends_res_mono; [by apply ends_from_blob|].
  intros k [[(u & _ & ->) | ->]|(u & c & _ & -> & _)]; apply ends_lift; rewrite ?add_private_pub;
    (split; [by eexists|]); [left; by eexists _, _|by right|left; by eexists _, _].
Qed.

Definition private_result (q : queue) (k : sshkey) (q' : queue) : Prop :=
  (exists pre, after q pre q') /\ (confused q \/ exists c u v, full_key c u v = Some k).
Lemma private_ok_result q k q' : private_ok q k q' -> private_result q k q'.
Proof. intros [H1 H2]. split; [done|by right]. Qed.

(** A certificate's name and the key that followed it. *)
Lemma ends_cert_private q q1 t tname pre : get_cstring q = (Ok tname, q1) -> sshkey_type_from_name tname = t -> sshkey_type_is_cert t = true -> after q pre q1 ->
  ends_or (confused q) (private_parts t tname) q1 (private_result q).
Proof.
  intros E Et Hcert Ha. destruct (after_bytes _ _ _ Ha) as [_ Hb].
  assert (HC : forall k q2, get_cert_key q1 = (Ok k, q2) -> sshkey_type_plain (k_type k) <> sshkey_type_plain t -> confused q).
  { intros k q2 Ek Hk. exists tname, q1, k, q2. by rewrite Et. }
  assert (HR : forall f, (forall k q2 pre2, get_cert_key q1 = (Ok k, q2) -> after q pre2 q2 -> roomy k -> ends_or (confused q) (f k) q2 (private_result q)) ->
    ends_or (confused q) (let! k := get_cert_key in f k) q1 (private_result q)).
  { intros f Hf. eapply ends_or_bind; [by apply ends_cert_key|]. intros k q2 Ek [[p2 A2] Hr]. apply (Hf _ _ _ Ek (after_trans _ _ _ _ _ Ha A2) Hr). }
  assert (HX : forall k q2, get_cert_key q1 = (Ok k, q2) -> sshkey_type_plain (k_type k) <> sshkey_type_plain t ->
    ends_or (confused q) (cfault : M Z queue sshkey) q2 (private_result q)) by (intros k q2 Ek Hk; exact (HC k q2 Ek Hk)).
  assert (T : t = KEY_DSA_CERT \/ t = KEY_ECDSA_CERT \/ t = KEY_RSA_CERT \/ t = KEY_ED25519_CERT \/ False).
  { revert Hcert. unfold sshkey_type_from_name in Et. subst t. unfold sshkey_type_from_name. destruct (List.find _ keytypes) as [kt|] eqn:F; [|done].
    apply List.find_some in F as [F _]. cbn in F. repeat destruct F as [<- | F]; try done; try (intros _; by left); try (intros _; right; by left);
      try (intros _; do 2 right; by left); try (intros _; do 3 right; by left). }
  destruct T as [-> | [-> | [-> | [-> | []]]]].
  - change (private_parts KEY_DSA_CERT tname) with (let! k := get_cert_key in match k_dsa k with
      | None => cfault
      | Some d => let! x := get_bignum2 in cret (set_dsa (Dsa (dsa_p d) (dsa_q d) (dsa_g d) (dsa_pub_key d) (Some x)) k) end).
    apply HR. intros k q2 p2 Ek A2 [(c & u & ->)| ->]; [|by eapply HX].
    destruct u as [e n|p qq g y|nid p|pk]; try (eapply HX; [exact Ek|by rewrite roomy_type]).
    apply ends_or_of. eapply ends_bn; [exact A2|]. intros x p3 q3 A3. apply ends_ret, private_ok_result. split; [by eexists|]. by exists c, (PDsa p qq g y), (VDsa x).
  - change (private_parts KEY_ECDSA_CERT tname) with (let! k := get_cert_key in let! x := get_bignum2 in
      match k_ecdsa k with None => cfault | Some e => set_ec_private e x k end).
    apply HR. intros k q2 p2 Ek A2 Hk. eapply (ends_or_bind _ _ _ _ (fun _ q3 => exists p3, after q p3 q3)).
    { apply ends_bignum; [by destruct (after_bytes _ _ _ A2)|]. intros v p3 q3 A3 _. eexists. by eapply after_trans. }
    intros x q3 _ [p3 A3]. destruct Hk as [(c & u & ->)| ->]; [|exact (HC _ _ Ek ltac:(done))].
    destruct u as [e n|p qq g y|nid p|pk]; try (exact (HC _ _ Ek ltac:(by rewrite roomy_type))).
    apply ends_or_of. eapply ends_mono; [|intros ? ?; apply private_ok_result]. by eapply (ends_ec_private _ _ _ nid p None x c).
  - change (private_parts KEY_RSA_CERT tname) with (let! k := get_cert_key in match k_rsa k with None => cfault | Some r => get_rsa_private (rsa_n r) (rsa_e r) k end).
    apply HR. intros k q2 p2 Ek A2 [(c & u & ->)| ->]; [|by eapply HX].
    destruct u as [e n|p qq g y|nid p|pk]; try (eapply HX; [exact Ek|by rewrite roomy_type]).
    apply ends_or_of. eapply ends_mono; [|intros ? ?; apply private_ok_result]. by eapply (ends_rsa_private _ _ _ n e c).
  - change (private_parts KEY_ED25519_CERT tname) with (let! k := get_cert_key in get_ed25519 k).
    apply HR. intros k q2 p2 Ek A2 Hk. apply ends_or_of. eapply ends_ed25519; [exact A2|]. intros pk sk p3 q3 A3. split; [by eexists|].
    destruct Hk as [(c & u & ->)| ->]; [|left; exact (HC _ _ Ek ltac:(done))].
    destruct u as [e n|p qq g y|nid p|pk']; try (left; exact (HC _ _ Ek ltac:(by rewrite roomy_type))).
    right. by exists c, (PEd pk), (VEd sk).
Qed.

Lemma ends_alloc_private {A} t k (f : sshkey -> M Z queue A) q Q : sshkey_new_private t = Some k ->
  ends asserts (f k) q Q -> ends asserts (let! k := alloc_private t in f k) q Q.
Proof. intros Hk. unfold alloc_private. by rewrite Hk. Qed.
Lemma ends_plain_private q q1 t tname pre : sshkey_type_is_cert t = false -> after q pre q1 ->
  ends asserts (private_parts t tname) q1 (private_ok q).
Proof.
  intros Hcert Ha. destruct (after_bytes _ _ _ Ha) as [_ Hb]. unfold private_parts.
  destruct (Z.eqb_spec t KEY_DSA) as [->|_].
  { eapply ends_alloc_private; [reflexivity|]. eapply ends_bn; [exact Ha|]. intros p p1 q2 A1. eapply ends_bn; [exact A1|]. intros qq p2 q3 A2.
    eapply ends_bn; [exact A2|]. intros g p3 q4 A3. eapply ends_bn; [exact A3|]. intros y p4 q5 A4. eapply ends_bn; [exact A4|]. intros x p5 q6 A5.
    apply ends_ret. split; [by eexists|]. by exists None, (PDsa p qq g y), (VDsa x). }
  destruct (Z.eqb_spec t KEY_DSA_CERT) as [->|_]; [done|]. destruct (Z.eqb_spec t KEY_ECDSA) as [->|_].
  { eapply ends_alloc_private; [reflexivity|]. cbn zeta. apply ends_bind, ends_guard; [done|]. intros _. apply ends_bind, ends_cstring; [done|].
    intros curve q2 A1. destruct (after_bytes _ _ _ A1) as [_ B1]. apply ends_bind, ends_guard; [done|]. intros _. apply ends_bind, ends_guard; [done|]. intros _.
    apply ends_bind. eapply ends_ec_point; [done|]. intros p p2 q3 A2. pose proof (after_trans _ _ _ _ _ (after_trans _ _ _ _ _ Ha A1) A2) as A3.
    eapply ends_bn; [exact A3|]. intros x p4 q5 A4. by eapply (ends_ec_private _ _ _ _ p None x None). }
  destruct (Z.eqb_spec t KEY_ECDSA_CERT) as [->|_]; [done|]. destruct (Z.eqb_spec t KEY_RSA) as [->|_].
  { eapply ends_alloc_private; [reflexivity|]. eapply ends_bn; [exact Ha|]. intros n p1 q2 A1. eapply ends_bn; [exact A1|]. intros e p2 q3 A2.
    by eapply (ends_rsa_private _ _ _ n e None). }
  destruct (Z.eqb_spec t KEY_RSA_CERT) as [->|_]; [done|]. destruct (Z.eqb_spec t KEY_ED25519) as [->|_].
  { eapply ends_alloc_private; [reflexivity|]. eapply ends_ed25519; [exact Ha|]. intros pk sk p1 q2 A1. split; [by eexists|]. by exists None, (PEd pk), (VEd sk). }
  destruct (Z.eqb_spec t KEY_ED25519_CERT) as [->|_]; [done|]. by apply ends_raise.
Qed.

Lemma ends_deserialize q : bytes (q_bytes q) -> ends_or (confused q) sshkey_private_deserialize q (private_result q).
Proof.
  intros Hb. unfold sshkey_private_deserialize.
  assert (HF : forall k q', private_result q k q' -> ends_or (confused q) (enable_blinding k ;! cret k) q' (private_result q)).
  { intros k q' Hr. unfold enable_blinding. destruct (rsa_type (k_type k)) eqn:Et; [|exact Hr]. destruct (k_rsa k) as [r|] eqn:Er.
    - unfold ends_or, cbind, guard. by destruct (RSA_blinding_on r).
    - destruct Hr as [_ [Hr|(c & u & v & Hk)]]; [exact Hr|]. exfalso. destruct u, v; try done; injection Hk as <-; destruct c; done. }
  eapply (ends_or_bind _ _ _ _ (fun _ q1 => exists pre, after q pre q1)); [apply ends_cstring; [done|]; intros s q' A; by eexists|].
  intros tname q1 E [pre Ha]. set (t := sshkey_type_from_name tname).
  assert (HP : ends_or (confused q) (private_parts t tname) q1 (private_result q)).
  { destruct (sshkey_type_is_cert t) eqn:Ec; [by eapply ends_cert_private|]. apply ends_or_of.
    eapply ends_mono; [by eapply ends_plain_private|]. intros ? ?. apply private_ok_result. }
  unfold ends_or in HP |- *. unfold cbind at 1. destruct (private_parts t tname q1) as [[k|e| |] q2]; try exact HP. exact (HF k q2 HP).
Qed.

End Priv.

Module ToyPriv.
(** Private keys are 0 and 1; the order is too small to refuse 1. *)
Definition prims : PrivPrims (C := Toy.toy) := {|
  scalar_bn := fun d : @scalar Toy.toy => if d : bool then 5 else 4;
  scalar_of := fun _ x => if x =? 5 then Some (true : @scalar Toy.toy) else if x =? 4 then Some (false : @scalar Toy.toy) else None;
  ec_order := fun _ => 15;
  RSA_blinding_on := fun _ => true
|}.
End ToyPriv.

Definition toy_private : RSA_private := RsaPrivate 11 3 7 5 5 3.
Lemma private_key_roundtrip_witness :
  exists k, full_key (C := Toy.toy) None (PRsa 3 35) (VRsa toy_private) = Some k /\
  new_buf (sshkey_private_serialize (EO := ToyKeys.ecoct) (PP := ToyPriv.prims) k) =
    Ok (private_bytes (EO := ToyKeys.ecoct) (PP := ToyPriv.prims) None (PRsa 3 35) (VRsa toy_private)) /\
  sshkey_private_deserialize (CU := ToySsh.curves) (SP := ToySsh.sigs) (PP := ToyPriv.prims) true
    (Queue (private_bytes (EO := ToyKeys.ecoct) (PP := ToyPriv.prims) None (PRsa 3 35) (VRsa toy_private) ++ [1; 2]) 100 true) = (Ok k, Queue [1; 2] 100 true).
Proof.
  eexists. split; [reflexivity|].
  apply (private_key_roundtrip (PP := ToyPriv.prims) (OL := ToyKeys.ecoct_laws) (CL := ToySsh.curves_laws) (SP := ToySsh.sigs) true None (PRsa 3 35) (VRsa toy_private)).
  - split; split; vm_compute; discriminate.
  - repeat split; vm_compute; discriminate.
  - discriminate.
  - reflexivity.
  - vm_compute. discriminate.
Defined.

(** An RSA certificate is announced and an Ed25519 key follows. *)
Definition toy_confused : queue := Queue (str32 (zs "ssh-rsa-cert-v01@openssh.com") ++ str32 (str32 (zs "ssh-ed25519") ++ str32 (zrepeat 32 1))) 200 true.
Lemma private_cert_confusion_faults :
  fst (sshkey_private_deserialize (CU := ToySsh.curves) (SP := ToySsh.sigs) (PP := ToyPriv.prims) true toy_confused) = Fault.
Proof. vm_compute. reflexivity. Qed.
